(* ===== verification/_CoqProject ===== *)
-Q . S2P
Prelude.v
Buffer.v
Channel.v
Multiplexer.v
EPoller.v
Poller.v
CFormat.v
Endian.v
Date.v
TimeZone.v
Timestamp.v
UInt.v
UIntApps.v
TimerQueue.v
EventLoop.v
TcpConnection.v
Connector.v
LogStream.v
Codec.v
TcpServer.v
TcpClient.v
Monitor.v
EventLoopThread.v
BlockingQueue.v
ThreadPool.v
CountDownLatch.v
AsyncLogging.v
LogFile.v
Logging.v
Vector.v
SegmentTree.v
Ring.v
Heap.v
Sorts.v
Sudoku.v
Queens.v
DancingLinks.v
QueensDance.v
SudokuDance.v
Bst.v
HashSets.v
CountingSorts.v
ShellSort.v
WaterPour.v
LinkedLists.v
HashMaps.v
