(* ===== verification/Prelude.v ===== *)
(** * Verification of the recipes

    The repository is a collection of C++ programs and libraries.  This
    development models those of its own that have logic to verify: the
    reactor library [reactor/s13] with what it rests on ([datetime],
    [thread], [logging]), the message codec [protobuf/codec.h], the big
    numbers of [basic] with the programs that use them, the containers and
    sorts of [datastruct], the solvers of [sudoku] and the searches of
    [puzzle].  All paths below are relative to [src/].

    ** How code is modelled

    A function that can end the program returns an [outcome]: a value, or
    [Fail] with the reason (a failed [assert], [LOG_FATAL], an exception that
    escapes, undefined behaviour).  "No failure" in a theorem means all four.
    Machine integers are [Z]; where the code computes in [size_t],
    [uint64_t] or [uint32_t] the model wraps at that width ([u64], [u32]),
    and where it computes in [int] or [int64_t] a result out of range is
    [Undefined] ([ints], [longs]).  Objects the code shares through pointers
    live in a heap, a [gmap] from addresses, and addresses may be used again.  Threads are
    interleaved step by step: a step relation takes one atomic instruction of
    any thread that can go on.  Code outside the repository is a class with
    its operations and another with the laws its documentation states, or its
    answer is an argument of the event it belongs to (a result of [write(2)],
    the time, [errno]), so that the theorems hold for every answer.

    ** The reactor

    [EventLoop] owns a poller; each [Channel] asks the poller to watch one
    descriptor and dispatches what happens on it.  [TimerQueue] is a channel
    on a timer descriptor, [Connector], [Acceptor] and [TcpConnection] are
    channels on sockets, and [TcpServer] spreads connections over a pool of
    loops.

    - [Buffer.v]: [Buffer] of [reactor/s13/Buffer.h] and [Buffer.cc].  The
      abstract object is a queue of bytes.
    - [Channel.v]: [Channel.h], [Channel.cc].  [handleEvent] with callbacks
      as state transformers of the heap of channels.
    - [Multiplexer.v]: no code of its own; the classes [Multiplexer] and
      [MultiplexerLaws] say what a poller promises to channels.
    - [EPoller.v]: [EPoller.h], [EPoller.cc].  It discharges
      [MultiplexerLaws] over the classes [Epoll] and [EpollLaws], which stand
      for the kernel.
    - [Poller.v]: [Poller.h], [Poller.cc], the poll(2) variant; it breaks one
      law ([reenable_ignored]).
    - [TimerQueue.v]: [Timer.h], [Timer.cc], [TimerId.h], [TimerQueue.h],
      [TimerQueue.cc].
    - [EventLoop.v]: [EventLoop.h], [EventLoop.cc].  [exec] and the
      stacks of instructions ([instr]) interleave the loop with any number of threads
      that queue functors and quit.
    - [TcpConnection.v]: [TcpConnection.h], [TcpConnection.cc], on [Buffer]
      and [Channel].
    - [Connector.v]: [Connector.h], [Connector.cc].
    - [TcpServer.v]: [TcpServer.h], [TcpServer.cc],
      [EventLoopThreadPool.h], [EventLoopThreadPool.cc].
    - [TcpClient.v]: [TcpClient.h], [TcpClient.cc], on [Connector].
    - [EventLoopThread.v]: [EventLoopThread.h], [EventLoopThread.cc], on the
      threads of [Monitor].

    Theorems: the buffer refines its queue; the kernel watches exactly what
    the channels ask for; events reach their callbacks in order; due timers
    run in order and once, cancelled ones do not, and the loop touches no
    dead timer (another thread may, at the end of its own [addTimer]); no
    wake-up of a loop is lost but those that come before [loop()], and queued
    functors run once, in order, in the loop thread; both byte streams of a
    connection are intact in every legal run, its callbacks come once and its
    output drains; the connector leaks no socket and retries with growing
    delays; the server, started in its own thread and told once of each close,
    destroys every connection in its own loop with no failure under every
    schedule of its loops; the client adopts every socket of its connector
    once and uses nothing that is gone; a thread with a loop ends unless it is
    told to before the loop has begun.

    ** Threads and logging

    - [Monitor.v]: [MutexLock], [MutexLockGuard] and [Condition] of
      [thread/Mutex.h] and [thread/Condition.h]: the interleaving semantics
      of member functions written as [code] trees, spurious wake-ups
      included, and what holds for every client ([typed], mutual exclusion,
      what a state without steps looks like).
    - [BlockingQueue.v], [ThreadPool.v], [CountDownLatch.v]: the clients of
      [thread/BlockingQueue.h], [BoundedBlockingQueue.h], [ThreadPool.h],
      [ThreadPool.cc] and [CountDownLatch.h].
    - [LogStream.v]: [logging/LogStream.h], [LogStream.cc]: the abstract
      object is a bounded text.
    - [LogFile.v]: [logging/LogFile.h], [LogFile.cc]: rolling and flushing;
      whether [fopen] succeeds is an argument.
    - [Logging.v]: [logging/Logging.h], [Logging.cc]: what a log statement
      prints, on [LogStream], [Timestamp], [TimeZone] and [Date].
    - [AsyncLogging.v]: [logging/AsyncLoggingDoubleBuffering.h], on
      [Monitor] and the buffers of [LogStream].

    Theorems: order and multiplicity of values and tasks under every
    interleaving, no lost wake-up (a state where nobody can step is one where
    everybody is rightly waiting), a bound on the length of every run without
    spurious wake-ups, no wait on a latch passing early, no log line lost or
    reordered between [append] and the file while the logger runs.

    ** Time, numbers, messages

    - [CFormat.v], [Endian.v]: the [snprintf] conversions and the big-endian
      integers of the standard library the code uses.
    - [Date.v], [TimeZone.v], [Timestamp.v]: [datetime/Date.h], [Date.cc],
      [TimeZone.h], [TimeZone.cc], [Timestamp.h], [Timestamp.cc].  Day
      numbers are compared with a calendar defined by its leap years only;
      zone files with an encoder of the published format.
    - [UInt.v]: [basic/uint.h], [uint.cc]: every operation against the
      arithmetic of [Z], and both text formats.
    - [UIntApps.v]: [basic/fibonacci.cc], [factorial.cc], [combination.cc],
      [exact.cc].
    - [Codec.v]: [protobuf/codec.h] and the dispatcher of
      [protobuf/dispatcher_lite.cc], over the classes [Protobuf] and
      [ProtobufLaws].

    ** Containers

    - [Vector.v]: [operator[]] of [std::vector], arrays as permutations.
    - [SegmentTree.v]: [datastruct/segment_tree.cpp], [max_segment_tree.cpp]
      against the array they stand for, [int] overflow included.
    - [Ring.v]: [datastruct/circle_array_queue.cpp],
      [circle_array_deque.cpp], [cycle_array.cpp] against a bounded list.
    - [Heap.v]: [datastruct/priority_queue.cpp],
      [simple_priority_queue.cpp] against a bag.
    - [Sorts.v]: [datastruct/insert_sort.h], [bubble_sort.h],
      [select_sort.h], [quick_sort.h], [merge_sort.h], [heap_sort.h].
    - [CountingSorts.v]: [datastruct/counting_sort.h], [radix_sort.h]: the
      values they can sort, and that they sort those.
    - [ShellSort.v]: [datastruct/shell_sort.h], [binary_search.h].
    - [Bst.v]: [datastruct/bst.cpp] against a finite map with ordered keys.
    - [HashSets.v]: [datastruct/myhashset.h], [LinearProbingHashSet.h]
      against a finite set, for every hash function.
    - [HashMaps.v]: [datastruct/list_hash.cpp], [array_hash.cpp],
      [list_hashmap.h], [list_hashset.h], [list_hashset_direct.h] against
      finite maps and lists of pairs in the order of insertion.
    - [LinkedLists.v]: [datastruct/list.cpp], [double_list.cpp], on a heap of
      nodes, against a list with indices.

    ** Searches

    - [Sudoku.v]: [sudoku/neighbor.cc], [sudoku_basic.cc],
      [sudoku_min_arity.cc], [sudoku_min_arity_cache.cc] and the loop of
      [main.cc]: the three solvers by backtracking are complete searches.
    - [Queens.v]: [puzzle/nqueens.cc], [nqueens_mt.cc], [nqueens_opt.cc],
      [nqueens_opt_mt.cc]: permutations, arrays, bit masks and threads give
      the number of placements in which no queen attacks another.
    - [WaterPour.v]: [puzzle/waterpour.cc]: its breadth-first search finds a
      shortest way to measure the target.
    - [DancingLinks.v]: the linked rings of [sudoku/sudoku_dancing_links.cc]
      and [puzzle/nqueens_dl.cc]: [cover] and [uncover] undo each other, and
      the search visits every exact cover once.  [holds] says by names which
      columns and rows were built.
    - [QueensDance.v], [SudokuDance.v]: the two programs on it.  The first
      counts the placements, the second finds a grid exactly if there is one
      and agrees with the solvers of [Sudoku.v].

    ** Fuel

    Loops that are not structural carry fuel, and running out of it is a
    failure like any other, so a theorem that says "no failure" also says
    that the fuel is enough: the digits of a number (its size in bits), the
    search in a zone file (its length), the decoding of a buffer (its
    length), the sorts and heaps (the number of elements), the recursion of
    a segment tree (the length of its range), the solvers (the spaces left),
    the queens programs (the rows left; [N!] permutations; 33 for the bits of
    a mask), a walk along a ring (the nodes in the heap and one more), the
    search in the rings (the columns and one more), the growth of a hash set
    (2: a table that just grew does not grow again), probing (the slots and
    one more), the digits of an [int] (11), the queue of [WaterPour.v] (six
    steps for each state with a vessel full or empty).
    The relations on threads have no fuel; where a run ends is a theorem
    ([queues_terminate], [iteration_runs_pending], [output_drains]).

    ** What the models show beside that

    Some lemmas state behaviour the code cannot have meant.  Among them:
    [Buffer.shrink_then_append_undefined], [Poller.reenable_ignored],
    [TimeZone.missing_zone_undefined], [UInt.parsed_zero_not_normal],
    [EventLoop.early_requests_wait], [TcpConnection.close_handled_twice],
    [Connector.connector_start_hazards], [Ring.reserved_push_undefined],
    [Sudoku.clash_aborts], [Queens.one_queen], [HashSets.churned],
    [HashMaps.apple_and_cherry], [WaterPour.five_of_six_and_four],
    [TimerQueue.sequence_read_too_late], [TcpServer.removed_twice],
    [TcpClient.client_hazards], [EventLoopThread.loop_thread_hazards],
    [LogFile.unopened_file_used], [TimeZone.london_1971], and the lemmas on
    [stop] in [ThreadPool.v] and [AsyncLogging.v].

    ** Not modelled

    - System call wrappers ([reactor/s13/SocketsOps.cc], [Socket.cc],
      [InetAddress.cc], most of [thread/Thread.cc]): they pass the kernel's
      answers on, and the answers are arguments of the models.
    - [Acceptor] of [reactor/s13] and [logging/AsyncLoggingQueue.h]: thin
      layers over modelled components.
    - [double] arithmetic: [addTime], [timeDifference] (delays are
      microseconds in [TimerQueue.v]), what [snprintf] prints for a [double].
    - Reference counts, but for those of [TcpClient.v]: that [shared_ptr]
      keeps a connection alive while a functor holds it is the assumption
      behind [TcpServer.v].
    - Want of resources: [epoll_ctl] on a descriptor that is open fails in no
      other way than [EpollLaws] says, threads can be created, memory does not
      run out.
    - The wrappers of [std::list], the filters and the remaining algorithms of
      [datastruct], [algorithm] and the rest of [puzzle]: not done.
    - The stages [reactor/s00] to [s12] are earlier versions of [s13].
    - Tests, benchmarks, wrappers of other libraries ([ssl], [digest],
      [tpc], [faketcp]), the programs of [topk] and [esort] (almost all of it
      I/O), [leetcode] (unrelated answers to exercises), [cpp] (copies of
      textbook examples and of third-party libraries), and code in other
      languages.

    This file holds what the others share: outcomes, machine integers, bytes,
    reachability in step relations, and lemmas on lists and byte arrays. *)
From stdpp Require Export base tactics list gmap strings option relations.
From Stdlib Require Export ZArith Lia.
From Stdlib Require Import Strings.Byte.

#[export] Set Default Goal Selector "!".
#[global] Open Scope Z_scope.

(** ** Outcomes of C++ code

    A C++ function of this repository either returns, or ends the program:
    [assert] fails, [LOG_FATAL]/[LOG_SYSFATAL] aborts, an exception escapes,
    or the behaviour is undefined (a container accessed out of range, a
    dangling pointer). *)
Inductive failure : Type :=
| AssertFail
| LogFatal
| Exception
| Undefined.

Inductive outcome (A : Type) : Type :=
| Ok (a : A)
| Fail (why : failure).
Arguments Ok {A} a.
Arguments Fail {A} why.

#[export] Instance failure_eq_dec : EqDecision failure.
Proof. solve_decision. Defined.
#[export] Instance outcome_eq_dec {A} `{EqDecision A} : EqDecision (outcome A).
Proof. solve_decision. Defined.

#[export] Instance outcome_ret : MRet outcome := fun A a => Ok a.
#[export] Instance outcome_bind : MBind outcome :=
  fun A B f m => match m with Ok a => f a | Fail w => Fail w end.
#[export] Instance outcome_fmap : FMap outcome :=
  fun A B f m => match m with Ok a => Ok (f a) | Fail w => Fail w end.

(** [assert(b)] with assertions enabled. *)
Definition assert_ (b : bool) : outcome unit :=
  if b then Ok tt else Fail AssertFail.

(** A check whose failure is undefined behaviour, e.g. [v[i]] out of range. *)
Definition defined_ (b : bool) : outcome unit :=
  if b then Ok tt else Fail Undefined.

Definition from_some {A} (w : failure) (o : option A) : outcome A :=
  match o with Some a => Ok a | None => Fail w end.

Definition is_ok {A} (m : outcome A) : bool :=
  match m with Ok _ => true | Fail _ => false end.

Lemma bind_ok {A B} (m : outcome A) (f : A -> outcome B) b :
  (m ≫= f) = Ok b <-> exists a, m = Ok a /\ f a = Ok b.
Proof.
  destruct m as [a|w]; simpl; split.
  - eauto.
  - intros (a' & [= <-] & ?). done.
  - done.
  - intros (a' & ? & ?). done.
Qed.

Lemma bind_assoc {A B C} (m : outcome A) (f : A -> outcome B) (g : B -> outcome C) :
  (m ≫= f) ≫= g = m ≫= (fun a => f a ≫= g).
Proof. destruct m; done. Qed.

Lemma bind_ext {A B} (m : outcome A) (f g : A -> outcome B) :
  (forall a, m = Ok a -> f a = g a) -> m ≫= f = m ≫= g.
Proof. intros Hfg. destruct m; simpl; auto. Qed.

Lemma assert_ok b u : assert_ b = Ok u <-> b = true.
Proof. destruct b, u; simpl; split; done. Qed.

Lemma defined_ok b u : defined_ b = Ok u <-> b = true.
Proof. destruct b, u; simpl; split; done. Qed.

Lemma from_some_ok {A} w (o : option A) a : from_some w o = Ok a <-> o = Some a.
Proof. destruct o; simpl; split; congruence. Qed.

(** Monadic left fold: a [for] loop whose body may fail. *)
Fixpoint foldM {A B} (f : B -> A -> outcome B) (b : B) (l : list A) : outcome B :=
  match l with
  | [] => Ok b
  | a :: l' => b' ← f b a; foldM f b' l'
  end.

Lemma foldM_app {A B} (f : B -> A -> outcome B) b l1 l2 :
  foldM f b (l1 ++ l2) = (b' ← foldM f b l1; foldM f b' l2).
Proof.
  revert b. induction l1 as [|a l1 IH]; intros b; simpl; [done|].
  destruct (f b a); simpl; auto.
Qed.

(** A loop invariant of [foldM]: indexed by the part already processed. *)
Lemma foldM_inv {A B} (P : list A -> B -> Prop) (f : B -> A -> outcome B) b l :
  P [] b ->
  (forall done_ a rest b, l = done_ ++ a :: rest -> P done_ b ->
     exists b', f b a = Ok b' /\ P (done_ ++ [a]) b') ->
  exists b', foldM f b l = Ok b' /\ P l b'.
Proof.
  intros H0 Hstep.
  assert (G : forall todo done_ b, l = done_ ++ todo -> P done_ b ->
             exists b', foldM f b todo = Ok b' /\ P l b').
  { induction todo as [|a todo IH]; intros dn b1 Hl HP; simpl.
    - exists b1. split; [done|]. rewrite Hl, app_nil_r. done.
    - destruct (Hstep dn a todo b1 Hl HP) as (b2 & -> & HP2). simpl.
      apply (IH (dn ++ [a])); [|done]. rewrite <- app_assoc. done. }
  apply (G l [] b); done.
Qed.

(** ** Fixed-width integers *)

(** The value of an unsigned [w]-bit integer, modulo [2^w]. *)
Definition wrapu (w z : Z) : Z := z mod 2 ^ w.
(** The value of a signed [w]-bit integer in two's complement. *)
Definition wraps (w z : Z) : Z := (z + 2 ^ (w - 1)) mod 2 ^ w - 2 ^ (w - 1).

Abbreviation u64 := (wrapu 64).
Abbreviation u32 := (wrapu 32).
Abbreviation u16 := (wrapu 16).
Abbreviation u8 := (wrapu 8).
Abbreviation i32 := (wraps 32).
Abbreviation i16 := (wraps 16).
Abbreviation i64 := (wraps 64).

Lemma wrapu_small w z : 0 <= z < 2 ^ w -> wrapu w z = z.
Proof. intros. apply Z.mod_small. lia. Qed.

Lemma wrapu_range w z : 0 <= w -> 0 <= wrapu w z < 2 ^ w.
Proof. intros. apply Z.mod_pos_bound. lia. Qed.

Lemma wraps_small w z :
  0 < w -> - 2 ^ (w - 1) <= z < 2 ^ (w - 1) -> wraps w z = z.
Proof.
  intros Hw Hz. unfold wraps.
  assert (2 ^ w = 2 * 2 ^ (w - 1)).
  { rewrite <- Z.pow_succ_r by lia. f_equal. lia. }
  rewrite Z.mod_small; lia.
Qed.

Lemma wraps_range w z :
  0 < w -> - 2 ^ (w - 1) <= wraps w z < 2 ^ (w - 1).
Proof.
  intros Hw. unfold wraps.
  assert (2 ^ w = 2 * 2 ^ (w - 1)).
  { rewrite <- Z.pow_succ_r by lia. f_equal. lia. }
  pose proof (Z.mod_pos_bound (z + 2 ^ (w - 1)) (2 ^ w)). lia.
Qed.

(** Testing a bit with a mask. *)
Lemma land_pow2_testbit x n : 0 <= n -> (Z.land x (2 ^ n) =? 0) = negb (Z.testbit x n).
Proof.
  intros Hn.
  assert (Hb : Z.land x (2 ^ n) = if Z.testbit x n then 2 ^ n else 0).
  { apply Z.bits_inj'. intros k Hk. rewrite Z.land_spec.
    destruct (decide (k = n)) as [->|Hne].
    - rewrite Z.pow2_bits_true by done. rewrite andb_true_r.
      destruct (Z.testbit x n) eqn:E; [by rewrite Z.pow2_bits_true|by rewrite Z.bits_0].
    - rewrite Z.pow2_bits_false by done. rewrite andb_false_r.
      destruct (Z.testbit x n); [by rewrite Z.pow2_bits_false|by rewrite Z.bits_0]. }
  rewrite Hb. destruct (Z.testbit x n); [|done].
  pose proof (Z.pow_pos_nonneg 2 n). destruct (Z.eqb_spec (2 ^ n) 0); [lia|done].
Qed.

(** All intermediate results of an [int] expression are representable. *)
Definition in_int (z : Z) : bool := (- 2 ^ 31 <=? z) && (z <? 2 ^ 31).
Definition ints (l : list Z) : outcome unit := defined_ (forallb in_int l).

(** The same for 64-bit [long] and [time_t]. *)
Definition in_long (z : Z) : bool := (- 2 ^ 63 <=? z) && (z <? 2 ^ 63).
Definition longs (l : list Z) : outcome unit := defined_ (forallb in_long l).

Lemma in_int_spec z : in_int z = true <-> - 2 ^ 31 <= z < 2 ^ 31.
Proof. unfold in_int. rewrite andb_true_iff, Z.leb_le, Z.ltb_lt. done. Qed.

Lemma ints_ok l : Forall (fun z => - 2 ^ 31 <= z < 2 ^ 31) l -> ints l = Ok tt.
Proof.
  intros Hl. unfold ints, defined_. replace (forallb in_int l) with true; [done|].
  symmetry. apply forallb_forall. rewrite Forall_forall in Hl.
  intros z Hz. apply in_int_spec, Hl. by apply list_elem_of_In.
Qed.

Lemma longs_ok l : Forall (fun z => - 2 ^ 63 <= z < 2 ^ 63) l -> longs l = Ok tt.
Proof.
  intros Hl. unfold longs, defined_. replace (forallb in_long l) with true; [done|].
  symmetry. apply forallb_forall. rewrite Forall_forall in Hl. intros z Hz.
  unfold in_long. rewrite andb_true_iff, Z.leb_le, Z.ltb_lt. apply Hl. by apply list_elem_of_In.
Qed.

(** ** Byte sequences *)

Abbreviation byte := Byte.byte.

Definition byte_to_Z (b : byte) : Z := Z.of_N (Byte.to_N b).
Definition byte_of_Z (z : Z) : byte :=
  match Byte.of_N (Z.to_N (wrapu 8 z)) with Some b => b | None => x00 end.

#[export] Instance byte_eq_dec : EqDecision byte := Byte.byte_eq_dec.

Lemma byte_to_Z_range b : 0 <= byte_to_Z b < 256.
Proof. unfold byte_to_Z. pose proof (Byte.to_N_bounded b). lia. Qed.

Lemma byte_of_to_Z b : byte_of_Z (byte_to_Z b) = b.
Proof. destruct b; reflexivity. Qed.

Lemma byte_to_of_Z z : byte_to_Z (byte_of_Z z) = wrapu 8 z.
Proof.
  unfold byte_of_Z, byte_to_Z.
  pose proof (wrapu_range 8 z ltac:(lia)) as Hr.
  destruct (Byte.of_N (Z.to_N (wrapu 8 z))) as [b|] eqn:E.
  - apply Byte.to_of_N in E. rewrite E. apply Z2N.id. lia.
  - apply Byte.of_N_None_iff in E. lia.
Qed.

(** The length of a list as an integer ([size_t] of a container). *)
Definition zlen {A} (l : list A) : Z := Z.of_nat (length l).

Lemma zlen_nonneg {A} (l : list A) : 0 <= zlen l.
Proof. unfold zlen. lia. Qed.
Lemma zlen_nil {A} : zlen (@nil A) = 0.
Proof. done. Qed.
Lemma zlen_cons {A} (a : A) l : zlen (a :: l) = 1 + zlen l.
Proof. unfold zlen. simpl. lia. Qed.
Lemma zlen_app {A} (l1 l2 : list A) : zlen (l1 ++ l2) = zlen l1 + zlen l2.
Proof. unfold zlen. rewrite length_app. lia. Qed.
Lemma zlen_take {A} n (l : list A) :
  0 <= n <= zlen l -> zlen (take (Z.to_nat n) l) = n.
Proof. unfold zlen. rewrite length_take. lia. Qed.
Lemma zlen_drop {A} n (l : list A) :
  0 <= n <= zlen l -> zlen (drop (Z.to_nat n) l) = zlen l - n.
Proof. unfold zlen. rewrite length_drop. lia. Qed.
Lemma zlen_replicate {A} n (a : A) : 0 <= n -> zlen (replicate (Z.to_nat n) a) = n.
Proof. unfold zlen. rewrite length_replicate. lia. Qed.

Create HintDb recipes.
Create Rewrite HintDb zlen.
#[export] Hint Rewrite @zlen_nil @zlen_cons @zlen_app : zlen.
#[export] Hint Resolve zlen_nonneg byte_to_Z_range : recipes.

(** ** Tactics *)

(** Turn a successful run of monadic code into the facts it passed. *)
Ltac inv_ok :=
  repeat match goal with
    | H : Ok _ = Ok _ |- _ => injection H as H; try subst
    | H : Fail _ = Ok _ |- _ => discriminate H
    | H : (_ ≫= _) = Ok _ |- _ => apply bind_ok in H; destruct H as (? & ? & H)
    | H : assert_ _ = Ok _ |- _ => apply assert_ok in H
    | H : defined_ _ = Ok _ |- _ => apply defined_ok in H
    | H : from_some _ _ = Ok _ |- _ => apply from_some_ok in H
    | H : mret _ = Ok _ |- _ => unfold mret, outcome_ret in H
    | H : context [let '(_, _) := ?p in _] |- _ => destruct p eqn:?
    end.

(** Split every conjunction and existential of the context. *)
Ltac deex := repeat match goal with
  | H : exists _, _ |- _ => destruct H
  | H : _ /\ _ |- _ => destruct H
  end.

(** Case analysis on the boolean tests of integers in the goal. *)
Ltac case_bool := match goal with
  | |- context [?a =? ?b] => destruct (Z.eqb_spec a b)
  | |- context [?a <? ?b] => destruct (Z.ltb_spec a b)
  | |- context [?a <=? ?b] => destruct (Z.leb_spec a b)
  end.

(** Reflect boolean facts of the context as propositions. *)
Ltac bool_facts := repeat match goal with
  | H : (_ && _)%bool = true |- _ => apply andb_true_iff in H; destruct H
  | H : (_ =? _) = true |- _ => apply Z.eqb_eq in H
  | H : (_ =? _) = false |- _ => apply Z.eqb_neq in H
  | H : (_ <? _) = true |- _ => apply Z.ltb_lt in H
  | H : (_ <? _) = false |- _ => apply Z.ltb_ge in H
  | H : (_ <=? _) = true |- _ => apply Z.leb_le in H
  | H : (_ <=? _) = false |- _ => apply Z.leb_gt in H
  | H : bool_decide _ = true |- _ => apply bool_decide_eq_true in H
  | H : bool_decide _ = false |- _ => apply bool_decide_eq_false in H
  | H : negb _ = true |- _ => apply negb_true_iff in H
  | H : negb _ = false |- _ => apply negb_false_iff in H
  end.

(** Linear arithmetic with division and remainder by constants. *)
Ltac dlia := Z.to_euclidean_division_equations; lia.

(** ** Reachability and invariants of step relations *)

Section invariants.
Context {S : Type} (step : relation S) (inv : S -> Prop).

(** An invariant of every step holds along every run. *)
Lemma rtc_invariant s s' :
  (forall x y, inv x -> step x y -> inv y) -> inv s -> rtc step s s' -> inv s'.
Proof. intros Hp Hi Hr. induction Hr; eauto. Qed.
End invariants.

(** ** Sums over lists *)

Fixpoint sum_of {A} (f : A -> Z) (l : list A) : Z :=
  match l with [] => 0 | x :: l' => f x + sum_of f l' end.

Lemma sum_of_app {A} (f : A -> Z) l l' : sum_of f (l ++ l') = sum_of f l + sum_of f l'.
Proof. induction l as [|x l IH]; cbn [app sum_of]; lia. Qed.

Lemma sum_of_nonneg {A} (f : A -> Z) l : (forall x, 0 <= f x) -> 0 <= sum_of f l.
Proof. intros H. induction l as [|x l IH]; cbn [sum_of]; [lia|]. specialize (H x). lia. Qed.

Lemma sum_of_elem {A} (f : A -> Z) l x : (forall y, 0 <= f y) -> x ∈ l -> f x <= sum_of f l.
Proof.
  intros Hf (l1 & l2 & ->)%list_elem_of_split. rewrite sum_of_app. cbn [sum_of].
  pose proof (sum_of_nonneg f l1 Hf). pose proof (sum_of_nonneg f l2 Hf). lia.
Qed.

Lemma sum_of_permutation {A} (f : A -> Z) l l' : l ≡ₚ l' -> sum_of f l = sum_of f l'.
Proof. induction 1; cbn [sum_of]; lia. Qed.

(** ** Filters *)

Lemma filter_ext_in {A} (P Q : A -> Prop) `{!forall x, Decision (P x)} `{!forall x, Decision (Q x)} (l : list A) :
  (forall x, x ∈ l -> P x <-> Q x) -> filter P l = filter Q l.
Proof.
  induction l as [|x l IH]; intros Hpq; [done|]. rewrite !filter_cons, IH by (intros; apply Hpq; by right).
  destruct (decide (P x)), (decide (Q x)); try done; exfalso; specialize (Hpq x ltac:(by left)); tauto.
Qed.

Lemma filter_none {A} (P : A -> Prop) `{!forall x, Decision (P x)} (l : list A) : (forall x, x ∈ l -> ~ P x) -> filter P l = [].
Proof.
  induction l as [|x l IH]; intros HP; [done|]. rewrite filter_cons, decide_False by (apply HP; left). apply IH. intros y Hy. apply HP. by right.
Qed.

(** ** Ranges and bounds *)

(** What is known of the next element of a range. *)
Lemma next_of_range lo n l a rest : l ++ a :: rest = seqZ lo n -> lo <= a < lo + n /\ a ∉ l /\ (forall i, i ∈ l -> lo <= i < lo + n) /\ zlen l < n.
Proof.
  intros E. assert (NoDup (l ++ a :: rest)) as Hnd by (rewrite E; apply NoDup_seqZ).
  assert (forall i, i ∈ l ++ a :: rest -> lo <= i < lo + n) as Hr by (intros i; rewrite E; by intros ?%elem_of_seqZ).
  split; [apply Hr; set_solver|]. split; [|split; [intros i Hi; apply Hr; set_solver|]].
  - intros Ha. apply NoDup_app in Hnd as (_ & Hd & _). apply (Hd a Ha). left.
  - apply (f_equal length) in E. rewrite length_app, length_seqZ in E. cbn in E. unfold zlen. lia.
Qed.

Lemma zlen_bind_le {A B} (f : A -> list B) k l : (forall x, zlen (f x) <= k) -> zlen (l ≫= f) <= k * zlen l.
Proof.
  intros Hf. induction l as [|x l IH]; [cbn [mbind list_bind]; rewrite (zlen_nil (A:=A)), (zlen_nil (A:=B)); lia|]. rewrite bind_cons, zlen_app, zlen_cons. specialize (Hf x). lia.
Qed.

Lemma filter_all {A} (P : A -> Prop) `{!forall x, Decision (P x)} (l : list A) : (forall x, x ∈ l -> P x) -> filter P l = l.
Proof.
  induction l as [|x l IH]; intros HP; [done|]. rewrite filter_cons, decide_True by (apply HP; left). f_equal. apply IH. intros y Hy. apply HP. by right.
Qed.

Lemma zlen_filter_le {A} (P : A -> Prop) `{!forall x, Decision (P x)} (l : list A) : zlen (filter P l) <= zlen l.
Proof. unfold zlen. pose proof (length_filter P l). lia. Qed.

Lemma zlen_seqZ lo n : 0 <= n -> zlen (seqZ lo n) = n.
Proof. intros Hn. unfold zlen. rewrite length_seqZ. lia. Qed.

Lemma zlen_fmap {A B} (f : A -> B) l : zlen (f <$> l) = zlen l.
Proof. unfold zlen. by rewrite length_fmap. Qed.

(** ** Contiguous storage

    [slice l a b] is the bytes of [[a, b)]; [write_at l off d] overwrites
    the cells from [off] on, and is defined only inside the array. *)
Definition slice {A} (l : list A) (a b : Z) : list A :=
  take (Z.to_nat (b - a)) (drop (Z.to_nat a) l).

Definition write_at {A} (l : list A) (off : Z) (d : list A) : outcome (list A) :=
  if bool_decide (0 <= off /\ off + zlen d <= zlen l)
  then Ok (take (Z.to_nat off) l ++ d ++ drop (Z.to_nat (off + zlen d)) l)
  else Fail Undefined.

Section storage.
Context {A : Type}.
Implicit Types l d : list A.

Lemma zlen_slice l a b : 0 <= a <= b -> b <= zlen l -> zlen (slice l a b) = b - a.
Proof. unfold zlen, slice. intros. rewrite length_take, length_drop. lia. Qed.

Lemma slice_nil l a b : b <= a -> slice l a b = [].
Proof. intros. unfold slice. replace (Z.to_nat (b - a)) with 0%nat by lia. done. Qed.

Lemma slice_full l : slice l 0 (zlen l) = l.
Proof.
  unfold slice, zlen. rewrite drop_0.
  replace (Z.to_nat (Z.of_nat (length l) - 0)) with (length l) by lia.
  by rewrite firstn_all.
Qed.

Lemma slice_app l a b c :
  0 <= a <= b -> b <= c -> slice l a b ++ slice l b c = slice l a c.
Proof.
  intros. unfold slice.
  replace (Z.to_nat (c - a)) with (Z.to_nat (b - a) + Z.to_nat (c - b))%nat by lia.
  rewrite <- take_take_drop, drop_drop. do 3 f_equal. lia.
Qed.

Lemma slice_drop l a b n :
  0 <= a -> 0 <= n -> drop (Z.to_nat n) (slice l a b) = slice l (a + n) b.
Proof.
  intros. unfold slice. rewrite skipn_firstn_comm, drop_drop.
  f_equal; [lia|]. f_equal. lia.
Qed.

Lemma slice_app_l l d a b : 0 <= a -> b <= zlen l -> slice (l ++ d) a b = slice l a b.
Proof.
  intros. destruct (decide (a <= b)) as [Hab|]; [|by rewrite !slice_nil by lia].
  unfold slice, zlen in *. rewrite drop_app_le by lia.
  rewrite take_app_le; [done|]. rewrite length_drop. lia.
Qed.

Lemma slice_take l n a b :
  0 <= a -> b <= n -> slice (take (Z.to_nat n) l) a b = slice l a b.
Proof.
  intros. unfold slice.
  destruct (decide (a <= b)) as [Hab|]; [|
    replace (Z.to_nat (b - a)) with 0%nat by lia; done].
  rewrite skipn_firstn_comm, take_take. f_equal. lia.
Qed.

Lemma write_at_ok l off d :
  0 <= off -> off + zlen d <= zlen l ->
  write_at l off d = Ok (take (Z.to_nat off) l ++ d ++ drop (Z.to_nat (off + zlen d)) l).
Proof. intros. unfold write_at. rewrite bool_decide_eq_true_2 by done. done. Qed.

Section written.
Context (l d l' : list A) (off : Z) (H : write_at l off d = Ok l').

Lemma write_at_bounds : 0 <= off /\ off + zlen d <= zlen l.
Proof. unfold write_at in H. case_bool_decide; [done|discriminate]. Qed.

Lemma write_at_eq :
  l' = take (Z.to_nat off) l ++ d ++ drop (Z.to_nat (off + zlen d)) l.
Proof.
  pose proof write_at_bounds. unfold write_at in H.
  rewrite bool_decide_eq_true_2 in H by done. congruence.
Qed.

Lemma write_at_zlen : zlen l' = zlen l.
Proof.
  pose proof write_at_bounds. pose proof (zlen_nonneg d). rewrite write_at_eq.
  rewrite !zlen_app, zlen_take, zlen_drop by lia. lia.
Qed.

(** Reading back what was written. *)
Lemma write_at_same : slice l' off (off + zlen d) = d.
Proof.
  pose proof write_at_bounds. pose proof (zlen_nonneg d). rewrite write_at_eq.
  unfold slice, zlen in *. rewrite drop_app_length' by (rewrite length_take; lia).
  rewrite take_app_length' by lia. done.
Qed.

(** Cells before the written range keep their content. *)
Lemma write_at_before a b : 0 <= a -> b <= off -> slice l' a b = slice l a b.
Proof.
  intros. pose proof write_at_bounds. pose proof (zlen_nonneg d). rewrite write_at_eq.
  rewrite slice_app_l, slice_take; [done|lia..|]. rewrite zlen_take; lia.
Qed.

(** Cells after the written range keep their content. *)
Lemma write_at_after a b : off + zlen d <= a -> slice l' a b = slice l a b.
Proof.
  intros. pose proof write_at_bounds. pose proof (zlen_nonneg d). rewrite write_at_eq.
  unfold slice, zlen in *. rewrite app_assoc.
  rewrite drop_app_ge; rewrite length_app, length_take; [|lia].
  rewrite drop_drop. do 2 f_equal. lia.
Qed.
End written.
End storage.
