(* ===== verification/Buffer.v ===== *)
(** * Buffer: the input/output buffer of a connection

    Models [muduo::Buffer] of [reactor/s13/Buffer.h] and [Buffer.cc]: a
    [vector<char>] with a read and a write index.  Indices are [size_t]
    values, every operation wraps at 64 bits the way the code does, every
    [assert] is checked, and a copy outside the vector is undefined.  The
    theorems say that the class implements a queue of bytes: see
    [buffer_refines_queue]. *)
From Stdlib Require Import Strings.Byte.
From S2P Require Import Prelude.

Definition kCheapPrepend : Z := 8.
Definition kInitialSize : Z := 1024.
(** [vector<char>::max_size()]; [resize] beyond it throws [length_error]. *)
Definition max_size : Z := 2 ^ 63 - 1.

Record Buffer := mkBuffer {
  buffer_ : list byte;
  readerIndex_ : Z;
  writerIndex_ : Z;
}.

Definition set_indices (b : Buffer) (r w : Z) : Buffer := mkBuffer (buffer_ b) r w.

Definition readableBytes (b : Buffer) : Z := u64 (writerIndex_ b - readerIndex_ b).
Definition writableBytes (b : Buffer) : Z := u64 (zlen (buffer_ b) - writerIndex_ b).
Definition prependableBytes (b : Buffer) : Z := readerIndex_ b.

(** Pointers into the vector are offsets from [begin()]. *)
Definition peek (b : Buffer) : Z := readerIndex_ b.
Definition beginWrite (b : Buffer) : Z := writerIndex_ b.

(** [Buffer()]: value-initialised storage and the constructor's asserts. *)
Definition new_Buffer : outcome Buffer :=
  let b := mkBuffer (replicate (Z.to_nat (kCheapPrepend + kInitialSize)) x00)
             kCheapPrepend kCheapPrepend in
  _ ← assert_ (readableBytes b =? 0);
  _ ← assert_ (writableBytes b =? kInitialSize);
  _ ← assert_ (prependableBytes b =? kCheapPrepend);
  Ok b.

Definition swap (b rhs : Buffer) : Buffer * Buffer := (rhs, b).

Definition retrieve (b : Buffer) (len : Z) : outcome Buffer :=
  _ ← assert_ (len <=? readableBytes b);
  Ok (set_indices b (u64 (readerIndex_ b + len)) (writerIndex_ b)).

Definition retrieveUntil (b : Buffer) (end_ : Z) : outcome Buffer :=
  _ ← assert_ (peek b <=? end_);
  _ ← assert_ (end_ <=? beginWrite b);
  retrieve b (u64 (end_ - peek b)).

Definition retrieveAll (b : Buffer) : Buffer :=
  set_indices b kCheapPrepend kCheapPrepend.

Definition retrieveAsString (b : Buffer) : list byte * Buffer :=
  (slice (buffer_ b) (peek b) (peek b + readableBytes b), retrieveAll b).

Definition hasWritten (b : Buffer) (len : Z) : Buffer :=
  set_indices b (readerIndex_ b) (u64 (writerIndex_ b + len)).

(** [vector<char>::resize]. *)
Definition resize (v : list byte) (n : Z) : outcome (list byte) :=
  if n <=? max_size
  then Ok (take (Z.to_nat n) v ++ replicate (Z.to_nat n - length v) x00)
  else Fail Exception.

Definition makeSpace (b : Buffer) (len : Z) : outcome Buffer :=
  if u64 (writableBytes b + prependableBytes b) <? u64 (len + kCheapPrepend) then
    v ← resize (buffer_ b) (u64 (writerIndex_ b + len));
    Ok (mkBuffer v (readerIndex_ b) (writerIndex_ b))
  else
    _ ← assert_ (kCheapPrepend <? readerIndex_ b);
    let readable := readableBytes b in
    v ← write_at (buffer_ b) kCheapPrepend
          (slice (buffer_ b) (readerIndex_ b) (writerIndex_ b));
    let b' := mkBuffer v kCheapPrepend (u64 (kCheapPrepend + readable)) in
    _ ← assert_ (readable =? readableBytes b');
    Ok b'.

Definition ensureWritableBytes (b : Buffer) (len : Z) : outcome Buffer :=
  b' ← (if writableBytes b <? len then makeSpace b len else Ok b);
  _ ← assert_ (len <=? writableBytes b');
  Ok b'.

(** [append(data, len)], with [len] the number of bytes of [data]. *)
Definition append (b : Buffer) (data : list byte) : outcome Buffer :=
  b' ← ensureWritableBytes b (zlen data);
  v ← write_at (buffer_ b') (beginWrite b') data;
  Ok (hasWritten (mkBuffer v (readerIndex_ b') (writerIndex_ b')) (zlen data)).

Definition prepend (b : Buffer) (data : list byte) : outcome Buffer :=
  _ ← assert_ (zlen data <=? prependableBytes b);
  let r := u64 (readerIndex_ b - zlen data) in
  v ← write_at (buffer_ b) r data;
  Ok (mkBuffer v r (writerIndex_ b)).

(** [shrink]: a fresh vector is filled from offset [kCheapPrepend] and
    swapped in; the two indices are left as they are. *)
Definition shrink (b : Buffer) (reserve : Z) : outcome Buffer :=
  buf ← resize [] (u64 (kCheapPrepend + readableBytes b + reserve));
  v ← write_at buf kCheapPrepend
        (slice (buffer_ b) (peek b) (peek b + readableBytes b));
  Ok (mkBuffer v (readerIndex_ b) (writerIndex_ b)).

(** What [readv(2)] delivers: an errno, or the bytes read, spread over the
    writable part of the vector and the 64 KiB buffer on the stack. *)
Inductive readv_result :=
| ReadvError (err : Z)
| ReadvData (data : list byte).

Definition extrabuf_size : Z := 65536.

(** [readFd] returns the buffer, [n] and the value left in [*savedErrno]. *)
Definition readFd (b : Buffer) (res : readv_result) (savedErrno : Z) :
    outcome (Buffer * Z * Z) :=
  let writable := writableBytes b in
  match res with
  | ReadvError err => Ok (b, -1, err)
  | ReadvData data =>
      let n := zlen data in
      v ← write_at (buffer_ b) (writerIndex_ b) (take (Z.to_nat writable) data);
      let extrabuf := drop (Z.to_nat writable) data in
      if n <=? writable then
        Ok (mkBuffer v (readerIndex_ b) (u64 (writerIndex_ b + n)), n, savedErrno)
      else
        b' ← append (mkBuffer v (readerIndex_ b) (zlen v)) extrabuf;
        Ok (b', n, savedErrno)
  end.

(** ** Invariant and abstract content *)

Record wf (b : Buffer) : Prop := {
  wf_reader : 0 <= readerIndex_ b;
  wf_order : readerIndex_ b <= writerIndex_ b;
  wf_size : writerIndex_ b <= zlen (buffer_ b);
  wf_cheap : kCheapPrepend <= zlen (buffer_ b);
  wf_max : zlen (buffer_ b) <= max_size;
}.

Definition content (b : Buffer) : list byte :=
  slice (buffer_ b) (readerIndex_ b) (writerIndex_ b).

(** ** The contract: a queue of bytes *)

(** The operations of the class a client calls, with the bytes they move;
    [RetrieveUntil n] passes the pointer [peek() + n]. *)
Inductive op :=
| Append (d : list byte)
| Prepend (d : list byte)
| Retrieve (n : Z)
| RetrieveUntil (n : Z)
| RetrieveAll
| RetrieveAsString
| ReadFd (data : list byte).

Definition run_op (s : Buffer * list byte) (o : op) : outcome (Buffer * list byte) :=
  let '(b, out) := s in
  match o with
  | Append d => b' ← append b d; Ok (b', out)
  | Prepend d => b' ← prepend b d; Ok (b', out)
  | Retrieve n => b' ← retrieve b n; Ok (b', out)
  | RetrieveUntil n => b' ← retrieveUntil b (peek b + n); Ok (b', out)
  | RetrieveAll => Ok (retrieveAll b, out)
  | RetrieveAsString => let '(s, b') := retrieveAsString b in Ok (b', out ++ s)
  | ReadFd data => '(b', _, _) ← readFd b (ReadvData data) 0; Ok (b', out)
  end.

(** The specification: the queued bytes, the bytes handed out as strings,
    and how many bytes may still be prepended. *)
Record queue := mkQueue { q_bytes : list byte; q_out : list byte; q_credit : Z }.

Definition empty_queue : queue := mkQueue [] [] kCheapPrepend.

Definition spec_op (q : queue) (o : op) : option queue :=
  match o with
  | Append d | ReadFd d => Some (mkQueue (q_bytes q ++ d) (q_out q) (q_credit q))
  | Prepend d =>
      if zlen d <=? q_credit q
      then Some (mkQueue (d ++ q_bytes q) (q_out q) (q_credit q - zlen d)) else None
  | Retrieve n | RetrieveUntil n =>
      if (0 <=? n) && (n <=? zlen (q_bytes q))
      then Some (mkQueue (drop (Z.to_nat n) (q_bytes q)) (q_out q) (q_credit q)) else None
  | RetrieveAll => Some (mkQueue [] (q_out q) kCheapPrepend)
  | RetrieveAsString => Some (mkQueue [] (q_out q ++ q_bytes q) kCheapPrepend)
  end.

Fixpoint spec_run (q : queue) (ops : list op) : option queue :=
  match ops with
  | [] => Some q
  | o :: ops' => match spec_op q o with Some q' => spec_run q' ops' | None => None end
  end.

(** The bytes an operation brings in: they bound the growth of the vector. *)
Definition op_input (o : op) : Z :=
  match o with Append d | ReadFd d => zlen d | _ => 0 end.
Definition input_size (ops : list op) : Z := foldr Z.add 0 (op_input <$> ops).

Definition run_ops (s : Buffer * list byte) (ops : list op) : outcome (Buffer * list byte) :=
  foldM run_op s ops.

(** The simulation relation between a buffer and the specified queue. *)
Record represents (b : Buffer) (out : list byte) (q : queue) : Prop := {
  rep_wf : wf b;
  rep_bytes : content b = q_bytes q;
  rep_out : out = q_out q;
  rep_credit : q_credit q <= kCheapPrepend /\ q_credit q <= readerIndex_ b;
}.

(** ** Lemmas *)

Create HintDb buffer.
#[export] Hint Resolve Build_wf : buffer.

Lemma max_size_u64 z : 0 <= z <= 2 * max_size + 1 -> u64 z = z.
Proof. unfold max_size. intros. apply wrapu_small. lia. Qed.

Section wf_lemmas.
Context (b : Buffer) (Hwf : wf b).

Lemma readableBytes_eq : readableBytes b = writerIndex_ b - readerIndex_ b.
Proof. destruct Hwf. apply max_size_u64. lia. Qed.

Lemma writableBytes_eq : writableBytes b = zlen (buffer_ b) - writerIndex_ b.
Proof. destruct Hwf. apply max_size_u64. lia. Qed.

Lemma readableBytes_content : readableBytes b = zlen (content b).
Proof.
  rewrite readableBytes_eq. destruct Hwf. unfold content.
  rewrite zlen_slice; lia.
Qed.
End wf_lemmas.

Lemma resize_grow v n :
  zlen v <= n <= max_size ->
  exists v', resize v n = Ok v' /\ zlen v' = n /\
    (forall a c, 0 <= a -> c <= zlen v -> slice v' a c = slice v a c).
Proof.
  intros Hn. unfold resize. rewrite (proj2 (Z.leb_le _ _)) by lia.
  rewrite firstn_all2 by (unfold zlen in *; lia).
  eexists. split; [done|]. split.
  - rewrite zlen_app. unfold zlen in *. rewrite length_replicate. lia.
  - intros. apply slice_app_l; lia.
Qed.

(** [makeSpace] gives enough room and keeps the readable bytes. *)
Lemma makeSpace_spec b len :
  wf b -> writableBytes b < len -> writerIndex_ b + len <= max_size ->
  exists b', makeSpace b len = Ok b' /\ wf b' /\ content b' = content b /\
    len <= writableBytes b' /\ zlen (buffer_ b') <= zlen (buffer_ b) + len.
Proof.
  intros Hwf Hlen Hmax. pose proof (writableBytes_eq b Hwf) as Hw.
  pose proof (readableBytes_eq b Hwf) as Hr.
  pose proof Hwf as [Hr0 Hrw Hws Hc8 Hmx].
  assert (max_size = 2 ^ 63 - 1) as Hms by done.
  unfold makeSpace, prependableBytes, kCheapPrepend in *.
  rewrite !max_size_u64 by lia. case_bool.
  - destruct (resize_grow (buffer_ b) (writerIndex_ b + len)) as (v & -> & Hv & Hs); [lia|].
    simpl. eexists. split; [done|].
    assert (wf (mkBuffer v (readerIndex_ b) (writerIndex_ b))) as Hwf'.
    { constructor; simpl; unfold kCheapPrepend; lia. }
    split; [done|]. rewrite (writableBytes_eq _ Hwf'). unfold content. simpl.
    rewrite Hv. split; [apply Hs; lia|lia].
  - rewrite (proj2 (Z.ltb_lt _ _)) by lia. simpl.
    set (s := slice _ _ _). assert (zlen s = readableBytes b) as Hs.
    { unfold s. rewrite zlen_slice; lia. }
    rewrite Hr in *.
    destruct (write_at (buffer_ b) 8 s) as [v|] eqn:Ev.
    2: { rewrite write_at_ok in Ev by lia. discriminate. }
    pose proof (write_at_zlen _ _ _ _ Ev) as Hv.
    assert (wf (mkBuffer v 8 (8 + (writerIndex_ b - readerIndex_ b)))) as Hwf'.
    { constructor; simpl; unfold kCheapPrepend; lia. }
    simpl.
    rewrite (readableBytes_eq _ Hwf'). simpl.
    rewrite (proj2 (Z.eqb_eq _ _)) by lia. simpl. eexists. split; [done|].
    split; [done|]. rewrite (writableBytes_eq _ Hwf'). simpl. split; [|lia].
    unfold content at 1. simpl. rewrite <- Hs.
    apply (write_at_same _ _ _ _ Ev).
Qed.

Lemma ensureWritableBytes_spec b len :
  wf b -> 0 <= len -> writerIndex_ b + len <= max_size ->
  exists b', ensureWritableBytes b len = Ok b' /\ wf b' /\ content b' = content b /\
    len <= writableBytes b' /\ zlen (buffer_ b') <= zlen (buffer_ b) + len.
Proof.
  intros Hwf Hlen Hmax. unfold ensureWritableBytes. case_bool.
  - destruct (makeSpace_spec b len) as (b' & -> & ? & ? & ? & ?); [done..|].
    simpl. rewrite (proj2 (Z.leb_le _ _)) by lia. simpl. eauto 10.
  - simpl. rewrite (proj2 (Z.leb_le _ _)) by lia. simpl. eauto 10 with lia.
Qed.

Lemma append_spec b d :
  wf b -> zlen (buffer_ b) + zlen d <= max_size ->
  exists b', append b d = Ok b' /\ wf b' /\ content b' = content b ++ d /\
    Z.min (readerIndex_ b) kCheapPrepend <= readerIndex_ b' /\
    zlen (buffer_ b') <= zlen (buffer_ b) + zlen d.
Proof.
  intros Hwf Hmax. pose proof (zlen_nonneg d) as Hd.
  pose proof Hwf as [Hr0 Hrw Hws Hc8 Hmx].
  assert (max_size = 2 ^ 63 - 1) as Hms by done.
  unfold append.
  destruct (ensureWritableBytes_spec b (zlen d)) as (b1 & E & Hwf1 & Hc & Hlen & Hsz); [done|lia..|].
  assert (Z.min (readerIndex_ b) kCheapPrepend <= readerIndex_ b1) as Hcr.
  { unfold ensureWritableBytes, makeSpace in E. unfold kCheapPrepend in *.
    inv_ok. destruct (_ <? zlen d); inv_ok; [|lia].
    destruct (_ <? _); inv_ok; simpl in *; lia. }
  rewrite (writableBytes_eq b1 Hwf1) in Hlen.
  pose proof Hwf1 as [Hr0' Hrw' Hws' Hc8' Hmx']. unfold beginWrite.
  rewrite E. simpl. destruct (write_at (buffer_ b1) (writerIndex_ b1) d) as [v|] eqn:Ev.
  2: { rewrite write_at_ok in Ev by lia. discriminate. }
  pose proof (write_at_zlen _ _ _ _ Ev) as Hv.
  simpl. unfold hasWritten, set_indices. simpl.
  rewrite max_size_u64 by lia. eexists. split; [done|].
  split; [constructor; simpl; lia|]. simpl. split; [|lia].
  rewrite <- Hc. unfold content. simpl.
  rewrite <- (slice_app v _ (writerIndex_ b1)) by lia. f_equal.
  - apply (write_at_before _ _ _ _ Ev); lia.
  - apply (write_at_same _ _ _ _ Ev).
Qed.

Lemma prepend_spec b d :
  wf b -> zlen d <= readerIndex_ b ->
  exists b', prepend b d = Ok b' /\ wf b' /\ content b' = d ++ content b /\
    readerIndex_ b' = readerIndex_ b - zlen d /\ zlen (buffer_ b') = zlen (buffer_ b).
Proof.
  intros Hwf Hd. pose proof (zlen_nonneg d) as Hd0.
  pose proof Hwf as [Hr0 Hrw Hws Hc8 Hmx].
  assert (max_size = 2 ^ 63 - 1) as Hms by done.
  unfold prepend, prependableBytes. rewrite (proj2 (Z.leb_le _ _)) by lia. simpl.
  rewrite max_size_u64 by lia.
  destruct (write_at (buffer_ b) (readerIndex_ b - zlen d) d) as [v|] eqn:Ev.
  2: { rewrite write_at_ok in Ev by lia. discriminate. }
  pose proof (write_at_zlen _ _ _ _ Ev) as Hv. simpl.
  eexists. split; [done|]. split; [constructor; simpl; lia|]. simpl.
  split; [|lia]. unfold content. simpl.
  rewrite <- (slice_app v _ (readerIndex_ b)) by lia. f_equal.
  - pose proof (write_at_same _ _ _ _ Ev) as Hs.
    replace (_ - _ + _) with (readerIndex_ b) in Hs by lia. done.
  - apply (write_at_after _ _ _ _ Ev). lia.
Qed.

Lemma retrieve_spec b n :
  wf b -> 0 <= n <= zlen (content b) ->
  exists b', retrieve b n = Ok b' /\ wf b' /\
    content b' = drop (Z.to_nat n) (content b) /\
    readerIndex_ b' = readerIndex_ b + n /\ buffer_ b' = buffer_ b.
Proof.
  intros Hwf Hn. pose proof Hwf as [Hr0 Hrw Hws Hc8 Hmx].
  assert (max_size = 2 ^ 63 - 1) as Hms by done.
  rewrite <- readableBytes_content in Hn by done.
  unfold retrieve. rewrite (proj2 (Z.leb_le _ _)) by lia. simpl.
  rewrite readableBytes_eq in Hn by done. unfold set_indices.
  rewrite max_size_u64 by lia. eexists. split; [done|].
  split; [constructor; simpl; lia|]. unfold content. simpl.
  rewrite slice_drop by lia. done.
Qed.

Lemma retrieveUntil_spec b n :
  wf b -> 0 <= n <= zlen (content b) ->
  retrieveUntil b (peek b + n) = retrieve b n.
Proof.
  intros Hwf Hn. pose proof Hwf as [Hr0 Hrw Hws Hc8 Hmx].
  assert (max_size = 2 ^ 63 - 1) as Hms by done.
  rewrite <- readableBytes_content, readableBytes_eq in Hn by done.
  unfold retrieveUntil, peek, beginWrite.
  rewrite !(proj2 (Z.leb_le _ _)) by lia. simpl. f_equal.
  rewrite max_size_u64 by lia. lia.
Qed.

Lemma retrieveAll_spec b :
  wf b -> wf (retrieveAll b) /\ content (retrieveAll b) = [].
Proof.
  intros []. split; [constructor; simpl; unfold kCheapPrepend in *; lia|].
  apply slice_nil. simpl. lia.
Qed.

Lemma retrieveAsString_spec b : wf b -> (retrieveAsString b).1 = content b.
Proof.
  intros Hwf. unfold retrieveAsString, content, peek. simpl. f_equal.
  rewrite readableBytes_eq by done. lia.
Qed.

Lemma readFd_spec b data e :
  wf b -> zlen (buffer_ b) + zlen data <= max_size ->
  exists b', readFd b (ReadvData data) e = Ok (b', zlen data, e) /\ wf b' /\
    content b' = content b ++ data /\
    Z.min (readerIndex_ b) kCheapPrepend <= readerIndex_ b' /\
    zlen (buffer_ b') <= zlen (buffer_ b) + zlen data.
Proof.
  intros Hwf Hmax. pose proof (zlen_nonneg data) as Hd.
  pose proof Hwf as [Hr0 Hrw Hws Hc8 Hmx].
  assert (max_size = 2 ^ 63 - 1) as Hms by done.
  pose proof (writableBytes_eq b Hwf) as Hw. simpl. set (wr := writableBytes b) in *.
  assert (zlen (take (Z.to_nat wr) data) = Z.min wr (zlen data)) as Ht.
  { unfold zlen. rewrite length_take. lia. }
  destruct (write_at (buffer_ b) (writerIndex_ b) (take (Z.to_nat wr) data)) as [v|] eqn:Ev.
  2: { rewrite write_at_ok in Ev by lia. discriminate. }
  pose proof (write_at_zlen _ _ _ _ Ev) as Hv.
  pose proof (write_at_same _ _ _ _ Ev) as Hsame. rewrite Ht in Hsame.
  assert (slice v (readerIndex_ b) (writerIndex_ b) = content b) as Hpre.
  { apply (write_at_before _ _ _ _ Ev); lia. }
  simpl. case_bool.
  - rewrite max_size_u64 by lia. eexists. split; [done|].
    split; [constructor; simpl; lia|]. simpl. split; [|lia].
    unfold content. simpl. rewrite <- (slice_app v _ (writerIndex_ b)) by lia.
    rewrite Hpre. f_equal. replace (Z.min wr (zlen data)) with (zlen data) in Hsame by lia.
    rewrite Hsame. apply firstn_all2. unfold zlen in *. lia.
  - set (b1 := mkBuffer _ _ _). assert (wf b1) as Hwf1 by (constructor; simpl; lia).
    assert (zlen (drop (Z.to_nat wr) data) = zlen data - wr) as Hdr.
    { apply zlen_drop. lia. }
    destruct (append_spec b1 (drop (Z.to_nat wr) data))
      as (b' & -> & Hwf' & Hc & Hcr & Hsz); [done|simpl; lia|].
    simpl in *. eexists. split; [done|]. split; [done|]. split; [|lia].
    rewrite Hc. unfold content at 1. simpl.
    rewrite <- (slice_app v _ (writerIndex_ b)) by lia. rewrite Hpre, <- app_assoc.
    f_equal. replace (Z.min wr (zlen data)) with wr in Hsame by lia.
    replace (zlen v) with (writerIndex_ b + wr) by lia. rewrite Hsame.
    apply take_drop.
Qed.

Lemma op_input_nonneg o : 0 <= op_input o.
Proof. destruct o; simpl; auto using zlen_nonneg with zarith. Qed.

Lemma input_size_nonneg ops : 0 <= input_size ops.
Proof.
  induction ops as [|o ops IH]; [done|]. pose proof (op_input_nonneg o).
  change (0 <= op_input o + input_size ops). lia.
Qed.

Lemma op_simulates b out q o q' :
  represents b out q -> spec_op q o = Some q' ->
  zlen (buffer_ b) + op_input o <= max_size ->
  exists b' out', run_op (b, out) o = Ok (b', out') /\ represents b' out' q' /\
    zlen (buffer_ b') <= zlen (buffer_ b) + op_input o.
Proof.
  intros [Hwf Hb Ho Hc] Hs Hmax. pose proof (zlen_nonneg (content b)).
  destruct o; simpl in *; try (injection Hs as <-).
  - destruct (append_spec b d) as (b' & -> & ? & ? & ? & ?); [done..|]. simpl.
    do 2 eexists. split; [done|]. split; [|done]. constructor; simpl; [done|congruence|done|lia].
  - destruct (Z.leb_spec (zlen d) (q_credit q)) as [Hd|]; [|done]. injection Hs as <-.
    pose proof (zlen_nonneg d).
    destruct (prepend_spec b d) as (b' & -> & ? & ? & ? & ?); [done|lia|]. simpl.
    do 2 eexists. split; [done|]. split; [|lia]. constructor; simpl; [done|congruence|done|lia].
  - destruct (_ && _) eqn:Hn; [|done]. injection Hs as <-. bool_facts. rewrite <- Hb in *.
    destruct (retrieve_spec b n) as (b' & -> & ? & ? & ? & Hbb); [done|lia|]. simpl.
    do 2 eexists. split; [done|]. rewrite Hbb. split; [|lia].
    constructor; simpl; [done|congruence|done|lia].
  - destruct (_ && _) eqn:Hn; [|done]. injection Hs as <-. bool_facts. rewrite <- Hb in *.
    rewrite retrieveUntil_spec by (done || lia).
    destruct (retrieve_spec b n) as (b' & -> & ? & ? & ? & Hbb); [done|lia|]. simpl.
    do 2 eexists. split; [done|]. rewrite Hbb. split; [|lia].
    constructor; simpl; [done|congruence|done|lia].
  - destruct (retrieveAll_spec b Hwf). do 2 eexists. split; [done|]. split; [|simpl; lia].
    constructor; simpl; [done|congruence|done|lia].
  - destruct (retrieveAll_spec b Hwf). pose proof (retrieveAsString_spec b Hwf).
    do 2 eexists. split; [done|]. split; [|simpl; lia].
    constructor; simpl; [done|congruence|simpl in *; congruence|lia].
  - destruct (readFd_spec b data 0) as (b' & E & ? & ? & ? & ?); [done..|].
    simpl in E. rewrite E. simpl.
    do 2 eexists. split; [done|]. split; [|done]. constructor; simpl; [done|congruence|done|lia].
Qed.

Lemma new_Buffer_represents :
  exists b, new_Buffer = Ok b /\ represents b [] empty_queue /\
    zlen (buffer_ b) = kCheapPrepend + kInitialSize.
Proof.
  eexists. split; [vm_compute; reflexivity|]. split; [|vm_compute; done].
  constructor; [constructor; vm_compute; done|vm_compute; done|done|vm_compute; done].
Qed.

Lemma ops_simulate ops b out q q' :
  represents b out q -> spec_run q ops = Some q' ->
  zlen (buffer_ b) + input_size ops <= max_size ->
  exists b' out', run_ops (b, out) ops = Ok (b', out') /\ represents b' out' q'.
Proof.
  revert b out q. induction ops as [|o ops IH]; intros b out q Hrep Hs Hmax; simpl in *.
  - injection Hs as <-. eauto.
  - destruct (spec_op q o) as [q1|] eqn:E; [|done].
    change (input_size (o :: ops)) with (op_input o + input_size ops) in Hmax.
    pose proof (input_size_nonneg ops).
    destruct (op_simulates b out q o q1) as (b1 & out1 & E1 & Hrep1 & Hsz); [done|done|lia|].
    change (run_ops (b, out) (o :: ops)) with
      (s ← run_op (b, out) o; run_ops s ops).
    rewrite E1. apply (IH b1 out1 q1); [done|done|lia].
Qed.

(** ** Properties *)

(** C1: a [Buffer] implements a queue of bytes.  Any sequence of calls that
    the specification allows (prepending at most the credit left since the
    last reset, retrieving at most what is queued) and whose input fits in
    memory runs without a failed assert, an exception or an out-of-range
    copy; the readable bytes are then exactly the queued bytes, and the
    strings handed out are exactly the specified ones. *)
Theorem buffer_refines_queue ops q' :
  spec_run empty_queue ops = Some q' -> input_size ops <= 2 ^ 62 ->
  exists b, (b0 ← new_Buffer; run_ops (b0, []) ops) = Ok (b, q_out q') /\
    content b = q_bytes q' /\ readableBytes b = zlen (q_bytes q').
Proof.
  intros Hs Hin. destruct new_Buffer_represents as (b0 & -> & Hrep & Hsz).
  destruct (ops_simulate ops b0 [] empty_queue q') as (b & out & E & [Hwf Hb Ho Hc]); [done..| |].
  { unfold max_size, kCheapPrepend, kInitialSize in *. lia. }
  exists b. cbn [mbind outcome_bind]. rewrite E, Ho. split; [done|].
  rewrite <- Hb, readableBytes_content by done. done.
Qed.

Definition refines_witness_ops : list op :=
  [Append (replicate 1000 x41); Retrieve 990; Append (replicate 600 x42);
   Prepend [x01; x02]; ReadFd (replicate 3000 x43); RetrieveUntil 4; RetrieveAsString].

Lemma buffer_refines_queue_witness :
  exists b, (b0 ← new_Buffer; run_ops (b0, []) refines_witness_ops) =
    Ok (b, replicate 8 x41 ++ replicate 600 x42 ++ replicate 3000 x43) /\ content b = [].
Proof.
  destruct (buffer_refines_queue refines_witness_ops
    (mkQueue [] (replicate 8 x41 ++ replicate 600 x42 ++ replicate 3000 x43) 8))
    as (b & H1 & H2 & _).
  - vm_compute. reflexivity.
  - vm_compute. discriminate.
  - exists b. split; [exact H1 | exact H2].
Defined.

(** When nothing precedes the content, [shrink] keeps it and leaves exactly
    [reserve] writable bytes. *)
Lemma shrink_keeps_content b reserve :
  wf b -> readerIndex_ b = kCheapPrepend -> 0 <= reserve ->
  writerIndex_ b + reserve <= max_size ->
  exists b', shrink b reserve = Ok b' /\ wf b' /\ content b' = content b /\
    writableBytes b' = reserve.
Proof.
  intros Hwf Hr Hres Hmax. pose proof Hwf as [Hr0 Hrw Hws Hc8 Hmx].
  assert (max_size = 2 ^ 63 - 1) as Hms by done. unfold shrink, peek.
  rewrite readableBytes_eq by done.
  replace (kCheapPrepend + _ + reserve) with (writerIndex_ b + reserve) by lia.
  rewrite max_size_u64 by lia. unfold kCheapPrepend in *.
  destruct (resize_grow [] (writerIndex_ b + reserve)) as (buf & -> & Hbuf & _).
  { rewrite zlen_nil. lia. }
  replace (readerIndex_ b + _) with (writerIndex_ b) by lia. fold (content b).
  assert (zlen (content b) = writerIndex_ b - 8) as Hc.
  { rewrite <- readableBytes_content, readableBytes_eq by done. lia. }
  simpl. destruct (write_at buf 8 (content b)) as [v|] eqn:Ev.
  2: { rewrite write_at_ok in Ev by lia. discriminate. }
  pose proof (write_at_zlen _ _ _ _ Ev) as Hv. simpl.
  assert (wf (mkBuffer v (readerIndex_ b) (writerIndex_ b))) as Hwf'.
  { constructor; simpl; unfold kCheapPrepend; lia. }
  eexists. split; [done|]. split; [done|]. rewrite writableBytes_eq by done. simpl.
  split; [|lia]. unfold content at 1. simpl. rewrite Hr.
  replace (writerIndex_ b) with (8 + zlen (content b)) by lia.
  apply (write_at_same _ _ _ _ Ev).
Qed.

(** [shrink] forgets to move the indices.  On a well-formed buffer whose
    content starts after offset 8, by more than the reserve, [shrink]
    returns a buffer whose write index lies beyond the vector, and the next
    non-empty [append] writes outside the vector: [writableBytes] wraps
    around, so no space is made. *)
Theorem shrink_then_append_undefined b reserve d :
  wf b -> 0 <= reserve -> kCheapPrepend + reserve < readerIndex_ b -> d <> [] ->
  zlen d <= 2 ^ 62 ->
  exists b', shrink b reserve = Ok b' /\ zlen (buffer_ b') < writerIndex_ b' /\
    append b' d = Fail Undefined.
Proof.
  intros Hwf Hres Hr Hd Hd62. pose proof Hwf as [Hr0 Hrw Hws Hc8 Hmx].
  assert (max_size = 2 ^ 63 - 1) as Hms by done. unfold shrink, peek.
  rewrite readableBytes_eq by done. unfold kCheapPrepend in *.
  set (n := writerIndex_ b - readerIndex_ b).
  rewrite max_size_u64 by lia.
  destruct (resize_grow [] (8 + n + reserve)) as (buf & -> & Hbuf & _).
  { rewrite zlen_nil. lia. }
  replace (readerIndex_ b + n) with (writerIndex_ b) by lia. fold (content b).
  assert (zlen (content b) = n) as Hc.
  { rewrite <- readableBytes_content, readableBytes_eq by done. lia. }
  simpl. destruct (write_at buf 8 (content b)) as [v|] eqn:Ev.
  2: { rewrite write_at_ok in Ev by lia. discriminate. }
  pose proof (write_at_zlen _ _ _ _ Ev) as Hv. simpl.
  eexists. split; [done|]. simpl. split; [lia|].
  assert (1 <= zlen d) by (destruct d; [done|rewrite zlen_cons; pose proof (zlen_nonneg d); lia]).
  assert (writableBytes (mkBuffer v (readerIndex_ b) (writerIndex_ b)) =
    zlen v - writerIndex_ b + 2 ^ 64) as Hw.
  { unfold writableBytes, wrapu. simpl buffer_. simpl writerIndex_.
    symmetry. apply (Z.mod_unique_pos _ _ (-1)); lia. }
  unfold append, ensureWritableBytes. rewrite Hw.
  rewrite (proj2 (Z.ltb_ge _ _)) by lia. simpl. rewrite Hw.
  rewrite (proj2 (Z.leb_le _ _)) by lia. simpl. unfold write_at, beginWrite.
  simpl. rewrite bool_decide_eq_false_2 by lia. done.
Qed.

Lemma shrink_then_append_undefined_witness :
  let b := mkBuffer (replicate 1032 x00) 108 208 in
  exists b', shrink b 0 = Ok b' /\ append b' [x41] = Fail Undefined.
Proof.
  destruct (shrink_then_append_undefined (mkBuffer (replicate 1032 x00) 108 208) 0 [x41])
    as (b' & H1 & _ & H2).
  - constructor; vm_compute; discriminate.
  - lia.
  - reflexivity.
  - discriminate.
  - vm_compute; discriminate.
  - exists b'. split; [exact H1 | exact H2].
Defined.
