(* ===== verification/Channel.v ===== *)
(** * Channel: the events of one file descriptor

    Models [muduo::Channel] of [reactor/s13/Channel.h] and [Channel.cc].
    Channels are shared, mutable objects: pollers, connections and the event
    loop hold pointers to them.  They live in a heap that every operation
    threads, and the callbacks a channel holds are identities whose code is
    an argument of [handleEvent]. *)
From S2P Require Import Prelude.

(** Object addresses. *)
Abbreviation ptr := positive.
(** The identity of the function object stored in a [boost::function]. *)
Abbreviation callback := positive.

(** The constants of [<poll.h>] on Linux. *)
Definition POLLIN : Z := 1.
Definition POLLPRI : Z := 2.
Definition POLLOUT : Z := 4.
Definition POLLERR : Z := 8.
Definition POLLHUP : Z := 16.
Definition POLLNVAL : Z := 32.
Definition POLLRDHUP : Z := 8192.

Definition kNoneEvent : Z := 0.
Definition kReadEvent : Z := Z.lor POLLIN POLLPRI.
Definition kWriteEvent : Z := POLLOUT.

(** [x & m] used as a condition. *)
Definition has (x m : Z) : bool := negb (Z.land x m =? 0).

Record Channel := mkChannel {
  loop_ : ptr;
  fd_ : Z;
  events_ : Z;
  revents_ : Z;
  index_ : Z;
  eventHandling_ : bool;
  readCallback_ : option callback;
  writeCallback_ : option callback;
  errorCallback_ : option callback;
  closeCallback_ : option callback;
}.

Definition new_Channel (loop : ptr) (fd : Z) : Channel :=
  mkChannel loop fd 0 0 (-1) false None None None None.

Definition set_events (e : Z) (c : Channel) : Channel :=
  mkChannel (loop_ c) (fd_ c) e (revents_ c) (index_ c) (eventHandling_ c)
    (readCallback_ c) (writeCallback_ c) (errorCallback_ c) (closeCallback_ c).
Definition set_revents (r : Z) (c : Channel) : Channel :=
  mkChannel (loop_ c) (fd_ c) (events_ c) r (index_ c) (eventHandling_ c)
    (readCallback_ c) (writeCallback_ c) (errorCallback_ c) (closeCallback_ c).
Definition set_index (i : Z) (c : Channel) : Channel :=
  mkChannel (loop_ c) (fd_ c) (events_ c) (revents_ c) i (eventHandling_ c)
    (readCallback_ c) (writeCallback_ c) (errorCallback_ c) (closeCallback_ c).
Definition set_eventHandling (b : bool) (c : Channel) : Channel :=
  mkChannel (loop_ c) (fd_ c) (events_ c) (revents_ c) (index_ c) b
    (readCallback_ c) (writeCallback_ c) (errorCallback_ c) (closeCallback_ c).
Definition setCallbacks (r w e cl : option callback) (c : Channel) : Channel :=
  mkChannel (loop_ c) (fd_ c) (events_ c) (revents_ c) (index_ c) (eventHandling_ c)
    r w e cl.

Definition isNoneEvent (c : Channel) : bool := events_ c =? kNoneEvent.
Definition isWriting (c : Channel) : bool := has (events_ c) kWriteEvent.

(** The heap of channels. *)
Abbreviation heap := (gmap ptr Channel).

(** A state that contains a heap of channels: what the operations of a
    channel need of the program state they run in. *)
Class HasChannels (S : Type) := {
  channels_of : S -> heap;
  set_channels : heap -> S -> S;
  channels_set : forall h s, channels_of (set_channels h s) = h;
  set_channels_eta : forall s, set_channels (channels_of s) s = s;
  set_set_channels : forall h h' s, set_channels h (set_channels h' s) = set_channels h s;
}.

#[export] Instance heap_has_channels : HasChannels heap := {
  channels_of := fun h => h;
  set_channels := fun h _ => h;
  channels_set := fun _ _ => eq_refl;
  set_channels_eta := fun _ => eq_refl;
  set_set_channels := fun _ _ _ => eq_refl;
}.

Section operations.
Context {S : Type} `{HasChannels S}.

Definition get_channel (c : ptr) (s : S) : outcome Channel :=
  from_some Undefined (channels_of s !! c).
Definition put_channel (c : ptr) (ch : Channel) (s : S) : S :=
  set_channels (<[c := ch]> (channels_of s)) s.
Definition modify_channel (c : ptr) (f : Channel -> Channel) (s : S) : outcome S :=
  ch ← get_channel c s; Ok (put_channel c (f ch) s).

(** [update()] calls back into the owner loop. *)
Variable updateChannel : ptr -> S -> outcome S.

Definition update (c : ptr) (s : S) : outcome S := updateChannel c s.

Definition enableReading (c : ptr) (s : S) : outcome S :=
  s ← modify_channel c (fun ch => set_events (Z.lor (events_ ch) kReadEvent) ch) s;
  update c s.
Definition enableWriting (c : ptr) (s : S) : outcome S :=
  s ← modify_channel c (fun ch => set_events (Z.lor (events_ ch) kWriteEvent) ch) s;
  update c s.
Definition disableWriting (c : ptr) (s : S) : outcome S :=
  s ← modify_channel c
        (fun ch => set_events (Z.land (events_ ch) (Z.lnot kWriteEvent)) ch) s;
  update c s.
Definition disableAll (c : ptr) (s : S) : outcome S :=
  s ← modify_channel c (set_events kNoneEvent) s;
  update c s.

(** [~Channel()]. *)
Definition delete_Channel (c : ptr) (s : S) : outcome S :=
  ch ← get_channel c s;
  _ ← assert_ (negb (eventHandling_ ch));
  Ok (set_channels (delete c (channels_of s)) s).

(** The code behind the callbacks; the read callback also gets the time. *)
Variable call : callback -> option Z -> S -> outcome S.

Definition call_if (o : option callback) (arg : option Z) (s : S) : outcome S :=
  match o with Some f => call f arg s | None => Ok s end.

(** [handleEvent]: every condition and every callback is read again through
    [this], since a callback may change the channel, or delete it. *)
Definition handleEvent (c : ptr) (receiveTime : Z) (s : S) : outcome S :=
  s ← modify_channel c (set_eventHandling true) s;
  ch ← get_channel c s;
  s ← (if has (revents_ ch) POLLHUP && negb (has (revents_ ch) POLLIN)
       then call_if (closeCallback_ ch) None s else Ok s);
  ch ← get_channel c s;
  s ← (if has (revents_ ch) (Z.lor POLLERR POLLNVAL)
       then call_if (errorCallback_ ch) None s else Ok s);
  ch ← get_channel c s;
  s ← (if has (revents_ ch) (Z.lor (Z.lor POLLIN POLLPRI) POLLRDHUP)
       then call_if (readCallback_ ch) (Some receiveTime) s else Ok s);
  ch ← get_channel c s;
  s ← (if has (revents_ ch) POLLOUT
       then call_if (writeCallback_ ch) None s else Ok s);
  modify_channel c (set_eventHandling false) s.

(** The calls a value of [revents_] asks for, in order. *)
Definition dispatch (ch : Channel) (receiveTime : Z) : list (callback * option Z) :=
  let at_ (b : bool) (o : option callback) arg :=
    match b, o with true, Some f => [(f, arg)] | _, _ => [] end in
  let r := revents_ ch in
  at_ (has r POLLHUP && negb (has r POLLIN)) (closeCallback_ ch) None ++
  at_ (has r (Z.lor POLLERR POLLNVAL)) (errorCallback_ ch) None ++
  at_ (has r (Z.lor (Z.lor POLLIN POLLPRI) POLLRDHUP)) (readCallback_ ch) (Some receiveTime) ++
  at_ (has r POLLOUT) (writeCallback_ ch) None.

(** A callback keeps the channel [c]: it does not delete it and leaves what
    [handleEvent] reads (revents and callbacks) alone.  It may change the
    events, the index and everything else. *)
Definition same_dispatch (ch ch' : Channel) : Prop :=
  revents_ ch' = revents_ ch /\ readCallback_ ch' = readCallback_ ch /\
  writeCallback_ ch' = writeCallback_ ch /\ errorCallback_ ch' = errorCallback_ ch /\
  closeCallback_ ch' = closeCallback_ ch.

Definition keeps_channel (c : ptr) : Prop :=
  forall f arg s s' ch, call f arg s = Ok s' -> channels_of s !! c = Some ch ->
    exists ch', channels_of s' !! c = Some ch' /\ same_dispatch ch ch'.

(** ** Lemmas *)

Lemma get_channel_ok c s ch : get_channel c s = Ok ch <-> channels_of s !! c = Some ch.
Proof. apply from_some_ok. Qed.

Lemma channels_put c ch s : channels_of (put_channel c ch s) = <[c := ch]> (channels_of s).
Proof. apply channels_set. Qed.

Lemma put_put_channel c ch ch' s : put_channel c ch (put_channel c ch' s) = put_channel c ch s.
Proof.
  unfold put_channel. rewrite channels_set, set_set_channels, insert_insert_eq. done.
Qed.

Lemma modify_channel_ok c f s ch :
  channels_of s !! c = Some ch -> modify_channel c f s = Ok (put_channel c (f ch) s).
Proof. intros E. unfold modify_channel, get_channel. rewrite E. done. Qed.

Lemma same_dispatch_refl ch : same_dispatch ch ch.
Proof. done. Qed.

Lemma same_dispatch_trans ch1 ch2 ch3 :
  same_dispatch ch1 ch2 -> same_dispatch ch2 ch3 -> same_dispatch ch1 ch3.
Proof. unfold same_dispatch. intuition congruence. Qed.

Section run.
Context (c : ptr) (Hkeep : keeps_channel c) (ch : Channel).

Definition kept (s : S) : Prop :=
  exists ch', channels_of s !! c = Some ch' /\ same_dispatch ch ch'.

Lemma call_if_kept o arg s s' : kept s -> call_if o arg s = Ok s' -> kept s'.
Proof.
  intros (ch1 & E & Hs) Hc. destruct o as [f|]; simpl in Hc; [|injection Hc as <-; by exists ch1].
  destruct (Hkeep _ _ _ _ _ Hc E) as (ch2 & E2 & Hs2). exists ch2. split; [done|].
  by eapply same_dispatch_trans.
Qed.

(** One guarded call of [handleEvent], followed by the rest [k]. *)
Lemma guarded_call (b : Channel -> bool) (sel : Channel -> option callback) arg s
    (k : S -> outcome S) :
  (forall ch', same_dispatch ch ch' -> b ch' = b ch /\ sel ch' = sel ch) ->
  kept s ->
  (ch' ← get_channel c s;
   s' ← (if b ch' then call_if (sel ch') arg s else Ok s); k s') =
  (s' ← foldM (fun s '(f, a) => call f a s) s
          (match b ch, sel ch with true, Some f => [(f, arg)] | _, _ => [] end); k s').
Proof.
  intros Hsel (ch' & E & Hs). unfold get_channel. rewrite E. simpl.
  destruct (Hsel ch' Hs) as [-> ->].
  destruct (b ch); [|done]. destruct (sel ch) as [f|]; [|done]. simpl.
  destruct (call f arg s); done.
Qed.

Lemma guarded_kept (b : bool) o arg s s' :
  kept s ->
  foldM (fun s '(f, a) => call f a s) s
    (match b, o with true, Some f => [(f, arg)] | _, _ => [] end) = Ok s' -> kept s'.
Proof.
  intros Hk E. apply (call_if_kept (if b then o else None) arg s); [done|].
  destruct b, o; simpl in *; inv_ok; try done; congruence.
Qed.
End run.

(** [handleEvent] runs exactly the dispatched callbacks, in order. *)
Lemma handleEvent_spec c t s ch :
  keeps_channel c -> channels_of s !! c = Some ch ->
  handleEvent c t s =
  (s' ← foldM (fun s '(f, a) => call f a s)
          (put_channel c (set_eventHandling true ch) s) (dispatch ch t);
   modify_channel c (set_eventHandling false) s').
Proof.
  intros Hkeep E. unfold handleEvent. rewrite (modify_channel_ok _ _ _ _ E).
  set (ch0 := set_eventHandling true ch).
  change (dispatch ch t) with (dispatch ch0 t). cbn [mbind outcome_bind].
  set (s0 := put_channel c ch0 s).
  assert (kept c ch0 s0) as Hk.
  { exists ch0. unfold s0. rewrite channels_put, lookup_insert_eq. done. }
  unfold dispatch. rewrite foldM_app, bind_assoc.
  rewrite (guarded_call c ch0
    (fun ch => has (revents_ ch) POLLHUP && negb (has (revents_ ch) POLLIN)) closeCallback_);
    [|unfold same_dispatch; intros ? Hd; destruct Hd as (-> & ? & ? & ? & ?); done|done].
  apply bind_ext. intros s1 E1.
  assert (kept c ch0 s1) as Hk1 by (eapply guarded_kept; eauto).
  rewrite foldM_app, bind_assoc.
  rewrite (guarded_call c ch0 (fun ch => has (revents_ ch) (Z.lor POLLERR POLLNVAL)) errorCallback_);
    [|unfold same_dispatch; intros ? Hd; destruct Hd as (-> & ? & ? & ? & ?); done|done].
  apply bind_ext. intros s2 E2.
  assert (kept c ch0 s2) as Hk2 by (eapply guarded_kept; eauto).
  rewrite foldM_app, bind_assoc.
  rewrite (guarded_call c ch0
    (fun ch => has (revents_ ch) (Z.lor (Z.lor POLLIN POLLPRI) POLLRDHUP)) readCallback_);
    [|unfold same_dispatch; intros ? Hd; destruct Hd as (-> & ? & ? & ? & ?); done|done].
  apply bind_ext. intros s3 E3.
  assert (kept c ch0 s3) as Hk3 by (eapply guarded_kept; eauto).
  rewrite (guarded_call c ch0 (fun ch => has (revents_ ch) POLLOUT) writeCallback_);
    [|unfold same_dispatch; intros ? Hd; destruct Hd as (-> & ? & ? & ? & ?); done|done].
  done.
Qed.
End operations.

(** ** Event masks *)

Lemma has_pow2 x n : 0 <= n -> has x (2 ^ n) = Z.testbit x n.
Proof. intros Hn. unfold has. rewrite land_pow2_testbit by done. apply negb_involutive. Qed.

Lemma isWriting_testbit ch : isWriting ch = Z.testbit (events_ ch) 2.
Proof. apply (has_pow2 _ 2). lia. Qed.

Lemma isWriting_enable ch :
  isWriting (set_events (Z.lor (events_ ch) kWriteEvent) ch) = true.
Proof. rewrite isWriting_testbit. cbn [events_ set_events]. rewrite Z.lor_spec. apply orb_true_r. Qed.

Lemma isWriting_disable ch :
  isWriting (set_events (Z.land (events_ ch) (Z.lnot kWriteEvent)) ch) = false.
Proof.
  rewrite isWriting_testbit. cbn [events_ set_events]. rewrite Z.land_spec, Z.lnot_spec by lia.
  apply andb_false_r.
Qed.

Lemma isWriting_none ch : isWriting (set_events kNoneEvent ch) = false.
Proof. done. Qed.

(** ** Properties *)

(** [handleEvent] calls, in this order and each at most once, the close
    callback (hang-up without input), the error callback, the read callback
    with the receive time and the write callback, as [revents_] asks for,
    skips the ones that are not set, and clears [eventHandling_] at the end;
    callbacks may change the events of the channel, as long as they do not
    delete it or overwrite its revents and callbacks. *)
Theorem handleEvent_dispatches {S} `{HasChannels S}
    (call : callback -> option Z -> S -> outcome S) c t s ch s' :
  keeps_channel call c -> channels_of s !! c = Some ch ->
  handleEvent call c t s = Ok s' <->
  exists s1 ch1,
    foldM (fun s '(f, arg) => call f arg s)
      (put_channel c (set_eventHandling true ch) s) (dispatch ch t) = Ok s1 /\
    channels_of s1 !! c = Some ch1 /\
    s' = put_channel c (set_eventHandling false ch1) s1.
Proof.
  intros Hkeep E. rewrite (handleEvent_spec call c t s ch Hkeep E).
  rewrite bind_ok. unfold modify_channel. setoid_rewrite bind_ok.
  setoid_rewrite get_channel_ok. split.
  - intros (s1 & E1 & ch1 & E2 & [= <-]). eauto.
  - intros (s1 & ch1 & E1 & E2 & ->). eauto 10.
Qed.

(** A run on a heap of one channel whose callbacks are counted in [index_]. *)
Definition count_calls (f : callback) (arg : option Z) (h : heap) : outcome heap :=
  modify_channel 1 (fun ch => set_index (10 * index_ ch + Z.pos f) ch) h.

Lemma handleEvent_dispatches_witness :
  handleEvent count_calls 1
    100 {[1%positive := set_revents 21 (set_index 0 (setCallbacks (Some 1) (Some 2) (Some 3) (Some 4)
          (new_Channel 9 7)))%positive]} =
  Ok {[1%positive := set_revents 21 (set_index 12 (setCallbacks (Some 1) (Some 2) (Some 3) (Some 4)
          (new_Channel 9 7)))%positive]}.
Proof.
  apply (handleEvent_dispatches count_calls 1 100 _
    (set_revents 21 (set_index 0 (setCallbacks (Some 1) (Some 2) (Some 3) (Some 4)
          (new_Channel 9 7)))%positive)).
  - intros f arg s s' ch E Hl. unfold count_calls, modify_channel in E.
    inv_ok. apply get_channel_ok in H. simpl in *. simplify_eq.
    eexists. split; [apply lookup_insert_eq|done].
  - reflexivity.
  - eexists _, _. split; [reflexivity|]. split; reflexivity.
Defined.
