(* ===== verification/Multiplexer.v ===== *)
(** * Multiplexer: what a poller promises to its channels

    The interface between a channel and the object that polls its file
    descriptor ([EPoller] in [reactor/s13/EventLoop.cc], [Poller] in the
    earlier stages): the operations [updateChannel] and [removeChannel], the
    set of descriptors the kernel is asked to watch, and the laws.  Clients
    are verified against the class [MultiplexerLaws]; [EPoller.v] discharges
    it, and [Poller.v] shows which law the poll(2) version breaks. *)
From S2P Require Import Prelude Channel.

(** Ask for the events [ev] of [fd], on behalf of the channel [c]. *)
Definition set_interest (fd : Z) (c : ptr) (ev : Z) (w : gmap Z (ptr * Z)) :
    gmap Z (ptr * Z) :=
  if ev =? kNoneEvent then delete fd w else <[fd := (c, ev)]> w.

(** Two heaps that differ at most in what a poller does not look at. *)
Definition same_for_poller (ch ch' : Channel) : Prop :=
  fd_ ch' = fd_ ch /\ index_ ch' = index_ ch.

Class Multiplexer (P : Type) := {
  mux_update : ptr -> P * heap -> outcome (P * heap);
  mux_remove : ptr -> P * heap -> outcome (P * heap);
  mux_inv : P -> heap -> Prop;
  mux_registered : P -> gmap Z ptr;
  mux_wants : P -> gmap Z (ptr * Z);
}.

(** A channel that [updateChannel] accepts: new, on a free descriptor, or
    already registered. *)
Definition updatable {P} `{Multiplexer P} (p : P) (c : ptr) (ch : Channel) : Prop :=
  (index_ ch = -1 /\ mux_registered p !! fd_ ch = None) \/
  mux_registered p !! fd_ ch = Some c.

Class MultiplexerLaws (P : Type) `{Multiplexer P} := {
  mux_inv_frame : forall p h c ch ch',
    mux_inv p h -> h !! c = Some ch -> same_for_poller ch ch' ->
    mux_inv p (<[c := ch']> h);
  mux_inv_new : forall p h c ch,
    mux_inv p h -> h !! c = None -> mux_inv p (<[c := ch]> h);
  mux_registered_heap : forall p h fd c,
    mux_inv p h -> mux_registered p !! fd = Some c ->
    exists ch, h !! c = Some ch /\ fd_ ch = fd;
  mux_update_ok : forall p h c ch,
    mux_inv p h -> h !! c = Some ch -> updatable p c ch ->
    exists p' i, mux_update c (p, h) = Ok (p', <[c := set_index i ch]> h) /\
      mux_inv p' (<[c := set_index i ch]> h) /\
      mux_registered p' = <[fd_ ch := c]> (mux_registered p) /\
      mux_wants p' = set_interest (fd_ ch) c (events_ ch) (mux_wants p);
  mux_remove_ok : forall p h c ch,
    mux_inv p h -> h !! c = Some ch -> mux_registered p !! fd_ ch = Some c ->
    isNoneEvent ch = true -> mux_wants p !! fd_ ch = None ->
    exists p' i, mux_remove c (p, h) = Ok (p', <[c := set_index i ch]> h) /\
      mux_inv p' (<[c := set_index i ch]> h) /\
      mux_registered p' = delete (fd_ ch) (mux_registered p) /\
      mux_wants p' = delete (fd_ ch) (mux_wants p);
}.

(** ** Clients: sequences of channel operations *)

#[export] Instance pair_has_channels {P} : HasChannels (P * heap) := {
  channels_of := snd;
  set_channels := fun h s => (s.1, h);
  channels_set := fun _ _ => eq_refl;
  set_channels_eta := fun '(_, _) => eq_refl;
  set_set_channels := fun _ _ _ => eq_refl;
}.

Inductive chan_op :=
| Create (c : ptr) (fd : Z)
| EnableReading (c : ptr)
| EnableWriting (c : ptr)
| DisableWriting (c : ptr)
| DisableAll (c : ptr)
| Remove (c : ptr).

(** What the client knows of a channel: descriptor, events, registered. *)
Record chan_view := mkView { v_fd : Z; v_events : Z; v_live : bool }.

Section client.
Context {P : Type} `{Multiplexer P}.

Definition run_chan_op (s : P * heap) (o : chan_op) : outcome (P * heap) :=
  match o with
  | Create c fd => Ok (s.1, <[c := new_Channel 1 fd]> s.2)
  | EnableReading c => enableReading mux_update c s
  | EnableWriting c => enableWriting mux_update c s
  | DisableWriting c => disableWriting mux_update c s
  | DisableAll c => disableAll mux_update c s
  | Remove c => mux_remove c s
  end.

(** A descriptor is free when no live channel uses it. *)
Definition fd_free (v : gmap ptr chan_view) (fd : Z) : bool :=
  forallb (fun '(_, x) => negb ((v_fd x =? fd) && v_live x)) (map_to_list v).

(** The client's bookkeeping; [None] when the call breaks the protocol: an
    address reused, a second live channel on one descriptor, an operation on
    a channel that was removed, or a removal before [disableAll]. *)
Definition spec_events (f : Z -> Z) (c : ptr) (v : gmap ptr chan_view)
    (removed : gset ptr) : option (gmap ptr chan_view * gset ptr) :=
  match v !! c with
  | Some x =>
      if bool_decide (c ∉ removed) && (v_live x || fd_free v (v_fd x))
      then Some (<[c := mkView (v_fd x) (f (v_events x)) true]> v, removed) else None
  | None => None
  end.

Definition spec_chan_op (s : gmap ptr chan_view * gset ptr) (o : chan_op) :
    option (gmap ptr chan_view * gset ptr) :=
  let '(v, removed) := s in
  match o with
  | Create c fd => match v !! c with
                   | None => Some (<[c := mkView fd 0 false]> v, removed)
                   | Some _ => None end
  | EnableReading c => spec_events (fun e => Z.lor e kReadEvent) c v removed
  | EnableWriting c => spec_events (fun e => Z.lor e kWriteEvent) c v removed
  | DisableWriting c => spec_events (fun e => Z.land e (Z.lnot kWriteEvent)) c v removed
  | DisableAll c => spec_events (fun _ => kNoneEvent) c v removed
  | Remove c => match v !! c with
                | Some x => if v_live x && (v_events x =? kNoneEvent)
                            then Some (<[c := mkView (v_fd x) 0 false]> v, {[c]} ∪ removed)
                            else None
                | None => None end
  end.

(** The channel [c] is live on [fd]; the client wants [fd] watched for [e]. *)
Definition live_in (v : gmap ptr chan_view) (fd : Z) (c : ptr) : Prop :=
  exists x, v !! c = Some x /\ v_fd x = fd /\ v_live x = true.
Definition wants_of_views (v : gmap ptr chan_view) (fd : Z) (c : ptr) (e : Z) : Prop :=
  exists x, v !! c = Some x /\ v_fd x = fd /\ v_events x = e /\ v_live x = true /\
    e <> kNoneEvent.

(** The poller state [p], the heap and the client's view agree. *)
Record in_sync (s : P * heap) (vr : gmap ptr chan_view * gset ptr) : Prop := {
  sync_inv : mux_inv s.1 s.2;
  sync_heap : forall c x, vr.1 !! c = Some x ->
    exists ch, s.2 !! c = Some ch /\ fd_ ch = v_fd x /\ events_ ch = v_events x /\
      (v_live x = false -> c ∉ vr.2 -> index_ ch = -1);
  sync_dom : forall c, vr.1 !! c = None -> s.2 !! c = None;
  sync_live : forall fd c, mux_registered s.1 !! fd = Some c <-> live_in vr.1 fd c;
  sync_wants : forall fd c e, mux_wants s.1 !! fd = Some (c, e) <->
    wants_of_views vr.1 fd c e;
  sync_removed : forall c x, vr.1 !! c = Some x -> c ∈ vr.2 -> v_live x = false;
}.
End client.

#[export] Instance chan_view_eq_dec : EqDecision chan_view.
Proof. solve_decision. Defined.

Fixpoint spec_chan_run (s : gmap ptr chan_view * gset ptr) (ops : list chan_op) :
    option (gmap ptr chan_view * gset ptr) :=
  match ops with
  | [] => Some s
  | o :: ops' => match spec_chan_op s o with
                 | Some s' => spec_chan_run s' ops' | None => None end
  end.

(** ** Lemmas: the client theorem, against the interface *)

Section client_lemmas.
Context {P : Type} `{MultiplexerLaws P}.

Lemma fd_free_spec v fd :
  fd_free v fd = true <-> forall c x, v !! c = Some x -> v_fd x = fd -> v_live x = false.
Proof.
  unfold fd_free. rewrite forallb_forall. split.
  - intros Hf c x E Hfd. specialize (Hf (c, x)). simpl in Hf.
    rewrite <- list_elem_of_In, elem_of_map_to_list in Hf. specialize (Hf E).
    rewrite (proj2 (Z.eqb_eq _ _) Hfd) in Hf. by destruct (v_live x).
  - intros Hf [c x] Hin. rewrite <- list_elem_of_In, elem_of_map_to_list in Hin.
    destruct (Z.eqb_spec (v_fd x) fd) as [Hfd|]; [|done]. by rewrite (Hf c x Hin Hfd).
Qed.

Lemma modify_pair c f (p : P) (h : heap) ch :
  h !! c = Some ch -> modify_channel c f (p, h) = Ok (p, <[c := f ch]> h).
Proof. intros E. unfold modify_channel, get_channel. simpl. rewrite E. done. Qed.

Section one_channel.
Context (p : P) (h : heap) (v : gmap ptr chan_view) (r : gset ptr).
Context (Hsync : in_sync (p, h) (v, r)) (c : ptr) (x : chan_view) (Ex : v !! c = Some x).

Lemma live_unique fd c1 c2 : live_in v fd c1 -> live_in v fd c2 -> c1 = c2.
Proof.
  intros H1 H2. apply (sync_live _ _ Hsync) in H1, H2. simpl in *. congruence.
Qed.

Lemma other_not_live c2 :
  v_live x || fd_free v (v_fd x) = true -> c2 <> c -> ~ live_in v (v_fd x) c2.
Proof.
  intros Hl Hne H2. destruct (v_live x) eqn:El; simpl in Hl.
  - apply Hne. apply (live_unique (v_fd x)); [done|]. by exists x.
  - destruct H2 as (x2 & E2 & Hf & El2). eapply fd_free_spec in Hl; eauto. congruence.
Qed.

Lemma live_insert x' fd' c' :
  v_fd x' = v_fd x -> v_live x' = true ->
  live_in (<[c := x']> v) fd' c' <->
  (c' = c /\ fd' = v_fd x) \/ (c' <> c /\ live_in v fd' c').
Proof.
  intros Hf Hl. unfold live_in. rewrite lookup_insert. case_decide as Hc; [subst c'|].
  - split; [intros (? & [= <-] & <- & _); left; done|].
    intros [[_ ->]|[? _]]; [|done]. exists x'. done.
  - split; [by right|]. by intros [[? _]|[_ ?]].
Qed.

Lemma live_sync x' fd' c' :
  v_fd x' = v_fd x -> v_live x' = true -> v_live x || fd_free v (v_fd x) = true ->
  <[v_fd x := c]> (mux_registered p) !! fd' = Some c' <-> live_in (<[c := x']> v) fd' c'.
Proof.
  intros Hf Hl Hfree. rewrite live_insert by done. rewrite lookup_insert.
  pose proof (other_not_live c' Hfree) as Ho. pose proof (sync_live _ _ Hsync fd' c') as Hs.
  simpl in Hs. case_decide as Hd; [subst fd'|rewrite Hs].
  - split; [intros [= ->]; by left|]. intros [[-> _]|[? ?]]; [done|].
    exfalso. by apply Ho.
  - split; [|intros [[_ ?]|[_ ?]]; [congruence|done]].
    intros Hlive. right. split; [|done]. intros ->. destruct Hlive as (x2 & ? & ? & _). congruence.
Qed.

Lemma wants_live fd' c' e' : wants_of_views v fd' c' e' -> live_in v fd' c'.
Proof. intros (x2 & ? & ? & ? & ? & ?). by exists x2. Qed.

Lemma wants_insert x' fd' c' e' :
  v_fd x' = v_fd x -> v_live x' = true ->
  wants_of_views (<[c := x']> v) fd' c' e' <->
  (c' = c /\ fd' = v_fd x /\ e' = v_events x' /\ e' <> kNoneEvent) \/
  (c' <> c /\ wants_of_views v fd' c' e').
Proof.
  intros Hf Hl. unfold wants_of_views. rewrite lookup_insert. case_decide as Hc; [subst c'|].
  - split; [intros (? & [= <-] & <- & <- & _ & ?); left; done|].
    intros [(_ & -> & -> & ?)|[? _]]; [|done]. exists x'. done.
  - split; [by right|]. by intros [[? _]|[_ ?]].
Qed.

Lemma wants_sync x' fd' c' e' :
  v_fd x' = v_fd x -> v_live x' = true -> v_live x || fd_free v (v_fd x) = true ->
  set_interest (v_fd x) c (v_events x') (mux_wants p) !! fd' = Some (c', e') <->
  wants_of_views (<[c := x']> v) fd' c' e'.
Proof.
  intros Hf Hl Hfree. rewrite wants_insert by done. unfold set_interest.
  pose proof (other_not_live c' Hfree) as Ho.
  pose proof (sync_wants _ _ Hsync fd' c' e') as Hs. simpl in Hs.
  assert (fd' <> v_fd x -> mux_wants p !! fd' = Some (c', e') <->
    c' <> c /\ wants_of_views v fd' c' e') as Helse.
  { intros Hd. rewrite Hs. split; [|tauto]. intros Hw. split; [|done]. intros ->.
    destruct Hw as (x2 & ? & ? & _). congruence. }
  assert (c' <> c -> ~ wants_of_views v (v_fd x) c' e') as Hno.
  { intros Hc Hw. apply Ho; [done|]. by eapply wants_live. }
  assert (fd' <> v_fd x -> mux_wants p !! fd' = Some (c', e') <->
    (c' = c /\ fd' = v_fd x /\ e' = v_events x' /\ e' <> kNoneEvent) \/
    (c' <> c /\ wants_of_views v fd' c' e')) as Hne.
  { intros Hd. rewrite Helse by done. split; [by right|].
    intros [(_ & ? & _)|?]; [congruence|done]. }
  destruct (Z.eqb_spec (v_events x') kNoneEvent).
  - rewrite lookup_delete. case_decide; [subst fd'|by apply Hne]. split; [done|].
    intros [(_ & _ & -> & ?)|[Hc Hw]]; [done|by destruct (Hno Hc)].
  - rewrite lookup_insert. case_decide; [subst fd'|by apply Hne]. split.
    + intros [= <- <-]. by left.
    + intros [(-> & _ & -> & _)|[Hc Hw]]; [done|by destruct (Hno Hc)].
Qed.
End one_channel.

(** Changing the events of a channel and updating it. *)
Lemma events_sync s v r v' r' c f :
  in_sync s (v, r) -> spec_events f c v r = Some (v', r') ->
  exists s', (s1 ← modify_channel c (fun ch => set_events (f (events_ ch)) ch) s;
              mux_update c s1) = Ok s' /\ in_sync s' (v', r').
Proof.
  destruct s as [p h]. intros Hsync Hs. unfold spec_events in Hs.
  destruct (v !! c) as [x|] eqn:Ex; [|done].
  destruct (_ && _) eqn:Eb; [|done]. injection Hs as <- <-. bool_facts.
  pose proof Hsync as [Hinv Hheap Hdom Hlive Hw Hrem]. simpl in *.
  destruct (Hheap c x Ex) as (ch & Ech & Hfd & Hev & Hidx).
  rewrite (modify_pair c _ p h ch Ech). cbn [mbind outcome_bind].
  set (ch1 := set_events (f (events_ ch)) ch). set (h1 := <[c := ch1]> h).
  assert (updatable p c ch1) as Hu.
  { unfold updatable. simpl. rewrite Hfd. destruct (v_live x) eqn:El.
    - right. apply Hlive. by exists x.
    - left. split; [by apply Hidx|]. destruct (mux_registered p !! v_fd x) eqn:R; [|done].
      apply Hlive in R as (x' & E' & Hfd' & El').
      simpl in *. eapply fd_free_spec in Hfd'; eauto. congruence. }
  destruct (mux_update_ok p h1 c ch1) as (p' & i & E & Hinv' & Hreg' & Hw').
  { eapply mux_inv_frame; eauto. done. }
  { unfold h1. apply lookup_insert_eq. }
  { done. }
  exists (p', <[c := set_index i ch1]> h1). split; [done|].
  unfold h1 in *. rewrite insert_insert_eq in *.
  constructor; simpl in *; try rewrite Hfd in *; [done|..].
  - intros c2 x2. rewrite !lookup_insert. case_decide as Hc; [subst c2|by apply Hheap].
    intros [= <-]. exists (set_index i ch1). simpl. rewrite Hev. done.
  - intros c2. rewrite !lookup_insert. case_decide; [done|]. apply Hdom.
  - intros fd' c'. rewrite Hreg'. by apply (live_sync p h v r Hsync c x Ex).
  - intros fd' c' e'. rewrite Hw', Hev.
    by apply (wants_sync p h v r Hsync c x Ex (mkView (v_fd x) (f (v_events x)) true)).
  - intros c2 x2. rewrite lookup_insert. case_decide; [|apply Hrem]. subst. done.
Qed.

Lemma remove_sync s v r v' r' c :
  in_sync s (v, r) -> spec_chan_op (v, r) (Remove c) = Some (v', r') ->
  exists s', mux_remove c s = Ok s' /\ in_sync s' (v', r').
Proof.
  destruct s as [p h]. intros Hsync Hs. simpl in Hs.
  destruct (v !! c) as [x|] eqn:Ex; [|done].
  destruct (_ && _) eqn:Eb; [|done]. injection Hs as <- <-. bool_facts.
  pose proof Hsync as [Hinv Hheap Hdom Hlive Hw Hrem]. simpl in *.
  destruct (Hheap c x Ex) as (ch & Ech & Hfd & Hev & Hidx).
  assert (live_in v (v_fd x) c) as Hl by by exists x.
  destruct (mux_remove_ok p h c ch) as (p' & i & E & Hinv' & Hreg' & Hw'); try done.
  { rewrite Hfd. by apply Hlive. }
  { apply Z.eqb_eq. congruence. }
  { rewrite Hfd. destruct (mux_wants p !! v_fd x) as [[c' e']|] eqn:Ew; [|done].
    apply Hw in Ew as Hw2. pose proof (wants_live _ _ _ _ Hw2) as Hl2.
    assert (c' = c) as -> by (eapply live_unique; eauto).
    destruct Hw2 as (x2 & E2 & _ & <- & _ & Hn). congruence. }
  exists (p', <[c := set_index i ch]> h). split; [done|]. rewrite Hfd in *.
  assert (forall fd' c', live_in (<[c := mkView (v_fd x) 0 false]> v) fd' c' <->
    c' <> c /\ live_in v fd' c') as Hlive'.
  { intros fd' c'. unfold live_in. rewrite lookup_insert. case_decide as Hc; [subst c'|].
    - split; [intros (? & [= <-] & _ & ?); done|intros [? _]; done].
    - split; [by intros|by intros [_ ?]]. }
  assert (forall c', live_in v (v_fd x) c' -> c' = c) as Hu by (intros; by eapply live_unique).
  assert (forall fd', live_in v fd' c -> fd' = v_fd x) as Hfdu.
  { intros fd' (x2 & E2 & <- & _). congruence. }
  constructor; simpl in *; [done|..].
  - intros c2 x2. rewrite !lookup_insert. case_decide as Hc; [subst c2|].
    + intros [= <-]. exists (set_index i ch). simpl. split; [done|]. split; [done|].
      split; [unfold kNoneEvent in *; congruence|].
      intros _ []. set_solver +.
    + intros E2. destruct (Hheap c2 x2 E2) as (ch2 & ? & ? & ? & Hi2). exists ch2.
      repeat (split; [done|]).
      intros Hl0 Hn. apply Hi2; [done|]. set_solver +Hn.
  - intros c2. rewrite !lookup_insert. case_decide; [done|]. apply Hdom.
  - intros fd' c'. rewrite Hreg', lookup_delete, Hlive', <- Hlive. case_decide; [subst fd'|].
    + split; [done|]. intros [? R]. apply Hlive in R. by apply Hu in R.
    + split; [|by intros [_ ?]]. intros R. split; [|done]. intros ->.
      apply Hlive in R. apply Hfdu in R. done.
  - intros fd' c' e'. rewrite Hw', lookup_delete.
    assert (wants_of_views (<[c := mkView (v_fd x) 0 false]> v) fd' c' e' <->
      c' <> c /\ wants_of_views v fd' c' e') as ->.
    { unfold wants_of_views. rewrite lookup_insert. case_decide as Hc; [subst c'|].
      - split; [intros (? & [= <-] & _ & _ & ? & _); done|intros [? _]; done].
      - split; [by intros|by intros [_ ?]]. }
    rewrite <- Hw. case_decide; [subst fd'|].
    + split; [done|]. intros [? R]. apply Hw, wants_live in R. by apply Hu in R.
    + split; [|by intros [_ ?]]. intros R. split; [|done]. intros ->.
      apply Hw, wants_live in R. apply Hfdu in R. done.
  - intros c2 x2. rewrite lookup_insert. case_decide; [by intros [= <-]|]. intros E2 Hin.
    apply elem_of_union in Hin as [Hin|Hin]; [apply elem_of_singleton in Hin; congruence|].
    by eapply Hrem.
Qed.

Lemma create_sync s v r c fd :
  in_sync s (v, r) -> v !! c = None ->
  in_sync (s.1, <[c := new_Channel 1 fd]> s.2) (<[c := mkView fd 0 false]> v, r).
Proof.
  intros Hsync Ec. pose proof Hsync as [Hinv Hheap Hdom Hlive Hw Hrem]. simpl in *.
  constructor; simpl.
  - apply mux_inv_new; auto.
  - intros c2 x2. rewrite !lookup_insert. case_decide as Hc; [subst c2|by apply Hheap].
    intros [= <-]. eexists. done.
  - intros c2. rewrite !lookup_insert. case_decide; [done|]. apply Hdom.
  - intros fd' c'. rewrite Hlive. unfold live_in. rewrite lookup_insert.
    case_decide as Hc; [subst c'|done].
    split; [intros (? & ? & _); congruence|intros (? & [= <-] & _ & ?); done].
  - intros fd' c' e'. rewrite Hw. unfold wants_of_views. rewrite lookup_insert.
    case_decide as Hc; [subst c'|done].
    split; [intros (? & ? & _); congruence|intros (? & [= <-] & _ & _ & ? & _); done].
  - intros c2 x2. rewrite lookup_insert. case_decide; [by intros [= <-]|]. apply Hrem.
Qed.

Lemma chan_op_sync s vr o vr' :
  in_sync s vr -> spec_chan_op vr o = Some vr' ->
  exists s', run_chan_op s o = Ok s' /\ in_sync s' vr'.
Proof.
  intros Hsync Hs. destruct vr as [v r], vr' as [v' r']. destruct o.
  - simpl in Hs. destruct (v !! c) eqn:Ec; [done|]. injection Hs as <- <-.
    eexists. split; [done|]. by apply create_sync.
  - by apply (events_sync s v r v' r' c (fun e => Z.lor e kReadEvent)).
  - by apply (events_sync s v r v' r' c (fun e => Z.lor e kWriteEvent)).
  - by apply (events_sync s v r v' r' c (fun e => Z.land e (Z.lnot kWriteEvent))).
  - by apply (events_sync s v r v' r' c (fun _ => kNoneEvent)).
  - eapply remove_sync; eauto.
Qed.

Lemma chan_run_sync ops s vr vr' :
  in_sync s vr -> spec_chan_run vr ops = Some vr' ->
  exists s', foldM run_chan_op s ops = Ok s' /\ in_sync s' vr'.
Proof.
  revert s vr. induction ops as [|o ops IH]; intros s vr Hsync Hs; simpl in *.
  - injection Hs as <-. eauto.
  - destruct (spec_chan_op vr o) as [vr1|] eqn:E; [|done].
    destruct (chan_op_sync s vr o vr1) as (s1 & -> & H1); [done..|]. by apply (IH s1 vr1).
Qed.

Lemma in_sync_empty p :
  mux_inv p ∅ -> mux_registered p = ∅ -> mux_wants p = ∅ ->
  in_sync (p, ∅) (∅, ∅).
Proof.
  intros Hi Hr Hw. constructor; simpl; [done|..].
  - intros c x. by rewrite lookup_empty.
  - done.
  - intros fd c. rewrite Hr. split; [by rewrite lookup_empty|].
    intros (x & E & _). by rewrite lookup_empty in E.
  - intros fd c e. rewrite Hw. split; [by rewrite lookup_empty|].
    intros (x & E & _). by rewrite lookup_empty in E.
  - intros c x. by rewrite lookup_empty.
Qed.
End client_lemmas.
