(* ===== verification/EPoller.v ===== *)
(** * EPoller: the epoll(4) multiplexer

    Models [muduo::EPoller] of [reactor/s13/EPoller.h] and [EPoller.cc].
    The kernel's epoll instance is code outside the repository: it is an
    argument (class [Epoll]) and what the manual page says of [epoll_ctl(2)]
    is the class [EpollLaws].  The file discharges [MultiplexerLaws] and
    verifies [poll]. *)
From S2P Require Import Prelude Channel Multiplexer.

Definition EPOLL_CTL_ADD : Z := 1.
Definition EPOLL_CTL_DEL : Z := 2.
Definition EPOLL_CTL_MOD : Z := 3.

(** The kernel side: [epoll_ctl] returns the new instance and the value of
    the call; [interest] lists the watched descriptors with the requested
    events and the user pointer.  The laws leave out what the manual page says
    of a want of memory or of watches, and of descriptors that are not open or
    cannot be watched: the reactor passes open sockets, timers and eventfds. *)
Class Epoll (K : Type) := {
  epoll_ctl : Z -> Z -> Z * ptr -> K -> K * Z;
  interest : K -> gmap Z (Z * ptr);
}.

Class EpollLaws (K : Type) `{Epoll K} := {
  epoll_add : forall k fd ev, interest k !! fd = None ->
    0 <= (epoll_ctl EPOLL_CTL_ADD fd ev k).2 /\
    interest (epoll_ctl EPOLL_CTL_ADD fd ev k).1 = <[fd := ev]> (interest k);
  epoll_mod : forall k fd ev, is_Some (interest k !! fd) ->
    0 <= (epoll_ctl EPOLL_CTL_MOD fd ev k).2 /\
    interest (epoll_ctl EPOLL_CTL_MOD fd ev k).1 = <[fd := ev]> (interest k);
  epoll_del : forall k fd ev, is_Some (interest k !! fd) ->
    0 <= (epoll_ctl EPOLL_CTL_DEL fd ev k).2 /\
    interest (epoll_ctl EPOLL_CTL_DEL fd ev k).1 = delete fd (interest k);
}.

Definition kNew : Z := -1.
Definition kAdded : Z := 1.
Definition kDeleted : Z := 2.
Definition kInitEventListSize : Z := 16.

(** [epollfd_] names the kernel's instance; of the vector [events_] only the
    size matters between two calls. [in_loop] is what [isInLoopThread] of
    the owner loop answers. *)
Record EPoller (K : Type) := mkEPoller {
  in_loop : bool;
  epollfd_ : K;
  events_size : Z;
  channels_ : gmap Z ptr;
}.
Arguments mkEPoller {K}. Arguments in_loop {K}. Arguments epollfd_ {K}.
Arguments events_size {K}. Arguments channels_ {K}.

Definition set_kernel {K} (k : K) (p : EPoller K) : EPoller K :=
  mkEPoller (in_loop p) k (events_size p) (channels_ p).
Definition set_map {K} (m : gmap Z ptr) (p : EPoller K) : EPoller K :=
  mkEPoller (in_loop p) (epollfd_ p) (events_size p) m.
Definition set_events_size {K} (n : Z) (p : EPoller K) : EPoller K :=
  mkEPoller (in_loop p) (epollfd_ p) n (channels_ p).

(** [EPoller(loop)], given what [epoll_create1] returned. *)
Definition new_EPoller {K} (epoll_create1 : option K) : outcome (EPoller K) :=
  match epoll_create1 with
  | Some k => Ok (mkEPoller true k kInitEventListSize ∅)
  | None => Fail LogFatal
  end.

Definition assertInLoopThread {K} (p : EPoller K) : outcome unit :=
  if in_loop p then Ok tt else Fail LogFatal.

(** [assert(channels_.find(fd) != end()); assert(channels_[fd] == channel)]. *)
Definition assert_registered {K} (p : EPoller K) (fd : Z) (c : ptr) : outcome unit :=
  assert_ (bool_decide (channels_ p !! fd = Some c)).

Section operations.
Context {K : Type} `{Epoll K}.

(** [update(operation, channel)]: a failed [DEL] is logged, any other
    failure is fatal. *)
Definition ep_update (operation : Z) (c : ptr) (s : EPoller K * heap) :
    outcome (EPoller K * heap) :=
  let '(p, h) := s in
  ch ← get_channel c h;
  let '(k, ret) := epoll_ctl operation (fd_ ch) (events_ ch, c) (epollfd_ p) in
  if (ret <? 0) && negb (operation =? EPOLL_CTL_DEL) then Fail LogFatal
  else Ok (set_kernel k p, h).

Definition updateChannel (c : ptr) (s : EPoller K * heap) : outcome (EPoller K * heap) :=
  let '(p, h) := s in
  _ ← assertInLoopThread p;
  ch ← get_channel c h;
  let index := index_ ch in
  let fd := fd_ ch in
  if (index =? kNew) || (index =? kDeleted) then
    p ← (if index =? kNew then
           _ ← assert_ (bool_decide (channels_ p !! fd = None));
           Ok (set_map (<[fd := c]> (channels_ p)) p)
         else
           _ ← assert_registered p fd c; Ok p);
    ep_update EPOLL_CTL_ADD c (p, <[c := set_index kAdded ch]> h)
  else
    _ ← assert_registered p fd c;
    _ ← assert_ (index =? kAdded);
    if isNoneEvent ch then
      '(p, h) ← ep_update EPOLL_CTL_DEL c (p, h);
      h ← modify_channel c (set_index kDeleted) h;
      Ok (p, h)
    else ep_update EPOLL_CTL_MOD c (p, h).

Definition removeChannel (c : ptr) (s : EPoller K * heap) : outcome (EPoller K * heap) :=
  let '(p, h) := s in
  _ ← assertInLoopThread p;
  ch ← get_channel c h;
  let fd := fd_ ch in
  _ ← assert_registered p fd c;
  _ ← assert_ (isNoneEvent ch);
  let index := index_ ch in
  _ ← assert_ ((index =? kAdded) || (index =? kDeleted));
  let p := set_map (delete fd (channels_ p)) p in
  '(p, h) ← (if index =? kAdded then ep_update EPOLL_CTL_DEL c (p, h) else Ok (p, h));
  h ← modify_channel c (set_index kNew) h;
  Ok (p, h).

(** One iteration of [fillActiveChannels]: an [epoll_event] carries the
    channel pointer and the ready events. *)
Definition fillActive1 (m : gmap Z ptr) (s : heap * list ptr) (ev : ptr * Z) :
    outcome (heap * list ptr) :=
  let '(h, active) := s in
  let '(c, revents) := ev in
  ch ← get_channel c h;
  _ ← assert_ (bool_decide (m !! fd_ ch = Some c));
  h ← modify_channel c (set_revents revents) h;
  Ok (h, active ++ [c]).

Definition fillActiveChannels (evs : list (ptr * Z)) (s : EPoller K * heap) (active : list ptr) :
    outcome (heap * list ptr) :=
  let '(p, h) := s in
  _ ← assert_ (zlen evs <=? events_size p);
  foldM (fillActive1 (channels_ p)) (h, active) evs.

(** [poll]: [epoll_wait] fails, or fills the first entries of [events_];
    the vector doubles when it was filled completely. *)
Definition poll (epoll_wait : option (list (ptr * Z))) (s : EPoller K * heap)
    (active : list ptr) : outcome (EPoller K * heap * list ptr) :=
  let '(p, h) := s in
  match epoll_wait with
  | Some ((_ :: _) as evs) =>
      '(h, active) ← fillActiveChannels evs (p, h) active;
      Ok (if zlen evs =? events_size p
          then set_events_size (events_size p * 2) p else p, h, active)
  | Some [] | None => Ok (p, h, active)
  end.

(** ** Invariant *)

(** A registered channel is alive, knows its state, and the kernel watches
    its descriptor exactly in state [kAdded]. *)
Record ep_inv (p : EPoller K) (h : heap) : Prop := {
  ep_in_loop : in_loop p = true;
  ep_registered : forall fd c, channels_ p !! fd = Some c ->
    exists ch, h !! c = Some ch /\ fd_ ch = fd /\
      ((index_ ch = kAdded /\ exists e, interest (epollfd_ p) !! fd = Some (e, c)) \/
       (index_ ch = kDeleted /\ interest (epollfd_ p) !! fd = None));
  ep_interest : forall fd e c, interest (epollfd_ p) !! fd = Some (e, c) ->
    channels_ p !! fd = Some c;
}.

(** The interest set without the descriptors watched for no event. *)
Definition ep_wants (p : EPoller K) : gmap Z (ptr * Z) :=
  omap (fun '(e, c) => if e =? kNoneEvent then None else Some (c, e)) (interest (epollfd_ p)).

#[export] Instance epoller_multiplexer : Multiplexer (EPoller K) := {
  mux_update := updateChannel;
  mux_remove := removeChannel;
  mux_inv := ep_inv;
  mux_registered := channels_;
  mux_wants := ep_wants;
}.
End operations.

#[local] Arguments ep_update : simpl never.

(** ** Lemmas *)

Section laws.
Context {K : Type} `{EpollLaws K}.
Implicit Types (p : EPoller K) (h : heap).

Lemma ep_wants_insert p p' fd e c :
  interest (epollfd_ p') = <[fd := (e, c)]> (interest (epollfd_ p)) ->
  ep_wants p' = set_interest fd c e (ep_wants p).
Proof.
  intros E. unfold ep_wants, set_interest. rewrite E. apply map_eq. intros i.
  rewrite lookup_omap, lookup_insert.
  destruct (Z.eqb_spec e kNoneEvent) as [->|]; [rewrite lookup_delete|rewrite lookup_insert];
    case_decide; simpl; try done; try (by rewrite lookup_omap).
  destruct (Z.eqb_spec e kNoneEvent); done.
Qed.

Lemma ep_wants_delete p p' fd :
  interest (epollfd_ p') = delete fd (interest (epollfd_ p)) ->
  ep_wants p' = delete fd (ep_wants p).
Proof. intros E. unfold ep_wants. rewrite E. apply omap_delete. Qed.

Lemma ep_wants_id p fd : interest (epollfd_ p) !! fd = None -> delete fd (ep_wants p) = ep_wants p.
Proof. intros E. apply delete_id. unfold ep_wants. rewrite lookup_omap, E. done. Qed.

Lemma ep_update_add p h c ch :
  h !! c = Some ch -> interest (epollfd_ p) !! fd_ ch = None ->
  exists k, ep_update EPOLL_CTL_ADD c (p, h) = Ok (set_kernel k p, h) /\
    interest k = <[fd_ ch := (events_ ch, c)]> (interest (epollfd_ p)).
Proof.
  intros E Ei. unfold ep_update, get_channel. simpl. rewrite E. simpl.
  destruct (epoll_add (epollfd_ p) (fd_ ch) (events_ ch, c) Ei) as [Hr Hi].
  destruct (epoll_ctl _ _ _ _) as [k r]. simpl in *.
  rewrite (proj2 (Z.ltb_ge _ _)) by lia. simpl. eauto.
Qed.

Lemma ep_update_mod p h c ch :
  h !! c = Some ch -> is_Some (interest (epollfd_ p) !! fd_ ch) ->
  exists k, ep_update EPOLL_CTL_MOD c (p, h) = Ok (set_kernel k p, h) /\
    interest k = <[fd_ ch := (events_ ch, c)]> (interest (epollfd_ p)).
Proof.
  intros E Ei. unfold ep_update, get_channel. simpl. rewrite E. simpl.
  destruct (epoll_mod (epollfd_ p) (fd_ ch) (events_ ch, c) Ei) as [Hr Hi].
  destruct (epoll_ctl _ _ _ _) as [k r]. simpl in *.
  rewrite (proj2 (Z.ltb_ge _ _)) by lia. simpl. eauto.
Qed.

Lemma ep_update_del p h c ch :
  h !! c = Some ch -> is_Some (interest (epollfd_ p) !! fd_ ch) ->
  exists k, ep_update EPOLL_CTL_DEL c (p, h) = Ok (set_kernel k p, h) /\
    interest k = delete (fd_ ch) (interest (epollfd_ p)).
Proof.
  intros E Ei. unfold ep_update, get_channel. simpl. rewrite E. simpl.
  destruct (epoll_del (epollfd_ p) (fd_ ch) (events_ ch, c) Ei) as [Hr Hi].
  destruct (epoll_ctl _ _ _ _) as [k r]. simpl in *.
  rewrite (proj2 (Z.ltb_ge _ _)) by lia. simpl. eauto.
Qed.

(** The invariant after [fd] was registered with the state [i]. *)
Lemma ep_inv_insert p h c ch m k i :
  ep_inv p h -> h !! c = Some ch ->
  (forall fd c', channels_ p !! fd = Some c' -> fd <> fd_ ch -> c' <> c) ->
  m = <[fd_ ch := c]> (channels_ p) ->
  (i = kAdded /\ interest k = <[fd_ ch := (events_ ch, c)]> (interest (epollfd_ p)) \/
   i = kDeleted /\ interest k = delete (fd_ ch) (interest (epollfd_ p))) ->
  ep_inv (set_kernel k (set_map m p)) (<[c := set_index i ch]> h).
Proof.
  intros [Hl Hreg Hint] E Hone -> Hk. constructor; simpl; [done|..].
  - intros fd c'. rewrite lookup_insert. case_decide as Hfd.
    + intros [= <-]. exists (set_index i ch). rewrite lookup_insert_eq. simpl.
      repeat (split; [done|]). subst fd. destruct Hk as [[-> ->]|[-> ->]]; [left|right].
      * split; [done|]. eexists. apply lookup_insert_eq.
      * split; [done|]. apply lookup_delete_eq.
    + intros R. destruct (Hreg fd c' R) as (ch' & E' & Hfd' & Hst).
      assert (c' <> c) by (eapply Hone; eauto). exists ch'.
      rewrite lookup_insert_ne by done. repeat (split; [done|]).
      assert (interest k !! fd = interest (epollfd_ p) !! fd) as ->; [|done].
      destruct Hk as [[_ ->]|[_ ->]]; [by rewrite lookup_insert_ne|by rewrite lookup_delete_ne].
  - intros fd e c'. destruct Hk as [[_ ->]|[_ ->]].
    + rewrite !lookup_insert. case_decide; [by intros [= <- <-]|]. apply Hint.
    + rewrite lookup_insert, lookup_delete. case_decide; [done|]. apply Hint.
Qed.

Lemma registered_once p h fd fd' c : ep_inv p h ->
  channels_ p !! fd = Some c -> channels_ p !! fd' = Some c -> fd = fd'.
Proof.
  intros [_ Hreg _] R1 R2. destruct (Hreg _ _ R1) as (ch1 & E1 & <- & _).
  destruct (Hreg _ _ R2) as (ch2 & E2 & <- & _). congruence.
Qed.

Lemma updateChannel_ok p h c ch :
  ep_inv p h -> h !! c = Some ch -> updatable p c ch ->
  exists p' i, updateChannel c (p, h) = Ok (p', <[c := set_index i ch]> h) /\
    ep_inv p' (<[c := set_index i ch]> h) /\
    channels_ p' = <[fd_ ch := c]> (channels_ p) /\
    ep_wants p' = set_interest (fd_ ch) c (events_ ch) (ep_wants p).
Proof.
  intros Hinv E Hu. pose proof Hinv as [Hl Hreg Hint]. unfold updatable in Hu. simpl in Hu.
  unfold updateChannel, assertInLoopThread, get_channel. simpl. rewrite Hl, E. simpl.
  set (h' := <[c := set_index kAdded ch]> h).
  assert (Eh' : h' !! c = Some (set_index kAdded ch)) by apply lookup_insert_eq.
  destruct Hu as [[Hi Hn]|Hr].
  - rewrite Hi. simpl. rewrite bool_decide_eq_true_2 by done. simpl.
    destruct (ep_update_add (set_map (<[fd_ ch := c]> (channels_ p)) p) h' c _ Eh')
      as (k & Eu & Hk); simpl.
    { destruct (interest (epollfd_ p) !! fd_ ch) as [[e c']|] eqn:Ei; [|done].
      apply Hint in Ei. simpl in Hn. congruence. }
    rewrite Eu. eexists _, kAdded. split; [done|]. fold h'.
    split; [|split; [done|by apply ep_wants_insert]].
    eapply ep_inv_insert; eauto. intros fd c' R Hne ->.
    destruct (Hreg _ _ R) as (ch' & ? & Hf & _). congruence.
  - pose proof (Hreg _ _ Hr) as (ch' & E' & _ & Hst). rewrite E in E'. injection E' as <-.
    assert (Hone : forall fd c', channels_ p !! fd = Some c' -> fd <> fd_ ch -> c' <> c).
    { intros fd c' R Hne ->. apply Hne. by eapply registered_once. }
    assert (Hm : channels_ p = <[fd_ ch := c]> (channels_ p)).
    { symmetry. apply insert_id. exact Hr. }
    assert (Ha : assert_registered p (fd_ ch) c = Ok tt).
    { unfold assert_registered. by rewrite bool_decide_eq_true_2. }
    assert (Hp : forall k, set_kernel k p = set_kernel k (set_map (channels_ p) p)) by done.
    destruct Hst as [[Hi [e Hin]]|[Hi Hin]]; rewrite Hi; simpl; rewrite Ha; simpl.
    + destruct (isNoneEvent ch) eqn:En.
      * destruct (ep_update_del p h c ch E) as (k & -> & Hk); [by eexists|]. simpl.
        unfold modify_channel, get_channel. simpl. rewrite E. simpl.
        apply Z.eqb_eq in En. eexists _, kDeleted. split; [done|].
        split; [|split; [done|]].
        -- rewrite Hp. eapply ep_inv_insert; eauto.
        -- unfold set_interest. rewrite En. simpl. by apply ep_wants_delete.
      * destruct (ep_update_mod p h c ch E) as (k & -> & Hk); [by eexists|].
        assert (set_index kAdded ch = ch) as Hid by (rewrite <- Hi; by destruct ch).
        eexists _, kAdded. rewrite Hid, insert_id by done. split; [done|].
        split; [|split; [done|by apply ep_wants_insert]].
        rewrite Hp, <- (insert_id h c ch E). rewrite <- Hid at 1.
        eapply ep_inv_insert; eauto.
    + destruct (ep_update_add p h' c _ Eh') as (k & -> & Hk); [done|].
      eexists _, kAdded. split; [done|]. fold h'.
      split; [|split; [done|by apply ep_wants_insert]].
      rewrite Hp. eapply ep_inv_insert; eauto.
Qed.

Lemma removeChannel_ok p h c ch :
  ep_inv p h -> h !! c = Some ch -> channels_ p !! fd_ ch = Some c ->
  isNoneEvent ch = true ->
  exists p' i, removeChannel c (p, h) = Ok (p', <[c := set_index i ch]> h) /\
    ep_inv p' (<[c := set_index i ch]> h) /\
    channels_ p' = delete (fd_ ch) (channels_ p) /\
    ep_wants p' = delete (fd_ ch) (ep_wants p).
Proof.
  intros Hinv E Hr Hn. pose proof Hinv as [Hl Hreg Hint].
  pose proof (Hreg _ _ Hr) as (ch' & E' & _ & Hst). rewrite E in E'. injection E' as <-.
  unfold removeChannel, assertInLoopThread, get_channel. simpl. rewrite Hl, E. simpl.
  assert (assert_registered p (fd_ ch) c = Ok tt) as ->.
  { unfold assert_registered. by rewrite bool_decide_eq_true_2. }
  rewrite Hn. set (p1 := set_map (delete (fd_ ch) (channels_ p)) p).
  assert (Hclear : forall k, interest k = delete (fd_ ch) (interest (epollfd_ p)) ->
    ep_inv (set_kernel k p1) (<[c := set_index kNew ch]> h)).
  { intros k Hk. constructor; simpl; [done|..].
    - intros fd c'. rewrite lookup_delete. case_decide as Hfd; [done|]. intros R.
      destruct (Hreg fd c' R) as (ch' & Ec' & Hf & Hs).
      assert (c' <> c) by (intros ->; apply Hfd; by eapply registered_once).
      exists ch'. rewrite lookup_insert_ne, Hk, lookup_delete_ne by done. done.
    - intros fd e c'. rewrite Hk, !lookup_delete. case_decide; [done|]. apply Hint. }
  assert (Hh : modify_channel c (set_index kNew) h = Ok (<[c := set_index kNew ch]> h)).
  { unfold modify_channel, get_channel. simpl. by rewrite E. }
  destruct Hst as [[Hi [e Hin]]|[Hi Hin]]; rewrite Hi; simpl.
  - destruct (ep_update_del p1 h c ch E) as (k & -> & Hk); [by eexists|]. simpl.
    rewrite Hh. simpl. eexists _, kNew. split; [done|]. split; [by apply Hclear|].
    split; [done|]. by apply ep_wants_delete.
  - rewrite Hh. simpl. eexists _, kNew. split; [done|]. split; [|split; [done|]].
    + change (ep_inv (set_kernel (epollfd_ p) p1) (<[c := set_index kNew ch]> h)).
      apply Hclear. by rewrite delete_id.
    + change (ep_wants p = delete (fd_ ch) (ep_wants p)). symmetry. by apply ep_wants_id.
Qed.

(** Writing the same descriptor and index elsewhere keeps the invariant. *)
Lemma ep_inv_frame p h c ch ch' :
  ep_inv p h -> h !! c = Some ch -> same_for_poller ch ch' -> ep_inv p (<[c := ch']> h).
Proof.
  intros [Hl Hreg Hint] E [Hf Hi]. constructor; [done| |done].
  intros fd c' R. destruct (Hreg fd c' R) as (ch2 & E2 & Hf2 & Hs).
  destruct (decide (c' = c)) as [->|]; [|exists ch2; by rewrite lookup_insert_ne].
  exists ch'. rewrite lookup_insert_eq. rewrite E in E2. injection E2 as <-.
  rewrite Hf, Hi. done.
Qed.

Lemma ep_inv_new p h c ch : ep_inv p h -> h !! c = None -> ep_inv p (<[c := ch]> h).
Proof.
  intros [Hl Hreg Hint] E. constructor; [done| |done].
  intros fd c' R. destruct (Hreg fd c' R) as (ch2 & E2 & ?).
  exists ch2. rewrite lookup_insert_ne by congruence. done.
Qed.

#[export] Instance epoller_laws : MultiplexerLaws (EPoller K).
Proof.
  constructor.
  - apply ep_inv_frame.
  - apply ep_inv_new.
  - intros p h fd c [_ Hreg _] R. destruct (Hreg fd c R) as (ch & ? & ? & _). eauto.
  - apply updateChannel_ok.
  - intros p h c ch Hinv E Hr Hn _. by apply removeChannel_ok.
Qed.

(** [fillActiveChannels] on events of registered channels. *)
Lemma fillActive_ok p h evs active :
  ep_inv p h ->
  (forall c r, (c, r) ∈ evs -> exists fd, channels_ p !! fd = Some c) ->
  exists h', foldM (fillActive1 (channels_ p)) (h, active) evs = Ok (h', active ++ (fst <$> evs)) /\
    ep_inv p h' /\
    (forall c, c ∉ (fst <$> evs) -> h' !! c = h !! c) /\
    (NoDup (fst <$> evs) -> forall c r, (c, r) ∈ evs ->
       exists ch, h !! c = Some ch /\ h' !! c = Some (set_revents r ch)).
Proof.
  revert h active. induction evs as [|[c r] evs IH]; intros h active Hinv Hevs; simpl.
  - exists h. rewrite app_nil_r. repeat (split; [done|]). intros _ c r Hin. by apply elem_of_nil in Hin.
  - destruct (Hevs c r) as [fd R]; [apply elem_of_cons; by left|].
    destruct (ep_registered _ _ Hinv fd c R) as (ch & E & Hfd & Hst).
    unfold get_channel. simpl. rewrite E. simpl. rewrite Hfd, bool_decide_eq_true_2 by done.
    simpl. unfold modify_channel, get_channel. simpl. rewrite E. simpl.
    destruct (IH (<[c := set_revents r ch]> h) (active ++ [c])) as (h' & E' & Hi' & Ho & Hs).
    { by eapply ep_inv_frame. }
    { intros c2 r2 Hin. apply (Hevs c2 r2). apply elem_of_cons. by right. }
    unfold put_channel. simpl. rewrite E', <- app_assoc. exists h'. split; [done|].
    split; [done|]. split.
    + intros c2 Hn. apply not_elem_of_cons in Hn as [Hn1 Hn2].
      rewrite Ho, lookup_insert_ne by done. done.
    + intros Hnd c2 r2. apply NoDup_cons in Hnd as [Hn Hnd]. intros Hin.
      apply elem_of_cons in Hin as [[= -> ->]|Hin].
      * exists ch. split; [done|]. rewrite Ho by done. apply lookup_insert_eq.
      * destruct (Hs Hnd c2 r2 Hin) as (ch2 & E2 & E3).
        assert (c2 <> c). { intros ->. apply Hn. apply list_elem_of_fmap. by exists (c, r2). }
        rewrite lookup_insert_ne in E2 by done. eauto.
Qed.
End laws.

(** ** Properties *)

(** C5: whatever a client does with its channels within the protocol
    (create, enable, disable, disable again, remove after disabling; two live
    channels never share a descriptor), an [EPoller] over a kernel that obeys
    the manual runs without a failed assert or a fatal error; the kernel then
    watches exactly the live channels with a non-empty event mask, for
    exactly these events, with the channel as user pointer, and holds no
    watch on any descriptor but those of live channels. *)
Theorem epoller_watches_client_interest {K} `{EpollLaws K} (k : K) ops v r :
  interest k = ∅ -> spec_chan_run (∅, ∅) ops = Some (v, r) ->
  exists p h, (p0 ← new_EPoller (Some k); foldM run_chan_op (p0, ∅) ops) = Ok (p, h) /\
    (forall fd c e, e <> kNoneEvent ->
       interest (epollfd_ p) !! fd = Some (e, c) <-> wants_of_views v fd c e) /\
    (forall fd e c, interest (epollfd_ p) !! fd = Some (e, c) -> live_in v fd c).
Proof.
  intros Hk Hs. simpl. set (p0 := mkEPoller true k kInitEventListSize ∅).
  assert (Hi : ep_inv p0 ∅).
  { constructor; simpl; [done|..]; intros *; rewrite ?Hk, lookup_empty; done. }
  destruct (chan_run_sync ops (p0, ∅) (∅, ∅) (v, r)) as ([p h] & E & Hsync); [|done|].
  { apply in_sync_empty; [done..|]. simpl. unfold ep_wants. simpl. rewrite Hk. done. }
  exists p, h. split; [exact E|].
  pose proof Hsync as [Hinv _ _ Hlive Hw _]. simpl in *. split.
  - intros fd c e He. rewrite <- Hw. unfold ep_wants. rewrite lookup_omap.
    destruct (interest (epollfd_ p) !! fd) as [[e' c']|]; simpl; [|done].
    destruct (Z.eqb_spec e' kNoneEvent) as [->|]; split; try congruence; by intros [= -> ->].
  - intros fd e c Ei. apply Hlive. by eapply ep_interest.
Qed.

(** A kernel that behaves as the manual says: a table of watched
    descriptors, where [EEXIST] and [ENOENT] are the only failures. *)
#[export] Instance table_epoll : Epoll (gmap Z (Z * ptr)) := {
  epoll_ctl := fun operation fd ev t =>
    let present := bool_decide (is_Some (t !! fd)) in
    if operation =? EPOLL_CTL_ADD then if present then (t, -1) else (<[fd := ev]> t, 0)
    else if operation =? EPOLL_CTL_MOD then if present then (<[fd := ev]> t, 0) else (t, -1)
    else if operation =? EPOLL_CTL_DEL then if present then (delete fd t, 0) else (t, -1)
    else (t, -1);
  interest := fun t => t;
}.

#[export] Instance table_epoll_laws : EpollLaws (gmap Z (Z * ptr)).
Proof.
  constructor; simpl; intros k fd ev Hk.
  - rewrite bool_decide_eq_false_2 by (rewrite Hk; by intros []). done.
  - by rewrite bool_decide_eq_true_2.
  - by rewrite bool_decide_eq_true_2.
Qed.

Definition client_run : list chan_op :=
  [Create 1 5; EnableReading 1; Create 2 6; EnableReading 2; EnableWriting 2;
   DisableAll 1; DisableAll 1; Remove 1; DisableWriting 2; Create 3 5; EnableWriting 3].

Lemma epoller_watches_client_interest_witness :
  exists p h, (p0 ← new_EPoller (Some (∅ : gmap Z (Z * ptr))); foldM run_chan_op (p0, ∅) client_run)
    = Ok (p, h) /\ interest (epollfd_ p) !! 6 = Some (3, 2%positive) /\
    (forall e c, interest (epollfd_ p) !! 5 = Some (e, c) -> c = 3%positive).
Proof.
  destruct (epoller_watches_client_interest (∅ : gmap Z (Z * ptr)) client_run
    {[1%positive := mkView 5 0 false; 2%positive := mkView 6 3 true;
      3%positive := mkView 5 4 true]} {[1%positive]})
    as (p & h & E & Hw & Hl).
  { reflexivity. }
  { vm_compute. reflexivity. }
  exists p, h. split; [exact E|]. split.
  - apply Hw; [discriminate|]. exists (mkView 6 3 true). repeat split; discriminate.
  - intros e c Hi. apply Hl in Hi as (x & Hx & Hf & Hv).
    apply lookup_insert_Some in Hx as [[_ <-]|[_ Hx]]; [discriminate Hv|].
    apply lookup_insert_Some in Hx as [[_ <-]|[_ Hx]]; [discriminate Hf|].
    apply lookup_singleton_Some in Hx as [<- _]. reflexivity.
Defined.

(** [poll] hands out the channels [epoll_wait] reported, in its order,
    each with its ready events recorded, keeps the invariant and every other
    channel, and doubles the event vector exactly when it came back full, so
    that it never shrinks and stays at least [kInitEventListSize]. *)
Theorem epoll_reports_ready {K} `{EpollLaws K} (p : EPoller K) h evs active :
  ep_inv p h -> kInitEventListSize <= events_size p -> zlen evs <= events_size p ->
  NoDup (fst <$> evs) ->
  (forall c r, (c, r) ∈ evs -> exists fd e, interest (epollfd_ p) !! fd = Some (e, c)) ->
  exists p' h', poll (Some evs) (p, h) active = Ok (p', h', active ++ (fst <$> evs)) /\
    ep_inv p' h' /\ kInitEventListSize <= events_size p' /\
    events_size p' = (if zlen evs =? events_size p then 2 else 1) * events_size p /\
    (forall c r, (c, r) ∈ evs ->
       exists ch, h !! c = Some ch /\ h' !! c = Some (set_revents r ch)) /\
    (forall c, c ∉ (fst <$> evs) -> h' !! c = h !! c).
Proof.
  intros Hinv Hn Hlen Hnd Hk. assert (kInitEventListSize = 16) as H16 by done.
  assert (Hreg : forall c r, (c, r) ∈ evs -> exists fd, channels_ p !! fd = Some c).
  { intros c r Hin. destruct (Hk c r Hin) as (fd & e & Ei). exists fd.
    by eapply ep_interest. }
  destruct (fillActive_ok p h evs active Hinv Hreg) as (h' & E & Hi' & Ho & Hs).
  destruct evs as [|ev evs].
  - exists p, h. rewrite app_nil_r. rewrite (proj2 (Z.eqb_neq _ _)) by (rewrite zlen_nil; lia).
    split; [done|]. split; [done|]. split; [done|]. split; [lia|]. split; [|done].
    intros c r Hin. by apply elem_of_nil in Hin.
  - unfold poll, fillActiveChannels. rewrite (proj2 (Z.leb_le _ _)) by lia.
    cbn [assert_ mbind outcome_bind]. rewrite E. eexists _, h'. split; [done|].
    destruct Hi' as [Hl Hr Hint].
    destruct (Z.eqb_spec (zlen (ev :: evs)) (events_size p)); simpl.
    + split; [by constructor|]. split; [lia|]. split; [lia|]. auto.
    + split; [by constructor|]. split; [lia|]. split; [lia|]. auto.
Qed.

Lemma epoll_reports_ready_witness :
  let h : heap := {[1%positive := set_index kAdded (set_events 3 (new_Channel 9 5))]} in
  let p := mkEPoller true ({[5 := (3, 1%positive)]} : gmap Z (Z * ptr)) 16 {[5 := 1%positive]} in
  exists p' h', poll (Some [(1%positive, 1)]) (p, h) [] = Ok (p', h', [1%positive]) /\
    events_size p' = 16.
Proof.
  intros h p.
  destruct (epoll_reports_ready p h [(1%positive, 1)] []) as (p' & h' & E & _ & _ & Hsz & _).
  - constructor; simpl; [done|..].
    + intros fd c Hc. apply lookup_singleton_Some in Hc as [<- <-].
      eexists. split; [reflexivity|]. split; [done|]. left. split; [done|]. by eexists.
    + intros fd e c Hc. apply lookup_singleton_Some in Hc as [<- [= <- <-]]. done.
  - done.
  - vm_compute. discriminate.
  - repeat constructor. simpl. by intros ?%elem_of_nil.
  - intros c r Hin. apply list_elem_of_singleton in Hin as [= -> ->]. by exists 5, 3.
  - exists p', h'. split; [exact E|]. exact Hsz.
Defined.
