(* ===== verification/Poller.v ===== *)
(** * Poller: the poll(2) multiplexer

    Models [muduo::Poller] of [reactor/s13/Poller.h] and [Poller.cc]: a
    vector of [pollfd] where each registered channel stores its position,
    disabled entries hold [-fd-1], and removal swaps with the last entry.
    The theorems verify the bookkeeping, and show that a channel that was
    disabled once is never polled again, which the interface of
    [Multiplexer.v] does not allow. *)
From S2P Require Import Prelude Channel Multiplexer.

Record pollfd := mkPollfd { pfd_fd : Z; pfd_events : Z; pfd_revents : Z }.

Record Poller := mkPoller {
  in_loop : bool;
  pollfds_ : list pollfd;
  channels_ : gmap Z ptr;
}.

Definition new_Poller : Poller := mkPoller true [] ∅.

Definition assertInLoopThread (p : Poller) : outcome unit :=
  if in_loop p then Ok tt else Fail LogFatal.

Definition updateChannel (c : ptr) (s : Poller * heap) : outcome (Poller * heap) :=
  let '(p, h) := s in
  _ ← assertInLoopThread p;
  ch ← get_channel c h;
  if index_ ch <? 0 then
    _ ← assert_ (bool_decide (channels_ p !! fd_ ch = None));
    let pfd := mkPollfd (fd_ ch) (i16 (events_ ch)) 0 in
    let pollfds := pollfds_ p ++ [pfd] in
    let idx := i32 (zlen pollfds) - 1 in
    Ok (mkPoller (in_loop p) pollfds (<[fd_ ch := c]> (channels_ p)),
        <[c := set_index idx ch]> h)
  else
    _ ← assert_ (bool_decide (channels_ p !! fd_ ch = Some c));
    let idx := index_ ch in
    _ ← assert_ ((0 <=? idx) && (idx <? i32 (zlen (pollfds_ p))));
    pfd ← from_some Undefined (pollfds_ p !! Z.to_nat idx);
    _ ← assert_ ((pfd_fd pfd =? fd_ ch) || (pfd_fd pfd =? - fd_ ch - 1));
    let pfd' := mkPollfd (if isNoneEvent ch then - fd_ ch - 1 else pfd_fd pfd)
                  (i16 (events_ ch)) 0 in
    Ok (mkPoller (in_loop p) (<[Z.to_nat idx := pfd']> (pollfds_ p)) (channels_ p), h).

(** [removeChannel]: the entry is dropped, the last one takes its place and
    the channel of the moved entry learns its new index. *)
Definition removeChannel (c : ptr) (s : Poller * heap) : outcome (Poller * heap) :=
  let '(p, h) := s in
  _ ← assertInLoopThread p;
  ch ← get_channel c h;
  _ ← assert_ (bool_decide (channels_ p !! fd_ ch = Some c));
  _ ← assert_ (isNoneEvent ch);
  let idx := index_ ch in
  _ ← assert_ ((0 <=? idx) && (idx <? i32 (zlen (pollfds_ p))));
  pfd ← from_some Undefined (pollfds_ p !! Z.to_nat idx);
  _ ← assert_ ((pfd_fd pfd =? - fd_ ch - 1) && (pfd_events pfd =? events_ ch));
  let channels := delete (fd_ ch) (channels_ p) in
  if u64 idx =? u64 (zlen (pollfds_ p) - 1) then
    Ok (mkPoller (in_loop p) (removelast (pollfds_ p)) channels, h)
  else
    last ← from_some Undefined (list.last (pollfds_ p));
    let channelAtEnd := if pfd_fd last <? 0 then - pfd_fd last - 1 else pfd_fd last in
    let pollfds := <[Z.to_nat idx := last]> (pollfds_ p) in
    c' ← from_some Undefined (channels !! channelAtEnd);
    h ← modify_channel c' (set_index idx) h;
    Ok (mkPoller (in_loop p) (removelast pollfds) channels, h).

(** [fillActiveChannels]: the loop over [pollfds_] stops when [numEvents]
    ready entries were found. *)
Fixpoint fill_loop (m : gmap Z ptr) (pfds : list pollfd) (numEvents : Z)
    (h : heap) (active : list ptr) : outcome (heap * list ptr) :=
  match pfds with
  | [] => Ok (h, active)
  | pfd :: pfds' =>
      if numEvents <=? 0 then Ok (h, active)
      else if 0 <? pfd_revents pfd then
        c ← from_some AssertFail (m !! pfd_fd pfd);
        ch ← get_channel c h;
        _ ← assert_ (fd_ ch =? pfd_fd pfd);
        h ← modify_channel c (set_revents (pfd_revents pfd)) h;
        fill_loop m pfds' (numEvents - 1) h (active ++ [c])
      else fill_loop m pfds' numEvents h active
  end.

Definition fillActiveChannels (numEvents : Z) (s : Poller * heap) (active : list ptr) :
    outcome (heap * list ptr) :=
  let '(p, h) := s in fill_loop (channels_ p) (pollfds_ p) numEvents h active.

(** What [poll(2)] does: fail, or store [revents] in every entry. *)
Definition store_revents (revs : list Z) (pfds : list pollfd) : list pollfd :=
  zip_with (fun r pfd => mkPollfd (pfd_fd pfd) (pfd_events pfd) r) revs pfds.

Definition poll (res : option (Z * list Z)) (s : Poller * heap) (active : list ptr) :
    outcome (Poller * heap * list ptr) :=
  let '(p, h) := s in
  match res with
  | Some (numEvents, revs) =>
      let p := mkPoller (in_loop p) (store_revents revs (pollfds_ p)) (channels_ p) in
      if 0 <? numEvents then
        '(h, active) ← fillActiveChannels numEvents (p, h) active; Ok (p, h, active)
      else Ok (p, h, active)
  | None => Ok (p, h, active)
  end.

(** ** Invariant *)

(** The descriptor an entry belongs to; [poll(2)] ignores negative ones. *)
Definition owner (pfd : pollfd) : Z := if pfd_fd pfd <? 0 then - pfd_fd pfd - 1 else pfd_fd pfd.

(** Registered channels and entries are in one-to-one correspondence. *)
Record pl_inv (p : Poller) (h : heap) : Prop := {
  pl_in_loop : in_loop p = true;
  pl_small : zlen (pollfds_ p) < 2 ^ 31 - 1;
  pl_registered : forall fd c, channels_ p !! fd = Some c -> 0 <= fd /\
    exists ch i pfd, h !! c = Some ch /\ fd_ ch = fd /\ index_ ch = Z.of_nat i /\
      pollfds_ p !! i = Some pfd /\ owner pfd = fd;
  pl_slots : forall i pfd, pollfds_ p !! i = Some pfd ->
    exists c ch, channels_ p !! owner pfd = Some c /\ h !! c = Some ch /\
      fd_ ch = owner pfd /\ index_ ch = Z.of_nat i;
}.

(** The entry the poller keeps for a descriptor. *)
Definition entry (p : Poller) (h : heap) (fd : Z) : option pollfd :=
  c ← channels_ p !! fd; ch ← (h !! c : option Channel); pollfds_ p !! Z.to_nat (index_ ch).

(** The descriptors [poll(2)] looks at. *)
Definition polled (p : Poller) : list Z :=
  filter (fun fd => 0 <= fd) (pfd_fd <$> pollfds_ p).

(** ** Concrete pollers *)

(** Three channels on the descriptors 5, 6, 7. *)
Definition three_channels : Poller * heap :=
  let ch fd e i := set_index i (set_events e (new_Channel 9 fd)) in
  (mkPoller true [mkPollfd 5 3 0; mkPollfd 6 3 0; mkPollfd 7 4 0]
     {[5 := 1%positive; 6 := 2%positive; 7 := 3%positive]},
   {[1%positive := ch 5 3 0; 2%positive := ch 6 3 1; 3%positive := ch 7 4 2]}).

(** The same, the first channel disabled. *)
Definition disabled_first : Poller * heap :=
  let ch fd e i := set_index i (set_events e (new_Channel 9 fd)) in
  (mkPoller true [mkPollfd (-6) 0 0; mkPollfd 6 3 0; mkPollfd 7 4 0]
     {[5 := 1%positive; 6 := 2%positive; 7 := 3%positive]},
   {[1%positive := ch 5 0 0; 2%positive := ch 6 3 1; 3%positive := ch 7 4 2]}).

(** A boolean reading of [pl_inv], to evaluate it on concrete pollers. *)
Definition pl_check (p : Poller) (h : heap) : bool :=
  in_loop p && (zlen (pollfds_ p) <? 2 ^ 31 - 1) &&
  forallb (fun '(fd, c) => (0 <=? fd) &&
    match h !! c with
    | Some ch => (fd_ ch =? fd) && (0 <=? index_ ch) &&
        match pollfds_ p !! Z.to_nat (index_ ch) with
        | Some pfd => owner pfd =? fd | None => false end
    | None => false end) (map_to_list (channels_ p)) &&
  forallb (fun '(i, pfd) =>
    match channels_ p !! owner pfd with
    | Some c => match h !! c with
        | Some ch => (fd_ ch =? owner pfd) && (index_ ch =? Z.of_nat i) | None => false end
    | None => false end) (imap pair (pollfds_ p)).

(** ** Lemmas *)

Lemma pl_check_inv p h : pl_check p h = true -> pl_inv p h.
Proof.
  unfold pl_check. intros E. apply andb_true_iff in E as [E H].
  apply andb_true_iff in E as [E H0]. bool_facts.
  rewrite forallb_forall in H, H0. constructor; [done..| |].
  - intros fd c R. specialize (H0 (fd, c)). rewrite <- list_elem_of_In, elem_of_map_to_list in H0.
    specialize (H0 R). simpl in H0. bool_facts. split; [done|].
    destruct (h !! c) as [ch|]; [|done]. bool_facts.
    destruct (pollfds_ p !! Z.to_nat (index_ ch)) as [pfd|] eqn:Ep; [|done]. bool_facts.
    exists ch, (Z.to_nat (index_ ch)), pfd. rewrite Z2Nat.id by done. done.
  - intros i pfd Ep. specialize (H (i, pfd)).
    rewrite <- list_elem_of_In, elem_of_lookup_imap in H. specialize (H (ex_intro _ i (ex_intro _ pfd (conj eq_refl Ep)))).
    simpl in H. destruct (channels_ p !! owner pfd) as [c|]; [|done].
    destruct (h !! c) as [ch|] eqn:Ec; [|done]. bool_facts. by exists c, ch.
Qed.

Section lemmas.
Context (p : Poller) (h : heap) (Hinv : pl_inv p h).

Lemma pl_registered_once fd fd' c :
  channels_ p !! fd = Some c -> channels_ p !! fd' = Some c -> fd = fd'.
Proof.
  intros R1 R2. destruct (pl_registered _ _ Hinv _ _ R1) as (_ & ch1 & ? & ? & E1 & <- & _).
  destruct (pl_registered _ _ Hinv _ _ R2) as (_ & ch2 & ? & ? & E2 & <- & _). congruence.
Qed.

(** The data of one registered channel. *)
Lemma registered_entry c ch :
  h !! c = Some ch -> channels_ p !! fd_ ch = Some c ->
  exists i pfd, index_ ch = Z.of_nat i /\ pollfds_ p !! i = Some pfd /\
    owner pfd = fd_ ch /\ entry p h (fd_ ch) = Some pfd /\ 0 <= fd_ ch.
Proof.
  intros E R. destruct (pl_registered _ _ Hinv _ _ R) as (Hpos & ch' & i & pfd & E' & _ & Hi & Hp & Ho).
  rewrite E in E'. injection E' as <-. exists i, pfd. split; [done|]. split; [done|].
  split; [done|]. split; [|done]. unfold entry. rewrite R. simpl. rewrite E. simpl.
  rewrite Hi, Nat2Z.id. done.
Qed.

Lemma slot_unique i j pfd pfd' :
  pollfds_ p !! i = Some pfd -> pollfds_ p !! j = Some pfd' -> owner pfd = owner pfd' -> i = j.
Proof.
  intros Hi Hj Ho. destruct (pl_slots _ _ Hinv _ _ Hi) as (c & ch & R & E & _ & Hii).
  destruct (pl_slots _ _ Hinv _ _ Hj) as (c' & ch' & R' & E' & _ & Hjj).
  rewrite Ho in R. rewrite R in R'. injection R' as <-. rewrite E in E'. injection E' as <-. lia.
Qed.

Lemma entry_other_heap c ch fd :
  (forall c', channels_ p !! fd = Some c' -> c' <> c) ->
  entry p (<[c := ch]> h) fd = entry p h fd.
Proof.
  intros Hne. unfold entry. destruct (channels_ p !! fd) as [c'|] eqn:R; [|done]. simpl.
  rewrite lookup_insert_ne; [done|]. intros ->. by eapply Hne.
Qed.
End lemmas.

Lemma owner_of_fd fd e r : 0 <= fd -> owner (mkPollfd fd e r) = fd.
Proof. intros. unfold owner. simpl. rewrite (proj2 (Z.ltb_ge _ _)) by lia. done. Qed.

Lemma owner_of_ignored fd e r : 0 <= fd -> owner (mkPollfd (- fd - 1) e r) = fd.
Proof. intros. unfold owner. simpl. rewrite (proj2 (Z.ltb_lt _ _)) by lia. lia. Qed.

Lemma owner_inv pfd fd : owner pfd = fd -> pfd_fd pfd = fd \/ pfd_fd pfd = - fd - 1.
Proof. unfold owner. destruct (_ <? _); lia. Qed.

(** A new channel gets a fresh entry at the end. *)
Lemma update_new p h c ch :
  pl_inv p h -> h !! c = Some ch -> index_ ch < 0 -> 0 <= fd_ ch ->
  channels_ p !! fd_ ch = None -> zlen (pollfds_ p) + 1 < 2 ^ 31 - 1 ->
  exists p' h', updateChannel c (p, h) = Ok (p', h') /\ pl_inv p' h' /\
    entry p' h' (fd_ ch) = Some (mkPollfd (fd_ ch) (i16 (events_ ch)) 0) /\
    (forall fd, fd <> fd_ ch -> entry p' h' fd = entry p h fd).
Proof.
  intros Hinv E Hi Hfd Hn Hsz. pose proof Hinv as [Hl Hs Hreg Hslot].
  unfold updateChannel, assertInLoopThread, get_channel. simpl. rewrite Hl, E. simpl.
  rewrite (proj2 (Z.ltb_lt _ _)) by done. rewrite bool_decide_eq_true_2 by done. simpl.
  set (pfd := mkPollfd _ _ _).
  assert (Hidx : i32 (zlen (pollfds_ p ++ [pfd])) - 1 = Z.of_nat (length (pollfds_ p))).
  { rewrite zlen_app, zlen_cons, zlen_nil, wraps_small by (unfold zlen in *; lia).
    unfold zlen. lia. }
  rewrite Hidx. set (ch' := set_index _ ch). eexists _, _. split; [done|].
  assert (Hc : forall fd c', channels_ p !! fd = Some c' -> c' <> c).
  { intros fd c' R ->. destruct (Hreg _ _ R) as (_ & ch2 & i & pf & E2 & <- & _). congruence. }
  assert (Hlast : (pollfds_ p ++ [pfd]) !! length (pollfds_ p) = Some pfd).
  { rewrite lookup_app_r, Nat.sub_diag by lia. done. }
  split; [constructor; simpl; [done|..]|split].
  - rewrite zlen_app, zlen_cons, zlen_nil. lia.
  - intros fd c'. rewrite lookup_insert. case_decide as Hf.
    + intros [= <-]. split; [lia|]. exists ch', (length (pollfds_ p)), pfd.
      rewrite lookup_insert_eq. subst fd. repeat (split; [done|]). by apply owner_of_fd.
    + intros R. destruct (Hreg _ _ R) as (? & ch2 & i & pf & E2 & ? & ? & Hp & ?).
      split; [done|]. exists ch2, i, pf. rewrite lookup_insert_ne by (by eapply not_eq_sym, Hc).
      repeat (split; [done|]). split; [|done]. by apply lookup_app_l_Some.
  - intros i pf Hp. apply lookup_app_Some in Hp as [Hp|[Hge Hp]].
    + destruct (Hslot _ _ Hp) as (c' & ch2 & R & E2 & ? & ?). exists c', ch2.
      rewrite lookup_insert_ne by congruence.
      rewrite lookup_insert_ne by (by eapply not_eq_sym, Hc). done.
    + apply list_lookup_singleton_Some in Hp as [Hp <-]. exists c, ch'.
      assert (owner pfd = fd_ ch) as -> by (by apply owner_of_fd).
      rewrite !lookup_insert_eq. repeat (split; [done|]). simpl. lia.
  - unfold entry. simpl. rewrite lookup_insert_eq. simpl. rewrite lookup_insert_eq. simpl.
    rewrite Nat2Z.id. done.
  - intros fd Hne. unfold entry. simpl. rewrite lookup_insert_ne by done.
    destruct (channels_ p !! fd) as [c'|] eqn:R; [|done]. simpl.
    rewrite lookup_insert_ne by (by eapply not_eq_sym, Hc).
    destruct (Hreg _ _ R) as (_ & ch2 & i & pf & E2 & _ & Hi2 & Hp & _). rewrite E2. simpl.
    rewrite Hi2, Nat2Z.id, Hp. by apply lookup_app_l_Some.
Qed.

(** An existing entry is rewritten in place; its descriptor only ever
    changes towards the ignored form. *)
Lemma update_existing p h c ch pfd :
  pl_inv p h -> h !! c = Some ch -> channels_ p !! fd_ ch = Some c ->
  entry p h (fd_ ch) = Some pfd ->
  exists p', updateChannel c (p, h) = Ok (p', h) /\ pl_inv p' h /\
    entry p' h (fd_ ch) = Some (mkPollfd (if isNoneEvent ch then - fd_ ch - 1 else pfd_fd pfd)
                                  (i16 (events_ ch)) 0) /\
    (forall fd, fd <> fd_ ch -> entry p' h fd = entry p h fd) /\
    channels_ p' = channels_ p.
Proof.
  intros Hinv E R Hpfd. pose proof Hinv as [Hl Hs Hreg Hslot].
  destruct (registered_entry p h Hinv c ch E R) as (i & pfd' & Hi & Hp & Ho & He & Hpos).
  rewrite He in Hpfd. injection Hpfd as ->. clear He.
  pose proof (lookup_lt_Some _ _ _ Hp) as Hlt.
  unfold updateChannel, assertInLoopThread, get_channel. simpl. rewrite Hl, E. simpl.
  rewrite (proj2 (Z.ltb_ge _ _)) by lia. rewrite bool_decide_eq_true_2 by done. simpl.
  rewrite (wraps_small 32) by (unfold zlen in *; lia).
  rewrite (proj2 (Z.leb_le 0 _)), (proj2 (Z.ltb_lt _ _)) by (unfold zlen in *; lia). simpl.
  rewrite Hi, Nat2Z.id, Hp. simpl.
  assert (((pfd_fd pfd =? fd_ ch) || (pfd_fd pfd =? - fd_ ch - 1)) = true) as ->.
  { apply orb_true_iff. rewrite !Z.eqb_eq. by apply owner_inv. }
  simpl. set (pfd' := mkPollfd _ _ _).
  assert (Ho' : owner pfd' = fd_ ch).
  { unfold pfd'. destruct (isNoneEvent ch); [by apply owner_of_ignored|].
    rewrite <- Ho. done. }
  eexists. split; [done|].
  split; [constructor; simpl; [done|..]|split; [|split; [|done]]].
  - unfold zlen in *. rewrite length_insert. done.
  - intros fd c' R'. destruct (Hreg _ _ R') as (? & ch2 & j & pf & E2 & Hf & Hj & Hpj & Hoj).
    split; [done|]. destruct (decide (i = j)) as [<-|Hne].
    + exists ch2, i, pfd'. rewrite list_lookup_insert_eq by done.
      repeat (split; [done|]). congruence.
    + exists ch2, j, pf. rewrite list_lookup_insert_ne by done. done.
  - intros j pf Hpj. apply list_lookup_insert_Some in Hpj as [(<- & <- & _)|[_ Hpj]]; [|by apply Hslot].
    exists c, ch. rewrite Ho'. done.
  - unfold entry. simpl. rewrite R. simpl. rewrite E. simpl. rewrite Hi, Nat2Z.id.
    by apply list_lookup_insert_eq.
  - intros fd Hne. unfold entry. simpl. destruct (channels_ p !! fd) as [c'|] eqn:R'; [|done].
    simpl. destruct (Hreg _ _ R') as (_ & ch2 & j & pf & E2 & _ & Hj & Hpj & Hoj).
    rewrite E2. simpl. rewrite Hj, Nat2Z.id. rewrite list_lookup_insert_ne; [done|].
    intros ->. congruence.
Qed.

Lemma lookup_removelast {A} (l : list A) (j : nat) :
  removelast l !! j = if decide (S j < length l)%nat then l !! j else None.
Proof.
  rewrite removelast_firstn_len. case_decide.
  - apply lookup_take_lt. lia.
  - apply lookup_take_ge. lia.
Qed.

(** Removal of the last entry. *)
Lemma remove_last p h c ch i pfd :
  pl_inv p h -> h !! c = Some ch -> channels_ p !! fd_ ch = Some c ->
  index_ ch = Z.of_nat i -> pollfds_ p !! i = Some pfd -> owner pfd = fd_ ch ->
  S i = length (pollfds_ p) ->
  let p' := mkPoller (in_loop p) (removelast (pollfds_ p)) (delete (fd_ ch) (channels_ p)) in
  pl_inv p' h /\ (forall fd, fd <> fd_ ch -> entry p' h fd = entry p h fd).
Proof.
  intros Hinv E R Hi Hp Ho Hlen p'. pose proof Hinv as [Hl Hs Hreg Hslot].
  assert (Hkeep : forall fd c', fd <> fd_ ch -> channels_ p !! fd = Some c' ->
    exists ch2 j pf, h !! c' = Some ch2 /\ fd_ ch2 = fd /\ index_ ch2 = Z.of_nat j /\
      removelast (pollfds_ p) !! j = Some pf /\ pollfds_ p !! j = Some pf /\ owner pf = fd).
  { intros fd c' Hne R'. destruct (Hreg _ _ R') as (_ & ch2 & j & pf & E2 & Hf & Hj & Hpj & Hoj).
    exists ch2, j, pf. repeat (split; [done|]). split; [|done].
    rewrite lookup_removelast. pose proof (lookup_lt_Some _ _ _ Hpj).
    case_decide; [done|]. assert (i = j) by lia. congruence. }
  split; [constructor; simpl; [done|..]|].
  - rewrite removelast_firstn_len. unfold zlen in *. rewrite length_take. lia.
  - intros fd c'. rewrite lookup_delete. case_decide; [done|]. intros R'.
    destruct (Hreg _ _ R') as (? & _). split; [done|].
    destruct (Hkeep fd c') as (ch2 & j & pf & ? & ? & ? & ? & _ & ?); eauto 10.
  - intros j pf. rewrite lookup_removelast. case_decide; [|done]. intros Hpj.
    destruct (Hslot _ _ Hpj) as (c' & ch2 & R' & ?). exists c', ch2.
    rewrite lookup_delete_ne; [done|]. intros Heq.
    assert (i = j) by (eapply (slot_unique p h Hinv); eauto; congruence). lia.
  - intros fd Hne. unfold entry. simpl. rewrite lookup_delete_ne by done.
    destruct (channels_ p !! fd) as [c'|] eqn:R'; [|done]. simpl.
    destruct (Hkeep fd c') as (ch2 & j & pf & E2 & _ & Hj & Hp1 & Hp2 & _); [done..|].
    rewrite E2. simpl. rewrite Hj, Nat2Z.id. congruence.
Qed.

(** Removal of an inner entry: the last one moves into its place. *)
Lemma remove_inner p h c ch i pfd lst c2 ch2 :
  pl_inv p h -> h !! c = Some ch -> channels_ p !! fd_ ch = Some c ->
  index_ ch = Z.of_nat i -> pollfds_ p !! i = Some pfd -> owner pfd = fd_ ch ->
  (S i < length (pollfds_ p))%nat -> pollfds_ p !! pred (length (pollfds_ p)) = Some lst ->
  channels_ p !! owner lst = Some c2 -> h !! c2 = Some ch2 ->
  fd_ ch2 = owner lst -> index_ ch2 = Z.of_nat (pred (length (pollfds_ p))) ->
  let p' := mkPoller (in_loop p) (removelast (<[i := lst]> (pollfds_ p)))
              (delete (fd_ ch) (channels_ p)) in
  let h' := <[c2 := set_index (Z.of_nat i) ch2]> h in
  pl_inv p' h' /\ (forall fd, fd <> fd_ ch -> entry p' h' fd = entry p h fd).
Proof.
  intros Hinv E R Hi Hp Ho Hlen Hlst R2 E2 Hf2 Hi2 p' h'. pose proof Hinv as [Hl Hs Hreg Hslot].
  assert (Hne2 : owner lst <> fd_ ch).
  { intros Heq. assert (i = pred (length (pollfds_ p))); [|lia].
    eapply (slot_unique p h Hinv); eauto. congruence. }
  assert (Hlook : forall j, removelast (<[i := lst]> (pollfds_ p)) !! j =
    if decide (S j < length (pollfds_ p))%nat then
      if decide (i = j) then Some lst else pollfds_ p !! j else None).
  { intros j. rewrite lookup_removelast, length_insert. case_decide; [|done].
    destruct (decide (i = j)) as [<-|]; [by rewrite list_lookup_insert_eq by lia|].
    by rewrite list_lookup_insert_ne. }
  assert (Hkeep : forall fd c', fd <> fd_ ch -> channels_ p !! fd = Some c' ->
    exists ch3 j j' pf, h !! c' = Some ch3 /\ index_ ch3 = Z.of_nat j /\ fd_ ch3 = fd /\
      h' !! c' = Some (set_index (Z.of_nat j') ch3) /\
      removelast (<[i := lst]> (pollfds_ p)) !! j' = Some pf /\ pollfds_ p !! j = Some pf /\
      owner pf = fd).
  { intros fd c' Hne R'. destruct (Hreg _ _ R') as (_ & ch3 & j & pf & E3 & Hf & Hj & Hpj & Hoj).
    pose proof (lookup_lt_Some _ _ _ Hpj).
    destruct (decide (c' = c2)) as [->|Hc].
    - rewrite E2 in E3. injection E3 as <-. exists ch2, j, i, lst.
      assert (j = pred (length (pollfds_ p))) as -> by lia.
      unfold h'. rewrite lookup_insert_eq, Hlook, decide_True, decide_True by done.
      repeat (split; [congruence|]). congruence.
    - exists ch3, j, j, pf. unfold h'. rewrite lookup_insert_ne by done.
      assert (j <> pred (length (pollfds_ p))).
      { intros ->. rewrite Hlst in Hpj. injection Hpj as ->. congruence. }
      assert (i <> j) by (intros ->; congruence).
      rewrite Hlook, decide_True, decide_False by (done || lia).
      assert (set_index (Z.of_nat j) ch3 = ch3) as -> by (rewrite <- Hj; by destruct ch3).
      done. }
  split; [constructor; simpl; [done|..]|].
  - rewrite removelast_firstn_len. unfold zlen in *. rewrite length_take, length_insert. lia.
  - intros fd c'. rewrite lookup_delete. case_decide; [done|]. intros R'.
    destruct (Hreg _ _ R') as (? & _). split; [done|].
    destruct (Hkeep fd c') as (ch3 & j & j' & pf & ? & ? & ? & ? & ? & _ & ?); eauto 10.
  - intros j pf. rewrite Hlook. case_decide; [|done].
    destruct (decide (i = j)) as [<-|Hij].
    + intros [= <-]. exists c2, (set_index (Z.of_nat i) ch2).
      rewrite lookup_delete_ne by done. unfold h'. rewrite lookup_insert_eq. done.
    + intros Hpj. destruct (Hslot _ _ Hpj) as (c' & ch3 & R' & E3 & ? & Hj). exists c', ch3.
      rewrite lookup_delete_ne by (intros Heq; apply Hij; eapply (slot_unique p h Hinv); eauto; congruence).
      unfold h'. rewrite lookup_insert_ne; [done|]. intros <-.
      rewrite E2 in E3. injection E3 as <-. lia.
  - intros fd Hne. unfold entry. simpl. rewrite lookup_delete_ne by done.
    destruct (channels_ p !! fd) as [c'|] eqn:R'; [|done]. simpl.
    destruct (Hkeep fd c') as (ch3 & j & j' & pf & E3 & Hj & _ & -> & Hp1 & Hp2 & _); [done..|].
    rewrite E3. simpl. rewrite Hj, !Nat2Z.id. congruence.
Qed.

(** The events of a channel do not matter to the bookkeeping. *)
Lemma pl_inv_events p h c ch e :
  pl_inv p h -> h !! c = Some ch -> pl_inv p (<[c := set_events e ch]> h).
Proof.
  intros [Hl Hs Hreg Hslot] E. constructor; [done..| |].
  - intros fd c' R. destruct (Hreg _ _ R) as (? & ch' & i & pfd & E' & ? & ? & ?).
    split; [done|]. destruct (decide (c' = c)) as [->|].
    + rewrite E in E'. injection E' as <-. exists (set_events e ch), i, pfd.
      rewrite lookup_insert_eq. done.
    + exists ch', i, pfd. by rewrite lookup_insert_ne.
  - intros i pfd Hp. destruct (Hslot _ _ Hp) as (c' & ch' & R & E' & ? & ?). exists c'.
    destruct (decide (c' = c)) as [->|].
    + rewrite E in E'. injection E' as <-. exists (set_events e ch).
      rewrite lookup_insert_eq. done.
    + exists ch'. by rewrite lookup_insert_ne.
Qed.

(** ** Properties *)

(** [removeChannel] of a registered, disabled channel runs without a
    failed assert, keeps the one-to-one correspondence of channels and
    entries although the last entry is swapped into the hole, leaves the
    entry of every other descriptor exactly as it was, and forgets the
    removed one. *)
Theorem poller_remove_keeps_others p h c ch pfd :
  pl_inv p h -> h !! c = Some ch -> channels_ p !! fd_ ch = Some c ->
  events_ ch = kNoneEvent -> entry p h (fd_ ch) = Some pfd ->
  pfd_fd pfd = - fd_ ch - 1 -> pfd_events pfd = 0 ->
  exists p' h', removeChannel c (p, h) = Ok (p', h') /\ pl_inv p' h' /\
    entry p' h' (fd_ ch) = None /\ channels_ p' = delete (fd_ ch) (channels_ p) /\
    (forall fd, fd <> fd_ ch -> entry p' h' fd = entry p h fd).
Proof.
  intros Hinv E R Hev He Hfd Hpe. pose proof Hinv as [Hl Hs Hreg Hslot].
  destruct (registered_entry p h Hinv c ch E R) as (i & pfd' & Hi & Hp & Ho & He' & Hpos).
  rewrite He in He'. injection He' as <-. pose proof (lookup_lt_Some _ _ _ Hp) as Hlt.
  unfold removeChannel, assertInLoopThread, get_channel. simpl. rewrite Hl, E. simpl.
  rewrite bool_decide_eq_true_2 by done. simpl. unfold isNoneEvent. rewrite Hev. simpl.
  rewrite (wraps_small 32) by (unfold zlen in *; lia).
  rewrite (proj2 (Z.leb_le 0 _)), (proj2 (Z.ltb_lt _ _)) by (unfold zlen in *; lia). simpl.
  rewrite Hi, Nat2Z.id, Hp. simpl. rewrite Hfd, Hpe, Z.eqb_refl. simpl.
  rewrite !wrapu_small by (unfold zlen in *; lia).
  assert (Hnone : forall l h', entry (mkPoller (in_loop p) l (delete (fd_ ch) (channels_ p))) h'
    (fd_ ch) = None) by (intros; unfold entry; simpl; by rewrite lookup_delete_eq).
  destruct (Z.eqb_spec (Z.of_nat i) (zlen (pollfds_ p) - 1)) as [Hlast|Hlast].
  - destruct (remove_last p h c ch i pfd Hinv E R Hi Hp Ho) as [H1 H2].
    { unfold zlen in *. lia. }
    rewrite Hl in H1, H2.
    eexists _, _. split; [done|]. split; [exact H1|]. split; [apply Hnone|]. by split.
  - destruct (lookup_lt_is_Some_2 (pollfds_ p) (pred (length (pollfds_ p)))) as [lst Hlst]; [lia|].
    rewrite last_lookup, Hlst. simpl. fold (owner lst).
    destruct (Hslot _ _ Hlst) as (c2 & ch2 & R2 & E2 & Hf2 & Hi2).
    assert (Hne : owner lst <> fd_ ch).
    { intros Heq. assert (i = pred (length (pollfds_ p))); [|unfold zlen in *; lia].
      eapply (slot_unique p h Hinv); eauto. congruence. }
    rewrite lookup_delete_ne, R2 by done. simpl.
    unfold modify_channel, get_channel. simpl. rewrite E2. simpl.
    destruct (remove_inner p h c ch i pfd lst c2 ch2 Hinv E R Hi Hp Ho) as [H1 H2];
      [unfold zlen in *; lia|done..|].
    rewrite Hl in H1, H2.
    eexists _, _. split; [done|]. split; [exact H1|]. split; [apply Hnone|]. by split.
Qed.

Lemma poller_remove_keeps_others_witness :
  exists p' h', removeChannel 1 disabled_first = Ok (p', h') /\ pl_inv p' h' /\
    entry p' h' 5 = None /\ channels_ p' = delete 5 (channels_ disabled_first.1) /\
    (forall fd, fd <> 5 -> entry p' h' fd = entry disabled_first.1 disabled_first.2 fd).
Proof.
  apply (poller_remove_keeps_others disabled_first.1 disabled_first.2 1
           (set_index 0 (new_Channel 9 5)) (mkPollfd (-6) 0 0));
    [apply pl_check_inv; vm_compute; done|vm_compute; done..].
Defined.

(** A channel that was disabled with [disableAll] and is enabled again is
    never polled: both calls succeed, the entry asks for the right events
    and keeps the negative descriptor, which [poll] ignores. *)
Theorem reenable_ignored p h c ch :
  pl_inv p h -> h !! c = Some ch -> channels_ p !! fd_ ch = Some c ->
  exists p1 h1 p2 h2,
    disableAll updateChannel c (p, h) = Ok (p1, h1) /\
    enableReading updateChannel c (p1, h1) = Ok (p2, h2) /\
    entry p2 h2 (fd_ ch) = Some (mkPollfd (- fd_ ch - 1) kReadEvent 0) /\
    fd_ ch ∉ polled p2.
Proof.
  intros Hinv E R.
  set (h1 := <[c := set_events kNoneEvent ch]> h).
  set (h2 := <[c := set_events kReadEvent ch]> h).
  assert (Hinv1 : pl_inv p h1) by (by apply (pl_inv_events p h c ch)).
  assert (E1 : h1 !! c = Some (set_events kNoneEvent ch)) by apply lookup_insert_eq.
  destruct (registered_entry p h1 Hinv1 c _ E1 R) as (i & pfd & _ & _ & _ & He & Hpos).
  destruct (update_existing p h1 c _ pfd Hinv1 E1 R He) as (p1 & U1 & I1 & He1 & _ & Hm1).
  simpl in He1, Hpos.
  assert (Hinv2 : pl_inv p1 h2).
  { unfold h2. rewrite <- (insert_insert_eq h c (set_events kReadEvent ch) (set_events kNoneEvent ch)).
    by apply (pl_inv_events p1 h1 c (set_events kNoneEvent ch) kReadEvent). }
  assert (E2 : h2 !! c = Some (set_events kReadEvent ch)) by apply lookup_insert_eq.
  assert (R2 : channels_ p1 !! fd_ ch = Some c) by (by rewrite Hm1).
  assert (He2 : entry p1 h2 (fd_ ch) = Some (mkPollfd (- fd_ ch - 1) 0 0)).
  { unfold entry in He1 |- *. rewrite R2 in He1 |- *. simpl in *. rewrite E1 in He1.
    rewrite E2. done. }
  destruct (update_existing p1 h2 c _ _ Hinv2 E2 R2 He2) as (p2 & U2 & I2 & He3 & _ & Hm2).
  simpl in He3.
  exists p1, h1, p2, h2. split; [|split; [|split; [exact He3|]]].
  - unfold disableAll, modify_channel, get_channel. simpl. rewrite E. simpl. exact U1.
  - unfold enableReading, modify_channel, get_channel. simpl. unfold h1.
    rewrite lookup_insert_eq. simpl. unfold put_channel. simpl.
    rewrite insert_insert_eq. exact U2.
  - intros Hin. unfold polled in Hin. apply list_elem_of_filter in Hin as [_ Hin].
    apply list_elem_of_fmap in Hin as (pfd' & Hf & Hin).
    apply list_elem_of_lookup in Hin as [j Hj].
    assert (Ho : owner pfd' = fd_ ch).
    { unfold owner. rewrite <- Hf. by rewrite (proj2 (Z.ltb_ge _ _)). }
    destruct (pl_slots _ _ I2 _ _ Hj) as (c' & ch' & R' & Ec' & _ & Hij).
    rewrite Ho in R'. unfold entry in He3. rewrite R' in He3. simpl in He3.
    rewrite Ec' in He3. simpl in He3. rewrite Hij, Nat2Z.id, Hj in He3.
    injection He3 as ->. simpl in Hf. lia.
Qed.

Lemma reenable_ignored_witness :
  exists p1 h1 p2 h2,
    disableAll updateChannel 1 three_channels = Ok (p1, h1) /\
    enableReading updateChannel 1 (p1, h1) = Ok (p2, h2) /\
    entry p2 h2 5 = Some (mkPollfd (- 5 - 1) kReadEvent 0) /\ 5 ∉ polled p2.
Proof.
  apply (reenable_ignored three_channels.1 three_channels.2 1
    (set_events 3 (set_index 0 (new_Channel 9 5))));
    [apply pl_check_inv; vm_compute; done|vm_compute; done..].
Defined.
