(* ===== verification/CFormat.v ===== *)
(** * C formatting: decimal numbers in strings

    What the repository uses of [snprintf]: the conversions [%d], [%4d],
    [%02d], [%06d] and the truncation to the buffer, on byte strings, with
    the reading of a decimal number as their inverse.  [Date.v],
    [Timestamp.v], [LogStream.v] and [TcpServer.v] print with it. *)
From S2P Require Import Prelude.
From Stdlib Require Import Strings.Byte.

Definition bs (s : string) : list byte := String.list_byte_of_string s.

Definition digit (d : Z) : byte := byte_of_Z (48 + d).

(** The digits of a non-negative number, most significant first. *)
Fixpoint udec_fuel (n : nat) (z : Z) : list byte :=
  match n with
  | O => []
  | S n' => if z <? 10 then [digit z] else udec_fuel n' (z / 10) ++ [digit (z mod 10)]
  end.

(** [log2 z + 1] rounds are enough: each removes a factor of ten. *)
Definition udec (z : Z) : list byte := udec_fuel (S (Z.to_nat (Z.log2 z))) z.

Definition pad (w : nat) (c : byte) (l : list byte) : list byte :=
  replicate (w - length l) c ++ l.

Definition sign (z : Z) : list byte := if z <? 0 then bs "-" else [].

(** [%wd] and [%0wd]. *)
Definition fmt_d (w : nat) (z : Z) : list byte := pad w x20 (sign z ++ udec (Z.abs z)).
Definition fmt_0d (w : nat) (z : Z) : list byte :=
  sign z ++ pad (w - length (sign z)) x30 (udec (Z.abs z)).

(** [snprintf(buf, n, ...)] followed by reading [buf] as a C string. *)
Definition snprintf (n : nat) (out : list byte) : list byte := take (n - 1) out.

(** The number a string of digits denotes. *)
Definition dec_value (l : list byte) : Z :=
  foldl (fun v b => 10 * v + (byte_to_Z b - 48)) 0 l.

Definition is_digit (b : byte) : Prop := 48 <= byte_to_Z b <= 57.

(** ** Lemmas *)

Lemma digit_value d : 0 <= d < 10 -> byte_to_Z (digit d) = 48 + d.
Proof. intros. unfold digit. rewrite byte_to_of_Z. apply wrapu_small. lia. Qed.

Lemma digit_is_digit d : 0 <= d < 10 -> is_digit (digit d).
Proof. intros. unfold is_digit. rewrite digit_value; lia. Qed.

Lemma dec_value_snoc l b : dec_value (l ++ [b]) = 10 * dec_value l + (byte_to_Z b - 48).
Proof. unfold dec_value. rewrite foldl_app. done. Qed.

Lemma dec_value_zeros n l : dec_value (replicate n x30 ++ l) = dec_value l.
Proof. induction n; [done|]. unfold dec_value in *. simpl. done. Qed.

Lemma udec_fuel_value n z : 0 <= z < 10 ^ Z.of_nat n -> dec_value (udec_fuel n z) = z.
Proof.
  revert z. induction n as [|n IH]; intros z Hz.
  - rewrite Z.pow_0_r in Hz. simpl. unfold dec_value. simpl. lia.
  - rewrite Nat2Z.inj_succ, Z.pow_succ_r in Hz by lia. cbn [udec_fuel].
    destruct (Z.ltb_spec z 10).
    + unfold dec_value. cbn [foldl]. rewrite digit_value; lia.
    + pose proof (Z.div_mod z 10). pose proof (Z.mod_pos_bound z 10).
      rewrite dec_value_snoc, IH, digit_value; [lia..|].
      split; [apply Z.div_pos; lia|apply Z.div_lt_upper_bound; lia].
Qed.

Lemma udec_fuel_digits n z : 0 <= z -> Forall is_digit (udec_fuel n z).
Proof.
  revert z. induction n as [|n IH]; intros z Hz; cbn [udec_fuel]; [constructor|].
  destruct (Z.ltb_spec z 10); [constructor; [by apply digit_is_digit|constructor]|].
  pose proof (Z.mod_pos_bound z 10). apply Forall_app. split.
  - apply IH. apply Z.div_pos; lia.
  - constructor; [apply digit_is_digit; lia|constructor].
Qed.

Lemma udec_fuel_length n k z :
  0 <= z < 10 ^ Z.of_nat k -> (0 < k)%nat -> (length (udec_fuel n z) <= k)%nat.
Proof.
  revert k z. induction n as [|n IH]; intros k z Hz Hk; cbn [udec_fuel]; [simpl; lia|].
  destruct (Z.ltb_spec z 10); [simpl; lia|]. rewrite length_app. cbn [length].
  destruct k as [|k]; [lia|]. rewrite Nat2Z.inj_succ, Z.pow_succ_r in Hz by lia.
  destruct k as [|k]; [rewrite Z.pow_0_r in Hz; lia|].
  enough (length (udec_fuel n (z / 10)) <= S k)%nat by lia.
  apply IH; [|lia]. split; [apply Z.div_pos; lia|apply Z.div_lt_upper_bound; lia].
Qed.

Lemma udec_fuel_length_ge n k z :
  (k < n)%nat -> 10 ^ Z.of_nat k <= z -> (S k <= length (udec_fuel n z))%nat.
Proof.
  revert k z. induction n as [|n IH]; intros k z Hk Hz; [lia|]. cbn [udec_fuel].
  destruct k as [|k].
  - destruct (z <? 10); [simpl; lia|]. rewrite length_app. simpl. lia.
  - rewrite Nat2Z.inj_succ, Z.pow_succ_r in Hz by lia.
    pose proof (Z.pow_pos_nonneg 10 (Z.of_nat k)).
    destruct (Z.ltb_spec z 10); [lia|]. rewrite length_app. cbn [length].
    enough (S k <= length (udec_fuel n (z / 10)))%nat by lia.
    apply IH; [lia|]. apply Z.div_le_lower_bound; lia.
Qed.

Lemma fuel_enough z : 0 <= z -> z < 10 ^ Z.of_nat (S (Z.to_nat (Z.log2 z))).
Proof.
  intros Hz. rewrite Nat2Z.inj_succ, Z2Nat.id by apply Z.log2_nonneg.
  destruct (decide (z = 0)) as [->|]; [done|].
  pose proof (Z.log2_spec z ltac:(lia)). pose proof (Z.log2_nonneg z).
  apply Z.lt_le_trans with (2 ^ Z.succ (Z.log2 z)); [lia|]. apply Z.pow_le_mono_l. lia.
Qed.

(** A non-negative number is read back from its digits. *)
Lemma udec_value z : 0 <= z -> dec_value (udec z) = z.
Proof. intros. apply udec_fuel_value. split; [done|by apply fuel_enough]. Qed.

(** The digits do not depend on the fuel. *)
Lemma udec_fuel_indep n m z :
  0 <= z -> (0 < n)%nat -> (0 < m)%nat -> z < 10 ^ Z.of_nat n -> z < 10 ^ Z.of_nat m ->
  udec_fuel n z = udec_fuel m z.
Proof.
  revert m z. induction n as [|n IH]; intros m z Hz Hn Hm Hzn Hzm; [lia|].
  destruct m as [|m]; [lia|]. cbn [udec_fuel]. destruct (Z.ltb_spec z 10); [done|].
  rewrite Nat2Z.inj_succ, Z.pow_succ_r in Hzn by lia. rewrite Nat2Z.inj_succ, Z.pow_succ_r in Hzm by lia.
  destruct n as [|n]; [rewrite Z.pow_0_r in Hzn; lia|].
  destruct m as [|m]; [rewrite Z.pow_0_r in Hzm; lia|].
  rewrite (IH (S m)); [done|apply Z.div_pos; lia|lia|lia|apply Z.div_lt_upper_bound; lia..].
Qed.

Lemma udec_small z : z < 10 -> udec z = [digit z].
Proof. intros. unfold udec. cbn [udec_fuel]. by rewrite (proj2 (Z.ltb_lt _ _)). Qed.

(** The last digit splits off. *)
Lemma udec_step z : 10 <= z -> udec z = udec (z / 10) ++ [digit (z mod 10)].
Proof.
  intros Hz. unfold udec at 1. cbn [udec_fuel]. rewrite (proj2 (Z.ltb_ge _ _)) by done. f_equal.
  unfold udec.
  assert (0 < z / 10) by (apply Z.div_str_pos; lia).
  assert (0 < Z.log2 z) by (apply Z.log2_pos; lia).
  apply udec_fuel_indep; [lia|lia|lia| |by apply fuel_enough; lia].
  rewrite Z2Nat.id by lia. apply Z.div_lt_upper_bound; [lia|].
  pose proof (Z.log2_spec z ltac:(lia)).
  apply Z.lt_le_trans with (2 ^ Z.succ (Z.log2 z)); [lia|].
  rewrite <- Z.pow_succ_r by lia. apply Z.pow_le_mono_l. lia.
Qed.

Lemma dec_value_app a b :
  dec_value (a ++ b) = dec_value a * 10 ^ zlen b + dec_value b.
Proof.
  induction b as [|c b IH] using rev_ind; [rewrite app_nil_r, zlen_nil, Z.pow_0_r; unfold dec_value; simpl; lia|].
  rewrite app_assoc, !dec_value_snoc, IH, zlen_app, zlen_cons, zlen_nil.
  rewrite Z.pow_add_r by (pose proof (zlen_nonneg b); lia).
  replace (10 ^ (1 + 0)) with 10 by done. ring.
Qed.

Lemma udec_digits z : 0 <= z -> Forall is_digit (udec z).
Proof. apply udec_fuel_digits. Qed.

Lemma udec_length z k : 0 <= z < 10 ^ Z.of_nat k -> (0 < k)%nat -> (length (udec z) <= k)%nat.
Proof. apply udec_fuel_length. Qed.

Lemma udec_length_ge z k : 10 ^ Z.of_nat k <= z -> (S k <= length (udec z))%nat.
Proof.
  intros Hz. apply udec_fuel_length_ge; [|done].
  assert (Z.of_nat k <= Z.log2 z); [|lia].
  assert (2 ^ Z.of_nat k <= 10 ^ Z.of_nat k) by (apply Z.pow_le_mono_l; lia).
  rewrite <- (Z.log2_pow2 (Z.of_nat k)) by lia. apply Z.log2_le_mono. lia.
Qed.

Lemma fmt_0d_nonneg w z : 0 <= z -> fmt_0d w z = pad w x30 (udec z).
Proof.
  intros. unfold fmt_0d, sign. rewrite (proj2 (Z.ltb_ge z 0)), Z.abs_eq by done.
  simpl. by rewrite Nat.sub_0_r.
Qed.

Lemma fmt_d_nonneg w z : 0 <= z -> fmt_d w z = pad w x20 (udec z).
Proof.
  intros. unfold fmt_d, sign. rewrite (proj2 (Z.ltb_ge z 0)), Z.abs_eq by done. done.
Qed.

(** A zero-padded field of [w] digits. *)
Lemma fmt_0d_field w z :
  (0 < w)%nat -> 0 <= z < 10 ^ Z.of_nat w ->
  length (fmt_0d w z) = w /\ dec_value (fmt_0d w z) = z /\ Forall is_digit (fmt_0d w z).
Proof.
  intros Hw Hz. rewrite fmt_0d_nonneg by lia. unfold pad.
  pose proof (udec_length z w Hz Hw). split; [|split].
  - rewrite length_app, length_replicate. lia.
  - rewrite dec_value_zeros. apply udec_value. lia.
  - apply Forall_app. split; [|apply udec_digits; lia].
    apply Forall_replicate. unfold is_digit, byte_to_Z. simpl. lia.
Qed.

(** A number with exactly [w] digits needs no padding. *)
Lemma fmt_d_field w z :
  10 ^ Z.of_nat w <= z < 10 ^ Z.of_nat (S w) ->
  length (fmt_d (S w) z) = S w /\ dec_value (fmt_d (S w) z) = z.
Proof.
  intros Hz. pose proof (Z.pow_pos_nonneg 10 (Z.of_nat w)). rewrite fmt_d_nonneg by lia.
  pose proof (udec_length z (S w) ltac:(lia) ltac:(lia)).
  pose proof (udec_length_ge z w ltac:(lia)). unfold pad.
  replace (S w - length (udec z))%nat with 0%nat by lia. simpl.
  split; [lia|]. apply udec_value. lia.
Qed.

Example fmt_examples :
  fmt_0d 2 7 = bs "07" /\ fmt_d 4 (-12) = bs " -12" /\ fmt_0d 6 (-12) = bs "-00012" /\
  snprintf 4 (bs "abcdef") = bs "abc".
Proof. vm_compute. done. Qed.
