(* ===== verification/Endian.v ===== *)
(** * Big-endian integers

    [be32toh], [htobe32] and their relatives on byte strings: used by
    [TimeZone.v] (zone files) and [Codec.v] (frame headers). *)
From S2P Require Import Prelude.

(** The four bytes of a 32-bit value, most significant first. *)
Definition be32 (z : Z) : list byte :=
  [byte_of_Z (Z.shiftr z 24); byte_of_Z (Z.shiftr z 16); byte_of_Z (Z.shiftr z 8); byte_of_Z z].

Definition be_value (l : list byte) : Z := foldl (fun v b => 256 * v + byte_to_Z b) 0 l.

(** The unsigned and the signed 32-bit reading. *)
Definition be32_u (l : list byte) : Z := u32 (be_value l).
Definition be32_s (l : list byte) : Z := i32 (be_value l).

Lemma be32_length z : length (be32 z) = 4%nat.
Proof. done. Qed.

Lemma be_value_be32 z : be_value (be32 z) = u32 z.
Proof.
  unfold be32, be_value. cbn [foldl]. rewrite !byte_to_of_Z, !Z.shiftr_div_pow2 by lia.
  unfold wrapu. dlia.
Qed.

Lemma be32_s_be32 z : - 2 ^ 31 <= z < 2 ^ 31 -> be32_s (be32 z) = z.
Proof.
  intros. unfold be32_s. rewrite be_value_be32. unfold wrapu, wraps. dlia.
Qed.

Lemma be32_u_be32 z : 0 <= z < 2 ^ 32 -> be32_u (be32 z) = z.
Proof.
  intros. unfold be32_u. rewrite be_value_be32. unfold wrapu. dlia.
Qed.

Lemma be32_s_range l : - 2 ^ 31 <= be32_s l < 2 ^ 31.
Proof. apply (wraps_range 32). lia. Qed.
