(* ===== verification/Date.v ===== *)
(** * Date: the Gregorian calendar

    Models [muduo::Date] of [datetime/Date.h] and [Date.cc]: Julian day
    numbers, their conversion from and to year, month and day, week days and
    the ISO format.  [int] arithmetic is checked: a value outside 32 bits is
    undefined behaviour.  The calendar rules the theorems refer to are the
    definitions [leap], [days_in_month] and [next_day], which know nothing of
    the arithmetic of the code. *)
From S2P Require Import Prelude CFormat.
From Stdlib Require Import Strings.Byte.

Record YearMonthDay := mkYMD { year : Z; month : Z; day : Z }.

Definition getJulianDayNumber (year month day : Z) : outcome Z :=
  let a := Z.quot (14 - month) 12 in
  let y := year + 4800 - a in
  let m := month + 12 * a - 3 in
  let t1 := day + Z.quot (153 * m + 2) 5 in
  let t2 := t1 + y * 365 in
  let t3 := t2 + Z.quot y 4 in
  let t4 := t3 - Z.quot y 100 in
  let t5 := t4 + Z.quot y 400 in
  _ ← ints [14 - month; year + 4800; y; month + 12 * a; m; 153 * m; 153 * m + 2;
            y * 365; t1; t2; t3; t4; t5; t5 - 32045];
  Ok (t5 - 32045).

Definition getYearMonthDay (julianDayNumber : Z) : outcome YearMonthDay :=
  let a := julianDayNumber + 32044 in
  let b := Z.quot (4 * a + 3) 146097 in
  let c := a - Z.quot (b * 146097) 4 in
  let d := Z.quot (4 * c + 3) 1461 in
  let e := c - Z.quot (1461 * d) 4 in
  let m := Z.quot (5 * e + 2) 153 in
  _ ← ints [a; 4 * a; 4 * a + 3; b * 146097; c; 4 * c; 4 * c + 3; 1461 * d; e; 5 * e; 5 * e + 2;
            153 * m; 153 * m + 2; b * 100; b * 100 + d; b * 100 + d - 4800];
  Ok (mkYMD (b * 100 + d - 4800 + Z.quot m 10) (m + 3 - 12 * Z.quot m 10)
        (e - Z.quot (153 * m + 2) 5 + 1)).

(** A [Date] is its [julianDayNumber_]. *)
Record Date := mkDate { julianDayNumber_ : Z }.

Definition kDaysPerWeek : Z := 7.
Definition kJulianDayOf1970_01_01 : Z := 2440588.

Definition invalid_Date : Date := mkDate 0.
Definition new_Date (y m d : Z) : outcome Date :=
  j ← getJulianDayNumber y m d; Ok (mkDate j).

(** The fields of [struct tm] the constructor reads. *)
Definition Date_of_tm (tm_year tm_mon tm_mday : Z) : outcome Date :=
  _ ← ints [tm_year + 1900; tm_mon + 1];
  j ← getJulianDayNumber (tm_year + 1900) (tm_mon + 1) tm_mday; Ok (mkDate j).

Definition valid (d : Date) : bool := 0 <? julianDayNumber_ d.
Definition yearMonthDay (d : Date) : outcome YearMonthDay :=
  getYearMonthDay (julianDayNumber_ d).
Definition weekDay (d : Date) : outcome Z :=
  _ ← ints [julianDayNumber_ d + 1];
  Ok (Z.rem (julianDayNumber_ d + 1) kDaysPerWeek).
Definition date_ltb (x y : Date) : bool := julianDayNumber_ x <? julianDayNumber_ y.
Definition date_eqb (x y : Date) : bool := julianDayNumber_ x =? julianDayNumber_ y.

(** [toIsoString]: ["%4d-%02d-%02d"] into a buffer of 32 bytes. *)
Definition toIsoString (d : Date) : outcome (list byte) :=
  ymd ← yearMonthDay d;
  Ok (snprintf 32 (fmt_d 4 (year ymd) ++ bs "-" ++ fmt_0d 2 (month ymd) ++ bs "-" ++
                   fmt_0d 2 (day ymd))).

(** ** The calendar *)

Definition leap (y : Z) : bool :=
  (y mod 4 =? 0) && (negb (y mod 100 =? 0) || (y mod 400 =? 0)).

Definition days_in_month (y m : Z) : Z :=
  if m =? 2 then (if leap y then 29 else 28)
  else if (m =? 4) || (m =? 6) || (m =? 9) || (m =? 11) then 30 else 31.

Definition valid_ymd (t : YearMonthDay) : Prop :=
  1 <= month t <= 12 /\ 1 <= day t <= days_in_month (year t) (month t).

(** The day after [t]. *)
Definition next_day (t : YearMonthDay) : YearMonthDay :=
  if day t <? days_in_month (year t) (month t) then mkYMD (year t) (month t) (day t + 1)
  else if month t <? 12 then mkYMD (year t) (month t + 1) 1
  else mkYMD (year t + 1) 1 1.

(** Years for which the code does not leave the range of [int]. *)
Definition year_ok (y : Z) : Prop := -4799 <= y <= 1465000.

(** Reading a number from its field of a string. *)
Definition field (from len : nat) (s : list byte) : Z := dec_value (take len (drop from s)).

(** ** Lemmas *)

(** Discharge a check of intermediate results by linear arithmetic. *)
Ltac solve_ints := rewrite ints_ok; [cbn [mbind outcome_bind]|repeat (constructor; [dlia|]); constructor].
Ltac quot_to_div := repeat first [rewrite Z.quot_div_nonneg by dlia | rewrite Z.rem_mod_nonneg by dlia].

(** Days from the start of a March-based year to its month [m]. *)
Definition month_start (m : Z) : Z := (153 * m + 2) / 5.

(** The day number, by the March-based year [y] and month [m]. *)
Definition march_day (y m d : Z) : Z :=
  d + month_start m + y * 365 + y / 4 - y / 100 + y / 400 - 32045.

(** The year and month that start in March of 4801 BC. *)
Definition march_year (t : YearMonthDay) : Z := year t + 4800 - (if month t <? 3 then 1 else 0).
Definition march_month (t : YearMonthDay) : Z := if month t <? 3 then month t + 9 else month t - 3.

Lemma jdn_march t :
  1 <= month t <= 12 -> year_ok (year t) -> 1 <= day t <= 31 ->
  getJulianDayNumber (year t) (month t) (day t) =
  Ok (march_day (march_year t) (march_month t) (day t)).
Proof.
  intros Hm Hy Hd. unfold year_ok in Hy. unfold getJulianDayNumber.
  assert (Ha : Z.quot (14 - month t) 12 = if month t <? 3 then 1 else 0).
  { rewrite Z.quot_div_nonneg by lia. destruct (Z.ltb_spec (month t) 3); dlia. }
  rewrite Ha. clear Ha. unfold march_year, march_month, march_day, month_start.
  destruct (Z.ltb_spec (month t) 3).
  - replace (month t + 12 * 1 - 3) with (month t + 9) by lia. quot_to_div. solve_ints. done.
  - replace (month t + 12 * 0 - 3) with (month t - 3) by lia. quot_to_div. solve_ints. done.
Qed.

(** The century, year, day and month of day [a] since 1 March 4801 BC. *)
Definition century (a : Z) : Z := (4 * a + 3) / 146097.
Definition day_of_century (a : Z) : Z := a - (century a * 146097) / 4.
Definition year_of_century (a : Z) : Z := (4 * day_of_century a + 3) / 1461.
Definition day_of_year (a : Z) : Z := day_of_century a - (1461 * year_of_century a) / 4.
Definition month_of_year (a : Z) : Z := (5 * day_of_year a + 2) / 153.

(** [e] is a day of the March-based year [d] of century [b]. *)
Definition in_year (b d e : Z) : Prop :=
  0 <= b /\ 0 <= d <= 99 /\ 0 <= e /\
  (e <= 364 \/ (e = 365 /\ d mod 4 = 3 /\ (d <> 99 \/ b mod 4 = 3))).

Section march.
Context (a : Z) (Ha : 0 <= a).

Lemma century_pos : 0 <= century a.
Proof. unfold century. dlia. Qed.

Lemma day_of_century_range : 0 <= day_of_century a <= 36524.
Proof. unfold day_of_century, century. dlia. Qed.

Lemma year_of_century_range : 0 <= year_of_century a <= 99.
Proof. pose proof day_of_century_range. unfold year_of_century. dlia. Qed.

Lemma day_of_year_range : in_year (century a) (year_of_century a) (day_of_year a).
Proof.
  pose proof century_pos. pose proof year_of_century_range. pose proof day_of_century_range.
  split; [done|]. split; [done|]. unfold day_of_year.
  assert (0 <= day_of_century a - 1461 * year_of_century a / 4 <= 365 /\
    (day_of_century a - 1461 * year_of_century a / 4 = 365 -> year_of_century a mod 4 = 3)) as [Hr H3].
  { unfold year_of_century. dlia. }
  split; [lia|].
  destruct (decide (day_of_century a - 1461 * year_of_century a / 4 = 365)) as [He|]; [right|left; lia].
  split; [done|]. split; [by apply H3|].
  destruct (decide (year_of_century a = 99)) as [E|]; [right|by left].
  rewrite E in He. assert (day_of_century a = 36524) as Hc by dlia.
  unfold day_of_century, century in Hc. clear -Ha Hc. unfold century. dlia.
Qed.

Lemma month_of_year_range : 0 <= month_of_year a <= 11.
Proof. pose proof day_of_year_range as (? & ? & ? & ?). unfold month_of_year. dlia. Qed.
End march.

(** The decomposition is unique. *)
Section unique.
Context (b d e : Z) (H : in_year b d e).
Let a := 146097 * b / 4 + 1461 * d / 4 + e.

Lemma century_unique : century a = b.
Proof. destruct H as (? & ? & ? & ?). unfold century, a. dlia. Qed.

Lemma day_of_century_unique : day_of_century a = 1461 * d / 4 + e.
Proof. unfold day_of_century. rewrite century_unique. unfold a. dlia. Qed.

Lemma year_of_century_unique : year_of_century a = d.
Proof.
  unfold year_of_century. rewrite day_of_century_unique. destruct H as (? & ? & ? & ?). dlia.
Qed.

Lemma day_of_year_unique : day_of_year a = e.
Proof. unfold day_of_year. rewrite day_of_century_unique, year_of_century_unique. lia. Qed.
End unique.

(** [getYearMonthDay] in terms of the decomposition. *)
Definition ymd_of (a : Z) : YearMonthDay :=
  let m := month_of_year a in
  mkYMD (century a * 100 + year_of_century a - 4800 + m / 10) (m + 3 - 12 * (m / 10))
    (day_of_year a - month_start m + 1).

Lemma getYearMonthDay_march jd :
  0 <= jd + 32044 < 2 ^ 29 - 1 -> getYearMonthDay jd = Ok (ymd_of (jd + 32044)).
Proof.
  intros Hjd. unfold getYearMonthDay. set (a := jd + 32044) in *.
  assert (Ha : 0 <= a) by lia.
  pose proof (century_pos a Ha) as Hb. pose proof (day_of_century_range a) as Hc.
  pose proof (year_of_century_range a) as Hd. pose proof (month_of_year_range a Ha) as Hm.
  pose proof (day_of_year_range a Ha) as (_ & _ & He1 & He2).
  assert (century a * 146097 <= 4 * a + 3) by (unfold century; dlia).
  rewrite (Z.quot_div_nonneg (4 * a + 3)) by lia. fold (century a).
  rewrite (Z.quot_div_nonneg (century a * 146097)) by lia. fold (day_of_century a).
  rewrite (Z.quot_div_nonneg (4 * day_of_century a + 3)) by lia. fold (year_of_century a).
  rewrite (Z.quot_div_nonneg (1461 * year_of_century a)) by lia. fold (day_of_year a).
  rewrite (Z.quot_div_nonneg (5 * day_of_year a + 2)) by lia. fold (month_of_year a).
  rewrite (Z.quot_div_nonneg (month_of_year a)) by lia.
  rewrite (Z.quot_div_nonneg (153 * month_of_year a + 2)) by lia.
  rewrite ints_ok; [done|]. repeat (constructor; [lia|]). constructor.
Qed.

(** The decomposition recomposes to the day. *)
Lemma march_day_of a y :
  0 <= a -> y = century a * 100 + year_of_century a ->
  march_day y (month_of_year a) (day_of_year a - month_start (month_of_year a) + 1) = a - 32044.
Proof.
  intros Ha ->. pose proof (year_of_century_range a). pose proof (century_pos a Ha).
  unfold march_day, day_of_year, day_of_century.
  generalize dependent (year_of_century a). generalize dependent (century a).
  intros b Hb d Hd. dlia.
Qed.

Lemma march_of_ymd a :
  0 <= a -> march_year (ymd_of a) = century a * 100 + year_of_century a /\
  march_month (ymd_of a) = month_of_year a /\ 1 <= month (ymd_of a) <= 12.
Proof.
  intros Ha. pose proof (month_of_year_range a Ha). unfold march_year, march_month, ymd_of. simpl.
  destruct (Z.ltb_spec (month_of_year a + 3 - 12 * (month_of_year a / 10)) 3); dlia.
Qed.

(** The length of the March-based month [m] of the March-based year [y]. *)
Lemma days_in_march_month t :
  1 <= month t <= 12 ->
  days_in_month (year t) (month t) =
  if march_month t =? 11 then (if leap (march_year t + 1) then 29 else 28)
  else month_start (march_month t + 1) - month_start (march_month t).
Proof.
  intros Hm. unfold march_month, march_year, days_in_month, month_start.
  assert (month t = 1 \/ month t = 2 \/ month t = 3 \/ month t = 4 \/ month t = 5 \/
    month t = 6 \/ month t = 7 \/ month t = 8 \/ month t = 9 \/ month t = 10 \/ month t = 11 \/
    month t = 12) as Hc by lia.
  repeat destruct Hc as [Hc|Hc]; rewrite Hc; simpl; try done.
  replace (leap (year t + 4800 - 1 + 1)) with (leap (year t)); [done|].
  unfold leap. f_equal; [|f_equal; [f_equal|]]; f_equal; dlia.
Qed.

Lemma leap_century b d :
  0 <= d <= 99 -> leap (b * 100 + d + 1) = true <->
  d mod 4 = 3 /\ (d <> 99 \/ b mod 4 = 3).
Proof.
  intros Hd. unfold leap.
  rewrite andb_true_iff, orb_true_iff, negb_true_iff, !Z.eqb_eq, Z.eqb_neq. dlia.
Qed.

(** A day in a year is a day in a month, and the other way around. *)
Lemma in_year_days b d e m :
  0 <= b -> 0 <= d <= 99 -> 0 <= m <= 11 ->
  in_year b d e /\ (5 * e + 2) / 153 = m <->
  0 <= e - month_start m <
    (if m =? 11 then (if leap (b * 100 + d + 1) then 29 else 28)
     else month_start (m + 1) - month_start m).
Proof.
  intros Hb Hd Hm. unfold in_year. pose proof (leap_century b d Hd) as Hl.
  destruct (Z.eqb_spec m 11) as [->|Hm'].
  - change (month_start 11) with 337. destruct (leap (b * 100 + d + 1)).
    + destruct Hl as [Hl _]. specialize (Hl eq_refl). split; [|dlia].
      intros [(_ & _ & _ & He) Hq]. dlia.
    + assert (~ (d mod 4 = 3 /\ (d <> 99 \/ b mod 4 = 3))) by (intros Hn; by apply Hl in Hn).
      clear Hl. split; [|dlia]. intros [(_ & _ & ? & [?|(-> & ? & ?)]) He]; [dlia|tauto].
  - clear Hl. unfold month_start. split; [intros [(_ & _ & _ & He) Hq]; dlia|dlia].
Qed.

Lemma ymd_of_valid a : 0 <= a -> valid_ymd (ymd_of a).
Proof.
  intros Ha. pose proof (march_of_ymd a Ha) as (Hy & Hm & Hr). split; [done|].
  rewrite days_in_march_month, Hy, Hm by done. simpl.
  pose proof (proj1 (in_year_days (century a) (year_of_century a) (day_of_year a) (month_of_year a)
    (century_pos a Ha) (year_of_century_range a) (month_of_year_range a Ha))) as Hd.
  specialize (Hd (conj (day_of_year_range a Ha) eq_refl)).
  set (len := if month_of_year a =? 11 then _ else _) in *. lia.
Qed.

Lemma days_in_month_range y m : 28 <= days_in_month y m <= 31.
Proof. unfold days_in_month. repeat case_match; lia. Qed.

(** A valid date, decomposed as the code decomposes days. *)
Lemma valid_in_year t :
  valid_ymd t -> year_ok (year t) ->
  let b := march_year t / 100 in
  let d := march_year t mod 100 in
  let e := day t - 1 + month_start (march_month t) in
  in_year b d e /\ (5 * e + 2) / 153 = march_month t /\
  march_day (march_year t) (march_month t) (day t) + 32044 = 146097 * b / 4 + 1461 * d / 4 + e.
Proof.
  intros [Hm Hd] Hy b d e. unfold year_ok in Hy.
  assert (0 <= march_year t) by (unfold march_year; destruct (_ <? _); lia).
  assert (0 <= march_month t <= 11) by (unfold march_month; destruct (Z.ltb_spec (month t) 3); lia).
  assert (march_year t = b * 100 + d) as Hbd by (subst b d; dlia).
  rewrite days_in_march_month, Hbd in Hd by done.
  assert (0 <= b) by (subst b; dlia). assert (0 <= d <= 99) by (subst d; dlia).
  enough (in_year b d e /\ (5 * e + 2) / 153 = march_month t) as [? ?].
  { split; [done|]. split; [done|]. unfold march_day. rewrite Hbd. subst e.
    clearbody b d. clear -H1 H2. dlia. }
  apply in_year_days; [done..|]. subst e.
  set (len := if march_month t =? 11 then _ else _) in *. lia.
Qed.

Lemma jdn_of_valid t :
  valid_ymd t -> year_ok (year t) ->
  exists a, getJulianDayNumber (year t) (month t) (day t) = Ok (a - 32044) /\
    0 <= a < 2 ^ 29 - 1 /\ ymd_of a = t.
Proof.
  intros Ht Hy. pose proof (valid_in_year t Ht Hy) as H. cbv zeta in H.
  destruct Ht as [Hm Hd]. pose proof (days_in_month_range (year t) (month t)).
  rewrite jdn_march by (done || lia).
  set (b := march_year t / 100) in H. set (d := march_year t mod 100) in H.
  set (e := day t - 1 + month_start (march_month t)) in H.
  destruct H as (Hin & Hme & Ha).
  exists (146097 * b / 4 + 1461 * d / 4 + e). split; [f_equal; lia|].
  assert (march_year t = b * 100 + d) as Hbd by (subst b d; dlia).
  assert (march_year t <= year t + 4800) as Hmy by (unfold march_year; destruct (_ <? _); lia).
  split.
  { destruct Hin as (Hb0 & Hd0 & He0 & He1). unfold year_ok in Hy.
    clearbody b d e. clear -Hb0 Hd0 He0 He1 Hy Hbd Hmy. dlia. }
  pose proof (century_unique b d e Hin) as Eb. pose proof (year_of_century_unique b d e Hin) as Ed.
  pose proof (day_of_year_unique b d e Hin) as Ee. unfold ymd_of, month_of_year.
  rewrite Eb, Ed, Ee, Hme, <- Hbd. subst e. clear -Hm. unfold march_year, march_month.
  destruct t as [y m dd]. simpl in *. destruct (Z.ltb_spec m 3); f_equal; dlia.
Qed.

Lemma getYearMonthDay_jdn j t :
  - 32044 <= j < 2 ^ 29 - 1 - 32044 -> getYearMonthDay j = Ok t ->
  valid_ymd t /\ march_day (march_year t) (march_month t) (day t) = j.
Proof.
  intros Hj. rewrite getYearMonthDay_march by lia. intros [= <-]. assert (Ha : 0 <= j + 32044) by lia.
  split; [by apply ymd_of_valid|].
  destruct (march_of_ymd _ Ha) as (Hy & -> & _).
  rewrite (march_day_of (j + 32044)) by (done || lia). lia.
Qed.

(** The February of a leap year is a day longer. *)
Lemma march_leap z :
  0 < z -> 1 + 0 + z * 365 + z / 4 - z / 100 + z / 400 - 32045 =
  (if leap z then 29 else 28) + 337 + (z - 1) * 365 + (z - 1) / 4 - (z - 1) / 100 +
    (z - 1) / 400 - 32045 + 1.
Proof.
  intros Hz. unfold leap.
  destruct (Z.eqb_spec (z mod 4) 0), (Z.eqb_spec (z mod 100) 0), (Z.eqb_spec (z mod 400) 0);
    simpl; dlia.
Qed.

Lemma next_day_march t :
  valid_ymd t -> year_ok (year t) ->
  valid_ymd (next_day t) /\
  march_day (march_year (next_day t)) (march_month (next_day t)) (day (next_day t)) =
  march_day (march_year t) (march_month t) (day t) + 1.
Proof.
  intros [Hm Hd] Hy. unfold year_ok in Hy. unfold next_day, valid_ymd.
  destruct (Z.ltb_spec (day t) (days_in_month (year t) (month t))) as [Hlt|Hge].
  { simpl. split; [lia|]. unfold march_day, march_year, march_month. simpl. lia. }
  destruct (Z.ltb_spec (month t) 12) as [Hlt|Hge'].
  - split; [simpl; pose proof (days_in_month_range (year t) (month t + 1)); lia|].
    rewrite days_in_march_month in Hge, Hd by done.
    assert (march_month t = 11 <-> month t = 2) as H11.
    { unfold march_month. destruct (Z.ltb_spec (month t) 3); lia. }
    destruct (Z.eqb_spec (march_month t) 11) as [H2|H2].
    + apply H11 in H2. clear H11. unfold march_day, march_year, march_month in *. simpl in *.
      rewrite H2 in *. simpl in *. change (month_start 0) with 0. change (month_start 11) with 337.
      replace (year t + 4800 - 1 + 1) with (year t + 4800) in * by lia.
      replace (year t + 4800 - 0) with (year t + 4800) by lia.
      set (z := year t + 4800) in *. assert (0 < z) by lia. clearbody z.
      assert (day t = if leap z then 29 else 28) as -> by lia. by apply march_leap.
    + assert (month t <> 2) by tauto. unfold march_day, march_year, march_month in *. simpl in *.
      destruct (Z.ltb_spec (month t) 3), (Z.ltb_spec (month t + 1) 3); [|lia|lia|].
      * replace (month t + 1 + 9) with (month t + 9 + 1) by lia. lia.
      * replace (month t + 1 - 3) with (month t - 3 + 1) by lia. lia.
  - assert (month t = 12) as H12 by lia. split; [done|].
    rewrite H12 in Hd, Hge. unfold march_day, march_year, march_month. simpl. rewrite H12. simpl.
    change (days_in_month (year t) 12) with 31 in *. change (month_start (1 + 9)) with 306.
    change (month_start (12 - 3)) with 275. replace (year t + 1 + 4800 - 1) with (year t + 4800 - 0) by lia. lia.
Qed.

Lemma ymd_of_year_ok a : 306 <= a <= 536800000 -> year_ok (year (ymd_of a)).
Proof.
  intros Ha. pose proof (month_of_year_range a ltac:(lia)). pose proof (year_of_century_range a).
  pose proof (day_of_year_range a ltac:(lia)) as (? & _ & ? & _).
  unfold year_ok, ymd_of. simpl. split.
  - destruct (decide (1 <= century a * 100 + year_of_century a)); [dlia|].
    assert (century a = 0) as Hc by lia. assert (year_of_century a = 0) as Hy by lia.
    assert (306 <= day_of_year a).
    { unfold day_of_year, day_of_century. rewrite Hc, Hy. dlia. }
    assert (10 <= month_of_year a) by (unfold month_of_year; dlia). dlia.
  - assert (century a <= 14697) by (unfold century; dlia). dlia.
Qed.

(** Every day number in the range is the number of a valid date. *)
Lemma ymd_of_day j :
  - 31738 <= j <= 536767956 ->
  exists t, getYearMonthDay j = Ok t /\ valid_ymd t /\ year_ok (year t) /\
    getJulianDayNumber (year t) (month t) (day t) = Ok j.
Proof.
  intros Hj. exists (ymd_of (j + 32044)).
  assert (Et : getYearMonthDay j = Ok (ymd_of (j + 32044))) by (apply getYearMonthDay_march; lia).
  destruct (getYearMonthDay_jdn j _ ltac:(lia) Et) as (Hv & Hm). split; [done|]. split; [done|].
  pose proof (ymd_of_year_ok (j + 32044) ltac:(lia)). split; [done|]. destruct Hv as [Hmon Hd].
  pose proof (days_in_month_range (year (ymd_of (j + 32044))) (month (ymd_of (j + 32044)))).
  rewrite jdn_march by (done || lia). by f_equal.
Qed.

(** ** Properties *)

(** For every valid date between the years -4799 and 1465000,
    [getJulianDayNumber] computes a day number without overflowing [int], and
    [getYearMonthDay] gives the date back; conversely every day number from
    -31738 to 536767956 converts, without overflow, to a valid date, whose
    day number it is. *)
Theorem julian_day_roundtrip :
  (forall t, valid_ymd t -> year_ok (year t) ->
     exists j, getJulianDayNumber (year t) (month t) (day t) = Ok j /\ getYearMonthDay j = Ok t) /\
  (forall j, - 31738 <= j <= 536767956 ->
     exists t, getYearMonthDay j = Ok t /\ valid_ymd t /\
       getJulianDayNumber (year t) (month t) (day t) = Ok j).
Proof.
  split.
  - intros t Ht Hy. destruct (jdn_of_valid t Ht Hy) as (a & Ej & Ha & Et).
    exists (a - 32044). split; [done|]. rewrite getYearMonthDay_march by lia.
    f_equal. rewrite <- Et. f_equal. lia.
  - intros j Hj. destruct (ymd_of_day j Hj) as (t & ? & ? & _ & ?). by exists t.
Qed.

(** C38: day numbers count the days of the Gregorian calendar: 1 January 1970
    has the number 2440588 and the day after a valid date has the next
    number, across month ends, leap days and century years; so the week day
    advances cyclically. *)
Theorem julian_day_counts_days t :
  valid_ymd t -> year_ok (year t + 1) ->  year_ok (year t) ->
  getJulianDayNumber 1970 1 1 = Ok kJulianDayOf1970_01_01 /\
  valid_ymd (next_day t) /\
  exists j, getJulianDayNumber (year t) (month t) (day t) = Ok j /\
    getJulianDayNumber (year (next_day t)) (month (next_day t)) (day (next_day t)) = Ok (j + 1) /\
    (0 <= j -> exists w w', weekDay (mkDate j) = Ok w /\ weekDay (mkDate (j + 1)) = Ok w' /\
       w' = (w + 1) mod 7).
Proof.
  intros Ht Hy1 Hy. split; [done|]. destruct (next_day_march t Ht Hy) as [Hn Hj]. split; [done|].
  assert (Hyn : year_ok (year (next_day t))).
  { unfold next_day, year_ok in *. repeat case_match; simpl; lia. }
  destruct (jdn_of_valid t Ht Hy) as (a & Ej & Ha & _). exists (a - 32044). split; [done|].
  destruct Ht as [Hm Hd], Hn as [Hm' Hd'].
  pose proof (days_in_month_range (year t) (month t)).
  pose proof (days_in_month_range (year (next_day t)) (month (next_day t))).
  rewrite jdn_march in Ej by (done || lia). injection Ej as Ej.
  split; [rewrite jdn_march by (done || lia); f_equal; lia|].
  intros Hpos. unfold weekDay, kDaysPerWeek. simpl.
  rewrite !ints_ok by (constructor; [lia|constructor]). simpl.
  rewrite !Z.rem_mod_nonneg by lia. eexists _, _. split; [done|]. split; [done|]. dlia.
Qed.

Lemma julian_day_counts_days_witness :
  getJulianDayNumber 2000 2 29 = Ok 2451604 /\
  exists j, getJulianDayNumber 2000 2 29 = Ok j /\ getJulianDayNumber 2000 3 1 = Ok (j + 1).
Proof.
  split; [reflexivity|].
  destruct (julian_day_counts_days (mkYMD 2000 2 29)) as (_ & _ & j & E & E' & _);
    [unfold valid_ymd; simpl; change (days_in_month 2000 2) with 29; lia|
     unfold year_ok; simpl; lia..|].
  exists j. split; [exact E|exact E'].
Defined.

(** The ISO format of a day in the years 1000 to 9999 is ten characters
    long, with dashes at the fifth and the eighth position, and year, month
    and day can be read back from their columns. *)
Theorem toIsoString_columns j t :
  getYearMonthDay j = Ok t -> valid_ymd t -> 1000 <= year t <= 9999 ->
  exists s, toIsoString (mkDate j) = Ok s /\ length s = 10%nat /\
    s !! 4%nat = Some x2d /\ s !! 7%nat = Some x2d /\
    field 0 4 s = year t /\ field 5 2 s = month t /\ field 8 2 s = day t.
Proof.
  intros E [Hm Hd] Hy. pose proof (days_in_month_range (year t) (month t)).
  unfold toIsoString, yearMonthDay. simpl. rewrite E. simpl.
  destruct (fmt_d_field 3 (year t)) as [Ly Vy]; [simpl; lia|].
  destruct (fmt_0d_field 2 (month t)) as (Lm & Vm & _); [lia|simpl; lia|].
  destruct (fmt_0d_field 2 (day t)) as (Ld & Vd & _); [lia|simpl; lia|].
  set (ys := fmt_d 4 (year t)) in *. set (ms := fmt_0d 2 (month t)) in *.
  set (ds := fmt_0d 2 (day t)) in *. rewrite <- Vy, <- Vm, <- Vd. clearbody ys ms ds.
  destruct ys as [|y1 [|y2 [|y3 [|y4 [|]]]]]; try discriminate Ly.
  destruct ms as [|m1 [|m2 [|]]]; try discriminate Lm.
  destruct ds as [|d1 [|d2 [|]]]; try discriminate Ld.
  eexists. split; [reflexivity|]. done.
Qed.

Lemma toIsoString_columns_witness :
  exists s, toIsoString (mkDate 2451604) = Ok s /\ field 0 4 s = 2000 /\ field 5 2 s = 2 /\
    field 8 2 s = 29.
Proof.
  destruct (toIsoString_columns 2451604 (mkYMD 2000 2 29)) as (s & E & _ & _ & _ & H);
    [reflexivity|split; vm_compute; split; discriminate|simpl; lia|].
  exists s. split; [exact E|exact H].
Defined.
