(* ===== verification/TimeZone.v ===== *)
(** * TimeZone: civil time

    Models [datetime/TimeZone.cc] and [TimeZone.h]: the conversion between
    seconds since the epoch and UTC, the reader of zone files, the lookup of
    the local time type in force, and the conversion between UTC and local
    time.  [gmtime_r] and [timegm] are code outside the repository: they are
    the class [TimeLib], whose law says that they are inverse. *)
From S2P Require Import Prelude CFormat Date Endian.
From Stdlib Require Import Strings.Byte.

(** ** Broken-down time *)

Record tm := mkTm {
  tm_sec : Z; tm_min : Z; tm_hour : Z; tm_mday : Z; tm_mon : Z; tm_year : Z;
  tm_wday : Z; tm_yday : Z; tm_isdst : bool; tm_gmtoff : Z; tm_zone : list byte;
}.

Definition kSecondsPerDay : Z := 24 * 60 * 60.

(** [fillHMS]: seconds, minutes and hours of [seconds : unsigned]. *)
Definition fillHMS (seconds : Z) : Z * Z * Z :=
  let minutes := seconds / 60 in
  (seconds mod 60, minutes mod 60, minutes / 60).

Definition toUtcTime (secondsSinceEpoch : Z) (yday : bool) : outcome tm :=
  let seconds := Z.rem secondsSinceEpoch kSecondsPerDay in
  let days := i32 (Z.quot secondsSinceEpoch kSecondsPerDay) in
  let '(seconds, days) :=
    if seconds <? 0 then (seconds + kSecondsPerDay, days - 1) else (seconds, days) in
  let '(s, m, h) := fillHMS (u32 seconds) in
  _ ← ints [days; days + kJulianDayOf1970_01_01];
  let date := mkDate (days + kJulianDayOf1970_01_01) in
  ymd ← yearMonthDay date;
  wday ← weekDay date;
  _ ← ints [year ymd - 1900];
  yd ← (if yday then
          startOfYear ← new_Date (year ymd) 1 1;
          _ ← ints [julianDayNumber_ date - julianDayNumber_ startOfYear];
          Ok (julianDayNumber_ date - julianDayNumber_ startOfYear)
        else Ok 0);
  Ok (mkTm s m h (day ymd) (month ymd - 1) (year ymd - 1900) wday yd false 0 (bs "GMT")).

Definition fromUtcTime (year month day hour minute seconds : Z) : outcome Z :=
  date ← new_Date year month day;
  let secondsInDay := hour * 3600 + minute * 60 + seconds in
  _ ← ints [hour * 3600; minute * 60; hour * 3600 + minute * 60; secondsInDay;
            julianDayNumber_ date - kJulianDayOf1970_01_01];
  let days := julianDayNumber_ date - kJulianDayOf1970_01_01 in
  Ok (days * kSecondsPerDay + secondsInDay).

Definition fromUtcTime_tm (utc : tm) : outcome Z :=
  _ ← ints [tm_year utc + 1900; tm_mon utc + 1];
  fromUtcTime (tm_year utc + 1900) (tm_mon utc + 1) (tm_mday utc)
    (tm_hour utc) (tm_min utc) (tm_sec utc).

(** ** Zone data *)

Record Transition := mkTransition { gmttime : Z; localtime : Z; localtimeIdx : Z }.
Record Localtime := mkLocaltime { gmtOffset : Z; isDst : bool; arrbIdx : Z }.

Record Data := mkData {
  transitions : list Transition;
  localtimes : list Localtime;
  names : list (list byte);
  abbreviation : list byte;
}.

Definition empty_Data : Data := mkData [] [] [] [].

(** [Comp]: the field transitions are compared by. *)
Definition key (compareGmt : bool) (t : Transition) : Z :=
  if compareGmt then gmttime t else localtime t.
Definition comp (compareGmt : bool) (lhs rhs : Transition) : bool :=
  key compareGmt lhs <? key compareGmt rhs.
Definition comp_equal (compareGmt : bool) (lhs rhs : Transition) : bool :=
  key compareGmt lhs =? key compareGmt rhs.

(** ** The zone file reader

    A reader consumes bytes of the file and extends the zone data; it may
    throw a [logic_error], which the caller catches with the data read so
    far, or have undefined behaviour. *)
Inductive read_result (A : Type) :=
| Read (a : A) (rest : list byte) (d : Data)
| Throw (d : Data)
| Crash.
Arguments Read {A}. Arguments Throw {A}. Arguments Crash {A}.

Definition reader (A : Type) : Type := list byte -> Data -> read_result A.

#[export] Instance reader_ret : MRet reader := fun A a rest d => Read a rest d.
#[export] Instance reader_bind : MBind reader := fun A B f m rest d =>
  match m rest d with
  | Read a rest' d' => f a rest' d'
  | Throw d' => Throw d'
  | Crash => Crash
  end.

Definition throw {A} : reader A := fun _ d => Throw d.
Definition crash {A} : reader A := fun _ _ => Crash.
Definition modify_data (f : Data -> Data) : reader unit := fun rest d => Read tt rest (f d).

(** [fread] of [n] bytes; fewer is an error. A negative [n] would be the
    size of an array on the stack. *)
Definition readBytes (n : Z) : reader (list byte) := fun rest d =>
  if n <? 0 then Crash
  else if n <=? zlen rest then Read (take (Z.to_nat n) rest) (drop (Z.to_nat n) rest) d
  else Throw d.

Definition readInt32 : reader Z := b ← readBytes 4; mret (be32_s b).
Definition readUInt8 : reader Z := b ← readBytes 1; mret (be_value b).

(** [for (int i = 0; i < n; ++i)] collecting the results. *)
Fixpoint times {A} (n : nat) (m : reader A) : reader (list A) :=
  match n with
  | O => mret []
  | S n' => a ← m; l ← times n' m; mret (a :: l)
  end.

Definition push_localtime (l : Localtime) (d : Data) : Data :=
  mkData (transitions d) (localtimes d ++ [l]) (names d) (abbreviation d).
Definition push_transition (t : Transition) (d : Data) : Data :=
  mkData (transitions d ++ [t]) (localtimes d) (names d) (abbreviation d).
Definition set_abbreviation (s : list byte) (d : Data) : Data :=
  mkData (transitions d) (localtimes d) (names d) s.

Definition read_localtime : reader unit :=
  gmtoff ← readInt32; isdst ← readUInt8; abbrind ← readUInt8;
  modify_data (push_localtime (mkLocaltime gmtoff (negb (isdst =? 0)) abbrind)).

(** The third loop: [localtimes[i]] selects the type of [trans[i]]. *)
Fixpoint add_transitions (trans idx : list Z) : reader unit :=
  match trans, idx with
  | t :: trans', i :: idx' => fun rest d =>
      match localtimes d !! Z.to_nat i with
      | Some l =>
          add_transitions trans' idx' rest
            (push_transition (mkTransition t (t + gmtOffset l) i) d)
      | None => Crash
      end
  | _, _ => mret tt
  end.

(** The body of the [try] block. A negative count makes [reserve] throw
    [length_error], which is a [logic_error]. *)
Definition read_zone : reader unit :=
  head ← readBytes 4;
  if bool_decide (head = bs "TZif") then
    version ← readBytes 1;
    _ ← readBytes 15;
    isgmtcnt ← readInt32;
    isstdcnt ← readInt32;
    leapcnt ← readInt32;
    timecnt ← readInt32;
    typecnt ← readInt32;
    charcnt ← readInt32;
    if timecnt <? 0 then throw
    else
      trans ← times (Z.to_nat timecnt) readInt32;
      idx ← times (Z.to_nat timecnt) readUInt8;
      _ ← times (Z.to_nat typecnt) read_localtime;
      _ ← add_transitions trans idx;
      abbr ← readBytes charcnt;
      _ ← modify_data (set_abbreviation abbr);
      _ ← times (Z.to_nat leapcnt) (_ ← readInt32; readInt32);
      mret tt
  else throw.

(** [readTimeZoneFile]: [None] is a file that cannot be opened. *)
Definition readTimeZoneFile (file : option (list byte)) : outcome (bool * Data) :=
  match file with
  | Some content =>
      match read_zone content empty_Data with
      | Read _ _ d | Throw d => Ok (true, d)
      | Crash => Fail Undefined
      end
  | None => Ok (true, empty_Data)
  end.

(** [TimeZone(zonefile)]: the member [data_]. *)
Definition new_TimeZone (file : option (list byte)) : outcome (option Data) :=
  '(ok, d) ← readTimeZoneFile file; Ok (if ok : bool then Some d else None).

Definition valid (z : option Data) : bool := match z with Some _ => true | None => false end.

(** ** Lookup *)

(** [std::lower_bound] on [[first, first + len)] with the test [p x]
    standing for [comp(x, val)]. *)
Fixpoint lower_bound_loop {A} (fuel : nat) (p : A -> bool) (l : list A) (first len : nat) : nat :=
  match fuel with
  | O => first
  | S fuel' =>
      if (len =? 0)%nat then first
      else
        let half := (len / 2)%nat in
        let mid := (first + half)%nat in
        match l !! mid with
        | Some x =>
            if p x then lower_bound_loop fuel' p l (S mid) (len - half - 1)
            else lower_bound_loop fuel' p l first half
        | None => first
        end
  end.

(** The length decreases in every round, so [length l] rounds are enough. *)
Definition lower_bound {A} (p : A -> bool) (l : list A) : nat :=
  lower_bound_loop (length l) p l 0 (length l).

Definition findLocaltime (data : Data) (sentry : Transition) (c : bool) : outcome Localtime :=
  match transitions data with
  | [] => from_some Undefined (head (localtimes data))
  | front :: _ =>
      if comp c sentry front then from_some Undefined (head (localtimes data))
      else
        let transI := lower_bound (fun t => comp c t sentry) (transitions data) in
        match transitions data !! transI with
        | Some t =>
            t ← (if comp_equal c sentry t then Ok t
                 else _ ← assert_ (negb (transI =? 0)%nat);
                      from_some Undefined (transitions data !! pred transI));
            from_some Undefined (localtimes data !! Z.to_nat (localtimeIdx t))
        | None =>
            t ← from_some Undefined (last (transitions data));
            from_some Undefined (localtimes data !! Z.to_nat (localtimeIdx t))
        end
  end.

(** ** Local time *)

Class TimeLib := {
  gmtime_r : Z -> tm;
  timegm : tm -> Z;
}.

(** The part of [struct tm] [timegm] looks at. *)
Definition same_civil (a b : tm) : Prop :=
  tm_sec a = tm_sec b /\ tm_min a = tm_min b /\ tm_hour a = tm_hour b /\
  tm_mday a = tm_mday b /\ tm_mon a = tm_mon b /\ tm_year a = tm_year b.

(** Times the C library is asked about: some million years. *)
Definition time_ok (t : Z) : Prop := - 2 ^ 37 <= t <= 2 ^ 40.

Class TimeLibLaws `{TimeLib} := {
  timegm_gmtime : forall t a, time_ok t -> same_civil (gmtime_r t) a -> timegm a = t;
}.

(** The C string that starts at a byte. *)
Fixpoint c_string (l : list byte) : list byte :=
  match l with
  | [] => []
  | b :: l' => if bool_decide (b = x00) then [] else b :: c_string l'
  end.

Section local_time.
Context `{TimeLib}.

Definition toLocalTime (z : option Data) (seconds : Z) : outcome tm :=
  data ← from_some AssertFail z;
  let sentry := mkTransition seconds 0 0 in
  local ← findLocaltime data sentry true;
  _ ← longs [seconds + gmtOffset local];
  let t := gmtime_r (seconds + gmtOffset local) in
  _ ← defined_ (arrbIdx local <=? zlen (abbreviation data));
  Ok (mkTm (tm_sec t) (tm_min t) (tm_hour t) (tm_mday t) (tm_mon t) (tm_year t)
        (tm_wday t) (tm_yday t) (isDst local) (gmtOffset local)
        (c_string (drop (Z.to_nat (arrbIdx local)) (abbreviation data)))).

Definition fromLocalTime (z : option Data) (localTm : tm) : outcome Z :=
  data ← from_some AssertFail z;
  let seconds := timegm localTm in
  let sentry := mkTransition 0 seconds 0 in
  local ← findLocaltime data sentry false;
  _ ← longs [seconds - gmtOffset local];
  seconds ← (if tm_isdst localTm then
     tryTm ← toLocalTime z (seconds - gmtOffset local);
     if negb (tm_isdst tryTm) && (tm_hour tryTm =? tm_hour localTm) &&
        (tm_min tryTm =? tm_min localTm)
     then Ok (seconds - 3600) else Ok seconds
   else Ok seconds);
  _ ← longs [seconds; seconds - gmtOffset local];
  Ok (seconds - gmtOffset local).
End local_time.

(** ** Specifications *)

(** The entry in force at the time [s]: the last transition not after it. *)
Definition in_force (c : bool) (s : Z) (l : list Transition) : option Transition :=
  last (filter (fun t => key c t <= s) l).

Definition sorted_by (c : bool) (l : list Transition) : Prop :=
  forall i a b, l !! i = Some a -> l !! S i = Some b -> key c a + 3600 <= key c b.

(** A zone as the zone files of the world describe it: every transition
    names an existing type and its local time is the UTC time plus the
    offset of the type; transitions are at least an hour apart; the clock is
    set back by an hour at most. *)
Record zone_ok (d : Data) : Prop := {
  zone_sorted : sorted_by true (transitions d);
  zone_sorted_local : sorted_by false (transitions d);
  zone_types : forall t, t ∈ transitions d -> 0 <= localtimeIdx t /\
    exists l, localtimes d !! Z.to_nat (localtimeIdx t) = Some l /\
      localtime t = gmttime t + gmtOffset l /\ - 90000 <= gmtOffset l <= 90000 /\
      arrbIdx l <= zlen (abbreviation d);
  zone_back : forall i a b la lb, transitions d !! i = Some a -> transitions d !! S i = Some b ->
    localtimes d !! Z.to_nat (localtimeIdx a) = Some la ->
    localtimes d !! Z.to_nat (localtimeIdx b) = Some lb ->
    gmtOffset la <= gmtOffset lb + 3600;
}.

(** By how much [fromLocalTime] misses the instant [t], when transition [i]
    and its type [l] are in force: nothing, unless the clock shows the same
    local time again after the next transition. Then it answers for the second
    time, and takes an hour off if that ends daylight saving time. *)
Definition misread (d : Data) (i : nat) (l : Localtime) (t : Z) : Z :=
  match transitions d !! S i with
  | Some b =>
      match localtimes d !! Z.to_nat (localtimeIdx b) with
      | Some lb =>
          if localtime b <=? t + gmtOffset l then
            gmtOffset l - gmtOffset lb - (if isDst l && negb (isDst lb) then 3600 else 0)
          else 0
      | None => 0
      end
  | None => 0
  end.

(** The content of a version 1 zone file: the counts of the sections that
    the reader ignores are zero. *)
Definition encode_zone (d : Data) : list byte :=
  bs "TZif" ++ [x00] ++ replicate 15 x00 ++
  be32 0 ++ be32 0 ++ be32 0 ++
  be32 (zlen (transitions d)) ++ be32 (zlen (localtimes d)) ++ be32 (zlen (abbreviation d)) ++
  concat ((fun t => be32 (gmttime t)) <$> transitions d) ++
  ((fun t => byte_of_Z (localtimeIdx t)) <$> transitions d) ++
  concat ((fun l => be32 (gmtOffset l) ++ [if isDst l then x01 else x00; byte_of_Z (arrbIdx l)])
            <$> localtimes d) ++
  abbreviation d.

(** What fits in a zone file. *)
Record encodable (d : Data) : Prop := {
  enc_counts : zlen (transitions d) < 2 ^ 31 /\ zlen (localtimes d) <= 256 /\
    zlen (abbreviation d) < 2 ^ 31;
  enc_types : forall l, l ∈ localtimes d ->
    - 2 ^ 31 <= gmtOffset l < 2 ^ 31 /\ 0 <= arrbIdx l < 256;
  enc_transitions : forall t, t ∈ transitions d -> - 2 ^ 31 <= gmttime t < 2 ^ 31 /\
    0 <= localtimeIdx t < 256 /\
    exists l, localtimes d !! Z.to_nat (localtimeIdx t) = Some l /\
      localtime t = gmttime t + gmtOffset l;
  enc_names : names d = [];
}.

(** ** Lemmas: UTC *)

Lemma year_start t :
  valid_ymd t -> year_ok (year t) ->
  exists j0 j, getJulianDayNumber (year t) 1 1 = Ok j0 /\
    getJulianDayNumber (year t) (month t) (day t) = Ok j /\ 0 <= j - j0 <= 365.
Proof.
  intros [Hm Hd] Hy. pose proof (days_in_month_range (year t) (month t)).
  rewrite (jdn_march t) by (done || lia).
  pose proof (jdn_march (mkYMD (year t) 1 1)) as E1. simpl in E1. rewrite E1 by (done || lia). clear E1.
  eexists _, _. split; [done|]. split; [done|].
  rewrite days_in_march_month in Hd by done. unfold year_ok in Hy.
  unfold march_day, march_year, march_month in *. simpl. clear H.
  change (month_start (1 + 9)) with 306.
  destruct (Z.ltb_spec (month t) 3).
  - assert (month t = 1 \/ month t = 2) as [Hm1|Hm1] by lia; rewrite Hm1 in *; simpl in Hd.
    + change (month_start (1 + 9)) with 306. change (month_start (1 + 9 + 1) - month_start (1 + 9)) with 31 in Hd. lia.
    + change (month_start (2 + 9)) with 337. destruct (leap _); lia.
  - assert (0 <= month_start (month t - 3) /\ day t + month_start (month t - 3) <= 306).
    { rewrite (proj2 (Z.eqb_neq (month t - 3) 11)) in Hd by lia. unfold month_start in *. dlia. }
    set (y := year t) in *. clearbody y. set (ms := month_start _) in *. clearbody ms. dlia.
Qed.

Section utc.
Context (t : Z) (Ht : time_ok t).

Lemma day_split :
  let s := Z.rem t kSecondsPerDay in
  let d := i32 (Z.quot t kSecondsPerDay) in
  (if s <? 0 then (s + kSecondsPerDay, d - 1) else (s, d)) =
  (t mod kSecondsPerDay, t / kSecondsPerDay).
Proof.
  unfold time_ok in Ht. unfold kSecondsPerDay. cbv zeta.
  rewrite (wraps_small 32) by (simpl; dlia).
  destruct (Z.ltb_spec (Z.rem t (24 * 60 * 60)) 0); f_equal; dlia.
Qed.

Lemma utc_day_range : - 31738 <= t / kSecondsPerDay + kJulianDayOf1970_01_01 <= 536767956 /\
  0 <= t / kSecondsPerDay + kJulianDayOf1970_01_01.
Proof. unfold time_ok in Ht. unfold kSecondsPerDay, kJulianDayOf1970_01_01. dlia. Qed.

Lemma hms_value s : 0 <= s < kSecondsPerDay ->
  let '(sec, mi, h) := fillHMS (u32 s) in
  h * 3600 + mi * 60 + sec = s /\ 0 <= sec < 60 /\ 0 <= mi < 60 /\ 0 <= h < 24.
Proof.
  unfold kSecondsPerDay. intros Hs. rewrite wrapu_small by lia. unfold fillHMS. dlia.
Qed.
Lemma fromUtcTime_value y h m s jd :
  getJulianDayNumber (year y) (month y) (day y) = Ok jd -> 1 <= month y <= 12 -> year_ok (year y) ->
  0 <= s < 60 -> 0 <= m < 60 -> 0 <= h < 24 -> - 2 ^ 25 <= jd < 2 ^ 30 ->
  fromUtcTime_tm (mkTm s m h (day y) (month y - 1) (year y - 1900) 0 0 false 0 []) =
  Ok ((jd - kJulianDayOf1970_01_01) * kSecondsPerDay + (h * 3600 + m * 60 + s)).
Proof.
  intros E Hmo Hy Hs Hm Hh Hj. unfold year_ok in Hy. unfold fromUtcTime_tm, fromUtcTime, new_Date. simpl.
  replace (year y - 1900 + 1900) with (year y) by lia. replace (month y - 1 + 1) with (month y) by lia.
  rewrite ints_ok by (repeat (constructor; [lia|]); constructor). simpl. rewrite E. simpl.
  rewrite ints_ok; [done|]. unfold kJulianDayOf1970_01_01. repeat (constructor; [lia|]). constructor.
Qed.

(** What [toUtcTime] computes, and that [fromUtcTime] inverts it. *)
Lemma toUtcTime_value yday :
  exists y h m s yd,
    let u := mkTm s m h (day y) (month y - 1) (year y - 1900) ((4 + t / kSecondsPerDay) mod 7) yd
               false 0 (bs "GMT") in
    toUtcTime t yday = Ok u /\ valid_ymd y /\ year_ok (year y) /\ 0 <= yd <= 365 /\
    0 <= h < 24 /\ 0 <= m < 60 /\ 0 <= s < 60 /\ fromUtcTime_tm u = Ok t.
Proof.
  pose proof day_split as Hs. cbv zeta in Hs. pose proof utc_day_range as [Hr Hp].
  pose proof (hms_value (t mod kSecondsPerDay) ltac:(apply Z.mod_pos_bound; done)) as Hh.
  unfold toUtcTime. cbv zeta. rewrite Hs. clear Hs.
  destruct (fillHMS (u32 (t mod kSecondsPerDay))) as [[s m] h]. destruct Hh as (Hv & Hsec & Hmin & Hhr).
  pose proof (Z.div_mod t kSecondsPerDay ltac:(done)) as Hdm. rewrite <- Hv in Hdm.
  set (q := t / kSecondsPerDay) in *. clearbody q. set (jd := q + kJulianDayOf1970_01_01) in *.
  assert (jd - kJulianDayOf1970_01_01 = q) as Hjd by (unfold jd; lia). clearbody jd.
  rewrite ints_ok by (repeat (constructor; [unfold kJulianDayOf1970_01_01 in *; lia|]); constructor).
  destruct (ymd_of_day jd Hr) as (y & Ey & Hvy & Hyok & Hj). unfold yearMonthDay. simpl. rewrite Ey. simpl.
  unfold weekDay. simpl. rewrite (ints_ok [jd + 1]) by (constructor; [lia|constructor]). simpl.
  pose proof Hyok as Hyok'. unfold year_ok in Hyok'.
  rewrite ints_ok by (constructor; [lia|constructor]). simpl.
  destruct (year_start y Hvy Hyok) as (j0 & j1 & E0 & E1 & Hyd). rewrite Hj in E1. injection E1 as <-.
  assert (Eyd : (if yday then startOfYear ← new_Date (year y) 1 1;
             _ ← ints [jd - julianDayNumber_ startOfYear]; Ok (jd - julianDayNumber_ startOfYear)
           else Ok 0) = Ok (if yday then jd - j0 else 0)).
  { destruct yday; [|done]. unfold new_Date. rewrite E0. simpl.
    by rewrite ints_ok by (constructor; [lia|constructor]). }
  rewrite Eyd. simpl. exists y, h, m, s, (if yday then jd - j0 else 0). split.
  { do 2 f_equal. unfold kDaysPerWeek. rewrite Z.rem_mod_nonneg by lia.
    unfold kJulianDayOf1970_01_01 in Hjd. clear -Hjd. dlia. }
  split; [done|]. split; [done|]. split; [destruct yday; lia|]. split; [done|]. split; [done|].
  split; [done|]. destruct Hvy as [Hmo _].
  pose proof (fromUtcTime_value y h m s jd Hj Hmo Hyok Hsec Hmin Hhr ltac:(lia)) as F.
  unfold fromUtcTime_tm in *. simpl in *. rewrite F, Hjd. f_equal. rewrite Hdm. ring.
Qed.
End utc.

(** ** Lemmas: the reader *)

Lemma readBytes_app b rest d n :
  zlen b = n -> readBytes n (b ++ rest) d = Read b rest d.
Proof.
  intros <-. unfold readBytes. pose proof (zlen_nonneg b). pose proof (zlen_nonneg rest).
  rewrite (proj2 (Z.ltb_ge _ _)) by lia. rewrite (proj2 (Z.leb_le _ _)) by (rewrite zlen_app; lia).
  unfold zlen. rewrite Nat2Z.id. rewrite take_app_length, drop_app_length. done.
Qed.

(** One step of a reader that succeeds. *)
Lemma reader_step {A B} (m : reader A) (f : A -> reader B) rest d a rest' d' :
  m rest d = Read a rest' d' -> (m ≫= f) rest d = f a rest' d'.
Proof. intros E. unfold mbind, reader_bind. by rewrite E. Qed.

Lemma readInt32_be32 z rest d :
  - 2 ^ 31 <= z < 2 ^ 31 -> readInt32 (be32 z ++ rest) d = Read z rest d.
Proof.
  intros. unfold readInt32. erewrite reader_step by (by apply (readBytes_app (be32 z))).
  unfold mret, reader_ret. by rewrite be32_s_be32.
Qed.

Lemma readUInt8_cons b rest d : readUInt8 (b :: rest) d = Read (byte_to_Z b) rest d.
Proof. unfold readUInt8. by erewrite reader_step by (by apply (readBytes_app [b] rest)). Qed.

Lemma times_int32 n l rest d :
  n = length l -> Forall (fun z => - 2 ^ 31 <= z < 2 ^ 31) l ->
  times n readInt32 (concat (be32 <$> l) ++ rest) d = Read l rest d.
Proof.
  intros -> Hl. induction Hl as [|z l Hz Hl IH]; [done|].
  cbn [length times fmap list_fmap concat]. rewrite <- app_assoc.
  erewrite reader_step by (by apply readInt32_be32). by erewrite reader_step by apply IH.
Qed.

Lemma times_uint8 n l rest d :
  n = length l -> Forall (fun z => 0 <= z < 256) l ->
  times n readUInt8 ((byte_of_Z <$> l) ++ rest) d = Read l rest d.
Proof.
  intros -> Hl. induction Hl as [|z l Hz Hl IH]; [done|].
  cbn [length times fmap list_fmap app].
  erewrite reader_step by (by apply readUInt8_cons).
  erewrite reader_step by apply IH. by rewrite byte_to_of_Z, wrapu_small by lia.
Qed.

Lemma read_localtime_ok l rest d :
  - 2 ^ 31 <= gmtOffset l < 2 ^ 31 /\ 0 <= arrbIdx l < 256 ->
  read_localtime (be32 (gmtOffset l) ++ (if isDst l then x01 else x00) :: byte_of_Z (arrbIdx l) :: rest) d =
  Read tt rest (push_localtime l d).
Proof.
  intros [Hz Ha]. unfold read_localtime. erewrite reader_step by (by apply readInt32_be32).
  do 2 erewrite reader_step by (by apply readUInt8_cons).
  rewrite byte_to_of_Z, (wrapu_small 8) by lia. unfold modify_data. f_equal.
  destruct l as [off [] ix]; done.
Qed.

Lemma add_localtimes_ok l rest d :
  Forall (fun l => - 2 ^ 31 <= gmtOffset l < 2 ^ 31 /\ 0 <= arrbIdx l < 256) l ->
  exists u, times (length l) read_localtime
    (concat ((fun l => be32 (gmtOffset l) ++ [if isDst l then x01 else x00; byte_of_Z (arrbIdx l)])
            <$> l) ++ rest) d =
  Read u rest (mkData (transitions d) (localtimes d ++ l) (names d) (abbreviation d)).
Proof.
  intros Hl. revert d. induction Hl as [|z l Hz Hl IH]; intros d.
  { exists []. rewrite app_nil_r. destruct d. done. }
  destruct (IH (push_localtime z d)) as [u Hu]. exists (tt :: u).
  cbn [length times fmap list_fmap concat]. rewrite <- !app_assoc. cbn [app].
  erewrite reader_step by (by apply read_localtime_ok). erewrite reader_step by apply Hu.
  unfold mret, reader_ret. simpl. by rewrite <- app_assoc.
Qed.

Lemma add_transitions_ok l rest d :
  Forall (fun t => 0 <= localtimeIdx t /\ exists lt, localtimes d !! Z.to_nat (localtimeIdx t) = Some lt /\
      localtime t = gmttime t + gmtOffset lt) l ->
  add_transitions (gmttime <$> l) (localtimeIdx <$> l) rest d =
  Read tt rest (mkData (transitions d ++ l) (localtimes d) (names d) (abbreviation d)).
Proof.
  intros Hl. revert d Hl. induction l as [|t l IH]; intros d Hl.
  { rewrite app_nil_r. destruct d. done. }
  apply Forall_cons in Hl as [(Hi & lt & E & Hlt) Hl]. cbn [fmap list_fmap add_transitions].
  rewrite E. unfold fmap in IH. rewrite IH; [|done].
  simpl. rewrite <- app_assoc. rewrite <- Hlt. by destruct t.
Qed.

(** ** Lemmas: lookup *)

Section lower_bound.
Context {A : Type} (p : A -> bool) (l : list A).
Context (Hp : forall i j x y, (i <= j)%nat -> l !! i = Some x -> l !! j = Some y ->
  p y = true -> p x = true).

Lemma lower_bound_loop_spec fuel first len :
  (len <= fuel)%nat -> (first + len <= length l)%nat ->
  (forall i x, (i < first)%nat -> l !! i = Some x -> p x = true) ->
  (forall i x, (first + len <= i)%nat -> l !! i = Some x -> p x = false) ->
  let k := lower_bound_loop fuel p l first len in
  (k <= length l)%nat /\
  (forall i x, (i < k)%nat -> l !! i = Some x -> p x = true) /\
  (forall i x, (k <= i)%nat -> l !! i = Some x -> p x = false).
Proof.
  revert first len. induction fuel as [|fuel IH]; intros first len Hf Hlen Hlo Hhi; cbn [lower_bound_loop].
  { split; [lia|]. split; [done|]. intros i x Hi. apply Hhi. lia. }
  destruct (Nat.eqb_spec len 0) as [->|Hne].
  { split; [lia|]. split; [done|]. intros i x Hi. apply Hhi. lia. }
  pose proof (Nat.div_lt len 2 ltac:(lia) ltac:(lia)) as Hhalf.
  destruct (lookup_lt_is_Some_2 l (first + len / 2)) as [x E]; [lia|]. rewrite E.
  destruct (p x) eqn:Ex.
  - apply IH; [lia|lia| |].
    + intros i y Hi Ey. apply (Hp i (first + len / 2) y x); [lia|done..].
    + intros i y Hi. apply Hhi. lia.
  - apply IH; [lia|lia|done|]. intros i y Hi Ey.
    destruct (p y) eqn:Epy; [|done]. rewrite <- Ex. symmetry.
    apply (Hp (first + len / 2) i x y); [lia|done..].
Qed.

Lemma lower_bound_spec :
  (lower_bound p l <= length l)%nat /\
  (forall i x, (i < lower_bound p l)%nat -> l !! i = Some x -> p x = true) /\
  (forall i x, (lower_bound p l <= i)%nat -> l !! i = Some x -> p x = false).
Proof.
  apply lower_bound_loop_spec; [lia|lia|lia|].
  intros i x Hi Ex. apply lookup_lt_Some in Ex. lia.
Qed.
End lower_bound.

Lemma filter_take {A} (P : A -> Prop) `{!forall x, Decision (P x)} l n :
  (forall i x, (i < n)%nat -> l !! i = Some x -> P x) ->
  (forall i x, (n <= i)%nat -> l !! i = Some x -> ~ P x) ->
  filter P l = take n l.
Proof.
  revert n. induction l as [|x l IH]; intros n Hlo Hhi; [by rewrite take_nil|].
  destruct n as [|n].
  - rewrite filter_cons_False; [|by apply (Hhi 0%nat); [lia|]].
    rewrite (IH 0%nat); [done|lia|]. intros i y Hi Ey. apply (Hhi (S i)); [lia|done].
  - rewrite filter_cons_True; [|by apply (Hlo 0%nat); [lia|]]. simpl. f_equal.
    apply IH; intros i y Hi Ey; [apply (Hlo (S i))|apply (Hhi (S i))]; (lia || done).
Qed.

Lemma last_take {A} (l : list A) n : (n < length l)%nat -> last (take (S n) l) = l !! n.
Proof.
  intros. rewrite last_lookup, length_take_le by lia. simpl. by rewrite lookup_take_lt by lia.
Qed.

Section sorted.
Context (c : bool) (l : list Transition) (Hs : sorted_by c l).

Lemma sorted_gap i j a b :
  (i < j)%nat -> l !! i = Some a -> l !! j = Some b -> key c a + 3600 <= key c b.
Proof.
  intros Hij Ha. revert b. induction Hij as [|j Hij IH]; intros b Hb; [by eapply Hs|].
  destruct (lookup_lt_is_Some_2 l j) as [x Hx]; [apply lookup_lt_Some in Hb; lia|].
  pose proof (IH x Hx). pose proof (Hs _ _ _ Hx Hb). lia.
Qed.

Lemma sorted_le i j a b :
  (i <= j)%nat -> l !! i = Some a -> l !! j = Some b -> key c a <= key c b.
Proof.
  intros Hij Ha Hb. destruct (decide (i = j)) as [->|]; [naive_solver lia|].
  pose proof (sorted_gap i j a b ltac:(lia) Ha Hb). lia.
Qed.

(** The transition in force, by its position. *)
Lemma in_force_at s i a :
  l !! i = Some a -> key c a <= s ->
  (forall b, l !! S i = Some b -> s < key c b) -> in_force c s l = Some a.
Proof.
  intros Ha Hle Hgt. unfold in_force. rewrite (filter_take _ _ (S i)).
  - rewrite last_take; [done|]. by apply lookup_lt_Some in Ha.
  - intros j x Hj Hx. pose proof (sorted_le j i x a ltac:(lia) Hx Ha). lia.
  - intros j x Hj Hx. destruct (lookup_lt_is_Some_2 l (S i)) as [b Hb].
    { apply lookup_lt_Some in Hx. lia. }
    pose proof (Hgt b Hb). pose proof (sorted_le (S i) j b x Hj Hb Hx). lia.
Qed.

Lemma in_force_before s a : l !! 0%nat = Some a -> s < key c a -> in_force c s l = None.
Proof.
  intros Ha Hs'. unfold in_force. rewrite (filter_take _ _ 0%nat); [done|lia|].
  intros j x _ Hx. pose proof (sorted_le 0 j a x ltac:(lia) Ha Hx). lia.
Qed.

(** At every time, either no transition is in force or one position is. *)
Lemma in_force_cases s :
  (in_force c s l = None /\ forall a, l !! 0%nat = Some a -> s < key c a) \/
  exists i a, l !! i = Some a /\ key c a <= s /\
    (forall b, l !! S i = Some b -> s < key c b) /\ in_force c s l = Some a.
Proof.
  destruct (lower_bound_spec (fun t => key c t <=? s) l) as (Hk & Hlo & Hhi).
  { intros i j x y Hij Hx Hy Hp. apply Z.leb_le in Hp. apply Z.leb_le.
    pose proof (sorted_le i j x y Hij Hx Hy). lia. }
  destruct (lower_bound _ l) as [|i] eqn:Ek.
  - left. split.
    + unfold in_force. rewrite (filter_take _ _ 0%nat); [done|lia|].
      intros j x Hj Hx. specialize (Hhi j x Hj Hx). simpl in Hhi. bool_facts. lia.
    + intros a Ha. specialize (Hhi 0%nat a ltac:(lia) Ha). simpl in Hhi. bool_facts. lia.
  - right. destruct (lookup_lt_is_Some_2 l i) as [a Ha]; [lia|].
    assert (key c a <= s) by (specialize (Hlo i a ltac:(lia) Ha); simpl in Hlo; bool_facts; lia).
    assert (forall b, l !! S i = Some b -> s < key c b).
    { intros b Hb. specialize (Hhi (S i) b ltac:(lia) Hb). simpl in Hhi. bool_facts. lia. }
    exists i, a. split; [done|]. split; [done|]. split; [done|]. by apply (in_force_at s i).
Qed.

Lemma lower_bound_before v : lower_bound (fun t => comp c t v) l =
  lower_bound (fun t => key c t <? key c v) l.
Proof. done. Qed.

(** [findLocaltime] selects the type in force, the first type before the
    first transition. *)
Lemma findLocaltime_in_force d v :
  transitions d = l ->
  findLocaltime d v c =
  match in_force c (key c v) l with
  | Some t => from_some Undefined (localtimes d !! Z.to_nat (localtimeIdx t))
  | None => from_some Undefined (head (localtimes d))
  end.
Proof.
  intros Hd. unfold findLocaltime. rewrite Hd. destruct l as [|f l'] eqn:El in |- *; [done|].
  rewrite <- El. assert (Hf : l !! 0%nat = Some f) by (by rewrite El).
  unfold comp at 1. destruct (Z.ltb_spec (key c v) (key c f)) as [Hlt|Hge].
  { rewrite (in_force_before _ f); done. }
  destruct (lower_bound_spec (fun t => comp c t v) l) as (Hk & Hlo & Hhi).
  { intros i j x y Hij Hx Hy Hp. unfold comp in *. bool_facts. apply Z.ltb_lt.
    pose proof (sorted_le i j x y Hij Hx Hy). lia. }
  set (k := lower_bound _ l) in *. clearbody k.
  destruct (l !! k) as [t|] eqn:Et.
  - pose proof (Hhi k t ltac:(lia) Et) as Hkt. unfold comp in Hkt. bool_facts.
    unfold comp_equal. destruct (Z.eqb_spec (key c v) (key c t)) as [Heq|Hneq]; simpl.
    + rewrite (in_force_at (key c v) k t); [done|done|lia|].
      intros b Hb. pose proof (sorted_gap k (S k) t b ltac:(lia) Et Hb). lia.
    + destruct (Nat.eqb_spec k 0) as [->|Hk0]; [naive_solver lia|]. simpl.
      destruct (lookup_lt_is_Some_2 l (pred k)) as [b Hb]; [lia|]. rewrite Hb. simpl.
      pose proof (Hlo (pred k) b ltac:(lia) Hb) as Hbv. unfold comp in Hbv. bool_facts.
      rewrite (in_force_at (key c v) (pred k) b); [done|done|lia|].
      replace (S (pred k)) with k by lia. intros b' Hb'. naive_solver lia.
  - apply lookup_ge_None in Et. rewrite last_lookup.
    destruct (lookup_lt_is_Some_2 l (pred (length l))) as [b Hb]; [rewrite El; simpl; lia|].
    rewrite Hb. simpl. pose proof (lookup_lt_Some _ _ _ Hb).
    pose proof (Hlo (pred (length l)) b ltac:(lia) Hb) as Hbv. unfold comp in Hbv. bool_facts.
    rewrite (in_force_at (key c v) (pred (length l)) b); [done|done|lia|].
    replace (S (pred (length l))) with (length l) by lia. intros b' Hb'.
    apply lookup_lt_Some in Hb'. lia.
Qed.
End sorted.

(** ** Lemmas: local time *)

(** The times the local conversions are proved for. *)
Definition local_ok (t : Z) : Prop := - 2 ^ 36 <= t <= 2 ^ 39.

Section zone.
Context `{TimeLibLaws} (d : Data) (Hz : zone_ok d).

Lemma type_of_transition i a :
  transitions d !! i = Some a ->
  exists l, localtimes d !! Z.to_nat (localtimeIdx a) = Some l /\
    localtime a = gmttime a + gmtOffset l /\ - 90000 <= gmtOffset l <= 90000 /\
    arrbIdx l <= zlen (abbreviation d).
Proof. intros Ha. apply (zone_types d Hz a). by eapply list_elem_of_lookup_2. Qed.

(** [toLocalTime] in the period of a transition. *)
Definition local_tm (l : Localtime) (t : Z) : tm :=
  let g := gmtime_r (t + gmtOffset l) in
  mkTm (tm_sec g) (tm_min g) (tm_hour g) (tm_mday g) (tm_mon g) (tm_year g) (tm_wday g)
    (tm_yday g) (isDst l) (gmtOffset l) (c_string (drop (Z.to_nat (arrbIdx l)) (abbreviation d))).

Lemma toLocalTime_at i a l t :
  transitions d !! i = Some a -> localtimes d !! Z.to_nat (localtimeIdx a) = Some l ->
  gmttime a <= t -> (forall b, transitions d !! S i = Some b -> t < gmttime b) ->
  - 2 ^ 62 <= t < 2 ^ 62 ->
  toLocalTime (Some d) t = Ok (local_tm l t).
Proof.
  intros Ha Hl Hle Hgt Ht. destruct (type_of_transition i a Ha) as (l' & Hl' & _ & Ho & Hi).
  rewrite Hl in Hl'. injection Hl' as <-. unfold toLocalTime. simpl.
  rewrite (findLocaltime_in_force true _ (zone_sorted d Hz) d _ eq_refl). cbn [key gmttime].
  rewrite (in_force_at true _ (zone_sorted d Hz) t i a); [|done..]. rewrite Hl. cbn [from_some mbind outcome_bind].
  rewrite longs_ok by (constructor; [lia|constructor]). simpl.
  rewrite (proj2 (Z.leb_le _ _)) by done. done.
Qed.

Lemma findLocaltime_local_at i a l s :
  transitions d !! i = Some a -> localtimes d !! Z.to_nat (localtimeIdx a) = Some l ->
  localtime a <= s -> (forall b, transitions d !! S i = Some b -> s < localtime b) ->
  findLocaltime d (mkTransition 0 s 0) false = Ok l.
Proof.
  intros Ha Hl Hle Hgt.
  rewrite (findLocaltime_in_force false _ (zone_sorted_local d Hz) d _ eq_refl). cbn [key localtime].
  rewrite (in_force_at false _ (zone_sorted_local d Hz) s i a); [|done..]. by rewrite Hl.
Qed.

Lemma timegm_local_tm l t :
  - 90000 <= gmtOffset l <= 90000 -> local_ok t -> timegm (local_tm l t) = t + gmtOffset l.
Proof.
  intros Ho Ht. apply timegm_gmtime; [unfold time_ok, local_ok in *; lia|done].
Qed.

(** A local time before the next transition of the local clock. *)
Lemma fromLocal_same_period i a l t :
  transitions d !! i = Some a -> localtimes d !! Z.to_nat (localtimeIdx a) = Some l ->
  gmttime a <= t -> (forall b, transitions d !! S i = Some b -> t < gmttime b) ->
  (forall b, transitions d !! S i = Some b -> t + gmtOffset l < localtime b) -> local_ok t ->
  fromLocalTime (Some d) (local_tm l t) = Ok t.
Proof.
  intros Ha Hl Hle Hgt Hloc Ht. pose proof Ht as Ht'. unfold local_ok in Ht'.
  destruct (type_of_transition i a Ha) as (l' & Hl' & Hal & Ho & _).
  rewrite Hl in Hl'. injection Hl' as <-.
  unfold fromLocalTime. cbn [from_some mbind outcome_bind]. rewrite timegm_local_tm by done.
  rewrite (findLocaltime_local_at i a l); [|done|done|lia|done].
  cbn [mbind outcome_bind]. rewrite longs_ok by (constructor; [lia|constructor]).
  replace (t + gmtOffset l - gmtOffset l) with t by lia.
  cbn [mbind outcome_bind tm_isdst local_tm].
  destruct (isDst l) eqn:Ed; [rewrite (toLocalTime_at i a l) by (done || lia)|];
    simpl; rewrite ?Ed; simpl; rewrite longs_ok by (repeat (constructor; [lia|]); constructor);
    simpl; f_equal; lia.
Qed.

Lemma local_roundtrip_at i a l t :
  transitions d !! i = Some a -> localtimes d !! Z.to_nat (localtimeIdx a) = Some l ->
  gmttime a <= t -> (forall b, transitions d !! S i = Some b -> t < gmttime b) -> local_ok t ->
  fromLocalTime (Some d) (local_tm l t) = Ok (t + misread d i l t).
Proof.
  intros Ha Hl Hle Hgt Ht. pose proof Ht as Ht'. unfold local_ok in Ht'.
  destruct (type_of_transition i a Ha) as (l' & Hl' & Hloc & Ho & _).
  rewrite Hl in Hl'. injection Hl' as <-. unfold misread.
  destruct (transitions d !! S i) as [b|] eqn:Hb;
    [|rewrite Z.add_0_r; by apply (fromLocal_same_period i a l t); rewrite ?Hb].
  specialize (Hgt b eq_refl). destruct (type_of_transition (S i) b Hb) as (lb & Hlb & Hlocb & Hob & _). rewrite Hlb.
  destruct (Z.leb_spec (localtime b) (t + gmtOffset l)) as [Hge|Hlt];
    [|rewrite Z.add_0_r; apply (fromLocal_same_period i a l t); rewrite ?Hb; try done; congruence].
  pose proof (zone_back d Hz i a b l lb Ha Hb Hl Hlb) as Hback.
  unfold fromLocalTime. cbn [from_some mbind outcome_bind]. rewrite timegm_local_tm by done.
  rewrite (findLocaltime_local_at (S i) b lb); [|done|done|lia|].
  2:{ intros b2 Hb2. pose proof (zone_sorted_local d Hz _ _ _ Hb Hb2) as Hgap. simpl in Hgap. lia. }
  cbn [mbind outcome_bind tm_isdst local_tm]. rewrite longs_ok by (constructor; [lia|constructor]). cbn [mbind outcome_bind].
  destruct (isDst l); cbn [andb mbind outcome_bind];
    [|rewrite longs_ok by (repeat (constructor; [lia|]); constructor); simpl; f_equal; lia].
  rewrite (toLocalTime_at (S i) b lb); [|done|done|lia| |lia].
  2:{ intros b2 Hb2. pose proof (zone_sorted d Hz _ _ _ Hb Hb2) as Hgap. simpl in Hgap. lia. }
  cbn [mbind outcome_bind tm_isdst tm_hour tm_min local_tm].
  replace (t + gmtOffset l - gmtOffset lb + gmtOffset lb) with (t + gmtOffset l) by lia. rewrite !Z.eqb_refl.
  destruct (isDst lb); simpl; rewrite longs_ok by (repeat (constructor; [lia|]); constructor); simpl; f_equal; lia.
Qed.
End zone.

(** ** Properties *)

(** [toUtcTime] of any second of some four thousand years before and
    thirty thousand after the epoch does not overflow, gives a valid date and
    a time of day, the week day of a calendar that has Thursday on 1 January
    1970 and, if asked, a day of the year from 0 to 365; [fromUtcTime] gives
    the second back. *)
Theorem utc_roundtrip t yday :
  time_ok t ->
  exists u, toUtcTime t yday = Ok u /\ fromUtcTime_tm u = Ok t /\
    valid_ymd (mkYMD (tm_year u + 1900) (tm_mon u + 1) (tm_mday u)) /\
    0 <= tm_sec u < 60 /\ 0 <= tm_min u < 60 /\ 0 <= tm_hour u < 24 /\
    tm_wday u = (4 + t / kSecondsPerDay) mod 7 /\ 0 <= tm_yday u <= 365.
Proof.
  intros Ht. destruct (toUtcTime_value t Ht yday) as (y & h & m & s & yd & E & Hv & Hy & Hyd & Hh & Hm & Hs & F).
  eexists. split; [exact E|]. split; [exact F|]. simpl.
  replace (year y - 1900 + 1900) with (year y) by lia. replace (month y - 1 + 1) with (month y) by lia.
  by destruct y.
Qed.

Lemma utc_roundtrip_witness :
  exists u, toUtcTime 951782399 true = Ok u /\ fromUtcTime_tm u = Ok 951782399.
Proof.
  destruct (utc_roundtrip 951782399 true) as (u & E & F & _); [unfold time_ok; lia|].
  exists u. split; [exact E|exact F].
Defined.

(** C39: reading the file [encode_zone d] of zone data that fits the format
    gives the object back: same transitions with their local times, same
    types, same abbreviations. *)
Theorem readTimeZoneFile_encode d :
  encodable d -> new_TimeZone (Some (encode_zone d)) = Ok (Some d).
Proof.
  intros [(Hn1 & Hn2 & Hn3) Hty Htr Hnm].
  unfold new_TimeZone, readTimeZoneFile, encode_zone.
  assert (E : exists rest, read_zone (bs "TZif" ++ [x00] ++ replicate 15 x00 ++
    be32 0 ++ be32 0 ++ be32 0 ++
    be32 (zlen (transitions d)) ++ be32 (zlen (localtimes d)) ++ be32 (zlen (abbreviation d)) ++
    concat ((fun t => be32 (gmttime t)) <$> transitions d) ++
    ((fun t => byte_of_Z (localtimeIdx t)) <$> transitions d) ++
    concat ((fun l => be32 (gmtOffset l) ++ [if isDst l then x01 else x00; byte_of_Z (arrbIdx l)])
            <$> localtimes d) ++ abbreviation d) empty_Data = Read tt rest d).
  2:{ destruct E as [rest ->]. done. }
  pose proof (zlen_nonneg (transitions d)). pose proof (zlen_nonneg (localtimes d)).
  pose proof (zlen_nonneg (abbreviation d)).
  unfold read_zone. erewrite reader_step by (by apply (readBytes_app (bs "TZif"))).
  rewrite bool_decide_eq_true_2 by done.
  erewrite reader_step by (by apply (readBytes_app [x00])).
  erewrite reader_step by (by apply (readBytes_app (replicate 15 x00))).
  do 6 erewrite reader_step by (apply readInt32_be32; lia).
  rewrite (proj2 (Z.ltb_ge _ 0)) by done. unfold zlen. rewrite !Nat2Z.id.
  rewrite (list_fmap_compose gmttime be32), (list_fmap_compose localtimeIdx byte_of_Z).
  erewrite reader_step by (apply times_int32; [by rewrite length_fmap|];
    apply Forall_fmap, Forall_forall; intros t Ht; by apply (Htr t)).
  erewrite reader_step by (apply times_uint8; [by rewrite length_fmap|];
    apply Forall_fmap, Forall_forall; intros t Ht; by apply (Htr t)).
  destruct (add_localtimes_ok (localtimes d) (abbreviation d) empty_Data) as [u Hu];
    [apply Forall_forall, Hty|].
  erewrite reader_step by apply Hu.
  erewrite reader_step by (apply add_transitions_ok, Forall_forall; intros t Ht;
    destruct (Htr t Ht) as (_ & ? & ?); split; [lia|done]).
  erewrite reader_step by (rewrite <- (app_nil_r (abbreviation d)) at 2; by apply readBytes_app).
  erewrite reader_step by done. simpl. eexists. unfold mret, reader_ret. f_equal.
  destruct d. simpl in *. by subst.
Qed.

(** Daylight saving time for half a year, in a zone five hours west. *)
Definition west : Data :=
  mkData [mkTransition 9961200 (9961200 - 14400) 1; mkTransition 25682400 (25682400 - 18000) 0]
    [mkLocaltime (-18000) false 4; mkLocaltime (-14400) true 0] [] (bs "EDT" ++ [x00] ++ bs "EST" ++ [x00]).

Lemma west_encodable : encodable west.
Proof.
  split; [done| | |done].
  - intros l Hl. repeat (apply elem_of_cons in Hl as [->|Hl]; [simpl; lia|]). by apply not_elem_of_nil in Hl.
  - intros l Hl. repeat (apply elem_of_cons in Hl as [->|Hl]; [simpl; split; [lia|split; [lia|eauto]]|]).
    by apply not_elem_of_nil in Hl.
Qed.

Lemma readTimeZoneFile_encode_witness :
  new_TimeZone (Some (encode_zone west)) = Ok (Some west).
Proof. apply (readTimeZoneFile_encode west). exact west_encodable. Defined.

(** C40: the local time of an instant after the first transition of the zone
    converts back to the instant, up to [misread]: exactly, if the clock does
    not show the same local time again, or if it does because daylight saving
    time ends and the clock is set back by an hour (thanks to the comparison
    with [tryTm]); if the clock is set back for another reason, the result is
    too late by as much ([london_1971]). The zone is one where the clock is
    never set back by more than an hour. *)
Theorem local_roundtrip `{TimeLibLaws} d t :
  zone_ok d -> local_ok t -> (exists a, transitions d !! 0%nat = Some a /\ gmttime a <= t) ->
  exists i a l u, transitions d !! i = Some a /\ localtimes d !! Z.to_nat (localtimeIdx a) = Some l /\
    gmttime a <= t /\ (forall b, transitions d !! S i = Some b -> t < gmttime b) /\
    toLocalTime (Some d) t = Ok u /\ fromLocalTime (Some d) u = Ok (t + misread d i l t).
Proof.
  intros Hz Ht (a0 & Ha0 & Hle).
  destruct (in_force_cases true _ (zone_sorted d Hz) t) as [[_ Hb]|(i & a & Ha & Hat & Hnext & _)].
  { pose proof (Hb a0 Ha0) as Hb0. simpl in Hb0. lia. }
  destruct (type_of_transition d Hz i a Ha) as (l & Hl & _). exists i, a, l, (local_tm d l t).
  unfold local_ok in Ht. simpl in Hat, Hnext. do 4 (split; [done|]).
  split; [apply (toLocalTime_at d Hz i a l t); (done || lia)|].
  by apply (local_roundtrip_at d Hz i a l t).
Qed.

(** A C library made of the conversions of this file. *)
#[export] Instance own_TimeLib : TimeLib := {
  gmtime_r := fun t => match toUtcTime t true with
                       | Ok u => u | Fail _ => mkTm 0 0 0 0 0 0 0 0 false 0 [] end;
  timegm := fun u => match fromUtcTime_tm u with Ok t => t | Fail _ => -1 end;
}.

#[export] Instance own_TimeLib_laws : TimeLibLaws.
Proof.
  split. intros t a Ht Ha.
  destruct (toUtcTime_value t Ht true) as (y & h & m & s & yd & E & _ & _ & _ & _ & _ & _ & F).
  cbn [gmtime_r timegm own_TimeLib] in *. rewrite E in Ha. destruct Ha as (E1 & E2 & E3 & E4 & E5 & E6).
  unfold fromUtcTime_tm in *. rewrite <- E1, <- E2, <- E3, <- E4, <- E5, <- E6, F. done.
Qed.

Lemma west_ok : zone_ok west.
Proof.
  split.
  - intros [|[|[|i]]] a b Ha Hb; simpl in *; simplify_eq; simpl; lia.
  - intros [|[|[|i]]] a b Ha Hb; simpl in *; simplify_eq; simpl; lia.
  - intros t Ht. repeat (apply elem_of_cons in Ht as [->|Ht];
      [simpl; split; [lia|]; eexists; split; [done|]; simpl; unfold zlen; simpl; lia|]).
    by apply not_elem_of_nil in Ht.
  - intros [|[|[|i]]] a b la lb Ha Hb Hla Hlb; simpl in *; simplify_eq; simpl in *; simplify_eq; simpl; lia.
Qed.

(** Half an hour before and after the clock is set back. *)
Lemma local_roundtrip_witness :
  (exists u, toLocalTime (Some west) 25680600 = Ok u /\ fromLocalTime (Some west) u = Ok 25680600) /\
  (exists u, toLocalTime (Some west) 25684200 = Ok u /\ fromLocalTime (Some west) u = Ok 25684200).
Proof.
  split.
  - destruct (local_roundtrip west 25680600 west_ok) as (i & a & l & u & Ha & Hl & Hat & Hnext & Eu & Ef).
    + unfold local_ok. lia.
    + eexists. split; [reflexivity|simpl; lia].
    + exists u. split; [exact Eu|]. vm_compute in Eu. injection Eu as <-. vm_compute. reflexivity.
  - destruct (local_roundtrip west 25684200 west_ok) as (i & a & l & u & Ha & Hl & Hat & Hnext & Eu & Ef).
    + unfold local_ok. lia.
    + eexists. split; [reflexivity|simpl; lia].
    + exists u. split; [exact Eu|]. vm_compute in Eu. injection Eu as <-. vm_compute. reflexivity.
Defined.

(** London had no daylight saving time when it went back from UTC+1 on 31
    October 1971: the hour before comes back as the hour after. *)
Definition london : Data :=
  mkData [mkTransition (-37242000) (-37242000 + 3600) 0; mkTransition 57722400 57722400 1]
    [mkLocaltime 3600 false 0; mkLocaltime 0 false 4] [] (bs "BST" ++ [x00] ++ bs "GMT" ++ [x00]).

Lemma london_1971 :
  exists u, toLocalTime (Some london) 57720600 = Ok u /\ fromLocalTime (Some london) u = Ok (57720600 + 3600).
Proof. eexists. split; [vm_compute; reflexivity|]. vm_compute. reflexivity. Qed.

(** A zone file that cannot be opened, or is not a zone file, is not
    reported: the object is [valid], and its first use reads the first
    element of an empty vector. *)
Theorem missing_zone_undefined `{TimeLib} file t :
  match file with Some content => take 4 content <> bs "TZif" | None => True end ->
  exists z, new_TimeZone file = Ok z /\ valid z = true /\ toLocalTime z t = Fail Undefined.
Proof.
  intros Hf. exists (Some empty_Data). destruct file as [content|]; [|done].
  unfold new_TimeZone, readTimeZoneFile, read_zone, mbind, reader_bind, readBytes. simpl.
  destruct (Z.leb_spec 4 (zlen content)); simpl; [|done].
  change (Z.to_nat 4) with 4%nat. rewrite bool_decide_eq_false_2 by done. done.
Qed.

Lemma missing_zone_undefined_witness :
  exists z, new_TimeZone (Some (bs "hello")) = Ok z /\ valid z = true /\
    toLocalTime z 0 = Fail Undefined.
Proof. apply (missing_zone_undefined (Some (bs "hello")) 0). discriminate. Defined.
