(* ===== verification/Timestamp.v ===== *)
(** * Timestamp: microseconds since the epoch

    Models [muduo::Timestamp] of [datetime/Timestamp.h] and [Timestamp.cc]:
    an [int64_t] count of microseconds, its comparison and its two text
    formats.  [gmtime_r] is the one of [TimeZone.v].  [addTime] and
    [timeDifference] compute in [double] and are not modelled; [TimerQueue.v]
    takes the delay in microseconds. *)
From S2P Require Import Prelude CFormat TimeZone.
From Stdlib Require Import Strings.Byte.

Record Timestamp := mkTimestamp { microSecondsSinceEpoch_ : Z }.

Definition kMicroSecondsPerSecond : Z := 1000 * 1000.

Definition invalid : Timestamp := mkTimestamp 0.
Definition valid (t : Timestamp) : bool := 0 <? microSecondsSinceEpoch_ t.

(** [now], given what [gettimeofday] stored. *)
Definition now (tv_sec tv_usec : Z) : outcome Timestamp :=
  _ ← longs [tv_sec * kMicroSecondsPerSecond; tv_sec * kMicroSecondsPerSecond + tv_usec];
  Ok (mkTimestamp (tv_sec * kMicroSecondsPerSecond + tv_usec)).

Definition timestamp_ltb (l r : Timestamp) : bool :=
  microSecondsSinceEpoch_ l <? microSecondsSinceEpoch_ r.
Definition timestamp_eqb (l r : Timestamp) : bool :=
  microSecondsSinceEpoch_ l =? microSecondsSinceEpoch_ r.

(** ["%" PRId64 ".%06" PRId64]; the size given is one less than the buffer. *)
Definition toString (t : Timestamp) : list byte :=
  let seconds := Z.quot (microSecondsSinceEpoch_ t) kMicroSecondsPerSecond in
  let microseconds := Z.rem (microSecondsSinceEpoch_ t) kMicroSecondsPerSecond in
  snprintf 31 (fmt_d 0 seconds ++ bs "." ++ fmt_0d 6 microseconds).

(** ["%4d%02d%02d %02d:%02d:%02d.%06d"]. *)
Definition toFormattedString `{TimeLib} (t : Timestamp) : outcome (list byte) :=
  let seconds := Z.quot (microSecondsSinceEpoch_ t) kMicroSecondsPerSecond in
  let microseconds := Z.rem (microSecondsSinceEpoch_ t) kMicroSecondsPerSecond in
  let tm_time := gmtime_r seconds in
  _ ← ints [tm_year tm_time + 1900; tm_mon tm_time + 1];
  Ok (snprintf 64 (fmt_d 4 (tm_year tm_time + 1900) ++ fmt_0d 2 (tm_mon tm_time + 1) ++
        fmt_0d 2 (tm_mday tm_time) ++ bs " " ++ fmt_0d 2 (tm_hour tm_time) ++ bs ":" ++
        fmt_0d 2 (tm_min tm_time) ++ bs ":" ++ fmt_0d 2 (tm_sec tm_time) ++ bs "." ++
        fmt_0d 6 microseconds)).

(** Reading a decimal number with a fraction of six digits. *)
Definition parse_micros (s : list byte) : Z :=
  let n := (length s - 7)%nat in
  dec_value (take n s) * kMicroSecondsPerSecond + dec_value (drop (S n) s).

(** ** Properties *)

(** The text of an instant after the epoch, of any 64-bit value, is not
    cut off by the buffer, and reading it gives the microseconds back. *)
Theorem toString_roundtrip us :
  0 <= us < 2 ^ 63 -> parse_micros (toString (mkTimestamp us)) = us.
Proof.
  intros Hus. unfold toString. cbn [microSecondsSinceEpoch_].
  set (s := Z.quot us kMicroSecondsPerSecond). set (m := Z.rem us kMicroSecondsPerSecond).
  assert (Hs : 0 <= s < 10 ^ Z.of_nat 13) by (unfold s, kMicroSecondsPerSecond; dlia).
  assert (Hm : 0 <= m < 10 ^ Z.of_nat 6) by (unfold m, kMicroSecondsPerSecond; dlia).
  assert (Hv : us = s * kMicroSecondsPerSecond + m) by (unfold s, m, kMicroSecondsPerSecond; dlia).
  clearbody s m. rewrite fmt_d_nonneg by lia. unfold pad.
  replace (replicate _ _ ++ udec s) with (udec s) by (by destruct (length (udec s))).
  destruct (fmt_0d_field 6 m) as (Lm & Vm & _); [lia|done|].
  pose proof (udec_length s 13 Hs ltac:(lia)) as Ls.
  set (S_ := udec s) in *. set (M_ := fmt_0d 6 m) in *.
  unfold snprintf. rewrite take_ge by (rewrite !length_app; simpl; lia).
  unfold parse_micros.
  replace (length (S_ ++ bs "." ++ M_) - 7)%nat with (length S_)
    by (rewrite !length_app, Lm; simpl; lia).
  rewrite take_app_length, app_assoc, drop_app_length' by (rewrite length_app; simpl; lia).
  rewrite Vm. unfold S_. rewrite udec_value by lia. lia.
Qed.

Lemma toString_roundtrip_witness : parse_micros (toString (mkTimestamp 1234567890000042)) = 1234567890000042.
Proof. apply (toString_roundtrip 1234567890000042). lia. Defined.
