(* ===== verification/UInt.v ===== *)
(** * UnsignedInt: arbitrary-precision naturals

    Models [basic/uint.h] and [basic/uint.cc]: numbers are vectors of 32-bit
    limbs, least significant first; sums and products are computed in 64 bits
    with explicit carries.  [value] is the number a vector denotes; the
    theorems relate every operation to the arithmetic of [Z], with no
    intermediate overflow. *)
From S2P Require Import Prelude CFormat.
From Stdlib Require Import Strings.Byte.

Abbreviation limbs := (list Z).

Definition kMask_ : Z := 0xFFFFFFFF.
Abbreviation low32 x := (Z.land x kMask_).

(** [carry = sum > kMask_] in a [uint64_t]. *)
Definition carry_of (sum : Z) : Z := if kMask_ <? sum then 1 else 0.

Definition new_UnsignedInt (x : Z) : limbs := if 0 <? x then [x] else [].

Definition isZero (l : limbs) : bool := match l with [] => true | _ => false end.
Definition isNormal (l : limbs) : bool :=
  isZero l || negb (List.last l 0 =? 0).

(** [std::lexicographical_compare]. *)
Fixpoint lexicographical_compare (l r : list Z) : bool :=
  match l, r with
  | [], [] => false
  | [], _ :: _ => true
  | _ :: _, [] => false
  | x :: l', y :: r' =>
      if x <? y then true else if y <? x then false else lexicographical_compare l' r'
  end.

Definition lessThan (l r : limbs) : bool :=
  (length l <? length r)%nat ||
  ((length r =? length l)%nat && lexicographical_compare (rev l) (rev r)).

Definition assign (x : Z) (l : limbs) : limbs := if x =? 0 then [] else [x].

(** The second loop of the additions: a carry runs through the limbs, and
    becomes a new limb. *)
Fixpoint propagate (carry : Z) (l : limbs) : limbs :=
  match l with
  | [] => if carry =? 0 then [] else [carry]
  | x :: l' =>
      if carry =? 0 then l
      else let sum := u64 (x + carry) in low32 sum :: propagate (carry_of sum) l'
  end.

Definition add_word (x : Z) (l : limbs) : limbs :=
  match l with
  | [] => [x]
  | l0 :: l' => let sum := u64 (l0 + x) in low32 sum :: propagate (carry_of sum) l'
  end.

Fixpoint add_limbs (carry : Z) (l r : limbs) : limbs :=
  match l, r with
  | x :: l', y :: r' =>
      let sum := u64 (x + y + carry) in low32 sum :: add_limbs (carry_of sum) l' r'
  | _, _ => propagate carry l
  end.

Definition add (l r : limbs) : limbs :=
  let l := if (length l <? length r)%nat then l ++ replicate (length r - length l) 0 else l in
  add_limbs 0 l r.

(** The loops of [sub] return the limbs and the final borrow. *)
Fixpoint borrow (carry : Z) (l : limbs) : limbs * Z :=
  match l with
  | [] => ([], carry)
  | x :: l' =>
      if carry =? 0 then (l, 0)
      else let sum := u64 (x - carry) in
           let '(d, c) := borrow (carry_of sum) l' in (low32 sum :: d, c)
  end.

Fixpoint sub_limbs (carry : Z) (l r : limbs) : limbs * Z :=
  match l, r with
  | x :: l', y :: r' =>
      let sum := u64 (u64 (x - y) - carry) in
      let '(d, c) := sub_limbs (carry_of sum) l' r' in (low32 sum :: d, c)
  | _, _ => borrow carry l
  end.

Fixpoint drop_zeros (l : list Z) : list Z :=
  match l with
  | x :: l' => if x =? 0 then drop_zeros l' else l
  | [] => []
  end.

(** [while (!limbs_.empty() && limbs_.back() == 0) limbs_.pop_back()]. *)
Definition pop_zeros (l : limbs) : limbs := rev (drop_zeros (rev l)).

Definition sub (l r : limbs) : outcome limbs :=
  if lessThan l r then Fail AssertFail
  else
    _ ← assert_ (length r <=? length l)%nat;
    let '(d, carry) := sub_limbs 0 l r in
    if carry =? 0 then Ok (pop_zeros d) else Fail AssertFail.

Fixpoint mul_limbs (multiplier carry : Z) (l : limbs) : limbs :=
  match l with
  | [] => if carry =? 0 then [] else [u32 carry]
  | x :: l' =>
      let prod := u64 (x * multiplier + carry) in
      low32 prod :: mul_limbs multiplier (prod / 0x10000 / 0x10000) l'
  end.

Definition multiply_word (x : Z) (l : limbs) : limbs :=
  if x =? 0 then [] else mul_limbs x 0 l.

(** The inner loop of [multiply]: [l * y] is added to [result] from the
    current position on; the last carry is stored, not added. *)
Fixpoint mul_add (y carry : Z) (l result : limbs) : limbs :=
  match l, result with
  | x :: l', p :: result' =>
      let prod := u64 (u64 (y * x + p) + carry) in
      low32 prod :: mul_add y (prod / 0x10000 / 0x10000) l' result'
  | [], _ :: result' => u32 carry :: result'
  | _, [] => []
  end.

(** The outer loop: position [i] of [result] is final after round [i]. *)
Fixpoint mul_rows (l r result : limbs) : limbs :=
  match r with
  | [] => result
  | y :: r' =>
      match (if y =? 0 then result else mul_add y 0 l result) with
      | p :: result' => p :: mul_rows l r' result'
      | [] => []
      end
  end.

Definition pop_zero (l : limbs) : limbs :=
  if List.last l 0 =? 0 then removelast l else l.

Definition multiply (l r : limbs) : limbs :=
  if isZero l || isZero r then []
  else pop_zero (mul_rows l r (replicate (length l + length r) 0)).

(** The loop of [devide] runs from the most significant limb down. *)
Fixpoint div_limbs (x : Z) (l : limbs) : limbs * Z :=
  match l with
  | [] => ([], 0)
  | l0 :: l' =>
      let '(q, carry) := div_limbs x l' in
      let prod := u64 (u64 (Z.shiftl carry 32) + l0) in
      (u32 (prod / x) :: q, prod mod x)
  end.

(** [devide]: the quotient and the remainder. *)
Definition devide (x : Z) (l : limbs) : outcome (limbs * Z) :=
  _ ← defined_ (isZero l || negb (x =? 0));
  let '(q, carry) := div_limbs x l in
  let q := if isZero q then q else pop_zero q in
  _ ← assert_ (isNormal q);
  Ok (q, carry).

(** [power]: at most 32 rounds, one for each bit of [n]. *)
Fixpoint power_loop (fuel : nat) (result this : limbs) (n : Z) : limbs :=
  match fuel with
  | O => result
  | S fuel' =>
      if n =? 0 then result
      else
        let result := if Z.odd n then multiply result this else result in
        power_loop fuel' result (multiply this this) (n / 2)
  end.

Definition power (n : Z) (l : limbs) : limbs :=
  if n =? 0 then assign 1 l
  else if 1 <? n then power_loop 32 (new_UnsignedInt 1) l n
  else l.

Definition setValue (n : nat) (x : Z) : limbs := replicate n x.

(** ** Text *)

Definition kDigits : list byte := bs "0123456789abcdef".
Definition digit_char (d : Z) : byte := default x00 (kDigits !! Z.to_nat d).

(** [k] digits of [x] in the given base, least significant first. *)
Fixpoint low_digits (k : nat) (b x : Z) : list byte :=
  match k with
  | O => []
  | S k' => digit_char (x mod b) :: low_digits k' b (x / b)
  end.

(** [do ... while (x != 0)]; 32 rounds are enough for a 32-bit number. *)
Fixpoint all_digits (fuel : nat) (b x : Z) : list byte :=
  match fuel with
  | O => []
  | S fuel' =>
      digit_char (x mod b) :: (if x / b =? 0 then [] else all_digits fuel' b (x / b))
  end.

Definition toHex (l : limbs) : list byte :=
  match l with
  | [] => bs "0"
  | _ => rev (concat (low_digits 8 16 <$> removelast l) ++ all_digits 32 16 (List.last l 0))
  end.

(** The loop of [toDec]: segments of nine digits until one limb is left. *)
Fixpoint dec_loop (fuel : nat) (copy : limbs) (result : list byte) : outcome (limbs * list byte) :=
  match fuel with
  | O => Ok (copy, result)
  | S fuel' =>
      if (1 <? length copy)%nat then
        '(copy, x) ← devide 1000000000 copy;
        dec_loop fuel' copy (result ++ low_digits 9 10 x)
      else Ok (copy, result)
  end.

(** A division by 10^9 removes 29 of at most [32 * length l] bits, so
    [2 * length l] rounds are enough. *)
Definition toDec (l : limbs) : outcome (list byte) :=
  match l with
  | [] => Ok (bs "0")
  | _ =>
      '(copy, result) ← dec_loop (2 * length l) l [];
      x ← from_some Undefined (head copy);
      Ok (rev (result ++ all_digits 32 10 x))
  end.

(** [char] comparisons; other characters give [-1] as [uint32_t]. *)
Definition fromHex (c : byte) : Z :=
  let z := byte_to_Z c in
  if (48 <=? z) && (z <=? 57) then z - 48
  else if (97 <=? z) && (z <=? 102) then z - 97 + 10
  else if (65 <=? z) && (z <=? 70) then z - 65 + 10
  else kMask_.

Definition fromDec (c : byte) : Z :=
  let z := byte_to_Z c in if (48 <=? z) && (z <=? 57) then z - 48 else kMask_.

(** [limbs_.back() |= d]. *)
Definition or_back (d : Z) (l : limbs) : limbs :=
  match l with [] => [] | _ => removelast l ++ [Z.lor (List.last l 0) d] end.

(** The loop of [parseHex] at index [i], on the reversed string. *)
Fixpoint hex_loop (i : Z) (str : list byte) (l : limbs) : limbs :=
  match str with
  | [] => l
  | c :: str' =>
      let l := if i mod 8 =? 0 then l ++ [0] else l in
      hex_loop (i + 1) str' (or_back (u32 (Z.shiftl (fromHex c) (4 * (i mod 8)))) l)
  end.

Definition parseHex (str : list byte) : limbs :=
  let l := hex_loop 0 (rev str) [] in
  match l with [0] => [] | _ => l end.

Definition parseSegment (str : list byte) : Z :=
  foldl (fun seg c => u32 (u32 (seg * 10) + fromDec c)) 0 str.

(** The loop of [parseDec] over the segments of nine characters. *)
Fixpoint dec_segments (fuel : nat) (str : list byte) (l : limbs) : outcome limbs :=
  match fuel with
  | O => Ok l
  | S fuel' =>
      match str with
      | [] => Ok l
      | _ =>
          _ ← assert_ (9 <=? length str)%nat;
          dec_segments fuel' (drop 9 str)
            (add_word (parseSegment (take 9 str)) (multiply_word 1000000000 l))
      end
  end.

(** Every round consumes nine characters. *)
Definition parseDec (str : list byte) : outcome limbs :=
  let first := (length str mod 9)%nat in
  let l := if (first =? 0)%nat then [] else add_word (parseSegment (take first str)) [] in
  dec_segments (length str) (drop first str) l.

Inductive Radix := kDec | kHex.

Definition UnsignedInt_of_string (x : list byte) (r : Radix) : outcome limbs :=
  match r with kDec => parseDec x | kHex => Ok (parseHex x) end.

(** ** Specification *)

Fixpoint value (l : limbs) : Z :=
  match l with [] => 0 | x :: l' => x + 2 ^ 32 * value l' end.

Definition word (x : Z) : Prop := 0 <= x < 2 ^ 32.
Abbreviation words l := (Forall word l).

(** ** Lemmas: words and carries *)

Lemma low32_mod x : low32 x = x mod 2 ^ 32.
Proof. apply (Z.land_ones x 32). lia. Qed.

Lemma low32_word x : word (low32 x).
Proof. rewrite low32_mod. unfold word. dlia. Qed.

Lemma carry_of_spec s : 0 <= s < 2 ^ 33 -> carry_of s = s / 2 ^ 32 /\ 0 <= carry_of s <= 1.
Proof. intros. unfold carry_of, kMask_. destruct (Z.ltb_spec 0xFFFFFFFF s); dlia. Qed.

Lemma value_nonneg l : words l -> 0 <= value l.
Proof. induction 1; simpl; unfold word in *; lia. Qed.

Lemma pow_limb (x : Z) (l : limbs) : 2 ^ (32 * zlen (x :: l)) = 2 ^ 32 * 2 ^ (32 * zlen l).
Proof.
  rewrite zlen_cons, Z.mul_add_distr_l, Z.pow_add_r by (pose proof (zlen_nonneg l); lia). done.
Qed.

Lemma value_bound l : words l -> value l < 2 ^ (32 * zlen l).
Proof.
  induction 1 as [|x l Hx Hl IH]; [done|]. rewrite pow_limb. cbn [value]. unfold word in Hx. lia.
Qed.

Lemma value_app l r : value (l ++ r) = value l + 2 ^ (32 * zlen l) * value r.
Proof.
  induction l as [|x l IH]; [rewrite (@zlen_nil Z), Z.mul_0_r, Z.pow_0_r; cbn [app value]; lia|].
  cbn [app value]. rewrite IH, pow_limb. ring.
Qed.

Lemma value_zeros n : value (replicate n 0) = 0.
Proof. induction n; simpl; lia. Qed.

Lemma words_zeros n : words (replicate n 0).
Proof. apply Forall_replicate. unfold word. lia. Qed.

(** The most significant limb of a vector. *)
Lemma list_snoc (l : limbs) : l = [] \/ exists l' x, l = l' ++ [x].
Proof. destruct (rev l) as [|x l'] eqn:E; apply (f_equal (@rev Z)) in E; rewrite rev_involutive in E;
  [by left|right]. exists (rev l'), x. done. Qed.

Lemma last_snoc (l : limbs) x d : List.last (l ++ [x]) d = x.
Proof. apply last_last. Qed.

Lemma isNormal_snoc l x : isNormal (l ++ [x]) = negb (x =? 0).
Proof. unfold isNormal. rewrite last_snoc. by destruct l. Qed.

(** A normal vector denotes a number of its own magnitude. *)
Lemma normal_value l :
  words l -> isNormal l = true -> l <> [] -> 2 ^ (32 * (zlen l - 1)) <= value l.
Proof.
  intros Hw Hn Hne. destruct (list_snoc l) as [->|(l' & x & ->)]; [done|].
  rewrite isNormal_snoc in Hn. bool_facts. apply Forall_app in Hw as [Hw Hx].
  apply Forall_cons in Hx as [Hx _]. unfold word in Hx.
  rewrite value_app, zlen_app, zlen_cons, zlen_nil. simpl (value [x]).
  replace (zlen l' + (1 + 0) - 1) with (zlen l') by lia.
  pose proof (value_nonneg l' Hw). pose proof (Z.pow_pos_nonneg 2 (32 * zlen l')).
  pose proof (zlen_nonneg l'). nia.
Qed.

Lemma normal_positive l : words l -> isNormal l = true -> l <> [] -> 0 < value l.
Proof.
  intros Hw Hn Hne. pose proof (normal_value l Hw Hn Hne).
  assert (0 < 2 ^ (32 * (zlen l - 1))); [|lia]. apply Z.pow_pos_nonneg; [lia|].
  destruct l; [done|]. rewrite zlen_cons. pose proof (zlen_nonneg l). lia.
Qed.

(** A vector that denotes a big number is normal. *)
Lemma value_normal l :
  words l -> (l <> [] -> 2 ^ (32 * (zlen l - 1)) <= value l) -> isNormal l = true.
Proof.
  intros Hw Hv. destruct (list_snoc l) as [->|(l' & x & ->)]; [done|].
  rewrite isNormal_snoc. apply Forall_app in Hw as [Hw Hx].
  apply Forall_cons in Hx as [Hx _]. specialize (Hv ltac:(by destruct l')).
  rewrite value_app, zlen_app, zlen_cons, zlen_nil in Hv. simpl (value [x]) in Hv.
  replace (zlen l' + (1 + 0) - 1) with (zlen l') in Hv by lia.
  pose proof (value_bound l' Hw). destruct (Z.eqb_spec x 0); [subst; lia|done].
Qed.

(** Equal numbers have equal normal vectors. *)
Lemma words_value_inj l r :
  words l -> words r -> length l = length r -> value l = value r -> l = r.
Proof.
  intros Hl. revert r. induction Hl as [|x l Hx Hl IH]; intros r Hr Hlen Hv; [by destruct r|].
  destruct r as [|y r]; [done|]. apply Forall_cons in Hr as [Hy Hr]. unfold word in Hx, Hy.
  simpl in Hv. assert (x = y /\ value l = value r) as [-> Hv'] by lia.
  f_equal. apply IH; [done| |done]. simpl in Hlen. lia.
Qed.

Lemma normal_value_inj l r :
  words l -> words r -> isNormal l = true -> isNormal r = true -> value l = value r -> l = r.
Proof.
  intros Hl Hr Nl Nr Hv. apply words_value_inj; [done..| |done].
  assert (forall a b, words a -> words b -> isNormal a = true -> isNormal b = true ->
    value a = value b -> (length a <= length b)%nat) as Hle.
  { intros a b Ha Hb Na _ E. destruct (decide (length a <= length b)%nat); [done|exfalso].
    pose proof (normal_value a Ha Na ltac:(by destruct a; simpl in *; [lia|])).
    pose proof (value_bound b Hb).
    assert (2 ^ (32 * zlen b) <= 2 ^ (32 * (zlen a - 1))); [|lia].
    apply Z.pow_le_mono_r; [lia|]. unfold zlen. lia. }
  pose proof (Hle l r). pose proof (Hle r l). apply Nat.le_antisymm; auto.
Qed.

(** [r] is as long as [l], or one limb longer because it has to be. *)
Definition grows (l r : limbs) : Prop :=
  length r = length l \/ (length r = S (length l) /\ 2 ^ (32 * zlen l) <= value r).

Lemma grows_refl l : grows l l.
Proof. by left. Qed.

Lemma grows_cons x y l r : word y -> grows l r -> grows (x :: l) (y :: r).
Proof.
  intros Hy [Hr|[Hr Hv]]; [left; simpl; lia|right]. rewrite pow_limb. unfold word in Hy.
  cbn [value length]. lia.
Qed.

Lemma grows_normal l r :
  words l -> words r -> isNormal l = true -> l <> [] -> grows l r -> value l <= value r -> isNormal r = true.
Proof.
  intros Hl Hr Hn Hne Hg Hv. apply value_normal; [done|]. intros _.
  pose proof (normal_value l Hl Hn Hne). destruct Hg as [E|[E Hge]].
  - unfold zlen in *. rewrite E. lia.
  - replace (zlen r - 1) with (zlen l); [done|]. unfold zlen. lia.
Qed.

(** ** Lemmas: addition *)

Lemma propagate_spec c l :
  words l -> 0 <= c <= 1 ->
  words (propagate c l) /\ value (propagate c l) = value l + c /\ grows l (propagate c l).
Proof.
  intros Hl. revert c. induction Hl as [|x l Hx Hl IH]; intros c Hc; cbn [propagate].
  - destruct (Z.eqb_spec c 0) as [->|]; [split; [done|]; split; [done|apply grows_refl]|].
    split; [constructor; [unfold word; lia|done]|]. split; [simpl; lia|].
    right. rewrite (@zlen_nil Z). simpl. lia.
  - destruct (Z.eqb_spec c 0) as [->|Hc0].
    { split; [by constructor|]. split; [simpl; lia|apply grows_refl]. }
    unfold word in Hx. rewrite wrapu_small by lia.
    destruct (carry_of_spec (x + c)) as [Ec Hr]; [lia|].
    destruct (IH _ Hr) as (Hw & Hv & Hg). pose proof (low32_mod (x + c)) as Elow.
    split; [constructor; [apply low32_word|done]|].
    split; [simpl; rewrite Hv, Elow, Ec; dlia|]. apply grows_cons; [apply low32_word|done].
Qed.

Lemma add_word_spec x l :
  words l -> word x ->
  words (add_word x l) /\ value (add_word x l) = value l + x /\
  (isNormal l = true -> (l = [] -> x <> 0) -> isNormal (add_word x l) = true).
Proof.
  intros Hl Hx. unfold word in Hx. destruct Hl as [|l0 l H0 Hl]; cbn [add_word].
  { split; [by constructor|]. split; [simpl; lia|]. intros _ Hne. unfold isNormal. simpl.
    destruct (Z.eqb_spec x 0); [by destruct (Hne eq_refl)|done]. }
  unfold word in H0. rewrite wrapu_small by lia.
  destruct (carry_of_spec (l0 + x)) as [Ec Hr]; [lia|].
  destruct (propagate_spec _ l Hl Hr) as (Hw & Hv & Hg). pose proof (low32_mod (l0 + x)) as Elow.
  assert (words (low32 (l0 + x) :: propagate (carry_of (l0 + x)) l)) as Hws
    by (constructor; [apply low32_word|done]).
  assert (value (low32 (l0 + x) :: propagate (carry_of (l0 + x)) l) = value (l0 :: l) + x) as Hvs
    by (simpl; rewrite Hv, Elow, Ec; dlia).
  split; [done|]. split; [done|]. intros Hn _.
  apply (grows_normal (l0 :: l)); [by constructor|done|done|done| |lia].
  apply grows_cons; [apply low32_word|done].
Qed.

Lemma add_limbs_spec l r c :
  words l -> words r -> (length r <= length l)%nat -> 0 <= c <= 1 ->
  words (add_limbs c l r) /\ value (add_limbs c l r) = value l + value r + c /\
  grows l (add_limbs c l r).
Proof.
  intros Hl. revert r c. induction Hl as [|x l Hx Hl IH]; intros r c Hr Hlen Hc.
  - destruct r; [|simpl in Hlen; lia]. cbn [add_limbs].
    destruct (propagate_spec c [] ltac:(constructor) Hc) as (? & Hv & ?). split; [done|].
    split; [rewrite Hv; simpl; lia|done].
  - destruct Hr as [|y r Hy Hr]; cbn [add_limbs].
    { destruct (propagate_spec c (x :: l) ltac:(by constructor) Hc) as (? & Hv & ?). split; [done|].
      split; [rewrite Hv; simpl; lia|done]. }
    unfold word in Hx, Hy. rewrite wrapu_small by lia.
    destruct (carry_of_spec (x + y + c)) as [Ec Hc']; [lia|].
    destruct (IH r _ Hr ltac:(simpl in Hlen; lia) Hc') as (Hw & Hv & Hg).
    pose proof (low32_mod (x + y + c)) as Elow.
    split; [constructor; [apply low32_word|done]|].
    split; [simpl; rewrite Hv, Elow, Ec; dlia|]. apply grows_cons; [apply low32_word|done].
Qed.

Lemma add_spec l r :
  words l -> words r ->
  words (add l r) /\ value (add l r) = value l + value r /\
  (isNormal l = true -> isNormal r = true -> isNormal (add l r) = true).
Proof.
  intros Hl Hr. unfold add. destruct (Nat.ltb_spec (length l) (length r)) as [Hlt|Hge].
  - set (l' := l ++ _). assert (words l') as Hl' by (apply Forall_app; split; [done|apply words_zeros]).
    assert (value l' = value l) as Hv' by (unfold l'; rewrite value_app, value_zeros; lia).
    assert (length l' = length r) as Hlen by (unfold l'; rewrite length_app, length_replicate; lia).
    destruct (add_limbs_spec l' r 0 Hl' Hr ltac:(lia) ltac:(lia)) as (Hw & Hv & Hg).
    split; [done|]. split; [lia|]. intros _ Hn. pose proof (value_nonneg l Hl).
    apply (grows_normal r); [done..|by destruct r; simpl in *; [lia|]| |lia].
    unfold grows, zlen in *. by rewrite Hlen in Hg.
  - destruct (add_limbs_spec l r 0 Hl Hr ltac:(lia) ltac:(lia)) as (Hw & Hv & Hg).
    split; [done|]. split; [lia|]. intros Hn _. pose proof (value_nonneg r Hr).
    destruct (decide (l = [])) as [->|Hne]; [by destruct r; simpl in Hge; [|lia]|].
    apply (grows_normal l); [done..|lia].
Qed.

(** ** Lemmas: multiplication *)

(** One 32 by 32 bit product with two addends never overflows 64 bits. *)
Lemma prod_spec x y p c :
  word x -> word y -> word p -> word c ->
  u64 (u64 (y * x + p) + c) = y * x + p + c /\
  word ((y * x + p + c) / 0x10000 / 0x10000) /\
  y * x + p + c = low32 (y * x + p + c) + 2 ^ 32 * ((y * x + p + c) / 0x10000 / 0x10000).
Proof.
  unfold word. intros Hx Hy Hp Hc.
  assert (0 <= y * x <= (2 ^ 32 - 1) * (2 ^ 32 - 1)) by nia.
  rewrite !wrapu_small by (rewrite ?wrapu_small by lia; lia).
  split; [done|]. rewrite low32_mod, Z.div_div by lia. change (0x10000 * 0x10000) with (2 ^ 32).
  generalize dependent (y * x). intros q Hq. split; [|dlia].
  split; [apply Z.div_pos; lia|apply Z.div_lt_upper_bound; lia].
Qed.

Lemma mul_limbs_spec m c l :
  words l -> word m -> word c ->
  words (mul_limbs m c l) /\ value (mul_limbs m c l) = value l * m + c /\ grows l (mul_limbs m c l).
Proof.
  intros Hl Hm. revert c. induction Hl as [|x l Hx Hl IH]; intros c Hc; cbn [mul_limbs].
  - destruct (Z.eqb_spec c 0) as [->|]; [split; [done|]; split; [done|apply grows_refl]|].
    unfold word in Hc. rewrite wrapu_small by lia. split; [constructor; [done|done]|].
    split; [simpl; lia|]. right. rewrite (@zlen_nil Z). simpl. lia.
  - destruct (prod_spec m x 0 c Hm Hx ltac:(unfold word; lia) Hc) as (E & Hc' & Hv).
    rewrite Z.add_0_r in *.
    assert (u64 (x * m + c) = x * m + c) as ->.
    { unfold word in *. apply wrapu_small. nia. }
    destruct (IH _ Hc') as (Hw & Hvl & Hg). split; [constructor; [apply low32_word|done]|].
    split; [|apply grows_cons; [apply low32_word|done]].
    cbn [value]. rewrite Hvl. lia.
Qed.

Lemma multiply_word_spec x l :
  words l -> word x ->
  words (multiply_word x l) /\ value (multiply_word x l) = value l * x /\
  (isNormal l = true -> isNormal (multiply_word x l) = true).
Proof.
  intros Hl Hx. unfold multiply_word. destruct (Z.eqb_spec x 0) as [->|Hne].
  { split; [done|]. split; [simpl; lia|done]. }
  destruct (mul_limbs_spec x 0 l Hl Hx ltac:(unfold word; lia)) as (Hw & Hv & Hg).
  split; [done|]. split; [lia|]. intros Hn.
  destruct (decide (l = [])) as [->|Hl0]; [done|]. unfold word in Hx.
  pose proof (value_nonneg l Hl). apply (grows_normal l); [done..|nia].
Qed.

(** One row: the cells of [l] and the next one, which was zero. *)
Lemma mul_add_spec y c l p z :
  words l -> word y -> words p -> word c -> length p = length l ->
  exists p', mul_add y c l (p ++ 0 :: z) = p' ++ z /\ length p' = S (length l) /\ words p' /\
    value p' = value p + y * value l + c.
Proof.
  intros Hl Hy Hp. revert l c Hl. induction Hp as [|p0 p Hp0 Hp IH]; intros l c Hl Hc Hlen;
    (destruct Hl as [|x l Hx Hl]; [|]); try discriminate Hlen; cbn [app mul_add].
  - exists [c]. unfold word in Hc. rewrite wrapu_small by lia. split; [done|]. split; [done|].
    split; [by constructor|]. simpl. lia.
  - destruct (prod_spec x y p0 c Hx Hy Hp0 Hc) as (-> & Hc' & Hv).
    destruct (IH l _ Hl Hc' ltac:(simpl in Hlen; lia)) as (p' & -> & Hlen' & Hw & Hv').
    exists (low32 (y * x + p0 + c) :: p'). split; [done|]. split; [simpl; lia|].
    split; [constructor; [apply low32_word|done]|]. cbn [value]. rewrite Hv'. lia.
Qed.

Lemma mul_rows_spec l r p :
  words l -> words r -> words p -> length p = length l ->
  let m := mul_rows l r (p ++ replicate (length r) 0) in
  words m /\ length m = (length l + length r)%nat /\ value m = value p + value l * value r.
Proof.
  intros Hl Hr. revert p. induction Hr as [|y r Hy Hr IH]; intros p Hp Hlen; cbn [mul_rows length replicate].
  { rewrite app_nil_r. cbn [value]. split; [done|]. split; lia. }
  assert (exists p', (if y =? 0 then p ++ 0 :: replicate (length r) 0
      else mul_add y 0 l (p ++ 0 :: replicate (length r) 0)) = p' ++ replicate (length r) 0 /\
    length p' = S (length l) /\ words p' /\ value p' = value p + y * value l) as (p' & -> & Hlen' & Hw & Hv).
  { destruct (Z.eqb_spec y 0) as [->|].
    - exists (p ++ [0]). rewrite <- app_assoc. split; [done|]. rewrite length_app. split; [simpl; lia|].
      split; [apply Forall_app; split; [done|constructor; [unfold word; lia|done]]|].
      rewrite value_app. cbn [value]. lia.
    - destruct (mul_add_spec y 0 l p (replicate (length r) 0) Hl Hy Hp) as (p' & E & ? & ? & Hv);
        [unfold word; lia|done|]. exists p'. rewrite Hv. split; [done|]. split; [done|]. split; [done|lia]. }
  destruct p' as [|h p']; [done|]. cbn [app]. apply Forall_cons in Hw as [Hh Hw].
  destruct (IH p' Hw ltac:(simpl in Hlen'; lia)) as (Hwm & Hlm & Hvm).
  split; [by constructor|]. split; [simpl; lia|]. cbn [value] in *. rewrite Hvm. lia.
Qed.

Lemma pop_zero_spec l :
  words l -> words (pop_zero l) /\ value (pop_zero l) = value l /\
  (2 ^ (32 * (zlen l - 2)) <= value l \/ (length l <= 1)%nat -> isNormal (pop_zero l) = true).
Proof.
  intros Hl. destruct (list_snoc l) as [->|(l' & x & ->)]; [done|].
  apply Forall_app in Hl as [Hl Hx]. unfold pop_zero. rewrite last_snoc, removelast_last.
  destruct (Z.eqb_spec x 0) as [->|Hne].
  - rewrite value_app. cbn [value]. split; [done|]. split; [lia|]. intros Hv.
    apply value_normal; [done|]. intros Hl'. destruct Hv as [Hv|Hv].
    + rewrite zlen_app, zlen_cons, zlen_nil in Hv.
      replace (zlen l' + (1 + 0) - 2) with (zlen l' - 1) in Hv by lia. lia.
    + rewrite length_app in Hv. destruct l'; [done|simpl in Hv; lia].
  - split; [by apply Forall_app|]. split; [done|]. intros _. rewrite isNormal_snoc.
    destruct (Z.eqb_spec x 0); done.
Qed.

Lemma multiply_spec l r :
  words l -> words r ->
  words (multiply l r) /\ value (multiply l r) = value l * value r /\
  (isNormal l = true -> isNormal r = true -> isNormal (multiply l r) = true).
Proof.
  intros Hl Hr. unfold multiply.
  destruct (decide (l = [])) as [->|Hl0]; [simpl; split; [done|]; split; [lia|done]|].
  destruct (decide (r = [])) as [->|Hr0].
  { destruct (isZero l); simpl; (split; [done|]; split; [lia|done]). }
  replace (isZero l || isZero r) with false by (by destruct l, r).
  rewrite replicate_add. 
  destruct (mul_rows_spec l r (replicate (length l) 0) Hl Hr (words_zeros _)) as (Hw & Hlen & Hv);
    [by rewrite length_replicate|].
  set (m := mul_rows _ _ _) in *. rewrite value_zeros in Hv.
  destruct (pop_zero_spec m Hw) as (Hw' & Hv' & Hn). split; [done|]. split; [lia|].
  intros Nl Nr. apply Hn. left. rewrite Hv.
  pose proof (normal_value l Hl Nl Hl0). pose proof (normal_value r Hr Nr Hr0).
  assert (0 < zlen l /\ 0 < zlen r) by (unfold zlen; destruct l, r; simpl; try done; lia).
  replace (32 * (zlen m - 2)) with (32 * (zlen l - 1) + 32 * (zlen r - 1)) by (unfold zlen; lia).
  rewrite Z.pow_add_r by lia.
  pose proof (Z.pow_pos_nonneg 2 (32 * (zlen l - 1))). pose proof (Z.pow_pos_nonneg 2 (32 * (zlen r - 1))).
  simpl. nia.
Qed.

(** ** Lemmas: division *)

Lemma div_limbs_spec x l :
  words l -> word x -> 0 < x ->
  let '(q, c) := div_limbs x l in
  words q /\ length q = length l /\ 0 <= c < x /\ value l = value q * x + c.
Proof.
  intros Hl Hx Hpos. induction Hl as [|l0 l H0 Hl IH]; cbn [div_limbs].
  { split; [done|]. split; [done|]. split; [lia|done]. }
  destruct (div_limbs x l) as [q c]. destruct IH as (Hw & Hlen & Hc & Hv).
  unfold word in Hx, H0.
  rewrite Z.shiftl_mul_pow2 by lia. rewrite (wrapu_small 64 (c * 2 ^ 32)) by lia.
  rewrite (wrapu_small 64) by lia.
  pose proof (Z.div_mod (c * 2 ^ 32 + l0) x ltac:(lia)) as Hdm.
  pose proof (Z.mod_pos_bound (c * 2 ^ 32 + l0) x Hpos).
  assert (0 <= (c * 2 ^ 32 + l0) / x < 2 ^ 32) as Hq.
  { split; [apply Z.div_pos; lia|apply Z.div_lt_upper_bound; nia]. }
  rewrite (wrapu_small 32) by lia.
  split; [by constructor|]. split; [simpl; lia|]. split; [done|].
  cbn [value]. rewrite Hv. set (d := (c * 2 ^ 32 + l0) / x) in *.
  set (r := (c * 2 ^ 32 + l0) mod x) in *. clearbody d r. lia.
Qed.

Lemma devide_spec x l :
  words l -> isNormal l = true -> word x -> 0 < x ->
  exists q, devide x l = Ok (q, value l mod x) /\ words q /\ isNormal q = true /\
    value q = value l / x.
Proof.
  intros Hl Hn Hx Hpos. unfold devide. rewrite (proj2 (Z.eqb_neq x 0)) by lia.
  rewrite orb_true_r. cbn [defined_ mbind outcome_bind].
  pose proof (div_limbs_spec x l Hl Hx Hpos) as Hd. destruct (div_limbs x l) as [q c].
  destruct Hd as (Hw & Hlen & Hc & Hv).
  assert ((if isZero q then q else pop_zero q) = pop_zero q) as -> by (by destruct q).
  destruct (pop_zero_spec q Hw) as (Hw' & Hv' & Hn').
  assert (value q = value l / x) as Eq by (apply (Z.div_unique_pos _ _ _ c); [lia|lia]).
  assert (value l mod x = c) as -> by (symmetry; apply (Z.mod_unique_pos _ _ (value q)); [lia|lia]).
  assert (isNormal (pop_zero q) = true) as Hnq.
  { apply Hn'. destruct (decide (length q <= 1)%nat) as [|Hlen1]; [by right|left].
    pose proof (normal_value l Hl Hn ltac:(by destruct l; simpl in *; [lia|])) as Hlv.
    assert (zlen q = zlen l) as Hz by (unfold zlen; lia). rewrite Hz, Eq.
    apply Z.div_le_lower_bound; [done|]. unfold word in Hx.
    replace (32 * (zlen l - 1)) with (32 + 32 * (zlen l - 2)) in Hlv by lia.
    rewrite Z.pow_add_r in Hlv by (unfold zlen in *; lia).
    pose proof (Z.pow_pos_nonneg 2 (32 * (zlen l - 2))). unfold zlen in *. nia. }
  rewrite Hnq. simpl. exists (pop_zero q). split; [done|]. split; [done|]. split; [done|lia].
Qed.

(** ** Lemmas: comparison and subtraction *)

Lemma lex_value a b :
  words a -> words b -> length a = length b ->
  lexicographical_compare a b = (value (rev a) <? value (rev b)).
Proof.
  intros Ha. revert b. induction Ha as [|x a Hx Ha IH]; intros b Hb Hlen; [by destruct b|].
  destruct Hb as [|y b Hy Hb]; [done|]. cbn [lexicographical_compare rev].
  rewrite !value_app. cbn [value]. unfold zlen. rewrite !length_rev.
  assert (length a = length b) as Hlen' by (simpl in Hlen; lia). rewrite <- Hlen'.
  rewrite IH by done. unfold word in Hx, Hy.
  assert (words (rev a)) as Hra by (by apply Forall_rev).
  assert (words (rev b)) as Hrb by (by apply Forall_rev).
  pose proof (value_bound _ Hra) as Ba. pose proof (value_bound _ Hrb) as Bb.
  pose proof (value_nonneg _ Hra). pose proof (value_nonneg _ Hrb).
  unfold zlen in Ba, Bb. rewrite length_rev in Ba, Bb. rewrite <- Hlen' in Bb.
  set (P := 2 ^ (32 * Z.of_nat (length a))) in *. clearbody P.
  destruct (Z.ltb_spec x y), (Z.ltb_spec y x); try lia;
    [symmetry; apply Z.ltb_lt; nia|symmetry; apply Z.ltb_ge; nia|].
  assert (x = y) as -> by lia.
  destruct (Z.ltb_spec (value (rev a)) (value (rev b))), (Z.ltb_spec (value (rev a) + P * (y + 2 ^ 32 * 0))
    (value (rev b) + P * (y + 2 ^ 32 * 0))); try done; lia.
Qed.

Lemma lessThan_value l r :
  words l -> words r -> isNormal l = true -> isNormal r = true ->
  lessThan l r = (value l <? value r).
Proof.
  intros Hl Hr Nl Nr. unfold lessThan.
  assert (forall a b, words a -> words b -> isNormal b = true -> (length a < length b)%nat -> value a < value b) as Hlt.
  { intros a b Ha Hb Nb E. pose proof (value_bound a Ha).
    pose proof (normal_value b Hb Nb ltac:(by destruct b; simpl in *; [lia|])).
    assert (2 ^ (32 * zlen a) <= 2 ^ (32 * (zlen b - 1))); [|lia].
    apply Z.pow_le_mono_r; [lia|]. unfold zlen. lia. }
  destruct (Nat.ltb_spec (length l) (length r)) as [Hll|Hll].
  { symmetry. apply Z.ltb_lt. by apply Hlt. }
  destruct (Nat.eqb_spec (length r) (length l)) as [He|He]; simpl.
  - rewrite lex_value by (by rewrite ?length_rev; try apply Forall_rev). by rewrite !rev_involutive.
  - symmetry. apply Z.ltb_ge. apply Z.lt_le_incl, Hlt; [done..|lia].
Qed.

(** A difference that may be negative, in 64 bits. *)
Lemma diff_spec d :
  - 2 ^ 32 <= d < 2 ^ 32 ->
  low32 (u64 d) = d + 2 ^ 32 * carry_of (u64 d) /\ 0 <= carry_of (u64 d) <= 1.
Proof.
  intros Hd. rewrite low32_mod. unfold carry_of, wrapu, kMask_.
  destruct (Z.ltb_spec 0xFFFFFFFF (d mod 2 ^ 64)); dlia.
Qed.

Lemma borrow_spec c l :
  words l -> 0 <= c <= 1 ->
  let '(d, c') := borrow c l in
  words d /\ length d = length l /\ 0 <= c' <= 1 /\ value d = value l - c + 2 ^ (32 * zlen l) * c'.
Proof.
  intros Hl. revert c. induction Hl as [|x l Hx Hl IH]; intros c Hc; cbn [borrow].
  - rewrite (@zlen_nil Z). simpl. split; [done|]. split; [done|]. split; [done|lia].
  - destruct (Z.eqb_spec c 0) as [->|Hc0].
    { split; [by constructor|]. split; [done|]. split; [lia|lia]. }
    unfold word in Hx. destruct (diff_spec (x - c)) as [E Hc']; [lia|].
    specialize (IH _ Hc'). destruct (borrow _ l) as [d c'']. destruct IH as (Hw & Hlen & Hr & Hv).
    split; [constructor; [apply low32_word|done]|]. split; [simpl; lia|]. split; [done|].
    rewrite pow_limb. cbn [value]. rewrite Hv, E. ring.
Qed.

Lemma sub_limbs_spec l r c :
  words l -> words r -> (length r <= length l)%nat -> 0 <= c <= 1 ->
  let '(d, c') := sub_limbs c l r in
  words d /\ length d = length l /\ 0 <= c' <= 1 /\
  value d = value l - value r - c + 2 ^ (32 * zlen l) * c'.
Proof.
  intros Hl. revert r c. induction Hl as [|x l Hx Hl IH]; intros r c Hr Hlen Hc.
  - destruct r; [|simpl in Hlen; lia]. cbn [sub_limbs value].
    pose proof (borrow_spec c [] ltac:(constructor) Hc) as Hb. destruct (borrow c []) as [d c'].
    destruct Hb as (? & ? & ? & Hv). split; [done|]. split; [done|]. split; [done|].
    rewrite Hv. cbn [value]. lia.
  - destruct Hr as [|y r Hy Hr]; cbn [sub_limbs].
    { pose proof (borrow_spec c (x :: l) ltac:(by constructor) Hc) as Hb.
      destruct (borrow c (x :: l)) as [d c']. destruct Hb as (? & ? & ? & Hv).
      split; [done|]. split; [done|]. split; [done|]. rewrite Hv. cbn [value]. lia. }
    unfold word in Hx, Hy.
    assert (u64 (u64 (x - y) - c) = u64 (x - y - c)) as -> by (unfold wrapu; dlia).
    destruct (diff_spec (x - y - c)) as [E Hc']; [lia|].
    specialize (IH r _ Hr ltac:(simpl in Hlen; lia) Hc'). destruct (sub_limbs _ l r) as [d c''].
    destruct IH as (Hw & Hlen' & Hrng & Hv).
    split; [constructor; [apply low32_word|done]|]. split; [simpl; lia|]. split; [done|].
    rewrite pow_limb. cbn [value]. rewrite Hv, E. ring.
Qed.

Lemma pop_zeros_spec l :
  words l -> words (pop_zeros l) /\ value (pop_zeros l) = value l /\ isNormal (pop_zeros l) = true.
Proof.
  unfold pop_zeros. intros Hl. rewrite <- (rev_involutive l) at 3. apply Forall_rev in Hl.
  induction Hl as [|x k Hx Hk IH]; cbn [drop_zeros]; [done|].
  destruct (Z.eqb_spec x 0) as [->|Hne].
  - destruct IH as (? & Hv & ?). split; [done|]. split; [|done]. rewrite Hv. cbn [rev].
    rewrite value_app. cbn [value]. lia.
  - split; [apply Forall_rev; by constructor|]. split; [done|]. cbn [rev]. rewrite isNormal_snoc.
    destruct (Z.eqb_spec x 0); done.
Qed.

Lemma sub_spec l r :
  words l -> words r -> isNormal l = true -> isNormal r = true -> value r <= value l ->
  exists d, sub l r = Ok d /\ words d /\ isNormal d = true /\ value d = value l - value r.
Proof.
  intros Hl Hr Nl Nr Hle. unfold sub. rewrite lessThan_value by done.
  rewrite (proj2 (Z.ltb_ge _ _)) by done.
  assert ((length r <= length l)%nat) as Hlen.
  { destruct (decide (length r <= length l)%nat) as [|Hgt]; [done|exfalso].
    pose proof (lessThan_value l r Hl Hr Nl Nr) as Hlt. unfold lessThan in Hlt.
    rewrite (proj2 (Nat.ltb_lt _ _)) in Hlt by lia. symmetry in Hlt. simpl in Hlt. bool_facts. lia. }
  rewrite (proj2 (Nat.leb_le _ _)) by done. cbn [assert_ mbind outcome_bind].
  pose proof (sub_limbs_spec l r 0 Hl Hr Hlen ltac:(lia)) as Hs.
  destruct (sub_limbs 0 l r) as [d c]. destruct Hs as (Hw & Hld & Hc & Hv).
  pose proof (value_bound d Hw) as Hb. pose proof (value_nonneg d Hw).
  assert (zlen d = zlen l) as Hz by (unfold zlen; lia). rewrite Hz in Hb.
  assert (c = 0) as -> by nia. simpl.
  destruct (pop_zeros_spec d Hw) as (? & Hvp & ?). eexists. split; [done|]. split; [done|].
  split; [done|lia].
Qed.

(** Without the guard of [lessThan] nothing is subtracted. *)
Lemma sub_underflow l r :
  words l -> words r -> isNormal l = true -> isNormal r = true -> value l < value r ->
  sub l r = Fail AssertFail.
Proof.
  intros Hl Hr Nl Nr Hlt. unfold sub. rewrite lessThan_value by done.
  by rewrite (proj2 (Z.ltb_lt _ _)).
Qed.

(** ** Lemmas: powers *)

(** Vectors of words without leading zeros: what every operation keeps. *)
Definition wf (l : limbs) : Prop := words l /\ isNormal l = true.

Lemma wf_word x : word x -> wf (new_UnsignedInt x) /\ value (new_UnsignedInt x) = x.
Proof.
  intros Hx. unfold new_UnsignedInt, word in *. destruct (Z.ltb_spec 0 x).
  - split; [|simpl; lia]. split; [constructor; [done|done]|]. unfold isNormal. simpl.
    destruct (Z.eqb_spec x 0); [lia|done].
  - assert (x = 0) as -> by lia. done.
Qed.

Lemma wf_multiply l r : wf l -> wf r -> wf (multiply l r) /\ value (multiply l r) = value l * value r.
Proof.
  intros [? ?] [? ?]. destruct (multiply_spec l r) as (? & ? & ?); [done..|]. repeat split; auto.
Qed.

Lemma wf_add l r : wf l -> wf r -> wf (add l r) /\ value (add l r) = value l + value r.
Proof.
  intros [? ?] [? ?]. destruct (add_spec l r) as (? & ? & ?); [done..|]. repeat split; auto.
Qed.

Lemma wf_multiply_word l x : wf l -> word x ->
  wf (multiply_word x l) /\ value (multiply_word x l) = value l * x.
Proof.
  intros [? ?] ?. destruct (multiply_word_spec x l) as (? & ? & ?); [done..|]. repeat split; auto.
Qed.

Lemma power_loop_spec fuel result this n :
  wf result -> wf this -> 0 <= n < 2 ^ Z.of_nat fuel ->
  wf (power_loop fuel result this n) /\
  value (power_loop fuel result this n) = value result * value this ^ n.
Proof.
  revert result this n. induction fuel as [|fuel IH]; intros result this n Hr Ht Hn.
  { simpl in Hn. assert (n = 0) as -> by lia. cbn [power_loop]. rewrite Z.pow_0_r. split; [done|lia]. }
  cbn [power_loop]. destruct (Z.eqb_spec n 0) as [->|Hne]; [rewrite Z.pow_0_r; split; [done|lia]|].
  rewrite Nat2Z.inj_succ, Z.pow_succ_r in Hn by lia.
  destruct (wf_multiply this this Ht Ht) as [Hw2 Hv2].
  set (result' := if Z.odd n then multiply result this else result).
  assert (wf result' /\ value result' = value result * value this ^ (n mod 2)) as [Hwr Hvr].
  { unfold result'. rewrite Zmod_odd. destruct (Z.odd n).
    - rewrite Z.pow_1_r. by apply wf_multiply.
    - rewrite Z.pow_0_r. split; [done|lia]. }
  destruct (IH result' (multiply this this) (n / 2)) as [Hw Hv]; [done..|dlia|].
  split; [done|]. rewrite Hv, Hvr, Hv2, <- Z.pow_2_r, <- Z.pow_mul_r by dlia.
  rewrite <- Z.mul_assoc, <- Z.pow_add_r by dlia. do 2 f_equal. dlia.
Qed.

Lemma power_spec n l :
  wf l -> word n -> wf (power n l) /\ value (power n l) = value l ^ n.
Proof.
  intros Hl Hn. unfold power, word in *. destruct (Z.eqb_spec n 0) as [->|Hne];
    [rewrite Z.pow_0_r; apply (wf_word 1); unfold word; lia|].
  destruct (Z.ltb_spec 1 n).
  - destruct (wf_word 1 ltac:(unfold word; lia)) as [Hw1 Hv1].
    destruct (power_loop_spec 32 _ l n Hw1 Hl) as [Hw Hv]; [simpl; lia|].
    split; [done|]. rewrite Hv, Hv1. lia.
  - assert (n = 1) as -> by lia. rewrite Z.pow_1_r. done.
Qed.

(** ** Lemmas: decimal text *)

Lemma digit_char_digit d : 0 <= d < 10 -> digit_char d = digit d.
Proof.
  intros Hd. assert (d = 0 \/ d = 1 \/ d = 2 \/ d = 3 \/ d = 4 \/ d = 5 \/ d = 6 \/ d = 7 \/ d = 8 \/ d = 9)
    as Hc by lia. repeat (destruct Hc as [->|Hc]; [done|]). by subst.
Qed.

(** The last [do ... while] prints a word. *)
Lemma all_digits_udec fuel x :
  0 <= x < 10 ^ Z.of_nat fuel -> (0 < fuel)%nat -> rev (all_digits fuel 10 x) = udec x.
Proof.
  revert x. induction fuel as [|fuel IH]; intros x Hx Hf; [lia|]. cbn [all_digits].
  rewrite Nat2Z.inj_succ, Z.pow_succ_r in Hx by lia.
  rewrite digit_char_digit by dlia. destruct (Z.eqb_spec (x / 10) 0) as [E|E].
  - assert (x < 10) by dlia. rewrite udec_small by done. simpl. by rewrite Z.mod_small by lia.
  - assert (10 <= x) by dlia. rewrite udec_step by done. cbn [rev].
    destruct fuel as [|fuel]; [rewrite Z.pow_0_r in Hx; lia|]. rewrite IH; [done| |lia].
    split; [apply Z.div_pos; lia|apply Z.div_lt_upper_bound; lia].
Qed.

(** A segment of [k] digits prints the remainder. *)
Lemma low_digits_udec k q r :
  0 < q -> 0 <= r < 10 ^ Z.of_nat k -> udec (q * 10 ^ Z.of_nat k + r) = udec q ++ rev (low_digits k 10 r).
Proof.
  intros Hq. revert r. induction k as [|k IH]; intros r Hr; cbn [low_digits rev].
  { rewrite Z.pow_0_r in *. rewrite app_nil_r. f_equal. lia. }
  rewrite Nat2Z.inj_succ, Z.pow_succ_r in * by lia.
  assert (0 < 10 ^ Z.of_nat k) by (apply Z.pow_pos_nonneg; lia).
  rewrite udec_step by nia. rewrite app_assoc, <- IH by dlia.
  rewrite digit_char_digit by dlia.
  replace (q * (10 * 10 ^ Z.of_nat k) + r) with (r + (q * 10 ^ Z.of_nat k) * 10) by ring.
  rewrite Z.div_add, Z.mod_add by lia. do 2 f_equal. lia.
Qed.

Lemma dec_loop_spec fuel copy result :
  wf copy -> copy <> [] -> value copy < 2 ^ (29 * Z.of_nat fuel + 32) ->
  exists w s, dec_loop fuel copy result = Ok ([w], result ++ s) /\ word w /\
    udec (value copy) = udec w ++ rev s.
Proof.
  revert copy result. induction fuel as [|fuel IH]; intros copy result Hwf Hne Hv.
  - destruct copy as [|w [|w2 copy]]; [done| |].
    + exists w, []. cbn [dec_loop]. rewrite app_nil_r. split; [done|].
      destruct Hwf as [Hw _]. apply Forall_cons in Hw as [Hw _]. split; [done|].
      cbn [value rev]. rewrite app_nil_r. f_equal. lia.
    + exfalso. destruct Hwf as [Hw Hn]. pose proof (normal_value _ Hw Hn Hne) as Hnv.
      rewrite !zlen_cons in Hnv. pose proof (zlen_nonneg copy).
      assert (2 ^ 32 <= 2 ^ (32 * (1 + (1 + zlen copy) - 1))) by (apply Z.pow_le_mono_r; lia).
      change (29 * Z.of_nat 0 + 32) with 32 in Hv. lia.
  - cbn [dec_loop]. destruct (Nat.ltb_spec 1 (length copy)) as [Hlen|Hlen].
    + destruct Hwf as [Hw Hn].
      destruct (devide_spec 1000000000 copy Hw Hn ltac:(unfold word; lia) ltac:(lia)) as (q & -> & Hwq & Hnq & Hvq).
      cbn [mbind outcome_bind]. pose proof (normal_value _ Hw Hn Hne) as Hnv.
      assert (2 ^ 32 <= 2 ^ (32 * (zlen copy - 1))) by (apply Z.pow_le_mono_r; unfold zlen; lia).
      assert (4 <= value q) by (rewrite Hvq; apply Z.div_le_lower_bound; lia).
      destruct (IH q (result ++ low_digits 9 10 (value copy mod 1000000000))) as (w & s & E & Hww & Hs).
      { by split. }
      { by intros ->. }
      { rewrite Hvq. apply Z.div_lt_upper_bound; [lia|].
        replace (29 * Z.of_nat (S fuel) + 32) with (29 + (29 * Z.of_nat fuel + 32)) in Hv by lia.
        rewrite Z.pow_add_r in Hv by lia. pose proof (Z.pow_pos_nonneg 2 (29 * Z.of_nat fuel + 32)). lia. }
      exists w, (low_digits 9 10 (value copy mod 1000000000) ++ s). rewrite E, <- app_assoc.
      split; [done|]. split; [done|].
      rewrite rev_app_distr, app_assoc, <- Hs.
      rewrite (Z.div_mod (value copy) 1000000000) at 1 by lia. rewrite <- Hvq, Z.mul_comm.
      apply (low_digits_udec 9); [lia|]. apply Z.mod_pos_bound. lia.
    + destruct copy as [|w [|]]; [done| |simpl in Hlen; lia].
      exists w, []. rewrite app_nil_r. split; [done|].
      destruct Hwf as [Hw _]. apply Forall_cons in Hw as [Hw _]. split; [done|].
      cbn [value rev]. rewrite app_nil_r. f_equal. lia.
Qed.

(** [toDec] prints the decimal digits of the number. *)
Lemma toDec_spec l : wf l -> toDec l = Ok (udec (value l)).
Proof.
  intros Hwf. destruct l as [|x l]; [done|]. unfold toDec.
  destruct (dec_loop_spec (2 * length (x :: l)) (x :: l) [] Hwf) as (w & s & E & Hw & Hs); [done| |].
  { destruct Hwf as [Hw _]. pose proof (value_bound _ Hw) as Hb.
    apply Z.lt_le_trans with (2 ^ (32 * zlen (x :: l))); [done|].
    apply Z.pow_le_mono_r; [lia|]. unfold zlen. lia. }
  rewrite E. cbn [mbind outcome_bind from_some head app]. rewrite rev_app_distr, Hs.
  unfold word in Hw. rewrite all_digits_udec; [done| |lia]. split; [lia|].
  apply Z.lt_le_trans with (2 ^ 32); [lia|]. vm_compute. discriminate.
Qed.

Lemma fromDec_digit c : is_digit c -> fromDec c = byte_to_Z c - 48.
Proof.
  unfold is_digit, fromDec. intros Hc.
  rewrite (proj2 (Z.leb_le _ _)), (proj2 (Z.leb_le _ _)) by lia. done.
Qed.

Lemma parseSegment_spec s :
  Forall is_digit s -> (length s <= 9)%nat -> parseSegment s = dec_value s /\ 0 <= dec_value s < 10 ^ zlen s.
Proof.
  induction s as [|c s IH] using rev_ind; intros Hd Hlen; [done|].
  apply Forall_app in Hd as [Hd Hc]. apply Forall_cons in Hc as [Hc _].
  rewrite length_app in Hlen. simpl in Hlen. destruct (IH Hd ltac:(lia)) as [E Hr].
  unfold parseSegment in *. rewrite foldl_app. cbn [foldl]. rewrite E, dec_value_snoc, fromDec_digit by done.
  assert (zlen (s ++ [c]) = zlen s + 1) as -> by (rewrite zlen_app; done).
  rewrite Z.pow_add_r, Z.pow_1_r by (pose proof (zlen_nonneg s); lia). unfold is_digit in Hc.
  assert (10 ^ zlen s <= 10 ^ 8) by (apply Z.pow_le_mono_r; unfold zlen; lia).
  rewrite (wrapu_small 32 (dec_value s * 10)) by lia. rewrite wrapu_small by lia. lia.
Qed.

(** Numbers as [parseDec] builds them: normal, except for a lone zero. *)
Definition wf0 (l : limbs) : Prop := words l /\ (isNormal l = true \/ l = [0]).

Lemma wf0_step l x :
  wf0 l -> 0 <= x < 10 ^ 9 ->
  wf0 (add_word x (multiply_word 1000000000 l)) /\
  value (add_word x (multiply_word 1000000000 l)) = value l * 1000000000 + x.
Proof.
  intros [Hw Hn] Hx.
  destruct (multiply_word_spec 1000000000 l Hw ltac:(unfold word; lia)) as (Hwm & Hvm & Hnm).
  destruct (add_word_spec x _ Hwm ltac:(unfold word; lia)) as (Hwa & Hva & Hna).
  split; [|lia]. split; [done|]. destruct Hn as [Hn| ->].
  - destruct l as [|y l].
    + simpl in *. destruct (Z.eqb_spec x 0) as [->|]; [by right|left]. apply Hna; done.
    + left. apply Hna; [by apply Hnm|]. intros E. exfalso. rewrite E in Hvm.
      pose proof (normal_positive _ Hw Hn ltac:(done)). change (value []) with 0 in Hvm. lia.
  - change (multiply_word 1000000000 [0]) with [0]. cbn [add_word propagate].
    rewrite Z.add_0_l, wrapu_small by lia. rewrite low32_mod, Z.mod_small by lia.
    unfold carry_of, kMask_. destruct (Z.ltb_spec 0xFFFFFFFF x); [lia|]. simpl.
    destruct (Z.eqb_spec x 0) as [->|]; [by right|left]. unfold isNormal. simpl.
    destruct (Z.eqb_spec x 0); done.
Qed.

Lemma dec_segments_spec fuel s l :
  Forall is_digit s -> (length s mod 9 = 0)%nat -> (length s <= fuel)%nat -> wf0 l ->
  exists l', dec_segments fuel s l = Ok l' /\ wf0 l' /\ value l' = value l * 10 ^ zlen s + dec_value s.
Proof.
  revert s l. induction fuel as [|fuel IH]; intros s l Hd Hm Hlen Hwf.
  { destruct s; [|simpl in Hlen; lia]. exists l. split; [done|]. split; [done|].
    rewrite zlen_nil, Z.pow_0_r. unfold dec_value. simpl. lia. }
  cbn [dec_segments]. destruct s as [|c s0] eqn:Es.
  { exists l. split; [done|]. split; [done|]. rewrite zlen_nil, Z.pow_0_r. unfold dec_value. simpl. lia. }
  rewrite <- Es in *. assert (9 <= length s)%nat as H9.
  { destruct (decide (9 <= length s)%nat); [done|].
    rewrite Nat.mod_small in Hm by lia. rewrite Es in Hm. simpl in Hm. lia. }
  rewrite (proj2 (Nat.leb_le _ _)) by done. cbn [assert_ mbind outcome_bind].
  rewrite <- (take_drop 9 s) in Hd. apply Forall_app in Hd as [Hd1 Hd2].
  assert (length (take 9 s) = 9%nat) as Hl9 by (rewrite length_take; lia).
  destruct (parseSegment_spec _ Hd1 ltac:(lia)) as [-> Hr].
  assert (zlen (take 9 s) = 9) as Hz9 by (unfold zlen; lia). rewrite Hz9 in Hr.
  destruct (wf0_step l _ Hwf Hr) as [Hwf' Hv'].
  destruct (IH (drop 9 s) (add_word (dec_value (take 9 s)) (multiply_word 1000000000 l))) as (l' & E & Hw & Hv);
    [done| |rewrite length_drop; lia|done|].
  { rewrite length_drop. assert (length s = (length s - 9 + 1 * 9))%nat as Hs by lia.
    rewrite Hs, Nat.Div0.mod_add in Hm. done. }
  exists l'. rewrite E. split; [done|]. split; [done|]. rewrite Hv, Hv'.
  assert (zlen s = 9 + zlen (drop 9 s)) as -> by (unfold zlen; rewrite length_drop; lia).
  assert (dec_value s = dec_value (take 9 s) * 10 ^ zlen (drop 9 s) + dec_value (drop 9 s)) as ->
    by (by rewrite <- dec_value_app, take_drop).
  rewrite Z.pow_add_r by (pose proof (zlen_nonneg (drop 9 s)); lia).
  replace (10 ^ 9) with 1000000000 by done. ring.
Qed.

(** [parseDec] reads the number a string of digits denotes. *)
Lemma parseDec_spec s :
  Forall is_digit s -> exists l, parseDec s = Ok l /\ wf0 l /\ value l = dec_value s.
Proof.
  intros Hd. unfold parseDec. set (k := (length s mod 9)%nat).
  assert (k <= length s)%nat by (apply Nat.Div0.mod_le).
  assert (k < 9)%nat by (apply Nat.mod_upper_bound; lia).
  rewrite <- (take_drop k s) in Hd. apply Forall_app in Hd as [Hd1 Hd2].
  assert (length (take k s) = k) as Hk by (rewrite length_take; lia).
  destruct (parseSegment_spec _ Hd1 ltac:(lia)) as [Ep Hr]. rewrite Ep.
  assert (10 ^ zlen (take k s) <= 10 ^ 9) by (apply Z.pow_le_mono_r; unfold zlen; lia).
  set (l := if (k =? 0)%nat then [] else _).
  assert (wf0 l /\ value l = dec_value (take k s)) as [Hwf Hv].
  { unfold l. destruct (Nat.eqb_spec k 0) as [->|]; [split; [split; [done|by left]|done]|].
    destruct (add_word_spec (dec_value (take k s)) [] ltac:(constructor) ltac:(unfold word; lia)) as (Hw & Hv & Hn).
    split; [|simpl; lia]. split; [done|]. cbn [add_word] in *.
    destruct (Z.eqb_spec (dec_value (take k s)) 0) as [->|]; [by right|left]. by apply Hn. }
  destruct (dec_segments_spec (length s) (drop k s) l) as (l' & E & Hw & Hv'); [done| |rewrite length_drop; lia|done|].
  { rewrite length_drop. unfold k. rewrite (Nat.div_mod_eq (length s) 9) at 1.
    replace (9 * (length s / 9) + length s mod 9 - length s mod 9)%nat with (length s / 9 * 9)%nat by lia.
    apply Nat.Div0.mod_mul. }
  exists l'. split; [done|]. split; [done|]. rewrite Hv', Hv, <- dec_value_app, take_drop. done.
Qed.

Lemma add_word_nonempty x l : add_word x l <> [].
Proof. by destruct l. Qed.

Lemma dec_segments_nonempty fuel s l l' :
  dec_segments fuel s l = Ok l' -> l <> [] \/ (fuel <> 0%nat /\ s <> []) -> l' <> [].
Proof.
  revert s l. induction fuel as [|fuel IH]; intros s l; cbn [dec_segments].
  { intros [= <-] [?|[? _]]; done. }
  destruct s as [|c s]; [intros [= <-] [?|[_ ?]]; done|]. intros E _. inv_ok.
  eapply IH; [done|]. left. apply add_word_nonempty.
Qed.

Lemma parseDec_nonempty s :
  Forall is_digit s -> s <> [] ->
  exists l, parseDec s = Ok l /\ l <> [] /\ wf0 l /\ value l = dec_value s.
Proof.
  intros Hd Hne. destruct (parseDec_spec s Hd) as (l & E & Hwf & Hv). exists l.
  split; [done|]. split; [|done]. unfold parseDec in E.
  eapply dec_segments_nonempty; [exact E|]. destruct (Nat.eqb_spec (length s mod 9) 0) as [E0|].
  - right. rewrite E0, drop_0. split; [|done]. by destruct s.
  - left. apply add_word_nonempty.
Qed.

(** ** Lemmas: hexadecimal text *)

(** The number of a string of hexadecimal digits, least significant first. *)
Definition hex_value (s : list byte) : Z := foldr (fun c v => fromHex c + 16 * v) 0 s.
Definition is_hex (c : byte) : Prop := fromHex c < 16.

Lemma fromHex_nonneg c : 0 <= fromHex c.
Proof.
  unfold fromHex, kMask_. pose proof (byte_to_Z_range c).
  repeat match goal with |- context [if ?b then _ else _] => destruct b eqn:? end; bool_facts; lia.
Qed.

Lemma fromHex_digit_char d : 0 <= d < 16 -> fromHex (digit_char d) = d.
Proof.
  intros Hd. assert (d = 0 \/ d = 1 \/ d = 2 \/ d = 3 \/ d = 4 \/ d = 5 \/ d = 6 \/ d = 7 \/ d = 8 \/ d = 9
    \/ d = 10 \/ d = 11 \/ d = 12 \/ d = 13 \/ d = 14 \/ d = 15)
    as Hc by lia. repeat (destruct Hc as [->|Hc]; [done|]). by subst.
Qed.

Lemma hex_value_app a b : hex_value (a ++ b) = hex_value a + 16 ^ zlen a * hex_value b.
Proof.
  induction a as [|c a IH]; [rewrite (@zlen_nil byte), Z.pow_0_r;
    change (hex_value ([] ++ b)) with (hex_value b); change (hex_value []) with 0; lia|].
  unfold hex_value in *. cbn [app foldr]. rewrite IH, zlen_cons, Z.pow_add_r, Z.pow_1_r
    by (pose proof (zlen_nonneg a); lia). ring.
Qed.

Lemma low_digits_hex k x :
  0 <= x < 16 ^ Z.of_nat k ->
  hex_value (low_digits k 16 x) = x /\ length (low_digits k 16 x) = k /\
  Forall is_hex (low_digits k 16 x).
Proof.
  revert x. induction k as [|k IH]; intros x Hx; cbn [low_digits].
  { rewrite Z.pow_0_r in Hx. split; [|done]. unfold hex_value. cbn [foldr]. lia. }
  rewrite Nat2Z.inj_succ, Z.pow_succ_r in Hx by lia.
  destruct (IH (x / 16)) as (Hv & Hl & Hf); [split; [apply Z.div_pos; lia|apply Z.div_lt_upper_bound; lia]|].
  assert (fromHex (digit_char (x mod 16)) = x mod 16) as Hd by (apply fromHex_digit_char; dlia).
  split; [|split; [simpl; lia|constructor; [unfold is_hex; rewrite Hd; dlia|done]]].
  unfold hex_value in *. cbn [foldr]. rewrite Hv, Hd. dlia.
Qed.

Lemma all_digits_hex fuel k x :
  (0 < fuel)%nat -> (0 < k)%nat -> (k <= fuel)%nat -> 0 <= x < 16 ^ Z.of_nat k ->
  let s := all_digits fuel 16 x in
  hex_value s = x /\ (0 < length s <= k)%nat /\ Forall is_hex s.
Proof.
  revert k x. induction fuel as [|fuel IH]; intros k x Hf Hk Hkf Hx; [lia|]. cbn [all_digits].
  assert (fromHex (digit_char (x mod 16)) = x mod 16) as Hd by (apply fromHex_digit_char; dlia).
  destruct k as [|k]; [lia|]. rewrite Nat2Z.inj_succ, Z.pow_succ_r in Hx by lia.
  destruct (Z.eqb_spec (x / 16) 0) as [E|E].
  - unfold hex_value. cbn [foldr length]. rewrite Hd. split; [dlia|]. split; [lia|].
    constructor; [unfold is_hex; rewrite Hd; dlia|done].
  - destruct k as [|k]; [rewrite Z.pow_0_r in Hx; dlia|].
    destruct (IH (S k) (x / 16)) as (Hv & Hl & Hs); [lia|lia|lia| |].
    { split; [apply Z.div_pos; lia|apply Z.div_lt_upper_bound; lia]. }
    unfold hex_value in *. cbn [foldr length]. rewrite Hv, Hd. split; [dlia|]. split; [lia|].
    constructor; [unfold is_hex; rewrite Hd; dlia|done].
Qed.

(** [|] of a digit into the free upper part of a limb is an addition. *)
Lemma lor_digit x d k :
  0 <= k -> 0 <= x < 2 ^ k -> 0 <= d -> Z.lor x (d * 2 ^ k) = x + d * 2 ^ k.
Proof.
  intros Hk Hx Hd. rewrite Z.add_nocarry_lxor; [symmetry; apply Z.lxor_lor|]; rewrite Z.land_comm;
    apply Z.bits_inj'; intros n Hn; rewrite Z.land_spec, Z.bits_0;
    (destruct (Z.lt_ge_cases n k) as [Hlt|Hge];
     [rewrite Z.mul_pow2_bits_low by done; done
     |rewrite <- (Z.mod_small x (2 ^ k)) by done; rewrite Z.mod_pow2_bits_high by lia; apply andb_false_r]).
Qed.

Lemma hex_loop_spec i s l :
  words l -> 0 <= i -> 8 * zlen l = i + (- i) mod 8 -> value l < 16 ^ i -> Forall is_hex s ->
  let r := hex_loop i s l in
  words r /\ 8 * zlen r = i + zlen s + (- (i + zlen s)) mod 8 /\
  value r = value l + 16 ^ i * hex_value s.
Proof.
  intros Hl Hi Hlen Hv Hs. revert i l Hl Hi Hlen Hv.
  induction Hs as [|c s Hc Hs IH]; intros i l Hl Hi Hlen Hv; cbn [hex_loop].
  { rewrite (@zlen_nil byte), Z.add_0_r. split; [done|]. split; [done|]. unfold hex_value. cbn [foldr]. lia. }
  pose proof (fromHex_nonneg c) as Hc0. unfold is_hex in Hc.
  set (l1 := if i mod 8 =? 0 then l ++ [0] else l).
  set (k := i mod 8) in *. assert (0 <= k < 8) by (unfold k; dlia).
  assert (exists a x, l1 = a ++ [x] /\ words a /\ 8 * zlen a = i - k /\ 0 <= x < 2 ^ (4 * k) /\
    value l = value a + 2 ^ (32 * zlen a) * x) as (a & x & -> & Ha & Hla & Hx & Hva).
  { unfold l1. destruct (Z.eqb_spec k 0) as [E|E].
    - exists l, 0. split; [done|]. split; [done|]. split; [unfold k in *; dlia|]. rewrite E. split; [simpl; lia|lia].
    - destruct (list_snoc l) as [->|(a & x & ->)].
      { rewrite (@zlen_nil Z) in Hlen. unfold k in *. exfalso. dlia. }
      apply Forall_app in Hl as [Ha Hx]. apply Forall_cons in Hx as [Hx _]. unfold word in Hx.
      rewrite zlen_app in Hlen. change (zlen [x]) with 1 in Hlen.
      assert (8 * zlen a = i - k) as Hla by (unfold k in *; dlia).
      exists a, x. split; [done|]. split; [done|]. split; [done|].
      rewrite value_app in Hv |- *. cbn [value] in *. split; [split; [lia|]|lia].
      pose proof (value_nonneg a Ha). change 16 with (2 ^ 4) in Hv.
      rewrite <- Z.pow_mul_r in Hv by lia.
      replace (4 * i) with (32 * zlen a + 4 * k) in Hv by lia.
      rewrite Z.pow_add_r in Hv by (pose proof (zlen_nonneg a); lia).
      pose proof (Z.pow_pos_nonneg 2 (32 * zlen a)). pose proof (zlen_nonneg a). nia. }
  pose proof (zlen_nonneg a) as Hza. pose proof (zlen_nonneg s) as Hzs.
  assert (or_back (u32 (Z.shiftl (fromHex c) (4 * k))) (a ++ [x]) = a ++ [x + fromHex c * 2 ^ (4 * k)] /\
    word (x + fromHex c * 2 ^ (4 * k))) as [-> Hw].
  { assert (2 ^ (4 * k) * 2 ^ (32 - 4 * k - 4) = 2 ^ 28) as Hp by (rewrite <- Z.pow_add_r by lia; f_equal; lia).
    assert (0 < 2 ^ (4 * k)) by (apply Z.pow_pos_nonneg; lia).
    assert (0 < 2 ^ (32 - 4 * k - 4)) by (apply Z.pow_pos_nonneg; lia).
    assert (fromHex c * 2 ^ (4 * k) + 2 ^ (4 * k) <= 2 ^ 32) by nia.
    rewrite Z.shiftl_mul_pow2, wrapu_small by lia. split; [|unfold word; lia].
    unfold or_back. destruct (a ++ [x]) eqn:E; [by destruct a|]. rewrite <- E.
    rewrite removelast_last, last_snoc, lor_digit by lia. done. }
  assert (value (a ++ [x + fromHex c * 2 ^ (4 * k)]) = value l + 16 ^ i * fromHex c) as Hv'.
  { rewrite value_app. cbn [value]. rewrite Hva. change 16 with (2 ^ 4). rewrite <- Z.pow_mul_r by lia.
    replace (4 * i) with (32 * zlen a + 4 * k) by lia. rewrite Z.pow_add_r by lia. ring. }
  destruct (IH (i + 1) (a ++ [x + fromHex c * 2 ^ (4 * k)])) as (Hwr & Hlr & Hvr).
  - apply Forall_app. split; [done|]. by constructor.
  - lia.
  - rewrite zlen_app. change (zlen [_]) with 1. unfold k in *. dlia.
  - rewrite Hv', Z.pow_add_r, Z.pow_1_r by lia. pose proof (Z.pow_pos_nonneg 16 i). nia.
  - split; [done|]. rewrite zlen_cons. split; [rewrite Hlr; f_equal; [lia|f_equal; lia]|].
    rewrite Hvr, Hv', Z.pow_add_r, Z.pow_1_r by lia. unfold hex_value. cbn [foldr].
    fold (hex_value s). ring.
Qed.

Lemma removelast_snoc_words a x : words (a ++ [x]) -> words a /\ word x.
Proof. intros H. apply Forall_app in H as [? H]. apply Forall_cons in H as [? _]. done. Qed.

(** The digits [toHex] pushes, before it reverses them. *)
Lemma toHex_digits a x :
  words (a ++ [x]) ->
  let s := concat (low_digits 8 16 <$> a) ++ all_digits 32 16 x in
  hex_value s = value (a ++ [x]) /\ Forall is_hex s /\ 8 * zlen a < zlen s <= 8 * zlen a + 8.
Proof.
  intros Hw. apply removelast_snoc_words in Hw as [Ha Hx]. unfold word in Hx.
  destruct (all_digits_hex 32 8 x) as (Hvx & Hlx & Hfx); [lia|lia|lia|simpl; lia|].
  set (dx := all_digits 32 16 x) in *. clearbody dx. cbv zeta.
  induction Ha as [|y a Hy Ha IH].
  - cbn [fmap list_fmap concat app value]. rewrite Hvx. split; [lia|]. split; [done|].
    unfold zlen. cbn [length]. lia.
  - destruct IH as (Hv & Hf & Hl). unfold word in Hy.
    destruct (low_digits_hex 8 y) as (Hvy & Hly & Hfy); [simpl; lia|].
    cbn [fmap list_fmap concat app value]. rewrite <- app_assoc. cbv zeta in *.
    unfold fmap in *. rewrite hex_value_app, Hvy, Hv. unfold zlen in *. rewrite Hly.
    split; [done|]. split; [by apply Forall_app|]. rewrite length_app, Hly. cbn [length]. lia.
Qed.

(** ** Properties *)



(** C13: the decimal and the hexadecimal text of a number are read back to
    the same vector, and the decimal text is the usual one. The exception is
    zero, which has no limbs: its decimal text is read as a vector with one
    limb 0. *)
Theorem uint_text_roundtrip l :
  wf l ->
  toDec l = Ok (udec (value l)) /\
  UnsignedInt_of_string (udec (value l)) kDec = Ok (if isZero l then [0] else l) /\
  UnsignedInt_of_string (toHex l) kHex = Ok l.
Proof.
  intros Hwf. pose proof Hwf as [Hw Hn]. split; [by apply toDec_spec|]. split.
  - destruct (isZero l) eqn:Hz; [by destruct l|]. assert (l <> []) as Hne by (by intros ->).
    pose proof (value_nonneg l Hw) as Hpos. unfold UnsignedInt_of_string.
    destruct (parseDec_spec (udec (value l))) as (l' & -> & [Hw' Hn'] & Hv); [by apply udec_digits|].
    rewrite udec_value in Hv by done. f_equal.
    pose proof (normal_positive l Hw Hn Hne). destruct Hn' as [Hn'| ->]; [|simpl in Hv; lia].
    by apply normal_value_inj.
  - unfold UnsignedInt_of_string, parseHex. f_equal.
    destruct (list_snoc l) as [->|(a & x & ->)]; [done|].
    assert (rev (toHex (a ++ [x])) = concat (low_digits 8 16 <$> a) ++ all_digits 32 16 x) as ->.
    { unfold toHex. rewrite removelast_last, last_snoc. destruct (a ++ [x]) eqn:E; [by destruct a|].
      by rewrite rev_involutive. }
    destruct (toHex_digits a x Hw) as (Hv & Hf & Hlen). cbv zeta in *.
    set (s := concat (low_digits 8 16 <$> a) ++ all_digits 32 16 x) in *.
    destruct (hex_loop_spec 0 s []) as (Hwr & Hlr & Hvr); [constructor|lia|done|simpl; lia|done|].
    assert (hex_loop 0 s [] = a ++ [x]) as E.
    { apply words_value_inj; [done|done| |].
      - assert (zlen (hex_loop 0 s []) = zlen a + 1) as Hz.
        { rewrite Z.add_0_l in Hlr. clear -Hlr Hlen. dlia. }
        rewrite length_app. simpl. unfold zlen in Hz. lia.
      - rewrite Hvr, Hv. simpl. lia. }
    rewrite E. destruct (a ++ [x]) as [|z [|]] eqn:E2; [done| |by destruct z].
    destruct (decide (z = 0)) as [->|Hz]; [|by destruct z].
    unfold isNormal in Hn. simpl in Hn. done.
Qed.

Lemma uint_text_roundtrip_witness :
  toDec [7; 1] = Ok (bs "4294967303") /\ UnsignedInt_of_string (toHex [7; 1]) kHex = Ok [7; 1].
Proof.
  destruct (uint_text_roundtrip [7; 1]) as (H1 & _ & H3).
  - split; [repeat (constructor; [unfold word; lia|]); constructor|reflexivity].
  - split; [rewrite H1; reflexivity|exact H3].
Defined.

(** A zero read from decimal text is not the zero of the other
    operations: any number of digits [0], at least one, gives a limb zero, a
    vector that [isNormal] rejects, and the constant zero is less than it. *)
Theorem parsed_zero_not_normal n :
  (0 < n)%nat ->
  UnsignedInt_of_string (replicate n x30) kDec = Ok [0] /\
  isNormal [0] = false /\ isZero [0] = false /\ lessThan (new_UnsignedInt 0) [0] = true.
Proof.
  intros Hn. split; [|done]. unfold UnsignedInt_of_string.
  assert (Forall is_digit (replicate n x30)) as Hd.
  { apply Forall_replicate. unfold is_digit. change (byte_to_Z x30) with 48. lia. }
  destruct (parseDec_nonempty _ Hd) as (l & -> & Hne & [Hw Hwn] & Hv); [by destruct n; [lia|]|].
  f_equal. rewrite <- (app_nil_r (replicate n x30)), dec_value_zeros in Hv.
  destruct Hwn as [Hnl|]; [|done]. exfalso.
  pose proof (normal_positive l Hw Hnl Hne) as Hp. rewrite Hv in Hp. done.
Qed.

Lemma parsed_zero_not_normal_witness : UnsignedInt_of_string (bs "000") kDec = Ok [0].
Proof. apply (parsed_zero_not_normal 3). lia. Defined.
