(* ===== verification/UIntApps.v ===== *)
(** * Programs that compute with [UnsignedInt]

    Models [basic/fibonacci.cc] (three algorithms and the iterator),
    [basic/factorial.cc], [basic/combination.cc] and the class [Float] of
    [basic/exact.cc], and proves that each prints the number it is meant to,
    for arguments of any size the loops can handle. *)
From S2P Require Import Prelude CFormat UInt.
From Stdlib Require Import Strings.Byte.

(** ** fibonacci.cc *)

(** The upper triangle of a power of the matrix [[1 1; 1 0]]: the numbers
    [F(k+1)], [F(k)] and [F(k-1)] in [n2], [n1] and [n0]. *)
Record matrix := mkMatrix { n0 : limbs; n1 : limbs; n2 : limbs }.

Definition base_matrix : matrix :=
  mkMatrix (new_UnsignedInt 0) (new_UnsignedInt 1) (new_UnsignedInt 1).

(** [A := A * A], as both loops write it. *)
Definition square (t : matrix) : matrix :=
  let t3 := multiply (add (n2 t) (n0 t)) (n1 t) in
  let t0 := multiply (n0 t) (n0 t) in
  let t1 := multiply (n1 t) (n1 t) in
  let t2 := multiply (n2 t) (n2 t) in
  mkMatrix (add t0 t1) t3 (add t2 t1).

(** [N := A * N] of [fastFibonacci]. *)
Definition multiply_by (t n : matrix) : matrix :=
  let s1 := multiply (n1 n) (n0 t) in
  let s2 := add (multiply (n2 n) (n1 t)) s1 in
  let m1 := multiply (n1 n) (n1 t) in
  let m2 := add (multiply (n2 n) (n2 t)) m1 in
  let m0 := add (multiply (n0 n) (n0 t)) m1 in
  mkMatrix m0 s2 m2.

(** [while (N >>= 1)]. *)
Fixpoint fast_loop (fuel : nat) (N : Z) (t n : matrix) : matrix :=
  match fuel with
  | O => n
  | S fuel' =>
      let N := Z.shiftr N 1 in
      if N =? 0 then n
      else
        let t := square t in
        let n := if Z.rem N 2 =? 0 then n else multiply_by t n in
        fast_loop fuel' N t n
  end.

(** An [int] has 31 value bits: 31 rounds are enough. *)
Definition fastFibonacci (N : Z) : outcome (list byte) :=
  _ ← assert_ (0 <=? N);
  if N =? 0 then toDec (n0 base_matrix)
  else if 3 <=? N then
    let n := fast_loop 31 N base_matrix base_matrix in
    toDec (if Z.rem N 2 =? 0 then n0 n else n1 n)
  else toDec (n1 base_matrix).

(** [A := [1 1; 1 0] * A]. *)
Definition next_matrix (n : matrix) : matrix :=
  mkMatrix (n1 n) (n2 n) (add (n2 n) (n1 n)).

(** [while (bit <= N) bit <<= 1]. *)
Fixpoint top_bit (fuel : nat) (bit N : Z) : outcome Z :=
  match fuel with
  | O => Ok bit
  | S fuel' =>
      if bit <=? N then _ ← ints [Z.shiftl bit 1]; top_bit fuel' (Z.shiftl bit 1) N
      else Ok bit
  end.

Fixpoint faster_loop (fuel : nat) (bit N : Z) (n : matrix) : matrix :=
  match fuel with
  | O => n
  | S fuel' =>
      if 0 <? bit then
        let n := square n in
        let n := if Z.land bit N =? 0 then n else next_matrix n in
        faster_loop fuel' (Z.shiftr bit 1) N n
      else n
  end.

Definition fasterFibonacci (N : Z) : outcome (list byte) :=
  if N =? 0 then toDec (n0 base_matrix)
  else if 3 <=? N then
    bit ← top_bit 31 1 N;
    let bit := Z.shiftr bit 1 in
    _ ← assert_ (0 <? Z.land bit N);
    toDec (n1 (faster_loop 31 (Z.shiftr bit 1) N base_matrix))
  else toDec (n1 base_matrix).

(** The class [Fib]: a table of computed numbers. *)
Abbreviation cache := (gmap Z limbs).

(** [cache_[k]] inserts a zero when the key is new. *)
Definition cache_at (k : Z) (c : cache) : limbs := default [] (c !! k).

(** Each call halves [N], down to 2. *)
Fixpoint calc (fuel : nat) (N : Z) (c : cache) : outcome cache :=
  match fuel with
  | O => Fail Undefined
  | S fuel' =>
      _ ← assert_ (0 <=? N);
      match c !! N with
      | Some _ => Ok c
      | None =>
          c ← calc fuel' (N / 2) c;
          c ← calc fuel' (N / 2 + 1) c;
          if Z.odd N then
            let a := multiply (cache_at (N / 2) c) (cache_at (N / 2) c) in
            let b := multiply (cache_at (N / 2 + 1) c) (cache_at (N / 2 + 1) c) in
            Ok (<[N := add a b]> c)
          else
            c ← calc fuel' (N / 2 - 1) c;
            let a := add (cache_at (N / 2 - 1) c) (cache_at (N / 2 + 1) c) in
            Ok (<[N := multiply a (cache_at (N / 2) c)]> c)
      end
  end.

Definition new_cache : cache :=
  <[2 := new_UnsignedInt 1]> (<[1 := new_UnsignedInt 1]> (<[0 := new_UnsignedInt 0]> ∅)).

Definition fastestFibonacci (N : Z) : outcome (list byte) :=
  c ← calc (S (Z.to_nat N)) N new_cache; toDec (cache_at N c).

(** The iterator holds [fn] and [prev]. *)
Definition iter_next (i : limbs * limbs) : limbs * limbs :=
  let '(fn, prev) := i in (add prev fn, fn).

Definition linearFibonacci (N : Z) : outcome (list byte) :=
  _ ← assert_ (0 <=? N);
  let iter := Nat.iter (Z.to_nat (N - 1)) iter_next (new_UnsignedInt 1, new_UnsignedInt 0) in
  if N =? 0 then Ok (bs "0") else toDec iter.1.

(** ** factorial.cc and combination.cc *)

Definition factorial (N : Z) : outcome (list byte) :=
  toDec (foldl (fun result i => multiply_word (u32 i) result) (new_UnsignedInt 1)
           (seqZ 1 N)).

(** The loop body; [r] is converted to [int]. *)
Definition choose_step (N : Z) (result : limbs) (i : Z) : outcome limbs :=
  '(q, r) ← devide (u32 i) (multiply_word (u32 (N - i + 1)) result);
  _ ← assert_ (i32 r =? 0);
  Ok q.

Definition combination (N M : Z) : outcome limbs :=
  _ ← assert_ ((0 <=? M) && (M <=? N));
  let M := if Z.quot N 2 <? M then N - M else M in
  foldM (choose_step N) (new_UnsignedInt 1) (seqZ 1 M).

(** [main] of [combination.cc] repeats the loop and prints the result. *)
Definition combination_main (M N : Z) : outcome (list byte) :=
  r ← combination N M; toDec r.

(** ** exact.cc *)

Record Float := mkFloat { E : Z; M : Z }.

Definition Float_of_fields (exponent fraction : Z) : Float :=
  mkFloat (exponent - 1023 - 52) (Z.lor fraction 0x10000000000000).

(** [while (e < 0) { m >>= 1; ++e; }]. *)
Fixpoint shift_out (fuel : nat) (e m : Z) : Z * Z :=
  match fuel with
  | O => (e, m)
  | S fuel' => if e <? 0 then shift_out fuel' (e + 1) (Z.shiftr m 1) else (e, m)
  end.

Definition integer (f : Float) : outcome (list byte) :=
  let '(e, m) := shift_out (Z.to_nat (- E f)) (E f) (M f) in
  let lo := u32 (Z.land m 0xFFFFFFFF) in
  let hi := u32 (Z.shiftr m 32) in
  let u := new_UnsignedInt lo in
  let u := if hi =? 0 then u
           else add u (multiply_word 0x10000 (multiply_word 0x10000 (new_UnsignedInt hi))) in
  let u := if e =? 0 then u else multiply u (power (u32 e) (new_UnsignedInt 2)) in
  toDec u.

(** [while (e < 0 && (m & 1) == 0)]. *)
Fixpoint strip_zeros (fuel : nat) (e m : Z) : Z * Z :=
  match fuel with
  | O => (e, m)
  | S fuel' =>
      if (e <? 0) && negb (Z.odd m) then strip_zeros fuel' (e + 1) (Z.shiftr m 1) else (e, m)
  end.

Fixpoint fraction_loop (fuel : nat) (e m : Z) (f d : limbs) : limbs :=
  match fuel with
  | O => f
  | S fuel' =>
      if e <? 0 then
        let f := multiply_word 5 f in
        let f := if Z.odd m then add f d else f in
        fraction_loop fuel' (e + 1) (Z.shiftr m 1) f (multiply_word 10 d)
      else f
  end.

(** The digits after the point and the number of zeros before them. *)
Definition fraction (f : Float) : outcome (list byte * Z) :=
  let '(e, m) := strip_zeros (Z.to_nat (- E f)) (E f) (M f) in
  let digits := if e <? 0 then - e else 0 in
  x ← toDec (fraction_loop (Z.to_nat (- e)) e m (new_UnsignedInt 0) (new_UnsignedInt 5));
  Ok (x, if zlen x <? digits then digits - zlen x else 0).

Definition decimal (f : Float) : outcome (list byte) :=
  dec ← integer f;
  '(x, zeros) ← fraction f;
  Ok (dec ++ bs "." ++ replicate (Z.to_nat zeros) x30 ++ x).

Example decimal_examples :
  decimal (Float_of_fields 0x400 0x921fb54442d18) =
    Ok (bs "3.141592653589793115997963468544185161590576171875") /\
  decimal (Float_of_fields 0x3ff 0) = Ok (bs "1.0").
Proof. vm_compute. done. Qed.

(** ** Specification *)

Fixpoint fib (n : nat) : Z :=
  match n with
  | O => 0
  | S n' => match n' with O => 1 | S n'' => fib n' + fib n'' end
  end.

Fixpoint fact (n : nat) : Z :=
  match n with O => 1 | S n' => Z.of_nat n * fact n' end.

(** Pascal's triangle. *)
Fixpoint binom (n k : nat) : Z :=
  match n, k with
  | _, O => 1
  | O, S _ => 0
  | S n', S k' => binom n' k' + binom n' k
  end.

(** ** Lemmas: Fibonacci numbers *)

Lemma fib_SS n : fib (S (S n)) = fib (S n) + fib n.
Proof. done. Qed.

Lemma fib_add a b : fib (S (a + b)) = fib (S a) * fib (S b) + fib a * fib b.
Proof.
  assert (fib (S (a + b)) = fib (S a) * fib (S b) + fib a * fib b /\
          fib (S (S a + b)) = fib (S (S a)) * fib (S b) + fib (S a) * fib b) as [? _]; [|done].
  induction a as [|a [IH1 IH2]].
  - split; [cbn [Nat.add fib]; lia|]. cbn [Nat.add]. rewrite fib_SS. cbn [fib]. lia.
  - split; [done|]. change (S (S a) + b)%nat with (S (S a + b)). rewrite fib_SS, IH2.
    change (S a + b)%nat with (S (a + b)). rewrite IH1, !fib_SS. ring.
Qed.

(** [m] is the power [j + 1] of the matrix. *)
Definition is_fib (j : nat) (m : matrix) : Prop :=
  wf (n0 m) /\ wf (n1 m) /\ wf (n2 m) /\
  value (n0 m) = fib j /\ value (n1 m) = fib (S j) /\ value (n2 m) = fib (S (S j)).

Lemma is_fib_base : is_fib 0 base_matrix.
Proof.
  unfold base_matrix, is_fib. cbn [n0 n1 n2].
  destruct (wf_word 0 ltac:(unfold word; lia)) as [? ->].
  destruct (wf_word 1 ltac:(unfold word; lia)) as [? ->]. done.
Qed.

(** Introduce the facts about the sums and products of the goal. *)
Ltac uint_ops := repeat match goal with
  | Ha : wf ?a |- context [multiply ?a ?a] =>
      let H := fresh in let V := fresh "V" in
      destruct (wf_multiply a a Ha Ha) as [H V]; set (multiply a a) in *
  | Ha : wf ?a, Hb : wf ?b |- context [multiply ?a ?b] =>
      let H := fresh in let V := fresh "V" in
      destruct (wf_multiply a b Ha Hb) as [H V]; set (multiply a b) in *
  | Ha : wf ?a, Hb : wf ?b |- context [add ?a ?b] =>
      let H := fresh in let V := fresh "V" in
      destruct (wf_add a b Ha Hb) as [H V]; set (add a b) in *
  end.

Lemma is_fib_square j m : is_fib j m -> is_fib (S (2 * j)) (square m).
Proof.
  intros (H0 & H1 & H2 & V0 & V1 & V2). unfold is_fib, square. cbn [n0 n1 n2]. uint_ops.
  split; [done|]. split; [done|]. split; [done|].
  rewrite !fib_SS in *. pose proof (fib_add j j) as E1. pose proof (fib_add (S j) j) as E2.
  replace (2 * j)%nat with (j + j)%nat by lia.
  change (S j + j)%nat with (S (j + j)) in E2. rewrite !fib_SS in E2.
  split; [nia|]. split; [nia|]. nia.
Qed.

Lemma is_fib_multiply i j t m : is_fib i t -> is_fib j m -> is_fib (S (i + j)) (multiply_by t m).
Proof.
  intros (H0 & H1 & H2 & V0 & V1 & V2) (K0 & K1 & K2 & W0 & W1 & W2).
  unfold is_fib, multiply_by. cbn [n0 n1 n2]. uint_ops.
  split; [done|]. split; [done|]. split; [done|].
  rewrite !fib_SS in *. pose proof (fib_add i j) as E1. pose proof (fib_add i (S j)) as E2.
  replace (i + S j)%nat with (S (i + j)) in E2 by lia. rewrite !fib_SS in E2.
  split; [nia|]. split; [nia|]. nia.
Qed.

Lemma is_fib_next j m : is_fib j m -> is_fib (S j) (next_matrix m).
Proof.
  intros (H0 & H1 & H2 & V0 & V1 & V2). unfold is_fib, next_matrix. cbn [n0 n1 n2]. uint_ops.
  repeat (split; [done|]). rewrite (fib_SS (S j)). lia.
Qed.

(** ** Lemmas: the loops *)

Lemma fast_loop_spec fuel N t n i j :
  is_fib i t -> is_fib j n -> 0 <= N < 2 ^ Z.of_nat fuel ->
  is_fib (j + S i * Z.to_nat (N - N mod 2)) (fast_loop fuel N t n).
Proof.
  revert N t n i j. induction fuel as [|fuel IH]; intros N t n i j Ht Hn HN.
  { simpl in HN. assert (N = 0) as -> by lia. cbn [fast_loop].
    change (Z.to_nat (0 - 0 mod 2)) with 0%nat. rewrite Nat.mul_0_r, Nat.add_0_r. done. }
  rewrite Nat2Z.inj_succ, Z.pow_succ_r in HN by lia. cbn [fast_loop].
  rewrite Z.shiftr_div_pow2 by lia. change (2 ^ 1) with 2.
  destruct (Z.eqb_spec (N / 2) 0) as [E|E].
  { replace (N - N mod 2) with 0 by dlia. rewrite Nat.mul_0_r, Nat.add_0_r. done. }
  pose proof (is_fib_square i t Ht) as Ht'. rewrite Z.rem_mod_nonneg by dlia.
  destruct (Z.eqb_spec ((N / 2) mod 2) 0) as [Ev|Od].
  - pose proof (IH (N / 2) (square t) n _ j Ht' Hn ltac:(dlia)) as Hl.
    replace (j + S i * Z.to_nat (N - N mod 2))%nat with (j + S (S (2 * i)) * Z.to_nat (N / 2 - (N / 2) mod 2))%nat; [done|].
    f_equal. rewrite Ev. assert (Z.to_nat (N - N mod 2) = (2 * Z.to_nat (N / 2 - 0))%nat) as -> by dlia. lia.
  - pose proof (is_fib_multiply _ _ _ _ Ht' Hn) as Hn'.
    pose proof (IH (N / 2) (square t) (multiply_by (square t) n) _ _ Ht' Hn' ltac:(dlia)) as Hl.
    replace (j + S i * Z.to_nat (N - N mod 2))%nat with (S (S (2 * i) + j) + S (S (2 * i)) * Z.to_nat (N / 2 - (N / 2) mod 2))%nat; [done|].
    assert (Z.to_nat (N - N mod 2) = (2 * (1 + Z.to_nat (N / 2 - (N / 2) mod 2)))%nat) as -> by dlia. lia.
Qed.

Lemma top_bit_spec fuel j N :
  0 <= j -> j + Z.of_nat fuel = 31 -> 2 ^ j <= 2 * N -> 0 < N < 2 ^ 30 ->
  exists k, top_bit fuel (2 ^ j) N = Ok (2 ^ k) /\ 0 <= k <= 30 /\ N < 2 ^ k <= 2 * N.
Proof.
  revert j. induction fuel as [|fuel IH]; intros j Hj Hf Hle HN.
  { exfalso. assert (j = 31) as -> by lia. simpl in Hle. lia. }
  cbn [top_bit]. destruct (Z.leb_spec (2 ^ j) N) as [Hb|Hb].
  - rewrite Z.shiftl_mul_pow2 by lia. change (2 ^ 1) with 2.
    assert (2 ^ j * 2 = 2 ^ (j + 1)) as Hs by (rewrite Z.pow_add_r by lia; done).
    assert (0 < 2 ^ j) by (apply Z.pow_pos_nonneg; lia).
    rewrite ints_ok by (constructor; [lia|constructor]). simpl. rewrite Hs.
    apply IH; lia.
  - exists j. split; [done|]. split; [|lia]. split; [done|].
    destruct (decide (j <= 30)); [done|]. assert (2 ^ 31 <= 2 ^ j) by (apply Z.pow_le_mono_r; lia). lia.
Qed.

(** The remaining bits of [N], from bit [j] down. *)
Lemma faster_loop_spec fuel j N n :
  - 1 <= j -> j < Z.of_nat fuel -> 0 <= N -> 1 <= N / 2 ^ (j + 1) ->
  is_fib (Z.to_nat (N / 2 ^ (j + 1) - 1)) n ->
  is_fib (Z.to_nat (N - 1)) (faster_loop fuel (if j <? 0 then 0 else 2 ^ j) N n).
Proof.
  revert j n. induction fuel as [|fuel IH]; intros j n Hj Hf HN Hk Hn.
  { assert (j = -1) as -> by lia. change (2 ^ (-1 + 1)) with 1 in Hn. rewrite Z.div_1_r in Hn. done. }
  destruct (Z.ltb_spec j 0) as [Hneg|Hpos].
  { assert (j = -1) as -> by lia. change (2 ^ (-1 + 1)) with 1 in Hn. rewrite Z.div_1_r in Hn. done. }
  cbn [faster_loop]. assert (0 < 2 ^ j) by (apply Z.pow_pos_nonneg; lia).
  rewrite (proj2 (Z.ltb_lt 0 _)) by done.
  set (k := N / 2 ^ (j + 1)) in *.
  assert (N / 2 ^ j = 2 * k + (if Z.testbit N j then 1 else 0)) as Hstep.
  { unfold k. rewrite Z.pow_add_r, <- Z.div_div by lia. change (2 ^ 1) with 2.
    change (if Z.testbit N j then 1 else 0) with (Z.b2z (Z.testbit N j)).
    rewrite Z.testbit_spec' by done. rewrite <- Z.div_mod by lia. done. }
  set (n' := if Z.land (2 ^ j) N =? 0 then square n else next_matrix (square n)).
  assert (is_fib (Z.to_nat (N / 2 ^ j - 1)) n') as Hn'.
  { pose proof (is_fib_square _ _ Hn) as Hs.
    assert ((Z.land (2 ^ j) N =? 0) = negb (Z.testbit N j)) as Hb.
    { rewrite Z.land_comm. pose proof (land_pow2_testbit N j Hpos) as Hh. exact Hh. }
    unfold n'. rewrite Hb, Hstep. destruct (Z.testbit N j); simpl.
    - replace (Z.to_nat (2 * k + 1 - 1)) with (S (S (2 * Z.to_nat (k - 1)))) by lia. by apply is_fib_next.
    - replace (Z.to_nat (2 * k + 0 - 1)) with (S (2 * Z.to_nat (k - 1))) by lia. done. }
  replace (Z.shiftr (2 ^ j) 1) with (if j - 1 <? 0 then 0 else 2 ^ (j - 1)).
  2:{ rewrite Z.shiftr_div_pow2 by lia. destruct (Z.ltb_spec (j - 1) 0).
      - assert (j = 0) as -> by lia. done.
      - replace j with (j - 1 + 1) at 2 by lia. rewrite Z.pow_add_r, Z.div_mul by lia. done. }
  apply IH; [lia|lia|done| |]; replace (j - 1 + 1) with j by lia; [|exact Hn'].
  rewrite Hstep. destruct (Z.testbit N j); lia.
Qed.

Lemma toDec_value l v : wf l -> value l = v -> toDec l = Ok (udec v).
Proof. intros Hl <-. by apply toDec_spec. Qed.

Lemma fastFibonacci_spec N :
  0 <= N < 2 ^ 31 -> fastFibonacci N = Ok (udec (fib (Z.to_nat N))).
Proof.
  intros HN. unfold fastFibonacci. rewrite (proj2 (Z.leb_le 0 N)) by lia. cbn [assert_ mbind outcome_bind].
  destruct is_fib_base as (W0 & W1 & _ & V0 & V1 & _).
  destruct (Z.eqb_spec N 0) as [->|H0]; [by apply toDec_value|].
  destruct (Z.leb_spec 3 N) as [H3|H3].
  - pose proof (fast_loop_spec 31 N _ _ 0 0 is_fib_base is_fib_base ltac:(simpl; lia)) as Hl.
    cbn [Nat.add Nat.mul] in Hl. rewrite Nat.add_0_r in Hl. destruct Hl as (L0 & L1 & _ & E0 & E1 & _).
    rewrite Z.rem_mod_nonneg by lia. destruct (Z.eqb_spec (N mod 2) 0) as [Em|Em].
    + apply toDec_value; [done|]. rewrite E0, Em. f_equal. f_equal. lia.
    + apply toDec_value; [done|]. rewrite E1. f_equal. assert (N mod 2 = 1) as -> by dlia. lia.
  - assert (N = 1 \/ N = 2) as [-> | ->] by lia; by apply toDec_value.
Qed.

Lemma fasterFibonacci_spec N :
  0 <= N < 2 ^ 30 -> fasterFibonacci N = Ok (udec (fib (Z.to_nat N))).
Proof.
  intros HN. unfold fasterFibonacci. destruct is_fib_base as (W0 & W1 & _ & V0 & V1 & _).
  destruct (Z.eqb_spec N 0) as [->|H0]; [by apply toDec_value|].
  destruct (Z.leb_spec 3 N) as [H3|H3].
  - destruct (top_bit_spec 31 0 N) as (k & Et & Hk & Hkn); [lia|lia|change (2 ^ 0) with 1; lia|lia|].
    change (2 ^ 0) with 1 in Et. rewrite Et.
    cbn [mbind outcome_bind].
    assert (2 <= k) as Hk2.
    { destruct (decide (2 <= k)) as [|Hlt]; [done|exfalso].
      assert (2 ^ k <= 2 ^ 1) by (apply Z.pow_le_mono_r; lia). lia. }
    assert (Z.shiftr (2 ^ k) 1 = 2 ^ (k - 1)) as ->.
    { rewrite Z.shiftr_div_pow2 by lia. replace k with (k - 1 + 1) at 1 by lia.
      rewrite Z.pow_add_r, Z.div_mul by lia. done. }
    assert (2 * 2 ^ (k - 1) = 2 ^ k) as Hp by (rewrite <- Z.pow_succ_r by lia; f_equal; lia).
    assert (0 < 2 ^ (k - 1)) by (apply Z.pow_pos_nonneg; lia).
    assert (N / 2 ^ (k - 1) = 1) as Htop by (symmetry; apply (Z.div_unique_pos _ _ _ (N - 2 ^ (k - 1))); lia).
    assert (Z.testbit N (k - 1) = true) as Hbit.
    { apply Z.b2z_inj. rewrite Z.testbit_spec' by lia. by rewrite Htop. }
    assert (0 < Z.land (2 ^ (k - 1)) N) as Hland.
    { rewrite Z.land_comm. pose proof (land_pow2_testbit N (k - 1) ltac:(lia)) as Hl. rewrite Hbit in Hl.
      bool_facts. assert (0 <= Z.land N (2 ^ (k - 1))) by (apply Z.land_nonneg; lia). lia. }
    rewrite (proj2 (Z.ltb_lt _ _)) by done. cbn [assert_ mbind outcome_bind].
    assert (Z.shiftr (2 ^ (k - 1)) 1 = if k - 2 <? 0 then 0 else 2 ^ (k - 2)) as ->.
    { rewrite (proj2 (Z.ltb_ge _ _)) by lia. rewrite Z.shiftr_div_pow2 by lia.
      replace (k - 1) with (k - 2 + 1) by lia. rewrite Z.pow_add_r, Z.div_mul by lia. done. }
    pose proof (faster_loop_spec 31 (k - 2) N base_matrix) as Hl.
    replace (k - 2 + 1) with (k - 1) in Hl by lia. rewrite Htop in Hl.
    destruct (Hl ltac:(lia) ltac:(lia) ltac:(lia) ltac:(lia) is_fib_base) as (_ & L1 & _ & _ & E1 & _).
    apply toDec_value; [done|]. rewrite E1. f_equal. lia.
  - assert (N = 1 \/ N = 2) as [-> | ->] by lia; by apply toDec_value.
Qed.

(** The table of [Fib] holds Fibonacci numbers, and 0, 1 and 2. *)
Record cache_ok (c : cache) : Prop := {
  cache_value : forall k l, c !! k = Some l -> 0 <= k /\ wf l /\ value l = fib (Z.to_nat k);
  cache_small : forall k, 0 <= k <= 2 -> is_Some (c !! k);
}.

Lemma cache_at_ok c k :
  cache_ok c -> is_Some (c !! k) -> wf (cache_at k c) /\ value (cache_at k c) = fib (Z.to_nat k).
Proof.
  intros Hc [l E]. unfold cache_at. rewrite E. simpl. by apply (cache_value c Hc k l).
Qed.

Lemma cache_insert c N l :
  cache_ok c -> 0 <= N -> wf l -> value l = fib (Z.to_nat N) -> cache_ok (<[N := l]> c).
Proof.
  intros Hc HN Hl Hv. split.
  - intros k l' E. apply lookup_insert_Some in E as [[<- <-]|[_ E]]; [done|]. by apply Hc.
  - intros k Hk. apply lookup_insert_is_Some. destruct (decide (N = k)); [by left|right].
    split; [done|]. by apply Hc.
Qed.

(** Double-index formulas. *)
Lemma fib_double k : 1 <= k ->
  fib (Z.to_nat (2 * k)) = (fib (Z.to_nat (k - 1)) + fib (Z.to_nat (k + 1))) * fib (Z.to_nat k) /\
  fib (Z.to_nat (2 * k + 1)) = fib (Z.to_nat k) * fib (Z.to_nat k) + fib (Z.to_nat (k + 1)) * fib (Z.to_nat (k + 1)).
Proof.
  intros Hk. set (j := Z.to_nat (k - 1)).
  replace (Z.to_nat k) with (S j) by lia. replace (Z.to_nat (k + 1)) with (S (S j)) by lia.
  replace (Z.to_nat (2 * k)) with (S (S j + j)) by lia. replace (Z.to_nat (2 * k + 1)) with (S (S j + S j)) by lia.
  rewrite !fib_add, !fib_SS. split; ring.
Qed.

Lemma calc_spec fuel N c :
  cache_ok c -> 0 <= N -> N < Z.of_nat fuel ->
  exists c', calc fuel N c = Ok c' /\ cache_ok c' /\ is_Some (c' !! N) /\
    (forall k, is_Some (c !! k) -> is_Some (c' !! k)).
Proof.
  revert N c. induction fuel as [|fuel IH]; intros N c Hc HN Hf; [lia|]. cbn [calc].
  rewrite (proj2 (Z.leb_le 0 N)) by done. cbn [assert_ mbind outcome_bind].
  destruct (c !! N) as [l|] eqn:E; [exists c; eauto|].
  assert (3 <= N) as H3.
  { destruct (decide (3 <= N)) as [|Hlt]; [done|]. destruct (cache_small c Hc N ltac:(lia)); congruence. }
  destruct (IH (N / 2) c Hc) as (c1 & -> & Hc1 & S1 & Sub1); [dlia|dlia|]. cbn [mbind outcome_bind].
  destruct (IH (N / 2 + 1) c1 Hc1) as (c2 & -> & Hc2 & S2 & Sub2); [dlia|dlia|]. cbn [mbind outcome_bind].
  destruct (fib_double (N / 2)) as [Hd0 Hd1]; [dlia|].
  assert (forall (c3 : cache) l, (forall k, is_Some (c2 !! k) -> is_Some (c3 !! k)) ->
    forall k, is_Some (c !! k) -> is_Some (<[N := l]> c3 !! k)) as Hmono.
  { intros c3 l Hs k Hk. apply lookup_insert_is_Some'. right. auto. }
  destruct (cache_at_ok c2 _ Hc2 S2) as [Wb Vb]. destruct (cache_at_ok c2 _ Hc2 (Sub2 _ S1)) as [Wa Va].
  assert (N = 2 * (N / 2) + Z.b2z (Z.odd N)) as HN2 by (pose proof (Zmod_odd N) as Ho; destruct (Z.odd N); simpl; dlia).
  destruct (Z.odd N); simpl in HN2.
  - uint_ops. eexists. split; [done|]. split; [|split; [rewrite lookup_insert_eq; eauto|by apply Hmono]].
    apply cache_insert; [done|done|done|]. rewrite HN2, Hd1. nia.
  - destruct (IH (N / 2 - 1) c2 Hc2) as (c3 & -> & Hc3 & S3 & Sub3); [dlia|dlia|]. cbn [mbind outcome_bind].
    destruct (cache_at_ok c3 _ Hc3 S3) as [Wz Vz].
    destruct (cache_at_ok c3 _ Hc3 (Sub3 _ S2)) as [Wb3 Vb3].
    destruct (cache_at_ok c3 _ Hc3 (Sub3 _ (Sub2 _ S1))) as [Wa3 Va3]. uint_ops.
    eexists. split; [done|]. split; [|split; [rewrite lookup_insert_eq; eauto|by apply Hmono]].
    apply cache_insert; [done|done|done|]. rewrite HN2, Z.add_0_r, Hd0. nia.
Qed.

Lemma new_cache_ok : cache_ok new_cache.
Proof.
  split.
  - intros k l E. unfold new_cache in E. destruct (wf_word 0 ltac:(unfold word; lia)) as [W0 V0].
    destruct (wf_word 1 ltac:(unfold word; lia)) as [W1 V1].
    repeat (apply lookup_insert_Some in E as [[<- <-]|[_ E]];
      [split; [lia|]; split; [done|]; rewrite ?V0, ?V1; done|]). by rewrite lookup_empty in E.
  - intros k Hk. assert (k = 0 \/ k = 1 \/ k = 2) as [->|[->| ->]] by lia; by eexists.
Qed.

Lemma fastestFibonacci_spec N :
  0 <= N -> fastestFibonacci N = Ok (udec (fib (Z.to_nat N))).
Proof.
  intros HN. unfold fastestFibonacci.
  destruct (calc_spec (S (Z.to_nat N)) N new_cache new_cache_ok) as (c & -> & Hc & Hs & _); [done|lia|].
  simpl. destruct (cache_at_ok c N Hc Hs) as [? ?]. by apply toDec_value.
Qed.

Lemma linearFibonacci_spec N :
  0 <= N -> linearFibonacci N = Ok (udec (fib (Z.to_nat N))).
Proof.
  intros HN. unfold linearFibonacci. rewrite (proj2 (Z.leb_le 0 N)) by done. cbn [assert_ mbind outcome_bind].
  destruct (Z.eqb_spec N 0) as [->|]; [done|].
  set (i := Nat.iter _ _ _).
  assert (wf i.1 /\ wf i.2 /\ value i.1 = fib (S (Z.to_nat (N - 1))) /\ value i.2 = fib (Z.to_nat (N - 1)))
    as (W1 & _ & V1 & _).
  { unfold i. generalize (Z.to_nat (N - 1)). intros p. induction p as [|p IH].
    - destruct is_fib_base as (? & ? & ? & ? & ? & ?). done.
    - rewrite Nat.iter_succ. destruct (Nat.iter p _ _) as [fn prev]. cbn [fst snd] in IH.
      destruct IH as (Wf & Wp & Vf & Vp). unfold iter_next. cbn [fst snd]. uint_ops.
      rewrite fib_SS. split; [done|]. split; [done|]. split; [lia|done]. }
  apply toDec_value; [done|]. rewrite V1. f_equal. lia.
Qed.

(** ** Lemmas: factorials and binomials *)

Lemma wf_devide l x : wf l -> 0 < x < 2 ^ 32 ->
  exists q, devide x l = Ok (q, value l mod x) /\ wf q /\ value q = value l / x.
Proof.
  intros [Hw Hn] Hx. destruct (devide_spec x l) as (q & ? & ? & ? & ?);
    [done|done|unfold word; lia|lia|]. exists q. by split; [|split; [split|]].
Qed.

Lemma fact_loop_spec n :
  Z.of_nat n < 2 ^ 31 ->
  let r := foldl (fun result i => multiply_word (u32 i) result) (new_UnsignedInt 1) (seqZ 1 (Z.of_nat n)) in
  wf r /\ value r = fact n.
Proof.
  induction n as [|n IH]; intros Hn.
  { apply (wf_word 1). unfold word. lia. }
  rewrite seqZ_S. rewrite foldl_app. cbn [foldl].
  destruct (IH ltac:(lia)) as [Hw Hv]. set (r := foldl _ _ _) in *.
  rewrite wrapu_small by lia.
  destruct (wf_multiply_word r (1 + Z.of_nat n) Hw ltac:(unfold word; lia)) as [Hwm Hvm].
  split; [done|]. rewrite Hvm, Hv. cbn [fact]. lia.
Qed.

Lemma binom_over n k : (n < k)%nat -> binom n k = 0.
Proof.
  revert k. induction n as [|n IH]; intros k Hk; (destruct k as [|k]; [lia|]); cbn [binom]; [done|].
  rewrite !IH by lia. done.
Qed.

Lemma binom_0 n : binom n 0 = 1.
Proof. by destruct n. Qed.

Lemma binom_full n : binom n n = 1.
Proof. induction n as [|n IH]; [done|]. cbn [binom]. rewrite IH, binom_over by lia. done. Qed.

(** Absorption: each round of the loop is exact. *)
Lemma binom_absorb n k :
  (k <= n)%nat -> binom n (S k) * (Z.of_nat k + 1) = binom n k * (Z.of_nat n - Z.of_nat k).
Proof.
  revert k. induction n as [|n IH]; intros k Hk.
  { assert (k = 0%nat) as -> by lia. done. }
  cbn [binom]. destruct k as [|k].
  - rewrite binom_0. destruct (decide (n = 0%nat)) as [->|]; [done|].
    pose proof (IH 0%nat ltac:(lia)) as E. rewrite binom_0 in E. simpl in *. lia.
  - destruct (decide (S k <= n)%nat).
    + pose proof (IH k ltac:(lia)) as E1. pose proof (IH (S k) ltac:(lia)) as E2.
      cbn [binom]. set (a := binom n k) in *. set (b := binom n (S k)) in *. set (c := binom n (S (S k))) in *.
      clearbody a b c. rewrite !Nat2Z.inj_succ in *. nia.
    + assert (k = n) as -> by lia. rewrite !binom_over by lia. lia.
Qed.

Lemma binom_sym n k : (k <= n)%nat -> binom n k = binom n (n - k).
Proof.
  revert k. induction n as [|n IH]; intros k Hk; [by assert (k = 0%nat) as -> by lia|].
  destruct k as [|k]; [rewrite Nat.sub_0_r, binom_full, binom_0; done|].
  destruct (decide (k = n)) as [->|]; [rewrite Nat.sub_diag, binom_full, binom_0; done|].
  replace (S n - S k)%nat with (S (n - S k))%nat by lia. cbn [binom].
  rewrite (IH k), (IH (S k)) by lia. replace (n - k)%nat with (S (n - S k)) by lia. lia.
Qed.

Lemma choose_loop_spec n k :
  (k <= n)%nat -> Z.of_nat n < 2 ^ 31 ->
  exists r, foldM (choose_step (Z.of_nat n)) (new_UnsignedInt 1) (seqZ 1 (Z.of_nat k)) = Ok r /\
    wf r /\ value r = binom n k.
Proof.
  induction k as [|k IH]; intros Hk Hn.
  { exists (new_UnsignedInt 1). rewrite binom_0. split; [done|]. apply wf_word. unfold word. lia. }
  destruct (IH ltac:(lia) Hn) as (r & E & Hw & Hv). rewrite seqZ_S.
  rewrite foldM_app, E. cbn [mbind outcome_bind foldM]. unfold choose_step.
  rewrite !(wrapu_small 32) by lia.
  destruct (wf_multiply_word r (Z.of_nat n - (1 + Z.of_nat k) + 1) Hw ltac:(unfold word; lia)) as [Hwm Hvm].
  destruct (wf_devide _ (1 + Z.of_nat k) Hwm ltac:(lia)) as (q & -> & Hwq & Hvq).
  cbn [mbind outcome_bind]. pose proof (binom_absorb n k ltac:(lia)) as Ha.
  assert (value (multiply_word (Z.of_nat n - (1 + Z.of_nat k) + 1) r) = binom n (S k) * (1 + Z.of_nat k)) as Hval.
  { rewrite Hvm, Hv. lia. }
  rewrite Hval, Z.mod_mul by lia. rewrite Hval, Z.div_mul in Hvq by lia.
  cbn [assert_ mbind outcome_bind]. change (i32 0 =? 0) with true. simpl. eauto.
Qed.

(** ** Lemmas: binary fractions *)

Lemma shift_out_spec n e m :
  e <= 0 -> Z.of_nat n = - e -> 0 <= m -> shift_out n e m = (0, m / 2 ^ (- e)).
Proof.
  revert e m. induction n as [|n IH]; intros e m He Hn Hm; cbn [shift_out].
  { assert (e = 0) as -> by lia. by rewrite Z.div_1_r. }
  rewrite (proj2 (Z.ltb_lt _ _)) by lia. rewrite Z.shiftr_div_pow2 by lia.
  rewrite IH; [|lia|lia|apply Z.div_pos; lia]. rewrite Z.div_div by (try apply Z.pow_pos_nonneg; lia).
  do 2 f_equal. rewrite <- Z.pow_add_r by lia. f_equal. lia.
Qed.

Lemma shift_out_pos n e m : 0 <= e -> shift_out n e m = (e, m).
Proof. intros. destruct n; cbn [shift_out]; [done|]. by rewrite (proj2 (Z.ltb_ge _ _)). Qed.

Lemma strip_zeros_spec n e m :
  0 <= m -> exists j, 0 <= j /\ j <= Z.max 0 (- e) /\
    strip_zeros n e m = (e + j, m / 2 ^ j) /\ m = 2 ^ j * (m / 2 ^ j).
Proof.
  revert e m. induction n as [|n IH]; intros e m Hm; cbn [strip_zeros].
  { exists 0. rewrite Z.div_1_r, Z.add_0_r. split; [lia|]. split; [lia|]. split; [done|lia]. }
  destruct (Z.ltb_spec e 0) as [He|He]; cbn [andb].
  2:{ exists 0. rewrite Z.div_1_r, Z.add_0_r. split; [lia|]. split; [lia|]. split; [done|lia]. }
  pose proof (Zmod_odd m) as Ho. destruct (Z.odd m); cbn [negb].
  { exists 0. rewrite Z.div_1_r, Z.add_0_r. split; [lia|]. split; [lia|]. split; [done|lia]. }
  rewrite Z.shiftr_div_pow2 by lia. change (2 ^ 1) with 2.
  destruct (IH (e + 1) (m / 2)) as (j & Hj & Hje & -> & Hdiv); [dlia|].
  exists (j + 1). assert (2 ^ (j + 1) = 2 * 2 ^ j) as Hp by (rewrite Z.pow_add_r by lia; lia).
  assert (0 < 2 ^ j) by (apply Z.pow_pos_nonneg; lia).
  rewrite Z.div_div in Hdiv |- * by lia. rewrite Hp.
  split; [lia|]. split; [lia|]. split; [f_equal; lia|]. rewrite <- Z.mul_assoc, <- Hdiv. dlia.
Qed.

(** The loop turns the low [n] bits of [m] into a decimal fraction. *)
Lemma fraction_loop_spec n m f d k :
  wf f -> wf d -> 0 <= m -> value d = 5 * 10 ^ Z.of_nat k ->
  let r := fraction_loop n (- Z.of_nat n) m f d in
  wf r /\ 2 ^ Z.of_nat n * value r = 10 ^ Z.of_nat n * (value f + 10 ^ Z.of_nat k * (m mod 2 ^ Z.of_nat n)).
Proof.
  revert m f d k. induction n as [|n IH]; intros m f d k Hf Hd Hm Hv; cbn [fraction_loop].
  { change (2 ^ Z.of_nat 0) with 1. change (10 ^ Z.of_nat 0) with 1. rewrite Z.mod_1_r. split; [done|lia]. }
  rewrite (proj2 (Z.ltb_lt _ _)) by lia. rewrite Z.shiftr_div_pow2 by lia. change (2 ^ 1) with 2.
  destruct (wf_multiply_word f 5 Hf ltac:(unfold word; lia)) as [Wf Vf].
  destruct (wf_multiply_word d 10 Hd ltac:(unfold word; lia)) as [Wd Vd].
  set (f' := if Z.odd m then _ else _).
  assert (wf f' /\ value f' = 5 * value f + 5 * 10 ^ Z.of_nat k * (m mod 2)) as [Wf' Vf'].
  { unfold f'. rewrite Zmod_odd. destruct (Z.odd m); [|split; [done|lia]].
    destruct (wf_add _ _ Wf Hd) as [? ->]. split; [done|]. lia. }
  replace (- Z.of_nat (S n) + 1) with (- Z.of_nat n) by lia.
  assert (value (multiply_word 10 d) = 5 * 10 ^ Z.of_nat (S k)) as Vd'.
  { rewrite Vd, Hv, Nat2Z.inj_succ, Z.pow_succ_r by lia. lia. }
  destruct (IH (m / 2) f' (multiply_word 10 d) (S k) Wf' Wd ltac:(dlia) Vd') as [Hw Hr].
  split; [done|]. rewrite (Nat2Z.inj_succ n), !Z.pow_succ_r by lia.
  rewrite Nat2Z.inj_succ, Z.pow_succ_r in Hr by lia.
  assert (m mod (2 * 2 ^ Z.of_nat n) = m mod 2 + 2 * ((m / 2) mod 2 ^ Z.of_nat n)) as ->.
  { rewrite Z.rem_mul_r by (try apply Z.pow_nonzero; lia). lia. }
  rewrite <- Z.mul_assoc, Hr, Vf'. ring.
Qed.

(** A 64-bit number from its halves. *)
Lemma halves_spec m :
  0 <= m < 2 ^ 64 ->
  let lo := u32 (Z.land m 0xFFFFFFFF) in
  let hi := u32 (Z.shiftr m 32) in
  let u := if hi =? 0 then new_UnsignedInt lo
           else add (new_UnsignedInt lo) (multiply_word 0x10000 (multiply_word 0x10000 (new_UnsignedInt hi))) in
  wf u /\ value u = m.
Proof.
  intros Hm. cbv zeta. assert (u32 (Z.land m 0xFFFFFFFF) = m mod 2 ^ 32) as ->.
  { pose proof (low32_mod m) as E. unfold kMask_ in E. rewrite E. unfold wrapu. apply Zmod_mod. }
  assert (u32 (Z.shiftr m 32) = m / 2 ^ 32) as ->.
  { rewrite Z.shiftr_div_pow2 by lia. apply wrapu_small. dlia. }
  destruct (wf_word (m mod 2 ^ 32)) as [Wl Vl]; [unfold word; dlia|].
  destruct (wf_word (m / 2 ^ 32)) as [Wh Vh]; [unfold word; dlia|].
  destruct (Z.eqb_spec (m / 2 ^ 32) 0) as [E0|].
  - split; [done|]. rewrite Vl. dlia.
  - destruct (wf_multiply_word _ 0x10000 Wh ltac:(unfold word; lia)) as [W1 V1].
    destruct (wf_multiply_word _ 0x10000 W1 ltac:(unfold word; lia)) as [W2 V2].
    destruct (wf_add _ _ Wl W2) as [W3 V3]. split; [done|]. rewrite V3, V2, V1, Vl, Vh. dlia.
Qed.

(** [integer] prints the integral part. *)
Lemma integer_spec f :
  0 <= M f < 2 ^ 64 -> E f < 2 ^ 32 ->
  integer f = Ok (udec (if E f <? 0 then M f / 2 ^ (- E f) else M f * 2 ^ E f)).
Proof.
  intros HM HE. unfold integer.
  destruct (Z.ltb_spec (E f) 0) as [Hneg|Hpos].
  - rewrite shift_out_spec by lia. set (m := M f / 2 ^ (- E f)).
    assert (0 <= m < 2 ^ 64) as Hm.
    { pose proof (Z.pow_pos_nonneg 2 (- E f) ltac:(lia) ltac:(lia)). unfold m.
      split; [apply Z.div_pos; lia|]. apply Z.div_lt_upper_bound; [lia|]. nia. }
    destruct (halves_spec m Hm) as [W V]. cbv zeta in *. rewrite Z.eqb_refl. by apply toDec_value.
  - rewrite shift_out_pos by done. destruct (halves_spec (M f) HM) as [W V]. cbv zeta in *.
    destruct (Z.eqb_spec (E f) 0) as [->|Hne].
    + apply toDec_value; [done|]. rewrite V. lia.
    + rewrite (wrapu_small 32 (E f)) by lia.
      destruct (wf_word 2 ltac:(unfold word; lia)) as [W2 V2].
      destruct (power_spec (E f) (new_UnsignedInt 2) W2 ltac:(unfold word; lia)) as [Wp Vp].
      destruct (wf_multiply _ _ W Wp) as [Wm Vm]. apply toDec_value; [done|].
      by rewrite Vm, V, Vp, V2.
Qed.

(** [fraction] gives the digits of the fractional part. *)
Lemma fraction_spec f :
  0 <= M f ->
  exists x zeros, fraction f = Ok (x, zeros) /\ Forall is_digit x /\ 0 <= zeros /\
    let L := zeros + zlen x in
    2 ^ Z.max 0 (- E f) * dec_value x = 10 ^ L * (M f mod 2 ^ Z.max 0 (- E f)).
Proof.
  intros HM. unfold fraction.
  destruct (strip_zeros_spec (Z.to_nat (- E f)) (E f) (M f) HM) as (j & Hj & Hje & -> & Hdiv).
  set (m := M f / 2 ^ j) in *. set (e := E f + j) in *.
  assert (0 < 2 ^ j) by (apply Z.pow_pos_nonneg; lia). assert (0 <= m) by (unfold m; apply Z.div_pos; lia).
  destruct (wf_word 0 ltac:(unfold word; lia)) as [W0 V0].
  destruct (wf_word 5 ltac:(unfold word; lia)) as [W5 V5].
  destruct (Z.ltb_spec e 0) as [He|He].
  - destruct (fraction_loop_spec (Z.to_nat (- e)) m _ _ 0 W0 W5 ltac:(assumption) ltac:(by rewrite V5)) as [Wr Vr].
    rewrite Z2Nat.id in Wr, Vr by lia. rewrite Z.opp_involutive in Wr, Vr.
    set (r := fraction_loop _ _ _ _ _) in *. rewrite toDec_spec by done. cbn [mbind outcome_bind].
    change (10 ^ Z.of_nat 0) with 1 in Vr. rewrite V0 in Vr.
    pose proof (value_nonneg r (proj1 Wr)) as Hr0.
    assert (0 < 2 ^ (- e)) by (apply Z.pow_pos_nonneg; lia). assert (0 < 10 ^ (- e)) by (apply Z.pow_pos_nonneg; lia).
    pose proof (Z.mod_pos_bound m (2 ^ (- e)) ltac:(assumption)) as Hmb.
    assert (value r < 10 ^ (- e)) as Hr1 by nia.
    assert (zlen (udec (value r)) <= - e) as Hlen.
    { pose proof (udec_length (value r) (Z.to_nat (- e))) as Hl. rewrite Z2Nat.id in Hl by lia. unfold zlen. lia. }
    eexists _, _. split; [done|]. split; [by apply udec_digits|].
    assert ((if zlen (udec (value r)) <? - e then - e - zlen (udec (value r)) else 0) + zlen (udec (value r)) = - e) as HL
      by (destruct (Z.ltb_spec (zlen (udec (value r))) (- e)); lia).
    split; [destruct (Z.ltb_spec (zlen (udec (value r))) (- e)); lia|]. cbv zeta. rewrite HL, udec_value by done.
    replace (Z.max 0 (- E f)) with (j + - e) by lia. rewrite Z.pow_add_r by lia. rewrite Hdiv.
    rewrite Z.mul_mod_distr_l by lia. rewrite <- Z.mul_assoc, Vr. ring.
  - assert (Z.to_nat (- e) = 0%nat) as -> by lia. cbn [fraction_loop].
    rewrite (toDec_value _ 0) by done. cbn [mbind outcome_bind]. exists (udec 0), 0. split; [done|].
    split; [by apply udec_digits|]. split; [done|]. cbv zeta. change (dec_value (udec 0)) with 0.
    replace (Z.max 0 (- E f)) with j by lia. rewrite Hdiv, Z.mul_comm, (Z.mul_comm (2 ^ j)), Z.mod_mul by lia. lia.
Qed.

(** ** Properties *)

(** The four algorithms print the decimal digits of the [N]-th Fibonacci
    number: squaring from the low bits of [N] and from the high bits, the
    memoised recursion, and the iterator; none of them runs out of the
    rounds of its loop or fails an assert. *)
Theorem fibonacci_programs N :
  0 <= N < 2 ^ 30 ->
  fastFibonacci N = Ok (udec (fib (Z.to_nat N))) /\
  fasterFibonacci N = Ok (udec (fib (Z.to_nat N))) /\
  fastestFibonacci N = Ok (udec (fib (Z.to_nat N))) /\
  linearFibonacci N = Ok (udec (fib (Z.to_nat N))).
Proof.
  intros HN. split; [apply fastFibonacci_spec; lia|]. split; [by apply fasterFibonacci_spec|].
  split; [apply fastestFibonacci_spec; lia|apply linearFibonacci_spec; lia].
Qed.

Lemma fibonacci_programs_witness :
  fastFibonacci 100 = Ok (bs "354224848179261915075") /\
  fasterFibonacci 10 = Ok (udec (fib 10)).
Proof.
  split; [vm_compute; reflexivity|].
  exact (proj1 (proj2 (fibonacci_programs 10 ltac:(lia)))).
Defined.

(** [factorial] prints [N!], and [combination], whose intermediate
    divisions are all exact, computes the binomial coefficient of Pascal's
    triangle. *)
Theorem factorial_combination N K :
  0 <= K <= N -> N < 2 ^ 31 ->
  factorial N = Ok (udec (fact (Z.to_nat N))) /\
  exists r, combination N K = Ok r /\ wf r /\ value r = binom (Z.to_nat N) (Z.to_nat K).
Proof.
  intros HK HN. split.
  - unfold factorial. destruct (fact_loop_spec (Z.to_nat N)) as [Hw Hv]; [lia|].
    rewrite Z2Nat.id in Hw, Hv by lia. by apply toDec_value.
  - unfold combination. rewrite (proj2 (Z.leb_le 0 K)), (proj2 (Z.leb_le K N)) by lia.
    cbn [andb assert_ mbind outcome_bind]. rewrite Z.quot_div_nonneg by lia.
    assert (forall k, 0 <= k <= N -> binom (Z.to_nat N) (Z.to_nat k) = binom (Z.to_nat N) (Z.to_nat K) ->
      exists r, foldM (choose_step N) (new_UnsignedInt 1) (seqZ 1 k) = Ok r /\ wf r /\
        value r = binom (Z.to_nat N) (Z.to_nat K)) as Hloop.
    { intros k Hk Hb. destruct (choose_loop_spec (Z.to_nat N) (Z.to_nat k)) as (r & E & Hw & Hv); [lia|lia|].
      rewrite !Z2Nat.id in E by lia. exists r. rewrite <- Hb. done. }
    destruct (Z.ltb_spec (N / 2) K); apply Hloop; [lia| |lia|done].
    rewrite (binom_sym (Z.to_nat N) (Z.to_nat K)) by lia. f_equal. lia.
Qed.

Lemma factorial_combination_witness :
  factorial 20 = Ok (udec (fact 20)) /\ exists r, combination 20 17 = Ok r /\ wf r /\ value r = binom 20 17.
Proof. apply (factorial_combination 20 17); lia. Defined.

(** [Float::decimal] is exact: for a mantissa of 64 bits and any
    exponent, the digits before and after the point, read as one decimal
    fraction, are the number [M * 2 ^ E] itself, not an approximation. *)
Theorem decimal_exact f :
  0 <= M f < 2 ^ 64 -> E f < 2 ^ 32 ->
  exists I F, decimal f = Ok (I ++ bs "." ++ F) /\ Forall is_digit (I ++ F) /\
    2 ^ Z.max 0 (- E f) * (dec_value I * 10 ^ zlen F + dec_value F) =
    10 ^ zlen F * (M f * 2 ^ Z.max 0 (E f)).
Proof.
  intros HM HE. unfold decimal. rewrite integer_spec by done.
  destruct (fraction_spec f ltac:(lia)) as (x & zeros & -> & Hx & Hz & HF). cbn [mbind outcome_bind].
  set (iv := if E f <? 0 then _ else _).
  assert (0 <= iv) as Hiv.
  { unfold iv. destruct (Z.ltb_spec (E f) 0); [apply Z.div_pos; [lia|apply Z.pow_pos_nonneg; lia]|].
    pose proof (Z.pow_nonneg 2 (E f)). nia. }
  exists (udec iv), (replicate (Z.to_nat zeros) x30 ++ x). split; [done|]. split.
  { rewrite !Forall_app. split; [by apply udec_digits|]. split; [|done].
    apply Forall_replicate. unfold is_digit. change (byte_to_Z x30) with 48. lia. }
  rewrite udec_value, dec_value_zeros by done.
  assert (zlen (replicate (Z.to_nat zeros) x30 ++ x) = zeros + zlen x) as -> by (rewrite zlen_app, zlen_replicate; done).
  cbv zeta in HF. rewrite Z.mul_add_distr_l, HF. unfold iv. destruct (Z.ltb_spec (E f) 0).
  - replace (Z.max 0 (- E f)) with (- E f) by lia. replace (Z.max 0 (E f)) with 0 by lia.
    pose proof (Z.div_mod (M f) (2 ^ (- E f)) ltac:(apply Z.pow_nonzero; lia)) as Hdm.
    rewrite Z.pow_0_r. rewrite Hdm at 3. ring.
  - replace (Z.max 0 (- E f)) with 0 by lia. replace (Z.max 0 (E f)) with (E f) by lia.
    rewrite Z.pow_0_r, Z.mod_1_r. ring.
Qed.

Lemma decimal_exact_witness :
  exists I F, decimal (mkFloat (-3) 13) = Ok (I ++ bs "." ++ F) /\ Forall is_digit (I ++ F) /\
    2 ^ 3 * (dec_value I * 10 ^ zlen F + dec_value F) = 10 ^ zlen F * (13 * 2 ^ 0).
Proof. apply (decimal_exact (mkFloat (-3) 13)); simpl; lia. Defined.
