(* ===== verification/TimerQueue.v ===== *)
(** * TimerQueue: timers of an event loop

    Models [muduo::Timer], [TimerId] and [TimerQueue] of
    [reactor/s13/Timer.h], [Timer.cc], [TimerId.h], [TimerQueue.h] and
    [TimerQueue.cc].  Timers are objects in a heap: they are created and
    deleted by hand, and an address may be used again.  The callbacks of a
    timer may add and cancel timers while [handleRead] runs them; other
    threads may create timers that wait in the loop's queue.  Delays are
    [double] in the code: an interval is here [Some us] when
    [interval > 0.0], with the microseconds [addTime] makes of it. *)
From S2P Require Import Prelude Channel.
From Stdlib Require Import Sorting.Sorted.

(** ** Timers *)

Abbreviation Interval := (option N).

Record Timer := mkTimer {
  callback_ : callback;
  expiration_ : Z;
  interval_ : Interval;
  sequence_ : Z;
}.

Definition repeat_ (t : Timer) : bool :=
  match interval_ t with Some _ => true | None => false end.

(** [restart(now)]; [Timestamp::invalid()] is 0.  [addTime] adds 64-bit
    integers. *)
Definition restarted (now : Z) (t : Timer) : Timer :=
  mkTimer (callback_ t)
    (match interval_ t with Some us => now + Z.of_N us | None => 0 end)
    (interval_ t) (sequence_ t).
Definition restart (now : Z) (t : Timer) : outcome Timer :=
  _ ← longs [expiration_ (restarted now t)]; Ok (restarted now t).

(** [TimerId] and [ActiveTimer]: an address and a sequence number. *)
Abbreviation TimerId := (ptr * Z)%type.
(** [Entry]: expiration and address. *)
Abbreviation Entry := (Z * ptr)%type.

(** ** [std::set<Entry>]: a sorted list *)

Definition entry_lt (a b : Entry) : bool :=
  (a.1 <? b.1) || ((a.1 =? b.1) && (a.2 <? b.2)%positive).

(** [insert] and whether it took place. *)
Fixpoint set_insert (e : Entry) (l : list Entry) : list Entry * bool :=
  match l with
  | [] => ([e], true)
  | x :: l' =>
      if entry_lt e x then (e :: l, true)
      else if entry_lt x e then let '(r, b) := set_insert e l' in (x :: r, b)
      else (l, false)
  end.

(** [erase] and the number of erased elements. *)
Fixpoint set_erase (e : Entry) (l : list Entry) : list Entry * nat :=
  match l with
  | [] => ([], 0%nat)
  | x :: l' =>
      if bool_decide (x = e) then (l', 1%nat)
      else let '(r, n) := set_erase e l' in (x :: r, n)
  end.

(** The elements before [lower_bound(sentry)], and the others. The address
    of the sentry is [UINTPTR_MAX]: every timer has a lower one. *)
Fixpoint split_before (now : Z) (l : list Entry) : list Entry * list Entry :=
  match l with
  | [] => ([], [])
  | x :: l' =>
      if (x.1 <? now) || (x.1 =? now) then
        let '(a, b) := split_before now l' in (x :: a, b)
      else ([], l)
  end.

(** ** The queue *)

(** Besides the members of the class: the heap of timers and the counter
    [Timer::s_numCreated_]; the time; the time the timer descriptor will
    alarm; the timers created by other threads, whose [addTimerInLoop] waits
    in the loop; and the callbacks run so far. *)
Record TimerQueue := mkTimerQueue {
  heap_ : gmap ptr Timer;
  s_numCreated_ : Z;
  timers_ : list Entry;
  callingExpiredTimers_ : bool;
  activeTimers_ : gset TimerId;
  cancelingTimers_ : gset TimerId;
  timerfd_ : option Z;
  clock : Z;
  queued : list ptr;
  ran : list callback;
}.

Definition new_TimerQueue (now : Z) : TimerQueue := mkTimerQueue ∅ 0 [] false ∅ ∅ None now [] [].

Definition set_heap h s := mkTimerQueue h (s_numCreated_ s) (timers_ s) (callingExpiredTimers_ s)
  (activeTimers_ s) (cancelingTimers_ s) (timerfd_ s) (clock s) (queued s) (ran s).
Definition set_numCreated n s := mkTimerQueue (heap_ s) n (timers_ s) (callingExpiredTimers_ s)
  (activeTimers_ s) (cancelingTimers_ s) (timerfd_ s) (clock s) (queued s) (ran s).
Definition set_lists l a s := mkTimerQueue (heap_ s) (s_numCreated_ s) l (callingExpiredTimers_ s)
  a (cancelingTimers_ s) (timerfd_ s) (clock s) (queued s) (ran s).
Definition set_calling b s := mkTimerQueue (heap_ s) (s_numCreated_ s) (timers_ s) b
  (activeTimers_ s) (cancelingTimers_ s) (timerfd_ s) (clock s) (queued s) (ran s).
Definition set_canceling c s := mkTimerQueue (heap_ s) (s_numCreated_ s) (timers_ s)
  (callingExpiredTimers_ s) (activeTimers_ s) c (timerfd_ s) (clock s) (queued s) (ran s).
Definition set_timerfd t s := mkTimerQueue (heap_ s) (s_numCreated_ s) (timers_ s)
  (callingExpiredTimers_ s) (activeTimers_ s) (cancelingTimers_ s) t (clock s) (queued s) (ran s).
Definition set_clock t s := mkTimerQueue (heap_ s) (s_numCreated_ s) (timers_ s)
  (callingExpiredTimers_ s) (activeTimers_ s) (cancelingTimers_ s) (timerfd_ s) t (queued s) (ran s).
Definition set_queued q s := mkTimerQueue (heap_ s) (s_numCreated_ s) (timers_ s)
  (callingExpiredTimers_ s) (activeTimers_ s) (cancelingTimers_ s) (timerfd_ s) (clock s) q (ran s).
Definition set_ran r s := mkTimerQueue (heap_ s) (s_numCreated_ s) (timers_ s)
  (callingExpiredTimers_ s) (activeTimers_ s) (cancelingTimers_ s) (timerfd_ s) (clock s) (queued s) r.

(** [howMuchTimeFromNow]: seconds and nanoseconds, from an [int64_t]. *)
Definition howMuchTimeFromNow (when now : Z) : outcome (Z * Z) :=
  let microseconds := when - now in
  _ ← longs [microseconds];
  let microseconds := if microseconds <? 100 then 100 else microseconds in
  Ok (Z.quot microseconds 1000000, Z.rem microseconds 1000000 * 1000).

(** [resetTimerfd]: the descriptor alarms once, after the given time. *)
Definition resetTimerfd (expiration : Z) (s : TimerQueue) : outcome TimerQueue :=
  '(tv_sec, tv_nsec) ← howMuchTimeFromNow expiration (clock s);
  Ok (set_timerfd (Some (clock s + tv_sec * 1000000 + tv_nsec / 1000)) s).

(** A use of a timer through its address. *)
Definition deref (p : ptr) (s : TimerQueue) : outcome Timer := from_some Undefined (heap_ s !! p).
Definition delete_timer (p : ptr) (s : TimerQueue) : outcome TimerQueue :=
  _ ← deref p s; Ok (set_heap (delete p (heap_ s)) s).

Definition sizes_agree (s : TimerQueue) : outcome unit :=
  assert_ (length (timers_ s) =? size (activeTimers_ s))%nat.

(** [insert]: the new state and [earliestChanged]. *)
Definition insert_timer (p : ptr) (s : TimerQueue) : outcome (TimerQueue * bool) :=
  _ ← sizes_agree s;
  t ← deref p s;
  let when := expiration_ t in
  let earliestChanged := match timers_ s with [] => true | e :: _ => when <? e.1 end in
  let '(l, inserted) := set_insert (when, p) (timers_ s) in
  _ ← assert_ inserted;
  let active := (p, sequence_ t) in
  _ ← assert_ (bool_decide (active ∉ activeTimers_ s));
  let s := set_lists l ({[active]} ∪ activeTimers_ s) s in
  _ ← sizes_agree s;
  Ok (s, earliestChanged).

Definition addTimerInLoop (p : ptr) (s : TimerQueue) : outcome TimerQueue :=
  '(s, earliestChanged) ← insert_timer p s;
  if earliestChanged : bool then t ← deref p s; resetTimerfd (expiration_ t) s else Ok s.

Definition cancelInLoop (timerId : TimerId) (s : TimerQueue) : outcome TimerQueue :=
  _ ← sizes_agree s;
  s ← (if bool_decide (timerId ∈ activeTimers_ s) then
         t ← deref timerId.1 s;
         let '(l, n) := set_erase (expiration_ t, timerId.1) (timers_ s) in
         _ ← assert_ (n =? 1)%nat;
         s ← delete_timer timerId.1 (set_lists l (activeTimers_ s) s);
         Ok (set_lists l (activeTimers_ s ∖ {[timerId]}) s)
       else if callingExpiredTimers_ s then
         Ok (set_canceling ({[timerId]} ∪ cancelingTimers_ s) s)
       else Ok s);
  _ ← sizes_agree s;
  Ok s.

(** The loop of [getExpired] over the expired entries. *)
Definition erase_active (s : TimerQueue) (e : Entry) : outcome TimerQueue :=
  t ← deref e.2 s;
  let timer := (e.2, sequence_ t) in
  _ ← assert_ (bool_decide (timer ∈ activeTimers_ s));
  Ok (set_lists (timers_ s) (activeTimers_ s ∖ {[timer]}) s).

Definition getExpired (now : Z) (s : TimerQueue) : outcome (TimerQueue * list Entry) :=
  _ ← sizes_agree s;
  let '(expired, rest) := split_before now (timers_ s) in
  _ ← assert_ (match rest with [] => true | e :: _ => now <? e.1 end);
  s ← foldM erase_active (set_lists rest (activeTimers_ s) s) expired;
  _ ← sizes_agree s;
  Ok (s, expired).

(** The loop of [reset]. *)
Definition reset_one (now : Z) (s : TimerQueue) (e : Entry) : outcome TimerQueue :=
  t ← deref e.2 s;
  if repeat_ t && bool_decide ((e.2, sequence_ t) ∉ cancelingTimers_ s) then
    t ← restart now t;
    '(s, _) ← insert_timer e.2 (set_heap (<[e.2 := t]> (heap_ s)) s); Ok s
  else delete_timer e.2 s.

Definition reset (expired : list Entry) (now : Z) (s : TimerQueue) : outcome TimerQueue :=
  s ← foldM (reset_one now) s expired;
  nextExpire ← match timers_ s with
               | [] => Ok 0
               | e :: _ => t ← deref e.2 s; Ok (expiration_ t)
               end;
  if 0 <? nextExpire then resetTimerfd nextExpire s else Ok s.

(** What callbacks and other threads do to a queue.  [addTimer] creates the
    timer in the calling thread; in the loop thread it is inserted at once,
    from another thread [addTimerInLoop] waits in the loop (and [addTimer]
    goes on with [ReadSequence] below).  [Tick t]: the clock, which does not
    go back, shows [t]. *)
Inductive command :=
| AddTimer (cb : callback) (when : Z) (interval : Interval)
| AddFromThread (cb : callback) (when : Z) (interval : Interval)
| RunQueued
| Cancel (timerId : TimerId)
| Tick (t : Z).

Section queue.
(** The allocator, and what callbacks do: a sequence of commands. *)
Context (alloc : gmap ptr Timer -> ptr).
Context (script : callback -> TimerQueue -> list command).

(** [new Timer(cb, when, interval)]. *)
Definition new_Timer (cb : callback) (when : Z) (i : Interval) (s : TimerQueue) :
    TimerQueue * ptr :=
  let p := alloc (heap_ s) in
  let seq := s_numCreated_ s + 1 in
  (set_heap (<[p := mkTimer cb when i seq]> (heap_ s)) (set_numCreated seq s), p).

(** [addTimer] in the loop thread. *)
Definition addTimer (cb : callback) (when : Z) (i : Interval) (s : TimerQueue) :
    outcome (TimerQueue * TimerId) :=
  let '(s, p) := new_Timer cb when i s in
  s ← addTimerInLoop p s;
  t ← deref p s;
  Ok (s, (p, sequence_ t)).

Definition run_command (s : TimerQueue) (c : command) : outcome TimerQueue :=
  match c with
  | AddTimer cb when i => '(s, _) ← addTimer cb when i s; Ok s
  | AddFromThread cb when i =>
      let '(s, p) := new_Timer cb when i s in Ok (set_queued (queued s ++ [p]) s)
  | RunQueued =>
      match queued s with
      | [] => Ok s
      | p :: q => addTimerInLoop p (set_queued q s)
      end
  | Cancel timerId => cancelInLoop timerId s
  | Tick t => Ok (set_clock (Z.max (clock s) t) s)
  end.

(** [it->second->run()]. *)
Definition run_timer (s : TimerQueue) (e : Entry) : outcome TimerQueue :=
  t ← deref e.2 s;
  foldM run_command (set_ran (ran s ++ [callback_ t]) s) (script (callback_ t) s).

(** [handleRead]; reading the descriptor disarms it. *)
Definition handleRead (s : TimerQueue) : outcome TimerQueue :=
  let now := clock s in
  let s := set_timerfd None s in
  '(s, expired) ← getExpired now s;
  let s := set_canceling ∅ (set_calling true s) in
  s ← foldM run_timer s expired;
  let s := set_calling false s in
  reset expired now s.

(** [timer->sequence()] at the end of [addTimer], in a thread that is not
    the loop's: the timer that was created at this address with this number
    may be gone by then, and the address even used again. *)
Definition read_sequence (timer : TimerId) (s : TimerQueue) : outcome TimerQueue :=
  t ← deref timer.1 s;
  _ ← defined_ (sequence_ t =? timer.2);
  Ok s.

(** What can happen: a command, the alarm, or another thread that comes to
    the end of its [addTimer].  (While a callback runs, such a thread finds
    what it would find before the alarm or after it.) *)
Inductive event := Do (c : command) | Alarm | ReadSequence (timer : TimerId).

Definition handle_event (s : TimerQueue) (e : event) : outcome TimerQueue :=
  match e with
  | Do c => run_command s c
  | Alarm => handleRead s
  | ReadSequence timer => read_sequence timer s
  end.
End queue.

(** [~TimerQueue]. *)
Definition delete_TimerQueue (s : TimerQueue) : outcome TimerQueue :=
  foldM (fun s e => delete_timer e.2 s) s (timers_ s).

(** ** Invariant *)

(** Times that can be added and subtracted without overflow: up to the year
    75000 or so. *)
Definition max_time : Z := 2 ^ 61.
Definition interval_ok (i : Interval) : Prop := match i with Some us => Z.of_N us <= max_time | None => True end.
Definition timer_ok (t : Timer) : Prop := - max_time <= expiration_ t <= 2 * max_time /\ interval_ok (interval_ t).
Definition command_ok (c : command) : Prop :=
  match c with
  | AddTimer _ when i | AddFromThread _ when i => - max_time <= when <= max_time /\ interval_ok i
  | RunQueued | Cancel _ => True
  | Tick t => t <= max_time
  end.
Definition event_ok (e : event) : Prop := match e with Do c => command_ok c | Alarm | ReadSequence _ => True end.

Abbreviation sorted := (StronglySorted (fun a b => entry_lt a b = true)).

(** [E]: the timers that are alive but not scheduled. *)
Record tq_inv (E : gset ptr) (s : TimerQueue) : Prop := {
  tq_sorted : sorted (timers_ s);
  tq_entry : forall w p, (w, p) ∈ timers_ s <->
    exists t, heap_ s !! p = Some t /\ expiration_ t = w /\ p ∉ E;
  tq_active : forall p q, (p, q) ∈ activeTimers_ s <->
    exists t, heap_ s !! p = Some t /\ sequence_ t = q /\ p ∉ E;
  tq_size : length (timers_ s) = size (activeTimers_ s);
  tq_detached : forall p, p ∈ E -> is_Some (heap_ s !! p);
  tq_sequences : forall p t, heap_ s !! p = Some t -> sequence_ t <= s_numCreated_ s;
  tq_times : forall p t, heap_ s !! p = Some t -> timer_ok t;
  tq_clock : 0 <= clock s <= max_time;
}.

(** Between two events, the timers that are not scheduled are the queued
    ones. [X]: the timers that [handleRead] is about to run or has run. *)
Definition queue_inv (X : gset ptr) (s : TimerQueue) : Prop :=
  NoDup (queued s) /\ (forall p, p ∈ queued s -> p ∉ X) /\
  tq_inv (list_to_set (queued s) ∪ X) s.

(** The descriptor alarms in time for every timer, or in 100 microseconds. *)
Definition armed (s : TimerQueue) : Prop :=
  timers_ s = [] \/
  exists a, timerfd_ s = Some a /\ forall e, e ∈ timers_ s -> a <= Z.max e.1 (clock s + 100).

(** ** Lemmas: sorted lists *)

Lemma entry_lt_spec a b :
  entry_lt a b = true <-> a.1 < b.1 \/ (a.1 = b.1 /\ (a.2 < b.2)%positive).
Proof.
  unfold entry_lt. rewrite orb_true_iff, andb_true_iff, Z.ltb_lt, Z.eqb_eq, Pos.ltb_lt. done.
Qed.

Lemma entry_lt_irrefl a : entry_lt a a = false.
Proof. apply not_true_iff_false. rewrite entry_lt_spec. lia. Qed.

Lemma entry_lt_trans a b c : entry_lt a b = true -> entry_lt b c = true -> entry_lt a c = true.
Proof. rewrite !entry_lt_spec. lia. Qed.

Lemma entry_lt_total a b : entry_lt a b = false -> entry_lt b a = false -> a = b.
Proof.
  intros H1 H2. apply not_true_iff_false in H1, H2. rewrite entry_lt_spec in H1, H2.
  destruct a as [w p], b as [w' p']. simpl in *.
  assert (w = w' /\ p = p') as [-> ->] by lia. done.
Qed.

Lemma sorted_head a l x : sorted (a :: l) -> x ∈ l -> entry_lt a x = true.
Proof. intros Hs Hx. apply StronglySorted_inv in Hs as [_ Hf]. by apply (proj1 (Forall_forall _ _) Hf). Qed.

Lemma sorted_NoDup l : sorted l -> NoDup l.
Proof.
  induction 1 as [|a l Hs IH Hf]; constructor; [|done].
  intros Hin. pose proof (proj1 (Forall_forall _ _) Hf a Hin) as E. cbv beta in E. by rewrite entry_lt_irrefl in E.
Qed.

Lemma sorted_ext l l' : sorted l -> sorted l' -> (forall x, x ∈ l <-> x ∈ l') -> l = l'.
Proof.
  intros Hs. revert l'. induction Hs as [|a l Hs IH Hf]; intros l' Hs' Hin.
  { destruct l' as [|b l']; [done|]. exfalso. apply (not_elem_of_nil b), Hin. by left. }
  destruct Hs' as [|b l' Hs' Hf']; [exfalso; apply (not_elem_of_nil a), Hin; by left|].
  rewrite Forall_forall in Hf, Hf'. cbv beta in Hf, Hf'.
  assert (a = b) as <-.
  { destruct (proj1 (elem_of_cons l' a b)) as [?|Ha]; [apply Hin; by left|done|].
    destruct (proj1 (elem_of_cons l b a)) as [?|Hb]; [apply Hin; by left|done|].
    specialize (Hf _ Hb). specialize (Hf' _ Ha). pose proof (entry_lt_trans _ _ _ Hf Hf') as E.
    by rewrite entry_lt_irrefl in E. }
  f_equal. apply IH; [done|]. intros x.
  assert (x ∈ l -> x <> a) as H1 by (intros Hx ->; specialize (Hf _ Hx); by rewrite entry_lt_irrefl in Hf).
  assert (x ∈ l' -> x <> a) as H2 by (intros Hx ->; specialize (Hf' _ Hx); by rewrite entry_lt_irrefl in Hf').
  specialize (Hin x). rewrite !elem_of_cons in Hin. tauto.
Qed.

Lemma set_insert_spec e l :
  sorted l -> e ∉ l ->
  exists l', set_insert e l = (l', true) /\ sorted l' /\ length l' = S (length l) /\
    (forall x, x ∈ l' <-> x = e \/ x ∈ l).
Proof.
  induction 1 as [|a l Hs IH Hf]; intros Hn; cbn [set_insert].
  { exists [e]. split; [done|]. split; [repeat constructor|]. split; [done|].
    intros x. set_solver. }
  destruct (entry_lt e a) eqn:E1.
  - eexists. split; [done|]. split; [|split; [done|set_solver]].
    constructor; [by constructor|]. constructor; [done|].
    eapply Forall_impl; [exact Hf|]. intros x. by apply entry_lt_trans.
  - destruct (entry_lt a e) eqn:E2.
    + destruct IH as (l' & -> & Hs' & Hlen & Hin); [intros Hin; apply Hn; by right|].
      exists (a :: l'). split; [done|]. split; [|split; [simpl; lia|intros x; rewrite !elem_of_cons, Hin; tauto]].
      constructor; [done|]. apply Forall_forall. intros x Hx. apply Hin in Hx as [->|Hx]; [done|].
      by apply (proj1 (Forall_forall _ _) Hf).
    + exfalso. apply Hn. rewrite (entry_lt_total e a) by done. by left.
Qed.

Lemma set_erase_spec e l :
  sorted l -> e ∈ l ->
  exists l', set_erase e l = (l', 1%nat) /\ sorted l' /\ length l = S (length l') /\
    (forall x, x ∈ l' <-> x ∈ l /\ x <> e).
Proof.
  intros Hs. pose proof (sorted_NoDup l Hs) as Hnd. induction Hs as [|a l Hs IH Hf]; intros Hin;
    [by apply not_elem_of_nil in Hin|]. apply NoDup_cons in Hnd as [Ha Hnd]. cbn [set_erase].
  case_bool_decide as Hae; [subst a|].
  - exists l. split; [done|]. split; [done|]. split; [done|]. intros x. split.
    + intros Hx. split; [by right|]. by intros ->.
    + intros [Hx Hne]. by apply elem_of_cons in Hx as [->|?].
  - destruct IH as (l' & -> & Hs' & Hlen & Hin'); [done|by apply elem_of_cons in Hin as [->|?]|].
    exists (a :: l'). split; [done|]. split; [|split; [simpl; lia|]].
    2:{ intros x. rewrite !elem_of_cons, Hin'. split; [|tauto]. intros [->|?]; [|tauto].
        split; [by left|done]. }
    constructor; [done|]. apply Forall_forall. intros x Hx. apply Hin' in Hx as [Hx _].
    by apply (proj1 (Forall_forall _ _) Hf).
Qed.

Lemma split_before_spec now l :
  sorted l ->
  exists a b, split_before now l = (a, b) /\ l = a ++ b /\ sorted b /\
    Forall (fun e => e.1 <= now) a /\ Forall (fun e => now < e.1) b.
Proof.
  induction 1 as [|x l Hs IH Hf]; cbn [split_before].
  { exists [], []. repeat split; constructor. }
  destruct ((x.1 <? now) || (x.1 =? now)) eqn:E.
  - apply orb_true_iff in E. rewrite Z.ltb_lt, Z.eqb_eq in E.
    destruct IH as (a & b & -> & -> & Hb & Ha & Hb'). exists (x :: a), b.
    split; [done|]. split; [done|]. split; [done|]. split; [|done]. constructor; [lia|done].
  - apply orb_false_iff in E. rewrite Z.ltb_ge, Z.eqb_neq in E.
    exists [], (x :: l). split; [done|]. split; [done|]. split; [by constructor|]. split; [done|].
    constructor; [lia|]. eapply Forall_impl; [exact Hf|]. intros y Hy. apply entry_lt_spec in Hy. lia.
Qed.

(** ** Lemmas: the operations *)

Lemma sizes_agree_ok s : length (timers_ s) = size (activeTimers_ s) -> sizes_agree s = Ok tt.
Proof. intros E. unfold sizes_agree. by rewrite E, Nat.eqb_refl. Qed.

Lemma tq_inv_ext E s s' :
  heap_ s' = heap_ s -> s_numCreated_ s' = s_numCreated_ s -> timers_ s' = timers_ s ->
  activeTimers_ s' = activeTimers_ s -> clock s' = clock s -> tq_inv E s -> tq_inv E s'.
Proof.
  intros E1 E2 E3 E4 E5 []. constructor; rewrite ?E1, ?E2, ?E3, ?E4, ?E5; done.
Qed.

Lemma tq_inv_set E E' s : E ≡ E' -> tq_inv E s -> tq_inv E' s.
Proof. intros HE. apply leibniz_equiv in HE. by subst. Qed.

Lemma insert_timer_ok E s p t :
  tq_inv E s -> p ∈ E -> heap_ s !! p = Some t ->
  exists l a b, insert_timer p s = Ok (set_lists l a s, b) /\
    tq_inv (E ∖ {[p]}) (set_lists l a s) /\
    (forall x, x ∈ l <-> x = (expiration_ t, p) \/ x ∈ timers_ s) /\
    (if b : bool then forall x, x ∈ timers_ s -> expiration_ t <= x.1
     else exists x, x ∈ timers_ s /\ x.1 <= expiration_ t).
Proof.
  intros Hinv Hp Ht. pose proof Hinv as [Hs He Ha Hsz Hd Hseq Htm Hck]. unfold insert_timer.
  rewrite sizes_agree_ok by done. cbn [mbind outcome_bind]. unfold deref. rewrite Ht. cbn [from_some mbind outcome_bind].
  destruct (set_insert_spec (expiration_ t, p) (timers_ s) Hs) as (l & -> & Hsl & Hlen & Hin).
  { intros Hin. apply He in Hin as (t' & ? & ? & ?). done. }
  assert ((p, sequence_ t) ∉ activeTimers_ s) as Hna.
  { intros Hin'. apply Ha in Hin' as (t' & ? & ? & ?). done. }
  cbn [assert_ mbind outcome_bind]. rewrite bool_decide_eq_true_2 by done. cbn [assert_ mbind outcome_bind].
  set (a := {[(p, sequence_ t)]} ∪ activeTimers_ s).
  assert (length l = size a) as Hsz'.
  { unfold a. rewrite size_union by set_solver +Hna. rewrite size_singleton. lia. }
  rewrite sizes_agree_ok by done. cbn [mbind outcome_bind]. eexists l, a, _. split; [done|].
  split; [|split; [done|]].
  - constructor; simpl; [done| | |done| |done..].
    + intros w p'. rewrite Hin, He. split.
      * intros [[= -> ->]|(t' & ? & ? & ?)]; [exists t; set_solver|exists t'; set_solver].
      * intros (t' & E1 & E2 & E3). destruct (decide (p' = p)) as [->|Hne].
        { left. rewrite Ht in E1. by simplify_eq. }
        right. exists t'. split; [done|]. split; [done|set_solver].
    + intros p' q. unfold a. rewrite elem_of_union, elem_of_singleton, Ha. split.
      * intros [[= -> ->]|(t' & ? & ? & ?)]; [exists t; set_solver|exists t'; set_solver].
      * intros (t' & E1 & E2 & E3). destruct (decide (p' = p)) as [->|Hne].
        { left. rewrite Ht in E1. by simplify_eq. }
        right. exists t'. split; [done|]. split; [done|set_solver].
    + intros p' Hp'. apply Hd. set_solver.
  - clear -Hs. destruct (timers_ s) as [|e es] eqn:Et; [intros x Hx; by apply not_elem_of_nil in Hx|].
    destruct (Z.ltb_spec (expiration_ t) e.1) as [Hlt|Hge].
    + intros x Hx. apply elem_of_cons in Hx as [->|Hx]; [lia|].
      pose proof (sorted_head _ _ _ Hs Hx) as Hex. apply entry_lt_spec in Hex. lia.
    + exists e. split; [by left|lia].
Qed.

Lemma howMuchTimeFromNow_value when now :
  - 2 ^ 63 <= when - now < 2 ^ 63 ->
  exists s n, howMuchTimeFromNow when now = Ok (s, n) /\
    s * 1000000 + n / 1000 = Z.max 100 (when - now) /\ 0 <= n < 1000000000 /\ 0 <= s.
Proof.
  intros Hr. unfold howMuchTimeFromNow. rewrite longs_ok by (constructor; [done|constructor]). cbn [mbind outcome_bind].
  eexists _, _. split; [done|]. clear Hr. destruct (Z.ltb_spec (when - now) 100).
  - split; [dlia|]. split; [dlia|dlia].
  - split; [|split]; dlia.
Qed.

Lemma resetTimerfd_spec w s :
  - max_time <= w <= 2 * max_time -> 0 <= clock s <= max_time ->
  resetTimerfd w s = Ok (set_timerfd (Some (Z.max w (clock s + 100))) s).
Proof.
  intros Hw Hc. unfold resetTimerfd.
  destruct (howMuchTimeFromNow_value w (clock s)) as (sec & n & -> & Hv & _ & _); [unfold max_time in *; lia|].
  cbn [mbind outcome_bind]. f_equal. f_equal. f_equal. lia.
Qed.

Lemma addTimerInLoop_ok E s p t :
  tq_inv E s -> p ∈ E -> heap_ s !! p = Some t ->
  exists l a f, addTimerInLoop p s = Ok (set_timerfd f (set_lists l a s)) /\
    tq_inv (E ∖ {[p]}) (set_timerfd f (set_lists l a s)) /\
    (forall x, x ∈ l <-> x = (expiration_ t, p) \/ x ∈ timers_ s) /\
    (armed s -> armed (set_timerfd f (set_lists l a s))) /\
    (forall now, (forall e, e ∈ timers_ s -> now < e.1) ->
       (forall e, e ∈ l -> now < e.1) \/ armed (set_timerfd f (set_lists l a s))).
Proof.
  intros Hinv Hp Ht. destruct (insert_timer_ok E s p t Hinv Hp Ht) as (l & a & b & E1 & Hi & Hin & Hb).
  unfold addTimerInLoop. rewrite E1. cbn [mbind outcome_bind]. destruct b.
  - unfold deref. simpl. rewrite Ht. simpl.
    rewrite resetTimerfd_spec by (apply (tq_times _ _ Hi _ _ Ht) || apply (tq_clock _ _ Hi)). simpl.
    exists l, a, (Some (Z.max (expiration_ t) (clock s + 100))). split; [done|].
    split; [by eapply tq_inv_ext; [..|exact Hi]|]. split; [done|].
    assert (armed (set_timerfd (Some (Z.max (expiration_ t) (clock s + 100))) (set_lists l a s))) as Harm.
    { right. eexists. split; [done|]. simpl. intros e He. apply Hin in He as [->|He]; [simpl; lia|].
      specialize (Hb e He). lia. }
    split; [done|]. intros now _. by right.
  - exists l, a, (timerfd_ s). split; [f_equal; by destruct s|].
    split; [by eapply tq_inv_ext; [..|exact Hi]|]. split; [done|]. destruct Hb as (x & Hx & Hxe). split.
    + intros [Hnil|(al & E2 & Hal)]; [rewrite Hnil in Hx; by apply not_elem_of_nil in Hx|].
      right. exists al. split; [done|]. simpl. intros e He. apply Hin in He as [->|He]; [|by apply Hal].
      specialize (Hal x Hx). simpl. lia.
    + intros now Hnow. left. intros e He. apply Hin in He as [->|He]; [|by apply Hnow].
      specialize (Hnow x Hx). simpl. lia.
Qed.

Lemma cancelInLoop_ok E s i :
  tq_inv E s ->
  exists s', cancelInLoop i s = Ok s' /\ tq_inv E s' /\
    queued s' = queued s /\ clock s' = clock s /\ ran s' = ran s /\
    callingExpiredTimers_ s' = callingExpiredTimers_ s /\ timerfd_ s' = timerfd_ s /\
    (forall p, p ∈ E -> heap_ s' !! p = heap_ s !! p) /\
    (forall e, e ∈ timers_ s' <-> e ∈ timers_ s /\
       ~ (i ∈ activeTimers_ s /\ e.2 = i.1)) /\
    (i ∈ activeTimers_ s -> heap_ s' = delete i.1 (heap_ s) /\ cancelingTimers_ s' = cancelingTimers_ s) /\
    (i ∉ activeTimers_ s -> heap_ s' = heap_ s /\ timers_ s' = timers_ s /\ activeTimers_ s' = activeTimers_ s /\
       (callingExpiredTimers_ s = false -> s' = s) /\
       (callingExpiredTimers_ s = true -> cancelingTimers_ s' = {[i]} ∪ cancelingTimers_ s)).
Proof.
  intros Hinv. pose proof Hinv as [Hs He Ha Hsz Hd Hseq Htm Hck]. unfold cancelInLoop.
  rewrite sizes_agree_ok by done. cbn [mbind outcome_bind]. case_bool_decide as Hact.
  - destruct i as [p q]. pose proof Hact as Hact'. apply Ha in Hact' as (t & Ht & Hq & HpE).
    unfold deref. cbn [fst snd]. rewrite Ht. cbn [from_some mbind outcome_bind].
    destruct (set_erase_spec (expiration_ t, p) (timers_ s) Hs) as (l & -> & Hsl & Hlen & Hin).
    { apply He. by exists t. }
    cbn [assert_ mbind outcome_bind Nat.eqb]. unfold delete_timer, deref. cbn [heap_ set_lists]. rewrite Ht.
    cbn [from_some mbind outcome_bind]. simpl.
    assert (forall e, e ∈ l <-> e ∈ timers_ s /\ e.2 <> p) as Hin2.
    { intros [w p']. rewrite Hin. simpl. split.
      - intros [Hi Hne]. split; [done|]. intros ->. apply He in Hi as (t' & E1 & E2 & _).
        rewrite Ht in E1. simplify_eq.
      - intros [Hi Hne]. split; [done|]. congruence. }
    assert (length l = size (activeTimers_ s ∖ {[(p, q)]})) as Hsz'.
    { rewrite size_difference by set_solver +Hact. rewrite size_singleton. lia. }
    rewrite sizes_agree_ok by done. cbn [mbind outcome_bind]. eexists. split; [done|].
    split; [constructor; simpl; [done| | |done| | | |done]|].
    + intros w p'. rewrite Hin2, He. split.
      * intros [(t' & ? & ? & ?) Hne]. exists t'. rewrite lookup_delete_ne by done. done.
      * intros (t' & E1 & E2 & E3). apply lookup_delete_Some in E1 as [Hne E1].
        split; [by exists t'|]. simpl. congruence.
    + intros p' q'. rewrite elem_of_difference, Ha, elem_of_singleton. split.
      * intros [(t' & E1 & E2 & E3) Hne]. exists t'. rewrite lookup_delete_ne; [done|].
        intros <-. rewrite Ht in E1. by simplify_eq.
      * intros (t' & E1 & E2 & E3). apply lookup_delete_Some in E1 as [Hne E1].
        split; [by exists t'|]. congruence.
    + intros p' Hp'. rewrite lookup_delete_ne; [by apply Hd|]. by intros ->.
    + intros p' t' E1. apply lookup_delete_Some in E1 as [_ E1]. by eapply Hseq.
    + intros p' t' E1. apply lookup_delete_Some in E1 as [_ E1]. by eapply Htm.
    + simpl. do 5 (split; [done|]). split.
      { intros p' Hp'. rewrite lookup_delete_ne; [done|]. by intros ->. }
      split; [|by split]. intros e. rewrite Hin2. split.
      * intros [? ?]. split; [done|]. by intros [_ ?].
      * intros [? Hn]. split; [done|]. intros ?. by apply Hn.
  - assert (forall e, e ∈ timers_ s <-> e ∈ timers_ s /\ ~ (i ∈ activeTimers_ s /\ e.2 = i.1)) as Hin.
    { intros e. split; [|tauto]. intros Hi. split; [done|]. by intros [? _]. }
    destruct (callingExpiredTimers_ s) eqn:Ec; cbn [mbind outcome_bind];
      rewrite sizes_agree_ok by done; cbn [mbind outcome_bind]; eexists; (split; [done|]);
      (split; [by eapply tq_inv_ext; [..|exact Hinv]|]); simpl; rewrite ?Ec;
      do 6 (split; [done|]); (split; [done|]); by split.
Qed.

Lemma erase_active_loop l s :
  NoDup l.*2 ->
  (forall p q, (p, q) ∈ activeTimers_ s -> exists t, heap_ s !! p = Some t /\ sequence_ t = q) ->
  (forall e, e ∈ l -> exists t, heap_ s !! e.2 = Some t /\ (e.2, sequence_ t) ∈ activeTimers_ s) ->
  exists a, foldM erase_active s l = Ok (set_lists (timers_ s) a s) /\
    size (activeTimers_ s) = (size a + length l)%nat /\
    forall p q, (p, q) ∈ a <-> (p, q) ∈ activeTimers_ s /\ p ∉ l.*2.
Proof.
  revert s. induction l as [|e l IH]; intros s Hnd Hact Hl; cbn [foldM].
  { exists (activeTimers_ s). split; [f_equal; by destruct s|]. split; [simpl; lia|].
    intros p q. split; [|tauto]. intros H. split; [done|]. apply not_elem_of_nil. }
  cbn [fmap list_fmap] in Hnd. apply NoDup_cons in Hnd as [Hn Hnd].
  destruct (Hl e) as (t & Ht & Hin); [by left|].
  assert (erase_active s e = Ok (set_lists (timers_ s) (activeTimers_ s ∖ {[(e.2, sequence_ t)]}) s)) as ->.
  { unfold erase_active, deref. rewrite Ht. cbn [from_some mbind outcome_bind].
    by rewrite bool_decide_eq_true_2 by done. }
  cbn [mbind outcome_bind]. destruct (IH (set_lists (timers_ s) (activeTimers_ s ∖ {[(e.2, sequence_ t)]}) s)) as (a & -> & Hsz & Ha).
  - done.
  - simpl. intros p q Hpq. apply elem_of_difference in Hpq as [Hpq _]. by apply Hact.
  - simpl. intros e' He'. destruct (Hl e') as (t' & Ht' & Hin'); [by right|]. exists t'.
    split; [done|]. apply elem_of_difference. split; [done|]. intros Heq.
    apply elem_of_singleton in Heq. injection Heq as Heq _. apply Hn. rewrite <- Heq.
    by apply list_elem_of_fmap_2.
  - simpl in *. exists a. split; [done|].
    rewrite size_difference in Hsz by set_solver +Hin. rewrite size_singleton in Hsz.
    assert (size (activeTimers_ s) <> 0)%nat by (apply size_non_empty_iff; set_solver +Hin).
    split; [lia|]. intros p q. rewrite Ha, elem_of_difference, elem_of_singleton.
    rewrite not_elem_of_cons. split; [|intros (? & ? & ?); split; [split; [done|congruence]|done]].
    intros ([Hpq Hne] & Hnp). split; [done|]. split; [|done]. intros ->. apply Hne.
    destruct (Hact _ _ Hpq) as (t' & Ht' & <-). congruence.
Qed.

Lemma entries_NoDup E s : tq_inv E s -> NoDup (timers_ s).*2.
Proof.
  intros [Hs He _ _ _ _ _ _]. pose proof (sorted_NoDup _ Hs) as Hnd. clear Hs.
  assert (forall x y, x ∈ timers_ s -> y ∈ timers_ s -> x.2 = y.2 -> x = y) as Hinj.
  { intros [w p] [w' p'] Hx Hy E1. simpl in E1. subst p'. apply He in Hx as (t & Ht & <- & _).
    apply He in Hy as (t' & Ht' & <- & _). congruence. }
  clear He. revert Hnd Hinj. induction (timers_ s) as [|x l IH]; intros Hnd Hinj; [constructor|].
  apply NoDup_cons in Hnd as [Hx Hnd]. cbn [fmap list_fmap]. constructor.
  - intros Hin. apply list_elem_of_fmap in Hin as (y & Hy & Hin). apply Hx.
    rewrite (Hinj x y); [done|by left|by right|done].
  - apply (IH Hnd). intros a b Ha Hb. apply Hinj; by right.
Qed.

Lemma getExpired_ok Q s now :
  tq_inv Q s ->
  exists due rest a, getExpired now s = Ok (set_lists rest a s, due) /\
    timers_ s = due ++ rest /\ Forall (fun e => e.1 <= now) due /\ Forall (fun e => now < e.1) rest /\
    NoDup due.*2 /\ (forall p, p ∈ due.*2 -> p ∉ Q) /\
    tq_inv (Q ∪ list_to_set due.*2) (set_lists rest a s).
Proof.
  intros Hinv. pose proof (entries_NoDup Q s Hinv) as Hnd. pose proof Hinv as [Hs He Ha Hsz Hd Hseq Htm Hck].
  unfold getExpired. rewrite sizes_agree_ok by done. cbn [mbind outcome_bind].
  destruct (split_before_spec now (timers_ s) Hs) as (due & rest & -> & Hsplit & Hsr & Hdue & Hrest).
  assert (match rest with [] => true | e :: _ => now <? e.1 end = true) as ->.
  { destruct rest as [|e rest]; [done|]. apply Forall_cons in Hrest as [? _]. by apply Z.ltb_lt. }
  cbn [assert_ mbind outcome_bind]. rewrite Hsplit, fmap_app in Hnd. apply NoDup_app in Hnd as (Hnd & Hdisj & _).
  destruct (erase_active_loop due (set_lists rest (activeTimers_ s) s)) as (a & E & Hsza & Hain); [done| | |].
  - simpl. intros p q Hpq. apply Ha in Hpq as (t & ? & ? & _). by exists t.
  - simpl. intros [w p] Hin. destruct (proj1 (He w p)) as (t & Ht & Hw & HpQ).
    { rewrite Hsplit. apply elem_of_app. by left. }
    exists t. split; [done|]. apply Ha. by exists t.
  - rewrite E. simpl in *. rewrite sizes_agree_ok; simpl.
    2:{ rewrite Hsplit, length_app in Hsz. lia. }
    exists due, rest, a. split; [f_equal; f_equal; by destruct s|]. split; [done|]. split; [done|]. split; [done|].
    split; [done|].
    assert (forall p, p ∈ due.*2 -> p ∉ Q) as HdQ.
    { intros p Hp. apply list_elem_of_fmap in Hp as ([w p'] & -> & Hin).
      destruct (proj1 (He w p')) as (t & _ & _ & ?); [rewrite Hsplit; apply elem_of_app; by left|done]. }
    split; [done|]. constructor; simpl.
    + done.
    + intros w p. split.
      * intros Hin. destruct (proj1 (He w p)) as (t & Ht & Hw & HpQ); [rewrite Hsplit; apply elem_of_app; by right|].
        exists t. split; [done|]. split; [done|]. apply not_elem_of_union. split; [done|].
        rewrite elem_of_list_to_set. intros Hdu. apply (Hdisj p Hdu).
        apply (list_elem_of_fmap_2 snd) in Hin. done.
      * intros (t & Ht & Hw & Hne). apply not_elem_of_union in Hne as [HpQ Hne].
        rewrite elem_of_list_to_set in Hne. assert ((w, p) ∈ timers_ s) as Hin by (apply He; eauto).
        rewrite Hsplit in Hin. apply elem_of_app in Hin as [Hin|Hin]; [|done].
        exfalso. apply Hne. apply (list_elem_of_fmap_2 snd) in Hin. done.
    + intros p q. rewrite Hain, Ha. split.
      * intros [(t & Ht & Hq & HpQ) Hne]. exists t. split; [done|]. split; [done|].
        apply not_elem_of_union. split; [done|]. by rewrite elem_of_list_to_set.
      * intros (t & Ht & Hq & Hne). apply not_elem_of_union in Hne as [HpQ Hne].
        rewrite elem_of_list_to_set in Hne. split; [by exists t|done].
    + rewrite Hsplit, length_app in Hsz. lia.
    + intros p Hp. apply elem_of_union in Hp as [Hp|Hp]; [by apply Hd|].
      apply elem_of_list_to_set, list_elem_of_fmap in Hp as ([w p'] & -> & Hin).
      destruct (proj1 (He w p')) as (t & Ht & _); [rewrite Hsplit; apply elem_of_app; by left|]. by exists t.
    + done.
    + done.
    + done.
Qed.

(** A timer that is not scheduled may change its expiration. *)
Lemma tq_inv_restart E s p t t' :
  tq_inv E s -> p ∈ E -> heap_ s !! p = Some t -> sequence_ t' = sequence_ t -> timer_ok t' ->
  tq_inv E (set_heap (<[p := t']> (heap_ s)) s).
Proof.
  intros [Hs He Ha Hsz Hd Hseq Htm Hck] Hp Ht Hst Hok.
  assert (forall p' t0, p' ∉ E -> <[p := t']> (heap_ s) !! p' = Some t0 <-> heap_ s !! p' = Some t0) as Hl.
  { intros p' t0 Hne. rewrite lookup_insert_ne; [done|]. by intros ->. }
  constructor; simpl; [done| | |done| | | |done].
  - intros w p'. rewrite He. split; intros (t0 & E1 & E2 & E3); exists t0; (split; [by apply Hl|done]).
  - intros p' q. rewrite Ha. split; intros (t0 & E1 & E2 & E3); exists t0; (split; [by apply Hl|done]).
  - intros p' Hp'. apply lookup_insert_is_Some'. right. by apply Hd.
  - intros p' t0 E1. apply lookup_insert_Some in E1 as [[-> <-]|[_ E1]]; [rewrite Hst|]; by eapply Hseq.
  - intros p' t0 E1. apply lookup_insert_Some in E1 as [[-> <-]|[_ E1]]; [done|by eapply Htm].
Qed.

Lemma tq_inv_delete E s p :
  tq_inv E s -> p ∈ E -> tq_inv (E ∖ {[p]}) (set_heap (delete p (heap_ s)) s).
Proof.
  intros [Hs He Ha Hsz Hd Hseq Htm Hck] Hp.
  assert (forall p' t0, (delete p (heap_ s) !! p' = Some t0 /\ p' ∉ E ∖ {[p]}) <->
    (heap_ s !! p' = Some t0 /\ p' ∉ E)) as Hl.
  { intros p' t0. rewrite lookup_delete_Some, not_elem_of_difference, elem_of_singleton. split.
    - intros [[Hne E1] [?|?]]; [done|congruence].
    - intros [E1 Hne]. split; [|by left]. split; [by intros ->|done]. }
  constructor; simpl; [done| | |done| | | |done].
  - intros w p'. rewrite He. split; intros (t0 & E1 & E2 & E3); exists t0;
      (assert (heap_ s !! p' = Some t0 /\ p' ∉ E) as [? ?] by (by apply Hl)) ||
      (assert (delete p (heap_ s) !! p' = Some t0 /\ p' ∉ E ∖ {[p]}) as [? ?] by (by apply Hl)); done.
  - intros p' q. rewrite Ha. split; intros (t0 & E1 & E2 & E3); exists t0;
      (assert (heap_ s !! p' = Some t0 /\ p' ∉ E) as [? ?] by (by apply Hl)) ||
      (assert (delete p (heap_ s) !! p' = Some t0 /\ p' ∉ E ∖ {[p]}) as [? ?] by (by apply Hl)); done.
  - intros p' Hp'. apply elem_of_difference in Hp' as [Hp' Hne].
    rewrite lookup_delete_ne; [by apply Hd|]. intros <-. by apply Hne, elem_of_singleton.
  - intros p' t0 E1. apply lookup_delete_Some in E1 as [_ E1]. by eapply Hseq.
  - intros p' t0 E1. apply lookup_delete_Some in E1 as [_ E1]. by eapply Htm.
Qed.

Lemma delete_timers_ok (l : list Entry) s :
  NoDup l.*2 -> (forall e, e ∈ l -> is_Some (heap_ s !! e.2)) ->
  exists h, foldM (fun s e => delete_timer e.2 s) s l = Ok (set_heap h s) /\
    forall p t, h !! p = Some t <-> heap_ s !! p = Some t /\ p ∉ l.*2.
Proof.
  revert s. induction l as [|e l IH]; intros s Hnd Hl; cbn [foldM].
  { exists (heap_ s). split; [f_equal; by destruct s|]. intros p t. split; [|tauto].
    intros H. split; [done|]. apply not_elem_of_nil. }
  cbn [fmap list_fmap] in Hnd |- *. apply NoDup_cons in Hnd as [Hn Hnd].
  destruct (Hl e) as [t Ht]; [by left|].
  assert (delete_timer e.2 s = Ok (set_heap (delete e.2 (heap_ s)) s)) as ->.
  { unfold delete_timer, deref. by rewrite Ht. }
  cbn [mbind outcome_bind].
  destruct (IH (set_heap (delete e.2 (heap_ s)) s)) as (h & -> & Hh); [done| |].
  { intros e' He'. simpl. rewrite lookup_delete_ne; [apply Hl; by right|]. intros Heq.
    apply Hn. rewrite Heq. by apply list_elem_of_fmap_2. }
  exists h. split; [done|]. intros p t'. rewrite Hh. simpl.
  rewrite lookup_delete_Some, not_elem_of_cons. intuition congruence.
Qed.

Section commands.
Context (alloc : gmap ptr Timer -> ptr) (alloc_fresh : forall h, h !! alloc h = None).
Context (script : callback -> TimerQueue -> list command) (script_ok : forall cb s, Forall command_ok (script cb s)).

Lemma new_Timer_ok E s cb when i :
  tq_inv E s -> - max_time <= when <= max_time -> interval_ok i ->
  let '(s', p) := new_Timer alloc cb when i s in
  heap_ s !! p = None /\ p ∉ E /\
  s' = set_heap (<[p := mkTimer cb when i (s_numCreated_ s + 1)]> (heap_ s))
         (set_numCreated (s_numCreated_ s + 1) s) /\
  tq_inv ({[p]} ∪ E) s'.
Proof.
  intros [Hs He Ha Hsz Hd Hseq Htm Hck] Hw Hiv. unfold new_Timer. set (p := alloc (heap_ s)).
  assert (heap_ s !! p = None) as Hp by apply alloc_fresh.
  assert (p ∉ E) as HpE.
  { intros Hin. apply Hd in Hin as [t Ht]. congruence. }
  split; [done|]. split; [done|]. split; [done|].
  set (t := mkTimer _ _ _ _).
  assert (forall p' t0, (<[p := t]> (heap_ s) !! p' = Some t0 /\ p' ∉ {[p]} ∪ E) <->
    (heap_ s !! p' = Some t0 /\ p' ∉ E)) as Hl.
  { intros p' t0. rewrite not_elem_of_union, not_elem_of_singleton. split.
    - intros [E1 [Hne ?]]. rewrite lookup_insert_ne in E1 by done. done.
    - intros [E1 ?]. assert (p' <> p) by congruence. rewrite lookup_insert_ne by done. done. }
  constructor; simpl; [done| | |done| | | |done].
  - intros w p'. rewrite He. split; intros (t0 & E1 & E2 & E3); exists t0;
      (assert (heap_ s !! p' = Some t0 /\ p' ∉ E) as [? ?] by (by apply Hl)) ||
      (assert (<[p := t]> (heap_ s) !! p' = Some t0 /\ p' ∉ {[p]} ∪ E) as [? ?] by (by apply Hl)); done.
  - intros p' q. rewrite Ha. split; intros (t0 & E1 & E2 & E3); exists t0;
      (assert (heap_ s !! p' = Some t0 /\ p' ∉ E) as [? ?] by (by apply Hl)) ||
      (assert (<[p := t]> (heap_ s) !! p' = Some t0 /\ p' ∉ {[p]} ∪ E) as [? ?] by (by apply Hl)); done.
  - intros p' Hp'. apply lookup_insert_is_Some'. apply elem_of_union in Hp' as [Hp'|Hp'].
    + left. apply elem_of_singleton in Hp'. done.
    + right. by apply Hd.
  - intros p' t0 E1. apply lookup_insert_Some in E1 as [[_ <-]|[_ E1]]; [simpl; lia|].
    apply Hseq in E1. lia.
  - intros p' t0 E1. apply lookup_insert_Some in E1 as [[_ <-]|[_ E1]]; [|by eapply Htm].
    split; [simpl; unfold max_time in *; lia|done].
Qed.

(** What the commands of callbacks keep, while [handleRead] holds the
    timers [X]. *)
Record evolves (X : gset ptr) (s s' : TimerQueue) : Prop := {
  ev_inv : queue_inv X s';
  ev_calling : callingExpiredTimers_ s' = callingExpiredTimers_ s;
  ev_ran : ran s' = ran s;
  ev_clock : clock s <= clock s';
  ev_heap : forall p, p ∈ X -> heap_ s' !! p = heap_ s !! p;
  ev_armed : armed s -> armed s';
  ev_late : forall now, (forall e, e ∈ timers_ s -> now < e.1) ->
    (forall e, e ∈ timers_ s' -> now < e.1) \/ armed s';
}.

Lemma add_ok X s p t Q :
  NoDup Q -> (forall p', p' ∈ Q -> p' ∉ X) -> p ∉ Q -> p ∉ X -> queued s = Q ->
  tq_inv ({[p]} ∪ (list_to_set Q ∪ X)) s -> heap_ s !! p = Some t ->
  exists s', addTimerInLoop p s = Ok s' /\ evolves X s s' /\ heap_ s' !! p = Some t.
Proof.
  intros Hnd Hdisj HpQ HpX HQ Hinv Ht.
  destruct (addTimerInLoop_ok _ s p t Hinv) as (l & a & f & -> & Hi & Hin & Harm & Hlate); [set_solver +|done|].
  eexists. split; [done|]. split; [|done]. constructor; simpl; try done.
  split; [simpl; by rewrite HQ|]. split; [simpl; by rewrite HQ|]. simpl. rewrite HQ.
  eapply tq_inv_set; [|exact Hi]. set_solver +HpQ HpX.
Qed.

Lemma run_command_ok X s c :
  queue_inv X s -> command_ok c ->
  exists s', run_command alloc s c = Ok s' /\ evolves X s s'.
Proof.
  intros (Hnd & Hdisj & Hinv) Hcmd. destruct c as [cb when i|cb when i| |i|d]; cbn [run_command].
  - unfold addTimer. destruct Hcmd as [Hw Hiv]. pose proof (new_Timer_ok _ s cb when i Hinv Hw Hiv) as Hn.
    destruct (new_Timer alloc cb when i s) as [s1 p]. destruct Hn as (Hp & HpE & Es1 & Hi1).
    apply not_elem_of_union in HpE as [HpQ HpX]. rewrite elem_of_list_to_set in HpQ.
    destruct (add_ok X s1 p (mkTimer cb when i (s_numCreated_ s + 1)) (queued s)) as (s2 & -> & Hev & Hp2);
      [done..|by rewrite Es1|done|rewrite Es1; apply lookup_insert_eq|].
    cbn [mbind outcome_bind]. unfold deref. rewrite Hp2. cbn [from_some mbind outcome_bind]. exists s2. split; [done|]. subst s1. destruct Hev. constructor; try done.
    intros p' Hp'. rewrite ev_heap0 by done. simpl. rewrite lookup_insert_ne; [done|]. by intros ->.
  - destruct Hcmd as [Hw Hiv]. pose proof (new_Timer_ok _ s cb when i Hinv Hw Hiv) as Hn.
    destruct (new_Timer alloc cb when i s) as [s1 p]. destruct Hn as (Hp & HpE & -> & Hi1).
    apply not_elem_of_union in HpE as [HpQ HpX]. rewrite elem_of_list_to_set in HpQ.
    eexists. split; [done|]. constructor; simpl; try done.
    + split; [simpl|split; simpl].
      * apply NoDup_app. split; [done|]. split; [|apply NoDup_singleton].
        intros x Hx Hx'. apply list_elem_of_singleton in Hx'. congruence.
      * intros x Hx. apply elem_of_app in Hx as [Hx|Hx]; [by apply Hdisj|].
        apply list_elem_of_singleton in Hx. by subst.
      * eapply tq_inv_set; [|eapply tq_inv_ext; [..|exact Hi1]; done].
        rewrite list_to_set_app. set_solver +.
    + intros p' Hp'. rewrite lookup_insert_ne; [done|]. by intros ->.
    + intros now Hn. by left.
  - destruct (queued s) as [|p q] eqn:Eq.
    { exists s. split; [done|]. constructor; try done; [|intros; by left]. unfold queue_inv. by rewrite Eq. }
    apply NoDup_cons in Hnd as [Hpq Hnd].
    destruct (tq_detached _ _ Hinv p) as [t Ht]; [set_solver +|].
    destruct (add_ok X (set_queued q s) p t q) as (s2 & -> & Hev & _); try done.
    + intros p' Hp'. apply Hdisj. by right.
    + apply Hdisj. by left.
    + eapply tq_inv_set; [|eapply tq_inv_ext; [..|exact Hinv]; done]. simpl. set_solver +.
    + exists s2. split; [done|]. destruct Hev. constructor; done.
  - destruct (cancelInLoop_ok _ s i Hinv) as (s' & -> & Hi & Hq & Hc & Hr & Hcall & Hf & Hh & Hel & _ & _).
    exists s'. split; [done|]. constructor.
    + unfold queue_inv. by rewrite Hq.
    + done.
    + done.
    + lia.
    + intros p Hp. apply Hh. set_solver +Hp.
    + intros [Hnil|(a & Ea & Ha)].
      * left. destruct (timers_ s') as [|e l] eqn:El; [done|].
        destruct (proj1 (Hel e)) as [He _]; [by left|]. rewrite Hnil in He. by apply not_elem_of_nil in He.
      * right. exists a. rewrite Hf, Hc. split; [done|]. intros e He. apply Ha. by apply Hel in He as [? _].
    + intros now Hnow. left. intros e He. apply Hnow. by apply Hel in He as [? _].
  - pose proof (tq_clock _ _ Hinv) as Hck. cbn [command_ok] in Hcmd.
    eexists. split; [done|]. constructor; simpl; [|done|done|lia|done| |intros; by left].
    + split; [done|]. split; [done|]. destruct Hinv. constructor; try done. simpl. lia.
    + intros [Hnil|(a & Ea & Ha)]; [by left|right]. exists a. split; [done|]. simpl. intros e He.
      specialize (Ha e He). lia.
Qed.

Lemma evolves_refl X s : queue_inv X s -> evolves X s s.
Proof. intros H. constructor; [done|done|done|lia|done|done|]. intros; by left. Qed.

Lemma evolves_trans X s1 s2 s3 : evolves X s1 s2 -> evolves X s2 s3 -> evolves X s1 s3.
Proof.
  intros [] []. constructor; [done|congruence|congruence|lia| |by auto|].
  - intros p Hp. rewrite ev_heap1 by done. auto.
  - intros now Hn. destruct (ev_late0 now Hn) as [?|?]; [auto|right; auto].
Qed.

Lemma run_commands_ok X s l :
  queue_inv X s -> Forall command_ok l -> exists s', foldM (run_command alloc) s l = Ok s' /\ evolves X s s'.
Proof.
  revert s. induction l as [|c l IH]; intros s Hq Hok; cbn [foldM].
  { exists s. split; [done|]. by apply evolves_refl. }
  apply Forall_cons in Hok as [Hc Hok]. destruct (run_command_ok X s c Hq Hc) as (s1 & -> & Hev). cbn [mbind outcome_bind].
  destruct (IH s1 (ev_inv _ _ _ Hev) Hok) as (s2 & -> & Hev2). exists s2. split; [done|].
  by eapply evolves_trans.
Qed.

(** The callbacks of entries, in order. *)
Definition callbacks (h : gmap ptr Timer) (l : list Entry) : list callback :=
  omap (fun e => callback_ <$> h !! e.2) l.

Lemma callbacks_ext h h' l :
  (forall e, e ∈ l -> h' !! e.2 = h !! e.2) -> callbacks h' l = callbacks h l.
Proof.
  induction l as [|e l IH]; intros Hl; [done|]. unfold callbacks in *. cbn [omap list_omap].
  rewrite Hl by (by left). rewrite IH; [done|]. intros e' He'. apply Hl. by right.
Qed.

(** The loop of [handleRead] over the expired timers. *)
Lemma run_timers_ok X s l :
  queue_inv X s -> (forall e, e ∈ l -> e.2 ∈ X) ->
  exists s', foldM (run_timer alloc script) s l = Ok s' /\
    evolves X (set_ran (ran s ++ callbacks (heap_ s) l) s) s'.
Proof.
  revert s. induction l as [|e l IH]; intros s Hq HX; cbn [foldM].
  { exists s. split; [done|]. rewrite app_nil_r. replace (set_ran (ran s) s) with s by (by destruct s).
    by apply evolves_refl. }
  pose proof Hq as (Hnd & Hdisj & Hinv).
  destruct (tq_detached _ _ Hinv e.2) as [t Ht]; [specialize (HX e ltac:(by left)); set_solver +HX|].
  assert (queue_inv X (set_ran (ran s ++ [callback_ t]) s)) as Hq1.
  { split; [done|]. split; [done|]. by eapply tq_inv_ext; [..|exact Hinv]. }
  destruct (run_commands_ok X _ (script (callback_ t) s) Hq1 (script_ok _ _)) as (s1 & E1 & Hev1).
  assert (run_timer alloc script s e = Ok s1) as ->.
  { unfold run_timer, deref. rewrite Ht. exact E1. }
  cbn [mbind outcome_bind].
  destruct (IH s1 (ev_inv _ _ _ Hev1)) as (s2 & -> & Hev2); [intros e' He'; apply HX; by right|].
  exists s2. split; [done|].
  assert (callbacks (heap_ s) (e :: l) = callback_ t :: callbacks (heap_ s) l) as ->.
  { unfold callbacks. cbn [omap list_omap]. by rewrite Ht. }
  assert (callbacks (heap_ s1) l = callbacks (heap_ s) l) as Hcb.
  { apply callbacks_ext. intros e' He'. apply (ev_heap _ _ _ Hev1). apply HX. by right. }
  rewrite Hcb in Hev2. destruct Hev1 as [_ C1 R1 K1 H1 A1 L1], Hev2 as [I2 C2 R2 K2 H2 A2 L2]. simpl in *.
  constructor; simpl; [done|congruence| |lia| |auto|].
  - rewrite R2, R1, <- app_assoc. done.
  - intros p Hp. rewrite H2 by done. by apply H1.
  - intros now Hn. destruct (L1 now Hn) as [?|?]; [auto|right; auto].
Qed.

(** What becomes of an expired timer. *)
Definition survives (s : TimerQueue) (p : ptr) (t : Timer) : bool :=
  repeat_ t && bool_decide ((p, sequence_ t) ∉ cancelingTimers_ s).

Record reset_to (now : Z) (l : list Entry) (s s' : TimerQueue) : Prop := {
  rs_queued : queued s' = queued s;
  rs_ran : ran s' = ran s;
  rs_calling : callingExpiredTimers_ s' = callingExpiredTimers_ s;
  rs_canceling : cancelingTimers_ s' = cancelingTimers_ s;
  rs_clock : clock s' = clock s;
  rs_timerfd : timerfd_ s' = timerfd_ s;
  rs_timers : forall x, x ∈ timers_ s' -> x ∈ timers_ s \/ now <= x.1;
  rs_keep : forall x, x ∈ timers_ s -> x ∈ timers_ s';
  rs_others : forall p, p ∉ l.*2 -> heap_ s' !! p = heap_ s !! p;
  rs_expired : forall e t, e ∈ l -> heap_ s !! e.2 = Some t ->
    if survives s e.2 t then (expiration_ (restarted now t), e.2) ∈ timers_ s' /\ heap_ s' !! e.2 = Some (restarted now t)
    else heap_ s' !! e.2 = None;
}.

Lemma reset_one_ok Q now s e t :
  0 <= now <= max_time -> tq_inv Q s -> e.2 ∈ Q -> heap_ s !! e.2 = Some t ->
  exists s', reset_one now s e = Ok s' /\ tq_inv (Q ∖ {[e.2]}) s' /\ reset_to now [e] s s'.
Proof.
  intros Hnow Hinv He Ht. unfold reset_one, deref. rewrite Ht. cbn [from_some mbind outcome_bind].
  fold (survives s e.2 t). destruct (survives s e.2 t) eqn:Es.
  - assert (timer_ok (restarted now t)) as Hok.
    { destruct (tq_times _ _ Hinv _ _ Ht) as [_ Hiv]. split; [|done]. unfold restarted. cbn [expiration_].
      unfold interval_ok in Hiv. destruct (interval_ t); unfold max_time in *; lia. }
    assert (restart now t = Ok (restarted now t)) as ->.
    { unfold restart. rewrite longs_ok; [done|]. destruct Hok as [Hok _]. unfold max_time in Hok. constructor; [lia|constructor]. }
    cbn [mbind outcome_bind].
    set (s1 := set_heap _ s). assert (tq_inv Q s1) as Hi1 by (by eapply tq_inv_restart).
    destruct (insert_timer_ok Q s1 e.2 (restarted now t) Hi1 He) as (l & a & b & -> & Hi2 & Hin & _);
      [apply lookup_insert_eq|].
    cbn [mbind outcome_bind]. eexists. split; [done|]. split; [done|].
    assert (now <= expiration_ (restarted now t)) as Hlate.
    { unfold survives, repeat_ in Es. unfold restarted. simpl. destruct (interval_ t); [lia|done]. }
    constructor; simpl; try done.
    + intros x Hx. apply Hin in Hx as [->|Hx]; [by right|by left].
    + intros x Hx. apply Hin. by right.
    + intros p Hp. rewrite lookup_insert_ne; [done|]. intros <-. apply Hp. set_solver +.
    + intros e' t' He' Ht'. apply list_elem_of_singleton in He' as ->. rewrite Ht in Ht'. injection Ht' as <-.
      rewrite Es. split; [apply Hin; by left|]. apply lookup_insert_eq.
  - unfold delete_timer, deref. rewrite Ht. cbn [from_some mbind outcome_bind]. eexists. split; [done|].
    split; [by apply tq_inv_delete|]. constructor; simpl; try done.
    + intros x Hx. by left.
    + intros p Hp. rewrite lookup_delete_ne; [done|]. intros <-. apply Hp. set_solver +.
    + intros e' t' He' Ht'. apply list_elem_of_singleton in He' as ->. rewrite Ht in Ht'. injection Ht' as <-.
      rewrite Es. apply lookup_delete_eq.
Qed.

Lemma reset_loop_ok Q now l s :
  0 <= now <= max_time -> NoDup l.*2 -> (forall p, p ∈ l.*2 -> p ∉ Q) -> tq_inv (Q ∪ list_to_set l.*2) s ->
  exists s', foldM (reset_one now) s l = Ok s' /\ tq_inv Q s' /\ reset_to now l s s'.
Proof.
  intros Hnow. revert s. induction l as [|e l IH]; intros s Hnd Hdisj Hinv; cbn [foldM].
  { exists s. split; [done|]. split; [eapply tq_inv_set; [|exact Hinv]; set_solver +|].
    constructor; try done; [intros; by left|]. intros e t He. by apply not_elem_of_nil in He. }
  cbn [fmap list_fmap] in Hnd, Hdisj. apply NoDup_cons in Hnd as [Hn Hnd].
  destruct (tq_detached _ _ Hinv e.2) as [t Ht]; [cbn [fmap list_fmap list_to_set]; set_solver +|].
  destruct (reset_one_ok _ now s e t Hnow Hinv) as (s1 & -> & Hi1 & H1); [cbn [fmap list_fmap list_to_set]; set_solver +|done|].
  cbn [mbind outcome_bind].
  destruct (IH s1) as (s2 & -> & Hi2 & H2); [done|intros p Hp; apply Hdisj; by right| |].
  { eapply tq_inv_set; [|exact Hi1]. cbn [fmap list_fmap list_to_set].
    assert (e.2 ∉ Q) by (apply Hdisj; by left). set_solver +H Hn. }
  exists s2. split; [done|]. split; [done|]. destruct H1 as [Q1 R1 C1 N1 K1 T1 E1 P1 O1 X1], H2 as [Q2 R2 C2 N2 K2 T2 E2 P2 O2 X2].
  constructor; [congruence..| | | |].
  - intros x Hx. apply E2 in Hx as [Hx|Hx]; [by apply E1|by right].
  - intros x Hx. by apply P2, P1.
  - intros p Hp. cbn [fmap list_fmap] in Hp. apply not_elem_of_cons in Hp as [Hp1 Hp2].
    rewrite O2 by done. apply O1. intros Hin. apply list_elem_of_singleton in Hin. done.
  - intros e' t' He' Ht'. destruct (decide (e'.2 ∈ l.*2)) as [Hin|Hnin].
    + assert (e'.2 <> e.2) as Hne by congruence.
      assert (heap_ s1 !! e'.2 = Some t') as Ht1.
      { rewrite O1; [done|]. intros Hi. apply list_elem_of_singleton in Hi. done. }
      apply elem_of_cons in He' as [->|He']; [done|]. specialize (X2 e' t' He' Ht1).
      unfold survives in *. by rewrite N1 in X2.
    + apply elem_of_cons in He' as [->|He'].
      2:{ exfalso. apply Hnin. by apply list_elem_of_fmap_2. }
      specialize (X1 e t' ltac:(by left) Ht'). destruct (survives s e.2 t').
      * destruct X1 as [X1a X1b]. split; [by apply P2|]. by rewrite O2.
      * by rewrite O2.
Qed.

(** The end of [reset]: the descriptor is armed for the earliest timer. *)
Lemma rearm_ok Q s :
  tq_inv Q s ->
  (forall e, e ∈ timers_ s -> 0 < e.1) \/
    (exists al, timerfd_ s = Some al /\ al <= clock s + 100) ->
  exists f,
    (nextExpire ← match timers_ s with
                  | [] => Ok 0
                  | e :: _ => t ← deref e.2 s; Ok (expiration_ t)
                  end;
     if 0 <? nextExpire then resetTimerfd nextExpire s else Ok s) = Ok (set_timerfd f s) /\
    armed (set_timerfd f s).
Proof.
  intros Hinv HK. pose proof (tq_clock _ _ Hinv) as Hck. pose proof (tq_times _ _ Hinv) as Htm. destruct Hinv as [Hs He _ _ _ _ _ _]. destruct (timers_ s) as [|[w p] l] eqn:El.
  { exists (timerfd_ s). cbn [mbind outcome_bind]. split; [f_equal; by destruct s|by left]. }
  destruct (proj1 (He w p)) as (t & Ht & Hw & _); [by left|].
  unfold deref. cbn [fst snd]. rewrite Ht. cbn [from_some mbind outcome_bind].
  destruct (Z.ltb_spec 0 (expiration_ t)) as [Hpos|Hneg].
  - rewrite resetTimerfd_spec by (done || apply (Htm p t Ht)). eexists. split; [done|]. right. eexists. split; [done|]. simpl.
    rewrite El. intros e Hin. apply elem_of_cons in Hin as [->|Hin]; [simpl; lia|].
    pose proof (sorted_head _ _ _ Hs Hin) as Hlt. apply entry_lt_spec in Hlt. simpl in Hlt. lia.
  - exists (timerfd_ s). split; [f_equal; by destruct s|]. right. destruct HK as [HK|(al & Ea & Hal)].
    + specialize (HK (w, p) ltac:(by left)). simpl in HK. lia.
    + exists al. split; [done|]. simpl. intros e _. lia.
Qed.

(** [handleRead] on a queue in order: [s0] is the state when the callbacks
    start, [s1] the one when they have run, [s2] the one after the loop of
    [reset]. *)
Lemma handleRead_ok s :
  0 < clock s -> queue_inv ∅ s ->
  exists due rest a s1 s2 f,
    handleRead alloc script s = Ok (set_timerfd f s2) /\
    queue_inv ∅ (set_timerfd f s2) /\ armed (set_timerfd f s2) /\
    timers_ s = due ++ rest /\ Forall (fun e => e.1 <= clock s) due /\ Forall (fun e => clock s < e.1) rest /\
    foldM (run_timer alloc script)
      (set_canceling ∅ (set_calling true (set_lists rest a (set_timerfd None s)))) due = Ok s1 /\
    evolves (list_to_set due.*2)
      (set_ran (ran s ++ callbacks (heap_ s) due)
        (set_canceling ∅ (set_calling true (set_lists rest a (set_timerfd None s))))) s1 /\
    reset_to (clock s) due (set_calling false s1) s2.
Proof.
  intros Hclk (Hnd & _ & Hinv). unfold handleRead. set (now := clock s).
  assert (tq_inv (list_to_set (queued s)) (set_timerfd None s)) as Hi0.
  { eapply tq_inv_set; [|eapply tq_inv_ext; [..|exact Hinv]; done]. set_solver +. }
  destruct (getExpired_ok _ _ now Hi0) as (due & rest & a & -> & Hsplit & Hdue & Hrest & Hndd & Hdisj & Hi1).
  cbn [mbind outcome_bind]. set (X := list_to_set due.*2 : gset ptr).
  set (s0 := set_canceling ∅ _).
  assert (queue_inv X s0) as Hq0.
  { split; [done|]. split; [intros p Hp HpX; apply elem_of_list_to_set in HpX; apply (Hdisj p HpX), elem_of_list_to_set, Hp|].
    by eapply tq_inv_ext; [..|exact Hi1]. }
  destruct (run_timers_ok X s0 due Hq0) as (s1 & Erun & Hev).
  { intros e He. apply elem_of_list_to_set. by apply list_elem_of_fmap_2. }
  rewrite Erun. cbn [mbind outcome_bind].
  pose proof (ev_inv _ _ _ Hev) as (Hnd1 & Hdisj1 & Hinv1). unfold reset.
  destruct (reset_loop_ok (list_to_set (queued s1)) now due (set_calling false s1)) as (s2 & -> & Hi2 & H2); [apply (tq_clock _ _ Hinv)|done| | |].
  { intros p Hp Hp'. apply elem_of_list_to_set in Hp'. apply (Hdisj1 p Hp'). by apply elem_of_list_to_set. }
  { by eapply tq_inv_ext; [..|exact Hinv1]. }
  cbn [mbind outcome_bind]. destruct (rearm_ok _ s2 Hi2) as (f & -> & Harm).
  { pose proof (ev_late _ _ _ Hev now) as L1. pose proof (ev_clock _ _ _ Hev) as K1. simpl in L1, K1.
    rewrite (rs_clock _ _ _ _ H2), (rs_timerfd _ _ _ _ H2). simpl.
    assert (forall e, e ∈ rest -> now < e.1) as Hlate by (apply Forall_forall, Hrest).
    assert ((forall e, e ∈ timers_ s1 -> 0 < e.1) ->
      forall e, e ∈ timers_ s2 -> 0 < e.1) as Hpos.
    { intros Hp e He. apply (rs_timers _ _ _ _ H2) in He as [He|He]; [by apply Hp|lia]. }
    destruct (L1 Hlate) as [Hl|[Hnil|(al & Ea & Hal)]].
    - left. apply Hpos. intros e He. specialize (Hl e He). lia.
    - left. apply Hpos. rewrite Hnil. intros e He. by apply not_elem_of_nil in He.
    - destruct (decide (Exists (fun e : Entry => e.1 <= 0) (timers_ s1))) as [Hex|Hnex].
      + right. apply Exists_exists in Hex as (e & He & Hle). exists al. split; [done|].
        specialize (Hal e He). lia.
      + left. apply Hpos. intros e He. apply Z.nle_gt. intros Hle. apply Hnex, Exists_exists. by exists e. }
  exists due, rest, a, s1, s2, f. split; [done|]. split; [|by repeat (split; [done|])].
  split; [simpl; by rewrite (rs_queued _ _ _ _ H2)|]. split; [intros p _; apply not_elem_of_empty|].
  eapply tq_inv_set; [|eapply tq_inv_ext; [..|exact Hi2]; done]. simpl.
  rewrite (rs_queued _ _ _ _ H2). set_solver +.
Qed.

(** ** Events *)

(** A queue between two events. *)
Record queue_ready (s : TimerQueue) : Prop := {
  qr_inv : queue_inv ∅ s;
  qr_armed : armed s;
  qr_idle : callingExpiredTimers_ s = false;
  qr_clock : 0 < clock s;
}.

Lemma new_TimerQueue_ready now : 0 < now <= max_time -> queue_ready (new_TimerQueue now).
Proof.
  intros Hn. constructor; [|by left|done|apply Hn].
  split; [constructor|]. split; [intros p Hp; by apply not_elem_of_nil in Hp|].
  constructor; simpl; [constructor| | |done|set_solver +| | |lia].
  - intros w p. split; [intros H; by apply not_elem_of_nil in H|]. intros (t & Ht & _). by rewrite lookup_empty in Ht.
  - intros p q. split; [set_solver +|]. intros (t & Ht & _). by rewrite lookup_empty in Ht.
  - intros p t Ht. by rewrite lookup_empty in Ht.
  - intros p t Ht. by rewrite lookup_empty in Ht.
Qed.

(** Another thread reads the number of a timer that is gone. *)
Definition late_read (s : TimerQueue) (e : event) : Prop :=
  exists p q, e = ReadSequence (p, q) /\ forall t, heap_ s !! p = Some t -> sequence_ t <> q.

Lemma read_sequence_spec s p q :
  read_sequence (p, q) s = Ok s \/
  late_read s (ReadSequence (p, q)) /\ read_sequence (p, q) s = Fail Undefined.
Proof.
  unfold read_sequence, deref. cbn [fst snd]. destruct (heap_ s !! p) as [t|] eqn:Et; cbn [from_some mbind outcome_bind].
  - destruct (Z.eqb_spec (sequence_ t) q) as [E|E]; [by left|right]. split; [|done].
    exists p, q. split; [done|]. intros t' Et'. congruence.
  - right. split; [|done]. exists p, q. split; [done|]. intros t' Et'. congruence.
Qed.

Lemma handle_event_ok s e :
  queue_ready s -> event_ok e ->
  (exists s', handle_event alloc script s e = Ok s' /\ queue_ready s') \/
  late_read s e /\ handle_event alloc script s e = Fail Undefined.
Proof.
  intros [Hi Ha Hc Hk] He. destruct e as [c| |[p q]]; cbn [handle_event].
  - left. destruct (run_command_ok ∅ s c Hi He) as (s' & -> & [I C _ K _ A _]). exists s'. split; [done|].
    constructor; [done|by apply A|congruence|lia].
  - left. destruct (handleRead_ok s Hk Hi) as (due & rest & a & s1 & s2 & f & -> & Hi' & Ha' & _ & _ & _ & _ & Hev & Hr).
    eexists. split; [done|]. pose proof (ev_clock _ _ _ Hev) as K1. pose proof (rs_clock _ _ _ _ Hr) as K2.
    pose proof (rs_calling _ _ _ _ Hr) as C2. simpl in *.
    constructor; simpl; [done|done|by rewrite C2|by rewrite K2; lia].
  - destruct (read_sequence_spec s p q) as [->|?]; [left|by right]. by exists s.
Qed.

Lemma handle_events_ok l s :
  queue_ready s -> Forall event_ok l ->
  (exists s', foldM (handle_event alloc script) s l = Ok s' /\ queue_ready s') \/
  (exists l1 e l2 s1, l = l1 ++ e :: l2 /\ foldM (handle_event alloc script) s l1 = Ok s1 /\ late_read s1 e /\
     foldM (handle_event alloc script) s l = Fail Undefined).
Proof.
  revert s. induction l as [|e l IH]; intros s Hs Hl; cbn [foldM]; [left; by exists s|].
  apply Forall_cons in Hl as [He Hl]. destruct (handle_event_ok s e Hs He) as [(s1 & E1 & Hs1)|[Hlate E1]].
  - rewrite E1. cbn [mbind outcome_bind]. destruct (IH s1 Hs1 Hl) as [?|(l1 & e' & l2 & s2 & -> & E2 & Hlate & E3)]; [by left|right].
    exists (e :: l1), e', l2, s2. split; [done|]. split; [cbn [foldM]; by rewrite E1|done].
  - right. exists [], e, l, s. split; [done|]. split; [done|]. split; [done|]. by rewrite E1.
Qed.
End commands.

(** ** Properties *)

(** A fresh address. *)
Definition next_address (h : gmap ptr Timer) : ptr := fresh (dom h : gset ptr).

Lemma next_address_fresh h : h !! next_address h = None.
Proof. apply not_elem_of_dom. unfold next_address. apply is_fresh. Qed.

(** C7: whatever the callbacks, the program and the other threads do with a
    timer queue, in any order, with times and intervals below 2^61
    microseconds and a clock that does not go back: every run ends, no
    assertion fails, no integer overflows and the loop uses no deleted timer.
    The one thing that can go wrong is that another thread, at the end of its
    [addTimer], reads the number of a timer that the loop has deleted in the
    meantime; that is undefined.  Otherwise every timer that exists is
    scheduled under its expiration or waits in the loop's queue, nothing else
    is scheduled, and the timer descriptor alarms in time for the earliest
    timer (100 microseconds from now at the earliest); and the destructor
    deletes exactly the scheduled timers, each once (those in the loop's
    queue are left). *)
Theorem timer_queue_safe (alloc : gmap ptr Timer -> ptr)
    (script : callback -> TimerQueue -> list command) (now : Z) (events : list event) :
  (forall h, h !! alloc h = None) -> 0 < now <= max_time ->
  (forall cb s, Forall command_ok (script cb s)) -> Forall event_ok events ->
  (exists s, foldM (handle_event alloc script) (new_TimerQueue now) events = Ok s /\
    sorted (timers_ s) /\ armed s /\ callingExpiredTimers_ s = false /\
    (forall w p, (w, p) ∈ timers_ s <->
      exists t, heap_ s !! p = Some t /\ expiration_ t = w /\ p ∉ queued s) /\
    (forall p q, (p, q) ∈ activeTimers_ s <->
      exists t, heap_ s !! p = Some t /\ sequence_ t = q /\ p ∉ queued s) /\
    exists s', delete_TimerQueue s = Ok s' /\
      forall p, is_Some (heap_ s' !! p) <-> is_Some (heap_ s !! p) /\ p ∈ queued s) \/
  (exists before p q after s, events = before ++ ReadSequence (p, q) :: after /\
    foldM (handle_event alloc script) (new_TimerQueue now) before = Ok s /\
    (forall t, heap_ s !! p = Some t -> sequence_ t <> q) /\
    foldM (handle_event alloc script) (new_TimerQueue now) events = Fail Undefined).
Proof.
  intros Hf Hn Hsc Hev.
  destruct (handle_events_ok alloc Hf script Hsc events _ (new_TimerQueue_ready now Hn) Hev)
    as [(s & -> & [(_ & _ & Hinv) Harm Hc _])|(l1 & e & l2 & s & -> & E1 & (p & q & -> & Hlate) & E2)].
  2:{ right. by exists l1, p, q, l2, s. }
  left. pose proof (entries_NoDup _ _ Hinv) as Hnd.
  destruct Hinv as [Hs He Ha _ _ _ _ _].
  assert (forall p : ptr, p ∉ (list_to_set (queued s) ∪ ∅ : gset ptr) <-> p ∉ queued s) as Hq by set_solver +.
  setoid_rewrite Hq in He. setoid_rewrite Hq in Ha. exists s. do 6 (split; [done|]).
  destruct (delete_timers_ok (timers_ s) s Hnd) as (h & E & Hh).
  { intros [w p] Hin. apply He in Hin as (t & Ht & _). by exists t. }
  exists (set_heap h s). split; [exact E|]. intros p. simpl. split.
  - intros [t Ht]. apply Hh in Ht as [Ht Hn']. split; [by exists t|].
    destruct (decide (p ∈ queued s)) as [?|Hnq]; [done|]. exfalso. apply Hn'.
    assert ((expiration_ t, p) ∈ timers_ s) as Hin by (apply He; by exists t).
    by apply (list_elem_of_fmap_2 snd) in Hin.
  - intros [[t Ht] Hin]. exists t. apply Hh. split; [done|]. intros Hl.
    apply list_elem_of_fmap in Hl as ([w p'] & -> & Hl). apply He in Hl as (_ & _ & _ & ?). done.
Qed.

(** A repeating timer whose callback cancels it and adds another one, and a
    timer of another thread. *)
Definition demo_script (cb : callback) (s : TimerQueue) : list command :=
  match cb with 1%positive => [Cancel (1%positive, 1); AddTimer 2%positive 50 None] | _ => [Tick 1207] end.
Definition demo_events : list event :=
  [Do (AddTimer 1%positive 1100 (Some 500%N)); Do (AddFromThread 3%positive 900 None); ReadSequence (2%positive, 2);
   Do RunQueued; Do (Tick 1200); Alarm; Alarm].

Lemma demo_script_ok cb s : Forall command_ok (demo_script cb s).
Proof. destruct cb; unfold demo_script; rewrite !Forall_cons, Forall_nil; cbn; unfold max_time; lia. Qed.
Lemma demo_events_ok : Forall event_ok demo_events.
Proof. unfold demo_events. rewrite !Forall_cons, Forall_nil. cbn. unfold max_time. lia. Qed.

Lemma timer_queue_safe_witness :
  exists s, foldM (handle_event next_address demo_script) (new_TimerQueue 1000) demo_events = Ok s /\
    sorted (timers_ s) /\ armed s /\ callingExpiredTimers_ s = false /\
    (forall w p, (w, p) ∈ timers_ s <->
      exists t, heap_ s !! p = Some t /\ expiration_ t = w /\ p ∉ queued s) /\
    (forall p q, (p, q) ∈ activeTimers_ s <->
      exists t, heap_ s !! p = Some t /\ sequence_ t = q /\ p ∉ queued s) /\
    exists s', delete_TimerQueue s = Ok s' /\
      forall p, is_Some (heap_ s' !! p) <-> is_Some (heap_ s !! p) /\ p ∈ queued s.
Proof.
  destruct (timer_queue_safe next_address demo_script 1000 demo_events) as [H|(l1 & p & q & l2 & s & _ & _ & _ & E)].
  - exact next_address_fresh.
  - unfold max_time. lia.
  - exact demo_script_ok.
  - exact demo_events_ok.
  - exact H.
  - vm_compute in E. discriminate E.
Defined.

(** The read that comes too late: the loop has inserted, run and deleted
    the timer before the thread that added it reads its number. *)
Lemma sequence_read_too_late :
  foldM (handle_event next_address (fun _ _ => [])) (new_TimerQueue 1000)
    [Do (AddFromThread 3%positive 900 None); Do RunQueued; Alarm; ReadSequence (1%positive, 1)] = Fail Undefined.
Proof. vm_compute. reflexivity. Qed.

(** When the alarm goes off, [handleRead] runs the callbacks of exactly
    the timers that are due, in the order of their expiration, once each,
    even those that a callback cancels on the way; then a repeating timer
    is scheduled again one interval from [now] unless its callback (or
    another one) cancelled it, and every other one is deleted; a timer that
    was not due is not touched by this. *)
Theorem handleRead_runs_expired (alloc : gmap ptr Timer -> ptr)
    (script : callback -> TimerQueue -> list command) (s : TimerQueue) :
  (forall h, h !! alloc h = None) -> (forall cb s, Forall command_ok (script cb s)) -> queue_ready s ->
  exists due rest s',
    handleRead alloc script s = Ok s' /\ queue_ready s' /\ timers_ s = due ++ rest /\
    Forall (fun e => e.1 <= clock s) due /\ Forall (fun e => clock s < e.1) rest /\
    ran s' = ran s ++ callbacks (heap_ s) due /\ length (callbacks (heap_ s) due) = length due /\
    forall w p, (w, p) ∈ due -> exists t, heap_ s !! p = Some t /\
      if repeat_ t && bool_decide ((p, sequence_ t) ∉ cancelingTimers_ s')
      then heap_ s' !! p = Some (restarted (clock s) t) /\
        (expiration_ (restarted (clock s) t), p) ∈ timers_ s'
      else heap_ s' !! p = None.
Proof.
  intros Hf Hsc Hs. pose proof Hs as [Hi _ _ Hk].
  destruct (handle_event_ok alloc Hf script Hsc s Alarm Hs I) as [(s' & Es' & Hr')|[(p & q & Hx & _) _]]; [|discriminate Hx].
  destruct (handleRead_ok alloc Hf script Hsc s Hk Hi)
    as (due & rest & a & s1 & s2 & f & E & _ & _ & Hsplit & Hd & Hr & _ & Hev & Hreset).
  cbn [handle_event] in Es'. rewrite E in Es'. injection Es' as <-.
  destruct Hi as (_ & _ & [_ He _ _ _ _ _ _]).
  assert (forall w p, (w, p) ∈ due -> exists t, heap_ s !! p = Some t) as Hlive.
  { intros w p Hin. destruct (proj1 (He w p)) as (t & Ht & _); [|by exists t].
    rewrite Hsplit. apply elem_of_app. by left. }
  exists due, rest, (set_timerfd f s2). split; [done|]. split; [done|]. split; [done|]. split; [done|]. split; [done|].
  split; [simpl; rewrite (rs_ran _ _ _ _ Hreset); simpl; by rewrite (ev_ran _ _ _ Hev)|]. split.
  - clear -Hlive. induction due as [|[w p] due IH]; [done|]. unfold callbacks in *. cbn [omap list_omap].
    destruct (Hlive w p) as [t Ht]; [by left|]. simpl. rewrite Ht. simpl. f_equal. apply IH.
    intros w' p' Hin. apply (Hlive w'). by right.
  - intros w p Hin. destruct (Hlive w p Hin) as [t Ht]. exists t. split; [done|].
    pose proof (rs_expired _ _ _ _ Hreset (w, p) t Hin) as Hx. simpl in Hx.
    rewrite (ev_heap _ _ _ Hev) in Hx.
    2:{ apply elem_of_list_to_set. by apply (list_elem_of_fmap_2 snd) in Hin. }
    specialize (Hx Ht). unfold survives in Hx. cbn [cancelingTimers_ set_timerfd heap_ timers_].
    rewrite (rs_canceling _ _ _ _ Hreset). simpl in *.
    destruct (_ && _); [|done]. destruct Hx. done.
Qed.

(** A queue with a repeating timer and one that runs once, both due. *)
Definition example_queue : outcome TimerQueue :=
  foldM (handle_event next_address (fun _ _ => [])) (new_TimerQueue 1000)
    [Do (AddTimer 1%positive 1100 (Some 500%N)); Do (AddTimer 2%positive 1050 None); Do (Tick 1200)].

Lemma example_queue_ready : exists s, example_queue = Ok s /\ queue_ready s.
Proof.
  destruct (handle_events_ok next_address next_address_fresh (fun _ _ => []) ltac:(by constructor)
    [Do (AddTimer 1%positive 1100 (Some 500%N)); Do (AddTimer 2%positive 1050 None); Do (Tick 1200)]
    _ (new_TimerQueue_ready 1000 ltac:(unfold max_time; lia))) as [(s & E & Hs)|(l1 & e & l2 & s & _ & _ & _ & E)].
  - rewrite !Forall_cons, Forall_nil. cbn. unfold max_time. lia.
  - by exists s.
  - vm_compute in E. discriminate E.
Qed.

Lemma handleRead_runs_expired_witness :
  exists s, example_queue = Ok s /\ exists due rest s',
    handleRead next_address (fun _ _ => [Tick 1203]) s = Ok s' /\ queue_ready s' /\ timers_ s = due ++ rest /\
    Forall (fun e => e.1 <= clock s) due /\ Forall (fun e => clock s < e.1) rest /\
    ran s' = ran s ++ callbacks (heap_ s) due /\ length (callbacks (heap_ s) due) = length due /\
    forall w p, (w, p) ∈ due -> exists t, heap_ s !! p = Some t /\
      if repeat_ t && bool_decide ((p, sequence_ t) ∉ cancelingTimers_ s')
      then heap_ s' !! p = Some (restarted (clock s) t) /\
        (expiration_ (restarted (clock s) t), p) ∈ timers_ s'
      else heap_ s' !! p = None.
Proof.
  destruct example_queue_ready as (s & E & Hs).
  exists s. split; [exact E|]. apply handleRead_runs_expired; [apply next_address_fresh| |exact Hs].
  intros _ _. rewrite !Forall_cons, Forall_nil. cbn. unfold max_time. lia.
Defined.

(** Cancelling the timer that [addTimer] just returned restores the
    timers that were there before; and a timer id whose timer is gone is
    harmless, although the address in it may belong to another timer by
    then: [cancelInLoop] changes no timer. *)
Theorem cancel_undoes_add (alloc : gmap ptr Timer -> ptr) (X : gset ptr) (s : TimerQueue)
    (cb : callback) (when : Z) (i : Interval) :
  (forall h, h !! alloc h = None) -> queue_inv X s -> - max_time <= when <= max_time -> interval_ok i ->
  (exists s1 id s2,
    addTimer alloc cb when i s = Ok (s1, id) /\ (when, id.1) ∈ timers_ s1 /\ id ∉ activeTimers_ s /\
    cancelInLoop id s1 = Ok s2 /\ queue_inv X s2 /\ heap_ s2 = heap_ s /\ timers_ s2 = timers_ s /\
    cancelingTimers_ s2 = cancelingTimers_ s) /\
  (forall p q, (forall t, heap_ s !! p = Some t -> sequence_ t <> q) ->
    exists s2, cancelInLoop (p, q) s = Ok s2 /\ heap_ s2 = heap_ s /\ timers_ s2 = timers_ s /\
      activeTimers_ s2 = activeTimers_ s).
Proof.
  intros Hf (Hnd & Hdisj & Hinv) Hw Hiv. set (Q := list_to_set (queued s) ∪ X) in *. split.
  - unfold addTimer. pose proof (new_Timer_ok alloc Hf Q s cb when i Hinv Hw Hiv) as Hn.
    destruct (new_Timer alloc cb when i s) as [s0 p]. destruct Hn as (Hp & HpQ & Es0 & Hi0).
    set (t := mkTimer cb when i (s_numCreated_ s + 1)) in *.
    assert (heap_ s0 !! p = Some t) as Ht by (rewrite Es0; apply lookup_insert_eq).
    destruct (addTimerInLoop_ok _ s0 p t Hi0) as (l & a & f & -> & Hi1 & Hin & _); [set_solver +|done|].
    cbn [mbind outcome_bind]. unfold deref. cbn [heap_ set_timerfd set_lists]. rewrite Ht. cbn [from_some mbind outcome_bind].
    eexists _, _. rewrite Es0 in *. simpl in *.
    assert ((p, s_numCreated_ s + 1) ∈ a) as Hact.
    { apply (tq_active _ _ Hi1). simpl. exists t. split; [done|]. split; [done|]. set_solver +HpQ. }
    destruct (cancelInLoop_ok _ _ (p, s_numCreated_ s + 1) Hi1)
      as (s2 & E2 & Hi2 & Hq & _ & _ & _ & _ & _ & Hel & Hheap & _).
    specialize (Hheap Hact) as [Hheap Hcan]. simpl in *. exists s2. split; [done|].
    split; [apply Hin; by left|]. split.
    { intros Hin'. apply (tq_active _ _ Hinv) in Hin' as (t' & Ht' & _). congruence. }
    split; [done|]. rewrite delete_insert_id in Hheap by done.
    assert (tq_inv Q s2) as Hi3 by (eapply tq_inv_set; [|exact Hi2]; set_solver +HpQ).
    split; [split; [by rewrite Hq|split; by rewrite Hq]|]. split; [done|]. split; [|done].
    apply sorted_ext; [apply (tq_sorted _ _ Hi3)|apply (tq_sorted _ _ Hinv)|]. intros [w p'].
    rewrite (tq_entry _ _ Hi3), (tq_entry _ _ Hinv), Hheap. done.
  - intros p q Hstale. destruct (cancelInLoop_ok Q s (p, q) Hinv)
      as (s2 & -> & _ & _ & _ & _ & _ & _ & _ & _ & _ & Hno).
    exists s2. split; [done|]. destruct Hno as (H1 & H2 & H3 & _); [|done].
    intros Hin. apply (tq_active _ _ Hinv) in Hin as (t & Ht & Hq & _). by apply (Hstale t).
Qed.

Lemma cancel_undoes_add_witness :
  exists s, example_queue = Ok s /\
  (exists s1 id s2,
    addTimer next_address 5%positive 1300 None s = Ok (s1, id) /\ (1300, id.1) ∈ timers_ s1 /\ id ∉ activeTimers_ s /\
    cancelInLoop id s1 = Ok s2 /\ queue_inv ∅ s2 /\ heap_ s2 = heap_ s /\ timers_ s2 = timers_ s /\
    cancelingTimers_ s2 = cancelingTimers_ s) /\
  (forall p q, (forall t, heap_ s !! p = Some t -> sequence_ t <> q) ->
    exists s2, cancelInLoop (p, q) s = Ok s2 /\ heap_ s2 = heap_ s /\ timers_ s2 = timers_ s /\
      activeTimers_ s2 = activeTimers_ s).
Proof.
  destruct example_queue_ready as (s & E & Hs).
  exists s. split; [exact E|]. apply cancel_undoes_add; [apply next_address_fresh|apply (qr_inv _ Hs)|unfold max_time; lia|done].
Defined.
