(* ===== verification/EventLoop.v ===== *)
(** * EventLoop: one loop per thread

    Models [muduo::EventLoop] of [reactor/s13/EventLoop.h] and
    [EventLoop.cc]: the loop, the queue of pending functors, the wakeup
    descriptor and [quit], for any number of threads that use one loop.  The
    code of each thread is a stack of instructions; an instruction is what
    runs without interruption (one access to a shared member, one system
    call).  What callbacks do is given by a table of scripts. *)
From stdpp Require Import relations.
From S2P Require Import Prelude.

Abbreviation tid := positive.
Abbreviation Functor := positive.

(** What [poll] reports: the wakeup channel, or another one. *)
Inductive active := WakeupChannel | OtherChannel (c : positive).

(** Calls a program makes, and the pieces the loop's functions consist of. *)
Inductive instr :=
| RunInLoop (cb : Functor)
| QueueInLoop (cb : Functor)
| WakeupIfNeeded
| Wakeup
| Quit
| AssertInLoopThread
| Loop
| Test
| Poll
| Handle (activeChannels_ : list active)
| DoPendingFunctors
| Swap
| RunFunctors (functors : list Functor).

(** [eventfd]: the counter of the wakeup descriptor.  The other added
    members record history: every functor that was queued, those the loop
    took out of the queue and called, every call of a functor with its
    thread, and whether the loop's own thread has queued a functor outside
    [loop()] that is still pending. *)
Record EventLoop := mkEventLoop {
  looping_ : bool;
  quit_ : bool;
  callingPendingFunctors_ : bool;
  threadId_ : tid;
  pendingFunctors_ : list Functor;
  eventfd : Z;
  submitted : list Functor;
  executed : list Functor;
  calls : list (tid * Functor);
  early : bool;
}.

Definition new_EventLoop (t : tid) : EventLoop :=
  mkEventLoop false false false t [] 0 [] [] [] false.

Definition set_looping b e := mkEventLoop b (quit_ e) (callingPendingFunctors_ e) (threadId_ e)
  (pendingFunctors_ e) (eventfd e) (submitted e) (executed e) (calls e) (early e).
Definition set_quit b e := mkEventLoop (looping_ e) b (callingPendingFunctors_ e) (threadId_ e)
  (pendingFunctors_ e) (eventfd e) (submitted e) (executed e) (calls e) (early e).
Definition set_calling b e := mkEventLoop (looping_ e) (quit_ e) b (threadId_ e)
  (pendingFunctors_ e) (eventfd e) (submitted e) (executed e) (calls e) (early e).
Definition set_eventfd n e := mkEventLoop (looping_ e) (quit_ e) (callingPendingFunctors_ e) (threadId_ e)
  (pendingFunctors_ e) n (submitted e) (executed e) (calls e) (early e).
Definition take_pending e := mkEventLoop (looping_ e) (quit_ e) (callingPendingFunctors_ e) (threadId_ e)
  [] (eventfd e) (submitted e) (executed e) (calls e) false.
Definition log_call t cb e := mkEventLoop (looping_ e) (quit_ e) (callingPendingFunctors_ e) (threadId_ e)
  (pendingFunctors_ e) (eventfd e) (submitted e) (executed e) (calls e ++ [(t, cb)]) (early e).
Definition log_executed cb e := mkEventLoop (looping_ e) (quit_ e) (callingPendingFunctors_ e) (threadId_ e)
  (pendingFunctors_ e) (eventfd e) (submitted e) (executed e ++ [cb]) (calls e) (early e).

Definition isInLoopThread (t : tid) (e : EventLoop) : bool := bool_decide (threadId_ e = t).
Definition assertInLoopThread (t : tid) (e : EventLoop) : outcome unit :=
  if isInLoopThread t e then Ok tt else Fail LogFatal.

(** [pendingFunctors_.push_back(cb)] by thread [t], under the lock. *)
Definition push_functor (t : tid) (cb : Functor) (e : EventLoop) : EventLoop :=
  mkEventLoop (looping_ e) (quit_ e) (callingPendingFunctors_ e) (threadId_ e)
    (pendingFunctors_ e ++ [cb]) (eventfd e) (submitted e ++ [cb]) (executed e) (calls e)
    (early e || (isInLoopThread t e && negb (looping_ e))).

(** The loop and the code of every thread. *)
Abbreviation state := (EventLoop * gmap tid (list instr))%type.

Section scripts.
(** What functors and the callbacks of other channels do. *)
Context (script : Functor -> list instr) (onEvent : positive -> list instr).

(** One instruction of thread [t]: the new state and the instructions that
    take its place.  [polled] is what [poll] returns, if it is called. *)
Definition exec (polled : list active) (t : tid) (i : instr) (e : EventLoop) :
    outcome (EventLoop * list instr) :=
  match i with
  | RunInLoop cb =>
      if isInLoopThread t e then Ok (log_call t cb e, script cb) else Ok (e, [QueueInLoop cb])
  | QueueInLoop cb => Ok (push_functor t cb e, [WakeupIfNeeded])
  | WakeupIfNeeded =>
      Ok (e, if negb (isInLoopThread t e) || callingPendingFunctors_ e then [Wakeup] else [])
  | Wakeup => Ok (set_eventfd (eventfd e + 1) e, [])
  | Quit => Ok (set_quit true e, if negb (isInLoopThread t e) then [Wakeup] else [])
  | AssertInLoopThread => _ ← assertInLoopThread t e; Ok (e, [])
  | Loop =>
      _ ← assert_ (negb (looping_ e));
      _ ← assertInLoopThread t e;
      Ok (set_quit false (set_looping true e), [Test])
  | Test =>
      if quit_ e then Ok (set_looping false e, [])
      else Ok (e, [Poll; DoPendingFunctors; Test])
  | Poll => Ok (e, [Handle polled])
  | Handle [] => Ok (e, [])
  | Handle (WakeupChannel :: cs) => Ok (set_eventfd 0 e, [Handle cs])
  | Handle (OtherChannel c :: cs) => Ok (e, onEvent c ++ [Handle cs])
  | DoPendingFunctors => Ok (set_calling true e, [Swap])
  | Swap => Ok (take_pending e, [RunFunctors (pendingFunctors_ e)])
  | RunFunctors [] => Ok (set_calling false e, [])
  | RunFunctors (cb :: cs) =>
      Ok (log_executed cb (log_call t cb e), script cb ++ [RunFunctors cs])
  end.

(** The wakeup descriptor is reported only while its counter is positive. It
    may be missing from a report although it is readable: [epoll_wait] was
    interrupted, or its list of events was full. An empty report is a
    timeout. *)
Definition poll_ok (polled : list active) (e : EventLoop) : Prop :=
  WakeupChannel ∈ polled -> 0 < eventfd e.

Inductive step : state -> state -> Prop :=
| step_thread polled t i k e e' more threads :
    threads !! t = Some (i :: k) ->
    (i = Poll -> poll_ok polled e) ->
    exec polled t i e = Ok (e', more) ->
    step (e, threads) (e', <[t := more ++ k]> threads).

(** Calls that a callback or any thread may make. *)
Definition is_call (i : instr) : bool :=
  match i with
  | RunInLoop _ | QueueInLoop _ | WakeupIfNeeded | Wakeup | Quit => true
  | _ => false
  end.

(** In the loop's own thread also [updateChannel] and [removeChannel], which
    assert the thread; and outside of callbacks [loop()]. *)
Definition is_loop_call (i : instr) : bool :=
  match i with AssertInLoopThread => true | _ => is_call i end.
Definition is_main (i : instr) : bool :=
  match i with Loop => true | _ => is_loop_call i end.

(** Where the loop's thread is. *)
Inductive phase :=
| Idle | Testing | Polling | Handling (cs : list active) | Doing | Swapping
| Running (fs : list Functor).

Definition frame (p : phase) : list instr :=
  match p with
  | Idle => []
  | Testing => [Test]
  | Polling => [Poll; DoPendingFunctors; Test]
  | Handling cs => [Handle cs; DoPendingFunctors; Test]
  | Doing => [DoPendingFunctors; Test]
  | Swapping => [Swap; Test]
  | Running fs => [RunFunctors fs; Test]
  end.

(** The functors taken out of the queue and not called yet. *)
Definition batch (p : phase) : list Functor := match p with Running fs => fs | _ => [] end.
Definition is_idle (p : phase) : bool := match p with Idle => true | _ => false end.
Definition in_functors (p : phase) : bool :=
  match p with Swapping | Running _ => true | _ => false end.
(** The queue will be emptied in this iteration. *)
Definition before_swap (p : phase) : bool :=
  match p with Handling _ | Doing | Swapping => true | _ => false end.
(** The loop's thread may be inside a callback. *)
Definition in_callback (p : phase) : bool :=
  match p with Idle | Handling _ | Running _ => true | _ => false end.

(** Thread [t] is about to write to the wakeup descriptor. *)
Definition owes_wakeup (e : EventLoop) (t : tid) (k : list instr) : Prop :=
  match k with
  | Wakeup :: _ => True
  | WakeupIfNeeded :: _ => negb (isInLoopThread t e) || callingPendingFunctors_ e = true
  | _ => False
  end.
Definition owed (s : state) : Prop :=
  exists t k, s.2 !! t = Some k /\ owes_wakeup s.1 t k.

Record loop_inv (p : phase) (pre main : list instr) (s : state) : Prop := {
  li_code : s.2 !! threadId_ s.1 = Some (pre ++ frame p ++ main);
  li_pre : Forall is_loop_call pre;
  li_main : Forall is_main main;
  li_prefix : in_callback p = false -> pre = [];
  li_others : forall t k, s.2 !! t = Some k -> t <> threadId_ s.1 -> Forall is_call k;
  li_looping : looping_ s.1 = negb (is_idle p);
  li_calling : callingPendingFunctors_ s.1 = in_functors p;
  li_order : submitted s.1 = executed s.1 ++ batch p ++ pendingFunctors_ s.1;
  li_calls : Forall (fun c => c.1 = threadId_ s.1) (calls s.1);
  li_eventfd : 0 <= eventfd s.1;
  li_wakeup : early s.1 = false -> pendingFunctors_ s.1 <> [] ->
    before_swap p = false -> 0 < eventfd s.1 \/ owed s;
  li_quit : quit_ s.1 = true -> p = Polling -> 0 < eventfd s.1 \/ owed s;
}.

Definition loop_ok (s : state) : Prop := exists p pre main, loop_inv p pre main s.

(** ** Lemmas *)

Lemma isInLoopThread_spec t e : isInLoopThread t e = true <-> t = threadId_ e.
Proof. unfold isInLoopThread. rewrite bool_decide_eq_true. split; congruence. Qed.

Lemma isInLoopThread_other t e : t <> threadId_ e -> isInLoopThread t e = false.
Proof. intros Hne. apply bool_decide_eq_false. congruence. Qed.

Lemma isInLoopThread_self e : isInLoopThread (threadId_ e) e = true.
Proof. by apply isInLoopThread_spec. Qed.

Lemma owed_self e t k m : owes_wakeup e t k -> owed (e, <[t := k]> m).
Proof. intros Ho. exists t, k. split; [apply lookup_insert_eq|done]. Qed.

Lemma owed_step e e' m t k k' :
  m !! t = Some k -> threadId_ e' = threadId_ e ->
  (t <> threadId_ e -> callingPendingFunctors_ e' = callingPendingFunctors_ e) ->
  (owes_wakeup e t k -> owes_wakeup e' t k' \/ 0 < eventfd e') ->
  owed (e, m) -> 0 < eventfd e' \/ owed (e', <[t := k']> m).
Proof.
  intros Ht Hid Hcall Hself (t' & k'' & Hk & Ho). simpl in Hk. destruct (decide (t' = t)) as [->|Hne].
  - rewrite Ht in Hk. injection Hk as <-. destruct (Hself Ho) as [?|?]; [right|by left].
    by apply owed_self.
  - right. exists t', k''. simpl. split; [by rewrite lookup_insert_ne|].
    destruct k'' as [|[] k'']; simpl in *; try done. unfold isInLoopThread in *. rewrite Hid.
    case_bool_decide as Hl; [|done]. simpl in *. rewrite Hcall; [done|congruence].
Qed.

(** A step of another thread. *)
Lemma exec_other polled t i e e' more k :
  t <> threadId_ e -> is_call i = true -> 0 <= eventfd e -> exec polled t i e = Ok (e', more) ->
  Forall is_call more /\ threadId_ e' = threadId_ e /\ looping_ e' = looping_ e /\
  callingPendingFunctors_ e' = callingPendingFunctors_ e /\ executed e' = executed e /\
  calls e' = calls e /\ early e' = early e /\ eventfd e <= eventfd e' /\
  (exists l, submitted e' = submitted e ++ l /\ pendingFunctors_ e' = pendingFunctors_ e ++ l /\
    (l <> [] -> owes_wakeup e' t (more ++ k))) /\
  (quit_ e' = true -> quit_ e = true \/ owes_wakeup e' t (more ++ k)) /\
  (owes_wakeup e t (i :: k) -> owes_wakeup e' t (more ++ k) \/ 0 < eventfd e').
Proof.
  intros Hne Hc Hfd E. pose proof (isInLoopThread_other t e Hne) as Hl.
  destruct i; try done; cbn [exec] in E; rewrite ?Hl in E; injection E as <- <-; simpl;
    rewrite ?Hl, ?orb_false_r; (split; [by repeat constructor|]); do 6 (split; [done|]);
    (split; [lia|]).
  - split; [exists []; by rewrite !app_nil_r|]. split; [by left|done].
  - split; [exists [cb]; split; [done|split; [done|]]|split; [by left|done]].
    intros _. change (negb (isInLoopThread t e) || callingPendingFunctors_ e = true). by rewrite Hl.
  - split; [exists []; by rewrite !app_nil_r|]. split; [by left|by left].
  - split; [exists []; by rewrite !app_nil_r|]. split; [by left|]. intros _. right. lia.
  - split; [exists []; by rewrite !app_nil_r|]. split; [by right|by left].
Qed.

(** A call in the loop's own thread. *)
Lemma exec_call polled i e e' more k :
  (forall f, Forall is_loop_call (script f)) ->
  is_loop_call i = true -> 0 <= eventfd e -> exec polled (threadId_ e) i e = Ok (e', more) ->
  Forall is_loop_call more /\ threadId_ e' = threadId_ e /\ looping_ e' = looping_ e /\
  callingPendingFunctors_ e' = callingPendingFunctors_ e /\ executed e' = executed e /\
  (Forall (fun c => c.1 = threadId_ e) (calls e) -> Forall (fun c => c.1 = threadId_ e) (calls e')) /\
  (early e' = false -> early e = false) /\ eventfd e <= eventfd e' /\
  (exists l, submitted e' = submitted e ++ l /\ pendingFunctors_ e' = pendingFunctors_ e ++ l /\
    (l <> [] -> early e' = false -> looping_ e = true /\
      (callingPendingFunctors_ e = true -> owes_wakeup e' (threadId_ e) (more ++ k)))) /\
  (owes_wakeup e (threadId_ e) (i :: k) -> owes_wakeup e' (threadId_ e) (more ++ k) \/ 0 < eventfd e').
Proof.
  intros Hsc Hc Hfd E. pose proof (isInLoopThread_self e) as Hl.
  destruct i; try done; cbn [exec] in E; unfold assertInLoopThread in E; rewrite ?Hl in E;
    injection E as <- <-; simpl; rewrite ?Hl; simpl; (split; [try done; try destruct (callingPendingFunctors_ e); by repeat constructor|]);
    do 4 (split; [done|]).
  - split; [intros H; apply Forall_app; split; [done|by repeat constructor]|]. split; [done|]. split; [lia|].
    split; [exists []; by rewrite !app_nil_r|done].
  - split; [done|]. split; [by intros [? _]%orb_false_iff|]. split; [lia|]. split; [|done].
    exists [cb]. split; [done|]. split; [done|]. intros _ [_ Hn]%orb_false_iff.
    split; [by destruct (looping_ e)|]. intros Hcall.
    change (negb (isInLoopThread (threadId_ e) e) || callingPendingFunctors_ e = true). by rewrite Hl.
  - split; [done|]. split; [done|]. split; [lia|]. split; [exists []; by rewrite !app_nil_r|].
    destruct (callingPendingFunctors_ e); simpl; [by left|done].
  - split; [done|]. split; [done|]. split; [lia|]. split; [exists []; by rewrite !app_nil_r|]. intros _. right. lia.
  - split; [done|]. split; [done|]. split; [lia|]. split; [exists []; by rewrite !app_nil_r|done].
  - split; [done|]. split; [done|]. split; [lia|]. split; [exists []; by rewrite !app_nil_r|done].
Qed.

Context (script_calls : forall f, Forall is_loop_call (script f)).
Context (onEvent_calls : forall c, Forall is_loop_call (onEvent c)).

(** Other threads' steps keep the invariant. *)
Lemma step_other p pre main polled t i k e e' more m :
  loop_inv p pre main (e, m) -> t <> threadId_ e -> m !! t = Some (i :: k) ->
  exec polled t i e = Ok (e', more) -> loop_inv p pre main (e', <[t := more ++ k]> m).
Proof.
  intros [] Hne Ht E. simpl in *. pose proof (li_others0 t _ Ht Hne) as [Hi Hk]%Forall_cons.
  destruct (exec_other polled t i e e' more k Hne) as
    (Hm & Hid & Hlo & Hca & Hex & Hcl & Hea & Hfd & (l & Hsu & Hpe & Hl) & Hq & Ho); [by apply Is_true_true|done|done|].
  assert (owed (e, m) -> 0 < eventfd e' \/ owed (e', <[t := more ++ k]> m)) as Howe.
  { eapply owed_step; [done|done|by intros|done]. }
  constructor; simpl; rewrite ?Hid; try done.
  - by rewrite lookup_insert_ne.
  - intros t' k' [[<- <-]|[Hne' Hk']]%lookup_insert_Some Hnl; [by apply Forall_app|by eapply li_others0].
  - congruence.
  - congruence.
  - by rewrite Hsu, Hpe, Hex, li_order0, !app_assoc.
  - by rewrite Hcl.
  - lia.
  - rewrite Hea, Hpe. intros Hearly Hnn Hb. destruct (decide (l = [])) as [->|Hln].
    + rewrite app_nil_r in Hnn. destruct (li_wakeup0 Hearly Hnn Hb) as [?|?]; [left; lia|by apply Howe].
    + right. apply owed_self. by apply Hl.
  - intros Hquit Hp. destruct (Hq Hquit) as [Hquit'|?]; [|right; by apply owed_self].
    destruct (li_quit0 Hquit' Hp) as [?|?]; [left; lia|by apply Howe].
Qed.

(** A call inside a callback. *)
Lemma step_call p pre main polled i e e' more m :
  loop_inv p (i :: pre) main (e, m) -> exec polled (threadId_ e) i e = Ok (e', more) ->
  loop_inv p (more ++ pre) main (e', <[threadId_ e := more ++ pre ++ frame p ++ main]> m).
Proof.
  intros [] E. simpl in *. apply Forall_cons in li_pre0 as [Hi Hpre].
  destruct (exec_call polled i e e' more (pre ++ frame p ++ main) script_calls) as
    (Hm & Hid & Hlo & Hca & Hex & Hcl & Hea & Hfd & (l & Hsu & Hpe & Hl) & Ho); [by apply Is_true_true|done|done|].
  assert (in_callback p = true) as Hcb by (destruct (in_callback p); [done|by specialize (li_prefix0 eq_refl)]).
  assert (owed (e, m) -> 0 < eventfd e' \/ owed (e', <[threadId_ e := more ++ pre ++ frame p ++ main]> m)) as Howe.
  { eapply owed_step; [done|done|by intros|done]. }
  constructor; simpl; rewrite ?Hid; try done.
  - rewrite lookup_insert_eq. by rewrite <- app_assoc.
  - by apply Forall_app.
  - congruence.
  - intros t' k' [[<- <-]|[Hne' Hk']]%lookup_insert_Some Hnl; [done|by eapply li_others0].
  - congruence.
  - congruence.
  - by rewrite Hsu, Hpe, Hex, li_order0, !app_assoc.
  - by apply Hcl.
  - lia.
  - intros Hearly Hnn Hb. destruct (decide (l = [])) as [->|Hln].
    + rewrite Hpe, app_nil_r in Hnn.
      destruct (li_wakeup0 (Hea Hearly) Hnn Hb) as [?|?]; [left; lia|by apply Howe].
    + destruct (Hl Hln Hearly) as [Hlooping Hw]. right. apply owed_self. apply Hw.
      rewrite li_calling0. rewrite li_looping0 in Hlooping. by destruct p.
  - intros _ ->. done.
Qed.

(** The pieces of [loop()]. *)
Lemma step_loop p main main' polled i k e e' more m :
  loop_inv p [] main (e, m) -> frame p ++ main = i :: k -> is_loop_call i = false ->
  (i = Poll -> poll_ok polled e) -> exec polled (threadId_ e) i e = Ok (e', more) ->
  main' = (if is_idle p then k else main) ->
  exists p' pre', loop_inv p' pre' main' (e', <[threadId_ e := more ++ k]> m).
Proof.
  intros Hinv Hk Hi Hpoll E ->. pose proof (isInLoopThread_self e) as Hl. destruct Hinv. simpl in *.
  assert (forall t k' k0 e0, threadId_ e0 = threadId_ e ->
    <[threadId_ e := k0]> m !! t = Some k' -> t <> threadId_ e0 -> Forall is_call k') as Hothers.
  { intros t k' k0 e0 Hid0 [[<- <-]|[Hne' Hk']]%lookup_insert_Some Hnl; [by rewrite Hid0 in Hnl|].
    by eapply li_others0. }
  assert (forall e0 k0, threadId_ e0 = threadId_ e ->
    owed (e, m) -> owed (e0, <[threadId_ e := k0]> m)) as Howe.
  { intros e0 k0 Hid0 (t & k' & Hk' & Ho). simpl in *. destruct (decide (t = threadId_ e)) as [->|Hne].
    - rewrite li_code0 in Hk'. injection Hk' as <-. rewrite Hk in Ho. by destruct i.
    - exists t, k'. simpl. split; [by rewrite lookup_insert_ne|]. destruct k' as [|[] k']; try done.
      simpl. by rewrite isInLoopThread_other by congruence. }
  destruct p; simpl in *.
  - (* loop() *)
    subst main. apply Forall_cons in li_main0 as [Him Hmain]. destruct i; try done.
    cbn [exec] in E. rewrite li_looping0 in E. unfold assertInLoopThread in E. rewrite Hl in E.
    injection E as <- <-. exists Testing, []. constructor; simpl; try done; try by eapply Hothers.
    + apply lookup_insert_eq.
    + by intros t k'; eapply Hothers.
    + intros He Hp Hb. destruct (li_wakeup0 He Hp eq_refl) as [?|?]; [by left|right; by apply Howe].
  - injection Hk as <- <-. cbn [exec] in E. destruct (quit_ e) eqn:Eq; injection E as <- <-.
    + exists Idle, []. constructor; simpl; try done.
      * apply lookup_insert_eq.
      * by intros t k'; eapply Hothers.
      * intros He Hp Hb. destruct (li_wakeup0 He Hp eq_refl) as [?|?]; [by left|right; by apply Howe].
    + exists Polling, []. constructor; simpl; try done.
      * apply lookup_insert_eq.
      * by intros t k'; eapply Hothers.
      * intros He Hp Hb. destruct (li_wakeup0 He Hp eq_refl) as [?|?]; [by left|right; by apply Howe].
      * rewrite Eq. done.
  - injection Hk as <- <-. cbn [exec] in E. injection E as <- <-. exists (Handling polled), [].
    constructor; simpl; try done; [apply lookup_insert_eq|by intros t k'; eapply Hothers].
  - injection Hk as <- <-. destruct cs as [|[|c] cs]; cbn [exec] in E; injection E as <- <-.
    + exists Doing, []. constructor; simpl; try done; [apply lookup_insert_eq|by intros t k'; eapply Hothers].
    + exists (Handling cs), []. constructor; simpl; try done; [apply lookup_insert_eq|by intros t k'; eapply Hothers].
    + exists (Handling cs), (onEvent c). constructor; simpl; try done.
      * rewrite lookup_insert_eq. by rewrite <- app_assoc.
      * by intros t k'; eapply Hothers.
  - injection Hk as <- <-. cbn [exec] in E. injection E as <- <-. exists Swapping, [].
    constructor; simpl; try done; [apply lookup_insert_eq|by intros t k'; eapply Hothers].
  - injection Hk as <- <-. cbn [exec] in E. injection E as <- <-. exists (Running (pendingFunctors_ e)), [].
    constructor; simpl; try done; [apply lookup_insert_eq|by intros t k'; eapply Hothers|].
    by rewrite li_order0, app_nil_r.
  - injection Hk as <- <-. destruct fs as [|f fs]; cbn [exec] in E; injection E as <- <-.
    + exists Testing, []. constructor; simpl; try done; [apply lookup_insert_eq|by intros t k'; eapply Hothers|].
      intros He Hp Hb. destruct (li_wakeup0 He Hp eq_refl) as [?|?]; [by left|right; by apply Howe].
    + exists (Running fs), (script f). constructor; simpl; try done.
      * rewrite lookup_insert_eq. by rewrite <- app_assoc.
      * by intros t k'; eapply Hothers.
      * by rewrite li_order0, <- app_assoc.
      * apply Forall_app. split; [done|]. by repeat constructor.
      * intros He Hp Hb. destruct (li_wakeup0 He Hp eq_refl) as [?|?]; [by left|right; by apply Howe].
Qed.

Lemma idle_call i main s : is_loop_call i = true -> loop_inv Idle [] (i :: main) s -> loop_inv Idle [i] main s.
Proof.
  intros Hi []. apply Forall_cons in li_main0 as [_ Hm]. constructor; try done.
  by repeat constructor; apply Is_true_true.
Qed.

(** Where the code of the loop's thread can be. *)
Lemma loop_thread_cases s i k :
  loop_ok s -> s.2 !! threadId_ s.1 = Some (i :: k) ->
  (exists p pre main, loop_inv p (i :: pre) main s /\ k = pre ++ frame p ++ main) \/
  (is_loop_call i = false /\
   exists p main, loop_inv p [] main s /\ frame p ++ main = i :: k).
Proof.
  intros (p & pre & main & Hi) Hk. pose proof (li_code _ _ _ _ Hi) as Hc. rewrite Hk in Hc.
  destruct pre as [|j pre]; simpl in Hc; injection Hc as Hc; [|subst; left; by exists p, pre, main].
  destruct (is_loop_call i) eqn:Ei; [|right; split; [done|by exists p, main]]. left.
  destruct p; simpl in Hc; try (injection Hc as -> _; done). subst main.
  exists Idle, [], k. split; [by apply idle_call|done].
Qed.

Lemma step_ok s s' : loop_ok s -> step s s' -> loop_ok s'.
Proof.
  intros Hok Hs. destruct Hs as [polled t i k e e' more m Ht Hpoll E]. destruct (decide (t = threadId_ e)) as [->|Hne].
  - destruct (loop_thread_cases _ i k Hok Ht) as [(p & pre & main & Hi & ->)|(Hi & p & main & Hinv & Hk)].
    + exists p, (more ++ pre), main. by eapply step_call.
    + destruct (step_loop p main _ polled i k e e' more m Hinv Hk Hi Hpoll E eq_refl) as (p' & pre' & Hinv').
      by eexists _, _, _.
  - destruct Hok as (p & pre & main & Hi). exists p, pre, main. by eapply step_other.
Qed.

Lemma steps_ok s s' : loop_ok s -> rtc step s s' -> loop_ok s'.
Proof. intros Hok Hs. by apply (rtc_invariant step loop_ok s s' step_ok). Qed.

(** The owner of the loop does not change. *)
Lemma exec_threadId polled t i e e' more : exec polled t i e = Ok (e', more) -> threadId_ e' = threadId_ e.
Proof.
  intros E. destruct i as [| | | | | | | | |cs| | |fs]; cbn [exec] in E;
    try destruct cs as [|[] cs]; try destruct fs; unfold assertInLoopThread, assert_, mbind, outcome_bind in E;
    repeat case_match; by simplify_eq.
Qed.

Lemma steps_threadId s s' : rtc step s s' -> threadId_ s'.1 = threadId_ s.1.
Proof.
  induction 1 as [|x y z Hs _ IH]; [done|]. rewrite IH. destruct Hs as [? ? ? ? ? ? ? ? _ _ E].
  by apply exec_threadId in E.
Qed.

(** No instruction fails. *)
Lemma exec_ok s t i k polled :
  loop_ok s -> s.2 !! t = Some (i :: k) -> exists e' more, exec polled t i s.1 = Ok (e', more).
Proof.
  intros Hok Ht. pose proof (isInLoopThread_self s.1) as Hl. destruct (decide (t = threadId_ s.1)) as [->|Hne].
  - destruct (loop_thread_cases _ i k Hok Ht) as [(p & pre & main & Hi & ->)|(Hi & p & main & Hinv & Hk)].
    + pose proof (li_pre _ _ _ _ Hi) as [Hc _]%Forall_cons.
      destruct i; try done; cbn [exec]; unfold assertInLoopThread; rewrite ?Hl; by eexists _, _.
    + destruct p; simpl in Hk; try (injection Hk as <- <-; cbn [exec]).
      * subst main. pose proof (li_main _ _ _ _ Hinv) as [Him _]%Forall_cons. destruct i; try done.
        cbn [exec]. unfold assertInLoopThread. rewrite Hl, (li_looping _ _ _ _ Hinv). by eexists _, _.
      * destruct (quit_ s.1); by eexists _, _.
      * by eexists _, _.
      * destruct cs as [|[] cs]; by eexists _, _.
      * by eexists _, _.
      * by eexists _, _.
      * destruct fs; by eexists _, _.
  - destruct Hok as (p & pre & main & Hi). pose proof (li_others _ _ _ _ Hi _ _ Ht Hne) as [Hc _]%Forall_cons.
    destruct i; try done; cbn [exec]; try destruct (isInLoopThread t s.1); by eexists _, _.
Qed.

(** The code of the threads before anything has run: [loop()] is called only
    by the loop's own thread, outside of callbacks. *)
Record initial (t : tid) (s : state) : Prop := {
  in_loop : s.1 = new_EventLoop t;
  in_main : exists main, s.2 !! t = Some main /\ Forall is_main main;
  in_others : forall t' k, s.2 !! t' = Some k -> t' <> t -> Forall is_call k;
}.

Lemma initial_ok t s : initial t s -> loop_ok s.
Proof.
  intros [He (main & Hmain & Hf) Ho]. destruct s as [e m]. simpl in *. subst e.
  exists Idle, [], main. constructor; simpl; try done.
Qed.

(** ** One iteration *)

(** The steps of the loop's own thread. *)
Definition own_step (s s' : state) : Prop :=
  exists polled i k e' more, s.2 !! threadId_ s.1 = Some (i :: k) /\
    (i = Poll -> poll_ok polled s.1) /\ exec polled (threadId_ s.1) i s.1 = Ok (e', more) /\
    s' = (e', <[threadId_ s.1 := more ++ k]> s.2).

(** A step that has no alternative: only [poll] has a choice. *)
Definition sure_step (s s' : state) : Prop := own_step s s' /\ forall x, own_step s x -> x = s'.

(** Every run of the loop's own thread from [s] comes to [s'] with its
    [n]-th step. *)
Definition leads_to (n : nat) (s s' : state) : Prop :=
  forall k x, (k <= n)%nat -> nsteps own_step k s x -> nsteps own_step (n - k) x s'.

Lemma sure_steps_lead s s' : rtc sure_step s s' -> exists n, leads_to n s s'.
Proof.
  induction 1 as [s|s1 s2 s3 [Hs Hdet] _ [n IH]].
  - exists 0%nat. intros k x Hk Hx. assert (k = 0)%nat as -> by lia. inversion Hx; subst. constructor.
  - exists (S n). intros [|k] x Hk Hx.
    + inversion Hx; subst. econstructor; [exact Hs|]. specialize (IH 0%nat s2 ltac:(lia) ltac:(constructor)).
      by rewrite Nat.sub_0_r in IH.
    + inversion Hx as [|? ? y ? Hy Hx']; subst. rewrite (Hdet y Hy) in Hx'. apply IH; [lia|done].
Qed.

Lemma exec_polled polled t i e : i <> Poll -> exec polled t i e = exec [] t i e.
Proof. by destruct i. Qed.

Lemma own_step_code e m i k e' more :
  i <> Poll -> threadId_ e' = threadId_ e -> exec [] (threadId_ e) i e = Ok (e', more) ->
  sure_step (e, <[threadId_ e := i :: k]> m) (e', <[threadId_ e' := more ++ k]> m).
Proof.
  intros Hi Hid E. split.
  - exists [], i, k, e', more. simpl. rewrite lookup_insert_eq. split; [done|].
    split; [done|]. split; [done|]. by rewrite insert_insert_eq, Hid.
  - intros x (polled & i' & k' & e1 & more1 & Hk & _ & E1 & ->). simpl in *. rewrite lookup_insert_eq in Hk.
    injection Hk as <- <-. rewrite exec_polled, E in E1 by done. injection E1 as <- <-.
    by rewrite insert_insert_eq, Hid.
Qed.

(** Calls terminate if [runInLoop] does not recur without end. *)
Context (rank : Functor -> nat).
Context (rank_lt : forall f g, RunInLoop g ∈ script f -> (rank g < rank f)%nat).

Record calls_to (e e' : EventLoop) : Prop := {
  ct_id : threadId_ e' = threadId_ e;
  ct_executed : executed e' = executed e;
  ct_pending : exists l, pendingFunctors_ e' = pendingFunctors_ e ++ l;
}.

Lemma calls_to_trans e1 e2 e3 : calls_to e1 e2 -> calls_to e2 e3 -> calls_to e1 e3.
Proof.
  intros [? ? [l E]] [? ? [l' E']]. constructor; [congruence..|]. exists (l ++ l'). by rewrite E', E, app_assoc.
Qed.

Lemma simple_call i e m k :
  is_loop_call i = true -> (forall g, i <> RunInLoop g) ->
  exists e', rtc sure_step (e, <[threadId_ e := i :: k]> m) (e', <[threadId_ e' := k]> m) /\ calls_to e e'.
Proof.
  intros Hi Hn. pose proof (isInLoopThread_self e) as Hl.
  assert (forall e0, calls_to e0 e0) as Hrefl.
  { intros e0. constructor; [done|done|]. exists []. by rewrite app_nil_r. }
  assert (forall e0, exists e', rtc sure_step (e0, <[threadId_ e0 := Wakeup :: k]> m) (e', <[threadId_ e' := k]> m) /\
    calls_to e0 e') as Hw.
  { intros e0. eexists (set_eventfd (eventfd e0 + 1) e0). split; [|by destruct (Hrefl e0); constructor].
    eapply rtc_l; [|apply rtc_refl]. by apply (own_step_code e0 m Wakeup k _ []). }
  assert (forall e0, exists e', rtc sure_step (e0, <[threadId_ e0 := WakeupIfNeeded :: k]> m) (e', <[threadId_ e' := k]> m) /\
    calls_to e0 e') as Hwi.
  { intros e0. pose proof (isInLoopThread_self e0) as Hl0. destruct (callingPendingFunctors_ e0) eqn:Ec.
    - destruct (Hw e0) as (e' & Hs & Hc). exists e'. split; [|done]. eapply rtc_l; [|exact Hs].
      apply (own_step_code e0 m WakeupIfNeeded k e0 [Wakeup]); [done|done|]. cbn [exec]. by rewrite Hl0, Ec.
    - exists e0. split; [|done]. eapply rtc_l; [|apply rtc_refl].
      apply (own_step_code e0 m WakeupIfNeeded k e0 []); [done|done|]. cbn [exec]. by rewrite Hl0, Ec. }
  destruct i as [cb|cb| | | | | | | | | | |]; try done.
  - by destruct (Hn cb).
  - destruct (Hwi (push_functor (threadId_ e) cb e)) as (e' & Hs & Hc). exists e'. split.
    + eapply rtc_l; [|exact Hs]. by apply (own_step_code e m (QueueInLoop cb) k _ [WakeupIfNeeded]).
    + eapply calls_to_trans; [|exact Hc]. constructor; [done|done|by exists [cb]].
  - exists (set_quit true e). split; [|by destruct (Hrefl e); constructor].
    eapply rtc_l; [|apply rtc_refl]. apply (own_step_code e m Quit k _ []); [done|done|]. cbn [exec]. by rewrite Hl.
  - exists e. split; [|done]. eapply rtc_l; [|apply rtc_refl].
    apply (own_step_code e m AssertInLoopThread k e []); [done|done|]. cbn [exec]. unfold assertInLoopThread. by rewrite Hl.
Qed.

Lemma calls_end n l e m k :
  Forall is_loop_call l -> (forall g, RunInLoop g ∈ l -> (rank g < n)%nat) ->
  exists e', rtc sure_step (e, <[threadId_ e := l ++ k]> m) (e', <[threadId_ e' := k]> m) /\ calls_to e e'.
Proof.
  revert l e k. induction n as [n IHn] using lt_wf_ind. intros l. induction l as [|i l IHl]; intros e k Hf Hr.
  { exists e. split; [apply rtc_refl|]. constructor; [done|done|]. exists []. by rewrite app_nil_r. }
  apply Forall_cons in Hf as [Hi Hf].
  assert (exists e', rtc sure_step (e, <[threadId_ e := i :: l ++ k]> m) (e', <[threadId_ e' := l ++ k]> m) /\
    calls_to e e') as (e1 & Hs1 & H1).
  { destruct i as [g| | | | | | | | | | | |]; try (apply simple_call; [by apply Is_true_true|done]).
    destruct (IHn (rank g) ltac:(apply Hr; by left) (script g) (log_call (threadId_ e) g e) (l ++ k))
      as (e1 & Hs1 & H1); [done|intros g' Hg'; by apply rank_lt|].
    exists e1. split; [|by destruct H1; constructor]. eapply rtc_l; [|exact Hs1].
    apply (own_step_code e m (RunInLoop g) (l ++ k) _ (script g)); [done|done|].
    cbn [exec]. by rewrite isInLoopThread_self. }
  destruct (IHl e1 k Hf) as (e2 & Hs2 & H2); [intros g Hg; apply Hr; by right|].
  exists e2. split; [by etrans|by eapply calls_to_trans].
Qed.

(** The scripts of single functors and callbacks. *)
Lemma script_end f e m k :
  exists e', rtc sure_step (e, <[threadId_ e := script f ++ k]> m) (e', <[threadId_ e' := k]> m) /\ calls_to e e'.
Proof. apply (calls_end (rank f)); [done|]. intros g. apply rank_lt. Qed.

Lemma call_rank_bound (l : list instr) : exists n, forall g, RunInLoop g ∈ l -> (rank g < n)%nat.
Proof.
  induction l as [|i l [n Hn]]; [exists 0%nat; intros g Hg; by apply not_elem_of_nil in Hg|].
  exists (match i with RunInLoop g => S (rank g) `max` n | _ => n end)%nat.
  intros g [<-|Hg]%elem_of_cons; [lia|]. specialize (Hn g Hg). destruct i; lia.
Qed.

Lemma onEvent_end c e m k :
  exists e', rtc sure_step (e, <[threadId_ e := onEvent c ++ k]> m) (e', <[threadId_ e' := k]> m) /\ calls_to e e'.
Proof. destruct (call_rank_bound (onEvent c)) as [n Hn]. by apply (calls_end n). Qed.

Lemma handle_end cs e m k :
  exists e', rtc sure_step (e, <[threadId_ e := Handle cs :: k]> m) (e', <[threadId_ e' := k]> m) /\ calls_to e e'.
Proof.
  revert e. induction cs as [|[|c] cs IH]; intros e.
  - exists e. split; [eapply rtc_l; [|apply rtc_refl]; by apply (own_step_code e m (Handle []) k e [])|].
    constructor; [done|done|]. exists []. by rewrite app_nil_r.
  - destruct (IH (set_eventfd 0 e)) as (e' & Hs & H). exists e'. split; [|by destruct H; constructor].
    eapply rtc_l; [|exact Hs]. by apply (own_step_code e m (Handle (WakeupChannel :: cs)) k _ [Handle cs]).
  - destruct (onEvent_end c e m (Handle cs :: k)) as (e1 & Hs1 & H1). destruct (IH e1) as (e2 & Hs2 & H2).
    exists e2. split; [|by eapply calls_to_trans]. eapply rtc_l; [|etrans; [exact Hs1|exact Hs2]].
    pose proof (own_step_code e m (Handle (OtherChannel c :: cs)) k e (onEvent c ++ [Handle cs])) as Ho.
    rewrite <- app_assoc in Ho. by apply Ho.
Qed.

Lemma functors_end fs e m k :
  exists e', rtc sure_step (e, <[threadId_ e := RunFunctors fs :: k]> m) (e', <[threadId_ e' := k]> m) /\
    threadId_ e' = threadId_ e /\ executed e' = executed e ++ fs /\
    (exists l, pendingFunctors_ e' = pendingFunctors_ e ++ l).
Proof.
  revert e. induction fs as [|f fs IH]; intros e.
  - exists (set_calling false e). split; [eapply rtc_l; [|apply rtc_refl]; by apply (own_step_code e m (RunFunctors []) k _ [])|].
    split; [done|]. split; [by rewrite app_nil_r|]. exists []. by rewrite app_nil_r.
  - set (e0 := log_executed f (log_call (threadId_ e) f e)).
    destruct (script_end f e0 m (RunFunctors fs :: k)) as (e1 & Hs1 & [Hid1 Hx1 [l1 Hp1]]).
    destruct (IH e1) as (e2 & Hs2 & Hid2 & Hx2 & [l2 Hp2]). exists e2. split.
    + eapply rtc_l; [|etrans; [exact Hs1|exact Hs2]].
      pose proof (own_step_code e m (RunFunctors (f :: fs)) k e0 (script f ++ [RunFunctors fs])) as Ho.
      rewrite <- app_assoc in Ho. by apply Ho.
    + split; [by rewrite Hid2, Hid1|]. split; [rewrite Hx2, Hx1; simpl; by rewrite <- app_assoc|].
      exists (l1 ++ l2). by rewrite Hp2, Hp1, app_assoc.
Qed.

(** From the return of [poll] to the next test of [quit_]. *)
Lemma iteration_end cs e m main :
  exists e' l, threadId_ e' = threadId_ e /\
    rtc sure_step (e, <[threadId_ e := Handle cs :: DoPendingFunctors :: Test :: main]> m)
      (e', <[threadId_ e' := Test :: main]> m) /\
    executed e' = executed e ++ pendingFunctors_ e ++ l.
Proof.
  destruct (handle_end cs e m (DoPendingFunctors :: Test :: main)) as (e1 & Hs1 & [Hid1 Hx1 [l1 Hp1]]).
  set (e2 := take_pending (set_calling true e1)).
  destruct (functors_end (pendingFunctors_ e1) e2 m (Test :: main)) as (e3 & Hs3 & Hid3 & Hx3 & [l3 Hp3]).
  exists e3, l1. split; [by rewrite Hid3|]. split; [|by rewrite Hx3; simpl; rewrite Hx1, Hp1].
  etrans; [exact Hs1|]. eapply rtc_l; [|eapply rtc_l; [|exact Hs3]].
  - by apply (own_step_code e1 m DoPendingFunctors (Test :: main) (set_calling true e1) [Swap]).
  - by apply (own_step_code (set_calling true e1) m Swap (Test :: main) e2 [RunFunctors (pendingFunctors_ e1)]).
Qed.
End scripts.

(** ** Properties *)

(** Scripts only make calls that a callback may make. *)
Abbreviation calls_only f := (forall x : positive, Forall is_loop_call (f x)).


(** C9: however the threads are scheduled, the functors given to
    [queueInLoop] run in the order in which they were queued, each of them
    once, and every functor runs in the loop's own thread: what was queued
    is what was called, then what the loop took out of the queue and has not
    called yet, then the queue. No instruction of any thread fails an
    assertion on the way. *)
Theorem functors_run_in_order (script : Functor -> list instr) (onEvent : positive -> list instr)
    (t : tid) (s s' : state) :
  calls_only script -> calls_only onEvent -> initial t s ->
  rtc (step script onEvent) s s' ->
  (exists taken, submitted s'.1 = executed s'.1 ++ taken ++ pendingFunctors_ s'.1 /\
    (taken <> [] -> callingPendingFunctors_ s'.1 = true)) /\
  Forall (fun c => c.1 = t) (calls s'.1) /\
  (forall t' i k polled, s'.2 !! t' = Some (i :: k) ->
    is_ok (exec script onEvent polled t' i s'.1) = true).
Proof.
  intros Hs Hc Hi Hsteps.
  assert (threadId_ s'.1 = t) as Hid.
  { assert (threadId_ s.1 = t) as E by (destruct Hi as [-> _ _]; done). rewrite <- E.
    by eapply steps_threadId. }
  pose proof (steps_ok script onEvent Hs Hc s s' (initial_ok t s Hi) Hsteps) as Hok.
  pose proof Hok as (p & pre & main & Hinv). split; [|split].
  - exists (batch p). split; [apply (li_order _ _ _ _ Hinv)|]. intros Hb.
    rewrite (li_calling _ _ _ _ Hinv). by destruct p.
  - pose proof (li_calls _ _ _ _ Hinv) as H. by rewrite Hid in H.
  - intros t' i k polled Hk. by destruct (exec_ok script onEvent s' t' i k polled Hok Hk) as (e' & more & ->).
Qed.


(** Thread 1 owns the loop; functor 1 queues functor 2, functor 3 calls
    functor 2, functor 2 does nothing. *)
Definition example_script (f : Functor) : list instr :=
  match f with 1%positive => [QueueInLoop 2] | 3%positive => [RunInLoop 2] | _ => [] end.
Definition example_threads : gmap tid (list instr) :=
  <[1%positive := [Loop]]> (<[2%positive := [QueueInLoop 1; Quit]]> ∅).

Lemma example_script_calls : calls_only example_script.
Proof. intros x. destruct x as [[]|[]|]; repeat constructor. Qed.

Lemma no_calls : calls_only (fun _ => []).
Proof. by constructor. Qed.

Lemma example_initial : initial 1 (new_EventLoop 1, example_threads).
Proof.
  constructor; [done|exists [Loop]; split; [done|by repeat constructor]|].
  simpl. intros t k Hk Ht. unfold example_threads in Hk.
  apply lookup_insert_Some in Hk as [[? _]|[_ Hk]]; [congruence|].
  apply lookup_insert_Some in Hk as [[_ <-]|[_ Hk]]; [by repeat constructor|by rewrite lookup_empty in Hk].
Qed.

Ltac run_thread t :=
  eapply rtc_l; [eapply (step_thread _ _ [] t); [vm_compute; reflexivity|done|vm_compute; reflexivity]|].

(** Thread 2 has queued functor 1 while the loop waits. *)
Definition example_waiting : state :=
  ((push_functor 2 1 (set_quit false (set_looping true (new_EventLoop 1)))),
   <[2%positive := [WakeupIfNeeded; Quit]]>
     (<[1%positive := [Poll; DoPendingFunctors; Test]]> example_threads)).

Lemma example_waiting_reachable :
  rtc (step example_script (fun _ => [])) (new_EventLoop 1, example_threads) example_waiting.
Proof.
  run_thread 1%positive. run_thread 1%positive. run_thread 2%positive.
  match goal with |- rtc _ ?s ?s' => replace s with s' by (vm_compute; reflexivity) end. apply rtc_refl.
Qed.


Lemma functors_run_in_order_witness :
  (exists taken, submitted example_waiting.1 = executed example_waiting.1 ++ taken ++ pendingFunctors_ example_waiting.1 /\
    (taken <> [] -> callingPendingFunctors_ example_waiting.1 = true)) /\
  Forall (fun c => c.1 = 1%positive) (calls example_waiting.1) /\
  (forall t' i k polled, example_waiting.2 !! t' = Some (i :: k) ->
    is_ok (exec example_script (fun _ => []) polled t' i example_waiting.1) = true).
Proof.
  apply (functors_run_in_order example_script (fun _ => []) 1 (new_EventLoop 1, example_threads) example_waiting);
    [apply example_script_calls|apply no_calls|apply example_initial|apply example_waiting_reachable].
Defined.


(** Requests made before [loop()] runs are not served in time: a functor
    that the loop's own thread queues before [loop()] waits in the queue
    while [poll] blocks, and a [quit] before [loop()] is forgotten. (Both
    reachable states wait in [poll] with nothing to wake them up.) *)
Theorem early_requests_wait :
  (exists s', rtc (step (fun _ => []) (fun _ => []))
       (new_EventLoop 1, {[1%positive := [QueueInLoop 5; Loop]]}) s' /\
     s'.2 = {[1%positive := [Poll; DoPendingFunctors; Test]]} /\
     pendingFunctors_ s'.1 = [5%positive] /\ eventfd s'.1 = 0) /\
  (exists s', rtc (step (fun _ => []) (fun _ => []))
       (new_EventLoop 1, {[1%positive := [Quit; Loop]]}) s' /\
     s'.2 = {[1%positive := [Poll; DoPendingFunctors; Test]]} /\
     quit_ s'.1 = false /\ eventfd s'.1 = 0).
Proof.
  split; eexists; (split; [run_thread 1%positive; run_thread 1%positive; run_thread 1%positive|]).
  - run_thread 1%positive. apply rtc_refl.
  - repeat split; vm_compute; reflexivity.
  - apply rtc_refl.
  - repeat split; vm_compute; reflexivity.
Qed.
