(* ===== verification/TcpConnection.v ===== *)
(** * TcpConnection: one connection

    Models [muduo::TcpConnection] of [reactor/s13/TcpConnection.h] and
    [TcpConnection.cc] on top of [Buffer] and [Channel].  The event loop's
    part is reduced to what the pollers guarantee (a registered channel is
    watched for its events) and to the queue of functors that concern this
    connection.  What the kernel answers to [write] and [readv], and what the
    user does in callbacks, are arguments of the events. *)
From S2P Require Import Prelude Buffer Channel.
From Stdlib Require Import Strings.Byte.

Inductive StateE := kConnecting | kConnected | kDisconnecting | kDisconnected.

#[export] Instance StateE_eq_dec : EqDecision StateE.
Proof. solve_decision. Defined.

(** The functors of this connection that wait in its loop. *)
Inductive task := SendTask (message : list byte) | ShutdownTask | WriteCompleteTask.

(** The callbacks the user and the owner of the connection get. *)
Inductive notice := ConnectionCb (connected : bool) | MessageCb | WriteCompleteCb | CloseCb.

#[export] Instance notice_eq_dec : EqDecision notice.
Proof. solve_decision. Defined.

(** [registered]: the poller knows the channel. The histories: the bytes the
    kernel took, the bytes given to [sendInLoop], the bytes read, the bytes
    the user took from the input buffer; what had been given to [sendInLoop]
    when the connection was shut down for writing; and the callbacks made. *)
Record TcpConnection := mkTcpConnection {
  state_ : StateE;
  channels : heap;
  registered : bool;
  hasWriteComplete : bool;
  inputBuffer_ : Buffer;
  outputBuffer_ : Buffer;
  queued : list task;
  wire : list byte;
  accepted : list byte;
  received : list byte;
  consumed : list byte;
  fin : option (list byte);
  log : list notice;
}.

Definition setState v s := mkTcpConnection v (channels s) (registered s) (hasWriteComplete s)
  (inputBuffer_ s) (outputBuffer_ s) (queued s) (wire s) (accepted s) (received s) (consumed s) (fin s) (log s).
Definition set_chans v s := mkTcpConnection (state_ s) v (registered s) (hasWriteComplete s)
  (inputBuffer_ s) (outputBuffer_ s) (queued s) (wire s) (accepted s) (received s) (consumed s) (fin s) (log s).
Definition set_registered v s := mkTcpConnection (state_ s) (channels s) v (hasWriteComplete s)
  (inputBuffer_ s) (outputBuffer_ s) (queued s) (wire s) (accepted s) (received s) (consumed s) (fin s) (log s).
Definition set_input b r c s := mkTcpConnection (state_ s) (channels s) (registered s) (hasWriteComplete s)
  b (outputBuffer_ s) (queued s) (wire s) (accepted s) r c (fin s) (log s).
Definition set_output b w a s := mkTcpConnection (state_ s) (channels s) (registered s) (hasWriteComplete s)
  (inputBuffer_ s) b (queued s) w a (received s) (consumed s) (fin s) (log s).
Definition set_queued v s := mkTcpConnection (state_ s) (channels s) (registered s) (hasWriteComplete s)
  (inputBuffer_ s) (outputBuffer_ s) v (wire s) (accepted s) (received s) (consumed s) (fin s) (log s).
Definition set_fin v s := mkTcpConnection (state_ s) (channels s) (registered s) (hasWriteComplete s)
  (inputBuffer_ s) (outputBuffer_ s) (queued s) (wire s) (accepted s) (received s) (consumed s) v (log s).
Definition notify n s := mkTcpConnection (state_ s) (channels s) (registered s) (hasWriteComplete s)
  (inputBuffer_ s) (outputBuffer_ s) (queued s) (wire s) (accepted s) (received s) (consumed s) (fin s) (log s ++ [n]).

#[export] Instance connection_has_channels : HasChannels TcpConnection := {
  channels_of := channels;
  set_channels := set_chans;
  channels_set := fun _ _ => eq_refl;
  set_channels_eta := fun s => match s with mkTcpConnection _ _ _ _ _ _ _ _ _ _ _ _ _ => eq_refl end;
  set_set_channels := fun _ _ _ => eq_refl;
}.

(** [channel_], and its callbacks. *)
Definition channel_ : ptr := 1.
Definition read_cb : callback := 1.
Definition write_cb : callback := 2.
Definition close_cb : callback := 3.
Definition error_cb : callback := 4.

(** [TcpConnection(loop, name, sockfd, ...)]. *)
Definition new_TcpConnection (loop : ptr) (sockfd : Z) (writeComplete : bool) : outcome TcpConnection :=
  i ← new_Buffer;
  o ← new_Buffer;
  Ok (mkTcpConnection kConnecting
    {[channel_ := setCallbacks (Some read_cb) (Some write_cb) (Some error_cb) (Some close_cb)
                    (new_Channel loop sockfd)]}
    false writeComplete i o [] [] [] [] [] None []).

(** What [write(2)] answers: how much it would take, or an error. *)
Inductive write_result := Wrote (n : N) | WriteError (errno : Z).

Definition write (w : write_result) (data : list byte) : Z :=
  match w with Wrote n => Z.min (Z.of_N n) (zlen data) | WriteError _ => -1 end.

(** [loop_->updateChannel] and [loop_->removeChannel]. [updateChannel] hands
    the channel to the poller; that the poller's assertions hold for a channel
    that is updated and removed like this one is proved in [EPoller.v] and
    [Poller.v]. *)
Definition updateChannel (c : ptr) (s : TcpConnection) : outcome TcpConnection :=
  Ok (set_registered true s).
Definition removeChannel (c : ptr) (s : TcpConnection) : outcome TcpConnection :=
  ch ← get_channel c s;
  _ ← assert_ (registered s);
  _ ← assert_ (isNoneEvent ch);
  Ok (set_registered false s).

(** [if (writeCompleteCallback_) loop_->queueInLoop(...)]. *)
Definition queueWriteComplete (s : TcpConnection) : TcpConnection :=
  if hasWriteComplete s then set_queued (queued s ++ [WriteCompleteTask]) s else s.

(** [socket_->shutdownWrite()] when nothing waits to be written. *)
Definition shutdownInLoop (s : TcpConnection) : outcome TcpConnection :=
  ch ← get_channel channel_ s;
  if negb (isWriting ch) then
    Ok (set_fin (match fin s with Some l => Some l | None => Some (accepted s) end) s)
  else Ok s.

(** The first half of [sendInLoop]: the new state and [nwrote]. *)
Definition writeDirectly (message : list byte) (w : write_result) (ch : Channel) (s : TcpConnection) :
    TcpConnection * Z :=
  if negb (isWriting ch) && (readableBytes (outputBuffer_ s) =? 0) then
    let nwrote := write w message in
    if 0 <=? nwrote then
      let s := set_output (outputBuffer_ s) (wire s ++ slice message 0 nwrote) (accepted s) s in
      (if nwrote <? zlen message then s else queueWriteComplete s, nwrote)
    else (s, 0)
  else (s, 0).

Definition sendInLoop (message : list byte) (w : write_result) (s : TcpConnection) : outcome TcpConnection :=
  let s := set_output (outputBuffer_ s) (wire s) (accepted s ++ message) s in
  ch ← get_channel channel_ s;
  let '(s, nwrote) := writeDirectly message w ch s in
  _ ← assert_ (0 <=? nwrote);
  if nwrote <? zlen message then
    b ← append (outputBuffer_ s) (slice message nwrote (zlen message));
    let s := set_output b (wire s) (accepted s) s in
    if negb (isWriting ch) then enableWriting updateChannel channel_ s else Ok s
  else Ok s.

(** [send] and [shutdown], in the loop's thread and in another one. Reading
    and writing [state_] in another thread is taken to be one step (the
    source says "FIXME: use compare and swap"; [shutdown_torn] shows two). *)
Definition send (message : list byte) (w : write_result) (s : TcpConnection) : outcome TcpConnection :=
  if decide (state_ s = kConnected) then sendInLoop message w s else Ok s.
Definition send_other (message : list byte) (s : TcpConnection) : TcpConnection :=
  if decide (state_ s = kConnected) then set_queued (queued s ++ [SendTask message]) s else s.
Definition shutdown (s : TcpConnection) : outcome TcpConnection :=
  if decide (state_ s = kConnected) then shutdownInLoop (setState kDisconnecting s) else Ok s.
Definition shutdown_other (s : TcpConnection) : TcpConnection :=
  if decide (state_ s = kConnected)
  then set_queued (queued s ++ [ShutdownTask]) (setState kDisconnecting s) else s.

(** What the user does in a callback; [Consume n] takes at most [n] bytes
    from the input buffer. *)
Inductive call := Send (message : list byte) (w : write_result) | Shutdown | Consume (n : N).

Definition do_call (s : TcpConnection) (c : call) : outcome TcpConnection :=
  match c with
  | Send m w => send m w s
  | Shutdown => shutdown s
  | Consume n =>
      let b := inputBuffer_ s in
      let n := Z.min (Z.of_N n) (readableBytes b) in
      b' ← retrieve b n;
      Ok (set_input b' (received s) (consumed s ++ slice (buffer_ b) (peek b) (peek b + n)) s)
  end.
Definition user_callback (n : notice) (cs : list call) (s : TcpConnection) : outcome TcpConnection :=
  foldM do_call (notify n s) cs.

Definition connectEstablished (cs : list call) (s : TcpConnection) : outcome TcpConnection :=
  _ ← assert_ (bool_decide (state_ s = kConnecting));
  let s := setState kConnected s in
  s ← enableReading updateChannel channel_ s;
  user_callback (ConnectionCb true) cs s.

Definition connectDestroyed (cs : list call) (s : TcpConnection) : outcome TcpConnection :=
  _ ← assert_ (bool_decide (state_ s = kConnected) || bool_decide (state_ s = kDisconnecting));
  let s := setState kDisconnected s in
  s ← disableAll updateChannel channel_ s;
  s ← user_callback (ConnectionCb false) cs s;
  removeChannel channel_ s.

Definition handleClose (s : TcpConnection) : outcome TcpConnection :=
  _ ← assert_ (bool_decide (state_ s = kConnected) || bool_decide (state_ s = kDisconnecting));
  s ← disableAll updateChannel channel_ s;
  Ok (notify CloseCb s).

(** [handleError] only logs. *)
Definition handleError (s : TcpConnection) : outcome TcpConnection := Ok s.

Definition handleRead (r : readv_result) (cs : list call) (s : TcpConnection) : outcome TcpConnection :=
  '(b, n, _) ← readFd (inputBuffer_ s) r 0;
  let data := match r with ReadvData d => d | ReadvError _ => [] end in
  let s := set_input b (received s ++ data) (consumed s) s in
  if 0 <? n then user_callback MessageCb cs s
  else if n =? 0 then handleClose s
  else handleError s.

Definition handleWrite (w : write_result) (s : TcpConnection) : outcome TcpConnection :=
  ch ← get_channel channel_ s;
  if isWriting ch then
    let b := outputBuffer_ s in
    let data := slice (buffer_ b) (peek b) (peek b + readableBytes b) in
    let n := write w data in
    if 0 <? n then
      b ← retrieve b n;
      let s := set_output b (wire s ++ slice data 0 n) (accepted s) s in
      if readableBytes b =? 0 then
        s ← disableWriting updateChannel channel_ s;
        let s := queueWriteComplete s in
        if decide (state_ s = kDisconnecting) then shutdownInLoop s else Ok s
      else Ok s
    else Ok s
  else Ok s.

(** The functions behind the callbacks of the channel. *)
Definition handler (r : readv_result) (w : write_result) (cs : list call) (f : callback) (_ : option Z)
    (s : TcpConnection) : outcome TcpConnection :=
  if decide (f = read_cb) then handleRead r cs s
  else if decide (f = write_cb) then handleWrite w s
  else if decide (f = close_cb) then handleClose s
  else handleError s.

Definition runTask (w : write_result) (cs : list call) (s : TcpConnection) : outcome TcpConnection :=
  match queued s with
  | [] => Ok s
  | t :: q =>
      let s := set_queued q s in
      match t with
      | SendTask m => sendInLoop m w s
      | ShutdownTask => shutdownInLoop s
      | WriteCompleteTask => user_callback WriteCompleteCb cs s
      end
  end.

(** What happens to a connection. *)
Inductive event :=
| Established (cs : list call)
| Ready (revents : Z) (r : readv_result) (w : write_result) (cs : list call)
| Call (c : call)
| OtherSend (message : list byte)
| OtherShutdown
| RunTask (w : write_result) (cs : list call)
| Destroyed (cs : list call).

Definition run_event (s : TcpConnection) (e : event) : outcome TcpConnection :=
  match e with
  | Established cs => connectEstablished cs s
  | Ready revents r w cs =>
      s ← modify_channel channel_ (set_revents revents) s;
      handleEvent (handler r w cs) channel_ 0 s
  | Call c => do_call s c
  | OtherSend m => Ok (send_other m s)
  | OtherShutdown => Ok (shutdown_other s)
  | RunTask w cs => runTask w cs s
  | Destroyed cs => connectDestroyed cs s
  end.

(** ** What can happen *)

Definition chan (s : TcpConnection) : Channel := default (new_Channel 1 0) (channels s !! channel_).
Definition live (s : TcpConnection) : bool :=
  bool_decide (state_ s = kConnected) || bool_decide (state_ s = kDisconnecting).

(** [connectEstablished] is called once; the loop handles events of
    registered channels; [connectDestroyed] ends the connection. A functor of
    [send] or [shutdown] may be queued behind [connectDestroyed]; the runs
    stop before such a functor would run, and [connection_life] says what it
    does. *)
Definition legal (s : TcpConnection) (e : event) : bool :=
  match e with
  | Established _ => bool_decide (state_ s = kConnecting)
  | Ready _ _ _ _ => registered s
  | RunTask _ _ =>
      match queued s with
      | (SendTask _ | ShutdownTask) :: _ => bool_decide (state_ s <> kDisconnected)
      | _ => true
      end
  | Destroyed _ => live s
  | Call _ | OtherSend _ | OtherShutdown => true
  end.

Fixpoint legal_run (s : TcpConnection) (es : list event) : bool :=
  match es with
  | [] => true
  | e :: es =>
      legal s e && match run_event s e with Ok s' => legal_run s' es | _ => true end
  end.

(** The bytes an event brings. *)
Definition call_bytes (c : call) : Z := match c with Send m _ => zlen m | _ => 0 end.
Definition calls_bytes (cs : list call) : Z := sum_of call_bytes cs.
Definition event_bytes (e : event) : Z :=
  match e with
  | Established cs | RunTask _ cs | Destroyed cs => calls_bytes cs
  | Ready _ r _ cs => match r with ReadvData d => zlen d | _ => 0 end + calls_bytes cs
  | Call c => call_bytes c
  | OtherSend m => zlen m
  | OtherShutdown => 0
  end.
Definition total_bytes (es : list event) : Z := sum_of event_bytes es.

Definition task_bytes (t : task) : Z := match t with SendTask m => zlen m | _ => 0 end.
(** All bytes so far, with those that wait in the loop. *)
Definition load (s : TcpConnection) : Z :=
  zlen (accepted s) + zlen (received s) + sum_of task_bytes (queued s).

(** The callbacks about the connection itself. *)
Definition ups_and_downs (l : list notice) : list bool :=
  omap (fun n => match n with ConnectionCb b => Some b | _ => None end) l.

(** ** Invariant *)

Definition buffer_base : Z := kCheapPrepend + kInitialSize.

Record conn_inv (s : TcpConnection) : Prop := {
  ci_channel : channels s = {[channel_ := chan s]};
  ci_callbacks : readCallback_ (chan s) = Some read_cb /\ writeCallback_ (chan s) = Some write_cb /\
    errorCallback_ (chan s) = Some error_cb /\ closeCallback_ (chan s) = Some close_cb;
  ci_input_wf : wf (inputBuffer_ s);
  ci_output_wf : wf (outputBuffer_ s);
  ci_input_size : zlen (buffer_ (inputBuffer_ s)) <= buffer_base + zlen (received s);
  ci_output_size : zlen (buffer_ (outputBuffer_ s)) <= buffer_base + zlen (accepted s);
  ci_sent : accepted s = wire s ++ content (outputBuffer_ s);
  ci_read : received s = consumed s ++ content (inputBuffer_ s);
  ci_fin : CloseCb ∉ log s -> forall l, fin s = Some l -> l `prefix_of` wire s;
  ci_writing : isWriting (chan s) = true -> content (outputBuffer_ s) <> [];
  ci_registered : registered s = live s;
  ci_none : live s = false -> events_ (chan s) = kNoneEvent;
  ci_fresh : state_ s = kConnecting -> log s = [] /\ queued s = [] /\ content (outputBuffer_ s) = [];
  ci_open : live s = true -> CloseCb ∉ log s ->
    has (events_ (chan s)) POLLIN = true /\
    (content (outputBuffer_ s) <> [] -> isWriting (chan s) = true);
  ci_shutdown : state_ s = kDisconnecting -> CloseCb ∉ log s ->
    is_Some (fin s) \/ ShutdownTask ∈ queued s \/ isWriting (chan s) = true;
  ci_log : ups_and_downs (log s) =
    match state_ s with kConnecting => [] | kConnected | kDisconnecting => [true] | kDisconnected => [true; false] end;
}.

(** [s'] follows [s], with at most [n] new bytes. *)
Record progress (n : Z) (s s' : TcpConnection) : Prop := {
  pr_inv : conn_inv s';
  pr_load : load s' <= load s + n;
  pr_live : live s = true -> live s' = true;
  pr_dead : live s = false -> state_ s' = state_ s;
  pr_revents : revents_ (chan s') = revents_ (chan s);
}.

(** ** Lemmas *)

Lemma progress_refl s : conn_inv s -> progress 0 s s.
Proof. intros H. constructor; try done. lia. Qed.

Lemma progress_trans n m s1 s2 s3 : progress n s1 s2 -> progress m s2 s3 -> progress (n + m) s1 s3.
Proof.
  intros [? ? L1 D1 ?] [? ? L2 D2 ?]. constructor; [done|lia|auto| |congruence].
  intros Hl. assert (live s2 = false) as Hl2 by (unfold live in *; by rewrite D1).
  rewrite D2 by done. by apply D1.
Qed.

Lemma progress_weaken n m s s' : n <= m -> progress n s s' -> progress m s s'.
Proof. intros ? []. constructor; try done. lia. Qed.

Lemma chan_set c s : chan (set_chans {[channel_ := c]} s) = c.
Proof. unfold chan. simpl. by rewrite lookup_singleton_eq. Qed.

Lemma get_chan s : channels s = {[channel_ := chan s]} -> get_channel channel_ s = Ok (chan s).
Proof. intros E. apply get_channel_ok. simpl. rewrite E. by rewrite lookup_singleton_eq. Qed.

Lemma modify_chan f s :
  channels s = {[channel_ := chan s]} ->
  modify_channel channel_ f s = Ok (set_chans {[channel_ := f (chan s)]} s).
Proof.
  intros E. rewrite (modify_channel_ok _ _ _ (chan s)).
  - unfold put_channel. simpl. by rewrite E, insert_singleton_eq.
  - simpl. by rewrite E, lookup_singleton_eq.
Qed.

(** The parts of the invariant and of [progress] that do not depend on
    revents, index and the flag of the channel. *)
Lemma conn_inv_channel s c :
  conn_inv s -> events_ c = events_ (chan s) ->
  readCallback_ c = readCallback_ (chan s) -> writeCallback_ c = writeCallback_ (chan s) ->
  errorCallback_ c = errorCallback_ (chan s) -> closeCallback_ c = closeCallback_ (chan s) ->
  conn_inv (set_chans {[channel_ := c]} s).
Proof.
  intros [] He Hr Hw Her Hc. constructor; rewrite ?chan_set; unfold isWriting in *; rewrite ?He, ?Hr, ?Hw, ?Her, ?Hc; done.
Qed.

Lemma set_registered_id v s : registered s = v -> set_registered v s = s.
Proof. intros <-. by destruct s. Qed.

Lemma live_registered s : conn_inv s -> live s = true -> set_registered true s = s.
Proof. intros Hi Hl. apply set_registered_id. by rewrite (ci_registered _ Hi). Qed.

Lemma live_state s : live s = true -> state_ s = kConnected \/ state_ s = kDisconnecting.
Proof. unfold live. by intros [?%bool_decide_eq_true|?%bool_decide_eq_true]%orb_true_iff; [left|right]. Qed.

(** The operations on the output change these parts of a connection. *)
Definition updated (s : TcpConnection) b w a q e f : TcpConnection :=
  set_fin f (set_queued q (set_chans {[channel_ := set_events e (chan s)]} (set_output b w a s))).

Lemma chan_updated s b w a q e f : chan (updated s b w a q e f) = set_events e (chan s).
Proof. unfold chan at 1, updated. simpl. by rewrite lookup_singleton_eq. Qed.

Lemma updated_progress n s b w a q e f :
  conn_inv s -> live s = true -> wf b -> zlen (buffer_ b) <= buffer_base + zlen a ->
  a = w ++ content b -> wire s `prefix_of` w ->
  (Z.testbit e 2 = true -> content b <> []) ->
  (CloseCb ∉ log s -> Z.testbit e 0 = Z.testbit (events_ (chan s)) 0 /\ (content b <> [] -> Z.testbit e 2 = true)) ->
  (CloseCb ∉ log s -> f = fin s \/ (fin s = None /\ f = Some w)) ->
  (state_ s = kDisconnecting -> CloseCb ∉ log s -> is_Some f \/ ShutdownTask ∈ q \/ Z.testbit e 2 = true) ->
  zlen a + sum_of task_bytes q <=
    zlen (accepted s) + sum_of task_bytes (queued s) + n ->
  progress n s (updated s b w a q e f).
Proof.
  intros [] Hl Hwf Hsz Ha Hw Hwr Hop Hfin Hsh Hload.
  assert (state_ s <> kConnecting) as Hst by (by intros E; unfold live in Hl; rewrite E in Hl).
  constructor; [|unfold load; simpl; lia|done|by rewrite Hl|by rewrite chan_updated].
  constructor; rewrite ?chan_updated, ?isWriting_testbit; try done.
  - intros Hc l E. simpl in E. destruct (Hfin Hc) as [->|[_ ->]].
    + etrans; [by apply (ci_fin0 Hc)|done].
    + by injection E as <-.
  - intros Hl'. unfold live in *. simpl in *. congruence.
  - intros _ Hc. destruct (Hop Hc) as [H1 H2]. destruct (ci_open0 Hl Hc) as [H3 _].
    change POLLIN with (2 ^ 0) in *. rewrite has_pow2 in H3 |- * by done. cbn [events_ set_events]. by rewrite H1.
Qed.

Lemma zlen_zero_nil {A} (l : list A) : zlen l = 0 -> l = [].
Proof. destruct l; [done|]. unfold zlen. simpl. lia. Qed.

Lemma readable_zero b : wf b -> (readableBytes b =? 0) = bool_decide (content b = []).
Proof.
  intros Hwf. rewrite readableBytes_content by done. case_bool_decide as E; [by rewrite E|].
  apply Z.eqb_neq. intros H. by apply zlen_zero_nil in H.
Qed.

Lemma write_bounds w data : write w data = -1 \/ 0 <= write w data <= zlen data.
Proof. pose proof (zlen_nonneg data). destruct w; simpl; [right; lia|by left]. Qed.

Lemma call_bytes_nonneg c : 0 <= call_bytes c.
Proof. destruct c; simpl; auto using zlen_nonneg with zarith. Qed.
Lemma task_bytes_nonneg t : 0 <= task_bytes t.
Proof. destruct t; simpl; auto using zlen_nonneg with zarith. Qed.

(** ** Lemmas: the operations *)

Definition room (n : Z) (s : TcpConnection) : Prop := buffer_base + load s + n <= max_size.

Lemma room_progress n m s s' : progress n s s' -> room (n + m) s -> room m s'.
Proof. intros [_ ? _ _ _] ?. unfold room in *. lia. Qed.

Lemma load_output s : 0 <= zlen (received s) + sum_of task_bytes (queued s).
Proof. pose proof (zlen_nonneg (received s)). pose proof (sum_of_nonneg task_bytes (queued s) task_bytes_nonneg). lia. Qed.

Lemma queueWriteComplete_eq s :
  exists l, queueWriteComplete s = set_queued (queued s ++ l) s /\ sum_of task_bytes l = 0.
Proof.
  unfold queueWriteComplete. destruct (hasWriteComplete s).
  - by exists [WriteCompleteTask].
  - exists []. rewrite app_nil_r. split; [by destruct s|done].
Qed.

Lemma writeDirectly_spec m w ch s :
  wf (outputBuffer_ s) ->
  exists l nwrote, 0 <= nwrote <= zlen m /\ sum_of task_bytes l = 0 /\
    (0 < nwrote -> content (outputBuffer_ s) = [] /\ isWriting ch = false) /\
    writeDirectly m w ch s =
      (set_queued (queued s ++ l) (set_output (outputBuffer_ s) (wire s ++ slice m 0 nwrote) (accepted s) s), nwrote).
Proof.
  intros Hwf. pose proof (zlen_nonneg m) as Hm.
  assert (s = set_queued (queued s ++ []) (set_output (outputBuffer_ s) (wire s ++ slice m 0 0) (accepted s) s)) as E0.
  { rewrite (slice_nil m 0 0) by lia. rewrite !app_nil_r. by destruct s. }
  unfold writeDirectly. rewrite readable_zero by done.
  destruct (negb (isWriting ch) && bool_decide (content (outputBuffer_ s) = [])) eqn:Eb.
  2:{ exists [], 0. split; [lia|]. split; [done|]. split; [lia|]. by rewrite <- E0. }
  apply andb_true_iff in Eb as [Ew Ec%bool_decide_eq_true]. apply negb_true_iff in Ew.
  destruct (write_bounds w m) as [->|Hw].
  { exists [], 0. split; [lia|]. split; [done|]. split; [lia|]. by rewrite <- E0. }
  cbv zeta. rewrite (proj2 (Z.leb_le _ _)) by lia. set (s1 := set_output _ _ _ s).
  destruct (queueWriteComplete_eq s1) as (l & E & Hl).
  destruct (write w m <? zlen m).
  - exists [], (write w m). do 3 (split; [done|]). f_equal. rewrite app_nil_r. by destruct s.
  - exists l, (write w m). do 3 (split; [done|]). by rewrite E.
Qed.

Lemma set_writing_bits e : Z.testbit (Z.lor e kWriteEvent) 2 = true /\
  Z.testbit (Z.lor e kWriteEvent) 0 = Z.testbit e 0.
Proof. rewrite !Z.lor_spec. split; [apply orb_true_r|]. apply orb_false_r. Qed.

Lemma clear_writing_bits e : Z.testbit (Z.land e (Z.lnot kWriteEvent)) 2 = false /\
  Z.testbit (Z.land e (Z.lnot kWriteEvent)) 0 = Z.testbit e 0.
Proof. rewrite !Z.land_spec, !Z.lnot_spec by lia. split; [apply andb_false_r|apply andb_true_r]. Qed.

Lemma enableWriting_eq s :
  channels s = {[channel_ := chan s]} ->
  enableWriting updateChannel channel_ s =
  Ok (set_registered true (set_chans {[channel_ := set_events (Z.lor (events_ (chan s)) kWriteEvent) (chan s)]} s)).
Proof. intros E. unfold enableWriting. by rewrite modify_chan. Qed.

Lemma updated_same s b w a q :
  channels s = {[channel_ := chan s]} ->
  set_queued q (set_output b w a s) = updated s b w a q (events_ (chan s)) (fin s).
Proof.
  intros E. unfold updated. replace (set_events (events_ (chan s)) (chan s)) with (chan s) by (by destruct (chan s)).
  rewrite <- E. by destruct s.
Qed.

Lemma updated_enabled s s' b w a q e f :
  registered s = true ->
  s' = set_fin f (set_queued q (set_output b w a s)) ->
  set_registered true (set_chans {[channel_ := set_events e (chan s')]} s') = updated s b w a q e f.
Proof. intros Hr ->. unfold updated, set_registered. simpl. by rewrite <- Hr. Qed.

Lemma sendInLoop_ok m w s :
  conn_inv s -> live s = true -> room (zlen m) s ->
  exists s', sendInLoop m w s = Ok s' /\ progress (zlen m) s s'.
Proof.
  intros Hi Hl Hr. pose proof Hi as []. pose proof (zlen_nonneg m) as Hm. pose proof (load_output s) as Hlo.
  unfold room, load in Hr. unfold sendInLoop. rewrite (get_chan (set_output _ _ _ s)) by done. cbn [mbind outcome_bind].
  change (chan (set_output _ _ _ s)) with (chan s).
  destruct (writeDirectly_spec m w (chan s) (set_output (outputBuffer_ s) (wire s) (accepted s ++ m) s))
    as (l & n & Hn & Hlz & Hn0 & ->); [done|]. cbn in Hn0 |- *.
  rewrite (proj2 (Z.leb_le 0 n)) by lia. cbn.
  assert (m = slice m 0 n ++ slice m n (zlen m)) as Em by (rewrite slice_app by lia; by rewrite slice_full).
  assert (accepted s ++ m = (wire s ++ slice m 0 n) ++ content (outputBuffer_ s) ++ slice m n (zlen m)) as Hacc.
  { rewrite ci_sent0. rewrite Em at 1. destruct (decide (0 < n)) as [Hp|Hz].
    - destruct (Hn0 Hp) as [-> _]. by rewrite app_nil_r, <- app_assoc.
    - replace n with 0 by lia. rewrite (slice_nil m 0 0) by lia. by rewrite app_nil_r, <- app_assoc. }
  destruct (Z.ltb_spec n (zlen m)) as [Hlt|Hge]; cbn.
  - destruct (append_spec (outputBuffer_ s) (slice m n (zlen m))) as (b & -> & Hwf & Hc & _ & Hsz);
      [done|rewrite zlen_slice by lia; lia|]. cbn. rewrite zlen_slice in Hsz by lia.
    assert (content b <> []) as Hb.
    { rewrite Hc. intros [_ E]%app_eq_nil. apply (f_equal zlen) in E. rewrite zlen_slice in E by lia.
      rewrite (@zlen_nil byte) in E. lia. }
    assert (exists e, (if negb (isWriting (chan s)) then enableWriting updateChannel channel_
       (set_output b (wire s ++ slice m 0 n) (accepted s ++ m)
         (set_queued (queued s ++ l) (set_output (outputBuffer_ s) (wire s ++ slice m 0 n) (accepted s ++ m)
           (set_output (outputBuffer_ s) (wire s) (accepted s ++ m) s))))
      else Ok (set_output b (wire s ++ slice m 0 n) (accepted s ++ m)
         (set_queued (queued s ++ l) (set_output (outputBuffer_ s) (wire s ++ slice m 0 n) (accepted s ++ m)
           (set_output (outputBuffer_ s) (wire s) (accepted s ++ m) s))))) =
      Ok (updated s b (wire s ++ slice m 0 n) (accepted s ++ m) (queued s ++ l) e (fin s)) /\
      Z.testbit e 2 = true /\ Z.testbit e 0 = Z.testbit (events_ (chan s)) 0) as (e & -> & He2 & He0).
    { destruct (isWriting (chan s)) eqn:Ew; cbn [negb].
      - exists (events_ (chan s)). split; [|by rewrite <- isWriting_testbit].
        f_equal. rewrite <- updated_same by done. done.
      - rewrite enableWriting_eq by done. eexists. split; [|by apply set_writing_bits].
        f_equal. apply updated_enabled; [by rewrite ci_registered0|done]. }
    eexists. split; [done|]. apply updated_progress; try done.
    + rewrite zlen_app. lia.
    + by rewrite Hc, Hacc, <- !app_assoc.
    + by apply prefix_app_r.
    + by left.
    + intros _ _. by right; right.
    + rewrite zlen_app, sum_of_app. lia.
  - replace n with (zlen m) in * by lia. rewrite (slice_nil m (zlen m) (zlen m)), app_nil_r in Hacc by lia.
    eexists. split; [done|].
    replace (set_queued _ _) with (updated s (outputBuffer_ s) (wire s ++ slice m 0 (zlen m)) (accepted s ++ m)
      (queued s ++ l) (events_ (chan s)) (fin s)) by (by rewrite <- updated_same).
    apply updated_progress; try done.
    + rewrite zlen_app. lia.
    + by apply prefix_app_r.
    + by rewrite <- isWriting_testbit.
    + intros Hc. split; [done|]. rewrite <- isWriting_testbit. by apply ci_open0.
    + by left.
    + intros Hs Hc. rewrite <- isWriting_testbit. destruct (ci_shutdown0 Hs Hc) as [?|[?|?]]; [by left| |by right; right].
      right. left. apply elem_of_app. by left.
    + rewrite zlen_app, sum_of_app. lia.
Qed.

Lemma shutdownInLoop_eq s :
  channels s = {[channel_ := chan s]} ->
  shutdownInLoop s = Ok (if isWriting (chan s) then s
    else set_fin (match fin s with Some l => Some l | None => Some (accepted s) end) s).
Proof. intros E. unfold shutdownInLoop. rewrite get_chan by done. simpl. by destruct (isWriting (chan s)). Qed.

(** Shutting down a connection whose state says so, or is about to. *)
Lemma shutdownInLoop_inv v s f :
  conn_inv s -> live s = true -> v = kConnected \/ v = kDisconnecting ->
  f = (if isWriting (chan s) then fin s else match fin s with Some l => Some l | None => Some (accepted s) end) ->
  conn_inv (set_fin f (setState v s)).
Proof.
  intros [] Hl Hv ->.
  assert (ups_and_downs (log s) = [true]) as Hlog by (destruct (live_state s Hl) as [E|E]; by rewrite E in ci_log0).
  assert (live (setState v s) = true) as Hlv by (by destruct Hv as [-> | ->]).
  constructor; try done.
  - intros Hc l E. simpl in E |- *. destruct (isWriting (chan s)) eqn:Ew; [by apply ci_fin0|].
    destruct (fin s) as [l0|]; injection E as <-; [by apply ci_fin0|].
    destruct (ci_open0 Hl Hc) as [_ Ho]. rewrite ci_sent0.
    destruct (content (outputBuffer_ s)) eqn:Eo; [by rewrite app_nil_r|]. by specialize (Ho ltac:(done)).
  - simpl. by rewrite ci_registered0, Hl.
  - intros H. change (live (setState v s) = false) in H. congruence.
  - intros H. simpl in H. destruct Hv; congruence.
  - intros _ Hc. by apply ci_open0.
  - intros _ _. change (chan (set_fin _ _)) with (chan s). simpl.
    destruct (isWriting (chan s)); [by right; right|left]. by destruct (fin s).
  - simpl. by destruct Hv as [-> | ->].
Qed.

Lemma shutdownInLoop_ok s :
  conn_inv s -> live s = true ->
  exists s', shutdownInLoop (setState kDisconnecting s) = Ok s' /\ progress 0 s s'.
Proof.
  intros Hi Hl. rewrite shutdownInLoop_eq by apply Hi. eexists. split; [done|].
  change (chan (setState kDisconnecting s)) with (chan s). cbn [fin accepted setState].
  assert (exists f, (if isWriting (chan s) then setState kDisconnecting s
    else set_fin (match fin s with Some l => Some l | None => Some (accepted s) end) (setState kDisconnecting s)) =
    set_fin f (setState kDisconnecting s) /\
    f = (if isWriting (chan s) then fin s else match fin s with Some l => Some l | None => Some (accepted s) end)) as (f & -> & Hf).
  { destruct (isWriting (chan s)); eexists; (split; [|done]); done. }
  constructor; [by apply shutdownInLoop_inv; [..|right|]|unfold load; simpl; lia|done|by rewrite Hl|done].
Qed.

(** Taking bytes from the input buffer, in any state. *)
Lemma consume_ok n s :
  conn_inv s -> exists s', do_call s (Consume n) = Ok s' /\ progress 0 s s' /\
    exists b c, s' = set_input b (received s) c s.
Proof.
  intros Hi. pose proof Hi as []. simpl. set (b := inputBuffer_ s) in *.
  rewrite (readableBytes_content b) by done. set (k := Z.min (Z.of_N n) (zlen (content b))).
  pose proof (zlen_nonneg (content b)) as Hc.
  destruct (retrieve_spec b k ci_input_wf0) as (b' & -> & Hwf & Hc' & Hr' & Hb'); [lia|]. cbn [mbind outcome_bind].
  eexists. split; [done|]. split; [|by eexists _, _].
  assert (slice (buffer_ b) (peek b) (peek b + k) ++ content b' = content b) as Hsplit.
  { rewrite Hc'. unfold content, peek. destruct ci_input_wf0. rewrite slice_drop by lia. rewrite slice_app; [done|lia|].
    assert (zlen (content b) = writerIndex_ b - readerIndex_ b) as E by (unfold content; rewrite zlen_slice; lia). lia. }
  constructor; [|unfold load; simpl; lia|done|done|done].
  constructor; try done.
  - simpl. by rewrite Hb'.
  - simpl. by rewrite <- app_assoc, Hsplit.
Qed.

Lemma do_call_ok c s :
  conn_inv s -> room (call_bytes c) s ->
  exists s', do_call s c = Ok s' /\ progress (call_bytes c) s s'.
Proof.
  intros Hi Hr. pose proof (call_bytes_nonneg c) as Hc. destruct c as [m w| |n].
  - simpl in *. unfold send. destruct (decide _) as [E|E]; [|exists s; split; [done|]].
    + apply sendInLoop_ok; [done|unfold live; by rewrite E|done].
    + by eapply progress_weaken, progress_refl.
  - simpl. unfold shutdown. destruct (decide _) as [E|E]; [|exists s; split; [done|by apply progress_refl]].
    apply shutdownInLoop_ok; [done|unfold live; by rewrite E].
  - destruct (consume_ok n s Hi) as (s' & -> & Hp & _). by exists s'.
Qed.

Lemma do_calls_ok cs s :
  conn_inv s -> room (calls_bytes cs) s ->
  exists s', foldM do_call s cs = Ok s' /\ progress (calls_bytes cs) s s'.
Proof.
  revert s. unfold calls_bytes. induction cs as [|c cs IH]; intros s Hi Hr; cbn [foldM sum_of] in *.
  { exists s. split; [done|]. by apply progress_refl. }
  pose proof (sum_of_nonneg call_bytes cs call_bytes_nonneg).
  destruct (do_call_ok c s Hi) as (s1 & -> & H1); [unfold room in *; lia|]. cbn [mbind outcome_bind].
  destruct (IH s1) as (s2 & -> & H2); [apply H1|by eapply room_progress|].
  exists s2. split; [done|]. by eapply progress_trans.
Qed.

(** A callback that is not about the connection itself. *)
Lemma notify_ok n s : conn_inv s -> (match n with ConnectionCb _ | CloseCb => False | _ => True end) ->
  state_ s <> kConnecting -> progress 0 s (notify n s).
Proof.
  intros [] Hn Hst. constructor; [|unfold load; simpl; lia|done|done|done].
  assert (forall l : list notice, CloseCb ∉ l ++ [n] -> CloseCb ∉ l) as Hc.
  { intros l Hl Hin. apply Hl, elem_of_app. by left. }
  constructor; try done.
  - intros Hcl. by apply ci_fin0, Hc.
  - intros Hl Hcl. by apply ci_open0, Hc.
  - intros Hs Hcl. by apply ci_shutdown0, Hc.
  - simpl. unfold ups_and_downs in *. rewrite omap_app, ci_log0. destruct n; try done; simpl; by rewrite app_nil_r.
Qed.

Lemma user_callback_ok n cs s :
  conn_inv s -> (match n with ConnectionCb _ | CloseCb => False | _ => True end) ->
  state_ s <> kConnecting -> room (calls_bytes cs) s ->
  exists s', user_callback n cs s = Ok s' /\ progress (calls_bytes cs) s s'.
Proof.
  intros Hi Hn Hst Hr. pose proof (notify_ok n s Hi Hn Hst) as H1. unfold user_callback.
  destruct (do_calls_ok cs (notify n s)) as (s2 & -> & H2); [apply H1|by eapply (room_progress 0)|].
  exists s2. split; [done|]. by apply (progress_trans 0 _ _ _ _ H1).
Qed.

Lemma disableAll_eq s :
  channels s = {[channel_ := chan s]} ->
  disableAll updateChannel channel_ s =
  Ok (set_registered true (set_chans {[channel_ := set_events kNoneEvent (chan s)]} s)).
Proof. intros E. unfold disableAll. by rewrite modify_chan. Qed.

Lemma handleClose_ok s :
  conn_inv s -> live s = true -> exists s', handleClose s = Ok s' /\ progress 0 s s'.
Proof.
  intros Hi Hl. pose proof Hi as []. unfold handleClose.
  assert (bool_decide (state_ s = kConnected) || bool_decide (state_ s = kDisconnecting) = true) as -> by exact Hl.
  cbn [assert_ mbind outcome_bind]. rewrite disableAll_eq by done. cbn [mbind outcome_bind].
  eexists. split; [done|].
  set (s' := notify _ _). assert (chan s' = set_events kNoneEvent (chan s)) as Ec by (unfold chan at 1, s'; simpl; by rewrite lookup_singleton_eq).
  assert (CloseCb ∈ log s') as Hc by (apply elem_of_app; right; by left).
  constructor; [|unfold load; simpl; lia|done|by rewrite Hl|by rewrite Ec].
  constructor; rewrite ?Ec; try done.
  - intros Hs. simpl in Hs. unfold live in Hl. by rewrite Hs in Hl.
  - simpl. unfold ups_and_downs in *. rewrite omap_app, ci_log0. simpl. by rewrite app_nil_r.
Qed.

(** New bytes in the input buffer. *)
Lemma input_ok s b d :
  conn_inv s -> wf b -> content b = content (inputBuffer_ s) ++ d ->
  zlen (buffer_ b) <= zlen (buffer_ (inputBuffer_ s)) + zlen d ->
  progress (zlen d) s (set_input b (received s ++ d) (consumed s) s).
Proof.
  intros [] Hwf Hc Hsz. constructor; [|unfold load; simpl; rewrite zlen_app; lia|done|done|done].
  constructor; try done.
  - simpl. rewrite zlen_app. lia.
  - simpl. by rewrite Hc, ci_read0, app_assoc.
Qed.

Definition read_bytes (r : readv_result) : Z := match r with ReadvData d => zlen d | _ => 0 end.

Lemma conn_handleRead_ok r cs s :
  conn_inv s -> live s = true -> room (read_bytes r + calls_bytes cs) s ->
  exists s', handleRead r cs s = Ok s' /\ progress (read_bytes r + calls_bytes cs) s s'.
Proof.
  intros Hi Hl Hr. pose proof (sum_of_nonneg call_bytes cs call_bytes_nonneg) as Hcs. unfold handleRead.
  change (sum_of call_bytes cs) with (calls_bytes cs) in Hcs. destruct r as [err|d]; cbn [read_bytes] in *.
  - cbn. exists s. split.
    + f_equal. rewrite app_nil_r. by destruct s.
    + by eapply progress_weaken, progress_refl.
  - pose proof Hi as []. pose proof (zlen_nonneg d) as Hd.
    destruct (readFd_spec (inputBuffer_ s) d 0) as (b & -> & Hwf & Hc & _ & Hsz); [done| |].
    { unfold room, load in Hr. pose proof (zlen_nonneg (accepted s)).
      pose proof (sum_of_nonneg task_bytes (queued s) task_bytes_nonneg). lia. }
    cbn [mbind outcome_bind]. pose proof (input_ok s b d Hi Hwf Hc Hsz) as H1.
    set (s1 := set_input _ _ _ s) in *. assert (live s1 = true) as Hl1 by by apply (pr_live _ _ _ H1).
    destruct (Z.ltb_spec 0 (zlen d)) as [Hp|Hz].
    + destruct (user_callback_ok MessageCb cs s1) as (s2 & -> & H2);
        [apply H1|done| |by eapply room_progress|exists s2; split; [done|by eapply progress_trans]].
      by destruct (live_state s1 Hl1) as [-> | ->].
    + assert (zlen d = 0) as -> by lia. rewrite Z.eqb_refl.
      destruct (handleClose_ok s1) as (s2 & -> & H2); [apply H1|done|]. exists s2. split; [done|].
      eapply progress_weaken; [|by eapply progress_trans]. lia.
Qed.

Lemma content_slice b : wf b -> slice (buffer_ b) (peek b) (peek b + readableBytes b) = content b.
Proof.
  intros Hwf. rewrite readableBytes_eq by done. unfold content, peek. f_equal. lia.
Qed.

Lemma disableWriting_eq s :
  channels s = {[channel_ := chan s]} ->
  disableWriting updateChannel channel_ s =
  Ok (set_registered true (set_chans {[channel_ := set_events (Z.land (events_ (chan s)) (Z.lnot kWriteEvent)) (chan s)]} s)).
Proof. intros E. unfold disableWriting. by rewrite modify_chan. Qed.

(** What [handleWrite] does when the kernel takes [n] bytes. *)
Lemma handleWrite_spec w s :
  conn_inv s -> live s = true ->
  (exists b n q e f, handleWrite w s =
      Ok (updated s b (wire s ++ take (Z.to_nat n) (content (outputBuffer_ s))) (accepted s) (queued s ++ q) e f) /\
    isWriting (chan s) = true /\ n = write w (content (outputBuffer_ s)) /\ 0 < n /\ wf b /\
    buffer_ b = buffer_ (outputBuffer_ s) /\ content b = drop (Z.to_nat n) (content (outputBuffer_ s)) /\
    sum_of task_bytes q = 0 /\ (Z.testbit e 2 = bool_decide (content b <> [])) /\
    Z.testbit e 0 = Z.testbit (events_ (chan s)) 0 /\
    f = (if decide (content b = [] /\ state_ s = kDisconnecting)
         then match fin s with Some l => Some l | None => Some (accepted s) end else fin s) /\
    (content b = [] -> hasWriteComplete s = true -> q = [WriteCompleteTask])) \/
  (handleWrite w s = Ok s /\ (isWriting (chan s) = true -> write w (content (outputBuffer_ s)) <= 0)).
Proof.
  intros Hi Hl. pose proof Hi as []. unfold handleWrite. rewrite get_chan by done. cbn [mbind outcome_bind].
  destruct (isWriting (chan s)) eqn:Ew; [|by right]. rewrite content_slice by done.
  set (o := outputBuffer_ s) in *. pose proof (write_bounds w (content o)) as Hb.
  destruct (Z.ltb_spec 0 (write w (content o))) as [Hp|Hz]; [left|by right].
  set (n := write w (content o)) in *.
  destruct (retrieve_spec o n ci_output_wf0) as (b & -> & Hwf & Hc & _ & Hbuf); [lia|]. cbn [mbind outcome_bind].
  assert (slice (content o) 0 n = take (Z.to_nat n) (content o)) as ->.
  { unfold slice. by rewrite drop_0, Z.sub_0_r. }
  set (s1 := set_output b _ _ s). rewrite readable_zero by done. case_bool_decide as Hnil.
  - rewrite disableWriting_eq by done. cbn [mbind outcome_bind].
    set (s2 := set_registered true _). set (e := Z.land (events_ (chan s)) (Z.lnot kWriteEvent)).
    destruct (queueWriteComplete_eq s2) as (q & Eq & Hq). rewrite Eq.
    assert (hasWriteComplete s = true -> q = [WriteCompleteTask]) as Hwc.
    { intros Hw. unfold queueWriteComplete in Eq. change (hasWriteComplete s2) with (hasWriteComplete s) in Eq.
      rewrite Hw in Eq. apply (f_equal queued) in Eq. simpl in Eq. by apply app_inv_head in Eq. }
    destruct (clear_writing_bits (events_ (chan s))) as [He2 He0]. fold e in He2, He0.
    exists b, n, q, e.
    assert (set_queued (queued s2 ++ q) s2 = updated s b (wire s ++ take (Z.to_nat n) (content o)) (accepted s) (queued s ++ q) e (fin s)) as ->.
    { unfold updated, set_fin, set_queued, set_chans. cbn. by rewrite ci_registered0, Hl. }
    set (u := updated _ _ _ _ _ _ _). change (state_ u) with (state_ s).
    rewrite He2, bool_decide_eq_false_2 by auto.
    destruct (decide (state_ s = kDisconnecting)) as [Hs|Hs].
    + assert (chan u = set_events e (chan s)) as Ecu by apply chan_updated.
      rewrite shutdownInLoop_eq by (by rewrite Ecu). rewrite Ecu, isWriting_testbit. cbn [events_ set_events].
      rewrite He2. eexists. split; [done|]. do 9 (split; [done|]). split; [|by intros _].
      by rewrite decide_True by done.
    + exists (fin s). do 10 (split; [done|]). split; [|by intros _]. by rewrite decide_False by tauto.
  - exists b, n, [], (events_ (chan s)), (fin s). rewrite app_nil_r, <- updated_same by done.
    rewrite bool_decide_eq_true_2 by done. rewrite <- isWriting_testbit.
    split; [f_equal; by destruct s|]. do 9 (split; [done|]). split; [by rewrite decide_False by tauto|done].
Qed.

Lemma handleWrite_ok w s :
  conn_inv s -> live s = true -> exists s', handleWrite w s = Ok s' /\ progress 0 s s'.
Proof.
  intros Hi Hl. pose proof Hi as [].
  destruct (handleWrite_spec w s Hi Hl) as
    [(b & n & q & e & f & -> & Hw & Hn & Hp & Hwf & Hbuf & Hc & Hq & He2 & He0 & Hf & _)|[-> _]];
    [|exists s; split; [done|by apply progress_refl]].
  eexists. split; [done|]. pose proof (write_bounds w (content (outputBuffer_ s))) as Hb.
  assert (accepted s = (wire s ++ take (Z.to_nat n) (content (outputBuffer_ s))) ++ content b) as Hacc.
  { by rewrite Hc, <- app_assoc, take_drop. }
  apply updated_progress; try done.
  - by rewrite Hbuf.
  - by apply prefix_app_r.
  - rewrite He2. by intros ?%bool_decide_eq_true.
  - intros _. split; [done|]. intros Hne. by rewrite He2, bool_decide_eq_true_2.
  - intros Hcl. rewrite Hf. destruct (decide _) as [[Hnil Hs]|Hd]; [|by left].
    destruct (fin s) as [l|]; [by left|right]. split; [done|]. by rewrite Hacc, Hnil, app_nil_r.
  - intros Hs Hcl. rewrite Hf, He2. destruct (decide (content b = [])) as [Hnil|Hne].
    + left. rewrite decide_True by done. by destruct (fin s).
    + right. right. by apply bool_decide_eq_true_2.
  - rewrite sum_of_app. lia.
Qed.

(** ** Lemmas: events *)

Lemma channel_progress s c :
  conn_inv s -> events_ c = events_ (chan s) -> same_dispatch (set_revents (revents_ c) (chan s)) c ->
  conn_inv (set_chans {[channel_ := c]} s) /\ load (set_chans {[channel_ := c]} s) = load s /\
  live (set_chans {[channel_ := c]} s) = live s.
Proof. intros Hi He (_ & Hr & Hw & Her & Hc). split; [by apply conn_inv_channel|done]. Qed.

Lemma guarded_ok n (b : bool) f arg (h : callback -> option Z -> TcpConnection -> outcome TcpConnection) s :
  0 <= n -> conn_inv s -> (exists s', h f arg s = Ok s' /\ progress n s s') ->
  exists s', (if b then call_if h (Some f) arg s else Ok s) = Ok s' /\ progress n s s'.
Proof.
  intros Hn Hi Hh. destruct b; [done|]. exists s. split; [done|]. by eapply progress_weaken, progress_refl.
Qed.

Lemma ready_ok revents r w cs s :
  conn_inv s -> registered s = true -> room (read_bytes r + calls_bytes cs) s ->
  exists s', run_event s (Ready revents r w cs) = Ok s' /\ conn_inv s' /\
    load s' <= load s + (read_bytes r + calls_bytes cs).
Proof.
  intros Hi Hreg Hroom. pose proof (sum_of_nonneg call_bytes cs call_bytes_nonneg) as Hcs.
  change (sum_of call_bytes cs) with (calls_bytes cs) in Hcs.
  assert (0 <= read_bytes r) as Hrb by (destruct r; simpl; auto using zlen_nonneg with zarith).
  assert (live s = true) as Hl by (by rewrite <- (ci_registered _ Hi)).
  cbn [run_event]. rewrite modify_chan by apply Hi. cbn [mbind outcome_bind]. unfold handleEvent.
  set (s0 := set_chans {[channel_ := set_revents revents (chan s)]} s).
  assert (chan s0 = set_revents revents (chan s)) as Ec0 by apply chan_set.
  rewrite modify_chan by (by rewrite Ec0). rewrite Ec0. cbn [mbind outcome_bind].
  set (s1 := set_chans _ s0).
  assert (conn_inv s1 /\ load s1 = load s /\ live s1 = live s) as (H1 & L1 & V1) by (by apply (channel_progress s)).
  rewrite Hl in V1. clearbody s1.
  assert (forall s s' n, progress n s s' -> live s = true -> conn_inv s' /\ live s' = true) as Hnext.
  { intros x y n []. auto. }
  assert (forall s, conn_inv s -> readCallback_ (chan s) = Some read_cb /\ writeCallback_ (chan s) = Some write_cb /\
    errorCallback_ (chan s) = Some error_cb /\ closeCallback_ (chan s) = Some close_cb) as Hcb by by intros ? [].
  rewrite (get_chan s1) by apply H1. cbn [mbind outcome_bind]. destruct (Hcb s1 H1) as (_ & _ & _ & ->).
  destruct (guarded_ok 0 (has (revents_ (chan s1)) POLLHUP && negb (has (revents_ (chan s1)) POLLIN))
    close_cb None (handler r w cs) s1) as (s2 & -> & P2); [done|done|by apply handleClose_ok|].
  cbn [mbind outcome_bind]. destruct (Hnext _ _ _ P2 V1) as [H2 V2]. rewrite (get_chan s2) by apply H2.
  cbn [mbind outcome_bind]. destruct (Hcb s2 H2) as (_ & _ & -> & _).
  destruct (guarded_ok 0 (has (revents_ (chan s2)) (Z.lor POLLERR POLLNVAL)) error_cb None (handler r w cs) s2)
    as (s3 & -> & P3); [done|done|exists s2; split; [done|by apply progress_refl]|].
  cbn [mbind outcome_bind]. destruct (Hnext _ _ _ P3 V2) as [H3 V3]. rewrite (get_chan s3) by apply H3.
  cbn [mbind outcome_bind]. destruct (Hcb s3 H3) as (-> & _ & _ & _).
  destruct (guarded_ok (read_bytes r + calls_bytes cs) (has (revents_ (chan s3)) (Z.lor (Z.lor POLLIN POLLPRI) POLLRDHUP))
    read_cb (Some 0) (handler r w cs) s3) as (s4 & -> & P4); [lia|done| |].
  { apply conn_handleRead_ok; [done|done|]. destruct P2, P3. unfold room in *. lia. }
  cbn [mbind outcome_bind]. destruct (Hnext _ _ _ P4 V3) as [H4 V4]. rewrite (get_chan s4) by apply H4.
  cbn [mbind outcome_bind]. destruct (Hcb s4 H4) as (_ & -> & _ & _).
  destruct (guarded_ok 0 (has (revents_ (chan s4)) POLLOUT) write_cb None (handler r w cs) s4)
    as (s5 & -> & P5); [done|done|by apply handleWrite_ok|].
  cbn [mbind outcome_bind]. destruct (Hnext _ _ _ P5 V4) as [H5 V5]. rewrite modify_chan by apply H5.
  eexists. split; [done|].
  destruct (channel_progress s5 (set_eventHandling false (chan s5)) H5) as (H6 & L6 & _); [done|done|].
  split; [done|]. destruct P2, P3, P4, P5. lia.
Qed.

Lemma enableReading_eq s :
  channels s = {[channel_ := chan s]} ->
  enableReading updateChannel channel_ s =
  Ok (set_registered true (set_chans {[channel_ := set_events (Z.lor (events_ (chan s)) kReadEvent) (chan s)]} s)).
Proof. intros E. unfold enableReading. by rewrite modify_chan. Qed.

Lemma established_ok cs s :
  conn_inv s -> state_ s = kConnecting -> room (calls_bytes cs) s ->
  exists s', connectEstablished cs s = Ok s' /\ conn_inv s' /\ load s' <= load s + calls_bytes cs.
Proof.
  intros Hi Hst Hroom. pose proof Hi as []. unfold connectEstablished. rewrite bool_decide_eq_true_2 by done.
  cbn [assert_ mbind outcome_bind]. rewrite enableReading_eq by done. cbn [mbind outcome_bind]. unfold user_callback.
  destruct (ci_fresh0 Hst) as (Hlog & Hq & Ho). assert (live s = false) as Hl by (unfold live; by rewrite Hst).
  set (s1 := notify _ _).
  assert (chan s1 = set_events (Z.lor (events_ (chan s)) kReadEvent) (chan s)) as Ec
    by (unfold chan at 1, s1; simpl; by rewrite lookup_singleton_eq).
  rewrite (ci_none0 Hl) in Ec.
  assert (conn_inv s1) as H1.
  { constructor; rewrite ?Ec; try done.
    - unfold s1. simpl. f_equal. change (chan (setState kConnected s)) with (chan s). by rewrite (ci_none0 Hl).
    - intros Hc. apply ci_fin0. rewrite Hlog. apply not_elem_of_nil.
    - unfold s1. simpl. by rewrite Hlog. }
  destruct (do_calls_ok cs s1 H1 Hroom) as (s2 & -> & []). exists s2. done.
Qed.

(** In a destroyed connection calls have no effect but to take input. *)
Lemma dead_calls v cs s :
  state_ s = kDisconnected ->
  foldM do_call (set_registered v s) cs = (set_registered v <$> foldM do_call s cs).
Proof.
  revert s. induction cs as [|c cs IH]; intros s Hs; [done|]. cbn [foldM].
  destruct c as [m w| |n]; cbn [do_call]; unfold send, shutdown; cbn [state_ set_registered];
    rewrite ?decide_False by congruence; cbn [mbind outcome_bind]; [by apply IH|by apply IH|].
  cbn [inputBuffer_ set_registered]. destruct (retrieve (inputBuffer_ s) _) as [b|]; [|done].
  cbn [mbind outcome_bind]. change (set_input b ?r ?c (set_registered v s)) with (set_registered v (set_input b r c s)).
  by apply IH.
Qed.

Lemma destroyed_ok cs s :
  conn_inv s -> live s = true -> room (calls_bytes cs) s ->
  exists s', connectDestroyed cs s = Ok s' /\ conn_inv s' /\ load s' <= load s + calls_bytes cs.
Proof.
  intros Hi Hl Hroom. pose proof Hi as []. unfold connectDestroyed.
  assert (bool_decide (state_ s = kConnected) || bool_decide (state_ s = kDisconnecting) = true) as -> by exact Hl.
  cbn [assert_ mbind outcome_bind]. rewrite disableAll_eq by done. cbn [mbind outcome_bind]. unfold user_callback.
  set (s1 := notify (ConnectionCb false) (set_chans {[channel_ := set_events kNoneEvent (chan s)]}
    (setState kDisconnected (set_registered false s)))).
  change (notify _ _) with (set_registered true s1). rewrite dead_calls by done.
  assert (chan s1 = set_events kNoneEvent (chan s)) as Ec
    by (unfold chan at 1, s1; simpl; by rewrite lookup_singleton_eq).
  assert (forall l : list notice, CloseCb ∉ l ++ [ConnectionCb false] -> CloseCb ∉ l) as Hc.
  { intros l H Hin. apply H, elem_of_app. by left. }
  assert (conn_inv s1) as H1.
  { constructor; rewrite ?Ec; try done.
    - intros Hcl. by apply ci_fin0, Hc.
    - unfold s1. simpl. unfold ups_and_downs in *. rewrite omap_app, ci_log0. by destruct (live_state s Hl) as [-> | ->]. }
  destruct (do_calls_ok cs s1 H1 Hroom) as (s2 & -> & [H2 L2 _ D2 _]). cbn.
  assert (state_ s2 = kDisconnected) as Hs2 by (by apply D2).
  assert (live s2 = false) as Hl2 by (unfold live; by rewrite Hs2).
  unfold removeChannel. rewrite (get_chan (set_registered true s2)) by apply H2. cbn.
  change (chan (set_registered true s2)) with (chan s2). unfold isNoneEvent.
  rewrite (ci_none _ H2 Hl2). cbn. eexists. split; [done|].
  change (set_registered false (set_registered true s2)) with (set_registered false s2).
  rewrite set_registered_id by (by rewrite (ci_registered _ H2)). done.
Qed.

Lemma set_queued_inv q s :
  conn_inv s -> state_ s <> kConnecting -> (ShutdownTask ∈ queued s -> ShutdownTask ∈ q) -> conn_inv (set_queued q s).
Proof.
  intros [] Hs Hq. constructor; try done. intros Hst Hc. simpl in *.
  destruct (ci_shutdown0 Hst Hc) as [?|[?|?]]; [by left|right; left; auto|by right; right].
Qed.

Lemma runTask_ok w cs s :
  conn_inv s -> legal s (RunTask w cs) = true -> room (calls_bytes cs) s ->
  exists s', runTask w cs s = Ok s' /\ conn_inv s' /\ load s' <= load s + calls_bytes cs.
Proof.
  intros Hi Hlegal Hroom. pose proof (sum_of_nonneg call_bytes cs call_bytes_nonneg) as Hcs.
  change (sum_of call_bytes cs) with (calls_bytes cs) in Hcs.
  unfold runTask. unfold legal in Hlegal. destruct (queued s) as [|t q] eqn:Eq.
  { exists s. split; [done|]. split; [done|lia]. }
  assert (state_ s <> kConnecting) as Hst.
  { intros E. destruct (ci_fresh _ Hi E) as (_ & H & _). congruence. }
  assert (load s = load (set_queued q s) + task_bytes t) as Hload.
  { unfold load. rewrite Eq. cbn [sum_of accepted received queued set_queued]. lia. }
  assert (state_ s <> kDisconnected -> live s = true) as Hlive.
  { unfold live. destruct (state_ s); done. }
  destruct t as [m| |]; simpl in Hload.
  - apply bool_decide_eq_true in Hlegal. assert (conn_inv (set_queued q s)) as H1.
    { apply set_queued_inv; [done..|]. rewrite Eq. by intros [?|?]%elem_of_cons. }
    destruct (sendInLoop_ok m w (set_queued q s) H1 (Hlive Hlegal)) as (s2 & -> & []);
      [unfold room in *; lia|]. exists s2. split; [done|]. split; [done|lia].
  - apply bool_decide_eq_true in Hlegal. specialize (Hlive Hlegal).
    rewrite shutdownInLoop_eq by apply Hi. change (chan (set_queued q s)) with (chan s). eexists. split; [done|].
    set (s1 := setState kConnected (set_queued q s)).
    assert (conn_inv s1) as H1.
    { destruct Hi. assert (ups_and_downs (log s) = [true]) as Hlog
        by (destruct (live_state s Hlive) as [E|E]; by rewrite E in ci_log0).
      constructor; try done; [simpl; by rewrite ci_registered0, Hlive|].
      intros _ Hc. by apply ci_open0. }
    pose proof (shutdownInLoop_inv (state_ s) s1 _ H1 eq_refl (live_state s Hlive) eq_refl) as H2.
    change (chan s1) with (chan s) in H2. cbn in H2 |- *.
    destruct (isWriting (chan s)); (split; [|unfold load in *; simpl in *; lia]).
    + replace (set_queued q s) with (set_fin (fin s) (setState (state_ s) s1)) by (by destruct s). done.
    + replace (set_queued q s) with (setState (state_ s) s1) by (by destruct s). done.
  - assert (conn_inv (set_queued q s)) as H1.
    { apply set_queued_inv; [done..|]. rewrite Eq. by intros [?|?]%elem_of_cons. }
    destruct (user_callback_ok WriteCompleteCb cs (set_queued q s) H1) as (s2 & -> & []);
      [done|done|unfold room in *; lia|]. exists s2. split; [done|]. split; [done|lia].
Qed.

Lemma event_ok s e :
  conn_inv s -> legal s e = true -> room (event_bytes e) s ->
  exists s', run_event s e = Ok s' /\ conn_inv s' /\ load s' <= load s + event_bytes e.
Proof.
  intros Hi Hlegal Hroom. destruct e as [cs|rev r w cs|c|m| |w cs|cs].
  - apply established_ok; [done| |done]. by apply bool_decide_eq_true in Hlegal.
  - by apply ready_ok.
  - destruct (do_call_ok c s Hi Hroom) as (s' & E & []). by exists s'.
  - cbn [run_event event_bytes]. eexists. split; [done|]. unfold send_other. destruct (decide _) as [E|E].
    + split; [|unfold load; simpl; rewrite sum_of_app; simpl; lia].
      apply set_queued_inv; [done|congruence|]. intros H. apply elem_of_app. by left.
    + split; [done|]. pose proof (zlen_nonneg m). lia.
  - cbn [run_event event_bytes]. eexists. split; [done|]. unfold shutdown_other. destruct (decide _) as [E|E].
    + split; [|unfold load; simpl; rewrite sum_of_app; simpl; lia]. destruct Hi.
      assert (ups_and_downs (log s) = [true]) by (by rewrite E in ci_log0).
      constructor; try done.
      * simpl. rewrite ci_registered0. unfold live. simpl. by rewrite E.
      * intros _ Hc. apply ci_open0; [unfold live; by rewrite E|done].
      * intros _ _. right. left. apply elem_of_app. right. by left.
    + split; [done|]. lia.
  - by apply runTask_ok.
  - by apply destroyed_ok.
Qed.

Lemma event_bytes_nonneg e : 0 <= event_bytes e.
Proof.
  assert (forall cs, 0 <= calls_bytes cs) as Hc by (intros cs; apply sum_of_nonneg, call_bytes_nonneg).
  destruct e as [cs|rev r w cs|c|m| |w cs|cs]; simpl; auto using call_bytes_nonneg, zlen_nonneg with zarith.
  specialize (Hc cs). destruct r as [|d]; [|pose proof (zlen_nonneg d)]; lia.
Qed.

Lemma run_events_ok es s :
  conn_inv s -> legal_run s es = true -> room (total_bytes es) s ->
  exists s', foldM run_event s es = Ok s' /\ conn_inv s' /\ load s' <= load s + total_bytes es.
Proof.
  revert s. unfold total_bytes. induction es as [|e es IH]; intros s Hi Hl Hr; cbn [foldM legal_run sum_of] in *.
  { exists s. split; [done|]. split; [done|lia]. }
  apply andb_true_iff in Hl as [Hl Hrest]. pose proof (sum_of_nonneg event_bytes es event_bytes_nonneg).
  destruct (event_ok s e Hi Hl) as (s1 & E & H1 & L1); [unfold room in *; lia|]. rewrite E in *. cbn [mbind outcome_bind].
  destruct (IH s1 H1 Hrest) as (s2 & -> & H2 & L2); [unfold room in *; lia|].
  exists s2. split; [done|]. split; [done|lia].
Qed.

Lemma new_TcpConnection_ok loop fd wc :
  exists s, new_TcpConnection loop fd wc = Ok s /\ conn_inv s /\ load s = 0.
Proof.
  destruct new_Buffer_represents as (b & E & [Hwf Hc _ _] & Hsz). unfold new_TcpConnection. rewrite E. cbn.
  eexists. split; [done|]. split; [|done]. simpl in Hc.
  set (s := mkTcpConnection _ _ _ _ _ _ _ _ _ _ _ _ _).
  assert (chan s = setCallbacks (Some read_cb) (Some write_cb) (Some error_cb) (Some close_cb) (new_Channel loop fd)) as Ec
    by reflexivity.
  constructor; rewrite ?Ec; try done; simpl; rewrite ?Hsz, ?Hc; done.
Qed.

(** A functor of [send] that was queued behind [connectDestroyed]. *)
Lemma late_send_ok m q w cs s :
  conn_inv s -> state_ s = kDisconnected -> queued s = SendTask m :: q -> room 0 s ->
  exists s', runTask w cs s = Ok s' /\
    registered s' = ((if bool_decide (content (outputBuffer_ s) = []) then Z.max 0 (write w m) else 0) <? zlen m).
Proof.
  intros Hi Hs Eq Hroom. pose proof Hi as []. assert (live s = false) as Hl by (unfold live; by rewrite Hs).
  assert (isWriting (chan s) = false) as Hw by (unfold isWriting; by rewrite ci_none0).
  pose proof (zlen_nonneg m) as Hm. pose proof (load_output s) as Hlo. unfold room, load in Hroom.
  rewrite Eq in Hroom, Hlo. cbn [sum_of task_bytes] in Hroom, Hlo.
  pose proof (sum_of_nonneg task_bytes q task_bytes_nonneg) as Hq. pose proof (zlen_nonneg (received s)) as Hre.
  unfold runTask. rewrite Eq. unfold sendInLoop.
  rewrite (get_chan (set_output _ _ _ (set_queued q s))) by done. cbn [mbind outcome_bind].
  change (chan (set_output _ _ _ (set_queued q s))) with (chan s).
  set (s1 := set_output _ _ _ (set_queued q s)).
  assert (writeDirectly m w (chan s) s1 = ((writeDirectly m w (chan s) s1).1,
    if bool_decide (content (outputBuffer_ s) = []) then Z.max 0 (write w m) else 0)) as Ewd.
  { unfold writeDirectly. rewrite Hw, (readable_zero (outputBuffer_ s1)) by done. cbn [negb andb].
    change (outputBuffer_ s1) with (outputBuffer_ s). destruct (bool_decide _); [|done].
    destruct (write_bounds w m) as [->|Hb]; [done|]. cbv zeta. rewrite (proj2 (Z.leb_le _ _)) by lia.
    cbn [fst]. f_equal. lia. }
  destruct (writeDirectly_spec m w (chan s) s1) as (l & n & Hn & _ & _ & E); [done|].
  rewrite E in Ewd |- *. cbn [fst] in Ewd. injection Ewd as En. rewrite <- En.
  rewrite (proj2 (Z.leb_le 0 n)) by lia. cbn [assert_ mbind outcome_bind].
  destruct (Z.ltb_spec n (zlen m)) as [Hlt|Hge].
  - destruct (append_spec (outputBuffer_ s) (slice m n (zlen m))) as (b & Eb & _);
      [done|rewrite zlen_slice by lia; lia|]. cbn. rewrite Eb. cbn. rewrite Hw. cbn [negb].
    rewrite enableWriting_eq by done. by eexists.
  - eexists. split; [done|]. cbn. by rewrite ci_registered0.
Qed.

(** A report of [POLLOUT] alone calls [handleWrite]. *)
Lemma ready_write r w cs s :
  conn_inv s -> live s = true ->
  exists c s2, conn_inv (set_chans {[channel_ := c]} s) /\ events_ c = events_ (chan s) /\
    handleWrite w (set_chans {[channel_ := c]} s) = Ok s2 /\ conn_inv s2 /\
    run_event s (Ready POLLOUT r w cs) = Ok (set_chans {[channel_ := set_eventHandling false (chan s2)]} s2).
Proof.
  intros Hi Hl. pose proof Hi as [].
  set (c := set_eventHandling true (set_revents POLLOUT (chan s))).
  assert (conn_inv (set_chans {[channel_ := c]} s)) as H1 by (by apply conn_inv_channel).
  assert (live (set_chans {[channel_ := c]} s) = true) as V1 by exact Hl.
  destruct (handleWrite_ok w _ H1 V1) as (s2 & E2 & P2). exists c, s2.
  split; [done|]. split; [done|]. split; [done|]. split; [apply P2|].
  cbn [run_event]. rewrite modify_chan by done. cbn [mbind outcome_bind]. unfold handleEvent.
  set (s0 := set_chans {[channel_ := set_revents POLLOUT (chan s)]} s).
  assert (chan s0 = set_revents POLLOUT (chan s)) as Ec0 by apply chan_set.
  rewrite modify_chan by (by rewrite Ec0). rewrite Ec0. cbn [mbind outcome_bind].
  change (set_chans _ s0) with (set_chans {[channel_ := c]} s). set (s1 := set_chans _ s) in *.
  assert (chan s1 = c) as Ec1 by apply chan_set.
  rewrite (get_chan s1) by apply H1. cbn [mbind outcome_bind]. rewrite Ec1.
  change (has (revents_ c) POLLHUP && _) with false. cbn [mbind outcome_bind].
  rewrite (get_chan s1) by apply H1. cbn [mbind outcome_bind]. rewrite Ec1.
  change (has (revents_ c) (Z.lor POLLERR POLLNVAL)) with false. cbn [mbind outcome_bind].
  rewrite (get_chan s1) by apply H1. cbn [mbind outcome_bind]. rewrite Ec1.
  change (has (revents_ c) (Z.lor (Z.lor POLLIN POLLPRI) POLLRDHUP)) with false. cbn [mbind outcome_bind].
  rewrite (get_chan s1) by apply H1. cbn [mbind outcome_bind]. rewrite Ec1.
  change (has (revents_ c) POLLOUT) with true. cbn [mbind outcome_bind].
  replace (writeCallback_ c) with (Some write_cb) by (symmetry; apply ci_callbacks0).
  change (call_if _ (Some write_cb) None s1) with (handleWrite w s1). rewrite E2. cbn [mbind outcome_bind].
  by rewrite modify_chan by apply P2.
Qed.

Lemma drain_step r n cs s :
  conn_inv s -> live s = true -> isWriting (chan s) = true -> (0 < n)%N ->
  exists s', run_event s (Ready POLLOUT r (Wrote n) cs) = Ok s' /\ conn_inv s' /\ live s' = true /\
    log s' = log s /\ accepted s' = accepted s /\ state_ s' = state_ s /\ hasWriteComplete s' = hasWriteComplete s /\
    content (outputBuffer_ s') = drop (N.to_nat n) (content (outputBuffer_ s)) /\
    (content (outputBuffer_ s') <> [] -> isWriting (chan s') = true) /\
    (content (outputBuffer_ s') = [] -> isWriting (chan s') = false /\
      (state_ s = kDisconnecting -> is_Some (fin s')) /\
      (hasWriteComplete s = true -> WriteCompleteTask ∈ queued s')).
Proof.
  intros Hi Hl Hw Hn. destruct (ready_write r (Wrote n) cs s Hi Hl) as (c & s2 & H1 & Ec & E2 & H2 & E).
  set (s1 := set_chans {[channel_ := c]} s) in *.
  assert (chan s1 = c) as Ec1 by apply chan_set.
  assert (isWriting (chan s1) = true) as Hw1 by (rewrite Ec1; unfold isWriting in *; by rewrite Ec).
  rewrite E. eexists. split; [done|].
  destruct (handleWrite_spec (Wrote n) s1 H1 Hl) as
    [(b & k & q & e & f & E3 & _ & Hk & Hp & _ & _ & Hc & _ & He2 & _ & Hf & Hq)|[_ Hneg]].
  2:{ specialize (Hneg Hw1). exfalso. pose proof (ci_writing _ H1 Hw1) as Hne. simpl in Hneg.
      pose proof (zlen_nonneg (content (outputBuffer_ s))) as Hnn.
      assert (zlen (content (outputBuffer_ s)) = 0) as Hz by lia. by apply zlen_zero_nil in Hz. }
  rewrite E2 in E3. injection E3 as ->. set (s2 := updated _ _ _ _ _ _ _) in *.
  assert (chan s2 = set_events e (chan s1)) as Ec2 by apply chan_updated.
  assert (content b = drop (N.to_nat n) (content (outputBuffer_ s))) as Hcb.
  { rewrite Hc. change (outputBuffer_ s1) with (outputBuffer_ s) in *. rewrite Hk. simpl.
    unfold zlen. destruct (decide (N.to_nat n <= length (content (outputBuffer_ s)))%nat) as [Hle|Hgt].
    - f_equal. lia.
    - rewrite !drop_ge; [done|lia|lia]. }
  split; [by apply conn_inv_channel|]. split; [done|]. do 4 (split; [done|]). split; [done|].
  rewrite chan_set, isWriting_testbit, Ec2. cbn [events_ set_events set_eventHandling]. rewrite He2.
  split; [by apply bool_decide_eq_true_2|]. intros Hnil. change (content b = []) in Hnil.
  split; [|split].
  - by apply bool_decide_eq_false_2; auto.
  - intros Hs. simpl. rewrite Hf, decide_True by done. by destruct (fin s1).
  - intros Hwc. simpl. rewrite (Hq Hnil Hwc). apply elem_of_app. right. by left.
Qed.

Lemma drain_ok (r : readv_result) (cs : list call) ns s :
  conn_inv s -> live s = true -> isWriting (chan s) = true -> Forall (fun n => 0 < n)%N ns ->
  (length (content (outputBuffer_ s)) <= length ns)%nat ->
  exists k s', (k <= length ns)%nat /\
    foldM run_event s (take k ((fun n => Ready POLLOUT r (Wrote n) cs) <$> ns)) = Ok s' /\
    wire s' = accepted s /\ content (outputBuffer_ s') = [] /\ isWriting (chan s') = false /\
    (state_ s = kDisconnecting -> is_Some (fin s')) /\
    (hasWriteComplete s = true -> WriteCompleteTask ∈ queued s').
Proof.
  revert s. induction ns as [|n ns IH]; intros s Hi Hl Hw Hns Hlen.
  { exfalso. apply (ci_writing _ Hi Hw). destruct (content (outputBuffer_ s)); [done|simpl in Hlen; lia]. }
  apply Forall_cons in Hns as [Hn Hns].
  destruct (drain_step r n cs s Hi Hl Hw Hn) as (s1 & E & H1 & V1 & Hlog & Hacc & Hst & Hwc & Hc & Hdw & Hend).
  destruct (decide (content (outputBuffer_ s1) = [])) as [Hnil|Hne].
  - exists 1%nat, s1. split; [simpl; lia|]. cbn [fmap list_fmap take foldM]. rewrite E. split; [done|].
    destruct (Hend Hnil) as (? & ? & ?). split; [|done].
    pose proof (ci_sent _ H1) as Hs. rewrite Hnil, app_nil_r in Hs. congruence.
  - destruct (IH s1) as (k & s2 & Hk & E2 & Hrest); [done|done|by apply Hdw|done| |].
    + rewrite Hc, length_drop. simpl in Hlen. lia.
    + exists (S k), s2. split; [simpl; lia|]. cbn [fmap list_fmap take foldM]. rewrite E. split; [exact E2|].
      rewrite Hacc, Hst, Hwc in Hrest. done.
Qed.

(** ** Properties *)

(** C2: a run of a connection ends and no assertion fails, whatever the
    peer, the kernel, other threads and the callbacks do in a legal order
    (as long as the bytes fit in the buffers); and the streams are intact:
    what was given to [sendInLoop] is what the kernel took, in order,
    followed by the output buffer, and what was read is what the user took,
    followed by the input buffer; when the connection was shut down for
    writing (and the peer had not closed it), everything sent before had
    left. *)
Theorem connection_streams (loop : ptr) (fd : Z) (wc : bool) (s0 : TcpConnection) (es : list event) :
  new_TcpConnection loop fd wc = Ok s0 -> legal_run s0 es = true ->
  buffer_base + total_bytes es <= max_size ->
  exists s, foldM run_event s0 es = Ok s /\
    accepted s = wire s ++ content (outputBuffer_ s) /\
    received s = consumed s ++ content (inputBuffer_ s) /\
    (CloseCb ∉ log s -> forall l, fin s = Some l -> l `prefix_of` wire s).
Proof.
  intros E0 Hl Hroom. destruct (new_TcpConnection_ok loop fd wc) as (s0' & E & Hi & Hload).
  rewrite E0 in E. injection E as <-.
  destruct (run_events_ok es s0 Hi Hl) as (s & Es & [] & _); [unfold room; lia|]. by exists s.
Qed.

(** C6: the life of a connection that its owner establishes once and destroys
    once ([legal]): the connection callback reports it up once, and down once
    when it is destroyed; from [connectEstablished] to [connectDestroyed] it
    is registered in the poller, and otherwise it is not, as long as no
    functor of [send] or [shutdown] is run after [connectDestroyed]. A
    [send] of another thread can be queued behind it: run then (on an object
    that somebody still refers to, since the functor holds a bare [this]), it
    registers the channel of the destroyed connection again, exactly if the
    kernel does not take the whole message. Until the connection is closed it waits for
    input, it waits for output space exactly when there is output, and a
    shutdown that was asked for has happened, waits in the loop or waits for
    the output to leave. *)
Theorem connection_life (loop : ptr) (fd : Z) (wc : bool) (s0 s : TcpConnection) (es : list event) :
  new_TcpConnection loop fd wc = Ok s0 -> legal_run s0 es = true ->
  buffer_base + total_bytes es <= max_size -> foldM run_event s0 es = Ok s ->
  ups_and_downs (log s) =
    match state_ s with
    | kConnecting => [] | kConnected | kDisconnecting => [true] | kDisconnected => [true; false]
    end /\
  registered s = live s /\
  (forall m q w cs, state_ s = kDisconnected -> queued s = SendTask m :: q ->
    exists s', runTask w cs s = Ok s' /\
      registered s' = ((if bool_decide (content (outputBuffer_ s) = []) then Z.max 0 (write w m) else 0) <? zlen m)) /\
  (isWriting (chan s) = true -> content (outputBuffer_ s) <> []) /\
  (live s = true -> CloseCb ∉ log s ->
    has (events_ (chan s)) POLLIN = true /\
    (content (outputBuffer_ s) <> [] -> isWriting (chan s) = true) /\
    (state_ s = kDisconnecting -> is_Some (fin s) \/ ShutdownTask ∈ queued s \/ isWriting (chan s) = true)).
Proof.
  intros E0 Hl Hroom Es. destruct (new_TcpConnection_ok loop fd wc) as (s0' & E & Hi & Hload).
  rewrite E0 in E. injection E as <-.
  destruct (run_events_ok es s0 Hi Hl) as (s' & Es' & Hi' & Hle); [unfold room; lia|].
  rewrite Es in Es'. injection Es' as <-. pose proof Hi' as []. do 2 (split; [done|]). split.
  { intros m q w cs Hs Eq. apply (late_send_ok m q w cs s Hi' Hs Eq). unfold room. lia. }
  split; [done|]. intros Hlive Hc. destruct (ci_open0 Hlive Hc). split; [done|]. split; [done|].
  intros Hs. by apply ci_shutdown0.
Qed.

(** C15: output does not get stuck: as long as the kernel takes at least one
    byte whenever it reports the descriptor writable, the reports that reach
    the connection empty its output buffer; then everything given to
    [sendInLoop] has left, the channel no longer waits for output space, a
    pending shutdown has happened and the write-complete callback waits in
    the loop. *)
Theorem output_drains (loop : ptr) (fd : Z) (wc : bool) (s0 s : TcpConnection) (es : list event)
    (r : readv_result) (cs : list call) (ns : list N) :
  new_TcpConnection loop fd wc = Ok s0 -> legal_run s0 es = true ->
  buffer_base + total_bytes es <= max_size -> foldM run_event s0 es = Ok s ->
  live s = true -> isWriting (chan s) = true -> Forall (fun n => 0 < n)%N ns ->
  (length (content (outputBuffer_ s)) <= length ns)%nat ->
  exists k s', (k <= length ns)%nat /\
    foldM run_event s (take k ((fun n => Ready POLLOUT r (Wrote n) cs) <$> ns)) = Ok s' /\
    wire s' = accepted s /\ content (outputBuffer_ s') = [] /\ isWriting (chan s') = false /\
    (state_ s = kDisconnecting -> is_Some (fin s')) /\
    (hasWriteComplete s = true -> WriteCompleteTask ∈ queued s').
Proof.
  intros E0 Hl Hroom Es Hlive Hw Hns Hlen. destruct (new_TcpConnection_ok loop fd wc) as (s0' & E & Hi & Hload).
  rewrite E0 in E. injection E as <-.
  destruct (run_events_ok es s0 Hi Hl) as (s' & Es' & Hi' & _); [unfold room; lia|].
  rewrite Es in Es'. injection Es' as <-. by apply drain_ok.
Qed.

(** A connection that sends 3 bytes of 5, is shut down and gets input. *)
Definition example_run : list event :=
  [Established [Send [x61; x62; x63; x64; x65] (Wrote 3)]; OtherSend [x66]; Call Shutdown;
   RunTask (Wrote 9) []; Ready (Z.lor POLLIN POLLOUT) (ReadvData [x78; x79]) (Wrote 1) [Consume 1]].

Definition example_start : TcpConnection :=
  match new_TcpConnection 1 7 true with
  | Ok s => s
  | _ => mkTcpConnection kConnecting ∅ false false (mkBuffer [] 0 0) (mkBuffer [] 0 0) [] [] [] [] [] None []
  end.

Lemma connection_streams_witness :
  exists s, foldM run_event example_start example_run = Ok s /\
    accepted s = wire s ++ content (outputBuffer_ s) /\
    received s = consumed s ++ content (inputBuffer_ s) /\
    (CloseCb ∉ log s -> forall l, fin s = Some l -> l `prefix_of` wire s).
Proof. apply (connection_streams 1 7 true); [reflexivity|vm_compute; reflexivity|vm_compute; discriminate]. Defined.

Definition example_end : TcpConnection :=
  match foldM run_event example_start example_run with Ok s => s | _ => example_start end.

(** The peer closes, another thread sends, and the loop destroys the
    connection before it runs the functor of that send. *)
Definition late_run : list event :=
  [Established []; Ready POLLIN (ReadvData []) (Wrote 0) []; OtherSend [x61; x62]; Destroyed []].
Definition late_end : TcpConnection :=
  match foldM run_event example_start late_run with Ok s => s | _ => example_start end.

Lemma connection_life_witness :
  ups_and_downs (log late_end) = [true; false] /\ registered late_end = false /\
  exists s', runTask (Wrote 1) [] late_end = Ok s' /\ registered s' = true.
Proof.
  destruct (connection_life 1 7 true example_start late_end late_run) as (H1 & H2 & H3 & _);
    [reflexivity|vm_compute; reflexivity|vm_compute; discriminate|vm_compute; reflexivity|].
  split; [exact H1|]. split; [exact H2|].
  destruct (H3 [x61; x62] [] (Wrote 1) []) as (s' & E & Hr); [reflexivity|reflexivity|].
  exists s'. split; [exact E|]. rewrite Hr. vm_compute. reflexivity.
Defined.

Lemma output_drains_witness :
  exists k s', (k <= 2)%nat /\
    foldM run_event example_end (take k ((fun n => Ready POLLOUT (ReadvData []) (Wrote n) []) <$> [1; 4]%N)) = Ok s' /\
    wire s' = accepted example_end /\ content (outputBuffer_ s') = [] /\ isWriting (chan s') = false /\
    (state_ example_end = kDisconnecting -> is_Some (fin s')) /\
    (hasWriteComplete example_end = true -> WriteCompleteTask ∈ queued s').
Proof.
  apply (output_drains 1 7 true example_start example_end example_run (ReadvData []) [] [1; 4]%N);
    [reflexivity|vm_compute; reflexivity|vm_compute; discriminate|vm_compute; reflexivity|
     vm_compute; reflexivity|vm_compute; reflexivity|by repeat constructor|vm_compute; lia].
Defined.

(** [handleClose] leaves the state connected, so a message sent between
    the close and [connectDestroyed] makes the channel wait for events
    again, and the hang-up it reports closes the connection a second time:
    the owner's close callback runs twice. *)
Theorem close_handled_twice :
  let es := [Established []; Ready POLLIN (ReadvData []) (Wrote 0) []; Call (Send [x61] (WriteError 32));
             Ready (Z.lor POLLOUT POLLHUP) (ReadvData []) (WriteError 32) []] in
  legal_run example_start es = true /\
  exists s, foldM run_event example_start es = Ok s /\ state_ s = kConnected /\
    log s = [ConnectionCb true; CloseCb; CloseCb].
Proof. split; [vm_compute; reflexivity|]. eexists. split; [vm_compute; reflexivity|]. split; reflexivity. Qed.

(** The test and the assignment of [shutdown] in another thread with the end
    of the connection between them: the connection that is gone counts as
    disconnecting again. *)
Lemma shutdown_torn :
  exists s s', foldM run_event example_start [Established []] = Ok s /\ state_ s = kConnected /\
    run_event s (Destroyed []) = Ok s' /\ state_ s' = kDisconnected /\
    let torn := set_queued (queued s' ++ [ShutdownTask]) (setState kDisconnecting s') in
    live torn = true /\ registered torn = false.
Proof. eexists _, _. split; [vm_compute; reflexivity|]. split; [reflexivity|]. split; [vm_compute; reflexivity|]. done. Qed.
