(* ===== verification/Connector.v ===== *)
(** * Connector: connecting with retries

    Models [muduo::Connector] of [reactor/s13/Connector.h] and
    [Connector.cc]: the non-blocking connect, its outcomes, the retry timer
    with its growing delay, [restart] and [stop].  Sockets are numbers; which
    are open and which were handed to the owner is part of the state.  What
    [connect(2)] and [SO_ERROR] answer are arguments of the events. *)
From S2P Require Import Prelude.

(** Error numbers of Linux. *)
Definition EPERM : Z := 1.
Definition EINTR : Z := 4.
Definition EBADF : Z := 9.
Definition EAGAIN : Z := 11.
Definition EACCES : Z := 13.
Definition EFAULT : Z := 14.
Definition ENOTSOCK : Z := 88.
Definition EAFNOSUPPORT : Z := 97.
Definition EADDRINUSE : Z := 98.
Definition EADDRNOTAVAIL : Z := 99.
Definition ENETUNREACH : Z := 101.
Definition EISCONN : Z := 106.
Definition ECONNREFUSED : Z := 111.
Definition EALREADY : Z := 114.
Definition EINPROGRESS : Z := 115.

Inductive States := kDisconnected | kConnecting | kConnected.

#[export] Instance States_eq_dec : EqDecision States.
Proof. solve_decision. Defined.

Definition kMaxRetryDelayMs : Z := 30 * 1000.
Definition kInitRetryDelayMs : Z := 500.

(** Functors that wait in the loop. *)
Inductive task := StartTask | ResetTask.

#[export] Instance task_eq_dec : EqDecision task.
Proof. solve_decision. Defined.

(** [channel_]: the descriptor of the channel and whether it is registered.
    [timers]: the timers of the connector that wait in the loop;
    [next_fd], [next_timer]: what the kernel and the timer queue hand out
    next. [opened], [handed]: the open sockets and those given to
    [newConnectionCallback_]. [delays]: the retry delays since the last
    [restart]. *)
Record Connector := mkConnector {
  connect_ : bool;
  state_ : States;
  channel_ : option (positive * bool);
  retryDelayMs_ : Z;
  timerId_ : option positive;
  timers : gset positive;
  queued : list task;
  next_fd : positive;
  next_timer : positive;
  opened : gset positive;
  handed : gset positive;
  delays : list Z;
}.

Definition new_Connector : Connector :=
  mkConnector false kDisconnected None kInitRetryDelayMs None ∅ [] 1 1 ∅ ∅ [].

Definition set_connect v c := mkConnector v (state_ c) (channel_ c) (retryDelayMs_ c) (timerId_ c)
  (timers c) (queued c) (next_fd c) (next_timer c) (opened c) (handed c) (delays c).
Definition setState v c := mkConnector (connect_ c) v (channel_ c) (retryDelayMs_ c) (timerId_ c)
  (timers c) (queued c) (next_fd c) (next_timer c) (opened c) (handed c) (delays c).
Definition set_channel v c := mkConnector (connect_ c) (state_ c) v (retryDelayMs_ c) (timerId_ c)
  (timers c) (queued c) (next_fd c) (next_timer c) (opened c) (handed c) (delays c).
Definition set_timers t c := mkConnector (connect_ c) (state_ c) (channel_ c) (retryDelayMs_ c) (timerId_ c)
  t (queued c) (next_fd c) (next_timer c) (opened c) (handed c) (delays c).
Definition set_queued q c := mkConnector (connect_ c) (state_ c) (channel_ c) (retryDelayMs_ c) (timerId_ c)
  (timers c) q (next_fd c) (next_timer c) (opened c) (handed c) (delays c).
Definition reset_delay c := mkConnector (connect_ c) (state_ c) (channel_ c) kInitRetryDelayMs (timerId_ c)
  (timers c) (queued c) (next_fd c) (next_timer c) (opened c) (handed c) [].

(** [sockets::createNonblockingOrDie], [sockets::close] and the callback. *)
Definition create_socket c := (mkConnector (connect_ c) (state_ c) (channel_ c) (retryDelayMs_ c) (timerId_ c)
  (timers c) (queued c) (Pos.succ (next_fd c)) (next_timer c) ({[next_fd c]} ∪ opened c) (handed c) (delays c), next_fd c).
Definition close_socket (fd : positive) c := mkConnector (connect_ c) (state_ c) (channel_ c) (retryDelayMs_ c) (timerId_ c)
  (timers c) (queued c) (next_fd c) (next_timer c) (opened c ∖ {[fd]}) (handed c) (delays c).
Definition newConnectionCallback_ (fd : positive) c := mkConnector (connect_ c) (state_ c) (channel_ c) (retryDelayMs_ c)
  (timerId_ c) (timers c) (queued c) (next_fd c) (next_timer c) (opened c) ({[fd]} ∪ handed c) (delays c).

(** [timerId_ = loop_->runAfter(retryDelayMs_/1000.0, startInLoop)], and the
    new delay. *)
Definition schedule_retry c := mkConnector (connect_ c) (state_ c) (channel_ c)
  (Z.min (retryDelayMs_ c * 2) kMaxRetryDelayMs) (Some (next_timer c)) ({[next_timer c]} ∪ timers c) (queued c)
  (next_fd c) (Pos.succ (next_timer c)) (opened c) (handed c) (delays c ++ [retryDelayMs_ c]).

(** [loop_->cancel(timerId_)]: unknown timers are ignored. *)
Definition cancel_timer c :=
  match timerId_ c with Some t => set_timers (timers c ∖ {[t]}) c | None => c end.

Definition connecting (sockfd : positive) (c : Connector) : outcome Connector :=
  let c := setState kConnecting c in
  _ ← assert_ (bool_decide (channel_ c = None));
  Ok (set_channel (Some (sockfd, true)) c).

Definition retry (sockfd : positive) (c : Connector) : Connector :=
  let c := setState kDisconnected (close_socket sockfd c) in
  if connect_ c then schedule_retry c else c.

Definition connect (savedErrno : Z) (c : Connector) : outcome Connector :=
  let '(c, sockfd) := create_socket c in
  if bool_decide (savedErrno ∈ [0; EINPROGRESS; EINTR; EISCONN]) then connecting sockfd c
  else if bool_decide (savedErrno ∈ [EAGAIN; EADDRINUSE; EADDRNOTAVAIL; ECONNREFUSED; ENETUNREACH])
  then Ok (retry sockfd c)
  else Ok (close_socket sockfd c).

Definition startInLoop (savedErrno : Z) (c : Connector) : outcome Connector :=
  _ ← assert_ (bool_decide (state_ c = kDisconnected));
  if connect_ c then connect savedErrno c else Ok c.

(** [start] in the loop's thread and in another one. *)
Definition start (savedErrno : Z) (c : Connector) : outcome Connector :=
  startInLoop savedErrno (set_connect true c).
Definition start_other (c : Connector) : Connector :=
  let c := set_connect true c in set_queued (queued c ++ [StartTask]) c.

Definition restart (savedErrno : Z) (c : Connector) : outcome Connector :=
  startInLoop savedErrno (set_connect true (reset_delay (setState kDisconnected c))).

Definition stop (c : Connector) : Connector := cancel_timer (set_connect false c).

Definition removeAndResetChannel (c : Connector) : outcome (Connector * positive) :=
  '(sockfd, registered) ← from_some Undefined (channel_ c);
  _ ← assert_ registered;
  Ok (set_queued (queued c ++ [ResetTask]) (set_channel (Some (sockfd, false)) c), sockfd).

Definition resetChannel (c : Connector) : Connector := set_channel None c.

Definition handleWrite (err : Z) (selfConnect : bool) (c : Connector) : outcome Connector :=
  if decide (state_ c = kConnecting) then
    '(c, sockfd) ← removeAndResetChannel c;
    if negb (err =? 0) then Ok (retry sockfd c)
    else if selfConnect then Ok (retry sockfd c)
    else
      let c := setState kConnected c in
      if connect_ c then Ok (newConnectionCallback_ sockfd c) else Ok (close_socket sockfd c)
  else
    _ ← assert_ (bool_decide (state_ c = kDisconnected));
    Ok c.

Definition handleError (c : Connector) : outcome Connector :=
  _ ← assert_ (bool_decide (state_ c = kConnecting));
  '(c, sockfd) ← removeAndResetChannel c;
  Ok (retry sockfd c).

Definition runTask (savedErrno : Z) (c : Connector) : outcome Connector :=
  match queued c with
  | [] => Ok c
  | StartTask :: q => startInLoop savedErrno (set_queued q c)
  | ResetTask :: q => Ok (resetChannel (set_queued q c))
  end.

(** What happens to a connector. [Ready]: the channel reports an error, room
    for output, or both. *)
Inductive event :=
| Start (savedErrno : Z)
| StartOther
| Restart (savedErrno : Z)
| Stop
| RunTask (savedErrno : Z)
| TimerFires (t : positive) (savedErrno : Z)
| Ready (error writable : bool) (err : Z) (selfConnect : bool).

Definition run_event (c : Connector) (e : event) : outcome Connector :=
  match e with
  | Start errno => start errno c
  | StartOther => Ok (start_other c)
  | Restart errno => restart errno c
  | Stop => Ok (stop c)
  | RunTask errno => runTask errno c
  | TimerFires t errno => startInLoop errno (set_timers (timers c ∖ {[t]}) c)
  | Ready error writable err self =>
      c ← (if error then handleError c else Ok c);
      if writable then handleWrite err self c else Ok c
  end.

(** Nothing is under way. *)
Definition idle (c : Connector) : bool :=
  bool_decide (state_ c = kDisconnected) && bool_decide (timers c = ∅) &&
  bool_decide (queued c = []) && bool_decide (channel_ c = None).

(** The intended use: [start] when nothing is under way, [restart] when the
    connection that was made is gone; the loop runs the functors of an
    iteration before it waits for timers and descriptors again. *)
Definition legal (c : Connector) (e : event) : bool :=
  match e with
  | Start _ | StartOther => idle c
  | Restart _ => bool_decide (state_ c = kConnected) && bool_decide (queued c = [])
  | Stop | RunTask _ => true
  | TimerFires t _ => bool_decide (t ∈ timers c) && bool_decide (queued c = [])
  | Ready _ _ _ _ => match channel_ c with Some (_, true) => true | _ => false end
  end.

Fixpoint legal_run (c : Connector) (es : list event) : bool :=
  match es with
  | [] => true
  | e :: es => legal c e && match run_event c e with Ok c' => legal_run c' es | _ => true end
  end.

(** ** Invariant *)

(** The [k]-th delay since [restart]. *)
Definition backoff (k : nat) : Z := Z.min (kInitRetryDelayMs * 2 ^ Z.of_nat k) kMaxRetryDelayMs.

(** The socket that is being connected. *)
Definition pending_socket (c : Connector) : gset positive :=
  match channel_ c with Some (fd, true) => {[fd]} | _ => ∅ end.

Record connector_inv (c : Connector) : Prop := {
  cn_state : match state_ c with
             | kConnecting => exists fd, channel_ c = Some (fd, true) /\ timers c = ∅ /\ queued c = []
             | kConnected => timers c = ∅ /\ StartTask ∉ queued c /\
                 (queued c = [] /\ channel_ c = None \/ exists fd, queued c = [ResetTask] /\ channel_ c = Some (fd, false))
             | kDisconnected =>
                 (queued c = [] /\ channel_ c = None) \/
                 (queued c = [StartTask] /\ channel_ c = None /\ timers c = ∅) \/
                 (exists fd, queued c = [ResetTask] /\ channel_ c = Some (fd, false))
             end;
  cn_timers : timers c = ∅ \/ exists t, timers c = {[t]} /\ timerId_ c = Some t;
  cn_timer_fresh : forall t, t ∈ timers c -> (t < next_timer c)%positive;
  cn_sockets : opened c = pending_socket c ∪ handed c;
  cn_fresh : forall fd, fd ∈ opened c -> (fd < next_fd c)%positive;
  cn_disjoint : pending_socket c ## handed c;
  cn_delay : retryDelayMs_ c = backoff (length (delays c));
  cn_delays : delays c = backoff <$> seq 0 (length (delays c));
}.

(** ** Lemmas *)

Lemma backoff_step k : Z.min (backoff k * 2) kMaxRetryDelayMs = backoff (S k).
Proof.
  unfold backoff, kInitRetryDelayMs, kMaxRetryDelayMs. rewrite Nat2Z.inj_succ, Z.pow_succ_r by lia.
  pose proof (Z.pow_pos_nonneg 2 (Z.of_nat k)). lia.
Qed.

Lemma new_Connector_inv : connector_inv new_Connector.
Proof. constructor; simpl; try done; by left. Qed.

Lemma connect_inv errno c :
  connector_inv c -> state_ c = kDisconnected -> timers c = ∅ -> queued c = [] -> channel_ c = None ->
  exists c', connect errno c = Ok c' /\ connector_inv c'.
Proof.
  intros [] Hs Ht Hq Hch. unfold pending_socket in *. rewrite Hch in *. unfold connect. cbn [create_socket].
  assert (next_fd c ∉ opened c) as Hnew by (intros Hin; apply cn_fresh0 in Hin; lia).
  assert (forall fd, fd ∈ {[next_fd c]} ∪ opened c -> (fd < Pos.succ (next_fd c))%positive) as Hfresh.
  { intros fd [->%elem_of_singleton|Hin]%elem_of_union; [lia|]. specialize (cn_fresh0 fd Hin). lia. }
  destruct (bool_decide (errno ∈ _)) eqn:E1; [|destruct (bool_decide (errno ∈ [EAGAIN; _; _; _; _])) eqn:E2].
  - unfold connecting. cbn [channel_ setState]. rewrite bool_decide_eq_true_2 by done. cbn [assert_ mbind outcome_bind].
    eexists. split; [done|]. constructor; simpl; unfold pending_socket; simpl; try done.
    + by exists (next_fd c).
    + set_solver.
    + set_solver.
  - eexists. split; [done|]. unfold retry. cbn [connect_ setState close_socket].
    assert (({[next_fd c]} ∪ opened c) ∖ {[next_fd c]} = opened c) as Eo by set_solver.
    destruct (connect_ c); constructor; simpl; unfold pending_socket; simpl; rewrite ?Eo, ?Hch, ?Hq, ?Ht; try done.
    + by left.
    + right. exists (next_timer c). split; [set_solver|done].
    + intros t Hin. rewrite union_empty_r_L in Hin. apply elem_of_singleton in Hin as ->. lia.
    + intros fd Hin. specialize (cn_fresh0 fd Hin). lia.
    + rewrite cn_delay0, length_app, Nat.add_1_r. apply backoff_step.
    + rewrite length_app, Nat.add_1_r, seq_S, fmap_app. by rewrite <- cn_delays0, cn_delay0.
    + by left.
    + by left.
    + intros fd Hin. specialize (cn_fresh0 fd Hin). lia.
  - eexists. split; [done|].
    assert (({[next_fd c]} ∪ opened c) ∖ {[next_fd c]} = opened c) as Eo by set_solver.
    constructor; simpl; unfold pending_socket; simpl; rewrite ?Eo, ?Hch, ?Hq, ?Ht, ?Hs; try done; [by left|by left|].
    intros fd Hin. specialize (cn_fresh0 fd Hin). lia.
Qed.

(** Giving up the socket that is being connected. *)
Lemma retry_inv fd c :
  connector_inv c -> channel_ c = Some (fd, true) ->
  removeAndResetChannel c = Ok (set_queued [ResetTask] (set_channel (Some (fd, false)) c), fd) /\
  connector_inv (retry fd (set_queued [ResetTask] (set_channel (Some (fd, false)) c))) /\
  state_ (retry fd (set_queued [ResetTask] (set_channel (Some (fd, false)) c))) = kDisconnected.
Proof.
  intros [] Hch. unfold pending_socket in *. rewrite Hch in *.
  assert (state_ c = kConnecting /\ timers c = ∅ /\ queued c = []) as (Hs & Ht & Hq).
  { destruct (state_ c).
    - by destruct cn_state0 as [[_ ?]|[(_ & ? & _)|(? & _ & ?)]].
    - by destruct cn_state0 as (? & _ & ? & ?).
    - by destruct cn_state0 as (_ & _ & [[_ ?]|(? & _ & ?)]). }
  split; [unfold removeAndResetChannel; by rewrite Hch, Hq|].
  assert (opened c ∖ {[fd]} = handed c) as Eo by (clear -cn_sockets0 cn_disjoint0; set_solver).
  unfold retry. cbn [connect_ setState close_socket set_queued set_channel]. destruct (connect_ c); (split; [|done]);
    constructor; simpl; unfold pending_socket; simpl; rewrite ?Eo, ?Ht; try done.
  - right; right. by exists fd.
  - right. exists (next_timer c). split; [set_solver +|done].
  - intros t Hin. rewrite union_empty_r_L in Hin. apply elem_of_singleton in Hin as ->. lia.
  - by rewrite union_empty_l_L.
  - intros fd' Hin. apply cn_fresh0. rewrite cn_sockets0. set_solver +Hin.
  - rewrite cn_delay0, length_app, Nat.add_1_r. apply backoff_step.
  - rewrite length_app, Nat.add_1_r, seq_S, fmap_app. by rewrite <- cn_delays0, cn_delay0.
  - right; right. by exists fd.
  - by left.
  - by rewrite union_empty_l_L.
  - intros fd' Hin. apply cn_fresh0. rewrite cn_sockets0. set_solver +Hin.
Qed.

Lemma startInLoop_inv errno c :
  connector_inv c -> state_ c = kDisconnected -> timers c = ∅ -> queued c = [] -> channel_ c = None ->
  exists c', startInLoop errno c = Ok c' /\ connector_inv c'.
Proof.
  intros Hi Hs Ht Hq Hch. unfold startInLoop. rewrite bool_decide_eq_true_2 by done. cbn [assert_ mbind outcome_bind].
  destruct (connect_ c); [by apply connect_inv|by exists c].
Qed.

(** Parts of the state the invariant does not see. *)
Lemma set_connect_inv v c : connector_inv c -> connector_inv (set_connect v c).
Proof. by intros []. Qed.

Lemma idle_spec c :
  idle c = true <-> state_ c = kDisconnected /\ timers c = ∅ /\ queued c = [] /\ channel_ c = None.
Proof. unfold idle. rewrite !andb_true_iff, !bool_decide_eq_true. tauto. Qed.

Lemma cancel_timer_inv c : connector_inv c -> connector_inv (cancel_timer c).
Proof.
  intros Hi. pose proof Hi as []. unfold cancel_timer. destruct (timerId_ c) as [t|] eqn:Et; [|done].
  assert (timers c ∖ {[t]} = ∅) as E.
  { destruct cn_timers0 as [-> |(t' & -> & [= ->])]; set_solver +. }
  constructor; simpl; rewrite ?E; try done; [|by left].
  destruct (state_ c).
  - destruct cn_state0 as [?|[(? & ? & ?)|?]]; [by left|by right; left|by right; right].
  - by destruct cn_state0 as (fd & ? & ? & ?); exists fd.
  - by destruct cn_state0.
Qed.

Lemma event_inv c e :
  connector_inv c -> legal c e = true -> exists c', run_event c e = Ok c' /\ connector_inv c'.
Proof.
  intros Hi Hl. pose proof Hi as []. destruct e as [errno| |errno| |errno|t errno|er wr err self]; cbn [run_event legal] in *.
  - apply idle_spec in Hl as (Hs & Ht & Hq & Hch). by apply startInLoop_inv; [apply set_connect_inv|..].
  - apply idle_spec in Hl as (Hs & Ht & Hq & Hch). eexists. split; [done|]. unfold start_other. simpl. rewrite Hq.
    constructor; simpl; rewrite ?Hs; try done. right; left. by rewrite Ht.
  - apply andb_true_iff in Hl as [Hs%bool_decide_eq_true Hq%bool_decide_eq_true]. rewrite Hs in cn_state0.
    destruct cn_state0 as (Ht & _ & [[_ Hch]|(? & E & _)]); [|congruence].
    apply startInLoop_inv; try done. apply set_connect_inv.
    constructor; simpl; unfold pending_socket in *; simpl; try done. by left.
  - eexists. split; [done|]. by apply cancel_timer_inv, set_connect_inv.
  - unfold runTask. destruct (queued c) as [|[] q] eqn:Eq; [by exists c| |].
    + assert (state_ c = kDisconnected /\ q = [] /\ channel_ c = None /\ timers c = ∅) as (Hs & -> & Hch & Ht).
      { destruct (state_ c).
        - destruct cn_state0 as [[? _]|[(E & ? & ?)|(? & E & _)]]; [done| |done]. by injection E as ->.
        - by destruct cn_state0 as (? & _ & _ & ?).
        - destruct cn_state0 as (_ & Hno & _). exfalso. apply Hno. by left. }
      apply startInLoop_inv; try done. constructor; simpl; try done. rewrite Hs. by left.
    + eexists. split; [done|].
      assert (q = [] /\ (exists fd, channel_ c = Some (fd, false)) /\ state_ c <> kConnecting) as (-> & (fd & Hch) & Hs).
      { destruct (state_ c).
        - destruct cn_state0 as [[? _]|[(E & ? & ?)|(fd & E & ?)]]; [done|done|]. injection E as ->. split; [done|].
          split; [by exists fd|done].
        - by destruct cn_state0 as (? & _ & _ & ?).
        - destruct cn_state0 as (_ & _ & [[? _]|(fd & E & ?)]); [done|]. injection E as ->. split; [done|].
          split; [by exists fd|done]. }
      unfold pending_socket in *. rewrite Hch in *.
      constructor; simpl; unfold pending_socket; simpl; try done. destruct (state_ c); [by left|done|].
      destruct cn_state0 as (? & _ & _). split; [done|]. split; [apply not_elem_of_nil|by left].
  - apply andb_true_iff in Hl as [Hin%bool_decide_eq_true Hq%bool_decide_eq_true].
    assert (timers c = {[t]}) as Ht.
    { destruct cn_timers0 as [E|(t' & E & _)]; rewrite E in Hin |- *; [set_solver +Hin|].
      apply elem_of_singleton in Hin. by subst. }
    assert (state_ c = kDisconnected /\ channel_ c = None) as [Hs Hch].
    { rewrite Ht, Hq in cn_state0. destruct (state_ c).
      - destruct cn_state0 as [[_ ?]|[(? & _)|(? & ? & _)]]; done.
      - destruct cn_state0 as (? & _ & E & _). set_solver +E.
      - destruct cn_state0 as (E & _). set_solver +E. }
    assert (timers c ∖ {[t]} = ∅) as E by (rewrite Ht; set_solver +). rewrite E.
    apply startInLoop_inv; try done. constructor; simpl; try done; [|by left].
    rewrite Hs. by left.
  - destruct (channel_ c) as [[fd []]|] eqn:Hch; [|done|done].
    destruct (retry_inv fd c Hi Hch) as (Erem & Hr & Hrs).
    assert (state_ c = kConnecting) as Hs.
    { destruct (state_ c); [|done|].
      - by destruct cn_state0 as [[_ ?]|[(_ & ? & _)|(? & _ & ?)]].
      - by destruct cn_state0 as (_ & _ & [[_ ?]|(? & _ & ?)]). }
    destruct er.
    + unfold handleError. rewrite bool_decide_eq_true_2 by done. cbn [assert_ mbind outcome_bind]. rewrite Erem.
      cbn [mbind outcome_bind]. eexists. split; [|exact Hr]. destruct wr; [|done].
      unfold handleWrite. by rewrite decide_False, bool_decide_eq_true_2 by congruence.
    + cbn [mbind outcome_bind]. destruct wr; [|by exists c]. unfold handleWrite. rewrite decide_True by done.
      rewrite Erem. cbn [mbind outcome_bind]. destruct (negb (err =? 0)); [by eexists|]. destruct self; [by eexists|].
      unfold pending_socket in *. rewrite Hch, Hs in *. destruct cn_state0 as (fd' & _ & Ht & Hq).
      cbn [connect_ setState set_queued set_channel].
      destruct (connect_ c); (eexists; split; [done|]); constructor; simpl; unfold pending_socket; simpl; try done.
      * split; [done|]. split; [by intros ?%list_elem_of_singleton|]. right. by exists fd.
      * rewrite cn_sockets0. set_solver +.
      * split; [done|]. split; [by intros ?%list_elem_of_singleton|]. right. by exists fd.
      * rewrite cn_sockets0. set_solver +cn_disjoint0.
      * intros fd0 Hin. apply cn_fresh0. set_solver +Hin.
Qed.

Lemma run_events_inv es c :
  connector_inv c -> legal_run c es = true -> exists c', foldM run_event c es = Ok c' /\ connector_inv c'.
Proof.
  revert c. induction es as [|e es IH]; intros c Hi Hl; cbn [foldM legal_run] in *; [by exists c|].
  apply andb_true_iff in Hl as [Hl Hrest]. destruct (event_inv c e Hi Hl) as (c1 & E & H1). rewrite E in *.
  cbn [mbind outcome_bind]. by apply IH.
Qed.

(** ** Properties *)

(** C16: used as intended, a connector never fails an assertion and never
    uses a missing channel; every socket it opened is the one being
    connected, was handed to the owner, or is closed again; at most one retry
    timer waits, and none while a connection is being made or stands; and
    the delays between attempts are 500 ms, doubled each time up to 30 s. *)
Theorem connector_sound (es : list event) :
  legal_run new_Connector es = true ->
  exists c, foldM run_event new_Connector es = Ok c /\
    opened c = pending_socket c ∪ handed c /\ pending_socket c ## handed c /\
    (timers c = ∅ \/ exists t, timers c = {[t]}) /\
    (state_ c <> kDisconnected -> timers c = ∅) /\
    (state_ c = kConnecting <-> exists fd, channel_ c = Some (fd, true)) /\
    delays c = (fun k => Z.min (500 * 2 ^ Z.of_nat k) 30000) <$> seq 0 (length (delays c)).
Proof.
  intros Hl. destruct (run_events_inv es _ new_Connector_inv Hl) as (c & -> & []). exists c.
  split; [done|]. split; [done|]. split; [done|]. split.
  { destruct cn_timers0 as [?|(t & ? & _)]; [by left|right; by exists t]. }
  split; [|split; [|exact cn_delays0]].
  - destruct (state_ c); [done| |].
    + by destruct cn_state0 as (fd & _ & ? & _).
    + by destruct cn_state0.
  - destruct (state_ c).
    + split; [done|]. intros (fd & E). rewrite E in cn_state0.
      by destruct cn_state0 as [[_ ?]|[(_ & ? & _)|(? & _ & ?)]].
    + split; [|done]. intros _. destruct cn_state0 as (fd & ? & _). by exists fd.
    + split; [done|]. intros (fd & E). rewrite E in cn_state0.
      by destruct cn_state0 as (_ & _ & [[_ ?]|(? & _ & ?)]).
Qed.

Lemma connector_sound_witness :
  let es := [StartOther; RunTask ECONNREFUSED; TimerFires 1 EINPROGRESS; Ready true true ECONNREFUSED false;
             RunTask 0; TimerFires 2 EINPROGRESS; Ready false true 0 true; RunTask 0;
             TimerFires 3 0; Ready false true 0 false; RunTask 0; Restart ENETUNREACH; Stop] in
  exists c, foldM run_event new_Connector es = Ok c /\
    opened c = pending_socket c ∪ handed c /\ pending_socket c ## handed c /\
    (timers c = ∅ \/ exists t, timers c = {[t]}) /\
    (state_ c <> kDisconnected -> timers c = ∅) /\
    (state_ c = kConnecting <-> exists fd, channel_ c = Some (fd, true)) /\
    delays c = (fun k => Z.min (500 * 2 ^ Z.of_nat k) 30000) <$> seq 0 (length (delays c)).
Proof. apply connector_sound. vm_compute. reflexivity. Defined.

(** Outside that use assertions fail: [start] while a retry timer waits
    makes the timer find a connection in progress, and [start] after a [stop]
    that came while the connection was being made finds the state
    connected. *)
Theorem connector_start_hazards :
  foldM run_event new_Connector
    [Start ECONNREFUSED; Start EINPROGRESS; TimerFires 1 EINPROGRESS] = Fail AssertFail /\
  foldM run_event new_Connector
    [Start EINPROGRESS; Stop; Ready false true 0 false; RunTask 0; Start EINPROGRESS] = Fail AssertFail.
Proof. split; vm_compute; reflexivity. Qed.
