(* ===== verification/LogStream.v ===== *)
(** * LogStream: formatting log lines into a fixed buffer

    Models [muduo::detail::FixedBuffer], [convert], [convertHex],
    [muduo::LogStream], [T] and [Fmt] of [logging/LogStream.h] and
    [LogStream.cc].  The buffer is an array of [SIZE] bytes and a position;
    integers are converted in place.  What [snprintf] prints for a [double]
    is library code: it comes with the operation. *)
From S2P Require Import Prelude CFormat.
From Stdlib Require Import Strings.Byte.

Definition kSmallBuffer : Z := 4000.
Definition kLargeBuffer : Z := 4000 * 1000.
Definition kMaxNumericSize : Z := 64.

(** ** FixedBuffer *)

Record FixedBuffer := mkFixedBuffer { data_ : list byte; cur_ : Z }.

Definition new_FixedBuffer (SIZE : Z) : FixedBuffer :=
  mkFixedBuffer (replicate (Z.to_nat SIZE) x00) 0.

Definition length_ (b : FixedBuffer) : Z := cur_ b.
Definition avail (b : FixedBuffer) : Z := i32 (zlen (data_ b) - cur_ b).
Definition add (len : Z) (b : FixedBuffer) : FixedBuffer := mkFixedBuffer (data_ b) (cur_ b + len).
Definition reset (b : FixedBuffer) : FixedBuffer := mkFixedBuffer (data_ b) 0.
Definition bzero (b : FixedBuffer) : FixedBuffer :=
  mkFixedBuffer (replicate (length (data_ b)) x00) (cur_ b).
Definition asString (b : FixedBuffer) : list byte := slice (data_ b) 0 (length_ b).

(** [append(buf, len)]: the length is an [int]; a negative one that passes
    the test is a huge [memcpy]. *)
Definition append (buf : list byte) (len : Z) (b : FixedBuffer) : outcome FixedBuffer :=
  if len <? avail b then
    _ ← defined_ (0 <=? len);
    d ← write_at (data_ b) (cur_ b) (slice buf 0 len);
    Ok (mkFixedBuffer d (cur_ b + len))
  else Ok b.

(** The bytes up to the terminator that [debugString] writes. *)
Definition debugString (b : FixedBuffer) : outcome (FixedBuffer * list byte) :=
  d ← write_at (data_ b) (cur_ b) [x00];
  Ok (mkFixedBuffer d (cur_ b), slice d 0 (cur_ b)).

(** ** Conversions *)

Definition digits : list byte := bs "9876543210123456789".
Definition digitsHex : list byte := bs "0123456789abcdef".

(** [zero[lsd]] and [digitsHex[lsd]]: [table] starts [off] entries in. *)
Definition digit_at (table : list byte) (off lsd : Z) : outcome byte :=
  _ ← defined_ (0 <=? off + lsd);
  from_some Undefined (table !! Z.to_nat (off + lsd)).

(** The [do]-[while] loop of [convert] and [convertHex]: each round divides
    by the base. *)
Fixpoint digits_loop (base : Z) (table : list byte) (off : Z) (fuel : nat) (i : Z)
    (buf : list byte) (p : Z) : outcome (list byte * Z) :=
  match fuel with
  | O => Fail Undefined
  | S fuel =>
      let lsd := Z.rem i base in
      let i := Z.quot i base in
      c ← digit_at table off lsd;
      buf ← write_at buf p [c];
      if i =? 0 then Ok (buf, p + 1) else digits_loop base table off fuel i buf (p + 1)
  end.

(** [std::reverse(buf + a, buf + b)]. *)
Definition std_reverse (a b : Z) (buf : list byte) : outcome (list byte) :=
  write_at buf a (reverse (slice buf a b)).

(** 64 digits are more than a 64-bit integer has. *)
Definition convert_fuel : nat := 64.

(** [convert(buf + at, value)]: the memory and the number of characters. *)
Definition convert (buf : list byte) (at_ : Z) (value : Z) : outcome (list byte * Z) :=
  '(buf, p) ← digits_loop 10 digits 9 convert_fuel value buf at_;
  '(buf, p) ← (if value <? 0 then buf ← write_at buf p (bs "-"); Ok (buf, p + 1) else Ok (buf, p));
  buf ← write_at buf p [x00];
  buf ← std_reverse at_ p buf;
  Ok (buf, p - at_).

Definition convertHex (buf : list byte) (at_ : Z) (value : Z) : outcome (list byte * Z) :=
  '(buf, p) ← digits_loop 16 digitsHex 0 convert_fuel value buf at_;
  buf ← write_at buf p [x00];
  buf ← std_reverse at_ p buf;
  Ok (buf, p - at_).

(** ** LogStream *)

(** What can be put into a stream. [Int] is an integer of any of the eight
    types; [Double] carries what [snprintf("%.12g")] prints; [TStr] is the
    class [T]; [FmtStr] what [Fmt] got from [snprintf]. *)
Inductive item :=
| Bool (v : bool)
| Int (v : Z)
| Pointer (v : Z)
| Double (printed : list byte)
| Char (v : byte)
| CStr (v : list byte)
| TStr (v : list byte) (len : Z)
| Str (v : list byte)
| FmtStr (printed : list byte).

Definition formatInteger (v : Z) (b : FixedBuffer) : outcome FixedBuffer :=
  if kMaxNumericSize <=? avail b then
    '(d, len) ← convert (data_ b) (cur_ b) v;
    Ok (add len (mkFixedBuffer d (cur_ b)))
  else Ok b.

Definition formatPointer (v : Z) (b : FixedBuffer) : outcome FixedBuffer :=
  if kMaxNumericSize <=? avail b then
    d ← write_at (data_ b) (cur_ b) (bs "0");
    d ← write_at d (cur_ b + 1) (bs "x");
    '(d, len) ← convertHex d (cur_ b + 2) v;
    Ok (add (len + 2) (mkFixedBuffer d (cur_ b)))
  else Ok b.

(** [snprintf(current(), kMaxNumericSize, "%.12g", v)] and [add]. *)
Definition formatDouble (printed : list byte) (b : FixedBuffer) : outcome FixedBuffer :=
  if kMaxNumericSize <=? avail b then
    d ← write_at (data_ b) (cur_ b) (snprintf (Z.to_nat kMaxNumericSize) printed ++ [x00]);
    Ok (add (zlen printed) (mkFixedBuffer d (cur_ b)))
  else Ok b.

(** The assertions of the constructors of [T] and [Fmt]. *)
Definition new_T (v : list byte) (len : Z) : outcome (list byte * Z) :=
  _ ← assert_ (zlen v =? len); Ok (v, len).
Definition new_Fmt (printed : list byte) : outcome (list byte * Z) :=
  let length_ := zlen printed in
  _ ← assert_ (length_ <? 32);
  Ok (snprintf 32 printed, length_).

Definition put (b : FixedBuffer) (x : item) : outcome FixedBuffer :=
  match x with
  | Bool v => append (if v then bs "1" else bs "0") 1 b
  | Int v => formatInteger v b
  | Pointer v => formatPointer v b
  | Double printed => formatDouble printed b
  | Char v => append [v] 1 b
  | CStr v | Str v => append v (i32 (zlen v)) b
  | TStr v len => '(v, len) ← new_T v len; append v (i32 len) b
  | FmtStr printed => '(v, len) ← new_Fmt printed; append v len b
  end.

(** A stream is its buffer. *)
Definition LogStream : FixedBuffer := new_FixedBuffer kSmallBuffer.

(** ** Specification *)

(** The digits of a non-negative number in a base, most significant first. *)
Fixpoint digits_text (base : Z) (dig : Z -> byte) (fuel : nat) (z : Z) : list byte :=
  match fuel with
  | O => []
  | S fuel => if z <? base then [dig z] else digits_text base dig fuel (z / base) ++ [dig (z mod base)]
  end.

Definition hex_digit (d : Z) : byte := byte_of_Z (if d <? 10 then 48 + d else 87 + d).
Definition decimal (v : Z) : list byte := sign v ++ udec (Z.abs v).
Definition hexadecimal (v : Z) : list byte := digits_text 16 hex_digit convert_fuel v.

(** The text of an item, and whether it is converted in place (then 64 bytes
    must be free) or copied. *)
Definition text (x : item) : list byte :=
  match x with
  | Bool v => if v then bs "1" else bs "0"
  | Int v => decimal v
  | Pointer v => bs "0x" ++ hexadecimal v
  | Double s | FmtStr s | CStr s | Str s | TStr s _ => s
  | Char v => [v]
  end.
Definition in_place (x : item) : bool :=
  match x with Int _ | Pointer _ | Double _ => true | _ => false end.

Definition fits (free : Z) (x : item) : bool :=
  if in_place x then kMaxNumericSize <=? free else zlen (text x) <? free.

(** A stream of the specification: the text so far; what does not fit is
    left out. *)
Definition spec_put (SIZE : Z) (s : list byte) (x : item) : list byte :=
  if fits (SIZE - zlen s) x then s ++ text x else s.

(** The items the types and assertions allow. *)
Definition valid (x : item) : bool :=
  match x with
  | Int v => (- 2 ^ 63 <=? v) && (v <? 2 ^ 64)
  | Pointer v => (0 <=? v) && (v <? 2 ^ 64)
  | Double s => zlen s <? kMaxNumericSize
  | TStr s len => (zlen s =? len) && (zlen s <? 2 ^ 31)
  | CStr s | Str s => zlen s <? 2 ^ 31
  | FmtStr s => zlen s <? 32
  | Bool _ | Char _ => true
  end.

(** ** Lemmas: conversions *)

Lemma digits_text_udec fuel z : digits_text 10 digit fuel z = udec_fuel fuel z.
Proof. revert z. induction fuel as [|n IH]; intros z; [done|]. cbn [digits_text udec_fuel]. by rewrite IH. Qed.

Lemma decimal_digit lsd : -10 < lsd < 10 -> digit_at digits 9 lsd = Ok (digit (Z.abs lsd)).
Proof.
  intros H. assert (lsd ∈ seqZ (-9) 19) as Hin by (apply elem_of_seqZ; lia). clear H.
  repeat (apply elem_of_cons in Hin as [->|Hin]; [reflexivity|]). by apply not_elem_of_nil in Hin.
Qed.

Lemma hexadecimal_digit lsd : 0 <= lsd < 16 -> digit_at digitsHex 0 lsd = Ok (hex_digit lsd).
Proof.
  intros H. assert (lsd ∈ seqZ 0 16) as Hin by (apply elem_of_seqZ; lia). clear H.
  repeat (apply elem_of_cons in Hin as [->|Hin]; [reflexivity|]). by apply not_elem_of_nil in Hin.
Qed.

(** A write and the memory around it. *)
Lemma write_at_spec {A} (l d : list A) off :
  0 <= off -> off + zlen d <= zlen l ->
  exists l', write_at l off d = Ok l' /\ zlen l' = zlen l /\ slice l' off (off + zlen d) = d /\
    (forall a b, 0 <= a -> b <= off -> slice l' a b = slice l a b) /\
    (forall a b, off + zlen d <= a -> slice l' a b = slice l a b).
Proof.
  intros H1 H2. destruct (write_at l off d) as [l'|] eqn:E; [|rewrite write_at_ok in E by lia; done].
  exists l'. split; [done|]. split; [by eapply write_at_zlen|]. split; [by eapply write_at_same|].
  split; [apply (write_at_before _ _ _ _ E)|apply (write_at_after _ _ _ _ E)].
Qed.

Section digits.
Context (base : Z) (table : list byte) (off : Z) (dig : Z -> byte) (neg : bool).
Context (base_2 : 2 <= base).
Context (table_ok : forall d, (if neg then - base < d else 0 <= d) -> d < base ->
  digit_at table off d = Ok (dig (Z.abs d))).

Lemma digits_loop_spec fuel i buf p :
  (if neg then True else 0 <= i) -> (0 < fuel)%nat -> Z.abs i < base ^ Z.of_nat fuel -> 0 <= p ->
  p + zlen (digits_text base dig fuel (Z.abs i)) <= zlen buf ->
  exists buf' n, digits_loop base table off fuel i buf p = Ok (buf', p + n) /\
    n = zlen (digits_text base dig fuel (Z.abs i)) /\ 0 < n /\ zlen buf' = zlen buf /\
    slice buf' p (p + n) = reverse (digits_text base dig fuel (Z.abs i)) /\
    (forall a b, 0 <= a -> b <= p -> slice buf' a b = slice buf a b).
Proof.
  revert i buf p. induction fuel as [|fuel IH]; intros i buf p Hi Hf Hlt Hp Hroom; [lia|].
  cbn [digits_loop digits_text] in *.
  assert (Z.abs (Z.rem i base) = Z.abs i mod base) as Hrem by (rewrite <- Z.rem_abs, (Z.abs_eq base) by lia; apply Z.rem_mod_nonneg; lia).
  assert (Z.abs (Z.quot i base) = Z.abs i / base) as Hquot by (rewrite <- Z.quot_abs, (Z.abs_eq base) by lia; apply Z.quot_div_nonneg; lia).
  pose proof (Z.mod_pos_bound (Z.abs i) base ltac:(lia)) as Hmod.
  rewrite table_ok, Hrem; [|destruct neg; [lia|apply Z.rem_nonneg; lia]|lia]. cbn [mbind outcome_bind].
  assert (p + 1 <= zlen buf) as Hroom1.
  { destruct (Z.abs i <? base); rewrite ?zlen_app, zlen_cons in Hroom; rewrite (@zlen_nil byte) in Hroom;
      [lia|]. pose proof (zlen_nonneg (digits_text base dig fuel (Z.abs i / base))). lia. }
  destruct (write_at_spec buf [dig (Z.abs i mod base)] p) as (b1 & -> & Hl1 & Hs1 & Hb1 & _);
    [lia|rewrite zlen_cons, (@zlen_nil byte); lia|]. rewrite zlen_cons, (@zlen_nil byte) in Hs1. cbn [mbind outcome_bind].
  destruct (Z.ltb_spec (Z.abs i) base) as [Hsm|Hbig].
  - rewrite (proj2 (Z.eqb_eq (Z.quot i base) 0)) by (rewrite Z.div_small in Hquot; lia).
    exists b1, 1. rewrite zlen_cons, (@zlen_nil byte). rewrite Z.mod_small in Hs1 by lia.
    split; [done|]. split; [lia|]. split; [lia|]. split; [done|]. by split.
  - assert (0 < Z.abs i / base) by (apply Z.div_str_pos; lia).
    rewrite (proj2 (Z.eqb_neq (Z.quot i base) 0)) by lia.
    rewrite Nat2Z.inj_succ, Z.pow_succ_r in Hlt by lia.
    assert (Z.abs i / base < base ^ Z.of_nat fuel) by (apply Z.div_lt_upper_bound; lia).
    rewrite zlen_app, zlen_cons, (@zlen_nil byte) in Hroom |- *. rewrite <- Hquot in *.
    destruct (IH (Z.quot i base) b1 (p + 1)) as (b2 & n & E & Hn & Hn0 & Hl2 & Hs2 & Hb2).
    + destruct neg; [done|]. apply Z.quot_pos; lia.
    + destruct fuel; [rewrite Z.pow_0_r in *; lia|lia].
    + done.
    + lia.
    + lia.
    + exists b2, (1 + n). rewrite E. split; [f_equal; f_equal; lia|]. split; [lia|]. split; [lia|]. split; [lia|].
      split; [|intros a b Ha Hb; rewrite Hb2 by lia; by apply Hb1].
      rewrite reverse_snoc, <- Hs2. rewrite <- (slice_app b2 p (p + 1)) by lia.
      rewrite (Hb2 p (p + 1)) by lia. rewrite Z.add_0_r in Hs1. rewrite Hs1. cbn [app]. f_equal. f_equal; lia.
Qed.
End digits.

Lemma reverse_sign v : reverse (sign v) = sign v.
Proof. unfold sign. by destruct (v <? 0). Qed.

(** The end of both conversions: terminate and reverse. *)
Lemma finish_spec buf at_ s :
  0 <= at_ -> at_ + zlen s + 1 <= zlen buf -> slice buf at_ (at_ + zlen s) = reverse s ->
  exists buf', (b ← write_at buf (at_ + zlen s) [x00];
                b ← std_reverse at_ (at_ + zlen s) b;
                Ok (b, at_ + zlen s - at_)) = Ok (buf', zlen s) /\
    zlen buf' = zlen buf /\ slice buf' at_ (at_ + zlen s) = s /\
    slice buf' (at_ + zlen s) (at_ + zlen s + 1) = [x00] /\
    (forall a b, 0 <= a -> b <= at_ -> slice buf' a b = slice buf a b).
Proof.
  intros Ha Hroom Hs. pose proof (zlen_nonneg s) as Hn.
  destruct (write_at_spec buf [x00] (at_ + zlen s)) as (b1 & -> & Hl1 & Hs1 & Hb1 & _);
    [lia|rewrite zlen_cons, (@zlen_nil byte); lia|]. rewrite zlen_cons, (@zlen_nil byte) in Hs1.
  cbn [mbind outcome_bind]. unfold std_reverse. rewrite Hb1 by lia. rewrite Hs, reverse_involutive.
  destruct (write_at_spec b1 s at_) as (b2 & -> & Hl2 & Hs2 & Hb2 & Ha2); [lia|lia|]. cbn [mbind outcome_bind].
  exists b2. split; [f_equal; f_equal; lia|]. split; [lia|]. split; [done|]. split.
  - rewrite Ha2 by lia. by rewrite Z.add_0_r in Hs1.
  - intros a b Haa Hbb. rewrite Hb2 by lia. apply Hb1; lia.
Qed.

Lemma decimal_digits_text v : Z.abs v < 10 ^ Z.of_nat convert_fuel ->
  digits_text 10 digit convert_fuel (Z.abs v) = udec (Z.abs v).
Proof.
  intros Hv. rewrite digits_text_udec. unfold udec, convert_fuel in *.
  apply udec_fuel_indep; [lia|lia|lia|done|apply fuel_enough; lia].
Qed.

Lemma convert_spec buf at_ v :
  Z.abs v < 10 ^ Z.of_nat convert_fuel -> 0 <= at_ -> at_ + zlen (decimal v) + 1 <= zlen buf ->
  exists buf', convert buf at_ v = Ok (buf', zlen (decimal v)) /\ zlen buf' = zlen buf /\
    slice buf' at_ (at_ + zlen (decimal v)) = decimal v /\
    slice buf' (at_ + zlen (decimal v)) (at_ + zlen (decimal v) + 1) = [x00] /\
    (forall a b, 0 <= a -> b <= at_ -> slice buf' a b = slice buf a b).
Proof.
  intros Hv Hat Hroom. pose proof (decimal_digits_text v Hv) as Etext.
  unfold decimal in *. rewrite zlen_app in Hroom. pose proof (zlen_nonneg (sign v)) as Hsg.
  assert (forall d, (if true then - 10 < d else 0 <= d) -> d < 10 -> digit_at digits 9 d = Ok (digit (Z.abs d)))
    as Htable by (cbn; intros d H1 H2; by apply decimal_digit).
  destruct (digits_loop_spec 10 digits 9 digit true ltac:(lia) Htable convert_fuel v buf at_) as (b1 & n & E & Hn & Hn0 & Hl1 & Hs1 & Hb1); [done|unfold convert_fuel; lia|done|lia|
    rewrite Etext; lia|]. rewrite Etext in *.
  unfold convert. rewrite E. cbn [mbind outcome_bind].
  assert (exists b2, (if v <? 0 then b ← write_at b1 (at_ + n) (bs "-"); Ok (b, at_ + n + 1) else Ok (b1, at_ + n)) =
    Ok (b2, at_ + zlen (sign v ++ udec (Z.abs v))) /\ zlen b2 = zlen buf /\
    slice b2 at_ (at_ + zlen (sign v ++ udec (Z.abs v))) = reverse (sign v ++ udec (Z.abs v)) /\
    (forall a b, 0 <= a -> b <= at_ -> slice b2 a b = slice buf a b)) as (b2 & -> & Hl2 & Hs2 & Hb2).
  { rewrite zlen_app, reverse_app, reverse_sign. unfold sign in *. destruct (v <? 0).
    - change (zlen (bs "-")) with 1 in *.
      destruct (write_at_spec b1 (bs "-") (at_ + n)) as (b2 & -> & Hl2 & Hs2 & Hb2 & _);
        [lia|change (zlen (bs "-")) with 1; lia|]. change (zlen (bs "-")) with 1 in *. cbn [mbind outcome_bind].
      exists b2. split; [f_equal; f_equal; lia|]. split; [lia|]. split.
      + rewrite <- (slice_app b2 at_ (at_ + n)) by lia. rewrite Hb2, Hs1 by lia. f_equal.
        replace (at_ + (1 + zlen (udec (Z.abs v)))) with (at_ + n + 1) by lia. done.
      + intros a b Ha Hb. rewrite Hb2 by lia. by apply Hb1.
    - exists b1. rewrite (@zlen_nil byte), app_nil_r, <- Hn, Z.add_0_l. done. }
  cbn [mbind outcome_bind].
  destruct (finish_spec b2 at_ (sign v ++ udec (Z.abs v))) as (b3 & -> & Hl3 & Hs3 & Hz3 & Hb3);
    [lia|rewrite zlen_app; lia|done|].
  exists b3. split; [done|]. split; [lia|]. split; [done|]. split; [done|].
  intros a b Ha Hb. rewrite Hb3 by lia. by apply Hb2.
Qed.

Lemma convertHex_spec buf at_ v :
  0 <= v < 16 ^ Z.of_nat convert_fuel -> 0 <= at_ -> at_ + zlen (hexadecimal v) + 1 <= zlen buf ->
  exists buf', convertHex buf at_ v = Ok (buf', zlen (hexadecimal v)) /\ zlen buf' = zlen buf /\
    slice buf' at_ (at_ + zlen (hexadecimal v)) = hexadecimal v /\
    slice buf' (at_ + zlen (hexadecimal v)) (at_ + zlen (hexadecimal v) + 1) = [x00] /\
    (forall a b, 0 <= a -> b <= at_ -> slice buf' a b = slice buf a b).
Proof.
  intros Hv Hat Hroom. unfold hexadecimal in *. pose proof (Z.abs_eq v ltac:(lia)) as Ev.
  assert (forall d, (if false then - 16 < d else 0 <= d) -> d < 16 ->
    digit_at digitsHex 0 d = Ok (hex_digit (Z.abs d))) as Htable.
  { cbn. intros d H1 H2. rewrite Z.abs_eq by done. by apply hexadecimal_digit. }
  destruct (digits_loop_spec 16 digitsHex 0 hex_digit false ltac:(lia) Htable convert_fuel v buf at_) as (b1 & n & E & Hn & Hn0 & Hl1 & Hs1 & Hb1);
    [lia|unfold convert_fuel; lia|lia|lia|rewrite Ev; lia|]. rewrite Ev in *.
  unfold convertHex. rewrite E. cbn [mbind outcome_bind]. rewrite Hn in *.
  destruct (finish_spec b1 at_ (digits_text 16 hex_digit convert_fuel v)) as (b3 & -> & Hl3 & Hs3 & Hz3 & Hb3);
    [lia|lia|done|].
  exists b3. split; [done|]. split; [lia|]. split; [done|]. split; [done|].
  intros a b Ha Hb. rewrite Hb3 by lia. by apply Hb1.
Qed.

(** ** Lemmas: streams *)

(** A buffer of [SIZE] bytes that holds [s]; one byte is always free. *)
Record rep (SIZE : Z) (b : FixedBuffer) (s : list byte) : Prop := {
  rep_size : zlen (data_ b) = SIZE;
  rep_text : slice (data_ b) 0 (cur_ b) = s;
  rep_cur : cur_ b = zlen s;
  rep_free : cur_ b < SIZE;
  rep_int : SIZE < 2 ^ 31;
}.

Lemma rep_avail SIZE b s : rep SIZE b s -> avail b = SIZE - zlen s.
Proof.
  intros []. unfold avail. pose proof (zlen_nonneg s). rewrite (wraps_small 32 (zlen (data_ b) - cur_ b)); lia.
Qed.

(** New bytes after the text. *)
Lemma rep_extend SIZE b s d t :
  rep SIZE b s -> zlen d = SIZE -> slice d 0 (cur_ b) = slice (data_ b) 0 (cur_ b) ->
  slice d (cur_ b) (cur_ b + zlen t) = t -> cur_ b + zlen t < SIZE ->
  rep SIZE (mkFixedBuffer d (cur_ b + zlen t)) (s ++ t).
Proof.
  intros [] Hd Hs Ht Hlt. pose proof (zlen_nonneg s). pose proof (zlen_nonneg t).
  constructor; simpl; [done| |rewrite zlen_app; lia|done|done].
  rewrite <- (slice_app d 0 (cur_ b)) by lia. by rewrite Hs, rep_text0, Ht.
Qed.

Lemma append_rep SIZE b s t :
  rep SIZE b s ->
  exists b', append t (zlen t) b = Ok b' /\ rep SIZE b' (if zlen t <? SIZE - zlen s then s ++ t else s).
Proof.
  intros Hr. pose proof Hr as []. unfold append. rewrite (rep_avail SIZE b s) by done.
  destruct (Z.ltb_spec (zlen t) (SIZE - zlen s)) as [Hlt|Hge]; [|by exists b].
  pose proof (zlen_nonneg t). rewrite (proj2 (Z.leb_le 0 (zlen t))) by done. cbn [defined_ mbind outcome_bind].
  rewrite slice_full. pose proof (zlen_nonneg s).
  destruct (write_at_spec (data_ b) t (cur_ b)) as (d & -> & Hl & Hs & Hb & _); [lia|lia|].
  eexists. split; [done|]. apply rep_extend; [done|lia|by apply Hb|done|lia].
Qed.

Lemma digits_text_length base dig fuel k z :
  2 <= base -> 0 <= z < base ^ Z.of_nat k -> (0 < k)%nat -> zlen (digits_text base dig fuel z) <= Z.of_nat k.
Proof.
  intros Hb. revert k z. induction fuel as [|n IH]; intros k z Hz Hk; cbn [digits_text]; [rewrite (@zlen_nil byte); lia|].
  destruct (Z.ltb_spec z base); [rewrite zlen_cons, (@zlen_nil byte); lia|].
  rewrite zlen_app, zlen_cons, (@zlen_nil byte). destruct k as [|[|k]]; [lia|rewrite Z.pow_1_r in Hz; lia|].
  rewrite (Nat2Z.inj_succ (S k)), Z.pow_succ_r in Hz by lia.
  specialize (IH (S k) (z / base)). enough (zlen (digits_text base dig n (z / base)) <= Z.of_nat (S k)) by lia.
  apply IH; [|lia]. split; [apply Z.div_pos; lia|apply Z.div_lt_upper_bound; lia].
Qed.

Lemma decimal_length v : - 2 ^ 63 <= v < 2 ^ 64 -> zlen (decimal v) <= 21.
Proof.
  intros Hv. unfold decimal. rewrite zlen_app. pose proof (udec_length (Z.abs v) 20 ltac:(lia) ltac:(lia)) as Hu.
  assert (zlen (sign v) <= 1) by (unfold sign; destruct (v <? 0); [change (zlen (bs "-")) with 1|rewrite (@zlen_nil byte)]; lia).
  unfold zlen in *. lia.
Qed.

Lemma formatInteger_rep SIZE b s v :
  rep SIZE b s -> - 2 ^ 63 <= v < 2 ^ 64 ->
  exists b', formatInteger v b = Ok b' /\
    rep SIZE b' (if kMaxNumericSize <=? SIZE - zlen s then s ++ decimal v else s).
Proof.
  intros Hr Hv. pose proof Hr as []. unfold formatInteger. rewrite (rep_avail SIZE b s) by done.
  destruct (Z.leb_spec kMaxNumericSize (SIZE - zlen s)) as [Hle|Hgt]; [|by exists b].
  unfold kMaxNumericSize in Hle. pose proof (decimal_length v Hv). pose proof (zlen_nonneg s).
  destruct (convert_spec (data_ b) (cur_ b) v) as (d & -> & Hl & Hs & _ & Hb); [unfold convert_fuel; lia|lia|lia|].
  cbn [mbind outcome_bind]. eexists. split; [done|]. unfold add. cbn [data_ cur_].
  apply rep_extend; [done|lia|apply Hb; lia|done|lia].
Qed.

Lemma formatPointer_rep SIZE b s v :
  rep SIZE b s -> 0 <= v < 2 ^ 64 ->
  exists b', formatPointer v b = Ok b' /\
    rep SIZE b' (if kMaxNumericSize <=? SIZE - zlen s then s ++ bs "0x" ++ hexadecimal v else s).
Proof.
  intros Hr Hv. pose proof Hr as []. unfold formatPointer. rewrite (rep_avail SIZE b s) by done.
  destruct (Z.leb_spec kMaxNumericSize (SIZE - zlen s)) as [Hle|Hgt]; [|by exists b].
  unfold kMaxNumericSize in Hle. pose proof (zlen_nonneg s).
  pose proof (digits_text_length 16 hex_digit convert_fuel 16 v ltac:(lia) ltac:(lia) ltac:(lia)) as Hhex.
  fold (hexadecimal v) in Hhex.
  destruct (write_at_spec (data_ b) (bs "0") (cur_ b)) as (d1 & -> & Hl1 & Hs1 & Hb1 & _);
    [lia|change (zlen (bs "0")) with 1; lia|]. cbn [mbind outcome_bind].
  destruct (write_at_spec d1 (bs "x") (cur_ b + 1)) as (d2 & -> & Hl2 & Hs2 & Hb2 & _);
    [lia|change (zlen (bs "x")) with 1; lia|]. cbn [mbind outcome_bind].
  change (zlen (bs "0")) with 1 in *. change (zlen (bs "x")) with 1 in *.
  destruct (convertHex_spec d2 (cur_ b + 2) v) as (d3 & -> & Hl3 & Hs3 & _ & Hb3); [unfold convert_fuel; lia|lia|lia|].
  cbn [mbind outcome_bind]. eexists. split; [done|]. unfold add. cbn [data_ cur_].
  assert (zlen (bs "0x" ++ hexadecimal v) = zlen (hexadecimal v) + 2) as El.
  { rewrite zlen_app. change (zlen (bs "0x")) with 2. lia. }
  rewrite <- El. apply rep_extend; [done|lia| |rewrite El|lia].
  - rewrite Hb3, Hb2, Hb1 by lia. done.
  - pose proof (zlen_nonneg (hexadecimal v)).
    rewrite <- (slice_app d3 (cur_ b) (cur_ b + 2)) by lia. rewrite (Hb3 (cur_ b)) by lia.
    rewrite <- (slice_app d2 (cur_ b) (cur_ b + 1)) by lia. rewrite (Hb2 (cur_ b)), Hs1 by lia.
    replace (cur_ b + 1 + 1) with (cur_ b + 2) in Hs2 by lia. rewrite Hs2.
    replace (cur_ b + (zlen (hexadecimal v) + 2)) with (cur_ b + 2 + zlen (hexadecimal v)) by lia. by rewrite Hs3.
Qed.

Lemma formatDouble_rep SIZE b s t :
  rep SIZE b s -> zlen t < kMaxNumericSize ->
  exists b', formatDouble t b = Ok b' /\
    rep SIZE b' (if kMaxNumericSize <=? SIZE - zlen s then s ++ t else s).
Proof.
  intros Hr Ht. pose proof Hr as []. unfold formatDouble. rewrite (rep_avail SIZE b s) by done.
  destruct (Z.leb_spec kMaxNumericSize (SIZE - zlen s)) as [Hle|Hgt]; [|by exists b].
  unfold kMaxNumericSize in *. pose proof (zlen_nonneg s). pose proof (zlen_nonneg t).
  assert (snprintf (Z.to_nat 64) t = t) as -> by (apply take_ge; unfold zlen in *; lia).
  destruct (write_at_spec (data_ b) (t ++ [x00]) (cur_ b)) as (d & -> & Hl & Hs & Hb & _);
    [lia|rewrite zlen_app; change (zlen [x00]) with 1; lia|]. rewrite zlen_app in Hs. change (zlen [x00]) with 1 in Hs.
  cbn [mbind outcome_bind]. eexists. split; [done|]. unfold add. cbn [data_ cur_].
  apply rep_extend; [done|lia|by apply Hb| |lia].
  assert (slice (slice d (cur_ b) (cur_ b + (zlen t + 1))) 0 (zlen t) = slice (t ++ [x00]) 0 (zlen t)) as E by by rewrite Hs.
  rewrite slice_app_l, slice_full in E by lia. rewrite <- E at 2. symmetry.
  unfold slice. rewrite drop_0, take_take. f_equal. lia.
Qed.

Lemma put_rep SIZE b s x :
  rep SIZE b s -> valid x = true ->
  exists b', put b x = Ok b' /\ rep SIZE b' (spec_put SIZE s x).
Proof.
  intros Hr Hv. unfold spec_put, fits.
  assert (forall t, zlen t < 2 ^ 31 -> exists b', append t (i32 (zlen t)) b = Ok b' /\
    rep SIZE b' (if zlen t <? SIZE - zlen s then s ++ t else s)) as Happ.
  { intros t Ht. pose proof (zlen_nonneg t). rewrite (wraps_small 32 (zlen t)) by lia. by apply append_rep. }
  destruct x as [v|v|v|t|v|t|t len|t|t]; cbn [put in_place text valid] in *.
  - destruct v; by apply (append_rep SIZE b s).
  - apply andb_true_iff in Hv as [?%Z.leb_le ?%Z.ltb_lt]. by apply formatInteger_rep.
  - apply andb_true_iff in Hv as [?%Z.leb_le ?%Z.ltb_lt]. by apply formatPointer_rep.
  - apply Z.ltb_lt in Hv. by apply formatDouble_rep.
  - by apply (append_rep SIZE b s [v]).
  - apply Z.ltb_lt in Hv. by apply Happ.
  - apply andb_true_iff in Hv as [Hl%Z.eqb_eq Hv%Z.ltb_lt]. unfold new_T. rewrite <- Hl, Z.eqb_refl.
    cbn [assert_ mbind outcome_bind]. by apply Happ.
  - apply Z.ltb_lt in Hv. by apply Happ.
  - apply Z.ltb_lt in Hv. unfold new_Fmt. rewrite (proj2 (Z.ltb_lt (zlen t) 32)) by done.
    cbn [assert_ mbind outcome_bind].
    assert (snprintf 32 t = t) as -> by (apply take_ge; unfold zlen in *; lia). by apply append_rep.
Qed.

Lemma puts_rep SIZE items b s :
  rep SIZE b s -> forallb valid items = true ->
  exists b', foldM put b items = Ok b' /\ rep SIZE b' (foldl (spec_put SIZE) s items).
Proof.
  revert b s. induction items as [|x items IH]; intros b s Hr Hv; cbn [foldM foldl forallb] in *; [by exists b|].
  apply andb_true_iff in Hv as [Hx Hv]. destruct (put_rep SIZE b s x Hr Hx) as (b1 & -> & H1).
  cbn [mbind outcome_bind]. by apply IH.
Qed.

Lemma new_FixedBuffer_rep SIZE : 0 < SIZE < 2 ^ 31 -> rep SIZE (new_FixedBuffer SIZE) [].
Proof.
  intros H. constructor; simpl; [unfold zlen; rewrite length_replicate; lia|by apply slice_nil|done|lia|lia].
Qed.

(** As long as there is room for a number nothing is left out. *)
Lemma spec_puts_all SIZE items s :
  zlen s + sum_of (fun x => zlen (text x)) items + kMaxNumericSize <= SIZE ->
  foldl (spec_put SIZE) s items = s ++ concat (text <$> items).
Proof.
  revert s. induction items as [|x items IH]; intros s Hs; cbn [foldl sum_of fmap list_fmap concat] in *; [by rewrite app_nil_r|].
  pose proof (sum_of_nonneg (fun x => zlen (text x)) items (fun x => zlen_nonneg (text x))). pose proof (zlen_nonneg (text x)).
  assert (spec_put SIZE s x = s ++ text x) as ->.
  { unfold spec_put, fits, kMaxNumericSize in *. destruct (in_place x); case_bool; done || lia. }
  rewrite IH, <- app_assoc; [done|]. rewrite zlen_app. lia.
Qed.

(** ** Properties *)

(** [convert] and [convertHex] write the decimal and the hexadecimal
    digits of any 64-bit integer, signed or not, the smallest one included,
    and a terminator; they touch at most 22 bytes and nothing before them,
    and the decimal digits read back as the number. *)
Theorem convert_writes_digits (buf : list byte) (at_ v : Z) :
  - 2 ^ 63 <= v < 2 ^ 64 -> 0 <= at_ -> at_ + 22 <= zlen buf ->
  (exists buf', convert buf at_ v = Ok (buf', zlen (decimal v)) /\
    slice buf' at_ (at_ + zlen (decimal v) + 1) = decimal v ++ [x00] /\ slice buf' 0 at_ = slice buf 0 at_ /\
    zlen buf' = zlen buf) /\
  decimal v = (if v <? 0 then bs "-" else []) ++ udec (Z.abs v) /\ dec_value (udec (Z.abs v)) = Z.abs v /\
  zlen (decimal v) <= 21 /\
  (0 <= v -> exists buf', convertHex buf at_ v = Ok (buf', zlen (hexadecimal v)) /\
    slice buf' at_ (at_ + zlen (hexadecimal v) + 1) = hexadecimal v ++ [x00] /\ slice buf' 0 at_ = slice buf 0 at_ /\
    zlen (hexadecimal v) <= 16).
Proof.
  intros Hv Hat Hroom. pose proof (decimal_length v Hv) as Hlen. split; [|split; [done|split; [|split; [done|]]]].
  - destruct (convert_spec buf at_ v) as (d & -> & Hl & Hs & Hz & Hb); [unfold convert_fuel; lia|done|lia|].
    exists d. split; [done|]. pose proof (zlen_nonneg (decimal v)). split; [|split; [by apply Hb|done]].
    rewrite <- (slice_app d at_ (at_ + zlen (decimal v))) by lia. by rewrite Hs, Hz.
  - apply udec_value. lia.
  - intros Hv0. pose proof (digits_text_length 16 hex_digit convert_fuel 16 v ltac:(lia) ltac:(lia) ltac:(lia)) as Hh.
    fold (hexadecimal v) in Hh.
    destruct (convertHex_spec buf at_ v) as (d & -> & Hl & Hs & Hz & Hb); [unfold convert_fuel; lia|done|lia|].
    exists d. split; [done|]. pose proof (zlen_nonneg (hexadecimal v)). split; [|split; [by apply Hb|done]].
    rewrite <- (slice_app d at_ (at_ + zlen (hexadecimal v))) by lia. by rewrite Hs, Hz.
Qed.

Lemma convert_writes_digits_witness :
  let v := - 2 ^ 63 in
  exists buf', convert (replicate 30 x2e) 3 v = Ok (buf', zlen (decimal v)) /\
    slice buf' 3 (3 + zlen (decimal v) + 1) = decimal v ++ [x00] /\ slice buf' 0 3 = slice (replicate 30 x2e) 0 3 /\
    zlen buf' = zlen (replicate 30 x2e).
Proof. apply (convert_writes_digits (replicate 30 x2e) 3 (- 2 ^ 63)); [lia|lia|vm_compute; discriminate]. Defined.

(** C3: a [LogStream] refines a stream that appends the text of each item
    when it fits and leaves it out otherwise: no operation writes outside
    the buffer or fails, the text is that of the specification, one byte is
    always free, so that [debugString] terminates it in place, and nothing
    is left out while 64 bytes stay free. *)
Theorem logstream_refines (items : list item) :
  forallb valid items = true ->
  exists b, foldM put LogStream items = Ok b /\
    asString b = foldl (spec_put kSmallBuffer) [] items /\
    0 <= length_ b < kSmallBuffer /\
    (exists b', debugString b = Ok (b', asString b)) /\
    (sum_of (fun x => zlen (text x)) items + kMaxNumericSize <= kSmallBuffer ->
     asString b = concat (text <$> items)).
Proof.
  intros Hv. destruct (puts_rep kSmallBuffer items LogStream [] (new_FixedBuffer_rep kSmallBuffer ltac:(done)) Hv)
    as (b & -> & Hr). pose proof Hr as [Hsz Htext Hcur Hfree _]. exists b. split; [done|]. split; [done|].
  pose proof (zlen_nonneg (foldl (spec_put kSmallBuffer) [] items)). split; [unfold length_; lia|]. split.
  - unfold debugString. destruct (write_at_spec (data_ b) [x00] (cur_ b)) as (d & -> & _ & _ & Hb & _);
      [lia|change (zlen [x00]) with 1; lia|]. cbn [mbind outcome_bind]. eexists. unfold asString, length_. by rewrite Hb by lia.
  - intros Hall. unfold asString, length_. rewrite Htext. apply (spec_puts_all kSmallBuffer items []).
    change (zlen (@nil byte)) with 0. lia.
Qed.

Definition example_items : list item :=
  [CStr (bs "fd="); Int (-7); Char x20; Pointer 48879; Bool true; TStr (bs "ab") 2; FmtStr (bs "1.50"); Double (bs "0.1")].

Lemma logstream_refines_witness :
  exists b, foldM put LogStream example_items = Ok b /\
    asString b = foldl (spec_put kSmallBuffer) [] example_items /\
    0 <= length_ b < kSmallBuffer /\
    (exists b', debugString b = Ok (b', asString b)) /\
    (sum_of (fun x => zlen (text x)) example_items + kMaxNumericSize <= kSmallBuffer ->
     asString b = concat (text <$> example_items)).
Proof. apply logstream_refines. vm_compute. reflexivity. Defined.
