(* ===== verification/Codec.v ===== *)
(** * Codec: protobuf messages on the wire

    Models [encode], [decode], [createMessage] and [asInt32] of
    [protobuf/codec.h] and the dispatcher of [protobuf/dispatcher_lite.cc].
    The protobuf library and zlib's [adler32] are code outside the
    repository: they are the class [Protobuf], and what the codec relies on
    is the class [ProtobufLaws]. *)
From S2P Require Import Prelude Endian.
From Stdlib Require Import Strings.Byte.

Definition kHeaderLen : Z := 4.

(** Messages, their descriptors (known by name) and serialisation. *)
Class Protobuf (Message : Type) := {
  GetDescriptor : Message -> positive;
  GetTypeName : Message -> list byte;
  AppendToString : Message -> option (list byte);
  FindMessageTypeByName : list byte -> bool;
  ParseFromArray : list byte -> list byte -> option Message;
  adler32 : list byte -> Z;
}.

(** A type name is not empty, the type of a message is known, and parsing
    what was serialised gives the message back. *)
Class ProtobufLaws (Message : Type) `{Protobuf Message} := {
  type_name_nonempty : forall m, GetTypeName m <> [];
  type_known : forall m, FindMessageTypeByName (GetTypeName m) = true;
  parse_serialized : forall m d, AppendToString m = Some d -> ParseFromArray (GetTypeName m) d = Some m;
}.

Section codec.
Context {Message : Type} `{Protobuf Message}.

Definition encode (message : Message) : list byte :=
  let result := replicate (Z.to_nat kHeaderLen) x00 in
  let typeName := GetTypeName message in
  let nameLen := i32 (zlen typeName + 1) in
  let result := result ++ be32 nameLen in
  let result := result ++ typeName ++ [x00] in
  match AppendToString message with
  | Some d =>
      let result := result ++ d in
      let checkSum := i32 (adler32 (drop (Z.to_nat kHeaderLen) result)) in
      let result := result ++ be32 checkSum in
      let len := be32 (zlen result - kHeaderLen) in
      len ++ drop (length len) result
  | None => []
  end.

(** A new message of the type: the name stands for the prototype. *)
Definition createMessage (type_name : list byte) : option (list byte) :=
  if FindMessageTypeByName type_name then Some type_name else None.

(** Reading [n] bytes at [off] of a string. *)
Definition read (buf : list byte) (off n : Z) : outcome (list byte) :=
  _ ← defined_ ((0 <=? off) && (0 <=? n) && (off + n <=? zlen buf));
  Ok (slice buf off (off + n)).

Definition asInt32 (buf : list byte) (off : Z) : outcome Z :=
  b ← read buf off 4; Ok (be32_s b).

Definition decode (buf : list byte) : outcome (option Message) :=
  let len := i32 (zlen buf) in
  if 10 <=? len then
    expectedCheckSum ← asInt32 buf (zlen buf - kHeaderLen);
    checked ← read buf 0 (len - kHeaderLen);
    let checkSum := i32 (adler32 checked) in
    if checkSum =? expectedCheckSum then
      nameLen ← asInt32 buf 0;
      if (2 <=? nameLen) && (nameLen <=? len - 2 * kHeaderLen) then
        typeName ← read buf kHeaderLen (nameLen - 1);
        match createMessage typeName with
        | Some message =>
            let dataLen := len - nameLen - 2 * kHeaderLen in
            data ← read buf (kHeaderLen + nameLen) dataLen;
            Ok (ParseFromArray message data)
        | None => Ok None
        end
      else Ok None
    else Ok None
  else Ok None.

(** The dispatcher: callbacks by descriptor, and a default. *)
Record ProtobufDispatcherLite := mkDispatcher {
  callbacks_ : gmap positive positive;
  defaultCallback_ : positive;
}.

Definition registerMessageCallback (desc : positive) (callback : positive) (d : ProtobufDispatcherLite) :
    ProtobufDispatcherLite :=
  mkDispatcher (<[desc := callback]> (callbacks_ d)) (defaultCallback_ d).

(** The callback [onMessage] calls. *)
Definition onMessage (message : Message) (d : ProtobufDispatcherLite) : positive :=
  match callbacks_ d !! GetDescriptor message with
  | Some callback => callback
  | None => defaultCallback_ d
  end.

(** ** Lemmas *)

(** The frame of the transport format, after the length. *)
Definition frame (name data : list byte) (terminator : byte) : list byte :=
  be32 (zlen name + 1) ++ name ++ [terminator] ++ data.

Lemma zlen_be32 z : zlen (be32 z) = 4.
Proof. done. Qed.

Lemma zlen_frame name data c : zlen (frame name data c) = 4 + (zlen name + 1) + zlen data.
Proof. unfold frame. rewrite !zlen_app, zlen_be32. change (zlen [c]) with 1. lia. Qed.

Lemma read_ok buf off n : 0 <= off -> 0 <= n -> off + n <= zlen buf -> read buf off n = Ok (slice buf off (off + n)).
Proof.
  intros. unfold read. rewrite !(proj2 (Z.leb_le _ _)) by lia. done.
Qed.

Lemma slice_mid {A} (a b c : list A) : slice (a ++ b ++ c) (zlen a) (zlen a + zlen b) = b.
Proof.
  unfold slice, zlen. rewrite Nat2Z.id, drop_app_length. replace (Z.to_nat _) with (length b) by lia.
  apply take_app_length.
Qed.

Lemma slice_head {A} (a b : list A) : slice (a ++ b) 0 (zlen a) = a.
Proof. apply (slice_mid [] a b). Qed.

Lemma encode_frame m d :
  AppendToString m = Some d -> zlen (GetTypeName m) + zlen d + 9 < 2 ^ 31 ->
  let body := frame (GetTypeName m) d x00 in
  encode m = be32 (zlen body + 4) ++ body ++ be32 (i32 (adler32 body)).
Proof.
  intros Hd Hsz body. pose proof (zlen_nonneg (GetTypeName m)). pose proof (zlen_nonneg d). unfold encode. rewrite Hd.
  rewrite (wraps_small 32 (zlen (GetTypeName m) + 1)) by lia. set (pre := replicate _ x00).
  assert ((((pre ++ be32 (zlen (GetTypeName m) + 1)) ++ GetTypeName m ++ [x00]) ++ d) = pre ++ body) as ->
    by (unfold body, frame; by rewrite <- !app_assoc).
  change (drop (Z.to_nat kHeaderLen) (pre ++ body)) with body.
  cbv zeta. rewrite <- (app_assoc pre body).
  change (drop (length (be32 ?z)) (pre ++ ?x)) with x. f_equal. f_equal.
  rewrite !zlen_app, zlen_be32. change (zlen pre) with 4. unfold kHeaderLen. lia.
Qed.

(** What [decode] accepts. *)
Definition accepts (buf : list byte) (m : Message) : Prop :=
  exists name data c, name <> [] /\ FindMessageTypeByName name = true /\
    ParseFromArray name data = Some m /\ zlen buf < 2 ^ 31 /\
    buf = frame name data c ++ be32 (i32 (adler32 (frame name data c))).

Lemma be32_be32_s l : length l = 4%nat -> be32 (be32_s l) = l.
Proof.
  intros Hl. destruct l as [|b0 [|b1 [|b2 [|b3 [|]]]]]; try done. unfold be32, be32_s, be_value. cbn [foldl].
  pose proof (byte_to_Z_range b0). pose proof (byte_to_Z_range b1). pose proof (byte_to_Z_range b2). pose proof (byte_to_Z_range b3).
  rewrite !Z.shiftr_div_pow2 by lia.
  assert (forall x b, x mod 2 ^ 8 = byte_to_Z b -> byte_of_Z x = b) as Hb.
  { intros x b Hx. rewrite <- (byte_of_to_Z (byte_of_Z x)), byte_to_of_Z. unfold wrapu. rewrite Hx. apply byte_of_to_Z. }
  repeat f_equal; apply Hb; unfold wraps; dlia.
Qed.

Lemma be32_be32_s' buf off : 0 <= off -> off + 4 <= zlen buf ->
  be32 (be32_s (slice buf off (off + 4))) = slice buf off (off + 4).
Proof.
  intros. apply be32_be32_s. pose proof (zlen_slice buf off (off + 4) ltac:(lia) ltac:(lia)) as E.
  unfold zlen in E. lia.
Qed.

(** [decode] never reads outside the string. *)
Lemma decode_total buf : exists r, decode buf = Ok r.
Proof.
  unfold decode. pose proof (zlen_nonneg buf) as Hn.
  assert (i32 (zlen buf) <= zlen buf) as Hle by (unfold wraps; dlia).
  destruct (Z.leb_spec 10 (i32 (zlen buf))) as [H10|]; [|by eexists].
  unfold asInt32, kHeaderLen in *. rewrite !read_ok by lia. cbn [mbind outcome_bind].
  destruct (_ =? _); [|by eexists]. set (n := be32_s _).
  destruct ((2 <=? n) && (n <=? i32 (zlen buf) - 2 * 4)) eqn:En; [|by eexists].
  apply andb_true_iff in En as [?%Z.leb_le ?%Z.leb_le]. rewrite !read_ok by lia. cbn [mbind outcome_bind].
  case_match; by eexists.
Qed.

Lemma decode_accepts buf m : zlen buf < 2 ^ 31 -> decode buf = Ok (Some m) <-> accepts buf m.
Proof.
  intros Hsz. pose proof (zlen_nonneg buf) as Hn. split.
  - unfold decode. rewrite (wraps_small 32 (zlen buf)) by lia. intros E.
    destruct (Z.leb_spec 10 (zlen buf)) as [H10|]; [|done].
    unfold asInt32, kHeaderLen in *. rewrite !read_ok in E by lia. cbn [mbind outcome_bind] in E.
    rewrite !Z.add_0_l in E. destruct (Z.eqb_spec (i32 (adler32 (slice buf 0 (zlen buf - 4)))) (be32_s (slice buf (zlen buf - 4) (zlen buf - 4 + 4))))
      as [Hcs|]; [|done].
    set (n := be32_s (slice buf 0 4)) in *.
    destruct ((2 <=? n) && (n <=? zlen buf - 2 * 4)) eqn:En; [|done].
    apply andb_true_iff in En as [H2%Z.leb_le H8%Z.leb_le]. rewrite !read_ok in E by lia. cbn [mbind outcome_bind] in E.
    unfold createMessage in E. case_match eqn:Ef; [|done]. case_match eqn:Ef2; [|done]. simplify_eq.
    set (name := slice buf 4 (4 + (n - 1))) in *.
    replace (4 + n + (zlen buf - n - 2 * 4)) with (zlen buf - 4) in E by lia.
    set (data := slice buf (4 + n) (zlen buf - 4)) in *.
    assert (zlen name = n - 1) as Hname by (unfold name; rewrite zlen_slice; lia).
    assert (exists c, slice buf (4 + (n - 1)) (4 + n) = [c]) as [c Hc].
    { pose proof (zlen_slice buf (4 + (n - 1)) (4 + n) ltac:(lia) ltac:(lia)) as El.
      destruct (slice buf (4 + (n - 1)) (4 + n)) as [|c [|c' l]]; [by change (zlen (@nil byte)) with 0 in El; lia|by exists c|].
      rewrite !zlen_cons in El. pose proof (zlen_nonneg l). lia. }
    assert (slice buf 0 (zlen buf - 4) = frame name data c) as Hframe.
    { unfold frame. rewrite Hname. replace (n - 1 + 1) with n by lia. unfold n at 1.
      rewrite (be32_be32_s' buf 0 : _ -> _ -> be32 (be32_s (slice buf 0 4)) = slice buf 0 4), <- Hc by lia. unfold name, data.
      rewrite slice_app, slice_app, slice_app by lia. done. }
    exists name, data, c. split; [intros E0; rewrite E0 in Hname; change (zlen (@nil byte)) with 0 in Hname; lia|].
    split; [done|]. split; [done|]. split; [done|].
    rewrite <- Hframe, Hcs, be32_be32_s' by lia. rewrite slice_app by lia.
    replace (zlen buf - 4 + 4) with (zlen buf) by lia. by rewrite slice_full.
  - intros (name & data & c & Hname & Hf & Hp & _ & Hbuf). set (fr := frame name data c) in *.
    assert (zlen name <> 0) as Hn0 by (destruct name; [done|rewrite zlen_cons; pose proof (zlen_nonneg name); lia]).
    pose proof (zlen_nonneg name) as Hnn. pose proof (zlen_nonneg data) as Hdn.
    assert (zlen buf = zlen fr + 4) as Hl by (rewrite Hbuf, zlen_app, zlen_be32; lia).
    pose proof (zlen_frame name data c) as Hfr. fold fr in Hfr.
    unfold decode. rewrite (wraps_small 32 (zlen buf)) by lia. rewrite (proj2 (Z.leb_le 10 (zlen buf))) by lia.
    unfold asInt32, kHeaderLen. rewrite !read_ok by lia. cbn [mbind outcome_bind].
    rewrite !Z.add_0_l. replace (zlen buf - 4) with (zlen fr) by lia.
    assert (slice buf 0 (zlen fr) = fr) as -> by (rewrite Hbuf; apply slice_head).
    assert (slice buf (zlen fr) (zlen fr + 4) = be32 (i32 (adler32 fr))) as ->.
    { rewrite Hbuf. rewrite <- (app_nil_r (be32 _)). apply (slice_mid fr (be32 (i32 (adler32 fr))) []). }
    pose proof (wraps_range 32 (adler32 fr) ltac:(lia)). rewrite be32_s_be32 by lia. rewrite Z.eqb_refl.
    assert (slice buf 0 4 = be32 (zlen name + 1)) as ->.
    { rewrite Hbuf. unfold fr, frame. rewrite <- app_assoc. apply (slice_head (be32 (zlen name + 1))). }
    rewrite be32_s_be32 by lia. rewrite !(proj2 (Z.leb_le _ _)) by lia. cbn [andb].
    rewrite !read_ok by lia. cbn [mbind outcome_bind].
    assert (slice buf 4 (4 + (zlen name + 1 - 1)) = name) as ->.
    { replace (zlen name + 1 - 1) with (zlen name) by lia. rewrite Hbuf. unfold fr, frame.
      rewrite <- !app_assoc. apply (slice_mid (be32 (zlen name + 1)) name). }
    unfold createMessage. rewrite Hf. cbn [mbind outcome_bind].
    assert (slice buf (4 + (zlen name + 1)) (4 + (zlen name + 1) + (zlen buf - (zlen name + 1) - 2 * 4)) = data) as ->; [|by rewrite Hp].
    replace (4 + (zlen name + 1) + (zlen buf - (zlen name + 1) - 2 * 4)) with (zlen (be32 (zlen name + 1) ++ name ++ [c]) + zlen data)
      by (rewrite !zlen_app, zlen_be32; change (zlen [c]) with 1; lia).
    replace (4 + (zlen name + 1)) with (zlen (be32 (zlen name + 1) ++ name ++ [c]))
      by (rewrite !zlen_app, zlen_be32; change (zlen [c]) with 1; lia).
    assert (buf = (be32 (zlen name + 1) ++ name ++ [c]) ++ data ++ be32 (i32 (adler32 fr))) as Hb2
      by (rewrite Hbuf; unfold fr at 1, frame; by rewrite <- !app_assoc).
    rewrite Hb2. apply slice_mid.
Qed.
End codec.

(** ** Properties *)

(** C4: what [encode] sends is a length and as many bytes, and [decode] gets
    the message back from those bytes; [decode] itself never reads outside
    its input, whatever it is, and accepts exactly the byte strings that
    consist of a name length, a known type name with one more byte, data
    that parse, and the Adler-32 checksum of all of it; the dispatcher then
    calls the callback registered last for the message's type, or the
    default. *)
Theorem codec_roundtrip {Message : Type} `{ProtobufLaws Message} (m : Message) (d : list byte) :
  AppendToString m = Some d -> zlen (GetTypeName m) + zlen d + 9 < 2 ^ 31 ->
  be32_s (take 4 (encode m)) = zlen (drop 4 (encode m)) /\
  decode (drop 4 (encode m)) = Ok (Some m) /\
  (forall buf, exists r, decode (Message := Message) buf = Ok r) /\
  (forall buf m', zlen buf < 2 ^ 31 -> decode buf = Ok (Some m') <-> accepts buf m') /\
  (forall disp cb, onMessage m (registerMessageCallback (GetDescriptor m) cb disp) = cb /\
    forall desc, desc <> GetDescriptor m -> onMessage m (registerMessageCallback desc cb disp) = onMessage m disp).
Proof.
  intros Hd Hsz. rewrite (encode_frame m d) by done. set (body := frame (GetTypeName m) d x00).
  pose proof (zlen_frame (GetTypeName m) d x00) as Hl. fold body in Hl.
  pose proof (zlen_nonneg (GetTypeName m)). pose proof (zlen_nonneg d).
  change (take 4 (be32 ?z ++ ?x)) with (be32 z). change (drop 4 (be32 ?z ++ ?x)) with x.
  split; [|split; [|split; [apply decode_total|split; [apply decode_accepts|]]]].
  - rewrite be32_s_be32 by lia. by rewrite zlen_app, zlen_be32.
  - apply decode_accepts; [rewrite zlen_app, zlen_be32; lia|].
    exists (GetTypeName m), d, x00. split; [apply type_name_nonempty|]. split; [apply type_known|].
    split; [by apply parse_serialized|]. split; [rewrite zlen_app, zlen_be32; lia|done].
  - intros disp cb. unfold onMessage, registerMessageCallback. cbn [callbacks_ defaultCallback_].
    split; [by rewrite lookup_insert_eq|]. intros desc Hne. by rewrite lookup_insert_ne.
Qed.

(** Messages that are byte strings of one type, with the sum of the bytes as
    checksum. *)
#[local] Instance example_protobuf : Protobuf (list byte) := {
  GetDescriptor := fun _ => 1%positive;
  GetTypeName := fun _ => [x51; x75];
  AppendToString := fun m => Some m;
  FindMessageTypeByName := fun n => bool_decide (n = [x51; x75]);
  ParseFromArray := fun n d => Some d;
  adler32 := sum_of byte_to_Z;
}.

#[local] Instance example_protobuf_laws : ProtobufLaws (list byte).
Proof. split; [done|done|]. intros m d [= ->]. done. Qed.

Lemma codec_roundtrip_witness :
  be32_s (take 4 (encode [x61; x62])) = zlen (drop 4 (encode [x61; x62])) /\
  decode (drop 4 (encode [x61; x62])) = Ok (Some [x61; x62]) /\
  (forall buf, exists r, decode (Message := list byte) buf = Ok r) /\
  (forall buf m', zlen buf < 2 ^ 31 -> decode buf = Ok (Some m') <-> accepts buf m') /\
  (forall disp cb, onMessage [x61; x62] (registerMessageCallback (GetDescriptor [x61; x62]) cb disp) = cb /\
    forall desc, desc <> GetDescriptor [x61; x62] ->
      onMessage [x61; x62] (registerMessageCallback desc cb disp) = onMessage [x61; x62] disp).
Proof. apply (codec_roundtrip [x61; x62] [x61; x62]); [reflexivity|vm_compute; reflexivity]. Defined.
