(* ===== verification/TcpServer.v ===== *)
(** * TcpServer: accepting connections into a pool of loops

    Models [muduo::TcpServer] and [EventLoopThreadPool] of
    [reactor/s13/TcpServer.h], [TcpServer.cc], [EventLoopThreadPool.h] and
    [EventLoopThreadPool.cc]: how connections are named, spread over the
    loops, established, removed and destroyed when every loop runs its
    functors at its own pace.  Of [Acceptor] only whether it listens counts.  Of a connection only the stages
    of its life count here; [TcpConnection.v] is about the rest. *)
From S2P Require Import Prelude CFormat.
From Stdlib Require Import Strings.Byte.

#[export] Instance byte_countable : Countable byte :=
  inj_countable' Byte.to_N (fun n => default x00 (Byte.of_N n)) (fun b => ltac:(by destruct b)).

Abbreviation loop_id := positive.
Abbreviation conn_id := positive.

(** The stages of a connection: created, [connectEstablished] has run, its
    close callback was called, it was taken out of [connections_],
    [connectDestroyed] has run. *)
Inductive stage := Created | Established | Closed | Removed | Destroyed.

#[export] Instance stage_eq_dec : EqDecision stage.
Proof. solve_decision. Defined.

Record connection := mkConnection {
  c_name : list byte;
  c_loop : loop_id;
  c_fd : Z;
  c_stage : stage;
}.

(** Functors that wait in a loop. *)
Inductive task := EstablishTask (c : conn_id) | RemoveTask (c : conn_id) | DestroyTask (c : conn_id).

#[export] Instance task_eq_dec : EqDecision task.
Proof. solve_decision. Defined.

Record EventLoopThreadPool := mkPool {
  baseLoop_ : loop_id;
  pool_started_ : bool;
  numThreads_ : Z;
  next_ : Z;
  loops_ : list loop_id;
}.

(** [conns]: all connections ever made, by the number in their name;
    [queues]: the functors of the loops. *)
Record TcpServer := mkTcpServer {
  name_ : list byte;
  threadPool_ : EventLoopThreadPool;
  started_ : bool;
  listenning_ : bool;
  nextConnId_ : Z;
  connections_ : gmap (list byte) conn_id;
  conns : gmap conn_id connection;
  queues : gmap loop_id (list task);
}.

Definition new_Pool (loop : loop_id) : EventLoopThreadPool := mkPool loop false 0 0 [].
Definition new_TcpServer (loop : loop_id) (hostPort : list byte) : TcpServer :=
  mkTcpServer hostPort (new_Pool loop) false false 1 ∅ ∅ ∅.

Definition set_pool p s := mkTcpServer (name_ s) p (started_ s) (listenning_ s) (nextConnId_ s)
  (connections_ s) (conns s) (queues s).
Definition set_started s := mkTcpServer (name_ s) (threadPool_ s) true (listenning_ s) (nextConnId_ s)
  (connections_ s) (conns s) (queues s).
Definition listen s := mkTcpServer (name_ s) (threadPool_ s) (started_ s) true (nextConnId_ s)
  (connections_ s) (conns s) (queues s).
Definition set_conns n m c s := mkTcpServer (name_ s) (threadPool_ s) (started_ s) (listenning_ s) n
  m c (queues s).
Definition set_queues q s := mkTcpServer (name_ s) (threadPool_ s) (started_ s) (listenning_ s) (nextConnId_ s)
  (connections_ s) (conns s) q.

(** ** The pool *)

(** [start]: [startLoop i] is the loop of the [i]-th new thread. *)
Definition pool_start (in_loop : bool) (startLoop : Z -> loop_id) (p : EventLoopThreadPool) :
    outcome EventLoopThreadPool :=
  _ ← assert_ (negb (pool_started_ p));
  if in_loop then
    Ok (mkPool (baseLoop_ p) true (numThreads_ p) (next_ p) (loops_ p ++ map startLoop (seqZ 0 (numThreads_ p))))
  else Fail LogFatal.

Definition getNextLoop (p : EventLoopThreadPool) : outcome (loop_id * EventLoopThreadPool) :=
  match loops_ p with
  | [] => Ok (baseLoop_ p, p)
  | _ =>
      _ ← defined_ (0 <=? next_ p);
      loop ← from_some Undefined (loops_ p !! Z.to_nat (next_ p));
      let next := next_ p + 1 in
      let next := if zlen (loops_ p) <=? next then 0 else next in
      Ok (loop, mkPool (baseLoop_ p) (pool_started_ p) (numThreads_ p) next (loops_ p))
  end.

(** ** The server *)

Definition setThreadNum (n : Z) (s : TcpServer) : outcome TcpServer :=
  _ ← assert_ (0 <=? n);
  let p := threadPool_ s in
  Ok (set_pool (mkPool (baseLoop_ p) (pool_started_ p) n (next_ p) (loops_ p)) s).

Definition start (in_loop : bool) (startLoop : Z -> loop_id) (s : TcpServer) : outcome TcpServer :=
  s ← (if negb (started_ s) then
         p ← pool_start in_loop startLoop (threadPool_ s);
         Ok (set_pool p (set_started s))
       else Ok s);
  if negb (listenning_ s) then Ok (listen s) else Ok s.

Definition queue_of (l : loop_id) (s : TcpServer) : list task := default [] (queues s !! l).
Definition queueInLoop (l : loop_id) (t : task) (s : TcpServer) : TcpServer :=
  set_queues (<[l := queue_of l s ++ [t]]> (queues s)) s.

Definition set_stage (i : conn_id) (st : stage) (s : TcpServer) : TcpServer :=
  set_conns (nextConnId_ s) (connections_ s)
    (alter (fun c => mkConnection (c_name c) (c_loop c) (c_fd c) st) i (conns s)) s.

(** [TcpConnection::connectEstablished] and [connectDestroyed], reduced to
    their assertions on [state_]: [kConnecting] is [Created],
    [kDisconnected] is [Destroyed], the stages between are [kConnected] or
    [kDisconnecting]. *)
Definition connectEstablished (i : conn_id) (s : TcpServer) : outcome TcpServer :=
  c ← from_some Undefined (conns s !! i);
  _ ← assert_ (bool_decide (c_stage c = Created));
  Ok (set_stage i Established s).
Definition connectDestroyed (i : conn_id) (s : TcpServer) : outcome TcpServer :=
  c ← from_some Undefined (conns s !! i);
  _ ← assert_ (bool_decide (c_stage c <> Created /\ c_stage c <> Destroyed));
  Ok (set_stage i Destroyed s).

(** [snprintf(buf, sizeof buf, "#%d", nextConnId_)]. *)
Definition conn_name (name : list byte) (n : Z) : list byte :=
  name ++ snprintf 32 (bs "#" ++ fmt_d 0 n).

Definition newConnection (sockfd : Z) (s : TcpServer) : outcome TcpServer :=
  let connName := conn_name (name_ s) (nextConnId_ s) in
  _ ← defined_ (nextConnId_ s + 1 <? 2 ^ 31);
  '(ioLoop, p) ← getNextLoop (threadPool_ s);
  let i := Z.to_pos (nextConnId_ s) in
  let conn := mkConnection connName ioLoop sockfd Created in
  let s := set_pool p (set_conns (nextConnId_ s + 1) (<[connName := i]> (connections_ s)) (<[i := conn]> (conns s)) s) in
  if bool_decide (ioLoop = baseLoop_ p) then connectEstablished i s
  else Ok (queueInLoop ioLoop (EstablishTask i) s).

Definition removeConnectionInLoop (i : conn_id) (s : TcpServer) : outcome TcpServer :=
  c ← from_some Undefined (conns s !! i);
  _ ← assert_ (bool_decide (is_Some (connections_ s !! c_name c)));
  let s := set_conns (nextConnId_ s) (delete (c_name c) (connections_ s)) (conns s) s in
  Ok (queueInLoop (c_loop c) (DestroyTask i) (set_stage i Removed s)).

(** [removeConnection], the close callback: runs in the connection's loop. *)
Definition removeConnection (i : conn_id) (s : TcpServer) : outcome TcpServer :=
  c ← from_some Undefined (conns s !! i);
  let s := set_stage i Closed s in
  if bool_decide (c_loop c = baseLoop_ (threadPool_ s)) then removeConnectionInLoop i s
  else Ok (queueInLoop (baseLoop_ (threadPool_ s)) (RemoveTask i) s).

Definition runTask (l : loop_id) (s : TcpServer) : outcome TcpServer :=
  match queue_of l s with
  | [] => Ok s
  | t :: q =>
      let s := set_queues (<[l := q]> (queues s)) s in
      match t with
      | EstablishTask i => connectEstablished i s
      | RemoveTask i => removeConnectionInLoop i s
      | DestroyTask i => connectDestroyed i s
      end
  end.

(** What happens to a server. *)
Inductive event :=
| SetThreadNum (n : Z)
| Start (in_loop : bool) (startLoop : Z -> loop_id)
| NewConnection (sockfd : Z)
| PeerCloses (i : conn_id)
| RunTask (l : loop_id).

Definition run_event (s : TcpServer) (e : event) : outcome TcpServer :=
  match e with
  | SetThreadNum n => setThreadNum n s
  | Start in_loop startLoop => start in_loop startLoop s
  | NewConnection fd => newConnection fd s
  | PeerCloses i => removeConnection i s
  | RunTask l => runTask l s
  end.

(** Threads are set before [start], the first [start] is called in the base
    loop's thread, connections come when the server listens, and an
    established connection is closed once. [TcpConnection] does not ensure
    the last ([close_handled_twice] of [TcpConnection.v]); [server_sound] says
    what a second close and a [start] from elsewhere do. *)
Definition legal (s : TcpServer) (e : event) : bool :=
  match e with
  | SetThreadNum n => (0 <=? n) && negb (started_ s)
  | Start in_loop _ => in_loop || started_ s
  | NewConnection _ => listenning_ s && (nextConnId_ s + 1 <? 2 ^ 31)
  | PeerCloses i => match conns s !! i with Some c => bool_decide (c_stage c = Established) | None => false end
  | RunTask _ => true
  end.

Fixpoint legal_run (s : TcpServer) (es : list event) : bool :=
  match es with
  | [] => true
  | e :: es => legal s e && match run_event s e with Ok s' => legal_run s' es | _ => true end
  end.

(** ** Invariant *)

(** The functor that waits for a connection, and in which loop. *)
Definition task_of (base : loop_id) (i : conn_id) (c : connection) : option (loop_id * task) :=
  match c_stage c with
  | Created => Some (c_loop c, EstablishTask i)
  | Closed => Some (base, RemoveTask i)
  | Removed => Some (c_loop c, DestroyTask i)
  | Established | Destroyed => None
  end.

(** The loop of the [k]-th connection. *)
Definition nth_loop (p : EventLoopThreadPool) (k : nat) : loop_id :=
  match loops_ p with
  | [] => baseLoop_ p
  | l :: _ => nth (k mod length (loops_ p)) (loops_ p) l
  end.

Record server_inv (s : TcpServer) : Prop := {
  sv_next : 1 <= nextConnId_ s < 2 ^ 31;
  sv_pool : started_ s = pool_started_ (threadPool_ s);
  sv_listen : listenning_ s = true -> started_ s = true;
  sv_before : started_ s = false -> loops_ (threadPool_ s) = [] /\ next_ (threadPool_ s) = 0 /\ conns s = ∅ /\ nextConnId_ s = 1;
  sv_robin : next_ (threadPool_ s) = if bool_decide (loops_ (threadPool_ s) = []) then 0 else (nextConnId_ s - 1) mod zlen (loops_ (threadPool_ s));
  sv_conns : forall i, is_Some (conns s !! i) <-> Z.pos i < nextConnId_ s;
  sv_conn : forall i c, conns s !! i = Some c ->
    c_name c = conn_name (name_ s) (Z.pos i) /\ c_loop c = nth_loop (threadPool_ s) (Pos.to_nat i - 1);
  sv_map : forall n i, connections_ s !! n = Some i <->
    exists c, conns s !! i = Some c /\ c_name c = n /\ c_stage c <> Removed /\ c_stage c <> Destroyed;
  sv_nodup : forall l, NoDup (queue_of l s);
  sv_tasks : forall l t, t ∈ queue_of l s <->
    exists i c, conns s !! i = Some c /\ task_of (baseLoop_ (threadPool_ s)) i c = Some (l, t);
}.

(** ** Lemmas *)

Lemma conn_name_eq name n : 0 <= n < 2 ^ 31 -> conn_name name n = name ++ bs "#" ++ udec n.
Proof.
  intros Hn. unfold conn_name. f_equal. rewrite fmt_d_nonneg by lia. unfold pad. cbn [replicate Nat.sub app].
  pose proof (udec_length n 10 ltac:(lia) ltac:(lia)). unfold snprintf. apply take_ge.
  rewrite length_app. change (length (bs "#")) with 1%nat. lia.
Qed.

Lemma conn_name_inj name a b :
  0 <= a < 2 ^ 31 -> 0 <= b < 2 ^ 31 -> conn_name name a = conn_name name b -> a = b.
Proof.
  intros Ha Hb. rewrite !conn_name_eq by done. intros E%app_inv_head%app_inv_head.
  rewrite <- (udec_value a), <- (udec_value b) by lia. by rewrite E.
Qed.

Lemma queue_of_insert l l' q s : queue_of l (set_queues (<[l' := q]> (queues s)) s) = if decide (l = l') then q else queue_of l s.
Proof.
  unfold queue_of. simpl. destruct (decide (l = l')) as [->|Hne]; [by rewrite lookup_insert_eq|by rewrite lookup_insert_ne].
Qed.

Lemma task_of_id base i j c c' l t : task_of base i c = Some (l, t) -> task_of base j c' = Some (l, t) -> i = j.
Proof. unfold task_of. destruct (c_stage c), (c_stage c'); intros; by simplify_eq. Qed.

(** What the functors of all loops become when connection [i] changes from
    [old] to [c'] and its functor with it. *)
Lemma tasks_step (base : loop_id) (cs : gmap conn_id connection) (q q' : loop_id -> list task) i (old : option connection) c' :
  cs !! i = old ->
  (forall l t, t ∈ q l <-> exists j c, cs !! j = Some c /\ task_of base j c = Some (l, t)) ->
  (forall l t, t ∈ q' l <->
     (t ∈ q l /\ (old ≫= task_of base i) <> Some (l, t)) \/ task_of base i c' = Some (l, t)) ->
  forall l t, t ∈ q' l <-> exists j c, <[i := c']> cs !! j = Some c /\ task_of base j c = Some (l, t).
Proof.
  intros Hold Hq Hq' l t. rewrite Hq', Hq. split.
  - intros [[(j & c & Hj & Ht) Hno]|Ht].
    + exists j, c. split; [|done]. rewrite lookup_insert_ne; [done|]. intros <-. rewrite <- Hold, Hj in Hno. done.
    + exists i, c'. by rewrite lookup_insert_eq.
  - intros (j & c & Hj & Ht). apply lookup_insert_Some in Hj as [[<- <-]|[Hne Hj]]; [by right|left].
    split; [by exists j, c|]. intros Ho. apply Hne. destruct old as [o|]; [|done]. simpl in Ho. by eapply task_of_id.
Qed.

(** No functor waits twice. *)
Lemma push_nodup base (cs : gmap conn_id connection) (q : list task) l t i c :
  NoDup q -> (forall t, t ∈ q -> exists j c, cs !! j = Some c /\ task_of base j c = Some (l, t)) ->
  task_of base i c = Some (l, t) -> (forall c, cs !! i = Some c -> task_of base i c <> Some (l, t)) -> NoDup (q ++ [t]).
Proof.
  intros Hn Hq Ht Hno. apply NoDup_app. split; [done|]. split; [|apply NoDup_singleton].
  intros t' Hin Ht'. apply list_elem_of_singleton in Ht' as ->. destruct (Hq t Hin) as (j & c' & Hj & Hjt).
  assert (i = j) as <- by (by eapply task_of_id). by apply (Hno c').
Qed.

(** The stage of a connection changes, in [connections_] and the queues. *)
Lemma stage_inv s s' i c st :
  server_inv s -> conns s !! i = Some c ->
  let c' := mkConnection (c_name c) (c_loop c) (c_fd c) st in
  name_ s' = name_ s -> threadPool_ s' = threadPool_ s -> started_ s' = started_ s -> listenning_ s' = listenning_ s ->
  nextConnId_ s' = nextConnId_ s -> conns s' = <[i := c']> (conns s) ->
  (forall n j, connections_ s' !! n = Some j <->
    if decide (j = i) then n = c_name c /\ st <> Removed /\ st <> Destroyed else connections_ s !! n = Some j) ->
  (forall l, NoDup (queue_of l s')) ->
  (forall l t, t ∈ queue_of l s' <->
     (t ∈ queue_of l s /\ task_of (baseLoop_ (threadPool_ s)) i c <> Some (l, t)) \/
     task_of (baseLoop_ (threadPool_ s)) i c' = Some (l, t)) ->
  server_inv s'.
Proof.
  intros [] Hc c' En Ep Es El Enx Ec Hmap Hnd Htasks.
  assert (started_ s = true) as Hst.
  { destruct (started_ s); [done|]. destruct (sv_before0 eq_refl) as (_ & _ & E & _). by rewrite E in Hc. }
  constructor; rewrite ?En, ?Ep, ?Es, ?El, ?Enx, ?Ec; try done; [by rewrite Hst| | | |].
  - intros j. rewrite lookup_insert_is_Some', <- sv_conns0. split; [intros [<-|?]; [by exists c|done]|by right].
  - intros j cj Hj. apply lookup_insert_Some in Hj as [[<- <-]|[_ Hj]]; [exact (sv_conn0 i c Hc)|by apply sv_conn0].
  - intros n j. rewrite Hmap. destruct (decide (j = i)) as [->|Hne].
    + split.
      * intros (-> & H1 & H2). exists c'. by rewrite lookup_insert_eq.
      * intros (cj & Hj & <- & H1 & H2). rewrite lookup_insert_eq in Hj. by injection Hj as <-.
    + rewrite sv_map0. split; intros (cj & Hj & ?); exists cj; rewrite lookup_insert_ne in * by congruence; done.
  - apply (tasks_step _ (conns s) (fun l => queue_of l s) (fun l => queue_of l s') i (Some c) c'); [done|done|].
    exact Htasks.
Qed.

Lemma map_same s i c st :
  server_inv s -> conns s !! i = Some c -> c_stage c <> Removed -> c_stage c <> Destroyed ->
  st <> Removed -> st <> Destroyed ->
  forall n j, connections_ s !! n = Some j <->
    if decide (j = i) then n = c_name c /\ st <> Removed /\ st <> Destroyed else connections_ s !! n = Some j.
Proof.
  intros [] Hc H1 H2 H3 H4 n j. destruct (decide (j = i)) as [->|]; [|done]. rewrite sv_map0. split.
  - intros (c' & Hc' & <- & _). rewrite Hc in Hc'. by injection Hc' as <-.
  - intros [-> _]. by exists c.
Qed.

Lemma set_stage_conns i st s c : conns s !! i = Some c ->
  conns (set_stage i st s) = <[i := mkConnection (c_name c) (c_loop c) (c_fd c) st]> (conns s).
Proof.
  intros Hc. unfold set_stage. simpl. apply map_eq. intros j. destruct (decide (j = i)) as [->|Hne].
  - by rewrite lookup_alter_eq, lookup_insert_eq, Hc.
  - by rewrite lookup_alter_ne, lookup_insert_ne by done.
Qed.

Lemma queue_of_stage l i st s : queue_of l (set_stage i st s) = queue_of l s.
Proof. done. Qed.

(** Taking the head of a queue. *)
Lemma pop_tasks s l0 t0 q :
  server_inv s -> queue_of l0 s = t0 :: q ->
  (forall l, NoDup (queue_of l (set_queues (<[l0 := q]> (queues s)) s))) /\
  (forall l t, t ∈ queue_of l (set_queues (<[l0 := q]> (queues s)) s) <-> t ∈ queue_of l s /\ (l0, t0) <> (l, t)).
Proof.
  intros [] Hq. pose proof (sv_nodup0 l0) as Hnd. rewrite Hq in Hnd. apply NoDup_cons in Hnd as [Hn Hnd]. split.
  - intros l. rewrite queue_of_insert. by destruct (decide (l = l0)).
  - intros l t. rewrite queue_of_insert. destruct (decide (l = l0)) as [->|Hne].
    + rewrite Hq, elem_of_cons. split; [|intros [[->|Hl] Hx]; done]. intros Hin. split; [by right|]. intros [= ->]. done.
    + split; [|tauto]. intros Hin. split; [done|]. congruence.
Qed.

(** ** Lemmas: events *)

Lemma established_step s s1 i c :
  server_inv s -> conns s !! i = Some c -> c_stage c = Created ->
  name_ s1 = name_ s -> threadPool_ s1 = threadPool_ s -> started_ s1 = started_ s -> listenning_ s1 = listenning_ s ->
  nextConnId_ s1 = nextConnId_ s -> connections_ s1 = connections_ s -> conns s1 = conns s ->
  (forall l, NoDup (queue_of l s1)) ->
  (forall l t, t ∈ queue_of l s1 <-> t ∈ queue_of l s /\ (c_loop c, EstablishTask i) <> (l, t)) ->
  exists s', connectEstablished i s1 = Ok s' /\ server_inv s'.
Proof.
  intros Hinv Hc Hst E1 E2 E3 E4 E5 E6 E7 Hnd Ht. unfold connectEstablished. rewrite E7, Hc. cbn [from_some mbind outcome_bind].
  rewrite bool_decide_eq_true_2 by done. cbn [assert_ mbind outcome_bind]. eexists. split; [done|].
  apply (stage_inv s _ i c Established Hinv Hc); try done; [| |].
  - rewrite (set_stage_conns i Established s1 c) by congruence. by rewrite E7.
  - cbn [connections_ set_stage set_conns]. rewrite E6. apply (map_same s i c Established Hinv Hc); by rewrite ?Hst.
  - intros l t. rewrite queue_of_stage, Ht. unfold task_of. rewrite Hst. cbn [c_stage]. split; [intros [Hin Hno]; left; split; [done|congruence]|].
    intros [[Hin Hno]|Hno]; [split; [done|congruence]|done].
Qed.

(** [removeConnectionInLoop], for a closed connection whose functor (if it
    waited) is gone. *)
Lemma remove_step s s1 i c c1 :
  server_inv s -> conns s !! i = Some c -> c_stage c <> Removed -> c_stage c <> Destroyed ->
  conns s1 !! i = Some c1 -> c_name c1 = c_name c -> c_loop c1 = c_loop c -> c_fd c1 = c_fd c ->
  name_ s1 = name_ s -> threadPool_ s1 = threadPool_ s -> started_ s1 = started_ s -> listenning_ s1 = listenning_ s ->
  nextConnId_ s1 = nextConnId_ s -> connections_ s1 = connections_ s ->
  (forall st, conns (set_stage i st s1) = <[i := mkConnection (c_name c) (c_loop c) (c_fd c) st]> (conns s)) ->
  (forall l, NoDup (queue_of l s1)) ->
  (forall l t, t ∈ queue_of l s1 <-> t ∈ queue_of l s /\ task_of (baseLoop_ (threadPool_ s)) i c <> Some (l, t)) ->
  exists s', removeConnectionInLoop i s1 = Ok s' /\ server_inv s'.
Proof.
  intros Hinv Hc Hst1 Hst2 Hc1 En El Ef E1 E2 E3 E4 E5 E6 E7 Hnd Ht. pose proof Hinv as [].
  unfold removeConnectionInLoop. rewrite Hc1. cbn [from_some mbind outcome_bind].
  assert (connections_ s !! c_name c = Some i) as Hin by (apply sv_map0; by exists c).
  rewrite E6, En, El. rewrite bool_decide_eq_true_2 by (by exists i). cbn [assert_ mbind outcome_bind].
  eexists. split; [done|].
  apply (stage_inv s _ i c Removed Hinv Hc); try done; [apply E7| | |].
  - intros n j. cbn [connections_ queueInLoop set_queues set_stage set_conns].
    destruct (decide (j = i)) as [->|Hne].
    + split; [|by intros (_ & ? & _)]. intros [Hn Hj]%lookup_delete_Some. apply sv_map0 in Hj as (c' & Hc' & <- & _).
      rewrite Hc in Hc'. by injection Hc' as <-.
    + rewrite lookup_delete_Some. split; [tauto|]. intros Hj. split; [|done]. intros <-.
      rewrite Hin in Hj. by injection Hj as <-.
  - intros l. unfold queueInLoop. rewrite queue_of_insert.
    destruct (decide (l = c_loop c)) as [->|]; [|apply Hnd]. rewrite queue_of_stage.
    apply NoDup_app. split; [apply Hnd|]. split; [|apply NoDup_singleton].
    intros t' Hin' Ht'. apply list_elem_of_singleton in Ht' as ->.
    assert (DestroyTask i ∈ queue_of (c_loop c) s) as Hq by (apply (Ht (c_loop c)), Hin').
    apply sv_tasks0 in Hq as (j & cj & Hj & Htj). unfold task_of in Htj. destruct (c_stage cj) eqn:Es; try done.
    injection Htj as _ ->. rewrite Hc in Hj. injection Hj as <-. done.
  - intros l t. unfold queueInLoop. rewrite queue_of_insert. rewrite queue_of_stage. unfold task_of at 2. cbn [c_stage c_loop].
    destruct (decide (l = c_loop c)) as [->|Hne].
    + rewrite elem_of_app, list_elem_of_singleton. etrans; [apply or_iff_compat_r, (Ht (c_loop c) t)|].
      split; [intros [Hx | ->]; [by left|by right]|intros [Hx | Hx]; [by left|right; congruence]].
    + etrans; [exact (Ht l t)|].
      split; [by left|intros [Hx | Hx]; [done|congruence]].
Qed.

Lemma getNextLoop_ok p n :
  1 <= n -> next_ p = (if bool_decide (loops_ p = []) then 0 else (n - 1) mod zlen (loops_ p)) ->
  exists p', getNextLoop p = Ok (nth_loop p (Z.to_nat n - 1), p') /\
    baseLoop_ p' = baseLoop_ p /\ pool_started_ p' = pool_started_ p /\ loops_ p' = loops_ p /\
    next_ p' = if bool_decide (loops_ p = []) then 0 else (n + 1 - 1) mod zlen (loops_ p).
Proof.
  intros Hn Hr. unfold getNextLoop, nth_loop. destruct (loops_ p) as [|l0 ls] eqn:El; [by exists p|].
  set (L := l0 :: ls) in *. rewrite bool_decide_eq_false_2 in * by done.
  assert (0 < zlen L) as HL by (unfold zlen, L; simpl; lia).
  pose proof (Z.mod_pos_bound (n - 1) (zlen L) HL) as Hb.
  rewrite (proj2 (Z.leb_le 0 (next_ p))) by lia. cbn [defined_ mbind outcome_bind].
  assert (Z.to_nat (next_ p) = (Z.to_nat n - 1) mod length L)%nat as Ei.
  { rewrite Hr. apply Nat2Z.inj. rewrite Nat2Z.inj_mod. rewrite Z2Nat.id by lia. f_equal. lia. }
  assert (Z.to_nat (next_ p) < length L)%nat as Hlt.
  { rewrite Ei. apply Nat.mod_upper_bound. done. }
  destruct (lookup_lt_is_Some_2 _ _ Hlt) as [x Hx]. rewrite Hx. cbn [from_some mbind outcome_bind].
  eexists. split; [|split_and!].
  - rewrite <- Ei. by rewrite (nth_lookup_Some L _ l0 x Hx).
  - done.
  - done.
  - done.
  - cbn [next_]. rewrite Hr. rewrite (Z.add_sub_swap n 1 1).
    destruct (Z.leb_spec (zlen L) ((n - 1) mod zlen L + 1)) as [H|H].
    + rewrite <- (Z.add_mod_idemp_l (n - 1)) by lia. replace ((n - 1) mod zlen L + 1) with (zlen L) by lia.
      by rewrite Z.mod_same by lia.
    + rewrite <- (Z.add_mod_idemp_l (n - 1)) by lia. by rewrite (Z.mod_small (_ + 1)) by lia.
Qed.

Lemma nth_loop_eq p q k : loops_ p = loops_ q -> baseLoop_ p = baseLoop_ q -> nth_loop p k = nth_loop q k.
Proof. unfold nth_loop. by intros -> ->. Qed.

(** The state after [newConnection], were [connectEstablished] always to
    wait in the loop's functors. *)
Definition accepted (fd : Z) (l : loop_id) (p : EventLoopThreadPool) (s : TcpServer) : TcpServer :=
  set_pool p (set_conns (nextConnId_ s + 1) (<[conn_name (name_ s) (nextConnId_ s) := Z.to_pos (nextConnId_ s)]> (connections_ s))
    (<[Z.to_pos (nextConnId_ s) := mkConnection (conn_name (name_ s) (nextConnId_ s)) l fd Created]> (conns s)) s).

Lemma accepted_task s t l :
  server_inv s -> t ∈ queue_of l s -> t <> EstablishTask (Z.to_pos (nextConnId_ s)).
Proof.
  intros [] Hin ->. apply sv_tasks0 in Hin as (j & c & Hj & Ht). unfold task_of in Ht.
  assert (is_Some (conns s !! j)) as Hi by by exists c. apply sv_conns0 in Hi.
  destruct (c_stage c); try done. injection Ht as _ ->. lia.
Qed.

Lemma accepted_inv s fd p :
  server_inv s -> started_ s = true -> nextConnId_ s + 1 < 2 ^ 31 ->
  baseLoop_ p = baseLoop_ (threadPool_ s) -> pool_started_ p = pool_started_ (threadPool_ s) -> loops_ p = loops_ (threadPool_ s) ->
  next_ p = (if bool_decide (loops_ (threadPool_ s) = []) then 0 else (nextConnId_ s + 1 - 1) mod zlen (loops_ (threadPool_ s))) ->
  let l := nth_loop (threadPool_ s) (Z.to_nat (nextConnId_ s) - 1) in
  server_inv (queueInLoop l (EstablishTask (Z.to_pos (nextConnId_ s))) (accepted fd l p s)).
Proof.
  intros Hinv Hst Hlt Eb Eps El En l. pose proof Hinv as []. set (i := Z.to_pos (nextConnId_ s)).
  assert (Z.pos i = nextConnId_ s) as Ei by (unfold i; lia).
  assert (conns s !! i = None) as Hnone.
  { destruct (conns s !! i) eqn:E; [|done]. assert (is_Some (conns s !! i)) as Hs%sv_conns0 by (by rewrite E). lia. }
  constructor; cbn [nextConnId_ started_ threadPool_ listenning_ conns connections_ name_ queueInLoop accepted set_pool set_conns set_queues];
    rewrite ?Eb, ?Eps, ?El, ?En; fold i; try done.
  - lia.
  - by rewrite Hst.
  - intros j. rewrite lookup_insert_is_Some', sv_conns0. split; [intros [<-|?]; [rewrite Ei|]; lia|]. intros Hj.
    destruct (decide (i = j)); [by left|right; lia].
  - intros j c Hj. apply lookup_insert_Some in Hj as [[<- <-]|[_ Hj]].
    + cbn [c_name c_loop]. rewrite Ei. split; [done|]. rewrite (nth_loop_eq p (threadPool_ s)) by done. unfold l. f_equal. unfold i. lia.
    + destruct (sv_conn0 j c Hj) as [-> ->]. split; [done|]. symmetry. by apply nth_loop_eq.
  - intros n j. rewrite lookup_insert_Some, sv_map0. split.
    + intros [[<- <-]|[Hne (c & Hc & H)]].
      * eexists. rewrite lookup_insert_eq. by split_and!.
      * exists c. rewrite lookup_insert_ne by congruence. done.
    + intros (c & Hc & Hn & H1 & H2). apply lookup_insert_Some in Hc as [[<- <-]|[Hne Hc]]; [by left|right].
      split; [|by exists c]. intros E. apply Hne. destruct (sv_conn0 j c Hc) as [Ename _].
      assert (Z.pos j < nextConnId_ s) as Hj by (apply sv_conns0; by exists c).
      rewrite <- Hn, Ename in E. apply conn_name_inj in E; lia.
  - intros l'. unfold queueInLoop. rewrite queue_of_insert. destruct (decide (l' = l)) as [->|]; [|apply sv_nodup0].
    apply NoDup_app. split; [apply sv_nodup0|]. split; [|apply NoDup_singleton].
    intros t Hin ->%list_elem_of_singleton. by apply (accepted_task s _ l Hinv Hin).
  - apply (tasks_step _ (conns s) (fun l => queue_of l s) _ i None); [done|done|].
    intros l' t. unfold queueInLoop. rewrite queue_of_insert. cbn [task_of c_stage c_loop].
    destruct (decide (l' = l)) as [->|Hne].
    + rewrite elem_of_app, list_elem_of_singleton. split; [intros [Hx | ->]; [by left|by right]|intros [[Hx _]|Hx]; [by left|right; congruence]].
    + split; [by left|intros [[Hx _]|Hx]; [done|congruence]].
Qed.

Lemma new_ok s fd :
  server_inv s -> listenning_ s = true -> nextConnId_ s + 1 < 2 ^ 31 -> exists s', newConnection fd s = Ok s' /\ server_inv s'.
Proof.
  intros Hinv Hl Hlt. pose proof Hinv as [].
  destruct (getNextLoop_ok (threadPool_ s) (nextConnId_ s) (proj1 sv_next0) sv_robin0) as (p & Ep & Eb & Eps & El & En).
  pose proof (accepted_inv s fd p Hinv (sv_listen0 Hl) Hlt Eb Eps El En) as Hacc. cbv zeta in Hacc.
  unfold newConnection. rewrite (proj2 (Z.ltb_lt _ _) Hlt). cbn [defined_ mbind outcome_bind]. rewrite Ep.
  cbn [mbind outcome_bind].
  set (l := nth_loop (threadPool_ s) _) in *. fold (accepted fd l p s).
  destruct (bool_decide (l = baseLoop_ p)) eqn:Ebase; [|by eexists].
  set (i := Z.to_pos (nextConnId_ s)) in *. set (c := mkConnection (conn_name (name_ s) (nextConnId_ s)) l fd Created).
  assert (conns (accepted fd l p s) !! i = Some c) as Hc by (simpl; by rewrite lookup_insert_eq).
  apply (established_step _ _ i c Hacc Hc); try done.
  intros l' t. unfold queueInLoop. rewrite queue_of_insert. cbn [c c_loop]. destruct (decide (l' = l)) as [->|Hne].
  - rewrite elem_of_app, list_elem_of_singleton. split.
    + intros Hin. split; [by left|]. intros [= E]. by apply (accepted_task s t l Hinv Hin).
    + intros [[Hx | ->] Hno]; [done|congruence].
  - split; [intros Hx; split; [done|congruence]|tauto].
Qed.

Lemma closes_ok s i c :
  server_inv s -> conns s !! i = Some c -> c_stage c = Established -> exists s', removeConnection i s = Ok s' /\ server_inv s'.
Proof.
  intros Hinv Hc Hst. pose proof Hinv as []. unfold removeConnection. rewrite Hc. cbn [from_some mbind outcome_bind].
  change (threadPool_ (set_stage i Closed s)) with (threadPool_ s).
  assert (forall l t, task_of (baseLoop_ (threadPool_ s)) i c <> Some (l, t)) as Hno by (intros; unfold task_of; by rewrite Hst).
  destruct (bool_decide (c_loop c = _)) eqn:Eb.
  - apply (remove_step s (set_stage i Closed s) i c (mkConnection (c_name c) (c_loop c) (c_fd c) Closed) Hinv Hc); try done; try (by rewrite Hst).
    + by rewrite (set_stage_conns i Closed s c Hc), lookup_insert_eq.
    + intros st. rewrite (set_stage_conns i st _ (mkConnection (c_name c) (c_loop c) (c_fd c) Closed)).
      * by rewrite (set_stage_conns i Closed s c Hc), insert_insert_eq.
      * by rewrite (set_stage_conns i Closed s c Hc), lookup_insert_eq.
    + intros l t. rewrite queue_of_stage. split; [|tauto]. done.
  - eexists. split; [done|]. apply (stage_inv s _ i c Closed Hinv Hc); try done.
    + by rewrite <- (set_stage_conns i Closed s c Hc).
    + apply (map_same s i c Closed Hinv Hc); by rewrite ?Hst.
    + intros l. unfold queueInLoop. rewrite queue_of_insert. destruct (decide _) as [->|]; [|apply sv_nodup0].
      rewrite queue_of_stage. eapply (push_nodup (baseLoop_ (threadPool_ s)) (conns s) _ _ _ i (mkConnection (c_name c) (c_loop c) (c_fd c) Closed)); [apply sv_nodup0| |done|].
      * intros t. apply sv_tasks0.
      * intros c'. rewrite Hc. by intros [= <-].
    + intros l t. unfold queueInLoop. rewrite queue_of_insert, queue_of_stage. unfold task_of at 2. cbn [c_stage].
      destruct (decide _) as [->|Hne].
      * rewrite elem_of_app, list_elem_of_singleton.
        split; [intros [Hx | ->]; [by left|by right]|intros [[Hx _]|Hx]; [by left|right; congruence]].
      * split; [by left|intros [[Hx _]|Hx]; [done|congruence]].
Qed.

Lemma server_runTask_ok s l : server_inv s -> exists s', runTask l s = Ok s' /\ server_inv s'.
Proof.
  intros Hinv. unfold runTask. destruct (queue_of l s) as [|t0 q] eqn:Hq; [by exists s|].
  destruct (pop_tasks s l t0 q Hinv Hq) as [Hnd Ht]. pose proof Hinv as [].
  assert (t0 ∈ queue_of l s) as Hin by (rewrite Hq; left).
  apply sv_tasks0 in Hin as (i & c & Hc & Htask). pose proof Htask as Htask'. unfold task_of in Htask.
  destruct (c_stage c) eqn:Hst; try done; injection Htask as <- <-.
  - apply (established_step s _ i c Hinv Hc); try done.
  - apply (remove_step s _ i c c Hinv Hc); try done; try (by rewrite Hst).
    + intros st. exact (set_stage_conns i st _ c Hc).
    + intros l t. rewrite Ht, Htask'. split; intros [Hx Hy]; (split; [done|congruence]).
  - unfold connectDestroyed. cbn [conns set_queues]. rewrite Hc. cbn [from_some mbind outcome_bind].
    rewrite bool_decide_eq_true_2 by (by rewrite Hst). cbn [assert_ mbind outcome_bind]. eexists. split; [done|].
    apply (stage_inv s _ i c Destroyed Hinv Hc); try done.
    + exact (set_stage_conns i Destroyed _ c Hc).
    + intros n j. cbn [connections_ set_stage set_conns set_queues]. destruct (decide (j = i)) as [->|]; [|done].
      rewrite sv_map0. split; [|by intros (_ & _ & ?)]. intros (c' & Hc' & _ & ? & _). rewrite Hc in Hc'. by injection Hc' as <-.
    + intros l t. rewrite queue_of_stage, Ht, Htask'. unfold task_of. cbn [c_stage].
      split; [intros [Hx Hy]; left; split; [done|congruence]|intros [[Hx Hy]|Hx]; [split; [done|congruence]|done]].
Qed.

Lemma started_false s : server_inv s -> started_ s = false -> listenning_ s = false.
Proof. intros [] Hs. destruct (listenning_ s); [|done]. rewrite Hs in sv_listen0. by specialize (sv_listen0 eq_refl). Qed.

Lemma listen_inv s : server_inv s -> started_ s = true -> server_inv (listen s).
Proof. intros [] Hs. by constructor. Qed.

Lemma start_ok s b f : server_inv s -> b || started_ s = true -> exists s', start b f s = Ok s' /\ server_inv s'.
Proof.
  intros Hinv Hb. unfold start. pose proof Hinv as []. destruct (started_ s) eqn:Hs; cbn [negb mbind outcome_bind].
  - destruct (listenning_ s); eexists; (split; [done|]); [done|by apply listen_inv].
  - rewrite orb_false_r in Hb. subst b. unfold pool_start. rewrite <- sv_pool0. cbn [negb assert_ mbind outcome_bind listenning_ set_pool set_started].
    rewrite (started_false s Hinv Hs). eexists. split; [done|].
    destruct (sv_before0 eq_refl) as (El & En & Ec & Eid). apply listen_inv; [|done].
    constructor; cbn [nextConnId_ started_ threadPool_ listenning_ conns connections_ name_ set_pool set_started]; try done.
    + cbn [next_ loops_]. rewrite Eid, En. match goal with |- _ = (if ?b then _ else _) => destruct b end; [done|]. change (1 - 1) with 0; by rewrite Zmod_0_l.
    + intros i c. by rewrite Ec.
Qed.

Lemma server_event_ok s e : server_inv s -> legal s e = true -> exists s', run_event s e = Ok s' /\ server_inv s'.
Proof.
  intros Hinv Hl. destruct e as [n|b f|fd|i|l]; cbn [legal run_event] in *.
  - apply andb_true_iff in Hl as [Hn Hs]. apply negb_true_iff in Hs. unfold setThreadNum. rewrite Hn.
    cbn [assert_ mbind outcome_bind]. eexists. split; [done|]. destruct Hinv. by constructor.
  - by apply start_ok.
  - apply andb_true_iff in Hl as [Hl Hlt%Z.ltb_lt]. by apply new_ok.
  - destruct (conns s !! i) as [c|] eqn:Hc; [|done]. apply bool_decide_eq_true in Hl. by eapply closes_ok.
  - by apply server_runTask_ok.
Qed.

Lemma new_inv base hp : server_inv (new_TcpServer base hp).
Proof.
  constructor; cbn; try done.
  - intros i. rewrite lookup_empty, is_Some_alt. split; [done|lia].
  - intros n i. rewrite lookup_empty. split; [done|]. intros (c & Hc & _). by rewrite lookup_empty in Hc.
  - intros l. unfold queue_of. cbn. rewrite lookup_empty. apply NoDup_nil_2.
  - intros l t. unfold queue_of. cbn. rewrite lookup_empty. cbn [default]. split; [intros H; by apply elem_of_nil in H|].
    intros (i & c & Hc & _). by rewrite lookup_empty in Hc.
Qed.

Lemma run_ok es s : server_inv s -> legal_run s es = true -> exists s', foldM run_event s es = Ok s' /\ server_inv s'.
Proof.
  induction es as [|e es IH] in s |- *; intros Hinv Hl; [by exists s|]. cbn [legal_run] in Hl.
  apply andb_true_iff in Hl as [He Hl]. destruct (server_event_ok s e Hinv He) as (s1 & E1 & H1). rewrite E1 in Hl.
  destruct (IH s1 H1 Hl) as (s' & E' & H'). exists s'. split; [|done]. cbn [foldM]. by rewrite E1.
Qed.

(** Two connections have two names. *)
Lemma names_unique s i j c c' :
  server_inv s -> conns s !! i = Some c -> conns s !! j = Some c' -> c_name c = c_name c' -> i = j.
Proof.
  intros [] Hi Hj En. destruct (sv_conn0 i c Hi) as [Ei _], (sv_conn0 j c' Hj) as [Ej _].
  assert (Z.pos i < nextConnId_ s) by (apply sv_conns0; by exists c).
  assert (Z.pos j < nextConnId_ s) by (apply sv_conns0; by exists c').
  rewrite Ei, Ej in En. apply conn_name_inj in En; lia.
Qed.


(** [connections_.erase] finds a connection only once. *)
Lemma removed_twice s i c :
  server_inv s -> conns s !! i = Some c -> c_stage c = Removed \/ c_stage c = Destroyed ->
  removeConnectionInLoop i s = Fail AssertFail.
Proof.
  intros Hinv Hc Hst. unfold removeConnectionInLoop. rewrite Hc. cbn [from_some mbind outcome_bind].
  rewrite bool_decide_eq_false_2; [done|]. intros [j Hj]. pose proof Hinv as [].
  apply sv_map0 in Hj as (c' & Hj & En & Hr & Hd). assert (j = i) as -> by (by apply (names_unique s j i c' c)).
  rewrite Hc in Hj. injection Hj as <-. by destruct Hst.
Qed.

Lemma idle_stage s i c :
  server_inv s -> (forall l, queue_of l s = []) -> conns s !! i = Some c -> c_stage c = Established \/ c_stage c = Destroyed.
Proof.
  intros [] Hq Hc.
  destruct (task_of (baseLoop_ (threadPool_ s)) i c) as [[l t]|] eqn:Et.
  - assert (t ∈ queue_of l s) as H by (apply sv_tasks0; by exists i, c). rewrite Hq in H. by apply elem_of_nil in H.
  - unfold task_of in Et. destruct (c_stage c); try done; auto.
Qed.

(** ** Properties *)

(** C17: for every sequence of events (threads set before [start], the first
    [start] in the base loop's thread, connections accepted while listening,
    each established connection closed once by its peer, functors run by any
    loop at any moment) no assertion of the server, the pool or the
    connections fails: in particular [connectEstablished] runs once, before
    the close, and [connectDestroyed] once, after the connection left
    [connections_].  Connections have distinct names; the [k]-th one lives in
    loop [k mod n] of the pool, or in the base loop when there is no pool;
    [connections_] holds exactly those not yet removed; and a functor waits
    for a connection exactly when its stage says so, in the loop it must run
    in.  Removing a connection that was removed before, which is what a second
    close does, fails an assertion; and so does (fatally) a first [start] in
    another thread. *)
Theorem server_sound base hostPort es :
  legal_run (new_TcpServer base hostPort) es = true ->
  exists s, foldM run_event (new_TcpServer base hostPort) es = Ok s /\
    (forall i j c c', conns s !! i = Some c -> conns s !! j = Some c' -> c_name c = c_name c' -> i = j) /\
    (forall i c, conns s !! i = Some c -> c_loop c = nth_loop (threadPool_ s) (Pos.to_nat i - 1)) /\
    (forall n i, connections_ s !! n = Some i <->
       exists c, conns s !! i = Some c /\ c_name c = n /\ c_stage c <> Removed /\ c_stage c <> Destroyed) /\
    (forall l t, t ∈ queue_of l s <->
       exists i c, conns s !! i = Some c /\ task_of (baseLoop_ (threadPool_ s)) i c = Some (l, t)) /\
    (forall i c, conns s !! i = Some c -> c_stage c = Removed \/ c_stage c = Destroyed ->
       removeConnectionInLoop i s = Fail AssertFail) /\
    (started_ s = false -> forall f, start false f s = Fail LogFatal).
Proof.
  intros Hl. destruct (run_ok es _ (new_inv base hostPort) Hl) as (s & E & Hinv). exists s. split; [done|].
  split; [intros i j c c'; by apply names_unique|]. pose proof Hinv as []. split_and!; [|done|done| |].
  - intros i c Hc. apply (sv_conn0 i c Hc).
  - intros i c Hc Hst. by apply (removed_twice s i c).
  - intros Hs f. unfold start, pool_start. rewrite Hs, <- sv_pool0, Hs. done.
Qed.

Definition demo_events : list event :=
  [SetThreadNum 2; Start true (fun i => Z.to_pos (i + 2)); NewConnection 7; NewConnection 8; NewConnection 9;
   RunTask 2; RunTask 3; RunTask 2; PeerCloses 1; RunTask 1; RunTask 2].

Definition demo_end : TcpServer :=
  match foldM run_event (new_TcpServer 1 (bs "h")) demo_events with Ok s => s | _ => new_TcpServer 1 [] end.

Lemma server_sound_witness :
  legal_run (new_TcpServer 1 (bs "h")) demo_events = true /\
  (forall i j c c', conns demo_end !! i = Some c -> conns demo_end !! j = Some c' -> c_name c = c_name c' -> i = j) /\
  removeConnectionInLoop 1 demo_end = Fail AssertFail.
Proof.
  assert (legal_run (new_TcpServer 1 (bs "h")) demo_events = true) as Hl by (vm_compute; reflexivity).
  split; [exact Hl|].
  destruct (server_sound 1 (bs "h") demo_events Hl) as (s & E & Hn & _ & _ & _ & Hr & _).
  assert (demo_end = s) as <- by (unfold demo_end; by rewrite E).
  split; [exact Hn|]. destruct (conns demo_end !! 1%positive) as [c|] eqn:Hc; [|by vm_compute in Hc].
  apply (Hr 1%positive c Hc). right. vm_compute in Hc. injection Hc as <-. reflexivity.
Defined.

(** The loops and the stages of the three connections of that run. *)
Example demo_stages :
  (s ← foldM run_event (new_TcpServer 1 (bs "h")) demo_events;
   Ok (map (fun i => match conns s !! i with Some c => Some (c_loop c, c_stage c) | None => None end) [1%positive; 2%positive; 3%positive]))
  = Ok [Some (2%positive, Destroyed); Some (3%positive, Established); Some (2%positive, Established)].
Proof. vm_compute. reflexivity. Qed.

(** Once no functor waits anywhere, every connection is established and in
    [connections_], or destroyed and not in it. *)
Lemma idle_server base hostPort es s :
  legal_run (new_TcpServer base hostPort) es = true -> foldM run_event (new_TcpServer base hostPort) es = Ok s ->
  (forall l, queue_of l s = []) ->
  forall i c, conns s !! i = Some c ->
    (c_stage c = Established /\ connections_ s !! c_name c = Some i) \/ (c_stage c = Destroyed /\ connections_ s !! c_name c = None).
Proof.
  intros Hl E Hq i c Hc. destruct (run_ok es _ (new_inv base hostPort) Hl) as (s0 & E0 & Hinv). rewrite E in E0. injection E0 as <-.
  destruct (idle_stage s i c Hinv Hq Hc) as [Hst|Hst]; [left|right]; (split; [done|]).
  - destruct Hinv. apply sv_map0. exists c. by rewrite Hst.
  - destruct (connections_ s !! c_name c) as [j|] eqn:Ej; [|done]. pose proof (names_unique s j i) as Hu.
    pose proof Hinv as []. apply sv_map0 in Ej as (c' & Hj & En & _ & Hd). assert (j = i) as -> by (by apply (Hu c' c)).
    rewrite Hc in Hj. by injection Hj as <-.
Qed.

(** [start], called first from another thread than the base loop's, is
    fatal. *)
Lemma start_elsewhere base hostPort f : start false f (new_TcpServer base hostPort) = Fail LogFatal.
Proof. reflexivity. Qed.
