(* ===== verification/TcpClient.v ===== *)
(** * TcpClient: a connector and the connection it makes

    Models [muduo::TcpClient] of [reactor/s13/TcpClient.h] and
    [TcpClient.cc] on top of [Connector.v]: the client adopts the socket its
    connector hands over, gives it back to the loop when the peer closes,
    reconnects when it was told to, and can be destroyed at any moment.
    [boost::shared_ptr] is modelled by who holds a reference: the client, the
    functor that will run [connectDestroyed], and the user.  Of a connection
    its [state_], whether its channel is registered and its close callback
    count; [TcpConnection.v] is about the rest. *)
From S2P Require Import Prelude CFormat.
From S2P Require Connector TcpConnection.
From Stdlib Require Import Strings.Byte.

#[local] Existing Instances TcpConnection.StateE_eq_dec Connector.States_eq_dec Connector.task_eq_dec.

Abbreviation conn_id := positive.

(** [closeCallback_]: [TcpClient::removeConnection] bound to the client, or
    [detail::removeConnection]. *)
Inductive close_callback := ToClient | Detached.

#[export] Instance close_callback_eq_dec : EqDecision close_callback.
Proof. solve_decision. Defined.

(** [c_alive]: the object exists; its destructor closes [c_fd]. *)
Record connection := mkConnection {
  c_name : list byte;
  c_fd : positive;
  c_state : TcpConnection.StateE;
  c_registered : bool;
  c_close : close_callback;
  c_alive : bool;
}.

(** [conns]: the connections ever made, by their number; [destroying]: the
    functors [connectDestroyed] that wait in the loop; [kept]: the
    connections the user holds a pointer to. [alive], [connector_alive]:
    the client and its connector still exist. *)
Record TcpClient := mkTcpClient {
  connector_ : Connector.Connector;
  retry_ : bool;
  connect_ : bool;
  nextConnId_ : Z;
  connection_ : option conn_id;
  conns : gmap conn_id connection;
  destroying : list conn_id;
  kept : gset conn_id;
  alive : bool;
  connector_alive : bool;
}.

Definition new_TcpClient : TcpClient :=
  mkTcpClient Connector.new_Connector false true 1 None ∅ [] ∅ true true.

Definition set_connector c s := mkTcpClient c (retry_ s) (connect_ s) (nextConnId_ s) (connection_ s)
  (conns s) (destroying s) (kept s) (alive s) (connector_alive s).
Definition enableRetry s := mkTcpClient (connector_ s) true (connect_ s) (nextConnId_ s) (connection_ s)
  (conns s) (destroying s) (kept s) (alive s) (connector_alive s).
Definition set_connect v s := mkTcpClient (connector_ s) (retry_ s) v (nextConnId_ s) (connection_ s)
  (conns s) (destroying s) (kept s) (alive s) (connector_alive s).
Definition set_connection v s := mkTcpClient (connector_ s) (retry_ s) (connect_ s) (nextConnId_ s) v
  (conns s) (destroying s) (kept s) (alive s) (connector_alive s).
Definition set_conns n m s := mkTcpClient (connector_ s) (retry_ s) (connect_ s) n (connection_ s)
  m (destroying s) (kept s) (alive s) (connector_alive s).
Definition set_destroying q s := mkTcpClient (connector_ s) (retry_ s) (connect_ s) (nextConnId_ s) (connection_ s)
  (conns s) q (kept s) (alive s) (connector_alive s).
Definition set_kept k s := mkTcpClient (connector_ s) (retry_ s) (connect_ s) (nextConnId_ s) (connection_ s)
  (conns s) (destroying s) k (alive s) (connector_alive s).
Definition set_alive v w s := mkTcpClient (connector_ s) (retry_ s) (connect_ s) (nextConnId_ s) (connection_ s)
  (conns s) (destroying s) (kept s) v w.

(** ** Connections *)

Definition with_state v c := mkConnection (c_name c) (c_fd c) v (c_registered c) (c_close c) (c_alive c).
Definition with_registered v c := mkConnection (c_name c) (c_fd c) (c_state c) v (c_close c) (c_alive c).
Definition setCloseCallback v c := mkConnection (c_name c) (c_fd c) (c_state c) (c_registered c) v (c_alive c).
Definition with_alive v c := mkConnection (c_name c) (c_fd c) (c_state c) (c_registered c) (c_close c) v.

Definition update_conn (f : connection -> connection) (i : conn_id) (s : TcpClient) : TcpClient :=
  set_conns (nextConnId_ s) (alter f i (conns s)) s.

(** [state_ == kConnected || state_ == kDisconnecting]. *)
Definition is_up (c : connection) : bool :=
  bool_decide (c_state c = TcpConnection.kConnected) || bool_decide (c_state c = TcpConnection.kDisconnecting).

(** Access through a pointer to a connection. *)
Definition deref (i : conn_id) (s : TcpClient) : outcome connection :=
  c ← from_some Undefined (conns s !! i);
  if c_alive c then Ok c else Fail Undefined.

Definition connectEstablished (i : conn_id) (s : TcpClient) : outcome TcpClient :=
  c ← deref i s;
  _ ← assert_ (bool_decide (c_state c = TcpConnection.kConnecting));
  Ok (update_conn (fun c => with_registered true (with_state TcpConnection.kConnected c)) i s).

Definition shutdown (i : conn_id) (s : TcpClient) : outcome TcpClient :=
  c ← deref i s;
  if bool_decide (c_state c = TcpConnection.kConnected)
  then Ok (update_conn (with_state TcpConnection.kDisconnecting) i s) else Ok s.

(** The references to a connection. *)
Definition referenced (i : conn_id) (s : TcpClient) : bool :=
  bool_decide (connection_ s = Some i) || bool_decide (i ∈ destroying s) || bool_decide (i ∈ kept s).

(** A reference went away. With the last one the connection is destroyed; if
    its channel is still registered then the poller keeps a pointer to a
    channel that is gone. *)
Definition release (i : conn_id) (s : TcpClient) : outcome TcpClient :=
  if referenced i s then Ok s
  else
    c ← deref i s;
    _ ← defined_ (negb (c_registered c));
    Ok (update_conn (with_alive false) i s).

Definition connectDestroyed (i : conn_id) (s : TcpClient) : outcome TcpClient :=
  c ← deref i s;
  _ ← assert_ (is_up c);
  Ok (update_conn (fun c => with_registered false (with_state TcpConnection.kDisconnected c)) i s).

(** ** The client *)

Definition queueInLoop (i : conn_id) (s : TcpClient) : TcpClient := set_destroying (destroying s ++ [i]) s.

(** A call of the connector. *)
Definition with_connector (f : Connector.Connector -> outcome Connector.Connector) (s : TcpClient) : outcome TcpClient :=
  _ ← defined_ (connector_alive s);
  c ← f (connector_ s);
  Ok (set_connector c s).

(** [connect] in the loop's thread and in another one. *)
Definition connect (savedErrno : Z) (s : TcpClient) : outcome TcpClient :=
  with_connector (Connector.start savedErrno) (set_connect true s).
Definition connect_other (s : TcpClient) : outcome TcpClient :=
  with_connector (fun c => Ok (Connector.start_other c)) (set_connect true s).

Definition disconnect (s : TcpClient) : outcome TcpClient :=
  let s := set_connect false s in
  match connection_ s with Some i => shutdown i s | None => Ok s end.

Definition stop (s : TcpClient) : outcome TcpClient :=
  with_connector (fun c => Ok (Connector.stop c)) (set_connect false s).

(** [snprintf(buf, sizeof buf, ":%s#%d", peerAddr.toHostPort().c_str(), nextConnId_)]. *)
Definition conn_name (peer : list byte) (n : Z) : list byte :=
  snprintf 32 (bs ":" ++ peer ++ bs "#" ++ fmt_d 0 n).

Definition newConnection (peer : list byte) (sockfd : positive) (s : TcpClient) : outcome TcpClient :=
  _ ← defined_ (alive s && (nextConnId_ s + 1 <? 2 ^ 31));
  let i := Z.to_pos (nextConnId_ s) in
  let conn := mkConnection (conn_name peer (nextConnId_ s)) sockfd TcpConnection.kConnecting false ToClient true in
  let s := set_conns (nextConnId_ s + 1) (<[i := conn]> (conns s)) s in
  let old := connection_ s in
  let s := set_connection (Some i) s in
  s ← match old with Some j => release j s | None => Ok s end;
  connectEstablished i s.

Definition removeConnection (savedErrno : Z) (i : conn_id) (s : TcpClient) : outcome TcpClient :=
  _ ← defined_ (alive s);
  _ ← assert_ (bool_decide (connection_ s = Some i));
  let s := queueInLoop i (set_connection None s) in
  if retry_ s && connect_ s then with_connector (Connector.restart savedErrno) s else Ok s.

(** [TcpConnection::handleClose] up to the close callback, and that. *)
Definition handleClose (savedErrno : Z) (i : conn_id) (s : TcpClient) : outcome TcpClient :=
  c ← deref i s;
  _ ← assert_ (is_up c);
  let s := update_conn (with_registered false) i s in
  match c_close c with
  | ToClient => removeConnection savedErrno i s
  | Detached => Ok (queueInLoop i s)
  end.

Definition runDestroy (s : TcpClient) : outcome TcpClient :=
  match destroying s with
  | [] => Ok s
  | i :: q => s ← connectDestroyed i s; release i (set_destroying q s)
  end.

(** [Connector::~Connector]. *)
Definition drop_connector (s : TcpClient) : outcome TcpClient :=
  _ ← defined_ (connector_alive s);
  let c := Connector.cancel_timer (connector_ s) in
  _ ← assert_ (bool_decide (Connector.channel_ c = None));
  Ok (set_alive (alive s) false (set_connector c s)).

(** The destructor, in the loop's thread: without a connection the connector
    lives on for a second, in [loop_->runAfter(1, removeConnector)]. *)
Definition destroy (s : TcpClient) : outcome TcpClient :=
  match connection_ s with
  | Some i =>
      let s := update_conn (setCloseCallback Detached) i s in
      s ← release i (set_alive false (connector_alive s) (set_connection None s));
      drop_connector s
  | None =>
      s ← with_connector (fun c => Ok (Connector.stop c)) s;
      Ok (set_alive false (connector_alive s) s)
  end.

(** What the connector does on its own; a socket it hands over goes to
    [newConnection]. *)
Definition connector_event (peer : list byte) (e : Connector.event) (s : TcpClient) : outcome TcpClient :=
  _ ← defined_ (connector_alive s);
  c ← Connector.run_event (connector_ s) e;
  let given := elements (Connector.handed c ∖ Connector.handed (connector_ s)) in
  let s := set_connector c s in
  match given with fd :: _ => newConnection peer fd s | [] => Ok s end.

(** What happens to a client. *)
Inductive event :=
| Connect (savedErrno : Z)
| ConnectOther
| Disconnect
| Stop
| EnableRetry
| ConnectorEvent (peer : list byte) (e : Connector.event)
| PeerCloses (savedErrno : Z) (i : conn_id)
| RunDestroy
| Keep (i : conn_id)
| Drop (i : conn_id)
| Destroy
| SecondPasses.

Definition run_event (s : TcpClient) (e : event) : outcome TcpClient :=
  match e with
  | Connect errno => connect errno s
  | ConnectOther => connect_other s
  | Disconnect => disconnect s
  | Stop => stop s
  | EnableRetry => Ok (enableRetry s)
  | ConnectorEvent peer e => connector_event peer e s
  | PeerCloses errno i => handleClose errno i s
  | RunDestroy => runDestroy s
  | Keep i => Ok (set_kept ({[i]} ∪ kept s) s)
  | Drop i => release i (set_kept (kept s ∖ {[i]}) s)
  | Destroy => destroy s
  | SecondPasses => drop_connector s
  end.

(** The events the loop brings: a functor that waits, a timer that waits, a
    registered channel. *)
Definition pending (c : Connector.Connector) (e : Connector.event) : bool :=
  match e with
  | Connector.RunTask _ => negb (bool_decide (Connector.queued c = []))
  | Connector.TimerFires _ _ | Connector.Ready _ _ _ _ => Connector.legal c e
  | _ => false
  end.

(** The intended use: [connect] while nothing is under way and no connection
    stands; the client is destroyed once, between two iterations of the
    loop, and either it has no connection or the user holds a pointer to it;
    a connection attempt that is under way then ends within the second. *)
Definition legal (s : TcpClient) (e : event) : bool :=
  match e with
  | Connect _ | ConnectOther => alive s && Connector.idle (connector_ s)
  | Disconnect | Stop | EnableRetry => alive s
  | ConnectorEvent _ e => pending (connector_ s) e && (nextConnId_ s + 1 <? 2 ^ 31)
  | PeerCloses _ i =>
      match conns s !! i with Some c => c_registered c | None => false end &&
      bool_decide (Connector.queued (connector_ s) = [])
  | RunDestroy => true
  | Keep i => match conns s !! i with Some c => c_alive c | None => false end
  | Drop i => bool_decide (i ∈ kept s) &&
      match conns s !! i with Some c => alive s || negb (c_registered c) | None => false end
  | Destroy => alive s && bool_decide (Connector.queued (connector_ s) = []) &&
      match connection_ s with Some i => bool_decide (i ∈ kept s) | None => true end
  | SecondPasses => negb (alive s) && connector_alive s && bool_decide (Connector.channel_ (connector_ s) = None) &&
      bool_decide (Connector.queued (connector_ s) = [])
  end.

Fixpoint legal_run (s : TcpClient) (es : list event) : bool :=
  match es with
  | [] => true
  | e :: es => legal s e && match run_event s e with Ok s' => legal_run s' es | _ => true end
  end.

(** ** Invariant *)

(** [i] is up, closed and about to be destroyed, or destroyed. *)
Definition conn_ok (s : TcpClient) (i : conn_id) (c : connection) : Prop :=
  c_alive c = referenced i s /\
  match c_registered c, is_up c with
  | true, true => (i ∉ destroying s) /\
      (if alive s then connection_ s = Some i /\ c_close c = ToClient else i ∈ kept s /\ c_close c = Detached)
  | false, true => i ∈ destroying s
  | false, false => c_state c = TcpConnection.kDisconnected /\ i ∉ destroying s
  | true, false => False
  end.

(** Every socket the connector handed over belongs to one connection. *)
Record adopted (c : Connector.Connector) (n : Z) (fds : gmap conn_id positive) : Prop := {
  ad_next : 1 <= n < 2 ^ 31;
  ad_ids : forall i, is_Some (fds !! i) <-> Z.pos i < n;
  ad_fds : forall fd, fd ∈ Connector.handed c <-> exists i, fds !! i = Some fd;
  ad_inj : forall i j fd, fds !! i = Some fd -> fds !! j = Some fd -> i = j;
}.

Record client_inv (s : TcpClient) : Prop := {
  cl_connector : Connector.connector_inv (connector_ s);
  cl_adopted : adopted (connector_ s) (nextConnId_ s) (c_fd <$> conns s);
  cl_conn : forall i c, conns s !! i = Some c -> conn_ok s i c;
  cl_current : forall i, connection_ s = Some i ->
    alive s = true /\ Connector.state_ (connector_ s) = Connector.kConnected /\
    exists c, conns s !! i = Some c /\ c_registered c = true;
  cl_destroying : forall i, i ∈ destroying s -> is_Some (conns s !! i);
  cl_nodup : NoDup (destroying s);
  cl_dead : alive s = false -> Connector.connect_ (connector_ s) = false \/ connector_alive s = false;
  cl_gone : connector_alive s = false ->
    alive s = false /\ Connector.timers (connector_ s) = ∅ /\ Connector.queued (connector_ s) = [] /\
    Connector.channel_ (connector_ s) = None;
}.

(** ** The connector as its owner sees it *)

Lemma startInLoop_frame errno c c' :
  Connector.startInLoop errno c = Ok c' ->
  Connector.connect_ c' = Connector.connect_ c /\ Connector.handed c' = Connector.handed c.
Proof.
  unfold Connector.startInLoop, assert_. destruct (bool_decide _); [|done]. cbn [mbind outcome_bind].
  destruct (Connector.connect_ c) eqn:Ec; [|by intros [= <-]].
  unfold Connector.connect. cbn [Connector.create_socket].
  destruct (bool_decide _); [|destruct (bool_decide _)].
  - unfold Connector.connecting, assert_. destruct (bool_decide _); [|done]. cbn [mbind outcome_bind].
    by intros [= <-].
  - intros [= <-]. unfold Connector.retry. cbn. rewrite Ec. done.
  - by intros [= <-].
Qed.

(** What a connector does on its own hands over at most one socket, and then
    only when it was connecting and not told to stop. *)
Lemma pending_step c e :
  Connector.connector_inv c -> pending c e = true ->
  exists c', Connector.run_event c e = Ok c' /\ Connector.connector_inv c' /\
    Connector.connect_ c' = Connector.connect_ c /\
    (Connector.handed c' = Connector.handed c /\
       (Connector.state_ c = Connector.kConnected -> Connector.state_ c' = Connector.kConnected) \/
     (exists fd, (fd ∉ Connector.handed c) /\ Connector.handed c' = {[fd]} ∪ Connector.handed c /\
       Connector.state_ c = Connector.kConnecting /\ Connector.state_ c' = Connector.kConnected /\
       Connector.connect_ c = true)).
Proof.
  intros Hi Hp. assert (Connector.legal c e = true) as Hl by (by destruct e).
  destruct (Connector.event_inv c e Hi Hl) as (c' & E & Hi'). exists c'. split; [done|]. split; [done|].
  destruct e as [ | | | |errno|t errno|er wr err self]; try done; cbn [Connector.run_event pending Connector.legal] in *.
  - unfold Connector.runTask in E. destruct (Connector.queued c) as [|[] q] eqn:Eq; [done| |].
    + pose proof (startInLoop_frame _ _ _ E) as [-> Hh]. split; [done|]. left. split; [done|]. intros Hs.
      destruct Hi. rewrite Hs, Eq in cn_state. destruct cn_state as (_ & Hno & _). exfalso. apply Hno. by left.
    + injection E as <-. by split; [|left].
  - pose proof (startInLoop_frame _ _ _ E) as [-> Hh]. split; [done|]. left. split; [done|]. intros Hs.
    apply andb_true_iff in Hp as [Hin%bool_decide_eq_true _]. destruct Hi. rewrite Hs in cn_state.
    destruct cn_state as [Ht _]. set_solver +Hin Ht.
  - destruct (Connector.channel_ c) as [[fd []]|] eqn:Hch; [|done|done].
    destruct (Connector.retry_inv fd c Hi Hch) as (Erem & _ & Hrs). pose proof Hi as [].
    assert (Connector.state_ c = Connector.kConnecting) as Hs.
    { rewrite Hch in cn_state. destruct (Connector.state_ c); [|done|].
      - by destruct cn_state as [[_ ?]|[(_ & ? & _)|(? & _ & ?)]].
      - by destruct cn_state as (_ & _ & [[_ ?]|(? & _ & ?)]). }
    assert (forall fd' c0, Connector.connect_ (Connector.retry fd' c0) = Connector.connect_ c0 /\
              Connector.handed (Connector.retry fd' c0) = Connector.handed c0) as Hr.
    { intros fd' c0. unfold Connector.retry. cbn. by destruct (Connector.connect_ c0) eqn:?. }
    destruct er.
    + unfold Connector.handleError in E. rewrite bool_decide_eq_true_2 in E by done.
      cbn [assert_ mbind outcome_bind] in E. rewrite Erem in E. cbn [mbind outcome_bind] in E.
      assert (c' = Connector.retry fd (Connector.set_queued [Connector.ResetTask] (Connector.set_channel (Some (fd, false)) c))) as ->.
      { destruct wr; [|congruence]. unfold Connector.handleWrite in E.
        rewrite decide_False, bool_decide_eq_true_2 in E by congruence. cbn [assert_ mbind outcome_bind] in E. congruence. }
      destruct (Hr fd (Connector.set_queued [Connector.ResetTask] (Connector.set_channel (Some (fd, false)) c))) as [-> ->].
      split; [done|]. left. split; [done|]. by rewrite Hs.
    + cbn [mbind outcome_bind] in E. destruct wr; [|injection E as <-; by split; [|left]].
      unfold Connector.handleWrite in E. rewrite decide_True in E by done. rewrite Erem in E. cbn [mbind outcome_bind] in E.
      destruct (negb _); [|destruct self; [|cbn [Connector.connect_ Connector.setState Connector.set_queued Connector.set_channel] in E;
        destruct (Connector.connect_ c) eqn:Ec]]; injection E as <-.
      * destruct (Hr fd (Connector.set_queued [Connector.ResetTask] (Connector.set_channel (Some (fd, false)) c))) as [-> ->].
        split; [done|]. left. split; [done|]. by rewrite Hs.
      * destruct (Hr fd (Connector.set_queued [Connector.ResetTask] (Connector.set_channel (Some (fd, false)) c))) as [-> ->].
        split; [done|]. left. split; [done|]. by rewrite Hs.
      * split; [done|]. right. exists fd. unfold Connector.pending_socket in cn_disjoint. rewrite Hch in cn_disjoint.
        split; [set_solver +cn_disjoint|]. by cbn.
      * split; [done|]. left. split; [done|]. by rewrite Hs.
Qed.

(** ** Preservation *)

Lemma new_TcpClient_inv : client_inv new_TcpClient.
Proof.
  constructor; simpl; try done.
  - exact Connector.new_Connector_inv.
  - rewrite fmap_empty. constructor; try done.
    + intros i. rewrite lookup_empty. split; [by intros [? ?]|lia].
    + intros fd. split; [set_solver|]. by intros (i & E).
  - by intros i Hi%not_elem_of_nil.
  - constructor.
Qed.

Lemma connector_changed c' s :
  client_inv s -> connector_alive s = true -> Connector.connector_inv c' ->
  Connector.handed c' = Connector.handed (connector_ s) ->
  (connection_ s <> None -> Connector.state_ c' = Connector.kConnected) ->
  (alive s = false -> Connector.connect_ c' = false) ->
  client_inv (set_connector c' s).
Proof.
  intros [] Hal Hc Hh Hst Hd. constructor; simpl; try done.
  - destruct cl_adopted0. constructor; try done. by rewrite Hh.
  - intros i E. destruct (cl_current0 i E) as (? & _ & ?). split; [done|]. split; [|done]. apply Hst. by rewrite E.
  - auto.
  - congruence.
Qed.

Lemma client_set_connect_inv v s : client_inv s -> client_inv (set_connect v s).
Proof. by intros []. Qed.

Lemma enableRetry_inv s : client_inv s -> client_inv (enableRetry s).
Proof. by intros []. Qed.

Lemma connector_alive_of s : client_inv s -> alive s = true -> connector_alive s = true.
Proof. intros [] Ha. destruct (connector_alive s) eqn:E; [done|]. destruct (cl_gone0 eq_refl). congruence. Qed.

(** The owner's calls. *)
Lemma idle_no_connection s : client_inv s -> Connector.idle (connector_ s) = true -> connection_ s = None.
Proof.
  intros [] (Hs & _)%Connector.idle_spec. destruct (connection_ s) as [i|] eqn:E; [|done].
  destruct (cl_current0 i eq_refl) as (_ & ? & _). congruence.
Qed.

Lemma with_connector_inv e f s :
  client_inv s -> alive s = true -> connection_ s = None -> Connector.legal (connector_ s) e = true ->
  f (connector_ s) = Connector.run_event (connector_ s) e ->
  (forall c', Connector.run_event (connector_ s) e = Ok c' -> Connector.handed c' = Connector.handed (connector_ s)) ->
  exists s', with_connector f s = Ok s' /\ client_inv s'.
Proof.
  intros Hi Ha Hn Hl Ef Hh. destruct (Connector.event_inv _ e (cl_connector s Hi) Hl) as (c' & E & Hc).
  unfold with_connector. rewrite (connector_alive_of s Hi Ha). cbn [defined_ mbind outcome_bind].
  rewrite Ef, E. cbn [mbind outcome_bind]. eexists. split; [done|].
  apply connector_changed; auto using connector_alive_of; [by rewrite Hn|congruence].
Qed.

Lemma stop_inv s : client_inv s -> connector_alive s = true ->
  client_inv (set_connector (Connector.stop (connector_ s)) s).
Proof.
  intros Hi Ha. apply connector_changed; try done.
  - by apply Connector.cancel_timer_inv, Connector.set_connect_inv, Hi.
  - unfold Connector.stop, Connector.cancel_timer. cbn. by destruct (Connector.timerId_ _).
  - intros Hn. destruct (connection_ s) as [i|] eqn:E; [|done]. destruct (cl_current s Hi i E) as (_ & Hs & _).
    unfold Connector.stop, Connector.cancel_timer. cbn. by destruct (Connector.timerId_ _).
  - intros _. unfold Connector.stop, Connector.cancel_timer. cbn. by destruct (Connector.timerId_ _).
Qed.

Lemma client_connect_inv errno s :
  client_inv s -> alive s = true -> Connector.idle (connector_ s) = true ->
  exists s', connect errno s = Ok s' /\ client_inv s'.
Proof.
  intros Hi Ha Hid. apply (with_connector_inv (Connector.Start errno)); auto using client_set_connect_inv.
  - by apply (idle_no_connection s).
  - intros c' E. by destruct (startInLoop_frame _ _ _ E).
Qed.

Lemma connect_other_inv s :
  client_inv s -> alive s = true -> Connector.idle (connector_ s) = true ->
  exists s', connect_other s = Ok s' /\ client_inv s'.
Proof.
  intros Hi Ha Hid. apply (with_connector_inv Connector.StartOther); auto using client_set_connect_inv.
  - by apply (idle_no_connection s).
  - by intros c' [= <-].
Qed.

(** Changes of one connection leave the sockets alone. *)
Lemma update_fds f i (m : gmap conn_id connection) :
  (forall c, c_fd (f c) = c_fd c) -> c_fd <$> alter f i m = c_fd <$> m.
Proof.
  intros Hf. apply map_eq. intros j. rewrite !lookup_fmap. destruct (decide (i = j)) as [->|Hne].
  - rewrite lookup_alter_eq. destruct (m !! j); simpl; [by rewrite Hf|done].
  - by rewrite lookup_alter_ne.
Qed.

Lemma lookup_update f i j (m : gmap conn_id connection) c :
  alter f i m !! j = Some c <-> exists c0, m !! j = Some c0 /\ c = if decide (i = j) then f c0 else c0.
Proof.
  destruct (decide (i = j)) as [->|Hne].
  - rewrite lookup_alter_eq, fmap_Some. naive_solver.
  - rewrite lookup_alter_ne by done. split; [by exists c|by intros (c0 & E & ->)].
Qed.

(** The loop, the user and the client change the stage of one connection:
    the other connections keep theirs. *)
Lemma stage_changed s s' f i :
  client_inv s -> connector_ s' = connector_ s -> nextConnId_ s' = nextConnId_ s ->
  conns s' = alter f i (conns s) -> (forall c, c_fd (f c) = c_fd c) ->
  (forall j c, j <> i -> conns s !! j = Some c -> conn_ok s j c -> conn_ok s' j c) ->
  (forall c, conns s !! i = Some c -> conn_ok s i c -> conn_ok s' i (f c)) ->
  (forall j, connection_ s' = Some j -> connection_ s = Some j /\ alive s' = true /\
     forall c, conns s !! j = Some c -> c_registered (if decide (i = j) then f c else c) = c_registered c) ->
  (forall j, j ∈ destroying s' -> j ∈ destroying s \/ j = i /\ is_Some (conns s !! i)) -> NoDup (destroying s') ->
  (alive s' = false -> Connector.connect_ (connector_ s') = false \/ connector_alive s' = false) ->
  (connector_alive s' = false -> alive s' = false /\ Connector.timers (connector_ s) = ∅ /\
     Connector.queued (connector_ s) = [] /\ Connector.channel_ (connector_ s) = None) ->
  client_inv s'.
Proof.
  intros [] Ec En Em Hf Hother Hi Hcur Hdes Hnd Hdead Hgone. constructor; rewrite ?Ec, ?En, ?Em; try done.
  - by rewrite update_fds.
  - intros j c (c0 & E & ->)%lookup_update. destruct (decide (i = j)) as [->|Hne]; [auto|].
    apply Hother; auto.
  - intros j E. destruct (Hcur j E) as (E' & Ha & Hr). destruct (cl_current0 j E') as (_ & Hs & c & Ec' & Hreg).
    split; [done|]. split; [done|]. exists (if decide (i = j) then f c else c).
    split; [apply lookup_update; by exists c|]. by rewrite Hr.
  - intros j Hj. unfold is_Some. setoid_rewrite lookup_update.
    assert (is_Some (conns s !! j)) as [c E] by (destruct (Hdes j Hj) as [H|[-> H]]; auto). eauto.
  - rewrite <- Ec. auto.
Qed.

(** Each operation on a connection. *)
Lemma referenced_spec i s :
  referenced i s = true <-> connection_ s = Some i \/ i ∈ destroying s \/ i ∈ kept s.
Proof. unfold referenced. rewrite !orb_true_iff, !bool_decide_eq_true. tauto. Qed.

Lemma client_deref_ok i c s : conns s !! i = Some c -> c_alive c = true -> deref i s = Ok c.
Proof. intros E Ha. unfold deref. rewrite E. cbn. by rewrite Ha. Qed.

Lemma conn_ok_alive s i c : conn_ok s i c -> referenced i s = true -> c_alive c = true.
Proof. by intros [-> _]. Qed.

Lemma registered_ok s i c : conn_ok s i c -> c_registered c = true ->
  is_up c = true /\ (i ∉ destroying s) /\ referenced i s = true /\ c_alive c = true /\
  if alive s then connection_ s = Some i /\ c_close c = ToClient else i ∈ kept s /\ c_close c = Detached.
Proof.
  intros [Ha Hc] Hr. rewrite Hr in Hc. destruct (is_up c); [|done]. destruct Hc as [Hn Hc].
  assert (referenced i s = true) as Href by (apply referenced_spec; destruct (alive s); tauto).
  rewrite Ha. done.
Qed.

Lemma closing_ok s i c : conn_ok s i c -> i ∈ destroying s -> is_up c = true /\ c_registered c = false /\ c_alive c = true.
Proof.
  intros [Ha Hc] Hin. assert (referenced i s = true) as Href by (apply referenced_spec; tauto). rewrite Ha.
  destruct (c_registered c), (is_up c); tauto.
Qed.

Lemma disconnect_inv s : client_inv s -> alive s = true -> exists s', disconnect s = Ok s' /\ client_inv s'.
Proof.
  intros Hi Ha. unfold disconnect. destruct (connection_ s) as [i|] eqn:E; cbn [connection_ set_connect]; rewrite E;
    [|eauto using client_set_connect_inv].
  destruct (cl_current s Hi i E) as (_ & Hs & c & Ec & Hr).
  destruct (registered_ok s i c (cl_conn s Hi i c Ec) Hr) as (Hup & Hn & Href & Hal & Hcl). rewrite Ha in Hcl.
  unfold shutdown. rewrite (client_deref_ok i c) by done. cbn [mbind outcome_bind].
  destruct (bool_decide _) eqn:Eb; [|eauto using client_set_connect_inv]. eexists. split; [done|].
  pose proof Hi as []. eapply (stage_changed s _ (with_state TcpConnection.kDisconnecting) i); try done; try (by left).
  - intros c' Ec'. simplify_eq. intros [Hc _]. split; [exact Hc|]. cbn. by rewrite Hr, Ha.
  - intros j Ej. cbn in Ej. split; [done|]. split; [done|]. intros c' _. by destruct (decide (i = j)).
Qed.

(** A connection whose last reference went is gone. *)
Lemma release_step i c s :
  conns s !! i = Some c -> c_alive c = true -> (c_registered c = true -> referenced i s = true) ->
  release i s = Ok (update_conn (with_alive (referenced i s)) i s).
Proof.
  intros E Ha Hr. unfold release. destruct (referenced i s) eqn:Href.
  - unfold update_conn. f_equal. rewrite alter_id; [by destruct s|].
    intros c' E'. assert (c' = c) as -> by congruence. destruct c; cbn in *. by subst.
  - rewrite (client_deref_ok i c) by done. cbn [mbind outcome_bind]. destruct (c_registered c); [by specialize (Hr eq_refl)|done].
Qed.

(** Connections whose references stay the same. *)
Lemma other_ok s s' j c :
  conn_ok s j c -> (connection_ s' = Some j <-> connection_ s = Some j) ->
  (j ∈ destroying s' <-> j ∈ destroying s) -> (j ∈ kept s' <-> j ∈ kept s) ->
  (c_registered c = true -> alive s' = alive s) -> conn_ok s' j c.
Proof.
  intros [Ha Hc] H1 H2 H3 H4. split.
  - rewrite Ha. apply eq_true_iff_eq. rewrite !referenced_spec. tauto.
  - destruct (c_registered c), (is_up c); try tauto. rewrite (H4 eq_refl), H2. destruct Hc as [? Hc]. split; [done|].
    destruct (alive s); tauto.
Qed.

Lemma keep_inv i s : client_inv s -> (exists c, conns s !! i = Some c /\ c_alive c = true) ->
  client_inv (set_kept ({[i]} ∪ kept s) s).
Proof.
  intros Hi (c & Ec & Hal). pose proof Hi as []. eapply (stage_changed s _ id i); try done; try (by left).
  - by rewrite alter_id.
  - intros j c' Hne Ec' Hok. apply (other_ok s); try done. cbn. rewrite elem_of_union, elem_of_singleton. tauto.
  - intros c' Ec' [Ha Hc]. simplify_eq. split.
    + unfold id. rewrite Hal. symmetry. apply referenced_spec. cbn. rewrite elem_of_union, elem_of_singleton. tauto.
    + cbn. change (is_up (id c)) with (is_up c). destruct (c_registered c), (is_up c); try done. destruct Hc as [? Hc].
      split; [done|]. destruct (alive s); [done|]. rewrite elem_of_union. tauto.
  - intros j Ej. cbn in Ej. destruct (cl_current0 j Ej) as [? _]. split; [done|]. split; [done|].
    intros c' _. by destruct (decide (i = j)).
Qed.

Lemma drop_inv i s : client_inv s -> legal s (Drop i) = true -> exists s', run_event s (Drop i) = Ok s' /\ client_inv s'.
Proof.
  intros Hi Hl. cbn [legal] in Hl. apply andb_true_iff in Hl as [Hk%bool_decide_eq_true Hl].
  destruct (conns s !! i) as [c|] eqn:Ec; [|done]. pose proof Hi as [].
  destruct (cl_conn0 i c Ec) as [Ha Hc].
  assert (c_alive c = true) as Hal by (rewrite Ha; apply referenced_spec; tauto).
  assert (c_registered c = true -> alive s = true /\ connection_ s = Some i) as Hreg.
  { intros Hr. rewrite Hr in Hc, Hl. destruct (alive s); [|done]. destruct (is_up c); tauto. }
  cbn [run_event]. rewrite (release_step i c); [|done|done|].
  2:{ intros Hr. apply referenced_spec. left. by apply Hreg. }
  eexists. split; [done|]. set (s1 := set_kept _ s).
  eapply (stage_changed s _ (with_alive (referenced i s1)) i); try done; try (by left).
  - intros j c' Hne Ec' Hok. apply (other_ok s); try done. cbn. rewrite elem_of_difference, elem_of_singleton. tauto.
  - intros c' Ec' _. simplify_eq. split; [done|]. cbn. change (is_up (with_alive _ c)) with (is_up c).
    destruct (c_registered c), (is_up c) eqn:Eu; try done.
    destruct Hc as [? Hc]. split; [done|]. destruct (Hreg eq_refl) as [Ea Ec1]. rewrite Ea, Ec1 in *. tauto.
  - intros j Ej. cbn in Ej. destruct (cl_current0 j Ej) as [? _]. split; [done|]. split; [done|].
    intros c' _. by destruct (decide (i = j)).
Qed.

Lemma destroy_task_inv s : client_inv s -> exists s', runDestroy s = Ok s' /\ client_inv s'.
Proof.
  intros Hi. unfold runDestroy. destruct (destroying s) as [|i q] eqn:Eq; [by exists s|]. pose proof Hi as [].
  assert (i ∈ destroying s) as Hin by (rewrite Eq; by left).
  destruct (cl_destroying0 i Hin) as [c Ec].
  destruct (closing_ok s i c (cl_conn0 i c Ec) Hin) as (Hup & Hr & Hal).
  assert (connection_ s <> Some i) as Hcur.
  { intros E. destruct (cl_current0 i E) as (_ & _ & c' & Ec' & Hr'). congruence. }
  unfold connectDestroyed. rewrite (client_deref_ok i c) by done. cbn [mbind outcome_bind]. rewrite Hup.
  cbn [assert_ mbind outcome_bind]. set (s1 := set_destroying q _).
  assert (conns s1 !! i = Some (with_registered false (with_state TcpConnection.kDisconnected c))) as E1.
  { cbn. by rewrite lookup_alter_eq, Ec. }
  rewrite (release_step i _ _ E1); [|done|done]. eexists. split; [done|].
  pose proof cl_nodup0 as Hnd. rewrite Eq in Hnd. apply NoDup_cons in Hnd as [Hni Hnd].
  eapply (stage_changed s _ (fun c => with_alive (referenced i s1) (with_registered false (with_state TcpConnection.kDisconnected c))) i);
    try done.
  - apply alter_alter_eq.
  - intros j c' Hne Ec' Hok. apply (other_ok s); try done. cbn. rewrite Eq, elem_of_cons. tauto.
  - intros j Ej. cbn in Ej. destruct (cl_current0 j Ej) as [? _]. split; [done|]. split; [done|].
    intros c' _. rewrite decide_False by congruence. done.
  - intros j Hj. cbn in Hj. left. rewrite Eq. by right.
Qed.

Lemma close_inv errno i s :
  client_inv s -> legal s (PeerCloses errno i) = true -> exists s', handleClose errno i s = Ok s' /\ client_inv s'.
Proof.
  intros Hi Hl. cbn [legal] in Hl. apply andb_true_iff in Hl as [Hr Hq%bool_decide_eq_true].
  destruct (conns s !! i) as [c|] eqn:Ec; [|done]. pose proof Hi as [].
  destruct (registered_ok s i c (cl_conn0 i c Ec) Hr) as (Hup & Hn & Href & Hal & Hc).
  unfold handleClose. rewrite (client_deref_ok i c) by done. cbn [mbind outcome_bind]. rewrite Hup. cbn [assert_ mbind outcome_bind].
  set (s1 := queueInLoop i (set_connection None (update_conn (with_registered false) i s))).
  assert (client_inv s1) as Hi1.
  { eapply (stage_changed s _ (with_registered false) i); try done.
    - intros j c' Hne Ec' Hok. apply (other_ok s); try done; cbn.
      + split; [done|]. intros Ej. destruct (cl_current0 j Ej) as (Ha & _). rewrite Ha in Hc. destruct Hc as [Hc _]. congruence.
      + rewrite elem_of_app, list_elem_of_singleton. tauto.
    - intros c' Ec' [Ha' _]. simplify_eq. split.
      + change (c_alive c = referenced i s1). rewrite Hal. symmetry. apply referenced_spec. right; left. cbn. set_solver +.
      + cbn. change (is_up (with_registered false c)) with (is_up c). rewrite Hup. set_solver +.
    - intros j Hj. cbn in Hj. apply elem_of_app in Hj as [Hj| ->%list_elem_of_singleton]; [by left|]. right. split; [done|]. by rewrite Ec.
    - cbn. apply NoDup_app. split; [done|]. split; [|apply NoDup_singleton]. intros j Hj ->%list_elem_of_singleton. done. }
  destruct (alive s) eqn:Ea; destruct Hc as [Hc1 Hc2]; rewrite Hc2.
  - unfold removeConnection. cbn [alive update_conn set_conns]. rewrite Ea. cbn [defined_ mbind outcome_bind].
    cbn [connection_ update_conn set_conns]. rewrite Hc1, bool_decide_eq_true_2 by done. cbn [assert_ mbind outcome_bind].
    fold s1. destruct (retry_ s1 && connect_ s1); [|by exists s1].
    destruct (cl_current0 i Hc1) as (_ & Hs & _).
    apply (with_connector_inv (Connector.Restart errno)); try done.
    + cbn [Connector.legal]. change (connector_ s1) with (connector_ s). by rewrite !bool_decide_eq_true_2.
    + intros c' E. cbn [Connector.run_event] in E. unfold Connector.restart in E. by destruct (startInLoop_frame _ _ _ E).
  - exists s1. split; [|done]. unfold s1, queueInLoop, set_connection, set_destroying, update_conn, set_conns. cbn.
    repeat f_equal. destruct (connection_ s) as [j|] eqn:Ej; [|done]. by destruct (cl_current0 j eq_refl).
Qed.

Lemma connectEstablished_fresh i c s :
  conns s !! i = Some c -> c_alive c = true -> c_state c = TcpConnection.kConnecting ->
  connectEstablished i s = Ok (update_conn (fun c => with_registered true (with_state TcpConnection.kConnected c)) i s).
Proof.
  intros E Ha Hs. unfold connectEstablished. rewrite (client_deref_ok i c) by done. cbn [mbind outcome_bind].
  by rewrite bool_decide_eq_true_2.
Qed.

Lemma adopt_one c c' n fds fd :
  adopted c n fds -> n + 1 < 2 ^ 31 -> fd ∉ Connector.handed c -> Connector.handed c' = {[fd]} ∪ Connector.handed c ->
  fds !! Z.to_pos n = None /\ adopted c' (n + 1) (<[Z.to_pos n := fd]> fds).
Proof.
  intros [] Hn Hfd Hh. assert (fds !! Z.to_pos n = None) as Hnone.
  { destruct (fds !! Z.to_pos n) as [x|] eqn:E; [|done]. assert (is_Some (fds !! Z.to_pos n)) as H by (rewrite E; done).
    apply ad_ids0 in H. lia. }
  split; [done|]. constructor; [lia| | |].
  - intros i. destruct (decide (Z.to_pos n = i)) as [<-|Hne].
    + rewrite lookup_insert_eq. split; [lia|done].
    + rewrite lookup_insert_ne by done. rewrite ad_ids0. lia.
  - intros x. rewrite Hh, elem_of_union, elem_of_singleton, ad_fds0. split.
    + intros [->|[i E]]; [exists (Z.to_pos n); by rewrite lookup_insert_eq|].
      exists i. rewrite lookup_insert_ne; [done|]. congruence.
    + intros [i E]. destruct (decide (Z.to_pos n = i)) as [<-|Hne].
      * rewrite lookup_insert_eq in E. left. congruence.
      * rewrite lookup_insert_ne in E by done. right. by exists i.
  - assert (forall j, fds !! j = Some fd -> False) as Hno by (intros j E; apply Hfd, ad_fds0; by exists j).
    intros i j x [[<- <-]|[Hi Ei]]%lookup_insert_Some [[<- Ex]|[Hj Ej]]%lookup_insert_Some; [done| | |by apply (ad_inj0 i j x)].
    + by destruct (Hno j).
    + subst x. by destruct (Hno i).
Qed.

Lemma connector_event_inv peer e s :
  client_inv s -> legal s (ConnectorEvent peer e) = true ->
  exists s', connector_event peer e s = Ok s' /\ client_inv s'.
Proof.
  intros Hi Hl. cbn [legal] in Hl. apply andb_true_iff in Hl as [Hp Hn%Z.ltb_lt]. pose proof Hi as [].
  destruct (pending_step _ e cl_connector0 Hp) as (c' & E & Hc & Hcon & Hcase).
  assert (connector_alive s = true) as Hca.
  { destruct (connector_alive s); [done|]. destruct (cl_gone0 eq_refl) as (_ & Ht & Hq & Hch). clear -Hp Ht Hq Hch.
    destruct e as [ | | | | |t errno|]; try done; cbn in Hp; rewrite ?Ht, ?Hq, ?Hch in Hp; try done. }
  unfold connector_event. rewrite Hca. cbn [defined_ mbind outcome_bind]. rewrite E. cbn [mbind outcome_bind].
  destruct Hcase as [[Hh Hs]|(fd & Hfd & Hh & Hs & Hs' & Hct)].
  - rewrite Hh, difference_diag_L, elements_empty. eexists. split; [done|]. apply connector_changed; try done.
    + intros Hcur. apply Hs. destruct (connection_ s) as [i|] eqn:Ei; [|done]. by destruct (cl_current0 i eq_refl) as (_ & ? & _).
    + intros Ha. rewrite Hcon. destruct (cl_dead0 Ha); congruence.
  - assert (({[fd]} ∪ Connector.handed (connector_ s)) ∖ Connector.handed (connector_ s) = {[fd]}) as Ed.
    { apply set_eq. intros x. rewrite elem_of_difference, elem_of_union, elem_of_singleton. split; [tauto|].
      intros ->. tauto. }
    rewrite Hh, Ed, elements_singleton.
    assert (connection_ s = None) as Hcur.
    { destruct (connection_ s) as [i|] eqn:Ei; [|done]. destruct (cl_current0 i eq_refl) as (_ & ? & _). congruence. }
    assert (alive s = true) as Ha.
    { destruct (alive s); [done|]. destruct (cl_dead0 eq_refl); congruence. }
    destruct (adopt_one _ c' _ _ fd cl_adopted0 Hn Hfd Hh) as [Hnone Had]. rewrite lookup_fmap in Hnone.
    apply fmap_None in Hnone.
    unfold newConnection. cbn [alive set_connector nextConnId_ connection_ conns]. rewrite Ha. cbn [andb].
    rewrite (proj2 (Z.ltb_lt _ _) Hn). cbn [defined_ mbind outcome_bind connection_ set_conns set_connector]. rewrite Hcur.
    cbn [mbind outcome_bind].
    set (i := Z.to_pos (nextConnId_ s)) in *.
    erewrite connectEstablished_fresh; [|cbn; apply lookup_insert_eq|done|done]. eexists. split; [done|].
    set (conn := mkConnection _ _ _ _ _ _). set (s' := update_conn _ _ _).
    assert (conns s' = <[i := with_registered true (with_state TcpConnection.kConnected conn)]> (conns s)) as Em
      by (etransitivity; [apply alter_insert_eq|done]).
    assert (i ∉ destroying s) as Hnd.
    { intros Hin. apply cl_destroying0 in Hin as [? ?]. congruence. }
    constructor; try done; rewrite ?Em.
    + by rewrite fmap_insert.
    + intros j c [[<- <-]|[Hne Ej]]%lookup_insert_Some.
      * split; [symmetry; apply referenced_spec; by left|]. cbn. split; [exact Hnd|]. by rewrite Ha.
      * apply (other_ok s); try done; [by apply cl_conn0|]. cbn. rewrite Hcur. split; [congruence|done].
    + intros j [= <-]. split; [done|]. split; [done|]. eexists. split; [apply lookup_insert_eq|done].
    + intros j Hj. apply cl_destroying0 in Hj. destruct (decide (i = j)) as [<-|Hne];
        [by rewrite lookup_insert_eq|by rewrite lookup_insert_ne].
    + intros Ha'. change (alive s = false) in Ha'. congruence.
    + intros Hg. change (connector_alive s = false) in Hg. congruence.
Qed.

Lemma cancel_timer_frame c :
  Connector.connector_inv c ->
  Connector.channel_ (Connector.cancel_timer c) = Connector.channel_ c /\
  Connector.queued (Connector.cancel_timer c) = Connector.queued c /\
  Connector.handed (Connector.cancel_timer c) = Connector.handed c /\
  Connector.state_ (Connector.cancel_timer c) = Connector.state_ c /\
  Connector.timers (Connector.cancel_timer c) = ∅.
Proof.
  intros Hi. pose proof (Connector.cn_timers _ Hi) as Ht. unfold Connector.cancel_timer.
  destruct (Connector.timerId_ _) as [t|] eqn:Et; cbn; repeat (split; [done|]).
  - destruct Ht as [-> |(t' & -> & [= ->])]; apply set_eq; intros x; rewrite elem_of_difference, ?elem_of_empty, ?elem_of_singleton; tauto.
  - by destruct Ht as [-> |(t' & _ & ?)].
Qed.

Lemma drop_connector_eq s :
  connector_alive s = true -> Connector.connector_inv (connector_ s) -> Connector.channel_ (connector_ s) = None ->
  drop_connector s = Ok (set_alive (alive s) false (set_connector (Connector.cancel_timer (connector_ s)) s)).
Proof.
  intros Hca Hi Hch. unfold drop_connector. rewrite Hca. cbn [defined_ mbind outcome_bind].
  destruct (cancel_timer_frame _ Hi) as (-> & _). by rewrite bool_decide_eq_true_2.
Qed.

Lemma second_inv s :
  client_inv s -> legal s SecondPasses = true -> exists s', drop_connector s = Ok s' /\ client_inv s'.
Proof.
  intros Hi Hl. cbn [legal] in Hl.
  apply andb_true_iff in Hl as [[[Ha%negb_true_iff Hca]%andb_true_iff Hch%bool_decide_eq_true]%andb_true_iff Hq%bool_decide_eq_true].
  rewrite drop_connector_eq by (done || apply Hi). eexists. split; [done|].
  pose proof (Connector.cancel_timer_inv _ (cl_connector s Hi)) as Hc.
  destruct (cancel_timer_frame _ (cl_connector s Hi)) as (E1 & E2 & E3 & _ & E4).
  destruct Hi. constructor; try done.
  - destruct cl_adopted0. constructor; try done. cbn. by rewrite E3.
  - intros i E. cbn in E. destruct (cl_current0 i E). congruence.
  - by right.
  - intros _. cbn. by rewrite E1, E2.
Qed.

(** A client that goes with its connection leaves it to the loop and the user. *)
Lemma destroy_connected_inv i s :
  client_inv s -> alive s = true -> Connector.queued (connector_ s) = [] -> connection_ s = Some i -> i ∈ kept s ->
  exists s', destroy s = Ok s' /\ client_inv s'.
Proof.
  intros Hi Ha Hq Ei Hk. pose proof (connector_alive_of s Hi Ha) as Hca. pose proof Hi as [].
  destruct (cl_current0 i Ei) as (_ & Hs & c & Ec & Hr).
  destruct (registered_ok s i c (cl_conn0 i c Ec) Hr) as (Hup & Hn & Href & Hal & Hc). rewrite Ha in Hc.
  unfold destroy. rewrite Ei. set (s1 := set_alive _ _ _).
  assert (referenced i s1 = true) as Href1 by (apply referenced_spec; by right; right).
  rewrite (release_step i (setCloseCallback Detached c)); [|cbn; by rewrite lookup_alter_eq, Ec|done|done].
  rewrite Href1. cbn [mbind outcome_bind].
  assert (Connector.channel_ (connector_ s) = None) as Hch.
  { pose proof (Connector.cn_state _ cl_connector0) as Hst. rewrite Hs, Hq in Hst.
    by destruct Hst as (_ & _ & [[_ ?]|(? & ? & _)]). }
  rewrite drop_connector_eq by done. eexists. split; [done|].
  destruct (cancel_timer_frame _ cl_connector0) as (E1 & E2 & E3 & E4 & E5).
  assert (client_inv (set_connector (Connector.cancel_timer (connector_ s)) s)) as H0.
  { apply connector_changed; try done; [by apply Connector.cancel_timer_inv|by rewrite E4|congruence]. }
  eapply (stage_changed _ _ (with_alive true ∘ setCloseCallback Detached) i H0); try done; try (by left).
  - apply alter_alter_eq.
  - intros j c' Hne Ec' Hok. apply (other_ok s); try done; cbn; [split; [done|congruence]|].
    intros Hr'. destruct (registered_ok s j c' (cl_conn0 j c' Ec') Hr') as (_ & _ & _ & _ & Hj). rewrite Ha in Hj.
    destruct Hj. congruence.
  - intros c' Ec' _. cbn in Ec'. simplify_eq. split; [symmetry; apply referenced_spec; by right; right|].
    cbn. change (is_up (with_alive true _)) with (is_up c). by rewrite Hr, Hup.
  - by right.
  - intros _. cbn. by rewrite E1, E2.
Qed.

Lemma destroy_inv s : client_inv s -> legal s Destroy = true -> exists s', destroy s = Ok s' /\ client_inv s'.
Proof.
  intros Hi Hl. cbn [legal] in Hl. apply andb_true_iff in Hl as [[Ha Hq%bool_decide_eq_true]%andb_true_iff Hk].
  pose proof (connector_alive_of s Hi Ha) as Hca. destruct (connection_ s) as [i|] eqn:Ei.
  - apply bool_decide_eq_true in Hk. by apply (destroy_connected_inv i).
  - unfold destroy. rewrite Ei. unfold with_connector. rewrite Hca. cbn [defined_ mbind outcome_bind]. eexists. split; [done|].
    pose proof (stop_inv s Hi Hca) as []. constructor; try done.
    + intros i c E. destruct (cl_conn0 i c E) as [H1 H2]. split; [done|]. cbn in *.
      destruct (c_registered c), (is_up c); try done. rewrite Ha, Ei in H2. by destruct H2 as [_ [? _]].
    + intros i E. cbn in E. congruence.
    + intros _. left. cbn. unfold Connector.stop, Connector.cancel_timer. by destruct (Connector.timerId_ _).
    + intros Hg. cbn in Hg. congruence.
Qed.

Lemma client_event_inv s e : client_inv s -> legal s e = true -> exists s', run_event s e = Ok s' /\ client_inv s'.
Proof.
  intros Hi Hl. destruct e as [errno| | | | |peer e|errno i| |i|i| |]; cbn [run_event].
  - cbn [legal] in Hl. apply andb_true_iff in Hl as [Ha Hid]. by apply client_connect_inv.
  - cbn [legal] in Hl. apply andb_true_iff in Hl as [Ha Hid]. by apply connect_other_inv.
  - by apply disconnect_inv.
  - unfold stop, with_connector. cbn [connector_alive set_connect]. rewrite (connector_alive_of s) by done.
    eexists. split; [done|]. apply (stop_inv (set_connect false s)); [by apply client_set_connect_inv|by apply (connector_alive_of s)].
  - eauto using enableRetry_inv.
  - by apply connector_event_inv.
  - by apply close_inv.
  - by apply destroy_task_inv.
  - eexists. split; [done|]. apply keep_inv; [done|]. cbn [legal] in Hl. destruct (conns s !! i) as [c|]; [by exists c|done].
  - by apply drop_inv.
  - by apply destroy_inv.
  - by apply second_inv.
Qed.

Lemma client_run_events_inv es s :
  client_inv s -> legal_run s es = true -> exists s', foldM run_event s es = Ok s' /\ client_inv s'.
Proof.
  revert s. induction es as [|e es IH]; intros s Hi Hl; cbn [foldM legal_run] in *; [by exists s|].
  apply andb_true_iff in Hl as [Hl Hrest]. destruct (client_event_inv s e Hi Hl) as (s1 & E & H1). rewrite E in *.
  cbn [mbind outcome_bind]. by apply IH.
Qed.

(** ** Properties *)

(** Used as intended, a client never fails an assertion, never calls
    through a pointer to an object that is gone and never loses a connection
    the poller still watches. Its connection is the one registered
    connection, and while it stands the connector rests: no socket is being
    connected and no retry timer waits. Every socket the connector hands over
    becomes exactly one connection; every connection that closed waits for
    [connectDestroyed] once; an object exists as long as somebody refers to
    it, and goes only when it is disconnected. After the client is destroyed
    its connector, while it exists, makes no more connections. *)
Theorem client_sound (es : list event) :
  legal_run new_TcpClient es = true ->
  exists s, foldM run_event new_TcpClient es = Ok s /\
    (forall i, connection_ s = Some i <->
       alive s = true /\ exists c, conns s !! i = Some c /\ c_registered c = true) /\
    (connection_ s <> None -> Connector.state_ (connector_ s) = Connector.kConnected /\
       Connector.timers (connector_ s) = ∅ /\ Connector.pending_socket (connector_ s) = ∅) /\
    (forall fd, fd ∈ Connector.handed (connector_ s) <-> exists i c, conns s !! i = Some c /\ c_fd c = fd) /\
    (forall i j c d, conns s !! i = Some c -> conns s !! j = Some d -> c_fd c = c_fd d -> i = j) /\
    NoDup (destroying s) /\
    (forall i, i ∈ destroying s <-> exists c, conns s !! i = Some c /\ is_up c = true /\ c_registered c = false) /\
    (forall i c, conns s !! i = Some c -> (c_alive c = true <-> connection_ s = Some i \/ i ∈ destroying s \/ i ∈ kept s) /\
       (c_alive c = false -> c_state c = TcpConnection.kDisconnected)) /\
    (alive s = false -> Connector.connect_ (connector_ s) = false \/ connector_alive s = false).
Proof.
  intros Hl. destruct (client_run_events_inv es _ new_TcpClient_inv Hl) as (s & -> & Hi). exists s. pose proof Hi as [].
  split; [done|]. split; [|split; [|split; [|split; [|split; [done|split; [|split; [|done]]]]]]].
  - intros i. split; [intros E; destruct (cl_current0 i E) as (? & _ & ?); done|].
    intros (Ha & c & Ec & Hr). destruct (registered_ok s i c (cl_conn0 i c Ec) Hr) as (_ & _ & _ & _ & Hc).
    rewrite Ha in Hc. apply Hc.
  - destruct (connection_ s) as [i|] eqn:Ei; [|done]. intros _. destruct (cl_current0 i eq_refl) as (_ & Hs & _).
    pose proof (Connector.cn_state _ cl_connector0) as Hst. rewrite Hs in Hst. destruct Hst as (Ht & _ & Hch).
    split; [done|]. split; [done|]. unfold Connector.pending_socket.
    by destruct Hch as [[_ ->]|(fd & _ & ->)].
  - intros fd. rewrite (ad_fds _ _ _ cl_adopted0). setoid_rewrite lookup_fmap_Some.
    split; [intros (i & c & <- & E); by exists i, c|intros (i & c & E & <-); by exists i, c].
  - intros i j c d Ei Ej Hfd. apply (ad_inj _ _ _ cl_adopted0 i j (c_fd c)); rewrite lookup_fmap; [by rewrite Ei|].
    by rewrite Ej, Hfd.
  - intros i. split.
    + intros Hin. destruct (cl_destroying0 i Hin) as [c Ec]. exists c. split; [done|].
      destruct (closing_ok s i c (cl_conn0 i c Ec) Hin) as (? & ? & _). done.
    + intros (c & Ec & Hup & Hr). destruct (cl_conn0 i c Ec) as [_ H]. by rewrite Hup, Hr in H.
  - intros i c Ec. destruct (cl_conn0 i c Ec) as [Hal H]. rewrite Hal, referenced_spec. split; [done|].
    intros Hno. destruct (c_registered c) eqn:Hr.
    + destruct (registered_ok s i c (cl_conn0 i c Ec) Hr) as (_ & _ & Hre & _). congruence.
    + destruct (is_up c); [|apply H]. assert (referenced i s = true) by (apply referenced_spec; tauto). congruence.
Qed.

(** A client that loses two connections and reconnects, and is destroyed
    while the user holds the third. *)
Definition example_run : list event :=
  let peer := bs "10.0.0.1:80" in
  [EnableRetry; Connect Connector.ECONNREFUSED; ConnectorEvent peer (Connector.TimerFires 1 Connector.EINPROGRESS);
   ConnectorEvent peer (Connector.Ready false true 0 false); ConnectorEvent peer (Connector.RunTask 0);
   PeerCloses Connector.EINPROGRESS 1; ConnectorEvent peer (Connector.Ready false true 0 false); RunDestroy;
   ConnectorEvent peer (Connector.RunTask 0); Keep 2; PeerCloses 0 2; RunDestroy; Drop 2;
   ConnectorEvent peer (Connector.Ready false true 0 false); ConnectorEvent peer (Connector.RunTask 0); Keep 3;
   Disconnect; Destroy; PeerCloses 0 3; RunDestroy; Drop 3].

Lemma client_sound_witness :
  exists s, foldM run_event new_TcpClient example_run = Ok s /\
    (forall i, connection_ s = Some i <->
       alive s = true /\ exists c, conns s !! i = Some c /\ c_registered c = true) /\
    (connection_ s <> None -> Connector.state_ (connector_ s) = Connector.kConnected /\
       Connector.timers (connector_ s) = ∅ /\ Connector.pending_socket (connector_ s) = ∅) /\
    (forall fd, fd ∈ Connector.handed (connector_ s) <-> exists i c, conns s !! i = Some c /\ c_fd c = fd) /\
    (forall i j c d, conns s !! i = Some c -> conns s !! j = Some d -> c_fd c = c_fd d -> i = j) /\
    NoDup (destroying s) /\
    (forall i, i ∈ destroying s <-> exists c, conns s !! i = Some c /\ is_up c = true /\ c_registered c = false) /\
    (forall i c, conns s !! i = Some c -> (c_alive c = true <-> connection_ s = Some i \/ i ∈ destroying s \/ i ∈ kept s) /\
       (c_alive c = false -> c_state c = TcpConnection.kDisconnected)) /\
    (alive s = false -> Connector.connect_ (connector_ s) = false \/ connector_alive s = false).
Proof. apply (client_sound example_run). vm_compute. reflexivity. Defined.

Example example_run_end :
  match foldM run_event new_TcpClient example_run with
  | Ok s => (nextConnId_ s, alive s, connector_alive s, map (fun p => (p.1, c_name p.2, c_alive p.2)) (map_to_list (conns s)))
  | _ => (0, true, true, [])
  end = (4, false, false, [(3%positive, bs ":10.0.0.1:80#3", false); (2%positive, bs ":10.0.0.1:80#2", false);
                           (1%positive, bs ":10.0.0.1:80#1", false)]).
Proof. vm_compute. reflexivity. Qed.

(** Outside that use: [connect] again after the connection closed finds the
    connector still connected; a client that is destroyed with a connection
    nobody else holds leaves a dangling channel in the poller; and a
    connection attempt that outlives the second fails the assertion of the
    connector's destructor. *)
Theorem client_hazards :
  (forall errno s, connector_alive s = true -> Connector.state_ (connector_ s) = Connector.kConnected ->
     connect errno s = Fail AssertFail) /\
  (let up := [Connect 0; ConnectorEvent [] (Connector.Ready false true 0 false); ConnectorEvent [] (Connector.RunTask 0)] in
   foldM run_event new_TcpClient (up ++ [PeerCloses 0 1; RunDestroy; Connect 0]) = Fail AssertFail /\
   foldM run_event new_TcpClient (up ++ [Destroy]) = Fail Undefined) /\
  foldM run_event new_TcpClient [Connect Connector.EINPROGRESS; Destroy; SecondPasses] = Fail AssertFail.
Proof.
  split; [|split; [split|]; vm_compute; reflexivity]. intros errno s Ha Hs. unfold connect, with_connector.
  cbn [connector_alive connector_ set_connect]. rewrite Ha. cbn [defined_ mbind outcome_bind].
  unfold Connector.start, Connector.startInLoop. cbn [Connector.state_ Connector.set_connect]. by rewrite Hs.
Qed.
