(* ===== verification/Monitor.v ===== *)
(** * Monitor: threads, a mutex and its condition variables

    Models [MutexLock], [MutexLockGuard] and [Condition] of
    [thread/Mutex.h] and [thread/Condition.h], and the interleaving of
    threads that use them.  The body of a member function is a [code]: a
    tree of calls to the mutex and the condition variables, tests of the
    shared members and actions on them.  [exec w t ws] is the next step of
    thread [t]; a step happens on the shared state at once, and any thread
    that can step may be the next one.

    The clients ([BlockingQueue.v], [ThreadPool.v],
    [CountDownLatch.v]) give the meaning of
    actions and tests; this file proves what holds for all of them: the
    locking discipline [typed] is kept, so that one thread at most is between
    [lock] and [unlock], and a state in which no thread can step is one where
    all threads have returned or wait for a condition. *)
From S2P Require Import Prelude.

Abbreviation tid := nat.

(** [MutexLock]: who holds the [pthread_mutex_t], and [holder_]. *)
Record MutexLock := mkMutexLock { owner : option tid; holder_ : option tid }.

Definition new_MutexLock : MutexLock := mkMutexLock None None.
Definition isLockedByThisThread (t : tid) (m : MutexLock) : bool := bool_decide (holder_ m = Some t).
Definition lock (t : tid) (m : MutexLock) : option MutexLock :=
  match owner m with None => Some (mkMutexLock (Some t) (Some t)) | Some _ => None end.
Definition unlock (t : tid) (m : MutexLock) : outcome MutexLock :=
  _ ← defined_ (bool_decide (owner m = Some t)); Ok (mkMutexLock None None).

(** [pthread_cond_wait] works on the [pthread_mutex_t] only: it gives the
    mutex back, and takes it again before it returns. *)
Definition wait_release (t : tid) (m : MutexLock) : outcome MutexLock :=
  _ ← defined_ (bool_decide (owner m = Some t)); Ok (mkMutexLock None (holder_ m)).
Definition wait_acquire (t : tid) (m : MutexLock) : option MutexLock :=
  match owner m with None => Some (mkMutexLock (Some t) (holder_ m)) | Some _ => None end.

Section monitor.
(** [St]: the members the threads share; [A], [B], [C]: names of actions,
    tests and condition variables; [V]: what an action returns; [L]: what a
    thread has still to do when the body it runs returns. *)
Context {St A B C V L : Type} `{EqDecision C}.

Inductive code :=
| Done (l : L)
| Lock (k : code)
| Unlock (k : code)
| While (b : B) (c : C) (k : code)
| Wait (c : C) (k : code)
| Relock (k : code)
| Act (a : A) (k : V -> code)
| If (b : B) (k1 k2 : code)
| Notify (c : C) (k : code)
| NotifyAll (c : C) (k : code)
| Join (b : B) (k : code).

(** [While b c k] is [while (b) c.wait(); k]; [Join b k] blocks until [b].
    A waiting thread is in the condition variable's queue. *)
Inductive thread := Run (c : code) | Waiting (c : C) (k : code).

Record world := mkWorld { mutex_ : MutexLock; shared : St; threads : list thread }.

Variable act : A -> St -> outcome (V * St).
Variable test : B -> St -> bool.
Variable resume : L -> option code.

Definition set_thread (t : tid) (th : thread) (w : world) : world :=
  mkWorld (mutex_ w) (shared w) (<[t := th]> (threads w)).
Definition set_mutex (m : MutexLock) (w : world) : world := mkWorld m (shared w) (threads w).
Definition set_shared (s : St) (w : world) : world := mkWorld (mutex_ w) s (threads w).

Definition waits_on (c : C) (th : thread) : bool :=
  match th with Waiting c' _ => bool_decide (c' = c) | Run _ => false end.
Definition awaken (c : C) (th : thread) : thread :=
  match th with Waiting c' k => if bool_decide (c' = c) then Run (Relock k) else th | Run _ => th end.

(** [pthread_cond_signal] wakes at least one of the threads that wait:
    the set [ws] is the system's choice. *)
Definition may_wake (c : C) (ws : list tid) (ths : list thread) : bool :=
  negb (existsb (waits_on c) ths) || existsb (fun t => match ths !! t with Some th => waits_on c th | None => false end) ws.
Definition wake (c : C) (ws : list tid) (ths : list thread) : list thread :=
  imap (fun t th => if bool_decide (t ∈ ws) then awaken c th else th) ths.
Definition signal (c : C) (ws : list tid) (w : world) : option world :=
  if may_wake c ws (threads w) then Some (mkWorld (mutex_ w) (shared w) (wake c ws (threads w))) else None.
Definition broadcast (c : C) (w : world) : world :=
  mkWorld (mutex_ w) (shared w) (awaken c <$> threads w).

(** The next step of thread [t]; [None] when it cannot step now. *)
Definition exec (w : world) (t : tid) (ws : list tid) : option (outcome world) :=
  match threads w !! t with
  | Some (Run c) =>
      match c with
      | Done l => match resume l with Some k => Some (Ok (set_thread t (Run k) w)) | None => None end
      | Lock k => m ← lock t (mutex_ w); Some (Ok (set_mutex m (set_thread t (Run k) w)))
      | Unlock k => Some (m ← unlock t (mutex_ w); Ok (set_mutex m (set_thread t (Run k) w)))
      | While b c k => Some (Ok (set_thread t (Run (if test b (shared w) then Wait c (While b c k) else k)) w))
      | Wait c k => Some (m ← wait_release t (mutex_ w); Ok (set_mutex m (set_thread t (Waiting c k) w)))
      | Relock k => m ← wait_acquire t (mutex_ w); Some (Ok (set_mutex m (set_thread t (Run k) w)))
      | Act a k => Some ('(v, s) ← act a (shared w); Ok (set_shared s (set_thread t (Run (k v)) w)))
      | If b k1 k2 => Some (Ok (set_thread t (Run (if test b (shared w) then k1 else k2)) w))
      | Notify c k => w ← signal c ws w; Some (Ok (set_thread t (Run k) w))
      | NotifyAll c k => Some (Ok (set_thread t (Run k) (broadcast c w)))
      | Join b k => if test b (shared w) then Some (Ok (set_thread t (Run k) w)) else None
      end
  | Some (Waiting _ _) | None => None
  end.

(** POSIX allows a wait to end by itself; [waitForSeconds] does when its time
    is over. *)
Definition spurious (w : world) (t : tid) : option (outcome world) :=
  match threads w !! t with Some (Waiting c k) => Some (Ok (set_thread t (Run (Relock k)) w)) | _ => None end.

Inductive move := Step (t : tid) (ws : list tid) | Spurious (t : tid).
Definition exec_move (w : world) (m : move) : option (outcome world) :=
  match m with Step t ws => exec w t ws | Spurious t => spurious w t end.

Definition mstep (w w' : world) : Prop := exists m, exec_move w m = Some (Ok w').
Definition own_step (w w' : world) : Prop := exists t ws, exec w t ws = Some (Ok w').

(** No thread can step, unless a wait ends by itself. *)
Definition quiescent (w : world) : Prop := forall t ws, exec w t ws = None.

Fixpoint run_moves (w : world) (ms : list move) : option (outcome world) :=
  match ms with
  | [] => Some (Ok w)
  | m :: ms => match exec_move w m with Some (Ok w') => run_moves w' ms | r => r end
  end.

(** ** The locking discipline

    [typed h c]: started with the mutex held ([h]) or not, [c] never locks
    it twice, never gives it back or waits without it, and returns without
    it. *)
Fixpoint typed (held : bool) (c : code) : Prop :=
  match c with
  | Done _ => held = false
  | Lock k => held = false /\ typed true k
  | Unlock k => held = true /\ typed false k
  | While _ _ k => held = true /\ typed true k
  | Wait _ k => held = true /\ typed true k
  | Relock k => held = false /\ typed true k
  | Act _ k => forall v, typed held (k v)
  | If _ k1 k2 => typed held k1 /\ typed held k2
  | Notify _ k | NotifyAll _ k => typed held k
  | Join _ k => held = false /\ typed held k
  end.

Definition thread_typed (held : bool) (th : thread) : Prop :=
  match th with Run c => typed held c | Waiting _ k => held = false /\ typed true k end.

Definition holds (w : world) (t : tid) : bool := bool_decide (owner (mutex_ w) = Some t).

Record locked (w : world) : Prop := {
  lk_threads : forall t th, threads w !! t = Some th -> thread_typed (holds w t) th;
  lk_owner : forall t, owner (mutex_ w) = Some t -> is_Some (threads w !! t);
}.
(** ** Lemmas: threads *)

Definition has_owner (o : option tid) (t : tid) : bool := bool_decide (o = Some t).

Lemma lookup_wake c ws (ths : list thread) t th :
  wake c ws ths !! t = Some th ->
  exists th0, ths !! t = Some th0 /\ (th = th0 \/ th = awaken c th0).
Proof.
  unfold wake. rewrite list_lookup_imap. destruct (ths !! t) as [th0|]; [|done]. cbn. intros [= <-].
  exists th0. split; [done|]. case_bool_decide; auto.
Qed.

Lemma wake_length c ws (ths : list thread) : length (wake c ws ths) = length ths.
Proof. apply length_imap. Qed.

Lemma awaken_typed c h th : thread_typed h th -> thread_typed h (awaken c th).
Proof. destruct th as [|c' k]; cbn; [done|]. case_bool_decide; done. Qed.

(** Threads other than [t] keep their type; [t] takes the type its new code
    asks for. *)
Lemma locked_update w t th m s ths :
  locked w -> length ths = length (threads w) ->
  (forall t' th', ths !! t' = Some th' -> exists th0, threads w !! t' = Some th0 /\ (th' = th0 \/ exists c, th' = awaken c th0)) ->
  is_Some (threads w !! t) ->
  (forall t', t' <> t -> has_owner (owner m) t' = holds w t') ->
  thread_typed (has_owner (owner m) t) th ->
  locked (mkWorld m s (<[t := th]> ths)).
Proof.
  intros [Hth Hown] Hlen Hths [th0 Ht] Ho Hty. constructor; unfold holds; cbn [mutex_ threads].
  - intros t' th' Hl. apply list_lookup_insert_Some in Hl as [(<- & <- & _)|[Hne Hl]]; [done|].
    change (bool_decide (owner m = Some t')) with (has_owner (owner m) t'). rewrite Ho by done.
    destruct (Hths _ _ Hl) as (th1 & H1 & [-> | [c ->]]); [by apply Hth|by apply awaken_typed, Hth].
  - intros t' E. destruct (decide (t' = t)) as [->|Hne].
    + exists th. apply list_lookup_insert_eq. rewrite Hlen. by apply lookup_lt_Some in Ht.
    + rewrite list_lookup_insert_ne by done. apply lookup_lt_is_Some. rewrite Hlen. apply lookup_lt_is_Some, Hown.
      specialize (Ho t' Hne). unfold has_owner, holds in Ho. rewrite bool_decide_eq_true_2 in Ho by done.
      symmetry in Ho. by apply bool_decide_eq_true in Ho.
Qed.

Lemma same_threads (ths : list thread) t' th' :
  ths !! t' = Some th' -> exists th0, ths !! t' = Some th0 /\ (th' = th0 \/ exists c, th' = awaken c th0).
Proof. intros H. exists th'. auto. Qed.

Lemma only_owner w t t' : holds w t = true -> t' <> t -> has_owner None t' = holds w t'.
Proof.
  unfold holds, has_owner. intros H%bool_decide_eq_true Hne. rewrite H.
  rewrite !bool_decide_eq_false_2; [done|congruence|done].
Qed.

Lemma free_owner w t t' : owner (mutex_ w) = None -> t' <> t -> has_owner (Some t) t' = holds w t'.
Proof. unfold holds, has_owner. intros -> Hne. rewrite !bool_decide_eq_false_2; [done|done|congruence]. Qed.

Lemma has_owner_self t : has_owner (Some t) t = true.
Proof. by apply bool_decide_eq_true_2. Qed.

(** ** The discipline is kept *)

Definition resume_typed : Prop := forall l k, resume l = Some k -> typed false k.

Lemma exec_locked w t ws w' : resume_typed -> locked w -> exec w t ws = Some (Ok w') -> locked w'.
Proof.
  intros Hres Hl. pose proof Hl as [Hth _]. unfold exec. destruct (threads w !! t) as [[c|]|] eqn:Et; [|done|done].
  specialize (Hth _ _ Et). cbn [thread_typed] in Hth.
  pose proof (locked_update w t) as Hup. assert (is_Some (threads w !! t)) as Hs by (by rewrite Et).
  destruct c as [l|k|k|b c k|c k|k|a k|b k1 k2|c k|c k|b k]; cbn [typed] in Hth.
  - destruct (resume l) as [k|] eqn:El; [|done]. intros [= <-]. apply Hup; try done; [apply same_threads|].
    cbn. change (typed (holds w t) k). rewrite Hth. by eapply Hres.
  - unfold lock. destruct (owner (mutex_ w)) eqn:Eo; [done|]. intros [= <-].
    apply Hup; try done; [apply same_threads|by intros; apply free_owner|]. cbn [owner]. rewrite has_owner_self. apply Hth.
  - unfold unlock. destruct (bool_decide _); [|done]. intros [= <-]. destruct Hth as [Hh Hk].
    apply Hup; try done; [apply same_threads|by intros; eapply only_owner].
  - intros [= <-]. apply Hup; try done; [apply same_threads|]. change (has_owner (owner (mutex_ w)) t) with (holds w t).
    destruct Hth as [-> Hk]. by destruct (test b (shared w)).
  - unfold wait_release. destruct (bool_decide _); [|done]. intros [= <-]. destruct Hth as [Hh Hk].
    apply Hup; try done; [apply same_threads|by intros; eapply only_owner].
  - unfold wait_acquire. destruct (owner (mutex_ w)) eqn:Eo; [done|]. intros [= <-].
    apply Hup; try done; [apply same_threads|by intros; apply free_owner|]. cbn [owner]. rewrite has_owner_self. apply Hth.
  - destruct (act a (shared w)) as [[v s]|]; [|done]. intros [= <-]. apply Hup; try done; [apply same_threads|]. apply Hth.
  - intros [= <-]. apply Hup; try done; [apply same_threads|]. destruct Hth. by destruct (test b (shared w)).
  - unfold signal. destruct (may_wake _ _ _); [|done]. intros [= <-]. apply Hup; try done; [apply wake_length|].
    intros t' th' H. apply lookup_wake in H as (th0 & H & [-> | ->]); exists th0; eauto.
  - intros [= <-]. apply Hup; try done; [apply length_fmap|].
    intros t' th'. cbn [broadcast threads]. rewrite list_lookup_fmap. intros (th0 & -> & H)%fmap_Some. exists th0. eauto.
  - destruct (test b (shared w)); [|done]. intros [= <-]. apply Hup; try done; [apply same_threads|]. apply Hth.
Qed.

Lemma move_locked w m w' : resume_typed -> locked w -> exec_move w m = Some (Ok w') -> locked w'.
Proof.
  intros Hres Hl. destruct m as [t ws|t]; [by apply exec_locked|]. cbn [exec_move]. unfold spurious.
  destruct (threads w !! t) as [[|c k]|] eqn:Et; [done| |done]. intros [= <-].
  apply (locked_update w t); try done; [apply same_threads|]. exact (lk_threads w Hl t _ Et).
Qed.

(** Only an action can fail: the mutex is never given back by a thread that
    does not hold it. *)
Lemma exec_fails w m why :
  locked w -> exec_move w m = Some (Fail why) ->
  exists t ws a k, m = Step t ws /\ threads w !! t = Some (Run (Act a k)) /\ act a (shared w) = Fail why.
Proof.
  intros [Hth _]. destruct m as [t ws|t]; cbn [exec_move].
  2: { unfold spurious. destruct (threads w !! t) as [[]|]; congruence. }
  unfold exec. destruct (threads w !! t) as [[c|]|] eqn:Et; [|done|done]. specialize (Hth _ _ Et). cbn [thread_typed] in Hth.
  destruct c as [l|k|k|b c k|c k|k|a k|b k1 k2|c k|c k|b k]; cbn [typed] in Hth.
  - destruct (resume l); congruence.
  - destruct (lock _ _); cbn; congruence.
  - unfold unlock. destruct Hth as [Hh _]. unfold holds in Hh. rewrite Hh. cbn. congruence.
  - congruence.
  - unfold wait_release. destruct Hth as [Hh _]. unfold holds in Hh. rewrite Hh. cbn. congruence.
  - destruct (wait_acquire _ _); cbn; congruence.
  - destruct (act a (shared w)) as [[v s]|e] eqn:Ea; cbn; [congruence|]. intros [= <-]. by exists t, ws, a, k.
  - congruence.
  - unfold signal. destruct (may_wake _ _ _); cbn; congruence.
  - congruence.
  - destruct (test _ _); congruence.
Qed.

(** The other threads are left alone, or woken. *)
Lemma exec_others w t ws w' t' th' :
  exec w t ws = Some (Ok w') -> t' <> t -> threads w' !! t' = Some th' ->
  exists th0, threads w !! t' = Some th0 /\ (th' = th0 \/ exists c, th' = awaken c th0).
Proof.
  intros Hex Hne. assert (forall th ths, <[t := th]> ths !! t' = Some th' -> ths = threads w -> exists th0,
    threads w !! t' = Some th0 /\ (th' = th0 \/ exists c, th' = awaken c th0)) as Hsame.
  { intros th ths Hl ->. rewrite list_lookup_insert_ne in Hl by congruence. by apply same_threads. }
  revert Hex. unfold exec. destruct (threads w !! t) as [[c|]|]; [|done|done].
  destruct c as [l|k|k|b c k|c k|k|a k|b k1 k2|c k|c k|b k].
  - destruct (resume l); [|done]. intros [= <-] Hl. exact (Hsame _ _ Hl eq_refl).
  - destruct (lock _ _); [|done]. intros [= <-] Hl. exact (Hsame _ _ Hl eq_refl).
  - destruct (unlock _ _); [|done]. intros [= <-] Hl. exact (Hsame _ _ Hl eq_refl).
  - intros [= <-] Hl. exact (Hsame _ _ Hl eq_refl).
  - destruct (wait_release _ _); [|done]. intros [= <-] Hl. exact (Hsame _ _ Hl eq_refl).
  - destruct (wait_acquire _ _); [|done]. intros [= <-] Hl. exact (Hsame _ _ Hl eq_refl).
  - destruct (act _ _) as [[v s]|]; [|done]. intros [= <-] Hl. exact (Hsame _ _ Hl eq_refl).
  - intros [= <-] Hl. exact (Hsame _ _ Hl eq_refl).
  - unfold signal. destruct (may_wake _ _ _); [|done]. intros [= <-] Hl. cbn in Hl.
    rewrite list_lookup_insert_ne in Hl by congruence. apply lookup_wake in Hl as (th0 & Hl & [-> | ->]); exists th0; eauto.
  - intros [= <-] Hl. cbn in Hl. rewrite list_lookup_insert_ne, list_lookup_fmap in Hl by congruence.
    apply fmap_Some in Hl as (th0 & Hl & ->). exists th0. eauto.
  - destruct (test _ _); [|done]. intros [= <-] Hl. exact (Hsame _ _ Hl eq_refl).
Qed.

(** Why a thread does not step. *)
Definition stopped (w : world) (th : thread) : Prop :=
  match th with
  | Run (Done l) => resume l = None
  | Run (Join b _) => test b (shared w) = false
  | Run _ => False
  | Waiting _ _ => True
  end.

Lemma exists_wake c (ths : list thread) : exists ws, may_wake c ws ths = true.
Proof.
  unfold may_wake. destruct (existsb (waits_on c) ths) eqn:E; [|by exists []].
  apply existsb_exists in E as (th & Hin & Hw). apply list_elem_of_In, list_elem_of_lookup in Hin as [t Ht].
  exists [t]. cbn. by rewrite Ht, Hw.
Qed.

Lemma quiescent_stopped w :
  locked w -> quiescent w -> owner (mutex_ w) = None /\ forall t th, threads w !! t = Some th -> stopped w th.
Proof.
  intros Hl Hq. pose proof Hl as [Hth Hown].
  assert (forall t c, threads w !! t = Some (Run c) ->
    match c with Lock _ | Relock _ => is_Some (owner (mutex_ w)) | _ => stopped w (Run c) end) as Hrun.
  { intros t c Et. destruct c as [l|k|k|b c k|c k|k|a k|b k1 k2|c k|c k|b k]; cbn [stopped];
      try (destruct (exists_wake c (threads w)) as [ws Hws]; specialize (Hq t ws)); try specialize (Hq t []);
      unfold exec in Hq; rewrite Et in Hq; try done.
    - by destruct (resume l).
    - unfold lock in Hq. by destruct (owner (mutex_ w)).
    - unfold wait_acquire in Hq. by destruct (owner (mutex_ w)).
    - unfold signal in Hq. by rewrite Hws in Hq.
    - by destruct (test b (shared w)). }
  assert (owner (mutex_ w) = None) as Hnone.
  { destruct (owner (mutex_ w)) as [t|] eqn:Eo; [|done]. destruct (Hown t eq_refl) as [th Et].
    assert (holds w t = true) as Hh by (unfold holds; by apply bool_decide_eq_true_2).
    specialize (Hth _ _ Et). rewrite Hh in Hth. destruct th as [c|c k]; cbn in Hth; [|by destruct Hth].
    specialize (Hrun t c Et). destruct c; cbn in Hth, Hrun; try done; by destruct Hth. }
  split; [done|]. intros t [c|c k] Et; [|done]. specialize (Hrun t c Et). rewrite Hnone in Hrun.
  destruct c; try done; by apply is_Some_None in Hrun.
Qed.

(** ** Runs *)

Lemma run_moves_rtc w ms w' : run_moves w ms = Some (Ok w') -> rtc mstep w w'.
Proof.
  induction ms as [|m ms IH] in w |- *; cbn; [intros [= ->]; constructor|].
  destruct (exec_move w m) as [[w1|]|] eqn:E; [|done|done]. intros H. eapply rtc_l; [by exists m|by apply IH].
Qed.

Lemma run_steps_nsteps w l w' :
  run_moves w (map (fun '(t, ws) => Step t ws) l) = Some (Ok w') -> nsteps own_step (length l) w w'.
Proof.
  induction l as [|[t ws] l IH] in w |- *; cbn; [intros [= ->]; constructor|].
  destruct (exec w t ws) as [[w1|]|] eqn:E; [|done|done]. intros H. eapply nsteps_l; [by exists t, ws|by apply IH].
Qed.

(** ** Counting threads *)

Lemma sum_insert {X} (f : X -> Z) (l : list X) t x y : l !! t = Some x -> sum_of f (<[t := y]> l) = sum_of f l - f x + f y.
Proof.
  induction l as [|z l IH] in t |- *; [done|]. destruct t as [|t]; cbn.
  - intros [= ->]. lia.
  - intros H. rewrite IH by done. lia.
Qed.

Lemma sum_le_at {X} (f : X -> Z) (l l' : list X) :
  length l' = length l -> (forall t x y, l !! t = Some x -> l' !! t = Some y -> f x <= f y) -> sum_of f l <= sum_of f l'.
Proof.
  induction l as [|x l IH] in l' |- *; intros Hlen Hle; destruct l' as [|y l']; try done; cbn.
  specialize (IH l' ltac:(by injection Hlen) (fun t => Hle (S t))). pose proof (Hle 0%nat x y eq_refl eq_refl). lia.
Qed.

Lemma sum_lt_at {X} (f : X -> Z) (l l' : list X) t0 x0 y0 :
  length l' = length l -> (forall t x y, l !! t = Some x -> l' !! t = Some y -> f x <= f y) ->
  l !! t0 = Some x0 -> l' !! t0 = Some y0 -> f x0 < f y0 -> sum_of f l + 1 <= sum_of f l'.
Proof.
  induction l as [|x l IH] in l', t0 |- *; intros Hlen Hle H0 H0' Hlt; destruct l' as [|y l']; try done; cbn.
  destruct t0 as [|t0]; cbn in H0, H0'.
  - injection H0 as ->. injection H0' as ->.
    pose proof (sum_le_at f l l' ltac:(by injection Hlen) (fun t => Hle (S t))). lia.
  - specialize (IH l' t0 ltac:(by injection Hlen) (fun t => Hle (S t)) H0 H0' Hlt).
    pose proof (Hle 0%nat x y eq_refl eq_refl). lia.
Qed.

Lemma sum_zero {X} (f : X -> Z) (l : list X) : (forall t x, l !! t = Some x -> f x = 0) -> sum_of f l = 0.
Proof.
  induction l as [|x l IH]; intros H; [done|]. cbn. rewrite (H 0%nat x eq_refl), IH; [done|].
  intros t y Hy. exact (H (S t) y Hy).
Qed.

Lemma sum_one {X} (f : X -> Z) (l : list X) t x : (forall x, 0 <= f x) -> l !! t = Some x -> f x <= sum_of f l.
Proof.
  intros Hf. induction l as [|y l IH] in t |- *; [done|]. pose proof (sum_of_nonneg f l Hf).
  destruct t as [|t]; cbn; [intros [= ->]; lia|]. intros Ht. specialize (IH t Ht). pose proof (Hf y). lia.
Qed.

(** What waking does to a count: [f] of a waiting thread grows when it is
    woken, and by at least one if there was one to wake. *)
Lemma wake_le c ws (ths : list thread) (f : thread -> Z) :
  (forall th, f th <= f (awaken c th)) -> sum_of f ths <= sum_of f (wake c ws ths).
Proof.
  intros Hf. apply sum_le_at; [apply wake_length|]. intros t x y Hx Hy.
  destruct (lookup_wake _ _ _ _ _ Hy) as (x' & Hx' & Hc). rewrite Hx in Hx'. injection Hx' as <-.
  destruct Hc as [-> | ->]; [lia|apply Hf].
Qed.

Lemma wake_ge c ws (ths : list thread) (f : thread -> Z) :
  (forall th, f (awaken c th) <= f th) -> sum_of f (wake c ws ths) <= sum_of f ths.
Proof.
  intros Hf. apply sum_le_at; [by rewrite wake_length|]. intros t y x Hy Hx.
  destruct (lookup_wake _ _ _ _ _ Hy) as (x' & Hx' & Hc). rewrite Hx in Hx'. injection Hx' as <-.
  destruct Hc as [-> | ->]; [lia|apply Hf].
Qed.

Lemma wake_lt c ws (ths : list thread) (f : thread -> Z) :
  (forall th, f th <= f (awaken c th)) ->
  (forall t th, ths !! t = Some th -> waits_on c th = true -> f th < f (awaken c th)) ->
  may_wake c ws ths = true -> existsb (waits_on c) ths = true -> sum_of f ths + 1 <= sum_of f (wake c ws ths).
Proof.
  intros Hf Hlt Hm Hex. unfold may_wake in Hm. rewrite Hex in Hm. cbn in Hm.
  apply existsb_exists in Hm as (t & Hin & Hw). destruct (ths !! t) as [th|] eqn:Et; [|done].
  apply (sum_lt_at f ths _ t th (awaken c th)).
  - apply wake_length.
  - intros t' x y Hx Hy. destruct (lookup_wake _ _ _ _ _ Hy) as (x' & Hx' & Hc). rewrite Hx in Hx'. injection Hx' as <-.
    destruct Hc as [-> | ->]; [lia|apply Hf].
  - done.
  - unfold wake. rewrite list_lookup_imap, Et. cbn. rewrite bool_decide_eq_true_2; [done|by apply list_elem_of_In].
  - by eapply Hlt.
Qed.

Lemma wake_run c ws (ths : list thread) t k : ths !! t = Some (Run k) -> wake c ws ths !! t = Some (Run k).
Proof. unfold wake. rewrite list_lookup_imap. intros ->. cbn. by case_bool_decide. Qed.

Lemma no_waiter_count c (ths : list thread) (f : thread -> Z) :
  (forall th, waits_on c th = false -> f th = 0) -> existsb (waits_on c) ths = false -> sum_of f ths = 0.
Proof.
  intros Hf Hn. apply sum_zero. intros t x Hx. apply Hf.
  destruct (waits_on c x) eqn:E; [|done]. assert (existsb (waits_on c) ths = true); [|congruence].
  apply existsb_exists. exists x. split; [|done]. apply list_elem_of_In. by apply list_elem_of_lookup_2 in Hx.
Qed.

End monitor.

Arguments code : clear implicits.
Arguments thread : clear implicits.
Arguments world : clear implicits.

(** [Condition::wait] leaves [holder_] to the others: after a wait during
    which another thread locked, [isLockedByThisThread] denies the lock that
    the thread holds, and [assertLocked] would fail. *)
Lemma wait_forgets_holder t u m1 m2 m3 m4 m5 :
  lock t new_MutexLock = Some m1 -> wait_release t m1 = Ok m2 -> lock u m2 = Some m3 -> unlock u m3 = Ok m4 ->
  wait_acquire t m4 = Some m5 -> owner m5 = Some t /\ isLockedByThisThread t m5 = false.
Proof.
  unfold lock, wait_release, wait_acquire, unlock. cbn. intros [= <-]. cbn.
  rewrite bool_decide_eq_true_2 by done. cbn. intros [= <-]. cbn. intros [= <-]. cbn.
  rewrite bool_decide_eq_true_2 by done. cbn. intros [= <-]. cbn. intros [= <-]. done.
Qed.
