(* ===== verification/EventLoopThread.v ===== *)
(** * EventLoopThread: a loop in a thread of its own

    Models [EventLoopThread] of [reactor/s13/EventLoopThread.h] and
    [EventLoopThread.cc], with [Thread::start] and [join] of
    [thread/Thread.cc], on the semantics of [Monitor.v]: thread 0 calls
    [startLoop] and later runs the destructor, thread 1 is [threadFunc].  Of
    the loop only what starts and ends it counts ([EventLoop::loop],
    [EventLoop::quit] and the wakeup descriptor); [EventLoop.v] is about the
    rest. *)
From S2P Require Import Prelude Monitor.

(** How the pair is used: whether the owner destroys it only after [loop()]
    has begun, whether the poller may return for other reasons than a wakeup,
    and whether a callback of the loop calls [quit]. *)
Record config := mkConfig { patient : bool; other_events : bool; self_quits : bool }.

(** [loop_]: whether the pointer was set; [alive]: whether the [EventLoop]
    it points to exists; [entered]: whether [loop()] has begun; [finished]:
    whether the thread has ended. *)
Record EventLoopThread := mkELT {
  started_ : bool;
  loop_ : bool;
  alive : bool;
  looping_ : bool;
  entered : bool;
  quit_ : bool;
  eventfd : Z;
  exiting_ : bool;
  joined_ : bool;
  finished : bool;
}.

Definition new_EventLoopThread : EventLoopThread :=
  mkELT false false false false false false 0 false false false.

Section event_loop_thread.
Context (cfg : config).

Inductive eaction :=
| StartThread | SetExiting | SetQuit | WakeupLoop | MarkJoined
| ConstructLoop | SetLoop | EnterLoop | HandleEvents | LeaveLoop | DestroyLoop | FinishThread.
Inductive etest := LoopNull | HasEntered | ThreadStarted | ThreadDone | QuitSet | PollReturns.
Inductive econd := LoopSet.

#[local] Instance econd_eq_dec : EqDecision econd.
Proof. solve_decision. Defined.

(** Where a thread goes on: at the head of the loop in [EventLoop::loop], or
    nowhere. *)
Inductive eplace := LoopTop | End.

Definition eact (a : eaction) (s : EventLoopThread) : outcome (unit * EventLoopThread) :=
  match a with
  | StartThread =>
      _ ← assert_ (negb (started_ s));
      Ok (tt, mkELT true (loop_ s) (alive s) (looping_ s) (entered s) (quit_ s) (eventfd s) (exiting_ s) (joined_ s) (finished s))
  | SetExiting =>
      Ok (tt, mkELT (started_ s) (loop_ s) (alive s) (looping_ s) (entered s) (quit_ s) (eventfd s) true (joined_ s) (finished s))
  | SetQuit =>
      _ ← defined_ (loop_ s && alive s);
      Ok (tt, mkELT (started_ s) (loop_ s) (alive s) (looping_ s) (entered s) true (eventfd s) (exiting_ s) (joined_ s) (finished s))
  | WakeupLoop =>
      _ ← defined_ (loop_ s && alive s);
      Ok (tt, mkELT (started_ s) (loop_ s) (alive s) (looping_ s) (entered s) (quit_ s) (eventfd s + 1) (exiting_ s) (joined_ s) (finished s))
  | MarkJoined =>
      _ ← assert_ (started_ s);
      _ ← assert_ (negb (joined_ s));
      Ok (tt, mkELT (started_ s) (loop_ s) (alive s) (looping_ s) (entered s) (quit_ s) (eventfd s) (exiting_ s) true (finished s))
  | ConstructLoop =>
      Ok (tt, mkELT (started_ s) (loop_ s) true (looping_ s) (entered s) (quit_ s) (eventfd s) (exiting_ s) (joined_ s) (finished s))
  | SetLoop =>
      Ok (tt, mkELT (started_ s) true (alive s) (looping_ s) (entered s) (quit_ s) (eventfd s) (exiting_ s) (joined_ s) (finished s))
  | EnterLoop =>
      _ ← assert_ (negb (looping_ s));
      Ok (tt, mkELT (started_ s) (loop_ s) (alive s) true true false (eventfd s) (exiting_ s) (joined_ s) (finished s))
  | HandleEvents =>
      Ok (tt, mkELT (started_ s) (loop_ s) (alive s) (looping_ s) (entered s) (quit_ s || self_quits cfg) 0 (exiting_ s) (joined_ s) (finished s))
  | LeaveLoop =>
      Ok (tt, mkELT (started_ s) (loop_ s) (alive s) false (entered s) (quit_ s) (eventfd s) (exiting_ s) (joined_ s) (finished s))
  | DestroyLoop =>
      _ ← assert_ (negb (looping_ s));
      Ok (tt, mkELT (started_ s) (loop_ s) false (looping_ s) (entered s) (quit_ s) (eventfd s) (exiting_ s) (joined_ s) (finished s))
  | FinishThread =>
      Ok (tt, mkELT (started_ s) (loop_ s) (alive s) (looping_ s) (entered s) (quit_ s) (eventfd s) (exiting_ s) (joined_ s) true)
  end.

Definition etest_ (b : etest) (s : EventLoopThread) : bool :=
  match b with
  | LoopNull => negb (loop_ s)
  | HasEntered => entered s
  | ThreadStarted => started_ s
  | ThreadDone => finished s
  | QuitSet => quit_ s
  | PollReturns => other_events cfg || (0 <? eventfd s)
  end.

Abbreviation code := (code eaction etest econd unit eplace).
Abbreviation thread := (thread eaction etest econd unit eplace).
Abbreviation world := (world EventLoopThread eaction etest econd unit eplace).

(** [quit] writes [quit_] first and the wakeup descriptor then. *)
Definition quit (k : code) : code := Act SetQuit (fun _ => Act WakeupLoop (fun _ => k)).
Definition join (k : code) : code := Act MarkJoined (fun _ => Join ThreadDone k).

Definition destructor : code := Act SetExiting (fun _ => quit (join (Done End))).

(** [startLoop], then what the owner does before the destructor. *)
Definition use : code := if patient cfg then Join HasEntered destructor else destructor.
Definition startLoop : code :=
  Act StartThread (fun _ => Lock (While LoopNull LoopSet (Unlock use))).

(** [loop.loop()]: the test of [quit_], the poller and the callbacks. *)
Definition after_loop : code :=
  Act LeaveLoop (fun _ => Act DestroyLoop (fun _ => Act FinishThread (fun _ => Done End))).
Definition poll : code := Join PollReturns (Act HandleEvents (fun _ => Done LoopTop)).
Definition eresume (l : eplace) : option code :=
  match l with LoopTop => Some (If QuitSet after_loop poll) | End => None end.

Definition threadFunc : code :=
  Join ThreadStarted (Act ConstructLoop (fun _ =>
    Lock (Act SetLoop (fun _ => Notify LoopSet (Unlock (Act EnterLoop (fun _ => Done LoopTop))))))).

Definition start_thread : world := mkWorld new_MutexLock new_EventLoopThread [Run startLoop; Run threadFunc].

Definition emove := exec_move eact etest_ eresume.
Definition estep := mstep eact etest_ eresume.
Definition equiescent := quiescent eact etest_ eresume.

(** ** Where the threads are *)

Inductive ostage :=
| ONew | OLock | OTest | OWait | OWaiting | ORelock | OUnlock | OReady | OExit | OQuit | OWake | OJoin | OJoining | OEnd.
Inductive tstage :=
| TNew | TConstruct | TLock | TSet | TNotify | TUnlock | TEnter | TTop | TTest | TPoll | THandle
| TLeave | TDestroy | TFinish | TEnd.

Definition wait_loop : code := While LoopNull LoopSet (Unlock use).

Definition othread (o : ostage) : thread :=
  match o with
  | ONew => Run startLoop
  | OLock => Run (Lock wait_loop)
  | OTest => Run wait_loop
  | OWait => Run (Wait LoopSet wait_loop)
  | OWaiting => Waiting LoopSet wait_loop
  | ORelock => Run (Relock wait_loop)
  | OUnlock => Run (Unlock use)
  | OReady => Run (Join HasEntered destructor)
  | OExit => Run destructor
  | OQuit => Run (quit (join (Done End)))
  | OWake => Run (Act WakeupLoop (fun _ => join (Done End)))
  | OJoin => Run (join (Done End))
  | OJoining => Run (Join ThreadDone (Done End))
  | OEnd => Run (Done End)
  end.
Definition tthread (t : tstage) : thread :=
  match t with
  | TNew => Run threadFunc
  | TConstruct => Run (Act ConstructLoop (fun _ =>
      Lock (Act SetLoop (fun _ => Notify LoopSet (Unlock (Act EnterLoop (fun _ => Done LoopTop)))))))
  | TLock => Run (Lock (Act SetLoop (fun _ => Notify LoopSet (Unlock (Act EnterLoop (fun _ => Done LoopTop))))))
  | TSet => Run (Act SetLoop (fun _ => Notify LoopSet (Unlock (Act EnterLoop (fun _ => Done LoopTop)))))
  | TNotify => Run (Notify LoopSet (Unlock (Act EnterLoop (fun _ => Done LoopTop))))
  | TUnlock => Run (Unlock (Act EnterLoop (fun _ => Done LoopTop)))
  | TEnter => Run (Act EnterLoop (fun _ => Done LoopTop))
  | TTop => Run (Done LoopTop)
  | TTest => Run (If QuitSet after_loop poll)
  | TPoll => Run poll
  | THandle => Run (Act HandleEvents (fun _ => Done LoopTop))
  | TLeave => Run after_loop
  | TDestroy => Run (Act DestroyLoop (fun _ => Act FinishThread (fun _ => Done End)))
  | TFinish => Run (Act FinishThread (fun _ => Done End))
  | TEnd => Run (Done End)
  end.

Definition orank (o : ostage) : Z :=
  match o with
  | ONew => 0 | OLock => 1 | OTest => 2 | OWait => 3 | OWaiting => 4 | ORelock => 5 | OUnlock => 6
  | OReady => 7 | OExit => 8 | OQuit => 9 | OWake => 10 | OJoin => 11 | OJoining => 12 | OEnd => 13
  end.
Definition trank (t : tstage) : Z :=
  match t with
  | TNew => 0 | TConstruct => 1 | TLock => 2 | TSet => 3 | TNotify => 4 | TUnlock => 5 | TEnter => 6
  | TTop => 7 | TTest => 8 | TPoll => 9 | THandle => 10 | TLeave => 11 | TDestroy => 12 | TFinish => 13 | TEnd => 14
  end.

(** Between [lock] and [unlock]. *)
Definition o_inside (o : ostage) : bool := match o with OTest | OWait | OUnlock => true | _ => false end.
Definition t_inside (t : tstage) : bool := match t with TSet | TNotify | TUnlock => true | _ => false end.

(** ** Invariant *)

Record stage_inv (o : ostage) (t : tstage) (s : EventLoopThread) : Prop := {
  si_inside : o_inside o && t_inside t = false;
  si_started : started_ s = (1 <=? orank o);
  si_born : 1 <= trank t -> 1 <= orank o;
  si_loop : loop_ s = (4 <=? trank t);
  si_alive : alive s = (2 <=? trank t) && (trank t <=? 12);
  si_looping : looping_ s = (7 <=? trank t) && (trank t <=? 11);
  si_entered : entered s = (7 <=? trank t);
  si_exiting : exiting_ s = (9 <=? orank o);
  si_joined : joined_ s = (12 <=? orank o);
  si_finished : finished s = (trank t =? 14);
  si_wait : orank o = 3 -> trank t <= 2;
  si_waiting : orank o = 4 -> trank t <= 4;
  si_returned : 6 <= orank o -> 4 <= trank t;
  si_ready : orank o = 7 -> patient cfg = true;
  si_patient : patient cfg = true -> 8 <= orank o -> 7 <= trank t;
  si_quit : quit_ s = true -> self_quits cfg = true \/ 10 <= orank o;
  si_kept : patient cfg = true -> 10 <= orank o -> quit_ s = true;
  si_left : 11 <= trank t -> quit_ s = true;
  si_poll : trank t = 9 -> quit_ s = true -> orank o = 10 \/ 0 < eventfd s;
  si_eventfd : 0 <= eventfd s;
  si_end : orank o = 13 -> trank t = 14;
}.

Record thread_inv (o : ostage) (t : tstage) (w : world) : Prop := {
  ti_threads : threads w = [othread o; tthread t];
  ti_owner : owner (mutex_ w) = if o_inside o then Some 0%nat else if t_inside t then Some 1%nat else None;
  ti_stage : stage_inv o t (shared w);
}.

(** ** Lemmas *)

Lemma eresume_typed : resume_typed eresume.
Proof. intros [|] k; cbn; [intros [= <-]|done]. cbn. by split_and!. Qed.

Lemma start_thread_inv : thread_inv ONew TNew start_thread.
Proof. constructor; [done|done|]. constructor; cbn; try done; lia. Qed.

Ltac stage_step Hs := destruct (Hs); constructor; cbn in *; try done; try lia; try congruence; try tauto; try (intros; lia);
  try (let H1 := fresh in let H := fresh in intros H1; destruct (si_quit _ _ _ Hs H1) as [H|H]; cbn in H; [by left|right; lia]);
  try (let H1 := fresh in let H2 := fresh in let H := fresh in
       intros H1 H2; pose proof (si_poll _ _ _ Hs H1 H2) as H; cbn in H; lia);
  try (let H1 := fresh in intros H1 _; first [apply (si_patient _ _ _ Hs H1) | apply (si_kept _ _ _ Hs H1)]; cbn; lia);
  try (let H1 := fresh in intros H1; apply (si_left _ _ _ Hs); cbn; lia).

Lemma owner_step o t w ws w' :
  thread_inv o t w -> exec eact etest_ eresume w 0%nat ws = Some (Ok w') -> exists o', thread_inv o' t w'.
Proof.
  destruct w as [m s ths]. intros [Hth Ho Hs]. cbn in Hth, Ho, Hs. subst ths. unfold exec. cbn [threads lookup list_lookup].
  destruct o; cbn [othread]; unfold wait_loop, startLoop, destructor, quit, join.
  - cbn [eact shared]. rewrite (si_started _ _ _ Hs). cbn. intros [= <-]. exists OLock. constructor; [done|done|]. stage_step Hs.
  - unfold lock. cbn [mutex_]. destruct (owner m) eqn:Em; [done|]. intros [= <-]. exists OTest. constructor; [done|done|].
    assert (t_inside t = false) as Ht by (by destruct (t_inside t)). stage_step Hs.
  - cbn [etest_ shared]. destruct (loop_ s) eqn:El; intros [= <-]; cbn [negb].
    + exists OUnlock. constructor; [done|done|]. rewrite (si_loop _ _ _ Hs) in El. stage_step Hs.
    + exists OWait. constructor; [done|done|]. rewrite (si_loop _ _ _ Hs) in El. stage_step Hs.
      intros _. destruct t; cbn in *; try done; lia.
  - unfold wait_release. cbn [mutex_]. rewrite Ho. cbn. intros [= <-]. exists OWaiting. constructor; [done| |].
    + cbn. pose proof (si_inside _ _ _ Hs) as Hi. cbn in Hi. by rewrite Hi.
    + pose proof (si_wait _ _ _ Hs eq_refl). stage_step Hs.
  - done.
  - unfold wait_acquire. cbn [mutex_]. destruct (owner m) eqn:Em; [done|]. intros [= <-]. exists OTest. constructor; [done|done|].
    assert (t_inside t = false) as Ht by (by destruct (t_inside t)). stage_step Hs.
  - unfold unlock. cbn [mutex_]. rewrite Ho. cbn. intros [= <-]. pose proof (si_inside _ _ _ Hs) as Hi. cbn in Hi.
    unfold use. destruct (patient cfg) eqn:Ep.
    + exists OReady. constructor; [done|cbn; by rewrite Hi|]. stage_step Hs.
    + exists OExit. constructor; [done|cbn; by rewrite Hi|]. stage_step Hs.
  - cbn [etest_ shared]. destruct (entered s) eqn:Ee; [|done]. intros [= <-]. exists OExit. constructor; [done|done|].
    rewrite (si_entered _ _ _ Hs) in Ee. stage_step Hs.
  - cbn [eact shared]. cbn. intros [= <-]. exists OQuit. constructor; [done|done|]. stage_step Hs.
  - cbn [eact shared]. destruct (loop_ s && alive s); [|done]. cbn. intros [= <-]. exists OWake. constructor; [done|done|]. stage_step Hs.
  - cbn [eact shared]. destruct (loop_ s && alive s); [|done]. cbn. intros [= <-]. exists OJoin. constructor; [done|done|]. stage_step Hs.
  - cbn [eact shared]. rewrite (si_started _ _ _ Hs), (si_joined _ _ _ Hs). cbn. intros [= <-]. exists OJoining. constructor; [done|done|].
    stage_step Hs.
  - cbn [etest_ shared]. destruct (finished s) eqn:Ef; [|done]. intros [= <-]. exists OEnd. constructor; [done|done|].
    rewrite (si_finished _ _ _ Hs) in Ef. stage_step Hs.
  - done.
Qed.

(** A wakeup moves the owner out of its wait. *)
Definition woken (o : ostage) : ostage := match o with OWaiting => ORelock | _ => o end.

Lemma wake_owner ws o t :
  may_wake LoopSet ws [othread o; tthread t] = true -> wake LoopSet ws [othread o; tthread t] = [othread (woken o); tthread t].
Proof.
  intros Hw. assert (forall b, (if b : bool then awaken LoopSet (tthread t) else tthread t) = tthread t) as Ht
    by (intros []; by destruct t).
  transitivity [if bool_decide (0%nat ∈ ws) then awaken LoopSet (othread o) else othread o;
                if bool_decide (1%nat ∈ ws) then awaken LoopSet (tthread t) else tthread t]; [reflexivity|].
  rewrite Ht. f_equal. destruct o; cbn [othread awaken woken]; try by case_bool_decide.
  rewrite bool_decide_eq_true_2; [done|]. unfold may_wake in Hw. apply orb_true_iff in Hw as [Hw|Hw].
  - cbn in Hw. done.
  - apply existsb_exists in Hw as (x & Hin & Hx). destruct x as [|[|x]]; cbn in Hx; [by apply list_elem_of_In|by destruct t|done].
Qed.

Lemma loop_step o t w ws w' :
  thread_inv o t w -> exec eact etest_ eresume w 1%nat ws = Some (Ok w') -> exists o' t', thread_inv o' t' w'.
Proof.
  destruct w as [m s ths]. intros [Hth Ho Hs]. cbn in Hth, Ho, Hs. subst ths. unfold exec. cbn [threads lookup list_lookup].
  destruct t; cbn [tthread]; unfold threadFunc, poll, after_loop.
  - cbn [etest_ shared]. destruct (started_ s) eqn:Es; [|done]. intros [= <-]. exists o, TConstruct. constructor; [done|done|].
    rewrite (si_started _ _ _ Hs) in Es. stage_step Hs.
  - cbn. intros [= <-]. exists o, TLock. constructor; [done|done|]. stage_step Hs.
  - unfold lock. cbn [mutex_]. destruct (owner m) eqn:Em; [done|]. intros [= <-]. exists o, TSet.
    assert (o_inside o = false) as Hi by (by destruct (o_inside o)). constructor; [done|cbn; by rewrite Hi|]. stage_step Hs.
    + by rewrite Hi.
    + intros Ho3. by destruct o.
  - cbn. intros [= <-]. exists o, TNotify. constructor; [done|done|]. stage_step Hs.
  - unfold signal. cbn [threads]. destruct (may_wake _ _ _) eqn:Ew; [|done]. intros [= <-]. exists (woken o), TUnlock.
    unfold set_thread. cbn [threads mutex_ shared]. change (Run (Notify LoopSet _)) with (tthread TNotify).
    rewrite (wake_owner ws o TNotify Ew). constructor; [done|by destruct o|]. destruct o; stage_step Hs.
  - unfold unlock. cbn [mutex_]. pose proof (si_inside _ _ _ Hs) as Hi. rewrite andb_true_r in Hi. rewrite Hi in Ho.
    rewrite Ho. cbn. intros [= <-]. exists o, TEnter. constructor; [done|cbn; by rewrite Hi|]. stage_step Hs.
  - cbn [eact shared]. rewrite (si_looping _ _ _ Hs). cbn. intros [= <-]. exists o, TTop. constructor; [done|done|]. stage_step Hs.
    intros Hp Ho'. pose proof (si_patient _ _ _ Hs Hp) as H. cbn in H. lia.
  - cbn. intros [= <-]. exists o, TTest. constructor; [done|done|]. stage_step Hs.
  - cbn [etest_ shared]. destruct (quit_ s) eqn:Eq; intros [= <-].
    + exists o, TLeave. constructor; [done|done|]. stage_step Hs.
    + exists o, TPoll. constructor; [done|done|]. stage_step Hs.
  - cbn [etest_ shared]. destruct (_ || _); [|done]. intros [= <-]. exists o, THandle. constructor; [done|done|]. stage_step Hs.
  - cbn. intros [= <-]. exists o, TTop. constructor; [done|done|]. stage_step Hs.
    + intros [Hq|Hq]%orb_true_iff; [by apply (si_quit _ _ _ Hs)|by left].
    + intros Hp Ho'. by rewrite (si_kept _ _ _ Hs Hp Ho').
  - cbn. intros [= <-]. exists o, TDestroy. constructor; [done|done|]. stage_step Hs.
  - cbn [eact shared]. rewrite (si_looping _ _ _ Hs). cbn. intros [= <-]. exists o, TFinish. constructor; [done|done|]. stage_step Hs.
  - cbn. intros [= <-]. exists o, TEnd. constructor; [done|done|]. stage_step Hs.
  - done.
Qed.

Lemma move_inv o t w m w' : thread_inv o t w -> emove w m = Some (Ok w') -> exists o' t', thread_inv o' t' w'.
Proof.
  intros Hi. pose proof Hi as [Hth Ho Hs]. destruct m as [[|[|tid]] ws|tid]; unfold emove; cbn [exec_move].
  - intros H. destruct (owner_step o t w ws w' Hi H) as [o' ?]. by exists o', t.
  - by apply (loop_step o t).
  - unfold exec. by rewrite Hth.
  - unfold spurious. rewrite Hth. destruct tid as [|[|tid]]; cbn.
    + destruct o; cbn; try done. intros [= <-]. exists ORelock, t. unfold set_thread. rewrite Hth. constructor; [done|done|]. stage_step Hs.
    + by destruct t.
    + done.
Qed.

Lemma thread_reachable w : rtc estep start_thread w -> exists o t, thread_inv o t w.
Proof.
  intros Hr. apply (rtc_invariant estep (fun w => exists o t, thread_inv o t w) start_thread); [|eauto using start_thread_inv|done].
  intros x y (o & t & Hx) [m Hm]. by eapply move_inv.
Qed.

(** The invariant of [Monitor.v] follows. *)
Lemma thread_locked o t w : thread_inv o t w -> locked w.
Proof.
  intros [Hth Ho Hs]. constructor; unfold holds; rewrite Ho, Hth.
  - pose proof (si_inside _ _ _ Hs) as Hi. pose proof eresume_typed as Hres.
    intros [|[|tid]] th; cbn; [intros [= <-]|intros [= <-]|done].
    + destruct o; cbn in *; rewrite ?Hi; unfold use; try destruct (patient cfg); destruct (t_inside t) eqn:Et; cbn; try done; by split_and!.
    + destruct t; cbn in *; rewrite ?andb_true_r in Hi; destruct (o_inside o) eqn:Eo; cbn; try done; by split_and!.
  - intros tid. destruct (o_inside o); [intros [= <-]; by eexists|]. destruct (t_inside t); [intros [= <-]; by eexists|done].
Qed.

Lemma fails_late o t w m why :
  thread_inv o t w -> emove w m = Some (Fail why) -> alive (shared w) = false /\ why = Undefined /\ (o = OQuit \/ o = OWake).
Proof.
  intros Hi Hf. pose proof Hi as [Hth Ho Hs].
  destruct (exec_fails _ _ _ w m why (thread_locked o t w Hi) Hf) as (tid & ws & a & k & -> & Et & Ha).
  rewrite Hth in Et. pose proof (si_returned _ _ _ Hs) as Hret. destruct tid as [|[|tid]]; [| |done]; cbn in Et; injection Et as Et.
  - destruct o; try discriminate Et; cbn in Et; injection Et as <- <-; cbn in Ha.
    + by rewrite (si_started _ _ _ Hs) in Ha.
    + done.
    + rewrite (si_loop _ _ _ Hs), (proj2 (Z.leb_le _ _) (Hret ltac:(done))) in Ha. cbn in Ha.
      destruct (alive (shared w)); [done|]. cbn in Ha. split_and!; [done|congruence|by left].
    + rewrite (si_loop _ _ _ Hs), (proj2 (Z.leb_le _ _) (Hret ltac:(done))) in Ha. cbn in Ha.
      destruct (alive (shared w)); [done|]. cbn in Ha. split_and!; [done|congruence|by right].
    + by rewrite (si_started _ _ _ Hs), (si_joined _ _ _ Hs) in Ha.
  - destruct t; try discriminate Et; cbn in Et; injection Et as <- <-; cbn in Ha; try done.
    + by rewrite (si_looping _ _ _ Hs) in Ha.
    + by rewrite (si_looping _ _ _ Hs) in Ha.
Qed.

Lemma quiescent_ends o t w :
  thread_inv o t w -> equiescent w ->
  o = OEnd /\ t = TEnd \/ o = OJoining /\ t = TPoll /\ patient cfg = false /\ quit_ (shared w) = false.
Proof.
  intros Hi Hq. pose proof Hi as [Hth Ho Hs]. destruct (quiescent_stopped _ _ _ w (thread_locked o t w Hi) Hq) as [_ Hst].
  pose proof (Hst 0%nat (othread o) ltac:(by rewrite Hth)) as H0. pose proof (Hst 1%nat (tthread t) ltac:(by rewrite Hth)) as H1.
  clear Hst Hq. destruct Hs. destruct t; cbn in H1; try done; destruct o; cbn in H0; try done; cbn in *; try lia; try congruence; try (by left).
  right. apply orb_false_iff in H1 as [_ Hfd%Z.ltb_ge].
  assert (quit_ (shared w) = false) as Hquit.
  { destruct (quit_ (shared w)); [|done]. destruct (si_poll0 eq_refl eq_refl); lia. }
  split_and!; try done. destruct (patient cfg); [|done]. specialize (si_kept0 eq_refl ltac:(lia)). congruence.
Qed.
End event_loop_thread.

#[export] Existing Instance econd_eq_dec.

(** ** Properties *)

(** A thread with its loop, under every interleaving of the owner, the
    thread and spurious wakeups. When [startLoop] returns the pointer is
    set, and the loop it points to exists unless a callback made it quit.
    Nothing fails but a [quit] on a loop that is already destroyed, because a
    callback had made it quit, or it saw [quit_] before the owner's [quit]
    came to its second half, [wakeup]. No wakeup is lost: if the
    owner waits until [loop()] has begun, everything that comes to rest has
    ended, the loop destroyed and the thread joined. Otherwise [loop()] may
    forget the [quit], and then the owner is in [join] and the loop in
    the poller for ever. *)
Theorem loop_thread_life (cfg : config) w :
  rtc (estep cfg) (start_thread cfg) w ->
  (threads w !! 0%nat = Some (Run (use cfg)) ->
     loop_ (shared w) = true /\ (self_quits cfg = false -> alive (shared w) = true)) /\
  (forall m why, emove cfg w m = Some (Fail why) ->
     why = Undefined /\ alive (shared w) = false /\ quit_ (shared w) = true /\
     (self_quits cfg = true \/ threads w !! 0%nat = Some (Run (Act WakeupLoop (fun _ => join (Done End)))))) /\
  (equiescent cfg w ->
     (threads w = [Run (Done End); Run (Done End)] /\ alive (shared w) = false /\ finished (shared w) = true /\
      joined_ (shared w) = true) \/
     (patient cfg = false /\ threads w = [Run (Join ThreadDone (Done End)); Run poll] /\ quit_ (shared w) = false)).
Proof.
  intros Hr. destruct (thread_reachable cfg w Hr) as (o & t & Hi). pose proof Hi as [Hth _ Hs]. split; [|split].
  - rewrite Hth. cbn. intros [= Hu]. assert (orank o = 7 \/ orank o = 8) as Ho.
    { unfold use in Hu. destruct o; cbn in *; try tauto; exfalso; destruct (patient cfg); discriminate Hu. }
    pose proof (si_returned _ _ _ _ Hs ltac:(lia)) as Ht.
    rewrite (si_loop _ _ _ _ Hs), (si_alive _ _ _ _ Hs). split; [lia|]. intros Hself.
    destruct (decide (11 <= trank t)) as [Hl|Hl]; [|lia].
    destruct (si_quit _ _ _ _ Hs (si_left _ _ _ _ Hs Hl)); [congruence|lia].
  - intros m why Hf. destruct (fails_late cfg o t w m why Hi Hf) as (Ha & -> & Ho).
    rewrite (si_alive _ _ _ _ Hs) in Ha. pose proof (si_returned _ _ _ _ Hs ltac:(by destruct Ho as [-> | ->])) as Ht.
    assert (quit_ (shared w) = true) as Hq by (apply (si_left _ _ _ _ Hs); lia).
    split; [done|]. split; [rewrite (si_alive _ _ _ _ Hs); lia|]. split; [done|].
    destruct (si_quit _ _ _ _ Hs Hq) as [?|Hr10]; [by left|right]. rewrite Hth. destruct Ho as [-> | ->]; [cbn in Hr10; lia|done].
  - intros Hq. destruct (quiescent_ends cfg o t w Hi Hq) as [[-> ->]|(-> & -> & ? & ?)]; [left|by right].
    split; [done|]. by rewrite (si_alive _ _ _ _ Hs), (si_finished _ _ _ _ Hs), (si_joined _ _ _ _ Hs).
Qed.

Definition steps_of (l : list nat) : list move := map (fun t => Step t (if bool_decide (t = 1%nat) then [0%nat] else [])) l.
Definition run_thread (cfg : config) (l : list nat) := run_moves (eact cfg) (etest_ cfg) eresume (start_thread cfg) (steps_of l).

(** The owner waits on the condition, uses the loop and destroys it. *)
Definition good_schedule : list nat :=
  repeat 0%nat 4 ++ repeat 1%nat 6 ++ repeat 0%nat 3 ++ repeat 1%nat 3 ++ repeat 0%nat 5 ++ repeat 1%nat 7 ++ [0%nat].

Definition final_world (cfg : config) : world EventLoopThread eaction etest econd unit eplace :=
  match run_thread cfg good_schedule with Some (Ok w) => w | _ => start_thread cfg end.

Lemma loop_thread_life_witness :
  let cfg := mkConfig true false false in
  rtc (estep cfg) (start_thread cfg) (final_world cfg) /\ equiescent cfg (final_world cfg) /\
  threads (final_world cfg) = [Run (Done End); Run (Done End)] /\ alive (shared (final_world cfg)) = false.
Proof.
  intros cfg. assert (rtc (estep cfg) (start_thread cfg) (final_world cfg)) as Hr
    by (apply (run_moves_rtc _ _ _ _ (steps_of good_schedule)); vm_compute; reflexivity).
  assert (equiescent cfg (final_world cfg)) as Hq by (intros [|[|t]] ws; vm_compute; reflexivity).
  split; [exact Hr|]. split; [exact Hq|].
  destruct (loop_thread_life cfg _ Hr) as (_ & _ & H). destruct (H Hq) as [(H1 & H2 & _)|(Hp & _)]; [by split|discriminate Hp].
Defined.

(** What goes wrong: a [quit] that comes before [loop()] is forgotten; one
    that the loop sees early makes [wakeup] use a loop that is gone; a loop
    that quit by itself leaves a dangling pointer; and without [startLoop]
    the pointer is null. *)
Theorem loop_thread_hazards :
  (exists w, run_thread (mkConfig false false false)
     ([0; 1; 1; 1; 1; 1; 1] ++ repeat 0 7 ++ repeat 1 7)%nat = Some (Ok w) /\
     equiescent (mkConfig false false false) w /\ exiting_ (shared w) = true /\ quit_ (shared w) = false /\
     finished (shared w) = false) /\
  run_thread (mkConfig true false false)
    ([0; 1; 1; 1; 1; 1; 1; 1] ++ repeat 0 6 ++ repeat 1 4 ++ [0])%nat = Some (Fail Undefined) /\
  run_thread (mkConfig true true true)
    ([0; 1; 1; 1; 1; 1; 1; 1] ++ repeat 1 8 ++ repeat 0 6)%nat = Some (Fail Undefined) /\
  eact (mkConfig true true true) SetQuit new_EventLoopThread = Fail Undefined.
Proof.
  split; [|split; [|split]]; [|vm_compute; reflexivity..].
  eexists. split; [vm_compute; reflexivity|]. split; [|done]. intros [|[|t]] ws; vm_compute; reflexivity.
Qed.
