(* ===== verification/BlockingQueue.v ===== *)
(** * BlockingQueue: producers and consumers

    Models [BlockingQueue] and [BoundedBlockingQueue] of
    [thread/BlockingQueue.h] and [thread/BoundedBlockingQueue.h]: any number
    of threads that put, take and look, each through a script of calls, on
    the semantics of [Monitor.v].  [boost::circular_buffer] is a list with a
    capacity; full, it drops its oldest element on [push_back]. *)
From S2P Require Import Prelude Monitor.

Section queue.
Context {T : Type}.

(** [None]: a [BlockingQueue]; [Some n]: a [BoundedBlockingQueue(n)]. *)
Variable maxSize : option nat.

(** [queue_], with the values put and taken so far. *)
Record queue := mkQueue { queue_ : list T; put_log : list T; take_log : list T }.

Definition new_queue : queue := mkQueue [] [] [].

Inductive observer := Size | IsEmpty | IsFull | Capacity.
Inductive qaction := AssertNotFull | PushBack (x : T) | AssertNotEmpty | PopFront | Observe (o : observer).
Inductive qtest := Full | Empty.
Inductive qcond := NotEmpty | NotFull.
Inductive value := VUnit | VElem (x : T) | VBool (b : bool) | VNum (n : option nat).
Inductive call := Put (x : T) | Take | Look (o : observer).

#[local] Instance qcond_eq_dec : EqDecision qcond.
Proof. solve_decision. Defined.

Definition qfull (s : queue) : bool :=
  match maxSize with Some n => bool_decide (length (queue_ s) = n) | None => false end.
Definition qempty (s : queue) : bool := bool_decide (queue_ s = []).

Definition qtest_ (b : qtest) (s : queue) : bool := match b with Full => qfull s | Empty => qempty s end.

Definition push_back (x : T) (s : queue) : queue :=
  mkQueue ((if qfull s then tail (queue_ s) else queue_ s) ++ [x]) (put_log s ++ [x]) (take_log s).
Definition pop_front (s : queue) : outcome (value * queue) :=
  match queue_ s with
  | [] => Fail Undefined
  | x :: q => Ok (VElem x, mkQueue q (put_log s) (take_log s ++ [x]))
  end.

Definition observe (o : observer) (s : queue) : value :=
  match o with
  | Size => VNum (Some (length (queue_ s)))
  | IsEmpty => VBool (qempty s)
  | IsFull => VBool (qfull s)
  | Capacity => VNum maxSize
  end.

Definition qact (a : qaction) (s : queue) : outcome (value * queue) :=
  match a with
  | AssertNotFull => _ ← assert_ (negb (qfull s)); Ok (VUnit, s)
  | PushBack x => Ok (VUnit, push_back x s)
  | AssertNotEmpty => _ ← assert_ (negb (qempty s)); Ok (VUnit, s)
  | PopFront => pop_front s
  | Observe o => Ok (observe o s, s)
  end.

Abbreviation code := (code qaction qtest qcond value (list call)).
Abbreviation thread := (thread qaction qtest qcond value (list call)).
Abbreviation world := (world queue qaction qtest qcond value (list call)).

(** ** BlockingQueue.h *)

Definition BlockingQueue_put (x : T) (r : list call) : code :=
  Lock (Act (PushBack x) (fun _ => Notify NotEmpty (Unlock (Done r)))).

Definition BlockingQueue_take (r : list call) : code :=
  Lock (While Empty NotEmpty (Act AssertNotEmpty (fun _ => Act PopFront (fun _ => Unlock (Done r))))).

(** ** BoundedBlockingQueue.h *)

Definition BoundedBlockingQueue_put (x : T) (r : list call) : code :=
  Lock (While Full NotFull (Act AssertNotFull (fun _ => Act (PushBack x) (fun _ => Notify NotEmpty (Unlock (Done r)))))).

Definition BoundedBlockingQueue_take (r : list call) : code :=
  Lock (While Empty NotEmpty (Act AssertNotEmpty (fun _ => Act PopFront (fun _ => Notify NotFull (Unlock (Done r)))))).

(** [size], [empty], [full], [capacity]. *)
Definition look (o : observer) (r : list call) : code := Lock (Act (Observe o) (fun _ => Unlock (Done r))).

Definition resume (r : list call) : option code :=
  match r, maxSize with
  | [], _ => None
  | Put x :: r, None => Some (BlockingQueue_put x r)
  | Put x :: r, Some _ => Some (BoundedBlockingQueue_put x r)
  | Take :: r, None => Some (BlockingQueue_take r)
  | Take :: r, Some _ => Some (BoundedBlockingQueue_take r)
  | Look o :: r, _ => Some (look o r)
  end.

Definition start_queue (scripts : list (list call)) : world :=
  mkWorld new_MutexLock new_queue (map (fun r => Run (Done r)) scripts).

Definition qmove := exec_move qact qtest_ resume.
Definition qstep := mstep qact qtest_ resume.
Definition qown_step := own_step qact qtest_ resume.
Definition qquiescent := quiescent qact qtest_ resume.
(** ** Invariant

    Where a thread of the queue can be. *)
Definition put_notify (r : list call) : code := Notify NotEmpty (Unlock (Done r)).
Definition put_push (x : T) (r : list call) : code := Act (PushBack x) (fun _ => put_notify r).
Definition put_assert (x : T) (r : list call) : code := Act AssertNotFull (fun _ => put_push x r).
Definition put_test (x : T) (r : list call) : code := While Full NotFull (put_assert x r).
Definition take_notify (r : list call) : code := Notify NotFull (Unlock (Done r)).
Definition take_end (r : list call) : code := match maxSize with None => Unlock (Done r) | Some _ => take_notify r end.
Definition take_pop (r : list call) : code := Act PopFront (fun _ => take_end r).
Definition take_assert (r : list call) : code := Act AssertNotEmpty (fun _ => take_pop r).
Definition take_test (r : list call) : code := While Empty NotEmpty (take_assert r).

Inductive shape : code -> Prop :=
| sh_done r : shape (Done r)
| sh_unlock r : shape (Unlock (Done r))
| sh_look o r : shape (look o r)
| sh_looking o r : shape (Act (Observe o) (fun _ => Unlock (Done r)))
| sh_put x r : shape (Lock (put_test x r))
| sh_put_free x r : maxSize = None -> shape (Lock (put_push x r))
| sh_put_test x r : shape (put_test x r)
| sh_put_wait x r : shape (Wait NotFull (put_test x r))
| sh_put_relock x r : shape (Relock (put_test x r))
| sh_put_assert x r : shape (put_assert x r)
| sh_put_push x r : shape (put_push x r)
| sh_put_notify r : shape (put_notify r)
| sh_take r : shape (Lock (take_test r))
| sh_take_test r : shape (take_test r)
| sh_take_wait r : shape (Wait NotEmpty (take_test r))
| sh_take_relock r : shape (Relock (take_test r))
| sh_take_assert r : shape (take_assert r)
| sh_take_pop r : shape (take_pop r)
| sh_take_notify r : shape (take_notify r).

Definition thread_shape (th : thread) : Prop :=
  match th with
  | Run c => shape c
  | Waiting NotFull k => maxSize <> None /\ exists x r, k = put_test x r
  | Waiting NotEmpty k => exists r, k = take_test r
  end.

(** What a thread inside the monitor knows of the queue. *)
Definition knows (s : queue) (th : thread) : Prop :=
  match th with
  | Run (Act AssertNotFull _) | Run (Act (PushBack _) _) => qfull s = false
  | Run (Wait NotFull _) => qfull s = true
  | Run (Act AssertNotEmpty _) | Run (Act PopFront _) => queue_ s <> []
  | Run (Wait NotEmpty _) => queue_ s = []
  | _ => True
  end.

(** Takers, and putters, that are awake and past their first [lock] but have
    not changed the queue yet; threads about to notify; threads waiting. *)
Definition taking (c : code) : Z :=
  match c with While Empty _ _ | Wait NotEmpty _ | Act AssertNotEmpty _ | Act PopFront _ => 1 | _ => 0 end.
Definition putting (c : code) : Z :=
  match c with While Full _ _ | Wait NotFull _ | Act AssertNotFull _ | Act (PushBack _) _ => 1 | _ => 0 end.
Definition awake (f : code -> Z) (th : thread) : Z :=
  match th with Run (Relock k) => f k | Run c => f c | Waiting _ _ => 0 end.
Definition notifying (c : qcond) (th : thread) : Z :=
  match th with Run (Notify c' _) => if bool_decide (c' = c) then 1 else 0 | _ => 0 end.
Definition waiting (c : qcond) (th : thread) : Z := if waits_on c th then 1 else 0.

Record queue_inv (w : world) : Prop := {
  qi_lock : locked w;
  qi_shape : forall t th, threads w !! t = Some th -> thread_shape th;
  qi_knows : forall t th, threads w !! t = Some th -> knows (shared w) th;
  qi_fifo : put_log (shared w) = take_log (shared w) ++ queue_ (shared w);
  qi_size : match maxSize with Some n => zlen (queue_ (shared w)) <= Z.of_nat n | None => True end;
  qi_takers : 0 < sum_of (waiting NotEmpty) (threads w) ->
    zlen (queue_ (shared w)) <= sum_of (awake taking) (threads w) + sum_of (notifying NotEmpty) (threads w);
  qi_putters : match maxSize with
    | Some n => 0 < sum_of (waiting NotFull) (threads w) ->
        Z.of_nat n - zlen (queue_ (shared w)) <= sum_of (awake putting) (threads w) + sum_of (notifying NotFull) (threads w)
    | None => True
    end;
}.

(** ** Lemmas *)

Lemma shape_take_end r : shape (take_end r).
Proof. unfold take_end. destruct maxSize; [apply sh_take_notify|apply sh_unlock]. Qed.

Lemma resume_shape r k : resume r = Some k -> shape k.
Proof.
  unfold resume. destruct r as [|[x| |a] r]; [done| | |].
  - destruct maxSize eqn:E; intros [= <-]; [apply sh_put|by apply sh_put_free].
  - intros H. assert (k = Lock (take_test r)) as ->; [|apply sh_take].
    revert H. unfold take_test, take_assert, take_pop, take_end. by destruct maxSize; intros [= <-].
  - intros [= <-]. apply sh_look.
Qed.

Lemma typed_take_end r : typed true (take_end r).
Proof. unfold take_end. by destruct maxSize. Qed.

Lemma queue_resume_typed : resume_typed resume.
Proof.
  intros r k H. destruct r as [|[x| |a] r]; cbn in H; try done.
  - destruct maxSize; injection H as <-; cbn; done.
  - destruct maxSize; injection H as <-; cbn; done.
  - injection H as <-. cbn. done.
Qed.

(** A thread outside the monitor knows nothing. *)
Lemma outside_knows s th : thread_shape th -> thread_typed false th -> knows s th.
Proof.
  destruct th as [c|c k]; [|done]. cbn. intros Hs Hty. destruct Hs; cbn in *; try done;
    try (by destruct Hty); try (by specialize (Hty VUnit); destruct Hty).
  - specialize (Hty VUnit VUnit). by destruct Hty.
  - specialize (Hty VUnit VUnit). unfold take_end in Hty. destruct maxSize; by destruct Hty.
  - specialize (Hty VUnit). unfold take_end in Hty. destruct maxSize; by destruct Hty.
Qed.
Lemma awaken_shape c th : thread_shape th -> thread_shape (awaken c th).
Proof.
  destruct th as [|c' k]; [done|]. cbn. case_bool_decide; [|done].
  destruct c'; [intros (r & ->); apply sh_take_relock|intros (_ & x & r & ->); apply sh_put_relock].
Qed.

Lemma awaken_knows s c th : knows s th -> knows s (awaken c th).
Proof. destruct th as [|c' k]; [done|]. cbn. by case_bool_decide. Qed.

(** A step of thread [t]: only the holder of the mutex changes the queue. *)
Lemma queue_inv_update w t th ths m s' :
  queue_inv w -> locked (mkWorld m s' (<[t := th]> ths)) ->
  (forall t' th', ths !! t' = Some th' -> exists th0, threads w !! t' = Some th0 /\ (th' = th0 \/ exists c, th' = awaken c th0)) ->
  thread_shape th -> knows s' th -> (s' = shared w \/ holds w t = true) ->
  put_log s' = take_log s' ++ queue_ s' ->
  match maxSize with Some n => zlen (queue_ s') <= Z.of_nat n | None => True end ->
  let w' := mkWorld m s' (<[t := th]> ths) in
  (0 < sum_of (waiting NotEmpty) (threads w') ->
    zlen (queue_ s') <= sum_of (awake taking) (threads w') + sum_of (notifying NotEmpty) (threads w')) ->
  match maxSize with
  | Some n => 0 < sum_of (waiting NotFull) (threads w') ->
      Z.of_nat n - zlen (queue_ s') <= sum_of (awake putting) (threads w') + sum_of (notifying NotFull) (threads w')
  | None => True
  end ->
  queue_inv w'.
Proof.
  intros Hinv Hlk Hths Hsh Hk Hs Hf Hc w' Ht Hp. constructor; try done; cbn [w' threads shared].
  - intros t' th' Hl. apply list_lookup_insert_Some in Hl as [(<- & <- & _)|[Hne Hl]]; [done|].
    destruct (Hths _ _ Hl) as (th0 & H0 & [-> | [c ->]]); [|apply awaken_shape]; by eapply qi_shape.
  - intros t' th' Hl. apply list_lookup_insert_Some in Hl as [(<- & <- & _)|[Hne Hl]]; [done|].
    destruct (Hths _ _ Hl) as (th0 & H0 & Hth).
    assert (knows s' th0) as Hk0.
    { destruct Hs as [-> |Hh]; [by eapply qi_knows|]. apply outside_knows; [by eapply qi_shape|].
      pose proof (lk_threads w (qi_lock w Hinv) t' th0 H0) as Hty. replace (holds w t') with false in Hty; [done|].
      symmetry. unfold holds in *. apply bool_decide_eq_true in Hh. apply bool_decide_eq_false_2. congruence. }
    destruct Hth as [-> | [c ->]]; [done|by apply awaken_knows].
Qed.

Lemma waiting_nonneg c th : 0 <= waiting c th.
Proof. unfold waiting. destruct (waits_on c th); lia. Qed.
Lemma notifying_nonneg c th : 0 <= notifying c th.
Proof. unfold notifying. destruct th as [[]|]; try lia. case_bool_decide; lia. Qed.
Lemma taking_code c : 0 <= taking c.
Proof. destruct c; cbn; try lia; case_match; lia. Qed.
Lemma putting_code c : 0 <= putting c.
Proof. destruct c; cbn; try lia; case_match; lia. Qed.
Lemma awake_nonneg f th : (forall c, 0 <= f c) -> 0 <= awake f th.
Proof. intros Hf. destruct th as [c|]; cbn; [|lia]. destruct c; apply Hf. Qed.

(** The counts of [w] are not negative. *)
Ltac counts_nonneg w :=
  pose proof (sum_of_nonneg (waiting NotEmpty) (threads w) (waiting_nonneg NotEmpty));
  pose proof (sum_of_nonneg (waiting NotFull) (threads w) (waiting_nonneg NotFull));
  pose proof (sum_of_nonneg (notifying NotEmpty) (threads w) (notifying_nonneg NotEmpty));
  pose proof (sum_of_nonneg (notifying NotFull) (threads w) (notifying_nonneg NotFull));
  pose proof (sum_of_nonneg (awake taking) (threads w) (fun th => awake_nonneg taking th taking_code));
  pose proof (sum_of_nonneg (awake putting) (threads w) (fun th => awake_nonneg putting th putting_code)).

(** After [Et : threads w !! t = Some th], the counts of the updated list,
    then arithmetic. *)
Ltac counts Et :=
  cbn [threads shared]; rewrite ?(sum_insert _ _ _ _ _ Et); cbn [waiting waits_on notifying awake taking putting put_test put_assert put_push put_notify take_test take_assert take_pop take_notify];
  repeat (rewrite bool_decide_eq_true_2 by done); repeat (rewrite bool_decide_eq_false_2 by done); try lia.

Lemma waking_counts w c ws :
  queue_inv w -> may_wake c ws (threads w) = true ->
  let ths := wake c ws (threads w) in
  (forall c', sum_of (waiting c') ths <= sum_of (waiting c') (threads w)) /\
  (forall c', sum_of (notifying c') ths = sum_of (notifying c') (threads w)) /\
  sum_of (awake taking) (threads w) <= sum_of (awake taking) ths /\
  sum_of (awake putting) (threads w) <= sum_of (awake putting) ths /\
  (0 < sum_of (waiting c) (threads w) ->
     match c with
     | NotEmpty => sum_of (awake taking) (threads w) + 1 <= sum_of (awake taking) ths
     | NotFull => sum_of (awake putting) (threads w) + 1 <= sum_of (awake putting) ths
     end).
Proof.
  intros Hinv Hm ths.
  assert (forall f, (forall k, 0 <= f k) -> forall th, awake f th <= awake f (awaken c th)) as Haw.
  { intros f Hf [|c' k]; cbn; [lia|]. case_bool_decide; cbn; [apply Hf|lia]. }
  split_and!.
  - intros c'. apply wake_ge. intros [|c1 k]; cbn; [lia|]. unfold waiting. cbn. case_bool_decide; cbn; repeat case_bool_decide; lia.
  - intros c'. apply Z.le_antisymm; [apply wake_ge|apply wake_le]; intros [|c1 k]; cbn; try lia; case_bool_decide; cbn; lia.
  - apply wake_le, Haw, taking_code.
  - apply wake_le, Haw, putting_code.
  - intros Hw. assert (existsb (waits_on c) (threads w) = true) as Hex.
    { destruct (existsb (waits_on c) (threads w)) eqn:E; [done|].
      rewrite (no_waiter_count c _ (waiting c)) in Hw; [lia| |done]. intros th Hth. unfold waiting. by rewrite Hth. }
    destruct c; (apply wake_lt; [apply Haw; auto using taking_code, putting_code| |done|done]); intros t [|c' k] Et Hon; try done;
      cbn in Hon; apply bool_decide_eq_true in Hon as ->; pose proof (qi_shape w Hinv t _ Et) as Hs; cbn in Hs;
      [destruct Hs as (r & ->)|destruct Hs as (_ & x & r & ->)]; cbn; (rewrite bool_decide_eq_true_2 by done); cbn; lia.
Qed.
(** A step that leaves the queue as it is and wakes nobody. *)
Lemma quiet_step w t th0 th m :
  queue_inv w -> threads w !! t = Some th0 -> locked (mkWorld m (shared w) (<[t := th]> (threads w))) ->
  thread_shape th -> knows (shared w) th ->
  (waiting NotEmpty th <= waiting NotEmpty th0 \/ queue_ (shared w) = []) ->
  (waiting NotFull th <= waiting NotFull th0 \/ qfull (shared w) = true) ->
  (awake taking th0 + notifying NotEmpty th0 <= awake taking th + notifying NotEmpty th \/ queue_ (shared w) = []) ->
  (awake putting th0 + notifying NotFull th0 <= awake putting th + notifying NotFull th \/ qfull (shared w) = true) ->
  queue_inv (mkWorld m (shared w) (<[t := th]> (threads w))).
Proof.
  intros Hinv Et Hlk Hsh Hk HwE HwF HaE HaF. pose proof Hinv as [].
  apply (queue_inv_update w t th (threads w) m (shared w)); try done; [apply same_threads|by left| |]; cbn [threads];
    rewrite !(sum_insert _ _ _ _ _ Et).
  - intros Hw. pose proof (sum_of_nonneg (awake taking) (<[t := th]> (threads w)) (fun th => awake_nonneg taking th taking_code)) as H1.
    pose proof (sum_of_nonneg (notifying NotEmpty) (<[t := th]> (threads w)) (notifying_nonneg NotEmpty)) as H2.
    rewrite (sum_insert _ _ _ _ _ Et) in H1. rewrite (sum_insert _ _ _ _ _ Et) in H2.
    destruct (decide (queue_ (shared w) = [])) as [E|E]; [rewrite E; unfold zlen; cbn; lia|].
    destruct HwE as [HwE|?]; [|done]. destruct HaE as [HaE|?]; [|done]. specialize (qi_takers0 ltac:(lia)). lia.
  - revert HwF HaF qi_putters0. unfold qfull. destruct maxSize as [n|]; [|done]. intros HwF HaF Hp Hw.
    pose proof (sum_of_nonneg (awake putting) (<[t := th]> (threads w)) (fun th => awake_nonneg putting th putting_code)) as H1.
    pose proof (sum_of_nonneg (notifying NotFull) (<[t := th]> (threads w)) (notifying_nonneg NotFull)) as H2.
    rewrite (sum_insert _ _ _ _ _ Et) in H1. rewrite (sum_insert _ _ _ _ _ Et) in H2.
    destruct (decide (length (queue_ (shared w)) = n)) as [E|E]; [unfold zlen; lia|].
    rewrite (bool_decide_eq_false_2 _ E) in HwF, HaF.
    destruct HwF as [HwF|?]; [|done]. destruct HaF as [HaF|?]; [|done]. specialize (Hp ltac:(lia)). lia.
Qed.

(** A notification. *)
Lemma notify_step w t c ws r :
  queue_inv w -> threads w !! t = Some (Run (Notify c (Unlock (Done r)))) -> may_wake c ws (threads w) = true ->
  locked (mkWorld (mutex_ w) (shared w) (<[t := Run (Unlock (Done r))]> (wake c ws (threads w)))) ->
  queue_inv (mkWorld (mutex_ w) (shared w) (<[t := Run (Unlock (Done r))]> (wake c ws (threads w)))).
Proof.
  intros Hinv Et Hm Hlk. pose proof Hinv as []. destruct (waking_counts w c ws Hinv Hm) as (Hw & Hn & Ht & Hp & Hwoken).
  pose proof (wake_run c ws (threads w) t _ Et) as Et'.
  apply (queue_inv_update w t _ (wake c ws (threads w)) (mutex_ w) (shared w)); try done; [|apply sh_unlock|by left| |].
  - intros t' th' H. apply lookup_wake in H as (th0 & H & [-> | ->]); exists th0; eauto.
  - cbn [threads]. rewrite !(sum_insert _ _ _ _ _ Et'). pose proof (Hw NotEmpty). pose proof (Hn NotEmpty).
    cbn [waiting waits_on notifying awake taking]. intros Hpos. destruct c.
    + rewrite bool_decide_eq_true_2 by done. specialize (Hwoken ltac:(lia)). specialize (qi_takers0 ltac:(lia)). lia.
    + rewrite bool_decide_eq_false_2 by done. specialize (qi_takers0 ltac:(lia)). lia.
  - destruct maxSize as [n|]; [|done]. cbn [threads]. rewrite !(sum_insert _ _ _ _ _ Et'). pose proof (Hw NotFull). pose proof (Hn NotFull).
    cbn [waiting waits_on notifying awake putting]. intros Hpos. destruct c.
    + rewrite bool_decide_eq_false_2 by done. specialize (qi_putters0 ltac:(lia)). lia.
    + rewrite bool_decide_eq_true_2 by done. specialize (Hwoken ltac:(lia)). specialize (qi_putters0 ltac:(lia)). lia.
Qed.

Lemma holder_act w t a k :
  queue_inv w -> threads w !! t = Some (Run (Act a (fun _ => k))) -> (typed false k -> False) -> holds w t = true.
Proof.
  intros Hinv Et Hno. pose proof (lk_threads w (qi_lock w Hinv) t _ Et) as Hty. cbn in Hty.
  destruct (holds w t); [done|]. by destruct (Hno (Hty VUnit)).
Qed.

Lemma push_step w t x r :
  queue_inv w -> threads w !! t = Some (Run (put_push x r)) ->
  locked (mkWorld (mutex_ w) (push_back x (shared w)) (<[t := Run (put_notify r)]> (threads w))) ->
  queue_inv (mkWorld (mutex_ w) (push_back x (shared w)) (<[t := Run (put_notify r)]> (threads w))).
Proof.
  intros Hinv Et Hlk. pose proof Hinv as []. pose proof (qi_knows0 t _ Et) as Hfull. cbn in Hfull.
  assert (zlen (queue_ (shared w) ++ [x]) = zlen (queue_ (shared w)) + 1) as Hlen by (rewrite zlen_app; done).
  assert (push_back x (shared w) = mkQueue (queue_ (shared w) ++ [x]) (put_log (shared w) ++ [x]) (take_log (shared w))) as Epb
    by (unfold push_back; by rewrite Hfull).
  rewrite Epb in *.
  apply (queue_inv_update w t (Run (put_notify r)) (threads w) (mutex_ w)); try done; cbn [threads put_log take_log queue_];
    [apply same_threads|apply sh_put_notify| | | | |].
  - right. eapply holder_act; [done|exact Et|]. by intros [].
  - rewrite qi_fifo0. by rewrite app_assoc.
  - unfold qfull in Hfull. destruct maxSize as [n|]; [|done]. apply bool_decide_eq_false in Hfull.
    unfold zlen in *. lia.
  - counts Et.
  - destruct maxSize as [n|]; [|done]. counts Et.
Qed.

Lemma pop_step w t r v s' :
  queue_inv w -> threads w !! t = Some (Run (take_pop r)) -> pop_front (shared w) = Ok (v, s') ->
  locked (mkWorld (mutex_ w) s' (<[t := Run (take_end r)]> (threads w))) ->
  queue_inv (mkWorld (mutex_ w) s' (<[t := Run (take_end r)]> (threads w))).
Proof.
  intros Hinv Et Hpop Hlk. pose proof Hinv as []. unfold pop_front in Hpop.
  destruct (queue_ (shared w)) as [|x q] eqn:Eq; [done|]. injection Hpop as <- <-.
  pose proof (zlen_cons x q) as Hlen.
  apply (queue_inv_update w t (Run (take_end r)) (threads w) (mutex_ w)); try done; cbn [threads put_log take_log queue_];
    [apply same_threads|apply shape_take_end| | | | | |].
  - unfold take_end. by destruct maxSize.
  - right. eapply holder_act; [done|exact Et|]. unfold take_end. destruct maxSize; by intros [].
  - rewrite qi_fifo0. by rewrite <- app_assoc.
  - destruct maxSize as [n|]; [|done]. lia.
  - unfold take_end. destruct maxSize; counts Et.
  - unfold take_end. destruct maxSize as [n|]; [|done]. counts Et.
Qed.
Lemma resume_lock r k : resume r = Some k -> exists k', k = Lock k'.
Proof.
  unfold resume. destruct r as [|[x| |o] r]; [done|..]; destruct maxSize; intros [= <-]; by eexists.
Qed.

Lemma resume_none r : resume r = None -> r = [].
Proof. unfold resume. by destruct r as [|[x| |o] r]; destruct maxSize. Qed.

(** The tactic for a quiet step: its numbers by computation. *)
Ltac quiet Et :=
  eapply (quiet_step _ _ _ _ _ ltac:(eassumption) Et); try done;
  cbn [waiting waits_on notifying awake taking putting put_test put_assert put_push put_notify take_test take_assert take_pop take_notify look];
  try (left; lia).

Lemma queue_step w t ws w' : queue_inv w -> exec qact qtest_ resume w t ws = Some (Ok w') -> queue_inv w'.
Proof.
  intros Hinv Hex. pose proof (exec_locked qact qtest_ resume w t ws w' queue_resume_typed (qi_lock w Hinv) Hex) as Hlk.
  revert Hex. unfold exec. destruct (threads w !! t) as [[c|]|] eqn:Et; [|done|done].
  pose proof (qi_shape w Hinv t _ Et) as Hsh. pose proof (qi_knows w Hinv t _ Et) as Hk. cbn in Hsh.
  destruct Hsh as [r|r|o r|o r|x r|x r Hfree|x r|x r|x r|x r|x r|r|r|r|r|r|r|r|r].
  - destruct (resume r) as [k|] eqn:Er; [|done]. intros [= <-]. pose proof (resume_shape r k Er).
    destruct (resume_lock r k Er) as [k' ->]. quiet Et.
  - unfold unlock. destruct (bool_decide _); [|done]. intros [= <-]. quiet Et. apply sh_done.
  - cbn [look]. unfold lock. destruct (owner (mutex_ w)); [done|]. intros [= <-]. quiet Et. apply sh_looking.
  - intros [= <-]. quiet Et. apply sh_unlock.
  - unfold lock. destruct (owner (mutex_ w)); [done|]. intros [= <-]. quiet Et. apply sh_put_test.
  - unfold lock. destruct (owner (mutex_ w)); [done|]. intros [= <-]. quiet Et; [apply sh_put_push|].
    cbn. unfold qfull. by rewrite Hfree.
  - cbn [put_test qtest_]. destruct (qfull (shared w)) eqn:Ef; intros [= <-]; quiet Et; [apply sh_put_wait|apply sh_put_assert].
  - unfold wait_release. destruct (bool_decide _); [|done]. intros [= <-]. cbn in Hk. quiet Et; try (by right).
    + split; [|by exists x, r]. unfold qfull in Hk. by destruct maxSize.
    + left. unfold waiting. cbn. case_bool_decide; [done|lia].
  - unfold wait_acquire. destruct (owner (mutex_ w)); [done|]. intros [= <-]. quiet Et. apply sh_put_test.
  - cbn in Hk. cbn [put_assert qact]. rewrite Hk. cbn. intros [= <-]. quiet Et; [apply sh_put_push].
  - cbn. intros [= <-]. exact (push_step w t x r Hinv Et Hlk).
  - unfold put_notify, signal. destruct (may_wake _ _ _) eqn:Em; [|done]. intros [= <-]. exact (notify_step w t NotEmpty ws r Hinv Et Em Hlk).
  - unfold lock. destruct (owner (mutex_ w)); [done|]. intros [= <-]. quiet Et. apply sh_take_test.
  - cbn [take_test qtest_]. unfold qempty. case_bool_decide as Ef; intros [= <-]; quiet Et; [apply sh_take_wait|apply sh_take_assert].
  - unfold wait_release. destruct (bool_decide _); [|done]. intros [= <-]. cbn in Hk. quiet Et; try (by right).
    + by exists r.
    + left. unfold waiting. cbn. case_bool_decide; [done|lia].
  - unfold wait_acquire. destruct (owner (mutex_ w)); [done|]. intros [= <-]. quiet Et. apply sh_take_test.
  - cbn in Hk. cbn [take_assert qact]. unfold qempty. rewrite bool_decide_eq_false_2 by done. cbn. intros [= <-].
    quiet Et; [apply sh_take_pop].
  - cbn [take_pop qact]. destruct (pop_front (shared w)) as [[v s']|] eqn:Ep; [|done]. cbn. intros [= <-]. exact (pop_step w t r v s' Hinv Et Ep Hlk).
  - unfold take_notify, signal. destruct (may_wake _ _ _) eqn:Em; [|done]. intros [= <-]. exact (notify_step w t NotFull ws r Hinv Et Em Hlk).
Qed.

Lemma queue_spurious w t w' : queue_inv w -> spurious w t = Some (Ok w') -> queue_inv w'.
Proof.
  intros Hinv Hex. pose proof (move_locked qact qtest_ resume w (Spurious t) w' queue_resume_typed (qi_lock w Hinv) Hex) as Hlk.
  revert Hex. unfold spurious. destruct (threads w !! t) as [[|c k]|] eqn:Et; [done| |done]. intros [= <-].
  pose proof (qi_shape w Hinv t _ Et) as Hsh. cbn in Hsh. destruct c.
  - destruct Hsh as (r & ->). quiet Et; [apply sh_take_relock|left..]; unfold waiting; cbn; repeat case_bool_decide; try done; lia.
  - destruct Hsh as (_ & x & r & ->). quiet Et; [apply sh_put_relock|left..]; unfold waiting; cbn; repeat case_bool_decide; try done; lia.
Qed.

Lemma queue_move w m w' : queue_inv w -> qmove w m = Some (Ok w') -> queue_inv w'.
Proof. destruct m as [t ws|t]; [apply queue_step|apply queue_spurious]. Qed.

Lemma start_inv scripts : queue_inv (start_queue scripts).
Proof.
  assert (forall t th, threads (start_queue scripts) !! t = Some th -> exists r, th = Run (Done r)) as Hth.
  { intros t th. cbn. change (map ?f ?l) with (f <$> l). rewrite list_lookup_fmap. intros (r & _ & ->)%fmap_Some. by exists r. }
  constructor.
  - constructor; [|done]. intros t th H. by destruct (Hth t th H) as [r ->].
  - intros t th H. destruct (Hth t th H) as [r ->]. apply sh_done.
  - intros t th H. by destruct (Hth t th H) as [r ->].
  - done.
  - destruct maxSize; [|done]. unfold zlen. cbn. lia.
  - rewrite (sum_zero (waiting NotEmpty)); [lia|]. intros t th H. by destruct (Hth t th H) as [r ->].
  - destruct maxSize; [|done]. rewrite (sum_zero (waiting NotFull)); [lia|]. intros t th H. by destruct (Hth t th H) as [r ->].
Qed.

Lemma reachable_inv scripts w : rtc qstep (start_queue scripts) w -> queue_inv w.
Proof.
  intros Hr. apply (rtc_invariant qstep queue_inv (start_queue scripts)); [|apply start_inv|done].
  intros x y Hx [m Hm]. by eapply queue_move.
Qed.
(** ** What is left to do

    [work f g]: the sum of [f] over the actions a body still performs and of
    [g] over the calls of the script after it. *)
Section work.
Context (f : qaction -> Z) (g : call -> Z).

Fixpoint work (c : code) : Z :=
  match c with
  | Done r => sum_of g r
  | Lock k | Unlock k | While _ _ k | Wait _ k | Relock k | Notify _ k | NotifyAll _ k | Join _ k => work k
  | Act a k => f a + work (k VUnit)
  | If _ k _ => work k
  end.
Definition thread_work (th : thread) : Z := match th with Run c => work c | Waiting _ k => work k end.

Definition agrees : Prop :=
  (forall x, g (Put x) = f AssertNotFull + f (PushBack x)) /\ f AssertNotFull = 0 /\
  g Take = f AssertNotEmpty + f PopFront /\ (forall o, g (Look o) = f (Observe o)).

Lemma resume_work r k : agrees -> resume r = Some k -> work k = sum_of g r.
Proof.
  intros (Hp & H0 & Ht & Ho). unfold resume. destruct r as [|[x| |o] r]; [done|..]; destruct maxSize; intros [= <-]; cbn [work sum_of look BlockingQueue_put BlockingQueue_take BoundedBlockingQueue_put BoundedBlockingQueue_take];
    rewrite ?Hp, ?Ht, ?Ho; lia.
Qed.

Lemma work_awaken c th : thread_work (awaken c th) = thread_work th.
Proof. destruct th as [|c' k]; [done|]. cbn. by case_bool_decide. Qed.

Lemma sum_wake c ws (ths : list thread) : sum_of thread_work (wake c ws ths) = sum_of thread_work ths.
Proof. apply Z.le_antisymm; [apply wake_ge|apply wake_le]; intros; rewrite work_awaken; lia. Qed.

(** The action thread [t] performs in its next step. *)
Definition next_action (w : world) (t : tid) : option qaction :=
  match threads w !! t with Some (Run (Act a _)) => Some a | _ => None end.

Lemma act_work a k : shape (Act a k) -> forall v, work (k v) = work (k VUnit).
Proof. intros H. by inversion H. Qed.

Lemma step_work w t ws w' :
  agrees -> queue_inv w -> exec qact qtest_ resume w t ws = Some (Ok w') ->
  sum_of thread_work (threads w') = sum_of thread_work (threads w) - match next_action w t with Some a => f a | None => 0 end /\
  (forall th th', threads w !! t = Some th -> threads w' !! t = Some th' ->
     thread_work th' = thread_work th - match next_action w t with Some a => f a | None => 0 end).
Proof.
  intros Hag Hinv. unfold exec, next_action. destruct (threads w !! t) as [[c|]|] eqn:Et; [|done|done].
  assert (forall (c' : thread) m (s : queue) (ths : list thread), ths !! t = Some (Run c) -> sum_of thread_work ths = sum_of thread_work (threads w) ->
    let d := match c with Act a _ => f a | _ => 0 end in
    thread_work c' = work c - d ->
    sum_of thread_work (threads (mkWorld m s (<[t := c']> ths))) = sum_of thread_work (threads w) - match match c with Act a _ => Some a | _ => None end with Some a => f a | None => 0 end /\
    (forall th th', Some (Run c) = Some th -> threads (mkWorld m s (<[t := c']> ths)) !! t = Some th' ->
      thread_work th' = thread_work th - match match c with Act a _ => Some a | _ => None end with Some a => f a | None => 0 end)) as Hup.
  { intros c' m s ths Hl Hsum d Hd. cbn [threads]. rewrite (sum_insert _ _ _ _ _ Hl), Hsum. cbn [thread_work].
    split; [destruct c; cbn in Hd |- *; lia|]. intros th th' [= <-] Hl'. rewrite list_lookup_insert_eq in Hl' by (by apply lookup_lt_Some in Hl).
    injection Hl' as <-. destruct c; cbn in Hd |- *; lia. }
  pose proof (qi_shape w Hinv t _ Et) as Hsh. cbn in Hsh.
  destruct c as [r|k|k|b c k|c k|k|a k|b k1 k2|c k|c k|b k].
  - destruct (resume r) as [k|] eqn:Er; [|done]. intros [= <-]. apply Hup; try done. cbn. rewrite (resume_work r k Hag Er). lia.
  - unfold lock. destruct (owner (mutex_ w)); [done|]. intros [= <-]. apply Hup; try done. cbn. lia.
  - unfold unlock. destruct (bool_decide _); [|done]. intros [= <-]. apply Hup; try done. cbn. lia.
  - intros [= <-]. apply Hup; try done. destruct (qtest_ _ _); cbn; lia.
  - unfold wait_release. destruct (bool_decide _); [|done]. intros [= <-]. apply Hup; try done. cbn. lia.
  - unfold wait_acquire. destruct (owner (mutex_ w)); [done|]. intros [= <-]. apply Hup; try done. cbn. lia.
  - destruct (qact a (shared w)) as [[v s]|]; [|done]. cbn. intros [= <-]. apply Hup; try done. cbn. rewrite (act_work a k Hsh v). lia.
  - inversion Hsh.
  - unfold signal. destruct (may_wake _ _ _); [|done]. intros [= <-].
    apply (Hup _ _ _ (wake c ws (threads w))); [by apply wake_run|apply sum_wake|]. cbn. lia.
  - inversion Hsh.
  - inversion Hsh.
Qed.
End work.

(** ** Bounds on runs *)

(** The price of a step: each step without spurious wake-ups lowers the price
    of the whole by one at least; a notification prepays those it wakes. *)
Section price.
Variable n : Z.

Definition call_price (c : call) : Z := 9 + 3 * n.
Fixpoint price (c : code) : Z :=
  match c with
  | Done r => sum_of call_price r
  | Lock k | Unlock k | If _ k _ | Join _ k => 1 + price k
  | While _ _ k => 3 + price k
  | Wait _ k => price k - 1
  | Relock k => price k + 1
  | Act _ k => 1 + price (k VUnit)
  | Notify _ k | NotifyAll _ k => 1 + 3 * n + price k
  end.
Definition thread_price (th : thread) : Z := match th with Run c => price c | Waiting _ k => price k - 2 end.

Lemma script_price r : 0 <= n -> 0 <= sum_of call_price r.
Proof. intros Hn. apply sum_of_nonneg. intros. unfold call_price. lia. Qed.

Lemma thread_price_nonneg th : 0 <= n -> thread_shape th -> 0 <= thread_price th.
Proof.
  intros Hn. destruct th as [c|[|] k]; cbn.
  - intros H. destruct H; cbn [price look put_test put_assert put_push put_notify take_test take_assert take_pop take_notify];
      unfold take_end, take_notify; try destruct maxSize; cbn [price]; pose proof (script_price r Hn); lia.
  - intros (r & ->). cbn. unfold take_end, take_notify. destruct maxSize; cbn; pose proof (script_price r Hn); lia.
  - intros (_ & x & r & ->). cbn. pose proof (script_price r Hn); lia.
Qed.

Lemma call_price_eq c : call_price c = 9 + 3 * n.
Proof. done. Qed.

Lemma resume_price r k : 0 <= n -> resume r = Some k -> 1 + price k <= sum_of call_price r.
Proof.
  intros Hn. unfold resume. destruct r as [|[x| |o] r]; [done|..]; destruct maxSize; intros [= <-]; cbn; rewrite call_price_eq; lia.
Qed.

Lemma wake_price c ws (ths : list thread) :
  sum_of thread_price (wake c ws ths) <= sum_of thread_price ths + 3 * zlen ths.
Proof.
  assert (forall l : list thread, sum_of thread_price l + 3 * zlen l = sum_of (fun th => thread_price th + 3) l) as ->.
  { induction l as [|x l IH]; [done|]. rewrite zlen_cons. cbn [sum_of]. lia. }
  assert (forall l l' : list thread, length l' = length l ->
    (forall t x y, l !! t = Some x -> l' !! t = Some y -> thread_price y <= thread_price x + 3) ->
    sum_of thread_price l' <= sum_of (fun th => thread_price th + 3) l) as Hle.
  { induction l as [|x l IH]; intros [|y l'] Hlen H; try done. cbn [sum_of].
    pose proof (H 0%nat x y eq_refl eq_refl). specialize (IH l' ltac:(by injection Hlen) (fun t => H (S t))). lia. }
  apply Hle; [apply wake_length|]. intros t x y Hx Hy. apply lookup_wake in Hy as (x' & Hx' & Hy). rewrite Hx in Hx'. injection Hx' as <-.
  destruct Hy as [-> | ->]; [lia|]. destruct x as [|c' k]; cbn; [lia|]. case_bool_decide; cbn; lia.
Qed.

Lemma step_price w t ws w' :
  n = zlen (threads w) -> queue_inv w -> exec qact qtest_ resume w t ws = Some (Ok w') ->
  length (threads w') = length (threads w) /\ sum_of thread_price (threads w') + 1 <= sum_of thread_price (threads w).
Proof.
  intros Hn Hinv. pose proof (zlen_nonneg (threads w)) as Hpos. unfold exec. destruct (threads w !! t) as [[c|]|] eqn:Et; [|done|done].
  pose proof (qi_shape w Hinv t _ Et) as Hsh. cbn in Hsh.
  assert (forall (c' : thread) m (s : queue) (ths : list thread) extra, ths !! t = Some (Run c) -> length ths = length (threads w) ->
    sum_of thread_price ths <= sum_of thread_price (threads w) + extra -> thread_price c' + extra + 1 <= price c ->
    length (threads (mkWorld m s (<[t := c']> ths))) = length (threads w) /\
    sum_of thread_price (threads (mkWorld m s (<[t := c']> ths))) + 1 <= sum_of thread_price (threads w)) as Hup.
  { intros c' m s ths extra Hl Hlen Hsum Hd. cbn [threads]. rewrite (sum_insert _ _ _ _ _ Hl), length_insert. cbn [thread_price]. split; [done|lia]. }
  destruct c as [r|k|k|b c k|c k|k|a k|b k1 k2|c k|c k|b k].
  - destruct (resume r) as [k|] eqn:Er; [|done]. intros [= <-]. apply (Hup _ _ _ _ 0); try done; [lia|].
    pose proof (resume_price r k ltac:(lia) Er). cbn. lia.
  - unfold lock. destruct (owner (mutex_ w)); [done|]. intros [= <-]. apply (Hup _ _ _ _ 0); try done; cbn; lia.
  - unfold unlock. destruct (bool_decide _); [|done]. intros [= <-]. apply (Hup _ _ _ _ 0); try done; cbn; lia.
  - intros [= <-]. apply (Hup _ _ _ _ 0); try done; [lia|]. destruct (qtest_ _ _); cbn; lia.
  - unfold wait_release. destruct (bool_decide _); [|done]. intros [= <-]. apply (Hup _ _ _ _ 0); try done; cbn; lia.
  - unfold wait_acquire. destruct (owner (mutex_ w)); [done|]. intros [= <-]. apply (Hup _ _ _ _ 0); try done; cbn; lia.
  - destruct (qact a (shared w)) as [[v s]|]; [|done]. cbn. intros [= <-]. apply (Hup _ _ _ _ 0); try done; [lia|].
    assert (price (k v) = price (k VUnit)) as E by (by inversion Hsh). cbn. lia.
  - inversion Hsh.
  - unfold signal. destruct (may_wake _ _ _); [|done]. intros [= <-].
    apply (Hup _ _ _ (wake c ws (threads w)) (3 * n)); [by apply wake_run|apply wake_length| |cbn; lia].
    rewrite Hn. apply wake_price.
  - inversion Hsh.
  - inversion Hsh.
Qed.
End price.
(** ** Producers and consumers *)

Definition push_of (a : qaction) : Z := match a with PushBack _ => 1 | _ => 0 end.
Definition pop_of (a : qaction) : Z := match a with PopFront => 1 | _ => 0 end.
Definition puts (c : call) : Z := match c with Put _ => 1 | _ => 0 end.
Definition takes (c : call) : Z := match c with Take => 1 | _ => 0 end.

Lemma pushes_agree : agrees push_of puts.
Proof. by split_and!. Qed.
Lemma pops_agree : agrees pop_of takes.
Proof. by split_and!. Qed.

Abbreviation puts_left := (thread_work push_of puts).
Abbreviation takes_left := (thread_work pop_of takes).

Lemma step_logs w t ws w' :
  exec qact qtest_ resume w t ws = Some (Ok w') ->
  zlen (put_log (shared w')) = zlen (put_log (shared w)) + match next_action w t with Some a => push_of a | None => 0 end /\
  zlen (take_log (shared w')) = zlen (take_log (shared w)) + match next_action w t with Some a => pop_of a | None => 0 end.
Proof.
  unfold exec, next_action. destruct (threads w !! t) as [[c|]|]; [|done|done].
  destruct c as [r|k|k|b c k|c k|k|a k|b k1 k2|c k|c k|b k]; try (intros [= <-]; cbn; lia).
  - destruct (resume r); [|done]. intros [= <-]. cbn. lia.
  - destruct (lock _ _); [|done]. intros [= <-]. cbn. lia.
  - destruct (unlock _ _); [|done]. intros [= <-]. cbn. lia.
  - destruct (wait_release _ _); [|done]. intros [= <-]. cbn. lia.
  - destruct (wait_acquire _ _); [|done]. intros [= <-]. cbn. lia.
  - destruct a as [|x| | |o]; cbn [qact push_of pop_of].
    + destruct (assert_ _); [|done]. intros [= <-]. cbn. lia.
    + intros [= <-]. cbn. rewrite zlen_app. unfold zlen. cbn. lia.
    + destruct (assert_ _); [|done]. intros [= <-]. cbn. lia.
    + unfold pop_front. destruct (queue_ (shared w)) as [|x q]; [done|]. intros [= <-]. cbn. rewrite zlen_app. unfold zlen. cbn. lia.
    + intros [= <-]. cbn. lia.
  - unfold signal. destruct (may_wake _ _ _); [|done]. intros [= <-]. cbn. lia.
  - destruct (qtest_ _ _); [|done]. intros [= <-]. cbn. lia.
Qed.

(** [p] puts and [k] takes in all, each thread a producer or a consumer. *)
Record balanced (p k : Z) (w : world) : Prop := {
  ba_puts : sum_of puts_left (threads w) + zlen (put_log (shared w)) = p;
  ba_takes : sum_of takes_left (threads w) + zlen (take_log (shared w)) = k;
  ba_sides : forall t th, threads w !! t = Some th -> puts_left th = 0 \/ takes_left th = 0;
}.

Lemma work_nonneg f g th : (forall a, 0 <= f a) -> (forall c, 0 <= g c) -> 0 <= thread_work f g th.
Proof.
  intros Hf Hg. assert (forall c, 0 <= work f g c) as Hc.
  { induction c; cbn; try done; [by apply sum_of_nonneg|]. pose proof (Hf a). pose proof (H VUnit). lia. }
  by destruct th; cbn.
Qed.
Lemma puts_left_nonneg th : 0 <= puts_left th.
Proof. apply work_nonneg; intros []; cbn; lia. Qed.
Lemma takes_left_nonneg th : 0 <= takes_left th.
Proof. apply work_nonneg; intros []; cbn; lia. Qed.

Lemma balanced_move p k w m w' : queue_inv w -> balanced p k w -> qmove w m = Some (Ok w') -> balanced p k w'.
Proof.
  intros Hinv [Hp Hk Hs]. destruct m as [t ws|t]; unfold qmove; cbn [exec_move].
  - intros Hex. destruct (step_work _ _ w t ws w' pushes_agree Hinv Hex) as [Hsum1 Hone1].
    destruct (step_work _ _ w t ws w' pops_agree Hinv Hex) as [Hsum2 Hone2]. destruct (step_logs w t ws w' Hex) as [Hl1 Hl2].
    constructor; [lia|lia|]. intros t' th' Hl. destruct (decide (t' = t)) as [->|Hne].
    + destruct (threads w !! t) as [th|] eqn:Et; [|by unfold exec in Hex; rewrite Et in Hex].
      specialize (Hone1 th th' eq_refl Hl). specialize (Hone2 th th' eq_refl Hl).
      pose proof (puts_left_nonneg th'). pose proof (takes_left_nonneg th'). pose proof (puts_left_nonneg th). pose proof (takes_left_nonneg th).
      destruct (Hs t th Et); [left|right]; destruct (next_action w t) as [[]|]; cbn in *; lia.
    + destruct (exec_others _ _ _ w t ws w' t' th' Hex Hne Hl) as (th0 & H0 & [-> | [c ->]]); [by eapply Hs|].
      rewrite !work_awaken. by eapply Hs.
  - unfold spurious. destruct (threads w !! t) as [[|c j]|] eqn:Et; [done| |done]. intros [= <-].
    constructor; cbn [set_thread threads shared]; rewrite ?(sum_insert _ _ _ _ _ Et); cbn [thread_work work]; [lia|lia|].
    intros t' th' Hl. apply list_lookup_insert_Some in Hl as [(<- & <- & _)|[_ Hl]]; [exact (Hs t _ Et)|by eapply Hs].
Qed.

Lemma start_balanced scripts :
  (forall r, r ∈ scripts -> sum_of puts r = 0 \/ sum_of takes r = 0) ->
  balanced (sum_of (sum_of puts) scripts) (sum_of (sum_of takes) scripts) (start_queue scripts).
Proof.
  intros Hs. assert (forall f g, sum_of (thread_work f g) (threads (start_queue scripts)) = sum_of (sum_of g) scripts) as Hsum.
  { intros f g. cbn. clear Hs. induction scripts as [|r rs IH]; cbn; [done|]. by rewrite IH. }
  constructor; [rewrite Hsum; unfold zlen; cbn; lia|rewrite Hsum; unfold zlen; cbn; lia|].
  intros t th Hl. cbn in Hl. change (map ?f ?l) with (f <$> l) in Hl. rewrite list_lookup_fmap in Hl.
  apply fmap_Some in Hl as (r & Hr & ->). cbn. apply Hs. by apply list_elem_of_lookup_2 in Hr.
Qed.

Lemma reachable_balanced scripts w :
  (forall r, r ∈ scripts -> sum_of puts r = 0 \/ sum_of takes r = 0) -> rtc qstep (start_queue scripts) w ->
  balanced (sum_of (sum_of puts) scripts) (sum_of (sum_of takes) scripts) w.
Proof.
  intros Hs Hr. apply (rtc_invariant qstep (fun w => queue_inv w /\ balanced (sum_of (sum_of puts) scripts) (sum_of (sum_of takes) scripts) w) (start_queue scripts));
    [|split; [apply start_inv|by apply start_balanced]|done].
  intros x y [Hi Hb] [m Hm]. split; [by eapply queue_move|by eapply balanced_move].
Qed.

(** Where threads stop. *)
Lemma quiescent_threads w :
  queue_inv w -> qquiescent w -> forall t th, threads w !! t = Some th ->
  th = Run (Done []) \/ (exists x r, th = Waiting NotFull (put_test x r) /\ qfull (shared w) = true) \/
  (exists r, th = Waiting NotEmpty (take_test r) /\ queue_ (shared w) = []).
Proof.
  intros Hinv Hq. destruct (quiescent_stopped _ _ _ w (qi_lock w Hinv) Hq) as [_ Hstop]. pose proof Hinv as [].
  assert (forall f : code -> Z, f (Done []) = 0 -> sum_of (awake f) (threads w) = 0) as Hawake.
  { intros f Hf. apply sum_zero. intros t th Et. specialize (Hstop t th Et). specialize (qi_shape0 t th Et).
    destruct th as [c|]; [|done]. destruct qi_shape0; try done. cbn in Hstop. apply resume_none in Hstop as ->. exact Hf. }
  assert (forall c, sum_of (notifying c) (threads w) = 0) as Hnot.
  { intros c. apply sum_zero. intros t th Et. specialize (Hstop t th Et). specialize (qi_shape0 t th Et).
    destruct th as [d|]; [|done]. by destruct qi_shape0. }
  intros t th Et. pose proof (Hstop t th Et) as Hst. pose proof (qi_shape0 t th Et) as Hsh. destruct th as [c|c k].
  - left. destruct Hsh; try done. cbn in Hst. by apply resume_none in Hst as ->.
  - right. assert (1 <= sum_of (waiting c) (threads w)) as Hw.
    { etrans; [|apply (sum_one (waiting c) (threads w) t _ (waiting_nonneg c) Et)]. unfold waiting. cbn. by rewrite bool_decide_eq_true_2 by done. }
    destruct c; cbn in Hsh.
    + right. destruct Hsh as (r & ->). exists r. split; [done|]. specialize (qi_takers0 ltac:(lia)).
      rewrite Hawake, Hnot in qi_takers0 by done. destruct (queue_ (shared w)); [done|]. unfold zlen in qi_takers0. cbn in qi_takers0. lia.
    + left. destruct Hsh as (Hm & x & r & ->). exists x, r. split; [done|]. revert qi_putters0 qi_size0 Hm. unfold qfull.
      destruct maxSize as [n|]; [|done]. intros Hput Hsize _. specialize (Hput ltac:(lia)). rewrite Hawake, Hnot in Hput by done.
      apply bool_decide_eq_true_2. unfold zlen in *. lia.
Qed.
Lemma queue_no_fail w m why : queue_inv w -> qmove w m <> Some (Fail why).
Proof.
  intros Hinv Hf. destruct (exec_fails _ _ _ w m why (qi_lock w Hinv) Hf) as (t & ws & a & k & -> & Et & Ha).
  pose proof (qi_knows w Hinv t _ Et) as Hk. destruct a as [|x| | |o]; cbn in Hk, Ha; try done.
  - by rewrite Hk in Ha.
  - unfold qempty in Ha. by rewrite bool_decide_eq_false_2 in Ha.
  - unfold pop_front in Ha. by destruct (queue_ (shared w)).
Qed.

Lemma own_runs_price scripts k w :
  nsteps qown_step k (start_queue scripts) w ->
  queue_inv w /\ length (threads w) = length scripts /\
  Z.of_nat k + sum_of (thread_price (zlen scripts)) (threads w) <= sum_of (thread_price (zlen scripts)) (threads (start_queue scripts)).
Proof.
  intros Hn. remember (start_queue scripts) as w0 eqn:E. revert Hn.
  assert (queue_inv w0 /\ length (threads w0) = length scripts) as [Hi Hl].
  { subst. split; [apply start_inv|]. cbn. apply length_map. }
  clear E. induction k as [|k IH] in w0, Hi, Hl |- *; intros Hn; inversion Hn; subst; [split_and!; [done|done|lia]|].
  match goal with H : qown_step _ _ |- _ => destruct H as (t & ws & Hex) end.
  destruct (step_price (zlen scripts) w0 t ws _ ltac:(unfold zlen; lia) Hi Hex) as [Hlen Hdec].
  destruct (IH y) as (Hy1 & Hy2 & Hy3); [by eapply queue_step|congruence|done|]. split_and!; [done|done|lia].
Qed.

(** ** Properties *)

(** C18: whatever scripts of [put], [take] and observer calls the threads
    run, and however their steps, the threads a notification wakes and
    spurious wake-ups interleave: no assertion fails, no empty deque is
    popped and the mutex is only given back by its holder; values come out
    in the order they went in, none lost or duplicated; and a bounded queue
    never holds more than its capacity. *)
Theorem queues_safe scripts w :
  rtc qstep (start_queue scripts) w ->
  (forall m why, qmove w m <> Some (Fail why)) /\
  put_log (shared w) = take_log (shared w) ++ queue_ (shared w) /\
  match maxSize with Some n => zlen (queue_ (shared w)) <= Z.of_nat n | None => True end /\
  (forall t th, threads w !! t = Some th -> thread_typed (holds w t) th).
Proof.
  intros Hr. pose proof (reachable_inv scripts w Hr) as Hinv. split; [intros m why; by apply queue_no_fail|].
  destruct Hinv as [[Hlk _] _ _ Hf Hc _ _]. done.
Qed.

(** C19: no notification is lost: when no thread can go on, each has
    finished, or waits in [put] while the queue is full, or in [take] while
    it is empty.  So producers and consumers that put as often as they take
    all finish, with every value taken, on any queue with room for one. *)
Theorem queues_finish scripts w :
  rtc qstep (start_queue scripts) w -> qquiescent w ->
  (forall t th, threads w !! t = Some th ->
     th = Run (Done []) \/ (exists x r, th = Waiting NotFull (put_test x r) /\ qfull (shared w) = true) \/
     (exists r, th = Waiting NotEmpty (take_test r) /\ queue_ (shared w) = [])) /\
  (maxSize <> Some 0%nat -> (forall r, r ∈ scripts -> sum_of puts r = 0 \/ sum_of takes r = 0) ->
   sum_of (sum_of puts) scripts = sum_of (sum_of takes) scripts ->
   (forall t th, threads w !! t = Some th -> th = Run (Done [])) /\
   queue_ (shared w) = [] /\ take_log (shared w) = put_log (shared w)).
Proof.
  intros Hr Hq. pose proof (reachable_inv scripts w Hr) as Hinv. pose proof (quiescent_threads w Hinv Hq) as Hth.
  split; [done|]. intros Hroom Hsides Heq. destruct (reachable_balanced scripts w Hsides Hr) as [Hp Hk Hside].
  pose proof (qi_fifo w Hinv) as Hfifo. assert (zlen (put_log (shared w)) = zlen (take_log (shared w)) + zlen (queue_ (shared w))) as Hz
    by (rewrite Hfifo; apply zlen_app).
  assert (forall t th, threads w !! t = Some th -> th = Run (Done [])) as Hall.
  { intros t th Et. destruct (Hth t th Et) as [?|[(x & r & -> & Hfull)|(r & -> & Hempty)]]; [done| |]; exfalso.
    - assert (sum_of takes_left (threads w) = 0) as Hzero.
      { apply sum_zero. intros t' th' Et'. destruct (Hth t' th' Et') as [->|[(x' & r' & -> & _)|(r' & -> & Hempty)]]; [done| |].
        - destruct (Hside t' _ Et') as [H|H]; [|done]. cbn in H. pose proof (sum_of_nonneg puts r' ltac:(intros []; cbn; lia)). lia.
        - unfold qfull in Hfull. destruct maxSize as [n|]; [|done]. apply bool_decide_eq_true in Hfull.
          rewrite Hempty in Hfull. cbn in Hfull. congruence. }
      pose proof (sum_one puts_left (threads w) t _ puts_left_nonneg Et) as H1. cbn in H1.
      pose proof (sum_of_nonneg puts r ltac:(intros []; cbn; lia)). pose proof (zlen_nonneg (queue_ (shared w))). lia.
    - assert (sum_of puts_left (threads w) = 0) as Hzero.
      { apply sum_zero. intros t' th' Et'. destruct (Hth t' th' Et') as [->|[(x' & r' & -> & Hfull)|(r' & -> & _)]]; [done| |].
        - unfold qfull in Hfull. destruct maxSize as [n|]; [|done]. apply bool_decide_eq_true in Hfull.
          rewrite Hempty in Hfull. cbn in Hfull. congruence.
        - destruct (Hside t' _ Et') as [H|H]; [done|]. cbn in H. unfold take_end in H.
          pose proof (sum_of_nonneg takes r' ltac:(intros []; cbn; lia)). destruct maxSize; cbn in H; lia. }
      pose proof (sum_one takes_left (threads w) t _ takes_left_nonneg Et) as H1.
      cbn in H1. unfold take_end in H1. rewrite Hempty in Hz. unfold zlen at 3 in Hz. cbn [length] in Hz.
      pose proof (sum_of_nonneg takes r ltac:(intros []; cbn; lia)). destruct maxSize; cbn in H1; lia. }
  split; [done|]. assert (queue_ (shared w) = []) as Eq.
  { assert (forall f g, sum_of (thread_work f g) (threads w) = 0) as H0 by (intros f g; apply sum_zero; intros t th Et; by rewrite (Hall t th Et)).
    rewrite H0 in Hp, Hk. destruct (queue_ (shared w)); [done|]. rewrite zlen_cons in Hz. pose proof (zlen_nonneg l). lia. }
  split; [done|]. rewrite Hfifo, Eq. by rewrite app_nil_r.
Qed.

(** C20: without spurious wake-ups every run ends: [n] threads that make
    [c] calls in all take at most [(9 + 3 n) c] steps, blocked or not. *)
Theorem queues_terminate scripts k w :
  nsteps qown_step k (start_queue scripts) w -> Z.of_nat k <= (9 + 3 * zlen scripts) * sum_of zlen scripts.
Proof.
  intros Hn. destruct (own_runs_price scripts k w Hn) as (Hinv & Hlen & Hle).
  assert (sum_of (thread_price (zlen scripts)) (threads (start_queue scripts)) = (9 + 3 * zlen scripts) * sum_of zlen scripts) as E.
  { generalize (zlen scripts) as n. intros n. cbn. clear. induction scripts as [|r rs IH]; cbn [map sum_of]; [lia|]. rewrite IH. cbn [thread_price price].
    assert (sum_of (call_price n) r = (9 + 3 * n) * zlen r) as ->; [|lia].
    induction r as [|c r IHr]; cbn [sum_of]; [unfold zlen; cbn; lia|]. rewrite IHr, zlen_cons. unfold call_price. lia. }
  assert (0 <= sum_of (thread_price (zlen scripts)) (threads w)); [|lia].
  assert (forall l : list thread, (forall t th, l !! t = Some th -> thread_shape th) -> 0 <= sum_of (thread_price (zlen scripts)) l) as H.
  { induction l as [|x l IH]; intros Hs; [done|]. cbn. pose proof (thread_price_nonneg (zlen scripts) x (zlen_nonneg _) (Hs 0%nat x eq_refl)).
    specialize (IH (fun t => Hs (S t))). lia. }
  apply H, Hinv.
Qed.
End queue.

#[export] Existing Instance qcond_eq_dec.

(** ** A run: the consumer waits before the producer puts *)

Definition demo_scripts : list (list (call (T := Z))) := [[Put 5]; [Take]].
Definition demo_steps : list (tid * list tid) :=
  repeat (1%nat, []) 4 ++ repeat (0%nat, []) 5 ++ [(0%nat, [1%nat]); (0%nat, [])] ++ repeat (1%nat, []) 6.
Definition demo_world :=
  match run_moves (qact (Some 1%nat)) (qtest_ (Some 1%nat)) (resume (Some 1%nat)) (start_queue demo_scripts)
          (map (fun '(t, ws) => Step t ws) demo_steps) with
  | Some (Ok w) => w
  | _ => start_queue []
  end.

Example demo_runs :
  run_moves (qact (Some 1%nat)) (qtest_ (Some 1%nat)) (resume (Some 1%nat)) (start_queue demo_scripts)
    (map (fun '(t, ws) => Step t ws) demo_steps) = Some (Ok demo_world).
Proof. reflexivity. Qed.

Lemma demo_reachable : rtc (qstep (Some 1%nat)) (start_queue demo_scripts) demo_world.
Proof. eapply run_moves_rtc, demo_runs. Qed.

Lemma demo_quiescent : qquiescent (Some 1%nat) demo_world.
Proof. intros [|[|t]] ws; reflexivity. Qed.

Lemma queues_safe_witness :
  rtc (qstep (Some 1%nat)) (start_queue demo_scripts) demo_world /\
  (forall m why, qmove (Some 1%nat) demo_world m <> Some (Fail why)) /\
  put_log (shared demo_world) = take_log (shared demo_world) ++ queue_ (shared demo_world) /\
  zlen (queue_ (shared demo_world)) <= 1 /\
  (forall t th, threads demo_world !! t = Some th -> thread_typed (holds demo_world t) th).
Proof. split; [apply demo_reachable|exact (queues_safe (Some 1%nat) demo_scripts demo_world demo_reachable)]. Defined.

Lemma queues_finish_witness :
  qquiescent (Some 1%nat) demo_world /\
  (forall t th, threads demo_world !! t = Some th -> th = Run (Done [])) /\
  queue_ (shared demo_world) = [] /\ take_log (shared demo_world) = put_log (shared demo_world).
Proof.
  split; [apply demo_quiescent|].
  apply (queues_finish (Some 1%nat) demo_scripts demo_world demo_reachable demo_quiescent); [done| |done].
  intros r Hr. unfold demo_scripts in Hr. apply elem_of_cons in Hr as [->|Hr]; [by right|].
  apply list_elem_of_singleton in Hr as ->. by left.
Defined.

Lemma queues_terminate_witness :
  nsteps (qown_step (Some 1%nat)) 17 (start_queue demo_scripts) demo_world /\
  Z.of_nat 17 <= (9 + 3 * zlen demo_scripts) * sum_of zlen demo_scripts.
Proof.
  assert (nsteps (qown_step (Some 1%nat)) 17 (start_queue demo_scripts) demo_world) as H
    by exact (run_steps_nsteps _ _ _ _ demo_steps _ demo_runs).
  split; [exact H|exact (queues_terminate (Some 1%nat) demo_scripts 17 demo_world H)].
Defined.
