(* ===== verification/ThreadPool.v ===== *)
(** * ThreadPool: tasks run by worker threads

    Models [ThreadPool] of [thread/ThreadPool.h] and [ThreadPool.cc] on the
    semantics of [Monitor.v].  A task is a name, or an empty
    [boost::function]; what it does is not modelled, so an exception that
    leaves it (the pool aborts) is not either.  [start] is the initial state: the workers exist and
    [running_] is set.  Threads that [run] tasks and [stop] the pool follow
    scripts; [join] waits for all workers to have exited. *)
From S2P Require Import Prelude Monitor.
From Stdlib Require Import Permutation.

(** ** ThreadPool *)
Section pool.
Context {T : Type}.

(** [boost::function<void ()>]. *)
Abbreviation Task := (option T).

(** [submitted], [taken], [ran]: tasks so far pushed, popped and executed. *)
Record pool := mkPool {
  queue_ : list Task;
  running_ : bool;
  exited : nat;
  submitted : list Task;
  taken : list Task;
  ran : list T;
}.

(** [threads_.size()]. *)
Variable numThreads : nat.

Inductive paction := PushTask (t : Task) | PopTask | Execute (t : T) | SetStopped | Exit.
Inductive ptest := IsRunning | EmptyAndRunning | AllExited.
Inductive pcond := Cond.
Inductive pcall := RunTask (t : T) | Stop.
Inductive role := Caller (r : list pcall) | Worker | Exited.

#[local] Instance pcond_eq_dec : EqDecision pcond.
Proof. solve_decision. Defined.

Definition ptest_ (b : ptest) (s : pool) : bool :=
  match b with
  | IsRunning => running_ s
  | EmptyAndRunning => bool_decide (queue_ s = []) && running_ s
  | AllExited => (exited s =? numThreads)%nat
  end.

Definition pop_task (s : pool) : Task * pool :=
  match queue_ s with
  | [] => (None, s)
  | task :: q => (task, mkPool q (running_ s) (exited s) (submitted s) (taken s ++ [task]) (ran s))
  end.

Definition pact (a : paction) (s : pool) : outcome (Task * pool) :=
  match a with
  | PushTask t => Ok (None, mkPool (queue_ s ++ [t]) (running_ s) (exited s) (submitted s ++ [t]) (taken s) (ran s))
  | PopTask => Ok (pop_task s)
  | Execute t => Ok (None, mkPool (queue_ s) (running_ s) (exited s) (submitted s) (taken s) (ran s ++ [t]))
  | SetStopped => Ok (None, mkPool (queue_ s) false (exited s) (submitted s) (taken s) (ran s))
  | Exit => Ok (None, mkPool (queue_ s) (running_ s) (S (exited s)) (submitted s) (taken s) (ran s))
  end.

Abbreviation code := (code paction ptest pcond Task role).
Abbreviation thread := (thread paction ptest pcond Task role).
Abbreviation world := (world pool paction ptest pcond Task role).

Definition run (t : T) (r : list pcall) : code :=
  if (numThreads =? 0)%nat then Act (Execute t) (fun _ => Done (Caller r))
  else Lock (Act (PushTask (Some t)) (fun _ => Notify Cond (Unlock (Done (Caller r))))).

Definition take (k : Task -> code) : code :=
  Lock (While EmptyAndRunning Cond (Act PopTask (fun task => Unlock (k task)))).

(** One round of the loop [while (running_)]; the thread ends after it. *)
Definition if_task (task : Task) : code :=
  match task with Some t => Act (Execute t) (fun _ => Done Worker) | None => Done Worker end.
Definition runInThread : code := If IsRunning (take if_task) (Act Exit (fun _ => Done Exited)).

Definition stop (r : list pcall) : code :=
  Act SetStopped (fun _ => NotifyAll Cond (Join AllExited (Done (Caller r)))).

Definition presume (l : role) : option code :=
  match l with
  | Caller (RunTask t :: r) => Some (run t r)
  | Caller (Stop :: r) => Some (stop r)
  | Worker => Some runInThread
  | Caller [] | Exited => None
  end.

(** [start(numThreads)], then the scripts run. *)
Definition start (scripts : list (list pcall)) : world :=
  mkWorld new_MutexLock (mkPool [] true 0 [] [] [])
    (repeat (Run (Done Worker)) numThreads ++ map (fun r => Run (Done (Caller r))) scripts).

Definition pmove := exec_move pact ptest_ presume.
Definition pstep := mstep pact ptest_ presume.
Definition pquiescent := quiescent pact ptest_ presume.

(** ** Invariant: a pool that is not stopped *)

Definition pop_code : code := Act PopTask (fun task => Unlock (if_task task)).
Definition test_code : code := While EmptyAndRunning Cond pop_code.

Fixpoint tasks (r : list pcall) : list T :=
  match r with [] => [] | RunTask t :: r => t :: tasks r | Stop :: r => tasks r end.

(** Where a worker and a caller can be. *)
Inductive worker_at : code -> Prop :=
| at_worker : worker_at (Done Worker)
| at_round : worker_at runInThread
| at_take : worker_at (Lock test_code)
| at_test : worker_at test_code
| at_wait : worker_at (Wait Cond test_code)
| at_relock : worker_at (Relock test_code)
| at_pop : worker_at pop_code
| at_unlock task : worker_at (Unlock (if_task task))
| at_task t : worker_at (Act (Execute t) (fun _ => Done Worker)).

Definition notify_code (r : list pcall) : code := Notify Cond (Unlock (Done (Caller r))).
Definition push_code (t : T) (r : list pcall) : code := Act (PushTask (Some t)) (fun _ => notify_code r).

Inductive caller_at : code -> Prop :=
| at_caller r : Stop ∉ r -> caller_at (Done (Caller r))
| at_inline t r : Stop ∉ r -> numThreads = 0%nat -> caller_at (Act (Execute t) (fun _ => Done (Caller r)))
| at_run t r : Stop ∉ r -> numThreads <> 0%nat -> caller_at (Lock (push_code t r))
| at_push t r : Stop ∉ r -> numThreads <> 0%nat -> caller_at (push_code t r)
| at_notify r : Stop ∉ r -> caller_at (notify_code r)
| at_return r : Stop ∉ r -> caller_at (Unlock (Done (Caller r))).

(** The first [numThreads] threads are the workers. *)
Definition thread_at (t : nat) (th : thread) : Prop :=
  match th with
  | Run c => if (t <? numThreads)%nat then worker_at c else caller_at c
  | Waiting _ k => (t < numThreads)%nat /\ k = test_code
  end.

(** A worker inside [take] that is awake; a caller about to notify; a worker
    that waits. *)
Definition taking (c : code) : Z :=
  match c with While _ _ _ | Wait _ _ | Act PopTask _ => 1 | _ => 0 end.
Definition awake (th : thread) : Z :=
  match th with Run (Relock k) => taking k | Run c => taking c | Waiting _ _ => 0 end.
Definition notifying (th : thread) : Z := match th with Run (Notify _ _) => 1 | _ => 0 end.
Definition waiting (th : thread) : Z := match th with Waiting _ _ => 1 | Run _ => 0 end.

(** The tasks a thread has still to push or to execute. *)
Fixpoint owed_code (c : code) : list T :=
  match c with
  | Done (Caller r) => tasks r
  | Done _ => []
  | Act (PushTask (Some t)) k | Act (Execute t) k => t :: owed_code (k None)
  | Act _ k => owed_code (k None)
  | Lock k | Unlock k | While _ _ k | Wait _ k | Relock k | Notify _ k | NotifyAll _ k | Join _ k | If _ k _ => owed_code k
  end.
Definition owed (th : thread) : list T := match th with Run c => owed_code c | Waiting _ _ => [] end.

(** What a worker about to wait knows. *)
Definition knows (s : pool) (th : thread) : Prop :=
  match th with Run (Wait _ _) => queue_ s = [] | _ => True end.

Record pool_inv (all : list T) (w : world) : Prop := {
  pi_lock : locked w;
  pi_at : forall t th, threads w !! t = Some th -> thread_at t th;
  pi_running : running_ (shared w) = true;
  pi_knows : forall t th, threads w !! t = Some th -> knows (shared w) th;
  pi_fifo : submitted (shared w) = taken (shared w) ++ queue_ (shared w);
  pi_takers : 0 < sum_of waiting (threads w) ->
    zlen (queue_ (shared w)) <= sum_of awake (threads w) + sum_of notifying (threads w);
  pi_tasks : ran (shared w) ++ omap id (queue_ (shared w)) ++ flat_map owed (threads w) ≡ₚ all;
  pi_workers : (numThreads <= length (threads w))%nat;
  pi_none : numThreads = 0%nat -> queue_ (shared w) = [];
}.

(** ** Lemmas *)

Lemma owed_insert (l : list thread) t x y : l !! t = Some x -> flat_map owed (<[t := y]> l) ++ owed x ≡ₚ flat_map owed l ++ owed y.
Proof.
  induction l as [|z l IH] in t |- *; [done|]. destruct t as [|t]; cbn.
  - intros [= ->]. rewrite <- !app_assoc. etrans; [apply Permutation_app_comm|]. rewrite <- !app_assoc.
    etrans; [apply Permutation_app_comm|]. rewrite <- !app_assoc. apply Permutation_app_head, Permutation_app_comm.
  - intros H. rewrite <- !app_assoc. by apply Permutation_app_head, IH.
Qed.

Lemma awaken_at t c th : thread_at t th -> thread_at t (awaken c th).
Proof.
  destruct th as [|c' k]; [done|]. cbn [awaken]. intros [Ht ->]. case_bool_decide; [|done]. unfold thread_at.
  rewrite (proj2 (Nat.ltb_lt _ _) Ht). apply at_relock.
Qed.
Lemma awaken_owed t c th : thread_at t th -> owed (awaken c th) = owed th.
Proof. destruct th as [|c' k]; [done|]. cbn. intros [_ ->]. by case_bool_decide. Qed.
Lemma pool_awaken_knows s c th : knows s th -> knows s (awaken c th).
Proof. destruct th as [|c' k]; [done|]. cbn. by case_bool_decide. Qed.

(** Outside the monitor a thread knows nothing. *)
Lemma pool_outside_knows t s th : thread_at t th -> thread_typed false th -> knows s th.
Proof. destruct th as [c|]; [|done]. cbn. destruct c; try done. intros _ [? _]. done. Qed.

Lemma presume_typed : resume_typed presume.
Proof.
  intros l k H. destruct l as [[|[t|] r]| |]; cbn in H; injection H as <- || discriminate H; try (cbn; done).
  - unfold run. by destruct (numThreads =? 0)%nat.
  - cbn. split_and!; try done. intros [t|]; cbn; by split_and!.
Qed.

Lemma pool_notifying_nonneg th : 0 <= notifying th.
Proof. destruct th as [[]|]; cbn; lia. Qed.
Lemma pool_waiting_nonneg th : 0 <= waiting th.
Proof. destruct th; cbn; lia. Qed.
Lemma taking_nonneg c : 0 <= taking c.
Proof. destruct c; cbn; try lia. by destruct a; cbn. Qed.
Lemma pool_awake_nonneg th : 0 <= awake th.
Proof. destruct th as [c|]; cbn; [|lia]. destruct c; apply taking_nonneg. Qed.

(** A step of thread [t] from [th0] to [th], on threads some of which may
    have been woken. *)
Lemma pool_update all w t th0 th ths m s' :
  pool_inv all w -> locked (mkWorld m s' (<[t := th]> ths)) -> length ths = length (threads w) -> ths !! t = Some th0 ->
  (forall t' th', ths !! t' = Some th' -> exists th1, threads w !! t' = Some th1 /\ (th' = th1 \/ exists c, th' = awaken c th1)) ->
  flat_map owed ths = flat_map owed (threads w) ->
  thread_at t th -> knows s' th -> (s' = shared w \/ holds w t = true \/ queue_ s' = queue_ (shared w)) ->
  running_ s' = true -> submitted s' = taken s' ++ queue_ s' ->
  ran s' ++ omap id (queue_ s') ++ owed th ≡ₚ ran (shared w) ++ omap id (queue_ (shared w)) ++ owed th0 ->
  (numThreads = 0%nat -> queue_ s' = []) ->
  (0 < sum_of waiting (<[t := th]> ths) -> zlen (queue_ s') <= sum_of awake (<[t := th]> ths) + sum_of notifying (<[t := th]> ths)) ->
  pool_inv all (mkWorld m s' (<[t := th]> ths)).
Proof.
  intros Hinv Hlk Hlen Ht Hths Ho Hat Hk Hs Hr Hf Htasks Hnone Htak. pose proof Hinv as [].
  constructor; try done; cbn [threads shared].
  - intros t' th' Hl. apply list_lookup_insert_Some in Hl as [(<- & <- & _)|[Hne Hl]]; [done|].
    destruct (Hths _ _ Hl) as (th1 & H1 & [-> | [c ->]]); [|apply awaken_at]; by apply pi_at0.
  - intros t' th' Hl. apply list_lookup_insert_Some in Hl as [(<- & <- & _)|[Hne Hl]]; [done|].
    destruct (Hths _ _ Hl) as (th1 & H1 & Hth). assert (knows s' th1) as Hk1.
    { specialize (pi_knows0 _ _ H1). destruct Hs as [-> |[Hh|Hq]]; [done| |].
      - apply (pool_outside_knows t'); [by apply pi_at0|]. pose proof (lk_threads w pi_lock0 t' th1 H1) as Hty.
        replace (holds w t') with false in Hty; [done|]. symmetry. unfold holds in *. apply bool_decide_eq_true in Hh.
        apply bool_decide_eq_false_2. congruence.
      - unfold knows in *. destruct th1 as [[]|]; try done. congruence. }
    destruct Hth as [-> | [c ->]]; [done|by apply pool_awaken_knows].
  - rewrite <- pi_tasks0. pose proof (owed_insert ths t th0 th Ht) as Hi. rewrite Ho in Hi.
    apply (Permutation_app_inv_r (owed th0)).
    transitivity ((ran s' ++ omap id (queue_ s') ++ owed th) ++ flat_map owed (threads w)).
    + rewrite <- !app_assoc. apply Permutation_app_head, Permutation_app_head. rewrite Hi. apply Permutation_app_comm.
    + rewrite Htasks. rewrite <- !app_assoc. apply Permutation_app_head, Permutation_app_head, Permutation_app_comm.
  - rewrite length_insert. lia.
Qed.

Lemma pool_quiet all w t th0 th m :
  pool_inv all w -> threads w !! t = Some th0 -> locked (mkWorld m (shared w) (<[t := th]> (threads w))) ->
  thread_at t th -> knows (shared w) th -> owed th = owed th0 ->
  (waiting th <= waiting th0 \/ queue_ (shared w) = []) ->
  (awake th0 + notifying th0 <= awake th + notifying th \/ queue_ (shared w) = []) ->
  pool_inv all (mkWorld m (shared w) (<[t := th]> (threads w))).
Proof.
  intros Hinv Et Hlk Hat Hk Ho Hw Ha. pose proof Hinv as [].
  apply (pool_update all w t th0 th (threads w) m (shared w)); try done; [apply same_threads|by left|by rewrite Ho|].
  pose proof (sum_of_nonneg awake (<[t := th]> (threads w)) pool_awake_nonneg) as H1.
  pose proof (sum_of_nonneg notifying (<[t := th]> (threads w)) pool_notifying_nonneg) as H2.
  rewrite !(sum_insert _ _ _ _ _ Et) in *. intros Hpos.
  destruct (decide (queue_ (shared w) = [])) as [E|E]; [rewrite E; unfold zlen; cbn; lia|].
  destruct Hw as [Hw|?]; [|done]. destruct Ha as [Ha|?]; [|done]. specialize (pi_takers0 ltac:(lia)). lia.
Qed.

Lemma at_worker_code t c : (t < numThreads)%nat -> worker_at c -> thread_at t (Run c).
Proof. intros Ht Hc. unfold thread_at. by rewrite (proj2 (Nat.ltb_lt _ _) Ht). Qed.
Lemma at_caller_code t c : (numThreads <= t)%nat -> caller_at c -> thread_at t (Run c).
Proof. intros Ht Hc. unfold thread_at. by rewrite (proj2 (Nat.ltb_ge _ _) Ht). Qed.

Ltac pool_counts :=
  cbn [waiting notifying awake taking owed owed_code run runInThread take test_code pop_code push_code notify_code tasks];
  first [reflexivity | left; lia | right; assumption | idtac].

Lemma worker_step all w t ws c w' :
  pool_inv all w -> threads w !! t = Some (Run c) -> (t < numThreads)%nat -> worker_at c -> locked w' ->
  exec pact ptest_ presume w t ws = Some (Ok w') -> pool_inv all w'.
Proof.
  intros Hinv Et Hlt Hc Hlk. unfold exec. rewrite Et. pose proof (pi_knows all w Hinv t _ Et) as Hk. pose proof Hinv as [].
  destruct Hc as [| | | | | | |task|x].
  - cbn [presume]. intros [= <-]. eapply (pool_quiet all w t); try done; [by apply at_worker_code; [|apply at_round]|pool_counts..].
  - cbn [runInThread ptest_]. rewrite pi_running0. intros [= <-].
    eapply (pool_quiet all w t); try done; [by apply at_worker_code; [|apply at_take]|pool_counts..].
  - unfold lock. destruct (owner (mutex_ w)); [done|]. intros [= <-].
    eapply (pool_quiet all w t); try done; [by apply at_worker_code; [|apply at_test]|pool_counts..].
  - cbn [test_code ptest_]. rewrite pi_running0, andb_true_r. case_bool_decide as Eq; intros [= <-].
    + eapply (pool_quiet all w t); try done; [by apply at_worker_code; [|apply at_wait]|pool_counts..].
    + eapply (pool_quiet all w t); try done; [by apply at_worker_code; [|apply at_pop]|pool_counts..].
  - unfold wait_release. destruct (bool_decide _); [|done]. intros [= <-]. cbn in Hk.
    eapply (pool_quiet all w t); try done; [by right|by right].
  - unfold wait_acquire. destruct (owner (mutex_ w)); [done|]. intros [= <-].
    eapply (pool_quiet all w t); try done; [by apply at_worker_code; [|apply at_test]|pool_counts..].
  - cbn [pop_code pact]. destruct (pop_task (shared w)) as [task s'] eqn:Ep. cbn [mbind outcome_bind]. intros [= <-].
    assert (running_ s' = true /\ ran s' = ran (shared w) /\ submitted s' = taken s' ++ queue_ s' /\
      (queue_ (shared w) = [] /\ task = None /\ queue_ s' = [] \/ queue_ (shared w) = task :: queue_ s')) as (Hr & Hran & Hf & Hq).
    { unfold pop_task in Ep. destruct (queue_ (shared w)) as [|task' q] eqn:Eq; injection Ep as <- <-; cbn.
      - split_and!; try done; [by rewrite pi_fifo0, Eq|by left].
      - split_and!; try done; [|by right]. rewrite <- app_assoc. done. }
    apply (pool_update all w t (Run pop_code) _ (threads w)); try done.
    + apply same_threads.
    + apply at_worker_code; [done|apply at_unlock].
    + right. left. pose proof (lk_threads w pi_lock0 t _ Et) as Hty. destruct (holds w t); [done|]. specialize (Hty None). by destruct Hty.
    + rewrite Hran. cbn [owed owed_code pop_code if_task]. destruct Hq as [(-> & -> & ->)|E]; [done|]. rewrite E.
      destruct task as [x|]; cbn; [|done]. apply Permutation_app_head. rewrite Permutation_app_comm. cbn. by rewrite app_nil_r.
    + intros Hn. destruct Hq as [(_ & _ & ->)|E]; [done|]. by rewrite (pi_none0 Hn) in E.
    + rewrite !(sum_insert _ _ _ _ _ Et). cbn [waiting awake notifying taking pop_code]. intros Hpos.
      assert (notifying (Run (Unlock (if_task task))) = 0) by done. assert (awake (Run (Unlock (if_task task))) = 0) by done.
      destruct Hq as [(_ & _ & ->)|E].
      * pose proof (sum_of_nonneg awake (threads w) pool_awake_nonneg). pose proof (sum_of_nonneg notifying (threads w) pool_notifying_nonneg).
        pose proof (sum_one awake (threads w) t _ pool_awake_nonneg Et) as H3. cbn in H3. unfold zlen. cbn. lia.
      * rewrite E, zlen_cons in pi_takers0. specialize (pi_takers0 ltac:(lia)). lia.
  - unfold unlock. destruct (bool_decide _); [|done]. intros [= <-].
    eapply (pool_quiet all w t); try done; destruct task as [x|]; cbn [if_task];
      first [by apply at_worker_code; [|apply at_task]|by apply at_worker_code; [|apply at_worker]|pool_counts].
  - cbn. intros [= <-]. apply (pool_update all w t (Run (Act (Execute x) (fun _ => Done Worker))) _ (threads w)); try done.
    + apply same_threads.
    + apply at_worker_code; [done|apply at_worker].
    + right. by right.
    + cbn. rewrite <- app_assoc. apply Permutation_app_head. cbn. rewrite app_nil_r. apply Permutation_cons_append.
    + rewrite !(sum_insert _ _ _ _ _ Et). cbn. lia.
Qed.

Lemma caller_step all w t ws c w' :
  pool_inv all w -> threads w !! t = Some (Run c) -> (numThreads <= t)%nat -> caller_at c -> locked w' ->
  exec pact ptest_ presume w t ws = Some (Ok w') -> pool_inv all w'.
Proof.
  intros Hinv Et Hge Hc Hlk. unfold exec. rewrite Et. pose proof Hinv as [].
  destruct Hc as [r Hr|x r Hr Hn|x r Hr Hn|x r Hr Hn|r Hr|r Hr].
  - destruct r as [|[x|] r]; cbn [presume]; [done| |by destruct Hr; left]. intros [= <-].
    assert (Stop ∉ r) as Hr' by (intros H; apply Hr; by right). unfold run in *. destruct (Nat.eqb_spec numThreads 0) as [Hn|Hn].
    + eapply (pool_quiet all w t); try done; [by apply at_caller_code; [|apply at_inline]|pool_counts..].
    + eapply (pool_quiet all w t); try done; [by apply at_caller_code; [|apply at_run]|pool_counts..].
  - cbn. intros [= <-]. apply (pool_update all w t (Run (Act (Execute x) (fun _ => Done (Caller r)))) _ (threads w)); try done.
    + apply same_threads.
    + apply at_caller_code; [done|by apply at_caller].
    + right. by right.
    + cbn. rewrite <- app_assoc. apply Permutation_app_head. cbn. rewrite <- Permutation_middle. done.
    + rewrite !(sum_insert _ _ _ _ _ Et). cbn. lia.
  - unfold lock. destruct (owner (mutex_ w)); [done|]. intros [= <-].
    eapply (pool_quiet all w t); try done; [by apply at_caller_code; [|apply at_push]|pool_counts..].
  - cbn. intros [= <-]. apply (pool_update all w t (Run (push_code x r)) _ (threads w)); try done.
    + apply same_threads.
    + apply at_caller_code; [done|by apply at_notify].
    + right. left. pose proof (lk_threads w pi_lock0 t _ Et) as Hty. destruct (holds w t); [done|]. specialize (Hty None). by destruct Hty.
    + cbn. rewrite pi_fifo0. by rewrite app_assoc.
    + cbn. apply Permutation_app_head. rewrite omap_app. cbn. rewrite <- app_assoc. done.
    + rewrite !(sum_insert _ _ _ _ _ Et). cbn. rewrite zlen_app. unfold zlen at 2. cbn. intros Hpos. specialize (pi_takers0 ltac:(lia)). lia.
  - unfold notify_code, signal. destruct (may_wake Cond ws (threads w)) eqn:Em; [|done]. intros [= <-].
    pose proof (wake_run Cond ws (threads w) t _ Et) as Et'.
    apply (pool_update all w t (Run (notify_code r)) _ (wake Cond ws (threads w))); try done.
    + apply wake_length.
    + intros t' th' H. apply lookup_wake in H as (th0 & H & [-> | ->]); exists th0; eauto.
    + assert (forall l l' : list thread, length l' = length l -> (forall i x y, l !! i = Some x -> l' !! i = Some y -> owed y = owed x) -> flat_map owed l' = flat_map owed l) as Hfm.
      { induction l as [|x l IH]; intros [|y l'] Hlen H; try done. cbn. rewrite (H 0%nat x y eq_refl eq_refl).
        f_equal. apply IH; [by injection Hlen|]. intros i. exact (H (S i)). }
      apply Hfm; [apply wake_length|]. intros i x y Hx Hy. apply lookup_wake in Hy as (x' & Hx' & Hy). rewrite Hx in Hx'. injection Hx' as <-.
      destruct Hy as [-> | ->]; [done|]. apply (awaken_owed i). by apply pi_at0.
    + apply at_caller_code; [done|by apply at_return].
    + by left.
    + rewrite !(sum_insert _ _ _ _ _ Et'). cbn [waiting awake notifying taking notify_code]. intros Hpos.
      assert (forall th, awake th <= awake (awaken Cond th)) as Haw.
      { intros [|c' k]; cbn; [lia|]. case_bool_decide; cbn; [apply taking_nonneg|lia]. }
      assert (sum_of notifying (threads w) = sum_of notifying (wake Cond ws (threads w))) as Hnot.
      { apply Z.le_antisymm; [apply wake_le|apply wake_ge]; intros [|c' k]; cbn; try lia; case_bool_decide; cbn; lia. }
      assert (sum_of waiting (wake Cond ws (threads w)) <= sum_of waiting (threads w)) as Hwait.
      { apply wake_ge. intros [|c' k]; cbn; [lia|]. case_bool_decide; cbn; lia. }
      assert (existsb (waits_on Cond) (threads w) = true) as Hex.
      { destruct (existsb (waits_on Cond) (threads w)) eqn:E; [done|]. rewrite (no_waiter_count Cond (threads w) waiting) in Hwait; [lia| |done].
        intros [|[] k]; cbn; [done|]. by rewrite bool_decide_eq_true_2. }
      pose proof (wake_lt Cond ws (threads w) awake Haw) as Hlt. specialize (pi_takers0 ltac:(lia)).
      assert (sum_of awake (threads w) + 1 <= sum_of awake (wake Cond ws (threads w))); [|cbn [shared]; lia]. apply Hlt; try done.
      intros t' [|c' k] Et1 Hon; [done|]. destruct (pi_at0 t' _ Et1) as [_ ->]. cbn in Hon |- *. rewrite Hon. cbn. lia.
  - unfold unlock. destruct (bool_decide _); [|done]. intros [= <-].
    eapply (pool_quiet all w t); try done; [by apply at_caller_code; [|apply at_caller]|pool_counts..].
Qed.

Lemma pool_move all w m w' : pool_inv all w -> pmove w m = Some (Ok w') -> pool_inv all w'.
Proof.
  intros Hinv Hex. pose proof (move_locked pact ptest_ presume w m w' presume_typed (pi_lock all w Hinv) Hex) as Hlk.
  destruct m as [t ws|t]; unfold pmove in Hex; cbn [exec_move] in Hex.
  - destruct (threads w !! t) as [[c|c k]|] eqn:Et; [|by unfold exec in Hex; rewrite Et in Hex..].
    pose proof (pi_at all w Hinv t _ Et) as Hat. unfold thread_at in Hat. destruct (Nat.ltb_spec t numThreads).
    + by apply (worker_step all w t ws c).
    + by apply (caller_step all w t ws c).
  - revert Hex. unfold spurious. destruct (threads w !! t) as [[|c k]|] eqn:Et; [done| |done]. intros [= <-].
    destruct (pi_at all w Hinv t _ Et) as [Hlt ->]. destruct c.
    eapply (pool_quiet all w t); try done; [by apply at_worker_code; [|apply at_relock]|pool_counts..].
Qed.

Lemma start_pool_inv scripts : (forall r, r ∈ scripts -> Stop ∉ r) -> pool_inv (flat_map tasks scripts) (start scripts).
Proof.
  intros Hs. assert (forall t th, threads (start scripts) !! t = Some th ->
    ((t < numThreads)%nat /\ th = Run (Done Worker)) \/ ((numThreads <= t)%nat /\ exists r, r ∈ scripts /\ th = Run (Done (Caller r)))) as Hth.
  { intros t th. cbn. rewrite lookup_app_Some, repeat_length. intros [H|[Hge H]].
    - left. pose proof (lookup_lt_Some _ _ _ H) as Hlt. rewrite repeat_length in Hlt. split; [done|].
      apply list_elem_of_lookup_2 in H. apply list_elem_of_In, repeat_spec in H. done.
    - right. split; [done|]. change (map ?f ?l) with (f <$> l) in H. rewrite list_lookup_fmap in H.
      apply fmap_Some in H as (r & Hr & ->). exists r. split; [by apply list_elem_of_lookup_2 in Hr|done]. }
  constructor; try done.
  - constructor; [|done]. intros t th H. by destruct (Hth t th H) as [[_ ->]|(_ & r & _ & ->)].
  - intros t th H. destruct (Hth t th H) as [[Hlt ->]|(Hge & r & Hr & ->)]; [apply at_worker_code; [done|apply at_worker]|].
    apply at_caller_code; [done|]. by apply at_caller, Hs.
  - intros t th H. by destruct (Hth t th H) as [[_ ->]|(_ & r & _ & ->)].
  - rewrite (sum_zero waiting); [lia|]. intros t th H. by destruct (Hth t th H) as [[_ ->]|(_ & r & _ & ->)].
  - cbn. rewrite flat_map_app. assert (flat_map owed (repeat (Run (Done Worker)) numThreads) = []) as ->.
    { clear. induction numThreads; [done|]. done. }
    clear. cbn. induction scripts as [|r rs IH]; cbn; [done|]. by apply Permutation_app_head.
  - cbn. rewrite length_app, repeat_length. lia.
Qed.

Lemma pool_reachable scripts w :
  (forall r, r ∈ scripts -> Stop ∉ r) -> rtc pstep (start scripts) w -> pool_inv (flat_map tasks scripts) w.
Proof.
  intros Hs Hr. apply (rtc_invariant pstep (pool_inv (flat_map tasks scripts)) (start scripts)); [|by apply start_pool_inv|done].
  intros x y Hx [m Hm]. by eapply pool_move.
Qed.

(** ** A pool at rest *)

Lemma pool_no_fail all w m why : pool_inv all w -> pmove w m <> Some (Fail why).
Proof. intros Hinv Hf. destruct (exec_fails _ _ _ w m why (pi_lock all w Hinv) Hf) as (t & ws & a & k & -> & Et & Ha). by destruct a. Qed.

Definition at_rest (t : nat) (th : thread) : Prop :=
  if (t <? numThreads)%nat then th = Waiting Cond test_code else th = Run (Done (Caller [])).

Lemma quiescent_rest all w t th : pool_inv all w -> pquiescent w -> threads w !! t = Some th -> at_rest t th.
Proof.
  intros Hinv Hq Et. destruct (quiescent_stopped _ _ _ w (pi_lock all w Hinv) Hq) as [_ Hst]. specialize (Hst t th Et).
  pose proof (pi_at all w Hinv t th Et) as Hat. unfold at_rest, thread_at in *.
  destruct th as [c|[] k]; [|destruct Hat as [Hlt ->]; by rewrite (proj2 (Nat.ltb_lt _ _) Hlt)].
  destruct (t <? numThreads)%nat; [by destruct Hat as [| | | | | | |[]|]|]. destruct Hat as [r Hr| | | | |]; try done.
  destruct r as [|[x|] r]; [done|done|by destruct Hr; left].
Qed.

Lemma rest_counts (l : list thread) i :
  (forall t th, l !! t = Some th -> at_rest (i + t) th) ->
  sum_of awake l = 0 /\ sum_of notifying l = 0 /\ flat_map owed l = [].
Proof.
  induction l as [|x l IH] in i |- *; intros Hl; [done|]. destruct (IH (S i)) as (H1 & H2 & H3).
  { intros t th Ht. rewrite Nat.add_succ_comm. by apply Hl. }
  specialize (Hl 0%nat x eq_refl). unfold at_rest in Hl. cbn [sum_of flat_map]. rewrite H1, H2, H3.
  by destruct (i + 0 <? numThreads)%nat; subst x.
Qed.

Lemma quiescent_drained all w : pool_inv all w -> pquiescent w -> queue_ (shared w) = [] /\ flat_map owed (threads w) = [].
Proof.
  intros Hinv Hq. destruct (rest_counts (threads w) 0 (fun t th => quiescent_rest all w t th Hinv Hq)) as (Ha & Hn & Ho).
  split; [|done]. destruct (decide (numThreads = 0%nat)) as [Hz|Hz]; [exact (pi_none all w Hinv Hz)|].
  pose proof (pi_workers all w Hinv). destruct (lookup_lt_is_Some_2 (threads w) 0 ltac:(lia)) as [th Et].
  pose proof (quiescent_rest all w 0 th Hinv Hq Et) as Hr. unfold at_rest in Hr. rewrite (proj2 (Nat.ltb_lt _ _)) in Hr by lia. subst th.
  pose proof (sum_one waiting (threads w) 0 _ pool_waiting_nonneg Et) as H1. cbn in H1.
  pose proof (pi_takers all w Hinv ltac:(lia)) as H2. rewrite Ha, Hn in H2. by destruct (queue_ (shared w)).
Qed.

(** C21: a pool that nobody stops, with any number of workers and of threads
    that submit, under every interleaving: tasks are taken in the order they
    were submitted, none runs more often than it was submitted, and the
    mutex is held by one thread at a time; and when no thread can go on, the
    queue is empty, every submitted task has run exactly once, every [run]
    has returned and every worker waits for the next task. *)
Theorem pool_runs_all scripts w :
  (forall r, r ∈ scripts -> Stop ∉ r) -> rtc pstep (start scripts) w ->
  (forall m why, pmove w m <> Some (Fail why)) /\
  (forall t th, threads w !! t = Some th -> thread_typed (holds w t) th) /\
  submitted (shared w) = taken (shared w) ++ queue_ (shared w) /\
  (exists rest, ran (shared w) ++ rest ≡ₚ flat_map tasks scripts) /\
  (pquiescent w ->
     queue_ (shared w) = [] /\ ran (shared w) ≡ₚ flat_map tasks scripts /\
     forall t th, threads w !! t = Some th -> at_rest t th).
Proof.
  intros Hs Hr. pose proof (pool_reachable scripts w Hs Hr) as Hinv.
  split; [intros m why; by eapply pool_no_fail|]. split; [apply (lk_threads w (pi_lock _ w Hinv))|].
  split; [exact (pi_fifo _ w Hinv)|]. split; [eexists; exact (pi_tasks _ w Hinv)|]. intros Hq.
  destruct (quiescent_drained _ w Hinv Hq) as [Eq Eo]. pose proof (pi_tasks _ w Hinv) as Ht. rewrite Eq, Eo in Ht. cbn in Ht. rewrite app_nil_r in Ht.
  split; [done|]. split; [done|]. intros t th. by apply (quiescent_rest (flat_map tasks scripts)).
Qed.
End pool.

#[export] Existing Instance pcond_eq_dec.

(** ** Runs: one worker *)

Definition pool_run (scripts : list (list (pcall (T := Z)))) (steps : list (tid * list tid)) :=
  run_moves (pact (T := Z)) (ptest_ 1) (presume 1) (start 1 scripts) (map (fun '(t, ws) => Step t ws) steps).
Definition pool_after scripts steps :=
  match pool_run scripts steps with Some (Ok w) => w | _ => start 1 [] end.

(** The worker waits, is woken by [run], executes the task and waits again. *)
Definition serve : list (tid * list tid) :=
  repeat (0%nat, []) 5 ++ repeat (1%nat, []) 3 ++ [(1%nat, [0%nat]); (1%nat, [])] ++ repeat (0%nat, []) 10.
Definition served := pool_after [[RunTask 7]] serve.

Lemma served_reachable : rtc (pstep 1) (start 1 [[RunTask 7]]) served.
Proof. apply (run_moves_rtc _ _ _ _ (map (fun '(t, ws) => Step t ws) serve)). reflexivity. Qed.

Lemma pool_runs_all_witness :
  (forall r, r ∈ [[RunTask 7]] -> Stop ∉ r) /\ rtc (pstep 1) (start 1 [[RunTask 7]]) served /\ pquiescent 1 served /\
  queue_ (shared served) = [] /\ ran (shared served) ≡ₚ [7] /\
  forall t th, threads served !! t = Some th -> at_rest 1 t th.
Proof.
  assert (forall r, r ∈ [[RunTask 7]] -> Stop ∉ r) as Hs.
  { intros r Hr. apply list_elem_of_singleton in Hr as ->. intros Hin. apply list_elem_of_singleton in Hin. discriminate Hin. }
  assert (pquiescent 1 served) as Hq by (intros [|[|t]] ws; reflexivity).
  split; [exact Hs|]. split; [apply served_reachable|]. split; [exact Hq|].
  apply (pool_runs_all 1 [[RunTask 7]] served Hs served_reachable). exact Hq.
Defined.

(** [stop] writes [running_] and notifies without [mutex_]: between a
    worker's test in [take] and its [wait] both go unseen.  Then the worker
    waits for ever and [stop] never returns from [join]. *)
Definition lose_wakeup : list (tid * list tid) := repeat (0%nat, []) 4 ++ repeat (1%nat, []) 3 ++ [(0%nat, [])].
Definition hung := pool_after [[Stop]] lose_wakeup.

Lemma stop_can_hang :
  rtc (pstep 1) (start 1 [[Stop]]) hung /\ pquiescent 1 hung /\ running_ (shared hung) = false /\
  threads hung = [Waiting Cond test_code; Run (Join AllExited (Done (Caller [])))].
Proof.
  split; [|split; [|done]].
  - apply (run_moves_rtc _ _ _ _ (map (fun '(t, ws) => Step t ws) lose_wakeup)). reflexivity.
  - intros [|[|t]] ws; reflexivity.
Qed.
