(* ===== verification/CountDownLatch.v ===== *)
(** * CountDownLatch: waiting for a count to reach zero

    Models [CountDownLatch] of [thread/CountDownLatch.h] on the semantics of
    [Monitor.v]: any number of threads that [wait], [countDown] and
    [getCount], each through a script of calls.  [count_] is an [int]:
    [--count_] is undefined at [INT_MIN]. *)
From S2P Require Import Prelude Monitor.

Section latch.

Inductive laction := Decrement | GetCount.
Inductive ltest := Positive | IsZero.
Inductive lcond := Opened.
Inductive lcall := WaitOpen | CountDown | ReadCount.

#[local] Instance lcond_eq_dec : EqDecision lcond.
Proof. solve_decision. Defined.

Definition INT_MIN : Z := - 2 ^ 31.

(** The shared member: [count_]. *)
Definition lact (a : laction) (count_ : Z) : outcome (option Z * Z) :=
  match a with
  | Decrement => _ ← defined_ (INT_MIN <? count_); Ok (None, count_ - 1)
  | GetCount => Ok (Some count_, count_)
  end.
Definition ltest_ (b : ltest) (count_ : Z) : bool :=
  match b with Positive => 0 <? count_ | IsZero => count_ =? 0 end.

Abbreviation code := (code laction ltest lcond (option Z) (list lcall)).
Abbreviation thread := (thread laction ltest lcond (option Z) (list lcall)).
Abbreviation world := (world Z laction ltest lcond (option Z) (list lcall)).

Definition wait (r : list lcall) : code := Lock (While Positive Opened (Unlock (Done r))).
Definition countDown (r : list lcall) : code :=
  Lock (Act Decrement (fun _ => If IsZero (NotifyAll Opened (Unlock (Done r))) (Unlock (Done r)))).
Definition getCount (r : list lcall) : code := Lock (Act GetCount (fun _ => Unlock (Done r))).

Definition lresume (r : list lcall) : option code :=
  match r with
  | [] => None
  | WaitOpen :: r => Some (wait r)
  | CountDown :: r => Some (countDown r)
  | ReadCount :: r => Some (getCount r)
  end.

(** [CountDownLatch(count)], shared by the threads. *)
Definition start_latch (count : Z) (scripts : list (list lcall)) : world :=
  mkWorld new_MutexLock count (map (fun r => Run (Done r)) scripts).

Definition lmove := exec_move lact ltest_ lresume.
Definition lstep := mstep lact ltest_ lresume.
Definition lquiescent := quiescent lact ltest_ lresume.

(** ** Invariant *)

Definition wait_code (r : list lcall) : code := While Positive Opened (Unlock (Done r)).
Definition notify_all (r : list lcall) : code := NotifyAll Opened (Unlock (Done r)).
Definition counted (r : list lcall) : code := If IsZero (notify_all r) (Unlock (Done r)).

Inductive latch_at : code -> Prop :=
| la_done r : latch_at (Done r)
| la_unlock r : latch_at (Unlock (Done r))
| la_wait r : latch_at (Lock (wait_code r))
| la_test r : latch_at (wait_code r)
| la_block r : latch_at (Wait Opened (wait_code r))
| la_relock r : latch_at (Relock (wait_code r))
| la_count r : latch_at (Lock (Act Decrement (fun _ => counted r)))
| la_decr r : latch_at (Act Decrement (fun _ => counted r))
| la_counted r : latch_at (counted r)
| la_notify r : latch_at (notify_all r)
| la_get r : latch_at (Lock (Act GetCount (fun _ => Unlock (Done r))))
| la_got r : latch_at (Act GetCount (fun _ => Unlock (Done r))).

Definition latch_thread (th : thread) : Prop :=
  match th with Run c => latch_at c | Waiting _ k => exists r, k = wait_code r end.

(** The calls of one kind that a thread has still to make: a [wait] until
    it passes its loop, a [countDown] until it decrements. *)
Definition counts (c : lcall) : Z := match c with CountDown => 1 | _ => 0 end.
Definition waits (c : lcall) : Z := match c with WaitOpen => 1 | _ => 0 end.
Fixpoint left_code (c : code) : Z * Z :=
  match c with
  | Done r => (sum_of counts r, sum_of waits r)
  | Act Decrement k => let '(n, m) := left_code (k None) in (n + 1, m)
  | Act GetCount k => left_code (k None)
  | While _ _ k => let '(n, m) := left_code k in (n, m + 1)
  | Lock k | Unlock k | Wait _ k | Relock k | NotifyAll _ k | Notify _ k | Join _ k | If _ _ k => left_code k
  end.
Definition counts_left (th : thread) : Z := match th with Run c | Waiting _ c => (left_code c).1 end.
Definition waits_left (th : thread) : Z := match th with Run c | Waiting _ c => (left_code c).2 end.

Definition announcing (th : thread) : Z := match th with Run (If _ _ _) | Run (NotifyAll _ _) => 1 | _ => 0 end.
Definition waiting (th : thread) : Z := match th with Waiting _ _ => 1 | Run _ => 0 end.

(** [scripts]: what the threads were given; a thread that has passed a
    [wait] proves the latch open. *)
Record latch_inv (count : Z) (scripts : list (list lcall)) (w : world) : Prop := {
  li_lock : locked w;
  li_at : forall t th, threads w !! t = Some th -> latch_thread th;
  li_knows : forall t k, threads w !! t = Some (Run (Wait Opened k)) -> 0 < shared w;
  li_count : shared w = count - sum_of (sum_of counts) scripts + sum_of counts_left (threads w);
  li_waiting : 0 < sum_of waiting (threads w) -> 0 < shared w \/ (shared w = 0 /\ 0 < sum_of announcing (threads w));
  li_passed : forall t th, threads w !! t = Some th ->
    exists r, scripts !! t = Some r /\ counts_left th <= sum_of counts r /\ waits_left th <= sum_of waits r /\
      (waits_left th < sum_of waits r -> shared w <= 0);
}.

(** ** Lemmas *)

Lemma latch_resume_typed : resume_typed lresume.
Proof. intros r k H. by destruct r as [|[| |] r]; cbn in H; [discriminate H|injection H as <-..]. Qed.

Lemma latch_awaken c th : latch_thread th -> latch_thread (awaken c th).
Proof. destruct th as [|[] k]; [done|]. cbn. intros [r ->]. case_bool_decide; [apply la_relock|by exists r]. Qed.
Lemma awaken_counts c th : counts_left (awaken c th) = counts_left th.
Proof. destruct th as [|c' k]; [done|]. cbn. by case_bool_decide. Qed.
Lemma awaken_waits c th : waits_left (awaken c th) = waits_left th.
Proof. destruct th as [|c' k]; [done|]. cbn. by case_bool_decide. Qed.
Lemma announcing_nonneg th : 0 <= announcing th.
Proof. destruct th as [[]|]; cbn; lia. Qed.
Lemma latch_waiting_nonneg th : 0 <= waiting th.
Proof. destruct th; cbn; lia. Qed.
Lemma counts_nonneg c : 0 <= counts c.
Proof. destruct c; cbn; lia. Qed.

(** A thread about to wait, and one about to announce, hold the mutex. *)
Lemma inside_holds (w : world) t th :
  locked w -> threads w !! t = Some th -> (thread_typed false th -> False) -> holds w t = true.
Proof. intros Hl Et Hno. pose proof (lk_threads w Hl t th Et) as Hty. destruct (holds w t); [done|]. by destruct (Hno Hty). Qed.
Lemma holds_unique (w : world) t t' : holds w t = true -> holds w t' = true -> t' = t.
Proof. unfold holds. intros H%bool_decide_eq_true H'%bool_decide_eq_true. congruence. Qed.

Lemma latch_update count scripts w t th0 th ths m s' :
  latch_inv count scripts w -> locked (mkWorld m s' (<[t := th]> ths)) ->
  threads w !! t = Some th0 -> ths !! t = Some th0 ->
  (forall t' th', ths !! t' = Some th' -> exists th1, threads w !! t' = Some th1 /\ (th' = th1 \/ exists c, th' = awaken c th1)) ->
  sum_of counts_left ths = sum_of counts_left (threads w) ->
  latch_thread th -> (forall k, th = Run (Wait Opened k) -> 0 < s') ->
  (s' = shared w \/ (holds w t = true /\ s' <= shared w)) ->
  s' - counts_left th = shared w - counts_left th0 ->
  waits_left th <= waits_left th0 -> (waits_left th < waits_left th0 -> s' <= 0) ->
  (0 < sum_of waiting (<[t := th]> ths) -> 0 < s' \/ (s' = 0 /\ 0 < sum_of announcing (<[t := th]> ths))) ->
  latch_inv count scripts (mkWorld m s' (<[t := th]> ths)).
Proof.
  intros Hinv Hlk Et0 Et Hths Hsum Hat Hwt Hs Hc Hw1 Hw2 Hw. pose proof Hinv as []. constructor; try done; cbn [threads shared].
  - intros t' th' Hl. apply list_lookup_insert_Some in Hl as [(<- & <- & _)|[Hne Hl]]; [done|].
    destruct (Hths _ _ Hl) as (th1 & H1 & [-> | [c ->]]); [|apply latch_awaken]; by eapply li_at0.
  - intros t' k Hl. apply list_lookup_insert_Some in Hl as [(<- & -> & _)|[Hne Hl]]; [by eapply Hwt|].
    destruct (Hths _ _ Hl) as (th1 & H1 & Hth). assert (th1 = Run (Wait Opened k)) as ->.
    { destruct Hth as [->|[c Hth]]; [done|]. destruct th1; [done|]. cbn in Hth. by case_bool_decide. }
    destruct Hs as [->|[Hh _]]; [by eapply li_knows0|]. destruct Hne.
    eapply holds_unique; [|exact Hh]. eapply inside_holds; [done|exact H1|]. by intros [].
  - rewrite (sum_insert _ _ _ _ _ Et), Hsum. lia.
  - intros t' th' Hl. apply list_lookup_insert_Some in Hl as [(<- & <- & _)|[Hne Hl]].
    + destruct (li_passed0 t th0 Et0) as (r & Hr & Hcl & Hle & Hlt). exists r. split_and!; [done|destruct Hs as [->|[_ ?]]; lia|lia|]. intros Hp.
      destruct (decide (waits_left th < waits_left th0)); [by apply Hw2|]. specialize (Hlt ltac:(lia)). destruct Hs as [->|[_ ?]]; lia.
    + destruct (Hths _ _ Hl) as (th1 & H1 & Hth). destruct (li_passed0 t' th1 H1) as (r & Hr & Hcl & Hle & Hlt). exists r.
      assert (waits_left th' = waits_left th1 /\ counts_left th' = counts_left th1) as [-> ->]
        by (destruct Hth as [-> | [c ->]]; [done|split; [apply awaken_waits|apply awaken_counts]]).
      split_and!; [done|lia|lia|]. intros Hp. specialize (Hlt Hp). destruct Hs as [->|[_ ?]]; lia.
Qed.

(** A step that leaves the count as it is. *)
Lemma latch_quiet count scripts w t th0 th m :
  latch_inv count scripts w -> threads w !! t = Some th0 -> locked (mkWorld m (shared w) (<[t := th]> (threads w))) ->
  latch_thread th -> counts_left th = counts_left th0 ->
  (waits_left th = waits_left th0 \/ (waits_left th < waits_left th0 /\ shared w <= 0)) ->
  (forall k, th = Run (Wait Opened k) -> 0 < shared w) ->
  (0 < shared w \/ (waiting th <= waiting th0 /\ (announcing th0 <= announcing th \/ shared w <> 0))) ->
  latch_inv count scripts (mkWorld m (shared w) (<[t := th]> (threads w))).
Proof.
  intros Hinv Et Hlk Hat Hc Hw Hk Hn. pose proof Hinv as [].
  apply (latch_update count scripts w t th0 th (threads w)); try done; [apply same_threads|by left|lia|lia|lia|].
  rewrite !(sum_insert _ _ _ _ _ Et). intros Hpos. destruct Hn as [?|[Hwt Ha]]; [by left|].
  destruct (li_waiting0 ltac:(lia)) as [?|[Hz Han]]; [by left|]. destruct Ha as [Ha|?]; [|done]. right. lia.
Qed.

Lemma broadcast_waiting (ths : list thread) : sum_of waiting (awaken Opened <$> ths) = 0.
Proof.
  apply sum_zero. intros t x. rewrite list_lookup_fmap. intros (th & _ & ->)%fmap_Some.
  destruct th as [|[] k]; cbn; [done|]. by rewrite bool_decide_eq_true_2.
Qed.
Lemma broadcast_counts (ths : list thread) : sum_of counts_left (awaken Opened <$> ths) = sum_of counts_left ths.
Proof. induction ths as [|th ths IH]; [done|]. cbn. by rewrite IH, awaken_counts. Qed.

Ltac latch_done :=
  try done; cbn [left_code counts_left waits_left announcing waiting wait countDown getCount counts waits wait_code counted notify_all fst snd sum_of];
  first [lia | by constructor | intros ? [= ?] | left; lia | right; split; [lia|left; lia] | right; lia | idtac].

Lemma latch_decrement count scripts w t r m :
  latch_inv count scripts w -> threads w !! t = Some (Run (Act Decrement (fun _ => counted r))) ->
  locked (mkWorld m (shared w - 1) (<[t := Run (counted r)]> (threads w))) ->
  latch_inv count scripts (mkWorld m (shared w - 1) (<[t := Run (counted r)]> (threads w))).
Proof.
  intros Hinv Et Hlk. pose proof Hinv as [].
  assert (holds w t = true) as Hh by (eapply inside_holds; [done|exact Et|]; intros Hty; by destruct (Hty None) as [[[=] _] _]).
  apply (latch_update count scripts w t _ _ (threads w) m _ Hinv Hlk Et Et); latch_done.
  - apply same_threads.
  - right. split; [done|lia].
  - rewrite !(sum_insert _ _ _ _ _ Et). cbn. intros Hpos. pose proof (sum_of_nonneg announcing (threads w) announcing_nonneg).
    destruct (li_waiting0 ltac:(lia)) as [?|[_ Han]]; [destruct (decide (shared w = 1)); [right|left]; lia|].
    destruct (decide (sum_of announcing (threads w) = 0)) as [?|Hne]; [lia|].
    assert (exists t' th', threads w !! t' = Some th' /\ 0 < announcing th') as (t' & th' & Et' & Ha).
    { clear -Hne. induction (threads w) as [|x l IH]; [done|]. cbn in Hne. pose proof (announcing_nonneg x).
      destruct (decide (announcing x = 0)) as [E|E]; [|by exists 0%nat, x; split; [|lia]].
      destruct (IH ltac:(lia)) as (t' & th' & Ht & Hp). by exists (S t'), th'. }
    assert (t' = t) as ->.
    { eapply holds_unique; [exact Hh|]. eapply inside_holds; [done|exact Et'|]. pose proof (li_at0 t' th' Et') as Hat.
      destruct th' as [c|]; [|done]. destruct Hat; cbn in Ha; try lia; cbn; intuition discriminate. }
    rewrite Et in Et'. injection Et' as <-. cbn in Ha. lia.
Qed.

Lemma latch_step count scripts w t ws w' :
  latch_inv count scripts w -> exec lact ltest_ lresume w t ws = Some (Ok w') -> latch_inv count scripts w'.
Proof.
  intros Hinv Hex. pose proof (exec_locked lact ltest_ lresume w t ws w' latch_resume_typed (li_lock _ _ w Hinv) Hex) as Hlk.
  revert Hex. unfold exec. destruct (threads w !! t) as [[c|]|] eqn:Et; [|done|done]. pose proof Hinv as [].
  pose proof (li_at0 t _ Et) as Hat. cbn in Hat. destruct Hat as [r|r|r|r|r|r|r|r|r|r|r|r].
  - destruct r as [|[| |] r]; cbn [lresume]; [done|..]; intros [= <-]; apply (latch_quiet count scripts w t _ _ _ Hinv Et Hlk); latch_done.
  - unfold unlock. destruct (bool_decide _); [|done]. intros [= <-]. apply (latch_quiet count scripts w t _ _ _ Hinv Et Hlk); latch_done.
  - unfold lock. destruct (owner (mutex_ w)); [done|]. intros [= <-]. apply (latch_quiet count scripts w t _ _ _ Hinv Et Hlk); latch_done.
  - cbn [wait_code ltest_] in *. destruct (Z.ltb_spec 0 (shared w)); intros [= <-]; apply (latch_quiet count scripts w t _ _ _ Hinv Et Hlk); latch_done.
  - unfold wait_release. destruct (bool_decide _); [|done]. intros [= <-]. pose proof (li_knows0 t _ Et).
    apply (latch_quiet count scripts w t _ _ _ Hinv Et Hlk); latch_done. by exists r.
  - unfold wait_acquire. destruct (owner (mutex_ w)); [done|]. intros [= <-]. apply (latch_quiet count scripts w t _ _ _ Hinv Et Hlk); latch_done.
  - unfold lock. destruct (owner (mutex_ w)); [done|]. intros [= <-]. apply (latch_quiet count scripts w t _ _ _ Hinv Et Hlk); latch_done.
  - cbn [lact]. unfold defined_. destruct (INT_MIN <? shared w); [|done]. intros [= <-]. exact (latch_decrement count scripts w t r _ Hinv Et Hlk).
  - cbn [counted ltest_] in *. destruct (Z.eqb_spec (shared w) 0); intros [= <-]; apply (latch_quiet count scripts w t _ _ _ Hinv Et Hlk); latch_done.
  - cbn [notify_all]. intros [= <-]. unfold broadcast, set_thread in *. cbn [threads mutex_ shared] in *.
    assert ((awaken Opened <$> threads w) !! t = Some (Run (notify_all r))) as Et' by (by rewrite list_lookup_fmap, Et).
    apply (latch_update count scripts w t (Run (notify_all r)) (Run (Unlock (Done r))) (awaken Opened <$> threads w)); latch_done.
    + intros t' th'. rewrite list_lookup_fmap. intros (th1 & H & ->)%fmap_Some. exists th1. eauto.
    + apply broadcast_counts.
    + rewrite (sum_insert _ _ _ _ _ Et'), broadcast_waiting. cbn. lia.
  - unfold lock. destruct (owner (mutex_ w)); [done|]. intros [= <-]. apply (latch_quiet count scripts w t _ _ _ Hinv Et Hlk); latch_done.
  - cbn [lact]. intros [= <-]. apply (latch_quiet count scripts w t _ _ _ Hinv Et Hlk); latch_done.
Qed.

Lemma latch_move count scripts w m w' : latch_inv count scripts w -> lmove w m = Some (Ok w') -> latch_inv count scripts w'.
Proof.
  intros Hinv Hex. destruct m as [t ws|t]; [by eapply latch_step|].
  pose proof (move_locked lact ltest_ lresume w (Spurious t) w' latch_resume_typed (li_lock _ _ w Hinv) Hex) as Hlk.
  revert Hex. unfold lmove. cbn [exec_move]. unfold spurious. destruct (threads w !! t) as [[|[] k]|] eqn:Et; [done| |done]. intros [= <-].
  pose proof (li_at _ _ w Hinv t _ Et) as [r ->]. apply (latch_quiet count scripts w t _ _ _ Hinv Et Hlk); latch_done.
Qed.

Lemma start_latch_inv count scripts : latch_inv count scripts (start_latch count scripts).
Proof.
  assert (forall t th, threads (start_latch count scripts) !! t = Some th -> exists r, scripts !! t = Some r /\ th = Run (Done r)) as Hth.
  { intros t th. cbn. change (map ?f ?l) with (f <$> l). rewrite list_lookup_fmap. intros (r & Hr & ->)%fmap_Some. eauto. }
  constructor.
  - constructor; [|done]. intros t th H. by destruct (Hth t th H) as (r & _ & ->).
  - intros t th H. destruct (Hth t th H) as (r & _ & ->). apply la_done.
  - intros t k H. by destruct (Hth t _ H) as (r & _ & [=]).
  - cbn. assert (sum_of counts_left (map (fun r => Run (Done r)) scripts) = sum_of (sum_of counts) scripts) as ->; [|lia].
    clear. induction scripts as [|r rs IH]; [done|]. cbn. by rewrite IH.
  - rewrite (sum_zero waiting); [lia|]. intros t th H. by destruct (Hth t th H) as (r & _ & ->).
  - intros t th H. destruct (Hth t th H) as (r & Hr & ->). exists r. cbn. split_and!; [done|lia..].
Qed.

Lemma latch_reachable count scripts w : rtc lstep (start_latch count scripts) w -> latch_inv count scripts w.
Proof.
  intros Hr. apply (rtc_invariant lstep (latch_inv count scripts) (start_latch count scripts)); [|by apply start_latch_inv|done].
  intros x y Hx [m Hm]. by eapply latch_move.
Qed.

Lemma counts_left_nonneg th : latch_thread th -> 0 <= counts_left th.
Proof.
  assert (forall r, 0 <= sum_of counts r) as Hr by (intros r; apply sum_of_nonneg, counts_nonneg).
  destruct th as [c|c k]; [intros []; cbn|intros [r ->]; cbn]; try (by apply Hr); pose proof (Hr r); lia.
Qed.

Lemma latch_no_fail count scripts w m why :
  latch_inv count scripts w -> INT_MIN <= count - sum_of (sum_of counts) scripts -> lmove w m <> Some (Fail why).
Proof.
  intros Hinv Hb Hf. destruct (exec_fails _ _ _ w m why (li_lock _ _ w Hinv) Hf) as (t & ws & a & k & -> & Et & Ha).
  destruct a; [|done]. cbn in Ha. unfold defined_ in Ha. destruct (Z.ltb_spec INT_MIN (shared w)) as [|Hlt]; [done|].
  rewrite (li_count _ _ w Hinv) in Hlt. pose proof (li_at _ _ w Hinv t _ Et) as Hat.
  assert (1 <= sum_of counts_left (threads w)); [|lia].
  assert (forall l : list thread, (forall t th, l !! t = Some th -> latch_thread th) -> forall t th, l !! t = Some th -> counts_left th <= sum_of counts_left l) as Hone.
  { clear. induction l as [|x l IH]; [done|]. intros Hl t th. cbn. pose proof (counts_left_nonneg x (Hl 0%nat x eq_refl)).
    assert (0 <= sum_of counts_left l).
    { clear -Hl. assert (forall t th, l !! t = Some th -> latch_thread th) as H by (intros t; exact (Hl (S t))). clear Hl.
      induction l as [|y l IH]; [done|]. cbn. pose proof (counts_left_nonneg y (H 0%nat y eq_refl)). specialize (IH (fun t => H (S t))). lia. }
    destruct t as [|t]; cbn; [intros [= ->]; lia|]. intros Ht. specialize (IH (fun t => Hl (S t)) t th Ht). lia. }
  specialize (Hone (threads w) (li_at _ _ w Hinv) t _ Et). cbn in Hat. inversion Hat; subst; clear Hat. cbn in Hone.
  pose proof (sum_of_nonneg counts r counts_nonneg). lia.
Qed.

Lemma latch_rest count scripts w t th :
  latch_inv count scripts w -> lquiescent w -> threads w !! t = Some th ->
  th = Run (Done []) \/ (exists r, th = Waiting Opened (wait_code r) /\ 0 < shared w).
Proof.
  intros Hinv Hq Et. destruct (quiescent_stopped _ _ _ w (li_lock _ _ w Hinv) Hq) as [_ Hst].
  pose proof (Hst t th Et) as Hth. pose proof (li_at _ _ w Hinv t th Et) as Hat.
  destruct th as [c|[] k].
  - left. destruct Hat as [[|[| |] r]|r|r|r|r|r|r|r|r|r|r|r]; done.
  - right. destruct Hat as [r ->]. exists r. split; [done|].
    pose proof (sum_one waiting (threads w) t _ latch_waiting_nonneg Et) as H1. cbn in H1.
    destruct (li_waiting _ _ w Hinv ltac:(lia)) as [?|[_ Ha]]; [done|]. rewrite (sum_zero announcing) in Ha; [lia|].
    intros t' th' Et'. pose proof (Hst t' th' Et') as Hth'. by destruct th' as [[]|].
Qed.

(** C22: threads that wait for a latch, count it down and read it, under
    every interleaving: the count is always the initial one less the
    decrements made; while it is positive no [wait] has passed; it does not
    overflow if all calls together cannot make it; no announcement is lost:
    when no thread can go on, each has finished or waits while the count is
    positive.  So if no thread both waits and counts down, and the
    [countDown]s are at least the count, all threads finish. *)
Theorem latch_opens count scripts w :
  rtc lstep (start_latch count scripts) w ->
  (INT_MIN <= count - sum_of (sum_of counts) scripts -> forall m why, lmove w m <> Some (Fail why)) /\
  shared w = count - sum_of (sum_of counts) scripts + sum_of counts_left (threads w) /\
  (forall t th r, threads w !! t = Some th -> scripts !! t = Some r -> waits_left th < sum_of waits r -> shared w <= 0) /\
  (lquiescent w ->
     (forall t th, threads w !! t = Some th -> th = Run (Done []) \/ (exists r, th = Waiting Opened (wait_code r) /\ 0 < shared w)) /\
     ((forall r, r ∈ scripts -> sum_of counts r = 0 \/ sum_of waits r = 0) -> count <= sum_of (sum_of counts) scripts ->
      forall t th, threads w !! t = Some th -> th = Run (Done []))).
Proof.
  intros Hr. pose proof (latch_reachable count scripts w Hr) as Hinv.
  split; [intros Hb m why; by eapply latch_no_fail|]. split; [exact (li_count _ _ w Hinv)|]. split.
  { intros t th r Et Hsr. destruct (li_passed _ _ w Hinv t th Et) as (r' & Hr' & _ & _ & Hp). rewrite Hsr in Hr'. by injection Hr' as <-. }
  intros Hq. pose proof (fun t th => latch_rest count scripts w t th Hinv Hq) as Hrest. split; [done|].
  intros Hsides Hle t th Et. destruct (Hrest t th Et) as [->|(r & -> & Hpos)]; [done|]. exfalso.
  rewrite (li_count _ _ w Hinv), (sum_zero counts_left) in Hpos; [lia|].
  intros t' th' Et'. destruct (Hrest t' th' Et') as [->|(r' & -> & _)]; [done|].
  destruct (li_passed _ _ w Hinv t' _ Et') as (r1 & Hr1 & Hc & Hw & _). pose proof (counts_left_nonneg _ (li_at _ _ w Hinv t' _ Et')).
  pose proof (sum_of_nonneg waits r' ltac:(intros []; cbn; lia)). cbn in Hc, Hw |- *.
  destruct (Hsides r1 ltac:(by eapply list_elem_of_lookup_2)); [cbn in *|]; lia.
Qed.
End latch.

#[export] Existing Instance lcond_eq_dec.

(** ** A run: one thread waits, another opens the latch *)

Definition latch_scripts : list (list lcall) := [[WaitOpen]; [CountDown; ReadCount]].
Definition latch_steps : list (tid * list tid) :=
  repeat (0%nat, []) 4 ++ repeat (1%nat, []) 6 ++ repeat (0%nat, []) 3 ++ repeat (1%nat, []) 4.
Definition latch_end : world Z laction ltest lcond (option Z) (list lcall) :=
  match run_moves lact ltest_ lresume (start_latch 1 latch_scripts) (map (fun '(t, ws) => Step t ws) latch_steps) with
  | Some (Ok w) => w
  | _ => start_latch 1 []
  end.

Lemma latch_opens_witness :
  rtc lstep (start_latch 1 latch_scripts) latch_end /\ lquiescent latch_end /\
  forall t th, threads latch_end !! t = Some th -> th = Run (Done []).
Proof.
  assert (rtc lstep (start_latch 1 latch_scripts) latch_end) as Hr
    by (apply (run_moves_rtc _ _ _ _ (map (fun '(t, ws) => Step t ws) latch_steps)); reflexivity).
  assert (lquiescent latch_end) as Hq by (intros [|[|t]] ws; reflexivity).
  split; [exact Hr|]. split; [exact Hq|]. apply (latch_opens 1 latch_scripts latch_end Hr); [exact Hq| |done].
  intros r Hin. unfold latch_scripts in Hin. apply elem_of_cons in Hin as [->|Hin]; [by left|].
  apply list_elem_of_singleton in Hin as ->. by right.
Defined.
