(* ===== verification/AsyncLogging.v ===== *)
(** * AsyncLogging: a log written by a background thread

    Models [AsyncLoggingDoubleBuffering] of
    [logging/AsyncLoggingDoubleBuffering.h] after [start], on the semantics
    of [Monitor.v]: any number of threads that [append] lines, one that may
    [stop], and [threadFunc].  Buffers are the [FixedBuffer] of [LogStream.v]
    with [SIZE] bytes, [kLargeBuffer] in the code.  A wait that ends by time
    is a wait that ends by itself.  [output] is what was passed to
    [LogFile::append]; [LogFile.v] is about the files. *)
From S2P Require Import Prelude CFormat LogStream Monitor.
From Stdlib Require Import Strings.Byte.

Section async.
Variable SIZE : Z.

(** [newBuffer1], [newBuffer2] and [buffersToWrite] are locals of
    [threadFunc].  [lines]: what was appended so far; [batches]: what
    [threadFunc] took so far, as text. *)
Record async := mkAsync {
  running_ : bool;
  joined_ : bool;
  exited : bool;
  currentBuffer_ : option FixedBuffer;
  nextBuffer_ : option FixedBuffer;
  buffers_ : list FixedBuffer;
  newBuffer1 : option FixedBuffer;
  newBuffer2 : option FixedBuffer;
  buffersToWrite : list FixedBuffer;
  output : list byte;
  lines : list (list byte);
  batches : list (list (list byte));
}.

Definition fresh : FixedBuffer := new_FixedBuffer SIZE.

Inductive aaction :=
| Fits (line : list byte) | Retire | Write (line : list byte)
| SetStopped | Joining
| AssertBuffers | Swap | AssertToWrite | DropOld | WriteOut | Recycle | Exit.
Inductive atest := IsRunning | BuffersNonEmpty | HasExited.
Inductive acond := Cond.
Inductive acall := AppendLine (line : list byte) | StopLog.
Inductive arole := Client (r : list acall) | Round | Exited.

#[local] Instance acond_eq_dec : EqDecision acond.
Proof. solve_decision. Defined.

Definition atest_ (b : atest) (s : async) : bool :=
  match b with
  | IsRunning => running_ s
  | BuffersNonEmpty => negb (bool_decide (buffers_ s = []))
  | HasExited => exited s
  end.

Definition set_front (cur next : option FixedBuffer) (bufs : list FixedBuffer) (ls : list (list byte)) (s : async) : async :=
  mkAsync (running_ s) (joined_ s) (exited s) cur next bufs (newBuffer1 s) (newBuffer2 s) (buffersToWrite s) (output s) ls (batches s).
Definition set_back (n1 n2 : option FixedBuffer) (w : list FixedBuffer) (out : list byte) (s : async) : async :=
  mkAsync (running_ s) (joined_ s) (exited s) (currentBuffer_ s) (nextBuffer_ s) (buffers_ s) n1 n2 w out (lines s) (batches s).

(** [boost::ptr_vector] does not take a null pointer. *)
Definition push_back (p : option FixedBuffer) (l : list FixedBuffer) : outcome (list FixedBuffer) :=
  match p with Some b => Ok (l ++ [b]) | None => Fail Exception end.

(** ** append *)

Definition fits (line : list byte) (s : async) : outcome bool :=
  b ← from_some Undefined (currentBuffer_ s); Ok (zlen line <? avail b).

Definition retire (s : async) : outcome async :=
  bufs ← push_back (currentBuffer_ s) (buffers_ s);
  match nextBuffer_ s with
  | Some b => Ok (set_front (Some b) None bufs (lines s) s)
  | None => Ok (set_front (Some fresh) None bufs (lines s) s)
  end.

Definition write (line : list byte) (s : async) : outcome async :=
  b ← from_some Undefined (currentBuffer_ s);
  b ← append line (zlen line) b;
  Ok (set_front (Some b) (nextBuffer_ s) (buffers_ s) (lines s ++ [line]) s).

(** ** threadFunc *)

Definition empty_buffer (p : option FixedBuffer) : bool :=
  match p with Some b => length_ b =? 0 | None => false end.

Definition assertBuffers (s : async) : outcome async :=
  _ ← assert_ (empty_buffer (newBuffer1 s));
  _ ← assert_ (empty_buffer (newBuffer2 s));
  _ ← assert_ (bool_decide (buffersToWrite s = []));
  Ok s.

(** The critical section after the wait; [buffersToWrite] was empty. *)
Definition swap (s : async) : outcome async :=
  bufs ← push_back (currentBuffer_ s) (buffers_ s);
  let '(next, n2) := match nextBuffer_ s with Some b => (Some b, newBuffer2 s) | None => (newBuffer2 s, None) end in
  Ok (mkAsync (running_ s) (joined_ s) (exited s) (newBuffer1 s) next (buffersToWrite s) None n2 bufs (output s) (lines s)
        (batches s ++ [asString <$> bufs])).

Definition dropMsg : list byte := bs "Dropped log messages" ++ [x0a].

Definition dropOld (s : async) : async :=
  if 25 <? zlen (buffersToWrite s) then
    set_back (newBuffer1 s) (newBuffer2 s) (drop (length (buffersToWrite s) - 2) (buffersToWrite s)) (output s ++ dropMsg) s
  else s.

Definition writeOut (s : async) : async :=
  set_back (newBuffer1 s) (newBuffer2 s) (buffersToWrite s) (output s ++ concat (asString <$> buffersToWrite s)) s.

(** [newBuffer = buffersToWrite.pop_back(); newBuffer->reset()]. *)
Definition refill (p : option FixedBuffer) (w : list FixedBuffer) : outcome (option FixedBuffer * list FixedBuffer) :=
  match p with
  | Some _ => Ok (p, w)
  | None =>
      _ ← assert_ (negb (bool_decide (w = [])));
      b ← from_some Undefined (last w);
      Ok (Some (reset b), take (length w - 1) w)
  end.

Definition recycle (s : async) : outcome async :=
  let w := if 2 <? zlen (buffersToWrite s) then take 2 (buffersToWrite s) else buffersToWrite s in
  '(n1, w) ← refill (newBuffer1 s) w;
  '(n2, w) ← refill (newBuffer2 s) w;
  Ok (set_back n1 n2 [] (output s) s).

Definition aact (a : aaction) (s : async) : outcome (bool * async) :=
  match a with
  | Fits line => b ← fits line s; Ok (b, s)
  | Retire => s ← retire s; Ok (true, s)
  | Write line => s ← write line s; Ok (true, s)
  | SetStopped => Ok (true, mkAsync false (joined_ s) (exited s) (currentBuffer_ s) (nextBuffer_ s) (buffers_ s) (newBuffer1 s)
                         (newBuffer2 s) (buffersToWrite s) (output s) (lines s) (batches s))
  | Joining => _ ← assert_ (negb (joined_ s));
               Ok (true, mkAsync (running_ s) true (exited s) (currentBuffer_ s) (nextBuffer_ s) (buffers_ s) (newBuffer1 s)
                         (newBuffer2 s) (buffersToWrite s) (output s) (lines s) (batches s))
  | AssertBuffers => s ← assertBuffers s; Ok (true, s)
  | Swap => s ← swap s; Ok (true, s)
  | AssertToWrite => _ ← assert_ (negb (bool_decide (buffersToWrite s = []))); Ok (true, s)
  | DropOld => Ok (true, dropOld s)
  | WriteOut => Ok (true, writeOut s)
  | Recycle => s ← recycle s; Ok (true, s)
  | Exit => Ok (true, mkAsync (running_ s) (joined_ s) true (currentBuffer_ s) (nextBuffer_ s) (buffers_ s) (newBuffer1 s)
                         (newBuffer2 s) (buffersToWrite s) (output s) (lines s) (batches s))
  end.

Abbreviation code := (code aaction atest acond bool arole).
Abbreviation thread := (thread aaction atest acond bool arole).
Abbreviation world := (world async aaction atest acond bool arole).

Definition append_line (line : list byte) (r : list acall) : code :=
  Lock (Act (Fits line) (fun fits : bool =>
    if fits then Act (Write line) (fun _ => Unlock (Done (Client r)))
    else Act Retire (fun _ => Act (Write line) (fun _ => Notify Cond (Unlock (Done (Client r))))))).

Definition stop (r : list acall) : code :=
  Act SetStopped (fun _ => Notify Cond (Act Joining (fun _ => Join HasExited (Done (Client r))))).

Definition write_round : code :=
  Act AssertToWrite (fun _ => Act DropOld (fun _ => Act WriteOut (fun _ => Act Recycle (fun _ => Done Round)))).
Definition swap_round : code := Act Swap (fun _ => Unlock write_round).

(** One round of [while (running_)], or the end of the thread. *)
Definition threadFunc : code :=
  If IsRunning
    (Act AssertBuffers (fun _ => Lock (If BuffersNonEmpty (Wait Cond swap_round) swap_round)))
    (Act Exit (fun _ => Done Exited)).

Definition aresume (l : arole) : option code :=
  match l with
  | Client (AppendLine line :: r) => Some (append_line line r)
  | Client (StopLog :: r) => Some (stop r)
  | Round => Some threadFunc
  | Client [] | Exited => None
  end.

(** The members and locals when [start] has returned. *)
Definition new_async : async := mkAsync true false false (Some fresh) (Some fresh) [] (Some fresh) (Some fresh) [] [] [] [].
Definition start_async (scripts : list (list acall)) : world :=
  mkWorld new_MutexLock new_async (Run (Done Round) :: map (fun r => Run (Done (Client r))) scripts).

Definition amove := exec_move aact atest_ aresume.
Definition astep := mstep aact atest_ aresume.
Definition aquiescent := quiescent aact atest_ aresume.

(** ** Invariant *)

(** A line longer than a buffer is left out. *)
Definition stored (ls : list (list byte)) : list byte := concat (filter (fun l => zlen l < SIZE) ls).

(** What a batch of full buffers becomes in the file. *)
Definition write_batch (b : list (list byte)) : list byte :=
  if 25 <? zlen b then dropMsg ++ concat (drop (length b - 2) b) else concat b.

Definition good (b : FixedBuffer) : Prop := rep SIZE b (asString b).
Definition clean (b : FixedBuffer) : Prop := rep SIZE b [].

Record front_inv (s : async) : Prop := {
  fr_cur : exists b, currentBuffer_ s = Some b /\ good b /\
    stored (lines s) = concat (concat (batches s)) ++ concat (asString <$> buffers_ s) ++ asString b;
  fr_next : forall b, nextBuffer_ s = Some b -> clean b;
  fr_none : nextBuffer_ s = None -> buffers_ s <> [];
  fr_bufs : Forall good (buffers_ s);
}.

Definition idle (s : async) : Prop :=
  (exists b, newBuffer1 s = Some b /\ clean b) /\ (exists b, newBuffer2 s = Some b /\ clean b) /\
  buffersToWrite s = [] /\ output s = concat (write_batch <$> batches s).

Definition back_bufs (s : async) : Prop :=
  newBuffer1 s = None /\ Forall good (buffersToWrite s) /\ buffersToWrite s <> [] /\
  (newBuffer2 s = None -> (2 <= length (buffersToWrite s))%nat) /\ (forall b, newBuffer2 s = Some b -> clean b).

Definition got (s : async) : Prop :=
  exists bs b, batches s = bs ++ [b] /\ asString <$> buffersToWrite s = b /\ output s = concat (write_batch <$> bs) /\ back_bufs s.
Definition dropped (s : async) : Prop :=
  exists bs b, batches s = bs ++ [b] /\ output s ++ concat (asString <$> buffersToWrite s) = concat (write_batch <$> bs) ++ write_batch b /\ back_bufs s.
Definition written (s : async) : Prop := output s = concat (write_batch <$> batches s) /\ back_bufs s.

(** Where [threadFunc] can be, and what it knows there. *)
Inductive back_at (s : async) : code -> Prop :=
| ba_round : idle s -> back_at s (Done Round)
| ba_top : idle s -> back_at s threadFunc
| ba_assert : idle s -> back_at s (Act AssertBuffers (fun _ => Lock (If BuffersNonEmpty (Wait Cond swap_round) swap_round)))
| ba_lock : idle s -> back_at s (Lock (If BuffersNonEmpty (Wait Cond swap_round) swap_round))
| ba_if : idle s -> back_at s (If BuffersNonEmpty (Wait Cond swap_round) swap_round)
| ba_wait : idle s -> back_at s (Wait Cond swap_round)
| ba_relock : idle s -> back_at s (Relock swap_round)
| ba_swap : idle s -> back_at s swap_round
| ba_unlock : got s -> back_at s (Unlock write_round)
| ba_write : got s -> back_at s write_round
| ba_drop : got s -> back_at s (Act DropOld (fun _ => Act WriteOut (fun _ => Act Recycle (fun _ => Done Round))))
| ba_out : dropped s -> back_at s (Act WriteOut (fun _ => Act Recycle (fun _ => Done Round)))
| ba_recycle : written s -> back_at s (Act Recycle (fun _ => Done Round))
| ba_exit : idle s -> back_at s (Act Exit (fun _ => Done Exited))
| ba_exited : idle s -> back_at s (Done Exited).

(** A line that fits any buffer fits the current one. *)
Definition room (line : list byte) (s : async) : Prop :=
  zlen line < SIZE -> forall b, currentBuffer_ s = Some b -> zlen line < avail b.

Inductive client_at (s : async) : code -> Prop :=
| ca_done r : client_at s (Done (Client r))
| ca_append line r : client_at s (append_line line r)
| ca_fits line r : client_at s (Act (Fits line) (fun fits : bool =>
    if fits then Act (Write line) (fun _ => Unlock (Done (Client r)))
    else Act Retire (fun _ => Act (Write line) (fun _ => Notify Cond (Unlock (Done (Client r)))))))
| ca_write line r : room line s -> client_at s (Act (Write line) (fun _ => Unlock (Done (Client r))))
| ca_retire line r : client_at s (Act Retire (fun _ => Act (Write line) (fun _ => Notify Cond (Unlock (Done (Client r))))))
| ca_rewrite line r : room line s -> client_at s (Act (Write line) (fun _ => Notify Cond (Unlock (Done (Client r)))))
| ca_notify r : client_at s (Notify Cond (Unlock (Done (Client r))))
| ca_unlock r : client_at s (Unlock (Done (Client r)))
| ca_stop r : client_at s (stop r)
| ca_stopped r : client_at s (Notify Cond (Act Joining (fun _ => Join HasExited (Done (Client r)))))
| ca_joining r : client_at s (Act Joining (fun _ => Join HasExited (Done (Client r))))
| ca_join r : client_at s (Join HasExited (Done (Client r))).

Definition thread_at (s : async) (t : nat) (th : thread) : Prop :=
  match t, th with
  | O, Run c => back_at s c
  | O, Waiting _ k => k = swap_round /\ idle s
  | S _, Run c => client_at s c
  | S _, Waiting _ _ => False
  end.

(** Calls of [stop] that have still to [join]. *)
Definition stops (c : acall) : Z := match c with StopLog => 1 | AppendLine _ => 0 end.
Fixpoint stops_code (c : code) : Z :=
  match c with
  | Done (Client r) => sum_of stops r
  | Done _ => 0
  | Act Joining k => 1 + stops_code (k true)
  | Act _ k => stops_code (k true)
  | Lock k | Unlock k | While _ _ k | Wait _ k | Relock k | Notify _ k | NotifyAll _ k | Join _ k | If _ k _ => stops_code k
  end.
Definition stops_left (th : thread) : Z := match th with Run c | Waiting _ c => stops_code c end.

Record async_inv (w : world) : Prop := {
  ai_lock : locked w;
  ai_at : forall t th, threads w !! t = Some th -> thread_at (shared w) t th;
  ai_front : front_inv (shared w);
  ai_stops : sum_of stops_left (threads w) + (if joined_ (shared w) then 1 else 0) <= 1;
}.

(** ** Lemmas *)

Hypothesis HSIZE : 0 < SIZE < 2 ^ 31.

Lemma async_resume_typed : resume_typed aresume.
Proof.
  intros l k H. destruct l as [[|[line|] r]| |]; cbn in H; injection H as <- || discriminate H; cbn; try done.
  split; [done|]. intros [|]; cbn; done.
Qed.

Lemma clean_text b : clean b -> asString b = [].
Proof. intros Hb. exact (rep_text _ _ _ Hb). Qed.
Lemma clean_good b : clean b -> good b.
Proof. intros H. unfold good. by rewrite (clean_text b H). Qed.
Lemma fresh_clean : clean fresh.
Proof. by apply new_FixedBuffer_rep. Qed.
Lemma reset_clean b : good b -> clean (reset b).
Proof. intros Hb. constructor; cbn; [exact (rep_size _ _ _ Hb)|by apply slice_nil|done|lia|lia]. Qed.
Lemma clean_length b : clean b -> length_ b =? 0 = true.
Proof. intros Hb. unfold length_. by rewrite (rep_cur _ _ _ Hb). Qed.

Lemma stored_snoc ls line : stored (ls ++ [line]) = stored ls ++ (if decide (zlen line < SIZE) then line else []).
Proof.
  unfold stored. rewrite filter_app, concat_app. f_equal. rewrite filter_cons. destruct (decide _); [|done]. cbn. by rewrite app_nil_r.
Qed.

Definition same_back (s s' : async) : Prop :=
  newBuffer1 s' = newBuffer1 s /\ newBuffer2 s' = newBuffer2 s /\ buffersToWrite s' = buffersToWrite s /\
  output s' = output s /\ batches s' = batches s.

Lemma back_same s s' c : same_back s s' -> back_at s c -> back_at s' c.
Proof.
  intros (E1 & E2 & E3 & E4 & E5) Hc.
  assert (idle s -> idle s') as Hi by (unfold idle; by rewrite E1, E2, E3, E4, E5).
  assert (got s -> got s') as Hg by (unfold got, back_bufs; by rewrite E1, E2, E3, E4, E5).
  assert (dropped s -> dropped s') as Hd by (unfold dropped, back_bufs; by rewrite E1, E2, E3, E4, E5).
  assert (written s -> written s') as Hw by (unfold written, back_bufs; by rewrite E1, E2, E3, E4, E5).
  destruct Hc; constructor; auto.
Qed.

Lemma client_same s s' c : (currentBuffer_ s' = currentBuffer_ s \/ typed false c) -> client_at s c -> client_at s' c.
Proof.
  intros Hs Hc. destruct Hc; try constructor; (destruct Hs as [Hs|Hty]; [unfold room in *; by rewrite Hs|specialize (Hty true); by destruct Hty]).
Qed.

Lemma thread_same s s' t th :
  thread_at s t th -> (t = 0%nat -> same_back s s') -> (currentBuffer_ s' = currentBuffer_ s \/ thread_typed false th) -> thread_at s' t th.
Proof.
  intros Ht Hb Hc. destruct t as [|t], th as [c|[] k]; cbn in *; try done.
  - by eapply back_same; [apply Hb|].
  - destruct Ht as [-> Hi]. split; [done|]. assert (back_at s' (Wait Cond swap_round)) as H by (eapply back_same; [by apply Hb|by constructor]).
    inversion H; done.
  - by eapply client_same.
Qed.

Lemma awaken_thread s t c th : thread_at s t th -> thread_at s t (awaken c th).
Proof. destruct th as [|[] k]; [done|]. cbn. case_bool_decide; [|done]. destruct t; [|done]. intros [-> Hi]. by constructor. Qed.
Lemma awaken_stops c th : stops_left (awaken c th) = stops_left th.
Proof. destruct th as [|c' k]; [done|]. cbn. by case_bool_decide. Qed.

Lemma async_update w t th0 th ths m s' :
  async_inv w -> locked (mkWorld m s' (<[t := th]> ths)) -> ths !! t = Some th0 ->
  (forall t' th', ths !! t' = Some th' -> exists th1, threads w !! t' = Some th1 /\ (th' = th1 \/ exists c, th' = awaken c th1)) ->
  sum_of stops_left ths = sum_of stops_left (threads w) ->
  thread_at s' t th -> front_inv s' ->
  (t <> 0%nat -> same_back (shared w) s') -> (currentBuffer_ s' = currentBuffer_ (shared w) \/ holds w t = true) ->
  stops_left th + (if joined_ s' then 1 else 0) <= stops_left th0 + (if joined_ (shared w) then 1 else 0) ->
  async_inv (mkWorld m s' (<[t := th]> ths)).
Proof.
  intros Hinv Hlk Et Hths Hsum Hat Hfr Hb Hc Hst. pose proof Hinv as []. constructor; try done; cbn [threads shared].
  - intros t' th' Hl. apply list_lookup_insert_Some in Hl as [(<- & <- & _)|[Hne Hl]]; [done|].
    destruct (Hths _ _ Hl) as (th1 & H1 & Hth). assert (thread_at s' t' th1) as H2.
    { eapply thread_same; [by apply ai_at0| |]; [intros ->; by apply Hb|].
      destruct Hc as [Hc|Hh]; [by left|right]. pose proof (lk_threads w ai_lock0 t' th1 H1) as Hty.
      replace (holds w t') with false in Hty; [done|]. symmetry. unfold holds in *. apply bool_decide_eq_true in Hh.
      apply bool_decide_eq_false_2. congruence. }
    destruct Hth as [-> | [c ->]]; [done|by apply awaken_thread].
  - rewrite (sum_insert _ _ _ _ _ Et), Hsum. lia.
Qed.

(** ** What the actions do *)

Lemma good_avail b : good b -> avail b = SIZE - zlen (asString b).
Proof. apply rep_avail. Qed.

Lemma fits_spec line s :
  front_inv s -> exists b, fits line s = Ok (zlen line <? avail b) /\ currentBuffer_ s = Some b.
Proof. intros [(b & Eb & _) _ _ _]. exists b. unfold fits. by rewrite Eb. Qed.

Lemma retire_spec s :
  front_inv s -> exists s', retire s = Ok s' /\ front_inv s' /\ same_back s s' /\ joined_ s' = joined_ s /\ forall line, room line s'.
Proof.
  intros [(b & Eb & Hb & Ht) Hn _ Hbufs]. unfold retire. rewrite Eb. cbn [push_back mbind outcome_bind].
  assert (forall nb, clean nb -> front_inv (set_front (Some nb) None (buffers_ s ++ [b]) (lines s) s) /\
    forall line, room line (set_front (Some nb) None (buffers_ s ++ [b]) (lines s) s)) as Hnew.
  { intros nb Hnb. split.
    - constructor; cbn.
      + exists nb. split; [done|]. split; [by apply clean_good|]. rewrite (clean_text nb Hnb), app_nil_r, fmap_app, concat_app. cbn. by rewrite app_nil_r.
      + done.
      + intros _. by destruct (buffers_ s).
      + apply Forall_app. split; [done|]. by constructor.
    - intros line Hlen b' [= <-]. rewrite (good_avail nb (clean_good nb Hnb)), (clean_text nb Hnb). unfold zlen at 2. cbn. lia. }
  destruct (nextBuffer_ s) as [nb|] eqn:En.
  - destruct (Hnew nb (Hn nb eq_refl)) as [H1 H2]. eexists. by split_and!.
  - destruct (Hnew fresh fresh_clean) as [H1 H2]. eexists. by split_and!.
Qed.

Lemma write_spec line s :
  front_inv s -> room line s ->
  exists s', write line s = Ok s' /\ front_inv s' /\ same_back s s' /\ joined_ s' = joined_ s.
Proof.
  intros [(b & Eb & Hb & Ht) Hn Hnone Hbufs] Hroom. unfold write. rewrite Eb. cbn [from_some mbind outcome_bind].
  destruct (append_rep SIZE b (asString b) line Hb) as (b' & -> & Hb'). cbn [mbind outcome_bind].
  eexists. split; [done|]. split; [|by split_and!]. constructor; cbn; try done. exists b'. split; [done|].
  assert (asString b' = asString b ++ (if decide (zlen line < SIZE) then line else [])) as Et.
  { pose proof (rep_text _ _ _ Hb') as E. unfold asString at 1. unfold length_. rewrite E.
    pose proof (good_avail b Hb) as Ea. unfold room in Hroom. specialize (Hroom). pose proof (zlen_nonneg (asString b)).
    destruct (decide (zlen line < SIZE)) as [Hl|Hl].
    - specialize (Hroom Hl b Eb). rewrite (proj2 (Z.ltb_lt _ _)) by lia. done.
    - rewrite (proj2 (Z.ltb_ge _ _)) by lia. by rewrite app_nil_r. }
  split; [unfold good; by rewrite <- (rep_text _ _ _ Hb') in Hb' at 1|].
  change (stored (lines s ++ [line]) = concat (concat (batches s)) ++ concat (asString <$> buffers_ s) ++ asString b').
  rewrite stored_snoc, Ht, Et, <- !app_assoc. done.
Qed.

Lemma swap_spec s :
  front_inv s -> idle s -> exists s', swap s = Ok s' /\ front_inv s' /\ got s' /\ joined_ s' = joined_ s.
Proof.
  intros [(b & Eb & Hb & Ht) Hn Hnone Hbufs] ((b1 & E1 & H1) & (b2 & E2 & H2) & Ew & Eo).
  unfold swap. rewrite Eb, Ew, E1. cbn [push_back mbind outcome_bind].
  assert (Forall good (buffers_ s ++ [b])) as Hall by (apply Forall_app; split; [done|by constructor]).
  assert (stored (lines s) = concat (concat (batches s ++ [asString <$> (buffers_ s ++ [b])])) ++ [] ++ asString b1) as Ht'.
  { rewrite Ht, (clean_text b1 H1), !concat_app, fmap_app. cbn. rewrite !concat_app, !app_nil_r. cbn. by rewrite app_nil_r. }
  destruct (nextBuffer_ s) as [nb|] eqn:En; eexists; (split; [done|]); (split; [|split; [|done]]).
  - constructor; cbn; try done. exists b1. split_and!; [done|by apply clean_good|exact Ht'].
  - exists (batches s), (asString <$> (buffers_ s ++ [b])). cbn. split_and!; try done.
    unfold back_bufs. cbn. split_and!; try done; [by destruct (buffers_ s)|by rewrite E2|rewrite E2; by intros ? [= <-]].
  - constructor; cbn; try done; [|by rewrite E2; intros ? [= <-]|by rewrite E2]. exists b1. split_and!; [done|by apply clean_good|exact Ht'].
  - exists (batches s), (asString <$> (buffers_ s ++ [b])). cbn. split_and!; try done.
    unfold back_bufs. cbn. split_and!; try done; [by destruct (buffers_ s)|]. intros _. specialize (Hnone eq_refl).
    rewrite length_app. cbn. destruct (buffers_ s); [done|cbn; lia].
Qed.

Lemma dropOld_spec s : got s -> dropped (dropOld s).
Proof.
  intros (bs & b & Eb & Ew & Eo & H1 & Hg & Hne & H2 & H3). exists bs, b. unfold dropOld, write_batch.
  assert (zlen b = zlen (buffersToWrite s) /\ length b = length (buffersToWrite s)) as [Elen Elen'] by (unfold zlen; by rewrite <- Ew, length_fmap).
  rewrite Elen, Elen'. destruct (Z.ltb_spec 25 (zlen (buffersToWrite s))) as [Hlt|Hge]; cbn [output batches buffersToWrite set_back].
  - split; [done|]. split; [rewrite fmap_drop, Ew, Eo, <- app_assoc; done|]. unfold back_bufs. cbn.
    assert (length (drop (length (buffersToWrite s) - 2) (buffersToWrite s)) = 2%nat) as El by (rewrite length_drop; unfold zlen in Hlt; lia).
    split_and!; try done; [by apply Forall_drop|intros E; by rewrite E in El|lia].
  - split; [done|]. split; [by rewrite Ew, Eo|done].
Qed.

Lemma writeOut_spec s : dropped s -> written (writeOut s).
Proof.
  intros (bs & b & Eb & Eo & Hb). unfold written, writeOut. cbn. rewrite Eo, Eb. split; [|done].
  rewrite fmap_app, concat_app. cbn. by rewrite app_nil_r.
Qed.

Lemma refill_spec p w :
  Forall good w -> (p = None -> w <> []) -> (forall b, p = Some b -> clean b) ->
  exists b w', refill p w = Ok (Some b, w') /\ clean b /\ Forall good w' /\
    length w' = (match p with None => length w - 1 | Some _ => length w end)%nat.
Proof.
  intros Hg Hne Hp. unfold refill. destruct p as [b|].
  - exists b, w. split_and!; try done. by apply Hp.
  - specialize (Hne eq_refl). rewrite bool_decide_eq_false_2 by done. cbn [negb assert_ mbind outcome_bind].
    destruct (last w) as [b|] eqn:El; [|by apply last_None in El]. cbn. exists (reset b), (take (length w - 1) w).
    apply last_Some in El as [w0 ->]. split_and!; [done| |by apply Forall_take|rewrite length_take; lia].
    apply reset_clean. apply Forall_app in Hg as [_ Hg]. by apply Forall_cons in Hg as [? _].
Qed.

Lemma recycle_spec s :
  written s -> exists n1 n2, recycle s = Ok (set_back (Some n1) (Some n2) [] (output s) s) /\ clean n1 /\ clean n2.
Proof.
  intros (Eo & H1 & Hg & Hne & H2 & H3). unfold recycle. set (w := if 2 <? _ then _ else _).
  assert (Forall good w /\ length w = (Nat.min 2 (length (buffersToWrite s)))%nat) as [Hw Hlen].
  { subst w. destruct (Z.ltb_spec 2 (zlen (buffersToWrite s))) as [Hl|Hl]; unfold zlen in Hl; [|split; [done|lia]].
    split; [by apply Forall_take|]. rewrite length_take. lia. }
  clearbody w. assert (0 < length (buffersToWrite s))%nat as Hpos by (destruct (buffersToWrite s); [done|cbn; lia]).
  rewrite H1. destruct (refill_spec None w Hw) as (n1 & w1 & -> & Hn1 & Hw1 & Hl1); [|done|].
  { intros _ E. rewrite E in Hlen. cbn [length] in Hlen. lia. }
  cbn [mbind outcome_bind]. destruct (refill_spec (newBuffer2 s) w1 Hw1) as (n2 & w2 & -> & Hn2 & _); [|done|].
  { intros E Ew. specialize (H2 E). rewrite Ew in Hl1. cbn [length] in Hl1. lia. }
  cbn. by exists n1, n2.
Qed.

Lemma assertBuffers_spec s : idle s -> assertBuffers s = Ok s.
Proof.
  intros ((b1 & E1 & H1) & (b2 & E2 & H2) & Ew & _). unfold assertBuffers, empty_buffer. rewrite E1, E2, Ew.
  rewrite (clean_length b1 H1), (clean_length b2 H2). done.
Qed.

Lemma front_same s s' :
  front_inv s -> currentBuffer_ s' = currentBuffer_ s -> nextBuffer_ s' = nextBuffer_ s -> buffers_ s' = buffers_ s ->
  lines s' = lines s -> batches s' = batches s -> front_inv s'.
Proof. intros [] E1 E2 E3 E4 E5. constructor; rewrite ?E1, ?E2, ?E3, ?E4, ?E5; done. Qed.

(** ** Steps *)

(** A step that leaves the members as they are. *)
Lemma async_quiet w t th0 th m :
  async_inv w -> threads w !! t = Some th0 -> locked (mkWorld m (shared w) (<[t := th]> (threads w))) ->
  thread_at (shared w) t th -> stops_left th <= stops_left th0 ->
  async_inv (mkWorld m (shared w) (<[t := th]> (threads w))).
Proof.
  intros Hinv Et Hlk Hat Hst. eapply (async_update w t th0); try done; [apply same_threads|apply Hinv|by left|lia].
Qed.

Lemma act_holds w t a k :
  async_inv w -> threads w !! t = Some (Run (Act a k)) -> (typed false (k true) -> False) -> holds w t = true.
Proof.
  intros Hinv Et Hno. pose proof (lk_threads w (ai_lock w Hinv) t _ Et) as Hty. destruct (holds w t); [done|].
  by destruct (Hno (Hty true)).
Qed.

Lemma async_act w t a k v s' :
  async_inv w -> threads w !! t = Some (Run (Act a k)) ->
  locked (mkWorld (mutex_ w) s' (<[t := Run (k v)]> (threads w))) ->
  thread_at s' t (Run (k v)) -> front_inv s' -> (t <> 0%nat -> same_back (shared w) s') ->
  (currentBuffer_ s' = currentBuffer_ (shared w) \/ holds w t = true) ->
  stops_code (k v) + (if joined_ s' then 1 else 0) <= stops_code (Act a k) + (if joined_ (shared w) then 1 else 0) ->
  async_inv (mkWorld (mutex_ w) s' (<[t := Run (k v)]> (threads w))).
Proof. intros. eapply (async_update w t (Run (Act a k)) _ (threads w)); try done; apply same_threads. Qed.

Lemma async_notify w t k ws :
  async_inv w -> threads w !! t = Some (Run (Notify Cond k)) ->
  locked (mkWorld (mutex_ w) (shared w) (<[t := Run k]> (wake Cond ws (threads w)))) ->
  thread_at (shared w) t (Run k) ->
  async_inv (mkWorld (mutex_ w) (shared w) (<[t := Run k]> (wake Cond ws (threads w)))).
Proof.
  intros Hinv Et Hlk Hat. eapply (async_update w t (Run (Notify Cond k)) _ (wake Cond ws (threads w))); try done.
  - by apply wake_run.
  - intros t' th' H. apply lookup_wake in H as (th0 & H & [-> | ->]); exists th0; eauto.
  - assert (forall l l' : list thread, length l' = length l -> (forall i x y, l !! i = Some x -> l' !! i = Some y -> stops_left y = stops_left x) -> sum_of stops_left l' = sum_of stops_left l) as Hsum.
    { induction l as [|x l IH]; intros [|y l'] Hlen H; try done. cbn. rewrite (H 0%nat x y eq_refl eq_refl). f_equal. apply IH; [by injection Hlen|]. intros i. exact (H (S i)). }
    apply Hsum; [apply wake_length|]. intros i x y Hx Hy. apply lookup_wake in Hy as (x' & Hx' & Hy). rewrite Hx in Hx'. injection Hx' as <-.
    destruct Hy as [-> | ->]; [done|apply awaken_stops].
  - apply Hinv.
  - by left.
Qed.

Lemma client_step w t ws c w' :
  async_inv w -> threads w !! S t = Some (Run c) -> client_at (shared w) c -> locked w' ->
  exec aact atest_ aresume w (S t) ws = Some (Ok w') -> async_inv w'.
Proof.
  intros Hinv Et Hc Hlk. unfold exec. rewrite Et. pose proof (ai_front w Hinv) as Hfr.
  destruct Hc as [r|line r|line r|line r Hroom|line r|line r Hroom|r|r|r|r|r|r].
  - destruct r as [|[line|] r]; cbn [aresume]; [done|..]; intros [= <-]; eapply (async_quiet w _ _ _ _ Hinv Et Hlk); try (constructor); cbn; lia.
  - cbn [append_line]. unfold lock. destruct (owner (mutex_ w)); [done|]. intros [= <-].
    eapply (async_quiet w _ _ _ _ Hinv Et Hlk); [constructor|cbn; lia].
  - cbn [aact]. destruct (fits_spec line (shared w) Hfr) as (b & Ef & Eb). rewrite Ef. cbn [mbind outcome_bind]. intros [= <-].
    eapply (async_act w (S t) _ _ _ _ Hinv Et Hlk); try done; [|by left|]; destruct (Z.ltb_spec (zlen line) (avail b)); cbn; try lia.
    + apply ca_write. intros _ b' Eb'. rewrite Eb in Eb'. injection Eb' as <-. done.
    + apply ca_retire.
  - cbn [aact]. destruct (write_spec line (shared w) Hfr Hroom) as (s' & Ew & Hfr' & Hb & Hj). rewrite Ew. cbn [mbind outcome_bind]. intros [= <-].
    eapply (async_act w (S t) _ _ true _ Hinv Et Hlk); try done; [constructor| |cbn; rewrite Hj; lia].
    right. eapply act_holds; [done|exact Et|]. by intros [].
  - cbn [aact]. destruct (retire_spec (shared w) Hfr) as (s' & Ew & Hfr' & Hb & Hj & Hroom). rewrite Ew. cbn [mbind outcome_bind]. intros [= <-].
    eapply (async_act w (S t) _ _ true _ Hinv Et Hlk); try done; [by constructor| |cbn; rewrite Hj; lia].
    right. eapply act_holds; [done|exact Et|]. intros H. specialize (H true). by destruct H.
  - cbn [aact]. destruct (write_spec line (shared w) Hfr Hroom) as (s' & Ew & Hfr' & Hb & Hj). rewrite Ew. cbn [mbind outcome_bind]. intros [= <-].
    eapply (async_act w (S t) _ _ true _ Hinv Et Hlk); try done; [constructor| |cbn; rewrite Hj; lia].
    right. eapply act_holds; [done|exact Et|]. by intros [].
  - unfold signal. destruct (may_wake _ _ _); [|done]. intros [= <-]. apply (async_notify w (S t)); try done. constructor.
  - unfold unlock. destruct (bool_decide _); [|done]. intros [= <-]. eapply (async_quiet w _ _ _ _ Hinv Et Hlk); [constructor|done].
  - cbn [stop aact mbind outcome_bind]. intros [= <-]. eapply (async_act w (S t) _ _ true _ Hinv Et Hlk); try done; [constructor|by eapply front_same|by left].
  - unfold signal. destruct (may_wake _ _ _); [|done]. intros [= <-]. apply (async_notify w (S t)); try done. constructor.
  - cbn [aact]. destruct (joined_ (shared w)) eqn:Ej; [done|]. cbn [negb assert_ mbind outcome_bind]. intros [= <-].
    eapply (async_act w (S t) _ _ true _ Hinv Et Hlk); try done; [constructor|by eapply front_same|by left|]. rewrite Ej. cbn. lia.
  - destruct (atest_ HasExited (shared w)); [|done]. intros [= <-]. eapply (async_quiet w _ _ _ _ Hinv Et Hlk); [constructor|done].
Qed.

Lemma logger_step w ws c w' :
  async_inv w -> threads w !! 0%nat = Some (Run c) -> back_at (shared w) c -> locked w' ->
  exec aact atest_ aresume w 0 ws = Some (Ok w') -> async_inv w'.
Proof.
  intros Hinv Et Hc Hlk. unfold exec. rewrite Et. pose proof (ai_front w Hinv) as Hfr.
  destruct Hc as [Hi|Hi|Hi|Hi|Hi|Hi|Hi|Hi|Hi|Hi|Hi|Hi|Hi|Hi|Hi].
  - cbn [aresume]. intros [= <-]. eapply (async_quiet w _ _ _ _ Hinv Et Hlk); [by constructor|done].
  - cbn [threadFunc]. intros [= <-]. eapply (async_quiet w _ _ _ _ Hinv Et Hlk); match goal with |- context [if ?b then _ else _] => destruct b end; by constructor || done.
  - cbn [aact]. rewrite (assertBuffers_spec _ Hi). cbn [mbind outcome_bind]. intros [= <-].
    eapply (async_act w 0 _ _ true _ Hinv Et Hlk); try done; [by constructor|by left].
  - unfold lock. destruct (owner (mutex_ w)); [done|]. intros [= <-]. eapply (async_quiet w _ _ _ _ Hinv Et Hlk); [by constructor|done].
  - intros [= <-]. eapply (async_quiet w _ _ _ _ Hinv Et Hlk); match goal with |- context [if ?b then _ else _] => destruct b end; by constructor || done.
  - unfold wait_release. destruct (bool_decide _); [|done]. intros [= <-]. eapply (async_quiet w _ _ _ _ Hinv Et Hlk); done.
  - unfold wait_acquire. destruct (owner (mutex_ w)); [done|]. intros [= <-]. eapply (async_quiet w _ _ _ _ Hinv Et Hlk); [by constructor|done].
  - cbn [swap_round aact]. destruct (swap_spec (shared w) Hfr Hi) as (s' & Es & Hfr' & Hg & Hj). rewrite Es. cbn [mbind outcome_bind]. intros [= <-].
    eapply (async_act w 0 _ _ true _ Hinv Et Hlk); try done; [by constructor| |cbn; rewrite Hj; lia].
    right. eapply act_holds; [done|exact Et|]. by intros [].
  - unfold unlock. destruct (bool_decide _); [|done]. intros [= <-]. eapply (async_quiet w _ _ _ _ Hinv Et Hlk); [by constructor|done].
  - cbn [write_round aact]. destruct Hi as (bs & b & Hb). assert (buffersToWrite (shared w) <> []) as Hne by apply Hb.
    rewrite bool_decide_eq_false_2 by done. cbn [negb assert_ mbind outcome_bind]. intros [= <-].
    eapply (async_act w 0 _ _ true _ Hinv Et Hlk); try done; [constructor; by exists bs, b|by left].
  - cbn [aact mbind outcome_bind]. intros [= <-]. pose proof (dropOld_spec _ Hi).
    eapply (async_act w 0 _ _ true _ Hinv Et Hlk); try done; [by constructor|..]; unfold dropOld; destruct (_ <? _); try done; try (by left); by eapply front_same.
  - cbn [aact mbind outcome_bind]. intros [= <-]. pose proof (writeOut_spec _ Hi).
    eapply (async_act w 0 _ _ true _ Hinv Et Hlk); try done; [by constructor|by eapply front_same|by left].
  - cbn [aact]. destruct (recycle_spec _ Hi) as (n1 & n2 & Er & H1 & H2). rewrite Er. cbn [mbind outcome_bind]. intros [= <-].
    eapply (async_act w 0 _ _ true _ Hinv Et Hlk); try done; [|by eapply front_same|by left].
    constructor. split; [by exists n1|]. split; [by exists n2|]. split; [done|]. apply Hi.
  - cbn [aact mbind outcome_bind]. intros [= <-].
    eapply (async_act w 0 _ _ true _ Hinv Et Hlk); try done; [by constructor|by eapply front_same|by left].
  - done.
Qed.

Lemma async_move w m w' : async_inv w -> amove w m = Some (Ok w') -> async_inv w'.
Proof.
  intros Hinv Hex. pose proof (move_locked aact atest_ aresume w m w' async_resume_typed (ai_lock w Hinv) Hex) as Hlk.
  destruct m as [t ws|t]; unfold amove in Hex; cbn [exec_move] in Hex.
  - destruct (threads w !! t) as [[c|c k]|] eqn:Et; [|by unfold exec in Hex; rewrite Et in Hex..].
    pose proof (ai_at w Hinv t _ Et) as Hat. destruct t as [|t]; [by eapply logger_step|by eapply client_step].
  - revert Hex. unfold spurious. destruct (threads w !! t) as [[|c k]|] eqn:Et; [done| |done]. intros [= <-].
    pose proof (ai_at w Hinv t _ Et) as Hat. destruct t as [|t]; [|done]. destruct Hat as [-> Hi].
    eapply (async_quiet w _ _ _ _ Hinv Et Hlk); [by constructor|done].
Qed.

Lemma stops_code_nonneg c : 0 <= stops_code c.
Proof.
  assert (forall r, 0 <= sum_of stops r) as Hr by (intros r; apply sum_of_nonneg; intros []; cbn; lia).
  induction c as [[r| |]|k IH|k IH|b c k IH|c k IH|k IH|a k IH|b k1 IH1 k2 IH2|c k IH|c k IH|b k IH]; cbn; try lia; try done.
  specialize (IH true). destruct a; lia.
Qed.
Lemma stops_left_nonneg th : 0 <= stops_left th.
Proof. destruct th; apply stops_code_nonneg. Qed.

Lemma start_async_inv scripts : sum_of (sum_of stops) scripts <= 1 -> async_inv (start_async scripts).
Proof.
  intros Hs. assert (forall t th, threads (start_async scripts) !! t = Some th ->
    (t = 0%nat /\ th = Run (Done Round)) \/ (exists t' r, t = S t' /\ th = Run (Done (Client r)))) as Hth.
  { intros [|t] th H; [injection H as <-; by left|]. right.
    change (((fun r => Run (Done (Client r))) <$> scripts) !! t = Some th) in H. rewrite list_lookup_fmap in H.
    apply fmap_Some in H as (r & _ & ->). by exists t, r. }
  assert (idle new_async) as Hi by (split_and!; [by exists fresh; split; [|apply fresh_clean]..|done|done]).
  constructor.
  - constructor; [|done]. intros t th H. by destruct (Hth t th H) as [[_ ->]|(t' & r & _ & ->)].
  - intros t th H. destruct (Hth t th H) as [[-> ->]|(t' & r & -> & ->)]; by constructor.
  - constructor; try done; [|by intros b [= <-]; apply fresh_clean]. exists fresh. cbn. split_and!; [done|apply clean_good, fresh_clean|].
    by rewrite (clean_text _ fresh_clean).
  - cbn. rewrite Z.add_0_r. etrans; [|exact Hs]. clear. induction scripts as [|r rs IH]; cbn; lia.
Qed.

Lemma async_reachable scripts w : sum_of (sum_of stops) scripts <= 1 -> rtc astep (start_async scripts) w -> async_inv w.
Proof.
  intros Hs Hr. apply (rtc_invariant astep async_inv (start_async scripts)); [|by apply start_async_inv|done].
  intros x y Hx [m Hm]. by eapply async_move.
Qed.

Lemma async_no_fail w m why : async_inv w -> amove w m <> Some (Fail why).
Proof.
  intros Hinv Hf. destruct (exec_fails _ _ _ w m why (ai_lock w Hinv) Hf) as (t & ws & a & k & -> & Et & Ha).
  pose proof (ai_at w Hinv t _ Et) as Hat. pose proof (ai_front w Hinv) as Hfr.
  destruct t as [|t]; cbn in Hat; inversion Hat; subst; cbn [aact] in Ha; try done.
  - by rewrite assertBuffers_spec in Ha by done.
  - destruct (swap_spec (shared w)) as (s' & E & _); [done..|]. by rewrite E in Ha.
  - match goal with H : got _ |- _ => destruct H as (bs & b & _ & _ & _ & Hb) end.
    destruct Hb as (_ & _ & Hne & _). by rewrite bool_decide_eq_false_2 in Ha.
  - destruct (recycle_spec (shared w)) as (n1 & n2 & E & _); [done|]. by rewrite E in Ha.
  - destruct (fits_spec line (shared w) Hfr) as (b & E & _). by rewrite E in Ha.
  - destruct (write_spec line (shared w) Hfr) as (s' & E & _); [done|]. by rewrite E in Ha.
  - destruct (retire_spec (shared w) Hfr) as (s' & E & _). by rewrite E in Ha.
  - destruct (write_spec line (shared w) Hfr) as (s' & E & _); [done|]. by rewrite E in Ha.
  - destruct (joined_ (shared w)) eqn:Ej; [|done]. pose proof (ai_stops w Hinv) as Hst. rewrite Ej in Hst.
    pose proof (sum_one stops_left (threads w) _ _ stops_left_nonneg Et) as H1. cbn in H1.
    pose proof (sum_of_nonneg stops r ltac:(intros []; cbn; lia)). lia.
Qed.

Lemma write_batches bs : Forall (fun b => zlen b <= 25) bs -> concat (write_batch <$> bs) = concat (concat bs).
Proof.
  intros Hb. induction bs as [|b bs IH]; [done|]. apply Forall_cons in Hb as [Hb Hbs]. cbn. rewrite concat_app, IH by done.
  unfold write_batch. by rewrite (proj2 (Z.ltb_ge _ _)) by done.
Qed.

(** C24: a started logger, with any number of threads that append lines, at
    most one call of [stop], and buffers of any size, under every
    interleaving and with waits that end at any time: no assertion fails,
    no null pointer is used and the mutex is held by one thread at a time;
    every line that fits an empty buffer ([stored]; a longer one is dropped)
    is, exactly once and in the order of the appends, in a batch taken by
    the logger, in a full buffer or in the current one; between its rounds
    the logger has written the batches in order, a batch of more than 25
    buffers as its last two.  So while no batch is larger, what the logger
    has written is a prefix of what was appended, and what is not written is
    in the full buffers and the current one.  A logger that is stopped takes
    no further batch, and what is in the buffers then is lost
    ([stop_loses_lines]). *)
Theorem async_logging_writes scripts w :
  sum_of (sum_of stops) scripts <= 1 -> rtc astep (start_async scripts) w ->
  (forall m why, amove w m <> Some (Fail why)) /\
  (forall t th, threads w !! t = Some th -> thread_typed (holds w t) th) /\
  exists cur, currentBuffer_ (shared w) = Some cur /\
    stored (lines (shared w)) = concat (concat (batches (shared w))) ++ concat (asString <$> buffers_ (shared w)) ++ asString cur /\
    (forall role, threads w !! 0%nat = Some (Run (Done role)) ->
       output (shared w) = concat (write_batch <$> batches (shared w)) /\
       (Forall (fun b => zlen b <= 25) (batches (shared w)) ->
        output (shared w) ++ concat (asString <$> buffers_ (shared w)) ++ asString cur = stored (lines (shared w)))).
Proof.
  intros Hs Hr. pose proof (async_reachable scripts w Hs Hr) as Hinv.
  split; [intros m why; by apply async_no_fail|]. split; [apply (lk_threads w (ai_lock w Hinv))|].
  destruct (fr_cur _ (ai_front w Hinv)) as (cur & Ec & _ & Ht). exists cur. split; [done|]. split; [done|]. intros role Et.
  assert (idle (shared w)) as (_ & _ & _ & Eo) by (pose proof (ai_at w Hinv _ _ Et) as Hat; by inversion Hat).
  split; [done|]. intros Hb. by rewrite Eo, Ht, write_batches.
Qed.
End async.

#[export] Existing Instance acond_eq_dec.

(** ** Runs *)

Definition async_run (SIZE : Z) (scripts : list (list acall)) (ms : list move) :=
  run_moves (aact SIZE) atest_ aresume (start_async SIZE scripts) ms.
Definition async_after SIZE scripts ms :=
  match async_run SIZE scripts ms with Some (Ok w) => w | _ => start_async SIZE [] end.

Definition steps (n : nat) (t : tid) : list move := repeat (Step t []) n.

(** A buffer of eight bytes takes seven: the second line needs a new one.
    The logger sees a full buffer and waits, until its time is over. *)
Definition two_lines : list (list acall) := [[AppendLine (bs "hello"); AppendLine (bs "world")]].
Definition waiting_logger := async_after 8 two_lines (steps 12 1 ++ steps 6 0).
Definition two_moves : list move := steps 12 1 ++ steps 6 0 ++ [Spurious 0] ++ steps 7 0.
Definition two_written := async_after 8 two_lines two_moves.

Lemma two_reachable : rtc (astep 8) (start_async 8 two_lines) two_written.
Proof. apply (run_moves_rtc _ _ _ _ two_moves). vm_compute. reflexivity. Qed.

Lemma async_logging_writes_witness :
  0 < 8 < 2 ^ 31 /\ sum_of (sum_of stops) two_lines <= 1 /\ rtc (astep 8) (start_async 8 two_lines) two_written /\
  output (shared two_written) = bs "helloworld" /\
  (forall m why, amove 8 two_written m <> Some (Fail why)).
Proof.
  split; [lia|]. split; [vm_compute; discriminate|]. split; [exact two_reachable|]. split; [vm_compute; reflexivity|].
  apply (async_logging_writes 8 ltac:(lia) two_lines two_written); [vm_compute; discriminate|exact two_reachable].
Defined.

(** The test before the wait is the wrong way round: with a full buffer to
    write the logger waits ... *)
Lemma full_buffer_waits :
  rtc (astep 8) (start_async 8 two_lines) waiting_logger /\ aquiescent 8 waiting_logger /\
  asString <$> buffers_ (shared waiting_logger) = [bs "hello"] /\ output (shared waiting_logger) = [].
Proof.
  split; [|split; [|vm_compute; done]].
  - apply (run_moves_rtc _ _ _ _ (steps 12 1 ++ steps 6 0)). vm_compute. reflexivity.
  - intros [|[|t]] ws; vm_compute; reflexivity.
Qed.

(** ... and with nothing to write it goes round without waiting. *)
Lemma idle_logger_spins :
  exists w, run_moves (aact 8) atest_ aresume (start_async 8 []) (steps 11 0) = Some (Ok w) /\
    threads w = threads (start_async 8 []) /\ asString <$> buffers_ (shared w) = [] /\ output (shared w) = [].
Proof. eexists. split; [vm_compute; reflexivity|]. vm_compute. done. Qed.

(** [stop] ends the loop before what was appended last is written. *)
Definition stop_script : list (list acall) := [[AppendLine (bs "bye"); StopLog]].
Definition stop_moves : list move := steps 9 1 ++ steps 3 0 ++ steps 1 1.
Definition stopped_logger := async_after 8 stop_script stop_moves.

Lemma stop_loses_lines :
  rtc (astep 8) (start_async 8 stop_script) stopped_logger /\
  threads stopped_logger = [Run (Done Exited); Run (Done (Client []))] /\
  lines (shared stopped_logger) = [bs "bye"] /\ output (shared stopped_logger) = [].
Proof.
  split; [|vm_compute; done]. apply (run_moves_rtc _ _ _ _ stop_moves). vm_compute. reflexivity.
Qed.
