(* ===== verification/LogFile.v ===== *)
(** * LogFile: log files that roll

    Models [LogFile] and [LogFile::File] of [logging/LogFile.h] and
    [LogFile.cc].  A [FILE] is its name, the bytes stdio took, how many of
    them were flushed, and [writtenBytes_].  What the clock says and how many
    bytes each [fwrite] takes come with the call; [fopen] tells of each name
    whether a file of that name can be opened.  [mutex_] only makes the
    calls of several threads follow one another; its behaviour is in
    [Monitor.v]. *)
From S2P Require Import Prelude CFormat Date TimeZone.
From Stdlib Require Import Strings.Byte Sorted.

Definition kCheckTimeRoll_ : Z := 1024.
Definition kRollPerSeconds_ : Z := 60 * 60 * 24.

(** ** LogFile::File *)

Record File := mkFile { filename : list byte; content : list byte; flushed : Z; writtenBytes_ : Z }.

(** [opened]: whether [fopen] gave a stream; the result is not checked, and
    [setbuffer] uses it. *)
Definition new_File (opened : bool) (name : list byte) : outcome File :=
  if opened then Ok (mkFile name [] 0 0) else Fail Undefined.
Definition File_flush (f : File) : File := mkFile (filename f) (content f) (zlen (content f)) (writtenBytes_ f).

(** [fwrite_unlocked]: [ws] are the results of the calls to come; without
    one the call takes all it is given. *)
Definition write (line : list byte) (ws : list Z) (f : File) : Z * list Z * File :=
  let n := match ws with [] => zlen line | w :: _ => Z.max 0 (Z.min w (zlen line)) end in
  (n, tail ws, mkFile (filename f) (content f ++ take (Z.to_nat n) line) (flushed f) (writtenBytes_ f)).

(** The loop of [File::append]; each round writes at least one byte. *)
Fixpoint append_loop (fuel : nat) (line : list byte) (n : Z) (ws : list Z) (f : File) : outcome File :=
  match fuel with
  | O => Fail Undefined
  | S fuel =>
      let remain := zlen line - n in
      if 0 <? remain then
        let '(x, ws, f) := write (drop (Z.to_nat n) line) ws f in
        if x =? 0 then Ok f else append_loop fuel line (n + x) ws f
      else Ok f
  end.

Definition File_append (line : list byte) (ws : list Z) (f : File) : outcome File :=
  let '(n, ws, f) := write line ws f in
  f ← append_loop (S (length line)) line n ws f;
  Ok (mkFile (filename f) (content f) (flushed f) (u64 (writtenBytes_ f + zlen line))).

(** ** LogFile *)

Record LogFile := mkLogFile {
  basename_ : list byte;
  rollSize_ : Z;
  flushInterval_ : Z;
  count_ : Z;
  startOfPeriod_ : Z;
  lastRoll_ : Z;
  lastFlush_ : Z;
  file_ : option File;
  closed : list File;
}.

Definition set_file (f : option File) (s : LogFile) : LogFile :=
  mkLogFile (basename_ s) (rollSize_ s) (flushInterval_ s) (count_ s) (startOfPeriod_ s) (lastRoll_ s) (lastFlush_ s) f (closed s).
Definition set_count (c : Z) (s : LogFile) : LogFile :=
  mkLogFile (basename_ s) (rollSize_ s) (flushInterval_ s) c (startOfPeriod_ s) (lastRoll_ s) (lastFlush_ s) (file_ s) (closed s).
Definition set_lastFlush (t : Z) (s : LogFile) : LogFile :=
  mkLogFile (basename_ s) (rollSize_ s) (flushInterval_ s) (count_ s) (startOfPeriod_ s) (lastRoll_ s) t (file_ s) (closed s).

Section logfile.
Context `{TimeLib}.
Variables (getpid : Z) (fopen : list byte -> bool).

(** [".%Y%m%d-%H%M%S"] of [strftime], [".%d"] of [snprintf]. *)
Definition getLogFileName (basename : list byte) (now : Z) : outcome (list byte) :=
  let t := gmtime_r now in
  _ ← ints [tm_year t + 1900; tm_mon t + 1];
  let timebuf := bs "." ++ fmt_d 0 (tm_year t + 1900) ++ fmt_0d 2 (tm_mon t + 1) ++ fmt_0d 2 (tm_mday t) ++
    bs "-" ++ fmt_0d 2 (tm_hour t) ++ fmt_0d 2 (tm_min t) ++ fmt_0d 2 (tm_sec t) in
  let pidbuf := snprintf 32 (bs "." ++ fmt_d 0 getpid) in
  Ok (basename ++ timebuf ++ pidbuf ++ bs ".log").

Definition period (now : Z) : Z := Z.quot now kRollPerSeconds_ * kRollPerSeconds_.

(** [file_.reset(new File(filename))] closes the file before. *)
Definition rollFile (now : Z) (s : LogFile) : outcome LogFile :=
  filename ← getLogFileName (basename_ s) now;
  let start := period now in
  if lastRoll_ s <? now then
    f ← new_File (fopen filename) filename;
    Ok (mkLogFile (basename_ s) (rollSize_ s) (flushInterval_ s) (count_ s) start now now (Some f)
          (closed s ++ match file_ s with Some f => [File_flush f] | None => [] end))
  else Ok s.

Definition new_LogFile (basename : list byte) (rollSize flushInterval now : Z) : outcome LogFile :=
  _ ← assert_ (forallb (fun c => negb (bool_decide (c = x2f))) basename);
  rollFile now (mkLogFile basename rollSize flushInterval 0 0 0 0 None []).

(** [check] and [roll]: what [time] says in [append_unlocked] and in the
    [rollFile] it calls. *)
Definition append_unlocked (line : list byte) (ws : list Z) (check roll : Z) (s : LogFile) : outcome LogFile :=
  f ← from_some Undefined (file_ s);
  f ← File_append line ws f;
  let s := set_file (Some f) s in
  if rollSize_ s <? writtenBytes_ f then rollFile roll s
  else if kCheckTimeRoll_ <? count_ s then
    let s := set_count 0 s in
    if negb (period check =? startOfPeriod_ s) then rollFile roll s
    else if flushInterval_ s <? check - lastFlush_ s then
      Ok (set_file (Some (File_flush f)) (set_lastFlush check s))
    else Ok s
  else _ ← ints [count_ s + 1]; Ok (set_count (count_ s + 1) s).

Definition flush (s : LogFile) : outcome LogFile :=
  f ← from_some Undefined (file_ s); Ok (set_file (Some (File_flush f)) s).

(** What a client calls. *)
Inductive event := Append (line : list byte) (ws : list Z) (check roll : Z) | Flush.
Definition log_event (s : LogFile) (e : event) : outcome LogFile :=
  match e with Append line ws check roll => append_unlocked line ws check roll s | Flush => flush s end.

(** All files, oldest first. *)
Definition files (s : LogFile) : list File := closed s ++ match file_ s with Some f => [f] | None => [] end.
Definition line_of (e : event) : list (list byte) := match e with Append line _ _ _ => [line] | Flush => [] end.
End logfile.

(** ** Lemmas: file names *)

(** What the manual page of [gmtime] says of the fields, for the years that
    have four digits. *)
Definition four_digit_years (t : Z) : Prop := 0 <= t < 253402300800.

Class GmtimeRange `{TimeLib} := {
  gmtime_range : forall t, four_digit_years t ->
    let a := gmtime_r t in
    1970 <= tm_year a + 1900 <= 9999 /\ 0 <= tm_mon a <= 11 /\ 1 <= tm_mday a <= 31 /\
    0 <= tm_hour a <= 23 /\ 0 <= tm_min a <= 59 /\ 0 <= tm_sec a <= 60;
}.

#[export] Instance own_GmtimeRange : GmtimeRange.
Proof.
  split. intros t Ht. unfold four_digit_years in Ht. cbn [gmtime_r own_TimeLib].
  destruct (toUtcTime_value t ltac:(unfold time_ok; lia) true) as (y & h & m & s & yd & E & [Hm Hd] & Hy & _ & Hh & Hmi & Hs & F).
  rewrite E. cbn [tm_year tm_mon tm_mday tm_hour tm_min tm_sec]. pose proof (days_in_month_range (year y) (month y)).
  assert (1970 <= year y <= 9999); [|lia].
  pose proof (jdn_march y) as Ej.
  unfold fromUtcTime_tm, fromUtcTime, new_Date in F. cbn [tm_year tm_mon tm_mday tm_hour tm_min tm_sec] in F.
  replace (year y - 1900 + 1900) with (year y) in F by lia. replace (month y - 1 + 1) with (month y) in F by lia.
  rewrite Ej in F by (done || lia). cbn [mbind outcome_bind julianDayNumber_] in F. unfold year_ok in Hy.
  inv_ok. unfold kJulianDayOf1970_01_01, kSecondsPerDay, march_day, march_year, march_month in *.
  rewrite days_in_march_month in Hd by done. unfold march_month in Hd. clear E Ej.
  destruct (Z.ltb_spec (month y) 3) as [Hlt|Hge].
  - assert (306 <= month_start (month y + 9) /\ day y + month_start (month y + 9) <= 366) as [Hms1 Hms2].
    { clear -Hd Hlt Hm. generalize (march_year y + 1) as z. intros z. revert Hd. generalize (day y) as d. intros d.
      assert (month y = 1 \/ month y = 2) as [E|E] by lia; rewrite E.
      - change (month_start (1 + 9 + 1)) with 337. change (month_start (1 + 9)) with 306. change (1 + 9 =? 11) with false. cbv iota. lia.
      - change (month_start (2 + 9)) with 337. change (2 + 9 =? 11) with true. cbv iota. destruct (leap _); lia. }
    set (ms := month_start _) in *. clearbody ms. set (yy := year y) in *. clearbody yy. dlia.
  - assert (0 <= month_start (month y - 3) /\ day y + month_start (month y - 3) <= 306) as [Hms1 Hms2].
    { rewrite (proj2 (Z.eqb_neq (month y - 3) 11)) in Hd by lia. unfold month_start in *. dlia. }
    set (ms := month_start _) in *. clearbody ms. set (yy := year y) in *. clearbody yy. dlia.
Qed.

Section names.
Context {HT : TimeLib} {HL : TimeLibLaws} {HG : GmtimeRange} (getpid : Z).

Lemma getLogFileName_ok base t : four_digit_years t -> exists name, getLogFileName getpid base t = Ok name.
Proof.
  intros Ht. destruct (gmtime_range t Ht) as (Hy & Hm & _). unfold getLogFileName.
  rewrite ints_ok by (repeat (constructor; [lia|]); constructor). by eexists.
Qed.

(** Two fields of two digits in front of the rest. *)
Lemma peel_field a b l l' : 0 <= a < 100 -> 0 <= b < 100 -> fmt_0d 2 a ++ l = fmt_0d 2 b ++ l' -> a = b /\ l = l'.
Proof.
  intros Ha Hb E. destruct (fmt_0d_field 2 a ltac:(lia) Ha) as (La & Va & _). destruct (fmt_0d_field 2 b ltac:(lia) Hb) as (Lb & Vb & _).
  apply app_inj_1 in E as [E ->]; [|by rewrite La, Lb]. split; [|done]. by rewrite <- Va, <- Vb, E.
Qed.

Lemma year_field y : 1970 <= y <= 9999 -> length (fmt_d 0 y) = 4%nat /\ dec_value (fmt_d 0 y) = y.
Proof.
  intros Hy. rewrite fmt_d_nonneg by lia. unfold pad.
  replace (replicate _ _ ++ udec y) with (udec y) by (by destruct (length (udec y))).
  pose proof (udec_length y 4 ltac:(change (10 ^ Z.of_nat 4) with 10000; lia) ltac:(lia)). pose proof (udec_length_ge y 3 ltac:(change (10 ^ Z.of_nat 3) with 1000; lia)).
  split; [lia|apply udec_value; lia].
Qed.

(** The name of a file tells the second it was opened. *)
Lemma getLogFileName_inj base t t' name :
  four_digit_years t -> four_digit_years t' -> getLogFileName getpid base t = Ok name -> getLogFileName getpid base t' = Ok name -> t = t'.
Proof.
  intros Ht Ht'. unfold getLogFileName. intros E E'. apply bind_ok in E as (? & _ & E). apply bind_ok in E' as (? & _ & E').
  destruct (gmtime_range t Ht) as (Hy & Hmo & Hd & Hh & Hmi & Hs). destruct (gmtime_range t' Ht') as (Hy' & Hmo' & Hd' & Hh' & Hmi' & Hs').
  cbn zeta in *. rewrite <- E' in E. injection E as E. apply app_inv_head in E. rewrite <- !app_assoc in E. cbn [app] in E. injection E as E.
  destruct (year_field _ Hy) as [Ly Vy]. destruct (year_field _ Hy') as [Ly' Vy'].
  apply app_inj_1 in E as [E0 E]; [|by rewrite Ly, Ly'].
  apply peel_field in E as [E1 E]; [|lia..]. apply peel_field in E as [E2 E]; [|lia..]. cbn [app] in E. injection E as E. rewrite <- !app_assoc in E.
  apply peel_field in E as [E3 E]; [|lia..]. apply peel_field in E as [E4 E]; [|lia..]. apply peel_field in E as [E5 E]; [|lia..].
  assert (tm_year (gmtime_r t) + 1900 = tm_year (gmtime_r t') + 1900) as Ey by (by rewrite <- Vy, <- Vy', E0).
  unfold four_digit_years in *. rewrite <- (timegm_gmtime t (gmtime_r t')); [|unfold time_ok; lia|unfold same_civil; lia].
  apply timegm_gmtime; [unfold time_ok; lia|done].
Qed.
End names.

(** ** Lemmas: appending *)

(** [fwrite] always makes progress. *)
Definition progress (ws : list Z) : Prop := Forall (fun w => 0 < w) ws.

Lemma append_loop_spec fuel line n ws f :
  0 <= n <= zlen line -> zlen line - n < Z.of_nat fuel ->
  exists m, n <= m <= zlen line /\ (progress ws -> m = zlen line) /\
    append_loop fuel line n ws f = Ok (mkFile (filename f) (content f ++ slice line n m) (flushed f) (writtenBytes_ f)).
Proof.
  induction fuel as [|fuel IH] in n, ws, f |- *; intros Hn Hf; [lia|]. cbn [append_loop]. unfold write.
  destruct (Z.ltb_spec 0 (zlen line - n)).
  - set (x := match ws with [] => _ | w :: _ => _ end).
    assert (0 <= x <= zlen line - n) as Hx.
    { subst x. pose proof (zlen_drop n line Hn). pose proof (zlen_nonneg (drop (Z.to_nat n) line)). destruct ws; lia. }
    assert (progress ws -> 0 < x /\ progress (tail ws)) as Hp.
    { subst x. pose proof (zlen_drop n line Hn). destruct ws as [|w ws]; [split; [lia|done]|].
      intros Hw. apply Forall_cons in Hw as [Hw ?]. split; [lia|done]. }
    assert (take (Z.to_nat x) (drop (Z.to_nat n) line) = slice line n (n + x)) as -> by (unfold slice; do 2 f_equal; lia).
    destruct (Z.eqb_spec x 0) as [E|E].
    + exists n. split; [lia|]. split; [intros Hw; destruct (Hp Hw); lia|]. rewrite E, Z.add_0_r. done.
    + destruct (IH (n + x) (tail ws) (mkFile (filename f) (content f ++ slice line n (n + x)) (flushed f) (writtenBytes_ f))) as (m & Hm & Hpm & ->); [lia|lia|].
      exists m. split; [lia|]. split; [intros Hw; by apply Hpm, Hp|]. cbn [filename content flushed writtenBytes_].
      by rewrite <- app_assoc, slice_app by lia.
  - exists n. split; [lia|]. split; [lia|]. rewrite slice_nil, app_nil_r by lia. by destruct f.
Qed.

(** A line goes into the file, or, if [fwrite] fails, its beginning. *)
Lemma File_append_spec line ws f :
  exists p, p `prefix_of` line /\ (progress ws -> p = line) /\
    File_append line ws f = Ok (mkFile (filename f) (content f ++ p) (flushed f) (u64 (writtenBytes_ f + zlen line))).
Proof.
  unfold File_append, write. set (n := match ws with [] => _ | w :: _ => _ end).
  assert (0 <= n <= zlen line) as Hn by (subst n; pose proof (zlen_nonneg line); destruct ws; lia).
  destruct (append_loop_spec (S (length line)) line n (tail ws) (mkFile (filename f) (content f ++ take (Z.to_nat n) line) (flushed f) (writtenBytes_ f)))
    as (m & Hm & Hp & ->); [lia|unfold zlen in *; lia|].
  exists (slice line 0 m). cbn [mbind outcome_bind filename content flushed writtenBytes_]. split_and!.
  - unfold slice. rewrite drop_0. apply prefix_take.
  - intros Hw. rewrite Hp; [apply slice_full|]. unfold progress in *. destruct ws; [done|]. by apply Forall_cons in Hw as [_ ?].
  - replace (take (Z.to_nat n) line) with (slice line 0 n) by (unfold slice; rewrite drop_0, Z.sub_0_r; done).
    by rewrite <- app_assoc, slice_app by lia.
Qed.

(** ** Invariant *)
Section invariant.
Context {HT : TimeLib} {HL : TimeLibLaws} {HG : GmtimeRange} (getpid : Z) (fopen : list byte -> bool).

Definition same_config (s s' : LogFile) : Prop :=
  basename_ s' = basename_ s /\ rollSize_ s' = rollSize_ s /\ flushInterval_ s' = flushInterval_ s.

(** The file of a second can be opened. *)
Definition can_open (base : list byte) (t : Z) : Prop :=
  forall name, getLogFileName getpid base t = Ok name -> fopen name = true.

(** [ps]: the pieces written so far, in order. *)
Record log_inv (base : list byte) (ps : list (list byte)) (s : LogFile) : Prop := {
  lg_base : basename_ s = base;
  lg_roll : 0 <= rollSize_ s < 2 ^ 64;
  lg_open : is_Some (file_ s);
  lg_pieces : exists pss, content <$> files s = @concat byte <$> pss /\ concat pss = ps;
  lg_names : exists ts, Forall2 (fun f t => getLogFileName getpid base t = Ok (filename f)) (files s) ts /\
    StronglySorted Z.lt ts /\ Forall (fun t => four_digit_years t /\ t <= lastRoll_ s) ts;
  lg_count : 0 <= count_ s <= kCheckTimeRoll_ + 1;
  lg_closed : Forall (fun f => flushed f = zlen (content f)) (closed s);
}.

Lemma files_NoDup base ps s : log_inv base ps s -> NoDup (filename <$> files s).
Proof.
  intros [_ _ _ _ (ts & Hf & Hs & Ht) _ _]. revert Hf Hs Ht. generalize (files s) as l. intros l. induction l as [|f l IH] in ts |- *; [constructor|].
  intros Hf Hs Ht. apply Forall2_cons_inv_l in Hf as (t & ts' & Ef & Hf & ->). apply StronglySorted_inv in Hs as [Hs Hlt].
  apply Forall_cons in Ht as [[Ht4 _] Ht]. cbn. constructor; [|by eapply IH].
  intros (g & Eg & Hg)%list_elem_of_fmap. apply list_elem_of_lookup in Hg as [i Hi].
  destruct (Forall2_lookup_l _ _ _ _ _ Hf Hi) as (t' & Ht' & Eg'). rewrite <- Eg in Eg'.
  assert (t = t') as <- by (eapply (getLogFileName_inj getpid base); [done| |done|done]; eapply Forall_lookup_1 in Ht; [|done]; apply Ht).
  rewrite Forall_forall in Hlt. specialize (Hlt t ltac:(by eapply list_elem_of_lookup_2)). lia.
Qed.

(** The current file takes a piece. *)
Lemma set_file_inv base ps s f f' p :
  log_inv base ps s -> file_ s = Some f -> filename f' = filename f -> content f' = content f ++ concat p ->
  log_inv base (ps ++ p) (set_file (Some f') s).
Proof.
  intros [Hb Hr Ho (pss & Hp & Hc) (ts & Hn & Hs & Ht) Hcnt Hcl] Ef Hname Hcont. unfold files in *. rewrite Ef in *.
  constructor; try done; unfold files; cbn [set_file closed file_].
  - rewrite fmap_app in Hp. cbn in Hp. symmetry in Hp. apply fmap_app_inv in Hp as (pss1 & pss2 & H1 & H2 & ->).
    destruct pss2 as [|q [|]]; [done| |done]. injection H2 as Hq. exists (pss1 ++ [q ++ p]).
    rewrite !fmap_app. cbn. rewrite Hcont, concat_app, Hq, H1. split; [done|].
    rewrite <- Hc, !concat_app. cbn. by rewrite !app_nil_r, <- app_assoc.
  - exists ts. split; [|done]. apply Forall2_app_inv_l in Hn as (t1 & t2 & H1 & H2 & ->). apply Forall2_app; [done|].
    apply Forall2_cons_inv_l in H2 as (t & t3 & H2 & H3 & ->). constructor; [by rewrite Hname|done].
Qed.

Lemma rollFile_inv base ps s now :
  log_inv base ps s -> four_digit_years now -> can_open base now ->
  exists s', rollFile getpid fopen now s = Ok s' /\ log_inv base ps s' /\
    (now <= lastRoll_ s /\ s' = s \/ exists name, file_ s' = Some (mkFile name [] 0 0)).
Proof.
  intros [Hb Hr [f Ef] (pss & Hp & Hc) (ts & Hn & Hs & Ht) Hcnt Hcl] Hnow Hopen. unfold rollFile.
  destruct (getLogFileName_ok getpid (basename_ s) now Hnow) as [name Ename]. rewrite Ename. cbn [mbind outcome_bind].
  destruct (Z.ltb_spec (lastRoll_ s) now) as [Hlt|Hge].
  - rewrite (Hopen name) by (by rewrite <- Hb). cbn [new_File mbind outcome_bind]. eexists. split; [done|]. split; [|right; by eexists]. rewrite Ef. unfold files in *. rewrite Ef in *.
    constructor; try done; unfold files; cbn [closed file_ lastRoll_].
    + exists (pss ++ [[]]). rewrite !fmap_app in *. cbn in *. rewrite Hp, concat_app, Hc. by rewrite app_nil_r.
    + exists (ts ++ [now]). split_and!.
      * apply Forall2_app; [|constructor; [by rewrite <- Hb|constructor]].
        apply Forall2_app_inv_l in Hn as (t1 & t2 & H1 & H2 & ->). apply Forall2_app; [done|].
        apply Forall2_cons_inv_l in H2 as (t & t3 & H2 & H3 & ->). by constructor.
      * clear -Hs Ht Hlt. induction ts as [|t ts IH]; cbn; [by constructor; constructor|].
        apply StronglySorted_inv in Hs as [Hs Hall]. apply Forall_cons in Ht as [[_ Ht1] Ht].
        constructor; [by apply IH|]. apply Forall_app. split; [done|]. constructor; [lia|constructor].
      * apply Forall_app. split; [|constructor; [split; [done|lia]|constructor]].
        eapply Forall_impl; [exact Ht|]. cbn. intros t [? ?]. split; [done|lia].
    + apply Forall_app. split; [done|]. by constructor.
  - exists s. split; [done|]. split; [|left; split; [lia|done]]. constructor; try done; eauto.
Qed.

Lemma config_inv base ps s s' :
  log_inv base ps s -> basename_ s' = basename_ s -> rollSize_ s' = rollSize_ s -> files s' = files s -> file_ s' = file_ s ->
  closed s' = closed s -> lastRoll_ s' = lastRoll_ s -> 0 <= count_ s' <= kCheckTimeRoll_ + 1 -> log_inv base ps s'.
Proof.
  intros [] Eb Er Ef Ef' Ec El Hc. constructor; rewrite ?Eb, ?Er, ?Ef, ?Ef', ?Ec, ?El; done.
Qed.

(** Which calls the theorem is about: clocks of four-digit years, lines
    whose length is an [int], files that can be opened. *)
Definition event_ok (base : list byte) (e : event) : Prop :=
  match e with Append line _ _ roll => four_digit_years roll /\ can_open base roll /\ zlen line < 2 ^ 31 | Flush => True end.
Definition event_progress (e : event) : Prop := match e with Append _ ws _ _ => progress ws | Flush => True end.

Lemma rollFile_roll now s s' : rollFile getpid fopen now s = Ok s' -> rollSize_ s' = rollSize_ s.
Proof. unfold rollFile. intros H. inv_ok. destruct (_ <? _); [|by inv_ok]. unfold new_File in H. destruct (fopen _); inv_ok; done. Qed.

Lemma log_event_roll s e s' : log_event getpid fopen s e = Ok s' -> rollSize_ s' = rollSize_ s.
Proof.
  destruct e as [line ws check roll|]; cbn [log_event].
  - unfold append_unlocked. intros H. apply bind_ok in H as (f & _ & H). apply bind_ok in H as (f1 & _ & H).
    repeat match type of H with (if ?b then _ else _) = _ => destruct b end; try (apply rollFile_roll in H; done); inv_ok; done.
  - unfold flush. intros H. inv_ok. done.
Qed.

Lemma log_event_inv base ps s e :
  log_inv base ps s -> event_ok base e ->
  exists s' p, log_event getpid fopen s e = Ok s' /\ log_inv base (ps ++ p) s' /\ Forall2 prefix p (line_of e) /\
    (event_progress e -> p = line_of e) /\
    (forall line ws check roll f', e = Append line ws check roll -> file_ s' = Some f' ->
       writtenBytes_ f' <= rollSize_ s' \/ roll <= lastRoll_ s).
Proof.
  intros Hinv He. pose proof Hinv as [Hb Hr [f Ef] _ _ Hcnt _]. destruct e as [line ws check roll|]; cbn [log_event event_ok line_of event_progress] in *.
  - destruct He as (Hroll & Hopen & Hlen). unfold append_unlocked. rewrite Ef. cbn [from_some mbind outcome_bind].
    destruct (File_append_spec line ws f) as (p & Hp & Hprog & ->). cbn [mbind outcome_bind]. set (f1 := mkFile _ _ _ _).
    assert (log_inv base (ps ++ [p]) (set_file (Some f1) s)) as H1 by (apply (set_file_inv base ps s f f1 [p]); cbn; rewrite ?app_nil_r; done).
    assert (Forall2 prefix [p] [line] /\ (progress ws -> [p] = [line])) as [H2 H3].
    { split; [by constructor; [|constructor]|]. intros Hw. by rewrite Hprog. }
    assert (forall s1, log_inv base (ps ++ [p]) s1 -> lastRoll_ s1 = lastRoll_ s -> file_ s1 = Some f1 -> rollSize_ s1 = rollSize_ s ->
      exists s', rollFile getpid fopen roll s1 = Ok s' /\ log_inv base (ps ++ [p]) s' /\
        forall f', file_ s' = Some f' -> writtenBytes_ f' <= rollSize_ s' \/ roll <= lastRoll_ s) as Hrf.
    { intros s1 Hs1 El Ef1 Er1. destruct (rollFile_inv base _ s1 roll Hs1 Hroll Hopen) as (s' & E & Hs' & Hc). exists s'. split; [done|]. split; [done|].
      intros f' Ef'. destruct Hc as [[Hle ->]|[name Hname]]; [right; lia|left]. rewrite Hname in Ef'. injection Ef' as <-. cbn. apply Hs'. }
    destruct (Z.ltb_spec (rollSize_ (set_file (Some f1) s)) (writtenBytes_ f1)) as [Hbig|Hsmall].
    + destruct (Hrf _ H1 eq_refl eq_refl eq_refl) as (s' & E & Hs' & Hf'). exists s', [p]. split_and!; try done.
      intros ? ? ? ? f' [= <- <- <- <-]. by apply Hf'.
    + cbn [rollSize_ set_file] in Hsmall. destruct (Z.ltb_spec kCheckTimeRoll_ (count_ (set_file (Some f1) s))) as [Hch|Hch]; cbn [count_ set_file] in Hch.
      * assert (log_inv base (ps ++ [p]) (set_count 0 (set_file (Some f1) s))) as H4 by (eapply config_inv; [exact H1|done..|cbn; unfold kCheckTimeRoll_; lia]).
        destruct (period check =? _); cbn [negb].
        -- destruct (_ <? _).
           ++ eexists _, [p]. split; [done|]. split_and!; try done.
              { rewrite <- (app_nil_r (ps ++ [p])). apply (set_file_inv base _ (set_lastFlush check (set_count 0 (set_file (Some f1) s))) f1); try done.
                - eapply config_inv; [exact H4|done..|cbn; unfold kCheckTimeRoll_; lia].
                - cbn. by rewrite app_nil_r. }
              intros ? ? ? ? f' _ [= <-]. by left.
           ++ eexists _, [p]. split; [done|]. split_and!; try done. intros ? ? ? ? f' _ [= <-]. by left.
        -- destruct (Hrf _ H4 eq_refl eq_refl eq_refl) as (s' & E & Hs' & Hf'). exists s', [p]. split_and!; try done.
           intros ? ? ? ? f' [= <- <- <- <-]. by apply Hf'.
      * rewrite ints_ok by (constructor; [cbn; unfold kCheckTimeRoll_ in *; lia|constructor]). cbn [mbind outcome_bind].
        eexists _, [p]. split; [done|]. split_and!; try done.
        { eapply config_inv; [exact H1|done..|cbn; lia]. }
        intros ? ? ? ? f' _ [= <-]. by left.
  - unfold flush. rewrite Ef. cbn [from_some mbind outcome_bind]. eexists _, []. split; [done|]. split_and!; try done.
    apply (set_file_inv base ps s f); try done. cbn. by rewrite app_nil_r.
Qed.

Definition run_log (base : list byte) (rollSize flushInterval now : Z) (es : list event) : outcome LogFile :=
  s ← new_LogFile getpid fopen base rollSize flushInterval now; foldM (log_event getpid fopen) s es.

Lemma new_LogFile_inv base rollSize flushInterval now :
  x2f ∉ base -> 0 <= rollSize < 2 ^ 64 -> 0 < now -> four_digit_years now -> can_open base now ->
  exists s, new_LogFile getpid fopen base rollSize flushInterval now = Ok s /\ log_inv base [] s /\ rollSize_ s = rollSize.
Proof.
  intros Hbase Hr Hnow H4 Hopen. unfold new_LogFile.
  assert (forallb (fun c => negb (bool_decide (c = x2f))) base = true) as ->.
  { apply forallb_forall. intros c Hc. apply negb_true_iff, bool_decide_eq_false_2. intros ->. by apply Hbase, list_elem_of_In. }
  cbn [assert_ mbind outcome_bind]. unfold rollFile. cbn [basename_ lastRoll_].
  destruct (getLogFileName_ok getpid base now H4) as [name Ename]. rewrite Ename. cbn [mbind outcome_bind].
  rewrite (proj2 (Z.ltb_lt 0 now)) by done. rewrite (Hopen name Ename). cbn [new_File mbind outcome_bind]. eexists. split; [done|]. split; [|done].
  constructor; unfold files; cbn; try done.
  - by exists [[]].
  - exists [now]. split; [by constructor|]. split; [by constructor; constructor|]. constructor; [split; [done|lia]|constructor].
Qed.

Lemma log_events_inv base es ps s :
  log_inv base ps s -> Forall (event_ok base) es ->
  exists s' ps', foldM (log_event getpid fopen) s es = Ok s' /\ log_inv base (ps ++ ps') s' /\ rollSize_ s' = rollSize_ s /\
    Forall2 prefix ps' (flat_map line_of es) /\ (Forall event_progress es -> ps' = flat_map line_of es).
Proof.
  induction es as [|e es IH] in ps, s |- *; intros Hs He; cbn [foldM flat_map].
  - exists s, []. rewrite app_nil_r. split_and!; (done || constructor).
  - apply Forall_cons in He as [He Hes]. destruct (log_event_inv base ps s e Hs He) as (s1 & p & E & Hs1 & Hp & Hg & _). rewrite E. cbn [mbind outcome_bind].
    destruct (IH (ps ++ p) s1 Hs1 Hes) as (s' & ps' & E' & Hs' & Hr & Hp' & Hg'). exists s', (p ++ ps').
    rewrite app_assoc. split_and!; [done|done| |by apply Forall2_app|].
    + rewrite Hr. by eapply log_event_roll.
    + intros Hgood. apply Forall_cons in Hgood as [H1 H2]. by rewrite (Hg H1), (Hg' H2).
Qed.

(** C26: a [LogFile] that is opened with a base name without slashes, and
    whatever is appended and flushed after, with whatever the clock (of a
    year of four digits) shows, as long as [fopen] can open the files: nothing
    fails; each line goes into one file, in order, whole if every [fwrite]
    takes at least a byte, and otherwise a beginning of it; no two files have
    the same name; closed files are flushed; and after each call of [append]
    the file counts no more than [rollSize] bytes written, or the clock shows
    no later second than that of the last roll. *)
Theorem logfile_rolls base rollSize flushInterval now es :
  x2f ∉ base -> 0 <= rollSize < 2 ^ 64 -> 0 < now -> four_digit_years now -> can_open base now -> Forall (event_ok base) es ->
  exists s, run_log base rollSize flushInterval now es = Ok s /\
    (exists pss, content <$> files s = @concat byte <$> pss /\ Forall2 prefix (concat pss) (flat_map line_of es) /\
       (Forall event_progress es -> concat pss = flat_map line_of es)) /\
    NoDup (filename <$> files s) /\
    Forall (fun f => flushed f = zlen (content f)) (closed s) /\
    (forall es' line ws check roll f, es = es' ++ [Append line ws check roll] -> file_ s = Some f ->
       writtenBytes_ f <= rollSize \/ exists s1, run_log base rollSize flushInterval now es' = Ok s1 /\ roll <= lastRoll_ s1).
Proof.
  intros Hbase Hr Hnow H4 Hopen Hes. unfold run_log. destruct (new_LogFile_inv base rollSize flushInterval now Hbase Hr Hnow H4 Hopen) as (s0 & -> & H0 & Hr0).
  cbn [mbind outcome_bind]. destruct (log_events_inv base es [] s0 H0 Hes) as (s & ps & E & Hs & Hrs & Hp & Hg). exists s. split; [done|].
  split; [|split; [by eapply files_NoDup|split; [apply Hs|]]].
  - destruct (lg_pieces base _ s Hs) as (pss & E1 & E2). cbn in E2. exists pss. rewrite E2. done.
  - intros es' line ws check roll f -> Ef. apply Forall_app in Hes as [Hes' He]. apply Forall_cons in He as [He _].
    destruct (log_events_inv base es' [] s0 H0 Hes') as (s1 & ps1 & E1 & Hs1 & Hr1 & _).
    rewrite foldM_app, E1 in E. cbn [mbind outcome_bind foldM] in E.
    destruct (log_event_inv base _ s1 _ Hs1 He) as (s2 & p & E2 & _ & _ & _ & Hb). rewrite E2 in E. cbn in E. injection E as <-.
    destruct (Hb _ _ _ _ f eq_refl Ef) as [?|?]; [left; lia|right]. by exists s1.
Qed.
End invariant.

Definition log_calls : list event :=
  [Append (bs "first line") [4] 100 100; Flush; Append (bs "second") [] 86400 86400; Append (bs "third") [] 86401 86402].

Lemma logfile_rolls_witness :
  exists s, run_log 7 (fun _ => true) (bs "log") 12 3 100 log_calls = Ok s /\ content <$> files s = [bs "first linesecond"; bs "third"] /\
    NoDup (filename <$> files s).
Proof.
  destruct (logfile_rolls 7 (fun _ => true) (bs "log") 12 3 100 log_calls) as (s & E & _ & Hn & _).
  - intros Hin. repeat (apply elem_of_cons in Hin as [Hin|Hin]; [discriminate Hin|]). by apply not_elem_of_nil in Hin.
  - lia.
  - lia.
  - unfold four_digit_years. lia.
  - by intros name _.
  - repeat constructor; cbn; unfold four_digit_years; try lia; by intros name _.
  - exists s. split; [exact E|]. split; [|exact Hn]. vm_compute in E. injection E as <-. reflexivity.
Defined.

(** A file that cannot be opened is used all the same. *)
Lemma unopened_file_used : run_log 7 (fun _ => false) (bs "log") 12 3 100 [] = Fail Undefined.
Proof. reflexivity. Qed.

(** Within one second the file grows past [rollSize]. *)
Lemma no_roll_within_second :
  exists s, run_log 7 (fun _ => true) (bs "log") 12 3 100 (replicate 3 (Append (bs "ten bytes.") [] 100 100)) = Ok s /\
    (zlen <$> (content <$> files s)) = [30].
Proof. eexists. split; [vm_compute; reflexivity|]. vm_compute. done. Qed.
