(* ===== verification/Logging.v ===== *)
(** * Logging: one line per statement

    Models [muduo::Logger] and its macros of [logging/Logging.h] and
    [Logging.cc]: which statements are enabled, what a line consists of, the
    time text that each thread caches for a second, and the abort after a
    fatal line.  The clock, [errno], what [strerror_r] says of it, and the
    thread id come with the statement; lines are built in the [LogStream] of
    [LogStream.v]. *)
From S2P Require Import Prelude CFormat Date TimeZone Timestamp LogStream LogFile.
From Stdlib Require Import Strings.Byte.

Inductive LogLevel := TRACE | DEBUG | INFO | WARN | ERROR | FATAL.

Definition level_number (l : LogLevel) : Z :=
  match l with TRACE => 0 | DEBUG => 1 | INFO => 2 | WARN => 3 | ERROR => 4 | FATAL => 5 end.
#[export] Instance LogLevel_eq_dec : EqDecision LogLevel.
Proof. solve_decision. Defined.

Definition LogLevelName (l : LogLevel) : list byte :=
  bs (match l with
      | TRACE => "TRACE " | DEBUG => "DEBUG " | INFO => "INFO  " | WARN => "WARN  " | ERROR => "ERROR " | FATAL => "FATAL "
      end).

(** [initLogLevel], given whether [MUDUO_LOG_TRACE] is in the environment. *)
Definition initLogLevel (trace : bool) : LogLevel := if trace then TRACE else DEBUG.

(** [strrchr(fullname_, '/')], and the name after it. *)
Fixpoint after_last (c : byte) (s : list byte) : option (list byte) :=
  match s with
  | [] => None
  | b :: s' => match after_last c s' with
               | Some r => Some r
               | None => if bool_decide (b = c) then Some s' else None
               end
  end.
Definition basename (fullname : list byte) : list byte := default fullname (after_last x2f fullname).

(** The macros; a [LOG_SYS...] statement appends the error of [errno]. *)
Inductive macro := LOG_TRACE | LOG_DEBUG | LOG_INFO | LOG_WARN | LOG_ERROR | LOG_FATAL | LOG_SYSERR | LOG_SYSFATAL.

Definition enabled (g_logLevel : LogLevel) (m : macro) : bool :=
  match m with
  | LOG_TRACE => level_number g_logLevel <=? level_number TRACE
  | LOG_DEBUG => level_number g_logLevel <=? level_number DEBUG
  | LOG_INFO => level_number g_logLevel <=? level_number INFO
  | _ => true
  end.
Definition macro_level (m : macro) : LogLevel :=
  match m with
  | LOG_TRACE => TRACE | LOG_DEBUG => DEBUG | LOG_INFO => INFO | LOG_WARN => WARN
  | LOG_ERROR | LOG_SYSERR => ERROR | LOG_FATAL | LOG_SYSFATAL => FATAL
  end.

Record statement := mkStatement {
  st_macro : macro;
  st_file : list byte;
  st_line : Z;
  st_func : list byte;
  st_time : Z;
  st_errno : Z;
  st_strerror : list byte;
  st_tid : Z;
  st_items : list item;
}.

(** [t_time] and [t_lastSecond] of a thread. *)
Record tls := mkTls { t_time : list byte; t_lastSecond : Z }.
Definition new_tls : tls := mkTls [] 0.

Section logger.
Context `{TimeLib}.

(** ["%4d%02d%02d %02d:%02d:%02d"]. *)
Definition time_text (seconds : Z) : outcome (list byte) :=
  let tm_time := gmtime_r seconds in
  _ ← ints [tm_year tm_time + 1900; tm_mon tm_time + 1];
  Ok (fmt_d 4 (tm_year tm_time + 1900) ++ fmt_0d 2 (tm_mon tm_time + 1) ++ fmt_0d 2 (tm_mday tm_time) ++ bs " " ++
      fmt_0d 2 (tm_hour tm_time) ++ bs ":" ++ fmt_0d 2 (tm_min tm_time) ++ bs ":" ++ fmt_0d 2 (tm_sec tm_time)).

Definition formatTime (time_ : Timestamp) (t : tls) (b : FixedBuffer) : outcome (tls * FixedBuffer) :=
  let seconds := Z.quot (microSecondsSinceEpoch_ time_) 1000000 in
  let microseconds := i32 (Z.rem (microSecondsSinceEpoch_ time_) 1000000) in
  t ← (if negb (seconds =? t_lastSecond t) then
         s ← time_text seconds;
         _ ← assert_ (zlen s =? 17);
         Ok (mkTls (snprintf 32 s) seconds)
       else Ok t);
  '(us, len) ← new_Fmt (bs "." ++ fmt_0d 6 microseconds ++ bs "Z ");
  _ ← assert_ (len =? 9);
  b ← put b (TStr (t_time t) 17);
  b ← put b (TStr us 9);
  Ok (t, b).

(** The constructor of [Impl]. *)
Definition new_Impl (level : LogLevel) (savedErrno : Z) (s : statement) (t : tls) : outcome (tls * FixedBuffer) :=
  '(t, b) ← formatTime (mkTimestamp (st_time s)) t LogStream;
  '(tid, len) ← new_Fmt (fmt_d 5 (st_tid s) ++ bs " ");
  b ← put b (TStr tid len);
  b ← put b (TStr (LogLevelName level) 6);
  b ← (if negb (savedErrno =? 0) then foldM put b [CStr (st_strerror s); CStr (bs " (errno="); Int savedErrno; CStr (bs ") ")]
       else Ok b);
  Ok (t, b).

Definition finish (s : statement) (b : FixedBuffer) : outcome FixedBuffer :=
  foldM put b [CStr (bs " - "); CStr (basename (st_file s)); Char x3a; Int (st_line s); Char x0a].

(** A [Logger] lives for one statement: constructor, the items of the
    statement, destructor.  The line is passed to [g_output]. *)
Definition log (s : statement) (t : tls) : outcome (tls * list byte) :=
  let level := macro_level (st_macro s) in
  let savedErrno := match st_macro s with LOG_SYSERR | LOG_SYSFATAL => st_errno s | _ => 0 end in
  '(t, b) ← new_Impl level savedErrno s t;
  b ← match st_macro s with LOG_TRACE | LOG_DEBUG => foldM put b [CStr (st_func s); Char x20] | _ => Ok b end;
  b ← foldM put b (st_items s);
  b ← finish s b;
  Ok (t, asString b).

(** The statements of a thread: the lines passed to [g_output], and whether
    the program aborted. *)
Fixpoint run_statements (g_logLevel : LogLevel) (t : tls) (l : list statement) : outcome (list (list byte) * bool) :=
  match l with
  | [] => Ok ([], false)
  | s :: l =>
      if enabled g_logLevel (st_macro s) then
        '(t, line) ← log s t;
        if bool_decide (macro_level (st_macro s) = FATAL) then Ok ([line], true)
        else '(lines, aborted) ← run_statements g_logLevel t l; Ok (line :: lines, aborted)
      else run_statements g_logLevel t l
  end.

(** ** Specification *)

(** What a line consists of. *)
Definition spec_items (s : statement) : list item :=
  let seconds := Z.quot (st_time s) 1000000 in
  [Str (default [] (match time_text seconds with Ok x => Some x | Fail _ => None end));
   Str (bs "." ++ fmt_0d 6 (Z.rem (st_time s) 1000000) ++ bs "Z ");
   Str (fmt_d 5 (st_tid s) ++ bs " "); Str (LogLevelName (macro_level (st_macro s)))] ++
  match st_macro s with
  | LOG_SYSERR | LOG_SYSFATAL =>
      if negb (st_errno s =? 0) then [CStr (st_strerror s); CStr (bs " (errno="); Int (st_errno s); CStr (bs ") ")] else []
  | LOG_TRACE | LOG_DEBUG => [CStr (st_func s); Char x20]
  | _ => []
  end ++
  st_items s ++ [CStr (bs " - "); CStr (basename (st_file s)); Char x3a; Int (st_line s); Char x0a].

Definition spec_line (s : statement) : list byte := foldl (spec_put kSmallBuffer) [] (spec_items s).

Fixpoint spec_run (g_logLevel : LogLevel) (l : list statement) : list (list byte) * bool :=
  match l with
  | [] => ([], false)
  | s :: l =>
      if enabled g_logLevel (st_macro s) then
        if bool_decide (macro_level (st_macro s) = FATAL) then ([spec_line s], true)
        else let '(lines, aborted) := spec_run g_logLevel l in (spec_line s :: lines, aborted)
      else spec_run g_logLevel l
  end.
End logger.

(** ** Lemmas *)
Section lemmas.
Context {HT : TimeLib} {HG : GmtimeRange}.

Record statement_ok (s : statement) : Prop := {
  ok_time : 1000000 <= st_time s < 253402300800 * 1000000;
  ok_line : - 2 ^ 31 <= st_line s < 2 ^ 31;
  ok_errno : - 2 ^ 31 <= st_errno s < 2 ^ 31;
  ok_tid : 0 <= st_tid s < 10 ^ 10;
  ok_file : zlen (st_file s) < 2 ^ 31;
  ok_func : zlen (st_func s) < 2 ^ 31;
  ok_strerror : zlen (st_strerror s) < 2 ^ 31;
  ok_items : forallb valid (st_items s) = true;
}.

(** The cached text is the text of the cached second. *)
Definition tls_ok (t : tls) : Prop := t_lastSecond t = 0 \/ time_text (t_lastSecond t) = Ok (t_time t).

Lemma time_text_ok t : four_digit_years t -> exists s, time_text t = Ok s /\ zlen s = 17.
Proof.
  intros Ht. destruct (gmtime_range t Ht) as (Hy & Hmo & Hd & Hh & Hmi & Hs). unfold time_text.
  rewrite ints_ok by (repeat (constructor; [lia|]); constructor). cbn [mbind outcome_bind]. eexists. split; [done|].
  destruct (fmt_d_field 3 (tm_year (gmtime_r t) + 1900)) as [Ly _]; [change (10 ^ Z.of_nat 3) with 1000; change (10 ^ Z.of_nat 4) with 10000; lia|].
  assert (forall z, 0 <= z < 100 -> zlen (fmt_0d 2 z) = 2) as H2.
  { intros z Hz. destruct (fmt_0d_field 2 z) as (L & _); [lia|done|]. unfold zlen. by rewrite L. }
  rewrite !zlen_app, !H2 by lia. unfold zlen. rewrite Ly. done.
Qed.

Lemma after_last_length c s r : after_last c s = Some r -> zlen r <= zlen s.
Proof.
  induction s as [|b s IH] in r |- *; [done|]. cbn. rewrite zlen_cons. destruct (after_last c s) as [r'|].
  - intros [= <-]. specialize (IH r' eq_refl). lia.
  - case_bool_decide; [|done]. intros [= <-]. lia.
Qed.
Lemma basename_length s : zlen (basename s) <= zlen s.
Proof. unfold basename. destruct (after_last x2f s) eqn:E; cbn; [by eapply after_last_length|lia]. Qed.

(** A put in a chain: the items [l] so far are in the buffer. *)
Definition holds_items (l : list item) (b : FixedBuffer) : Prop := rep kSmallBuffer b (foldl (spec_put kSmallBuffer) [] l).

Lemma put_holds l b x y :
  holds_items l b -> valid x = true -> text x = text y -> in_place x = in_place y ->
  exists b', put b x = Ok b' /\ holds_items (l ++ [y]) b'.
Proof.
  intros Hb Hx Et Ep. destruct (put_rep kSmallBuffer b _ x Hb Hx) as (b' & E & Hb'). exists b'. split; [done|].
  unfold holds_items. rewrite foldl_app. cbn. replace (spec_put kSmallBuffer (foldl (spec_put kSmallBuffer) [] l) y)
    with (spec_put kSmallBuffer (foldl (spec_put kSmallBuffer) [] l) x); [done|]. unfold spec_put, fits. by rewrite Et, Ep.
Qed.

Lemma puts_hold l b xs : holds_items l b -> forallb valid xs = true -> exists b', foldM put b xs = Ok b' /\ holds_items (l ++ xs) b'.
Proof.
  intros Hb Hx. destruct (puts_rep kSmallBuffer xs b _ Hb Hx) as (b' & E & Hb'). exists b'. split; [done|]. unfold holds_items. by rewrite foldl_app.
Qed.

Lemma new_Fmt_short s : zlen s < 32 -> new_Fmt s = Ok (s, zlen s).
Proof.
  intros Hs. unfold new_Fmt. rewrite (proj2 (Z.ltb_lt _ _)) by done. cbn. unfold snprintf. rewrite take_ge; [done|].
  unfold zlen in Hs. lia.
Qed.

Lemma udec_zlen z k : 0 <= z < 10 ^ Z.of_nat k -> (0 < k)%nat -> zlen (udec z) <= Z.of_nat k.
Proof. intros Hz Hk. pose proof (udec_length z k Hz Hk). unfold zlen. lia. Qed.

Lemma formatTime_spec us t :
  1000000 <= us < 253402300800 * 1000000 -> tls_ok t ->
  exists t' b txt, formatTime (mkTimestamp us) t LogStream = Ok (t', b) /\ tls_ok t' /\ time_text (Z.quot us 1000000) = Ok txt /\
    holds_items [Str txt; Str (bs "." ++ fmt_0d 6 (Z.rem us 1000000) ++ bs "Z ")] b.
Proof.
  intros Hus Ht. unfold formatTime. cbn [microSecondsSinceEpoch_]. set (sec := Z.quot us 1000000).
  assert (0 < sec /\ four_digit_years sec) as [Hsec H4] by (unfold four_digit_years, sec; dlia).
  assert (0 <= Z.rem us 1000000 < 10 ^ Z.of_nat 6) as Hrem by (change (10 ^ Z.of_nat 6) with 1000000; dlia).
  change (10 ^ Z.of_nat 6) with 1000000 in Hrem.
  destruct (time_text_ok sec H4) as (txt & Etxt & Hlen).
  set (get := if negb (sec =? t_lastSecond t) then _ else _).
  assert (get = Ok (mkTls txt sec)) as ->.
  { subst get. destruct (Z.eqb_spec sec (t_lastSecond t)) as [E|E]; cbn [negb].
    - destruct Ht as [H0|H0]; [lia|]. rewrite <- E, Etxt in H0. injection H0 as ->. rewrite E. by destruct t.
    - rewrite Etxt. cbn [mbind outcome_bind]. rewrite Hlen. cbn. unfold snprintf. rewrite take_ge; [done|]. unfold zlen in Hlen. lia. }
  cbn [mbind outcome_bind t_time]. rewrite (wraps_small 32) by (cbn; lia).
  destruct (fmt_0d_field 6 (Z.rem us 1000000)) as (L6 & _); [lia|done|].
  assert (zlen (bs "." ++ fmt_0d 6 (Z.rem us 1000000) ++ bs "Z ") = 9) as H9 by (rewrite !zlen_app; unfold zlen at 2; rewrite L6; done).
  rewrite new_Fmt_short by (rewrite H9; lia). cbn [mbind outcome_bind]. rewrite H9. cbn [Z.eqb assert_ mbind outcome_bind Pos.eqb].
  destruct (put_holds [] LogStream (TStr txt 17) (Str txt)) as (b1 & -> & Hb1); [apply (new_FixedBuffer_rep kSmallBuffer); done| |done|done|].
  { cbn. rewrite Hlen. done. }
  cbn [mbind outcome_bind]. set (us9 := bs "." ++ _) in *. clearbody us9.
  destruct (put_holds _ b1 (TStr us9 9) (Str us9) Hb1) as (b2 & -> & Hb2); [|done|done|].
  { cbn. rewrite H9. done. }
  cbn [mbind outcome_bind]. exists (mkTls txt sec), b2, txt. split_and!; try done. by right.
Qed.

Lemma log_spec s t :
  statement_ok s -> tls_ok t -> exists t', log s t = Ok (t', spec_line s) /\ tls_ok t'.
Proof.
  intros [Htime Hline Herr Htid Hfile Hfunc Hstr Hitems] Ht. unfold log, new_Impl.
  destruct (formatTime_spec (st_time s) t Htime Ht) as (t' & b1 & txt & -> & Ht' & Etxt & Hb1). cbn [mbind outcome_bind].
  assert (zlen (fmt_d 5 (st_tid s) ++ bs " ") < 32) as Htl.
  { rewrite zlen_app, fmt_d_nonneg by lia. unfold pad. rewrite zlen_app. pose proof (udec_zlen (st_tid s) 10 Htid ltac:(lia)).
    assert (zlen (replicate (5 - length (udec (st_tid s))) x20) <= 5) by (unfold zlen; rewrite length_replicate; lia).
    change (zlen (bs " ")) with 1. lia. }
  rewrite new_Fmt_short by done. cbn [mbind outcome_bind]. set (tid := fmt_d 5 _ ++ _) in *.
  destruct (put_holds _ b1 (TStr tid (zlen tid)) (Str tid) Hb1) as (b2 & -> & Hb2); [|done|done|].
  { unfold valid. rewrite Z.eqb_refl. apply Z.ltb_lt. lia. }
  cbn [mbind outcome_bind].
  destruct (put_holds _ b2 (TStr (LogLevelName (macro_level (st_macro s))) 6) (Str (LogLevelName (macro_level (st_macro s)))) Hb2)
    as (b3 & -> & Hb3); [by destruct (st_macro s)|done|done|].
  cbn [mbind outcome_bind]. cbn [app] in Hb3.
  set (front := [Str txt; _; _; _]) in Hb3.
  set (extra := match st_macro s with
    | LOG_SYSERR | LOG_SYSFATAL => if negb (st_errno s =? 0) then [CStr (st_strerror s); CStr (bs " (errno="); Int (st_errno s); CStr (bs ") ")] else []
    | LOG_TRACE | LOG_DEBUG => [CStr (st_func s); Char x20]
    | _ => [] end).
  assert (spec_line s = foldl (spec_put kSmallBuffer) [] ((front ++ extra) ++ st_items s ++ [CStr (bs " - "); CStr (basename (st_file s)); Char x3a; Int (st_line s); Char x0a])) as ->.
  { unfold spec_line, spec_items. rewrite Etxt. cbn [default]. rewrite <- app_assoc. done. }
  assert (forallb valid [CStr (st_func s); Char x20] = true) as Hv1.
  { cbn. rewrite (proj2 (Z.ltb_lt _ _)) by done. done. }
  assert (forallb valid [CStr (st_strerror s); CStr (bs " (errno="); Int (st_errno s); CStr (bs ") ")] = true) as Hv2.
  { unfold forallb, valid. rewrite (proj2 (Z.ltb_lt _ _)) by done. rewrite (proj2 (Z.leb_le _ _)) by lia. rewrite (proj2 (Z.ltb_lt (st_errno s) _)) by lia. done. }
  assert (exists b4, (b ← (if negb (match st_macro s with LOG_SYSERR | LOG_SYSFATAL => st_errno s | _ => 0 end =? 0) then
      foldM put b3 [CStr (st_strerror s); CStr (bs " (errno="); Int (match st_macro s with LOG_SYSERR | LOG_SYSFATAL => st_errno s | _ => 0 end); CStr (bs ") ")] else Ok b3);
      match st_macro s with LOG_TRACE | LOG_DEBUG => foldM put b [CStr (st_func s); Char x20] | _ => Ok b end) = Ok b4 /\ holds_items (front ++ extra) b4) as (b4 & E4 & Hb4).
  { subst extra. destruct (st_macro s); cbn [Z.eqb negb mbind outcome_bind]; try (exists b3; rewrite app_nil_r; done); try (by apply puts_hold).
    - destruct (Z.eqb_spec (st_errno s) 0); cbn [negb]; [exists b3; rewrite app_nil_r; done|].
      destruct (puts_hold front b3 _ Hb3 Hv2) as (b & -> & Hb). by exists b.
    - destruct (Z.eqb_spec (st_errno s) 0); cbn [negb]; [exists b3; rewrite app_nil_r; done|].
      destruct (puts_hold front b3 _ Hb3 Hv2) as (b & -> & Hb). by exists b. }
  apply bind_ok in E4 as (b & -> & E4). cbn [mbind outcome_bind]. rewrite E4. cbn [mbind outcome_bind].
  destruct (puts_hold _ b4 (st_items s) Hb4 Hitems) as (b5 & -> & Hb5). cbn [mbind outcome_bind]. unfold finish.
  destruct (puts_hold _ b5 [CStr (bs " - "); CStr (basename (st_file s)); Char x3a; Int (st_line s); Char x0a] Hb5) as (b6 & -> & Hb6).
  { pose proof (basename_length (st_file s)). unfold forallb, valid. rewrite (proj2 (Z.ltb_lt (zlen (basename _)) _)) by lia.
    rewrite (proj2 (Z.leb_le _ _)) by lia. rewrite (proj2 (Z.ltb_lt (st_line s) _)) by lia. done. }
  cbn [mbind outcome_bind]. exists t'. split; [|done]. do 2 f_equal. rewrite <- app_assoc in Hb6. exact (rep_text _ _ _ Hb6).
Qed.

Lemma run_spec g l t : Forall statement_ok l -> tls_ok t -> run_statements g t l = Ok (spec_run g l).
Proof.
  induction l as [|s l IH] in t |- *; intros Hl Ht; [done|]. apply Forall_cons in Hl as [Hs Hl]. cbn [run_statements spec_run].
  destruct (enabled g (st_macro s)); [|by apply IH]. destruct (log_spec s t Hs Ht) as (t' & -> & Ht'). cbn [mbind outcome_bind].
  case_bool_decide; [done|]. rewrite (IH t' Hl Ht'). cbn. by destruct (spec_run g l).
Qed.
End lemmas.

(** ** Properties *)

(** C28: the statements of a thread, in any number and at any times (of a
    year of four digits) pass to [g_output] exactly the lines of the
    specification, in which nothing is cached: one for each statement that
    is enabled, up to the first fatal one, after which the program aborts;
    no assertion fails; and a line that leaves 64 bytes of the buffer free
    is the text of all its parts. *)
Theorem logger_lines `{TimeLib} `{!GmtimeRange} g l :
  Forall statement_ok l ->
  run_statements g new_tls l = Ok (spec_run g l) /\
  forall s, s ∈ l -> sum_of (fun x => zlen (text x)) (spec_items s) + kMaxNumericSize <= kSmallBuffer ->
    spec_line s = concat (text <$> spec_items s).
Proof.
  intros Hl. split; [apply run_spec; [done|by left]|]. intros s _ Hs.
  apply (spec_puts_all kSmallBuffer (spec_items s) []). change (zlen (@nil byte)) with 0. lia.
Qed.

Definition log_example : list statement :=
  [mkStatement LOG_INFO (bs "src/main.cc") 12 (bs "main") 1700000000123456 0 [] 77 [CStr (bs "fd "); Int 5];
   mkStatement LOG_TRACE (bs "src/main.cc") 13 (bs "main") 1700000000123456 0 [] 77 [];
   mkStatement LOG_SYSFATAL (bs "main.cc") 14 (bs "main") 1700000000999999 2 (bs "No such file") 77 [CStr (bs "open")]].

Lemma logger_lines_witness :
  run_statements DEBUG new_tls log_example =
    Ok ([bs "20231114 22:13:20.123456Z    77 INFO  fd 5 - main.cc:12" ++ [x0a];
         bs "20231114 22:13:20.999999Z    77 FATAL No such file (errno=2) open - main.cc:14" ++ [x0a]], true).
Proof.
  destruct (logger_lines DEBUG log_example) as [-> _]; [|vm_compute; reflexivity].
  repeat (apply Forall_cons; split; [constructor; vm_compute; (reflexivity || (split; (reflexivity || discriminate)))|]). constructor.
Defined.
