(* ===== verification/Vector.v ===== *)
(** * Vector: [std::vector] by index

    [operator[]] on a [std::vector]: an access out of range is undefined.
    [vat] reads where the index is known to be in range; the lemmas about
    the ordering and the rearrangement of arrays that the sorts and the heaps
    share are here too. *)
From S2P Require Import Prelude.
From Stdlib Require Import Permutation.

Section vector.
Context {A : Type} `{!Inhabited A}.

Definition in_range (v : list A) (i : Z) : bool := (0 <=? i) && (i <? zlen v).
Definition vat (v : list A) (i : Z) : A := v !!! Z.to_nat i.
Definition vupd (v : list A) (i : Z) (x : A) : list A := <[Z.to_nat i := x]> v.

Definition vget (v : list A) (i : Z) : outcome A := _ ← defined_ (in_range v i); Ok (vat v i).
Definition vset (v : list A) (i : Z) (x : A) : outcome (list A) := _ ← defined_ (in_range v i); Ok (vupd v i x).

(** [std::swap(v[i], v[j])]. *)
Definition vswap (v : list A) (i j : Z) : outcome (list A) :=
  x ← vget v i; y ← vget v j; v ← vset v i y; vset v j x.
Definition swapped (v : list A) (i j : Z) : list A := vupd (vupd v i (vat v j)) j (vat v i).

Implicit Types v : list A.

Lemma in_range_spec v i : in_range v i = true <-> 0 <= i < zlen v.
Proof. unfold in_range. rewrite andb_true_iff, Z.leb_le, Z.ltb_lt. done. Qed.

Lemma vget_ok v i : 0 <= i < zlen v -> vget v i = Ok (vat v i).
Proof. intros Hi. unfold vget. by rewrite (proj2 (in_range_spec v i) Hi). Qed.
Lemma vset_ok v i x : 0 <= i < zlen v -> vset v i x = Ok (vupd v i x).
Proof. intros Hi. unfold vset. by rewrite (proj2 (in_range_spec v i) Hi). Qed.

Lemma zlen_vupd v i x : zlen (vupd v i x) = zlen v.
Proof. unfold zlen, vupd. by rewrite length_insert. Qed.
Lemma vat_vupd v i x k : 0 <= i < zlen v -> 0 <= k -> vat (vupd v i x) k = if decide (k = i) then x else vat v k.
Proof.
  intros Hi Hk. unfold vat, vupd. destruct (decide (k = i)) as [->|Hne].
  - apply list_lookup_total_insert_eq. unfold zlen in Hi. lia.
  - apply list_lookup_total_insert_ne. lia.
Qed.
Lemma vat_vupd_eq v i x : 0 <= i < zlen v -> vat (vupd v i x) i = x.
Proof. intros Hi. rewrite vat_vupd by lia. by rewrite decide_True. Qed.
Lemma vat_vupd_ne v i x k : i <> k -> 0 <= i -> 0 <= k -> vat (vupd v i x) k = vat v k.
Proof. intros. unfold vat, vupd. apply list_lookup_total_insert_ne. lia. Qed.
Lemma vupd_same v i : 0 <= i < zlen v -> vupd v i (vat v i) = v.
Proof.
  intros Hi. unfold vupd, vat. apply list_insert_id. unfold zlen in Hi. apply list_lookup_lookup_total_lt. lia.
Qed.
Lemma vupd_vupd v i x y : vupd (vupd v i x) i y = vupd v i y.
Proof. unfold vupd. apply list_insert_insert_eq. Qed.

Lemma zlen_swapped v i j : zlen (swapped v i j) = zlen v.
Proof. unfold swapped. by rewrite !zlen_vupd. Qed.
Lemma vswap_ok v i j : 0 <= i < zlen v -> 0 <= j < zlen v -> vswap v i j = Ok (swapped v i j).
Proof.
  intros Hi Hj. unfold vswap. rewrite !vget_ok by done. cbn. rewrite vset_ok by done. cbn.
  by rewrite vset_ok by (by rewrite zlen_vupd).
Qed.
Lemma vat_swapped v i j k :
  0 <= i < zlen v -> 0 <= j < zlen v -> 0 <= k ->
  vat (swapped v i j) k = if decide (k = j) then vat v i else if decide (k = i) then vat v j else vat v k.
Proof.
  intros. unfold swapped. rewrite vat_vupd by (by rewrite ?zlen_vupd). by rewrite vat_vupd by done.
Qed.

Lemma vat_list v i : 0 <= i < zlen v -> v !! Z.to_nat i = Some (vat v i).
Proof. intros Hi. unfold vat. apply list_lookup_lookup_total_lt. unfold zlen in Hi. lia. Qed.

Lemma vat_ext v v' : zlen v = zlen v' -> (forall i, 0 <= i < zlen v -> vat v i = vat v' i) -> v = v'.
Proof.
  intros Hl H. apply list_eq_same_length with (length v); [unfold zlen in Hl; lia|done|].
  intros i x y Hi Hx Hy. specialize (H (Z.of_nat i) ltac:(unfold zlen; lia)). unfold vat in H. rewrite Nat2Z.id in H.
  rewrite (list_lookup_total_correct _ _ _ Hx), (list_lookup_total_correct _ _ _ Hy) in H. done.
Qed.

Lemma vat_cons x v k : 0 <= k -> vat (x :: v) k = if decide (k = 0) then x else vat v (k - 1).
Proof.
  intros Hk. unfold vat. destruct (decide (k = 0)) as [->|Hne]; [done|].
  replace (Z.to_nat k) with (S (Z.to_nat (k - 1))) by lia. done.
Qed.
Lemma vat_app v v' k : 0 <= k -> vat (v ++ v') k = if decide (k < zlen v) then vat v k else vat v' (k - zlen v).
Proof.
  intros Hk. unfold vat, zlen. destruct (decide (k < Z.of_nat (length v))).
  - apply lookup_total_app_l. lia.
  - rewrite lookup_total_app_r by lia. f_equal. lia.
Qed.

Lemma slice_ext v v' a b :
  0 <= a <= b -> b <= zlen v -> zlen v' = zlen v -> (forall k, a <= k < b -> vat v' k = vat v k) -> slice v' a b = slice v a b.
Proof.
  intros Ha Hb Hl Hk. apply vat_ext; [rewrite !zlen_slice by lia; done|]. intros i Hi. rewrite zlen_slice in Hi by lia.
  unfold vat, slice. rewrite !list_lookup_total_alt, !lookup_take_lt, !lookup_drop by lia.
  rewrite <- !list_lookup_total_alt. specialize (Hk (a + i) ltac:(lia)). unfold vat in Hk.
  by replace (Z.to_nat (a + i)) with (Z.to_nat a + Z.to_nat i)%nat in Hk by lia.
Qed.

(** ** Rearrangements *)

Lemma insert_permutation (l : list A) i x y : l !! i = Some x -> y :: l ≡ₚ x :: <[i := y]> l.
Proof.
  intros Hi. rewrite (insert_take_drop l i y) by (by apply lookup_lt_Some in Hi).
  rewrite <- (take_drop_middle l i x Hi) at 1.
  rewrite <- !Permutation_middle. apply perm_swap.
Qed.

Lemma vupd_permutation v i y : 0 <= i < zlen v -> y :: v ≡ₚ vat v i :: vupd v i y.
Proof. intros Hi. by apply insert_permutation, vat_list. Qed.

Lemma swapped_permutation v i j : 0 <= i < zlen v -> 0 <= j < zlen v -> swapped v i j ≡ₚ v.
Proof.
  intros Hi Hj. unfold swapped.
  destruct (decide (i = j)) as [->|Hne].
  { rewrite vupd_vupd, vupd_same by done. done. }
  pose proof (vupd_permutation v i (vat v j) Hi) as H1.
  pose proof (vupd_permutation (vupd v i (vat v j)) j (vat v i) ltac:(by rewrite zlen_vupd)) as H2.
  rewrite vat_vupd_ne in H2 by lia.
  apply (Permutation_cons_inv (a := vat v j)). rewrite <- H2, <- H1. done.
Qed.

Lemma zlen_permutation v v' : v ≡ₚ v' -> zlen v = zlen v'.
Proof. intros Hp. unfold zlen. by rewrite Hp. Qed.

(** [v'] rearranges the elements of [v] in [[lo, hi]] only. *)
Definition rearranges (lo hi : Z) (v v' : list A) : Prop :=
  v' ≡ₚ v /\ forall k, 0 <= k < lo \/ hi < k < zlen v -> vat v' k = vat v k.

Lemma rearranges_refl lo hi v : rearranges lo hi v v.
Proof. by split. Qed.
Lemma rearranges_trans lo hi v1 v2 v3 : rearranges lo hi v1 v2 -> rearranges lo hi v2 v3 -> rearranges lo hi v1 v3.
Proof.
  intros [P1 E1] [P2 E2]. split; [by rewrite P2|]. intros k Hk. rewrite E2, E1; [done|done|].
  by rewrite (zlen_permutation _ _ P1).
Qed.
Lemma rearranges_mono lo hi lo' hi' v v' : lo' <= lo -> hi <= hi' -> rearranges lo hi v v' -> rearranges lo' hi' v v'.
Proof. intros ? ? [P E]. split; [done|]. intros k Hk. apply E. lia. Qed.
Lemma rearranges_zlen lo hi v v' : rearranges lo hi v v' -> zlen v' = zlen v.
Proof. intros [P _]. by apply zlen_permutation. Qed.
Lemma rearranges_swap lo hi v i j :
  0 <= lo <= i -> i <= hi < zlen v -> lo <= j <= hi -> rearranges lo hi v (swapped v i j).
Proof.
  intros. split; [apply swapped_permutation; lia|]. intros k Hk. rewrite vat_swapped by lia.
  rewrite !decide_False by lia. done.
Qed.

(** Elements of a range that is rearranged were in that range. *)
Lemma rearranges_slice lo hi v v' :
  0 <= lo -> lo <= hi + 1 <= zlen v -> rearranges lo hi v v' -> slice v' lo (hi + 1) ≡ₚ slice v lo (hi + 1).
Proof.
  intros Hlo Hhi [P E]. pose proof (zlen_permutation _ _ P) as Hl.
  assert (forall w : list A, zlen w = zlen v -> w = slice w 0 lo ++ slice w lo (hi + 1) ++ slice w (hi + 1) (zlen v)) as Hsplit.
  { intros w Hw. rewrite !slice_app by lia. rewrite <- Hw. by rewrite slice_full. }
  assert (slice v' 0 lo ++ slice v' lo (hi + 1) ++ slice v' (hi + 1) (zlen v) ≡ₚ
          slice v 0 lo ++ slice v lo (hi + 1) ++ slice v (hi + 1) (zlen v)) as P'
    by (rewrite <- (Hsplit v' Hl), <- (Hsplit v eq_refl); exact P).
  rewrite (slice_ext v v' 0 lo), (slice_ext v v' (hi + 1) (zlen v)) in P'; [|lia|lia|lia|intros; apply E; lia|lia|lia|lia|intros; apply E; lia].
  apply Permutation_app_inv_l in P'. by apply Permutation_app_inv_r in P'.
Qed.
End vector.
