(* ===== verification/SegmentTree.v ===== *)
(** * SegmentTree: range sums and range maxima

    Models [SegmentTree] of [datastruct/segment_tree.cpp] and
    [MaxSegmentTree] of [datastruct/max_segment_tree.cpp]: the same recursion
    over an array of [4 n] [int]s with two different operations.  An addition
    that leaves [int] is undefined.  The recursion carries fuel: the number
    of elements, more than its depth. *)
From S2P Require Import Prelude Vector.

Section tree.
(** The operation of a node on its children, and the answer for a range that
    is not met. *)
Context (combine : Z -> Z -> outcome Z) (unit_ : Z).

Fixpoint build (fuel : nat) (nums : list Z) (node start end_ : Z) (tree : list Z) : outcome (list Z) :=
  match fuel with
  | O => Fail Undefined
  | S fuel =>
      if start =? end_ then x ← vget nums start; vset tree node x
      else
        let mid := (start + end_) ÷ 2 in
        tree ← build fuel nums (2 * node + 1) start mid tree;
        tree ← build fuel nums (2 * node + 2) (mid + 1) end_ tree;
        l ← vget tree (2 * node + 1);
        r ← vget tree (2 * node + 2);
        x ← combine l r;
        vset tree node x
  end.

Fixpoint update (fuel : nat) (node start end_ idx val : Z) (tree : list Z) : outcome (list Z) :=
  match fuel with
  | O => Fail Undefined
  | S fuel =>
      if start =? end_ then vset tree node val
      else
        let mid := (start + end_) ÷ 2 in
        tree ← (if idx <=? mid then update fuel (2 * node + 1) start mid idx val tree
                else update fuel (2 * node + 2) (mid + 1) end_ idx val tree);
        l ← vget tree (2 * node + 1);
        r ← vget tree (2 * node + 2);
        x ← combine l r;
        vset tree node x
  end.

Fixpoint query (fuel : nat) (node start end_ l r : Z) (tree : list Z) : outcome Z :=
  match fuel with
  | O => Fail Undefined
  | S fuel =>
      if (r <? start) || (end_ <? l) then Ok unit_
      else if (l <=? start) && (end_ <=? r) then vget tree node
      else
        let mid := (start + end_) ÷ 2 in
        left ← query fuel (2 * node + 1) start mid l r tree;
        right ← query fuel (2 * node + 2) (mid + 1) end_ l r tree;
        combine left right
  end.

(** [tree] and [n]; the public members. *)
Record SegTree := mkSegTree { tree_ : list Z; n_ : Z }.

Definition new_SegTree (nums : list Z) : outcome SegTree :=
  let n := zlen nums in
  if n =? 0 then Ok (mkSegTree [] 0)
  else
    _ ← ints [n; 4 * n];
    tree ← build (length nums) nums 0 0 (n - 1) (replicate (Z.to_nat (4 * n)) unit_);
    Ok (mkSegTree tree n).

Definition update_at (index val : Z) (s : SegTree) : outcome SegTree :=
  tree ← update (Z.to_nat (n_ s)) 0 0 (n_ s - 1) index val (tree_ s); Ok (mkSegTree tree (n_ s)).

Definition query_range (l r : Z) (s : SegTree) : outcome Z :=
  query (Z.to_nat (n_ s)) 0 0 (n_ s - 1) l r (tree_ s).
End tree.

(** ** The two classes *)

Definition add_int (x y : Z) : outcome Z := _ ← ints [x + y]; Ok (x + y).
Definition max_int (x y : Z) : outcome Z := Ok (Z.max x y).
Definition INT_MIN : Z := - 2 ^ 31.

Definition SegmentTree_build := build add_int.
Definition SegmentTree_update := update add_int.
Definition SegmentTree_query := query add_int 0.
Definition SegmentTree := new_SegTree add_int 0.
Definition SegmentTree_update_at := update_at add_int.
Definition SegmentTree_query_range := query_range add_int 0.

Definition MaxSegmentTree_build := build max_int.
Definition MaxSegmentTree_update := update max_int.
Definition MaxSegmentTree_query := query max_int INT_MIN.
Definition MaxSegmentTree := new_SegTree max_int INT_MIN.
Definition MaxSegmentTree_update_at := update_at max_int.
Definition MaxSegmentTree_query_range := query_range max_int INT_MIN.

Example main_sums :
  (s ← SegmentTree [1; 3; 5; 7; 9; 11]; a ← SegmentTree_query_range 1 3 s; s ← SegmentTree_update_at 1 10 s;
   b ← SegmentTree_query_range 1 3 s; Ok (a, b)) = Ok (15, 22).
Proof. reflexivity. Qed.

(** ** Specification: an array *)

Section spec.
Context (f : Z -> Z -> Z) (unit_ : Z).

(** The elements of [[l, r]] combined. *)
Definition agg (nums : list Z) (l r : Z) : Z :=
  match slice nums l (r + 1) with [] => unit_ | x :: xs => fold_left f xs x end.

Inductive op := Update (index val : Z) | Query (l r : Z).

(** An index outside the array means its nearest end. *)
Definition clamp (lo hi i : Z) : Z := Z.max lo (Z.min hi i).
Definition spec_op (nums : list Z) (o : op) : list Z * list Z :=
  match o with
  | Update i v => (vupd nums (clamp 0 (zlen nums - 1) i) v, [])
  | Query l r => (nums, [agg nums (Z.max 0 l) (Z.min (zlen nums - 1) r)])
  end.
Fixpoint spec_ops (nums : list Z) (os : list op) : list Z * list Z :=
  match os with
  | [] => (nums, [])
  | o :: os => let '(nums, a) := spec_op nums o in let '(nums, b) := spec_ops nums os in (nums, a ++ b)
  end.

(** Every range of the array has a combined value that is an [int]. *)
Definition ranges_fit (nums : list Z) : Prop :=
  forall l r, 0 <= l <= r -> r < zlen nums -> in_int (agg nums l r) = true.
Fixpoint ops_fit (nums : list Z) (os : list op) : Prop :=
  ranges_fit nums /\ match os with [] => True | o :: os => ops_fit (spec_op nums o).1 os end.
End spec.

Section run.
Context (combine : Z -> Z -> outcome Z) (unit_ : Z).

Definition run_op (sa : SegTree * list Z) (o : op) : outcome (SegTree * list Z) :=
  let '(s, answers) := sa in
  match o with
  | Update i v => s ← update_at combine i v s; Ok (s, answers)
  | Query l r => a ← query_range combine unit_ l r s; Ok (s, answers ++ [a])
  end.
End run.

(** ** Lemmas: nodes

    [under node i]: [i] is in the subtree of [node]. *)
Definition under (node i : Z) : Prop := exists d, 0 <= d /\ (i + 1) / 2 ^ d = node + 1.

Lemma under_self node : under node node.
Proof. exists 0. split; [lia|]. by rewrite Z.pow_0_r, Z.div_1_r. Qed.

Lemma under_child node c i : c = 2 * node + 1 \/ c = 2 * node + 2 -> under c i -> under node i.
Proof.
  intros Hc (d & Hd & E). exists (d + 1). split; [lia|].
  rewrite Z.pow_add_r, <- Z.div_div by (try lia; apply Z.pow_nonzero; lia). rewrite E. change (2 ^ 1) with 2.
  destruct Hc as [-> | ->]; [replace (2 * node + 1 + 1) with ((node + 1) * 2) by lia; by rewrite Z.div_mul by lia|].
  replace (2 * node + 2 + 1) with (1 + (node + 1) * 2) by lia. rewrite Z.div_add by lia. done.
Qed.

Lemma div_pow_le a d : 0 <= a -> 0 <= d -> a / 2 ^ d <= a.
Proof.
  intros Ha Hd. pose proof (Z.pow_pos_nonneg 2 d ltac:(lia) Hd). apply Z.div_le_upper_bound; [lia|]. nia.
Qed.

Lemma not_under_child node c : 0 <= node -> c = 2 * node + 1 \/ c = 2 * node + 2 -> ~ under c node.
Proof. intros Hn Hc (d & Hd & E). pose proof (div_pow_le (node + 1) d ltac:(lia) Hd). lia. Qed.

Lemma siblings_disjoint node i : 0 <= node -> under (2 * node + 1) i -> under (2 * node + 2) i -> False.
Proof.
  intros Hn (d & Hd & E) (d' & Hd' & E').
  assert (forall a b, 0 <= a <= b -> (i + 1) / 2 ^ b = ((i + 1) / 2 ^ a) / 2 ^ (b - a)) as Hdiv.
  { intros a b Hab. rewrite Z.div_div by (try apply Z.pow_nonzero; try apply Z.pow_pos_nonneg; lia).
    rewrite <- Z.pow_add_r by lia. do 2 f_equal. lia. }
  assert (forall x, 0 < x -> 0 <= 2 * node + 2 -> (2 * node + 3) / 2 ^ x <= node + 1) as Hhalf.
  { intros x Hx _. replace x with (1 + (x - 1)) by lia. rewrite Z.pow_add_r, <- Z.div_div by (try apply Z.pow_pos_nonneg; lia).
    change (2 ^ 1) with 2. replace (2 * node + 3) with (1 + (node + 1) * 2) by lia. rewrite Z.div_add by lia. change (1 / 2 + (node + 1)) with (node + 1).
    apply div_pow_le; lia. }
  destruct (Z.lt_trichotomy d d') as [H|[->|H]].
  - rewrite (Hdiv d d') in E' by lia. rewrite E in E'.
    pose proof (Z.div_le_mono (2 * node + 1 + 1) (2 * node + 3) (2 ^ (d' - d)) ltac:(apply Z.pow_pos_nonneg; lia) ltac:(lia)).
    pose proof (Hhalf (d' - d) ltac:(lia) ltac:(lia)). lia.
  - lia.
  - rewrite (Hdiv d' d) in E by lia. rewrite E' in E. pose proof (Hhalf (d - d') ltac:(lia) ltac:(lia)).
    replace (2 * node + 2 + 1) with (2 * node + 3) in E by lia. lia.
Qed.

Lemma mid_bounds s e : 0 <= s < e -> s <= (s + e) ÷ 2 < e.
Proof. intros H. rewrite Z.quot_div_nonneg by lia. split; [apply Z.div_le_lower_bound|apply Z.div_lt_upper_bound]; lia. Qed.

(** Both halves of a segment of at most [2^(k+1)] elements have at most [2^k]. *)
Lemma mid_halves s e k : 0 <= s < e -> 0 <= k -> e - s + 1 <= 2 ^ (k + 1) -> (s + e) ÷ 2 - s + 1 <= 2 ^ k /\ e - ((s + e) ÷ 2 + 1) + 1 <= 2 ^ k.
Proof.
  intros H Hk Hle. rewrite Z.quot_div_nonneg by lia. rewrite Z.pow_add_r in Hle by lia. change (2 ^ 1) with 2 in Hle.
  pose proof (Z.div_mod (s + e) 2 ltac:(lia)). pose proof (Z.mod_pos_bound (s + e) 2 ltac:(lia)). lia.
Qed.

(** ** Lemmas: the tree of an array *)
Section lemmas.
Context (combine : Z -> Z -> outcome Z) (f : Z -> Z -> Z) (unit_ : Z).
Hypothesis f_assoc : forall x y z, f (f x y) z = f x (f y z).
Hypothesis f_unit : forall x, in_int x = true -> f unit_ x = x /\ f x unit_ = x.
Hypothesis unit_int : in_int unit_ = true.
Hypothesis combine_ok : forall x y, in_int x = true -> in_int y = true -> in_int (f x y) = true -> combine x y = Ok (f x y).

Abbreviation agg := (agg f unit_).
Abbreviation ranges_fit := (ranges_fit f unit_).

Lemma fold_left_start x y l : fold_left f l (f x y) = f x (fold_left f l y).
Proof. induction l as [|z l IH] in y |- *; cbn; [done|]. rewrite <- IH. by rewrite f_assoc. Qed.

Lemma agg_one nums i : 0 <= i < zlen nums -> agg nums i i = vat nums i.
Proof.
  intros Hi. unfold SegmentTree.agg. assert (slice nums i (i + 1) = [vat nums i]) as ->; [|done].
  unfold slice. replace (Z.to_nat (i + 1 - i)) with 1%nat by lia. rewrite (drop_S _ _ _ (vat_list nums i Hi)). done.
Qed.

Lemma agg_split nums l m r : 0 <= l <= m -> m < r -> r < zlen nums -> agg nums l r = f (agg nums l m) (agg nums (m + 1) r).
Proof.
  intros H1 H2 H3. unfold SegmentTree.agg. rewrite <- (slice_app nums l (m + 1) (r + 1)) by lia.
  pose proof (zlen_slice nums l (m + 1) ltac:(lia) ltac:(lia)) as Ha.
  pose proof (zlen_slice nums (m + 1) (r + 1) ltac:(lia) ltac:(lia)) as Hb.
  destruct (slice nums l (m + 1)) as [|x xs]; [unfold zlen in Ha; cbn in Ha; lia|].
  destruct (slice nums (m + 1) (r + 1)) as [|y ys]; [unfold zlen in Hb; cbn in Hb; lia|].
  cbn [app]. rewrite fold_left_app. cbn [fold_left]. by rewrite fold_left_start.
Qed.

(** [tree] holds the combined values of [nums] in the subtree of [node],
    which stands for [[s, e]]. *)
Inductive seg (tree nums : list Z) : Z -> Z -> Z -> Prop :=
| seg_leaf node s : 0 <= node < zlen tree -> vat tree node = agg nums s s -> seg tree nums node s s
| seg_node node s e :
    s < e -> 0 <= node < zlen tree -> vat tree node = agg nums s e ->
    seg tree nums (2 * node + 1) s ((s + e) ÷ 2) -> seg tree nums (2 * node + 2) ((s + e) ÷ 2 + 1) e ->
    seg tree nums node s e.

Lemma seg_root tree nums node s e : seg tree nums node s e -> 0 <= node < zlen tree /\ vat tree node = agg nums s e.
Proof. by intros []. Qed.

Lemma seg_frame tree tree' nums nums' node s e :
  seg tree nums node s e -> 0 <= s -> zlen tree' = zlen tree ->
  (forall i, 0 <= i -> under node i -> vat tree' i = vat tree i) ->
  (forall l r, s <= l <= r -> r <= e -> agg nums' l r = agg nums l r) -> seg tree' nums' node s e.
Proof.
  intros Hseg. induction Hseg as [node s Hn Hv|node s e Hse Hn Hv Hl IHl Hr IHr]; intros Hs Hlen Hsame Hagg.
  - apply seg_leaf; [lia|]. rewrite Hsame by (try apply under_self; lia). by rewrite Hagg by lia.
  - pose proof (mid_bounds s e ltac:(lia)) as Hm. apply seg_node; [done|lia| | |].
    + rewrite Hsame by (try apply under_self; lia). by rewrite Hagg by lia.
    + apply IHl; [lia|done| |intros; apply Hagg; lia]. intros i Hi Hu. apply Hsame; [done|]. eapply under_child; [|exact Hu]. by left.
    + apply IHr; [lia|done| |intros; apply Hagg; lia]. intros i Hi Hu. apply Hsame; [done|]. eapply under_child; [|exact Hu]. by right.
Qed.

(** Writing the root of a subtree whose halves are right. *)
Lemma seg_join tree nums node s e :
  0 <= node < zlen tree -> 0 <= s < e -> e < zlen nums -> ranges_fit nums ->
  seg tree nums (2 * node + 1) s ((s + e) ÷ 2) -> seg tree nums (2 * node + 2) ((s + e) ÷ 2 + 1) e ->
  exists tree', (l ← vget tree (2 * node + 1); r ← vget tree (2 * node + 2); x ← combine l r; vset tree node x) = Ok tree' /\
    zlen tree' = zlen tree /\ seg tree' nums node s e /\ (forall i, 0 <= i -> i <> node -> vat tree' i = vat tree i).
Proof.
  intros Hn Hs He Hfit Hl Hr. pose proof (mid_bounds s e Hs) as Hm.
  destruct (seg_root _ _ _ _ _ Hl) as [Hln Hlv], (seg_root _ _ _ _ _ Hr) as [Hrn Hrv].
  rewrite !vget_ok by lia. cbn. rewrite Hlv, Hrv.
  pose proof (agg_split nums s ((s + e) ÷ 2) e ltac:(lia) ltac:(lia) He) as Hsplit.
  rewrite combine_ok; [|apply Hfit; lia|apply Hfit; lia|rewrite <- Hsplit; apply Hfit; lia].
  cbn. rewrite vset_ok by done. eexists. split; [done|]. split; [apply zlen_vupd|]. split.
  - assert (forall c i, c = 2 * node + 1 \/ c = 2 * node + 2 -> 0 <= i -> under c i -> vat (vupd tree node (f (agg nums s ((s + e) ÷ 2)) (agg nums ((s + e) ÷ 2 + 1) e))) i = vat tree i) as Hsame.
    { intros c i Hc Hi Hu. apply vat_vupd_ne; [|lia|lia]. intros <-. by eapply not_under_child; [| |exact Hu]; [lia|]. }
    apply seg_node; [lia|by rewrite zlen_vupd|by rewrite vat_vupd_eq| |].
    + eapply seg_frame; [exact Hl|lia|apply zlen_vupd| |done]. intros i Hi Hu. eapply Hsame; [|done|exact Hu]. by left.
    + eapply seg_frame; [exact Hr|lia|apply zlen_vupd| |done]. intros i Hi Hu. eapply Hsame; [|done|exact Hu]. by right.
  - intros i Hi Hne. apply vat_vupd_ne; [done|lia|lia].
Qed.

Lemma room_node k node n : 0 <= node -> (node + 2) * 2 ^ Z.of_nat k <= n + 1 -> node < n.
Proof. intros Hn H. pose proof (Z.pow_pos_nonneg 2 (Z.of_nat k) ltac:(lia) ltac:(lia)). nia. Qed.

Lemma leaf_ok tree nums node s :
  0 <= node < zlen tree -> 0 <= s < zlen nums ->
  exists tree', vset tree node (vat nums s) = Ok tree' /\ zlen tree' = zlen tree /\ seg tree' nums node s s /\
    (forall i, 0 <= i -> ~ under node i -> vat tree' i = vat tree i).
Proof.
  intros Hn Hs. rewrite vset_ok by lia. eexists. split; [done|]. split; [apply zlen_vupd|]. split.
  - apply seg_leaf; [by rewrite zlen_vupd|]. by rewrite vat_vupd_eq, agg_one by lia.
  - intros i Hi Hu. apply vat_vupd_ne; [|lia|lia]. intros <-. by apply Hu, under_self.
Qed.

Lemma build_ok k : forall fuel nums node s e tree,
  (k < fuel)%nat -> 0 <= node -> 0 <= s <= e -> e < zlen nums -> e - s + 1 <= 2 ^ Z.of_nat k ->
  (node + 2) * 2 ^ Z.of_nat k <= zlen tree + 1 -> ranges_fit nums ->
  exists tree', build combine fuel nums node s e tree = Ok tree' /\ zlen tree' = zlen tree /\ seg tree' nums node s e /\
    (forall i, 0 <= i -> ~ under node i -> vat tree' i = vat tree i).
Proof.
  induction k as [|k IH]; intros fuel nums node s e tree Hfuel Hn Hs He Hsize Hroom Hfit; destruct fuel as [|fuel]; try lia; cbn [build];
    assert (node < zlen tree) as Hin by (eapply room_node; eassumption).
  - cbn in Hsize. rewrite (proj2 (Z.eqb_eq s e)) by lia. assert (s = e) as <- by lia.
    rewrite vget_ok by lia. cbn. apply (leaf_ok tree nums); lia.
  - destruct (Z.eqb_spec s e) as [<-|Hne]; [rewrite vget_ok by lia; cbn; apply (leaf_ok tree nums); lia|].
    rewrite Nat2Z.inj_succ, Z.pow_succ_r in Hroom by lia.
    destruct (mid_halves s e (Z.of_nat k)) as [Hh1 Hh2]; [lia|lia|by rewrite Nat2Z.inj_succ in Hsize|].
    pose proof (mid_bounds s e ltac:(lia)) as Hm.
    destruct (IH fuel nums (2 * node + 1) s ((s + e) ÷ 2) tree) as (t1 & E1 & L1 & S1 & F1); [lia..|nia|done|].
    destruct (IH fuel nums (2 * node + 2) ((s + e) ÷ 2 + 1) e t1) as (t2 & E2 & L2 & S2 & F2); [lia..|nia|done|].
    assert (seg t2 nums (2 * node + 1) s ((s + e) ÷ 2)) as S1'.
    { eapply seg_frame; [exact S1|lia|done| |done]. intros i Hi Hu. apply F2; [done|]. intros Hu2. exact (siblings_disjoint node i Hn Hu Hu2). }
    destruct (seg_join t2 nums node s e) as (t3 & E3 & L3 & S3 & F3); [lia|lia|lia|done|done|done|].
    exists t3. rewrite E1. cbn. rewrite E2. cbn. split; [done|]. split; [lia|]. split; [done|].
    intros i Hi Hu. rewrite F3, F2, F1; [done|lia| |lia| |lia|]; intros Hx; apply Hu; try (subst; apply under_self);
      (eapply under_child; [|exact Hx]; tauto).
Qed.

Lemma agg_other nums i v l r :
  0 <= i < zlen nums -> 0 <= l <= r -> r < zlen nums -> i < l \/ r < i -> agg (vupd nums i v) l r = agg nums l r.
Proof.
  intros Hi Hl Hr Ho. unfold SegmentTree.agg. rewrite (slice_ext nums (vupd nums i v)); [done|lia|lia|apply zlen_vupd|].
  intros k Hk. apply vat_vupd_ne; lia.
Qed.

Lemma update_ok k : forall fuel nums node s e tree idx i val,
  (k < fuel)%nat -> 0 <= node -> 0 <= s <= e -> e < zlen nums -> e - s + 1 <= 2 ^ Z.of_nat k ->
  clamp s e idx = i -> ranges_fit (vupd nums i val) -> seg tree nums node s e ->
  exists tree', update combine fuel node s e idx val tree = Ok tree' /\ zlen tree' = zlen tree /\
    seg tree' (vupd nums i val) node s e /\ (forall j, 0 <= j -> ~ under node j -> vat tree' j = vat tree j).
Proof.
  induction k as [|k IH]; intros fuel nums node s e tree idx i val Hfuel Hn Hs He Hsize Hi Hfit Hseg; destruct fuel as [|fuel]; try lia; cbn [update];
    destruct (seg_root _ _ _ _ _ Hseg) as [Hin _]; unfold clamp in Hi.
  all: assert (s = e -> exists tree', vset tree node val = Ok tree' /\ zlen tree' = zlen tree /\
    seg tree' (vupd nums i val) node s e /\ (forall j, 0 <= j -> ~ under node j -> vat tree' j = vat tree j)) as Hleaf
    by (intros <-; assert (i = s) as -> by lia;
        destruct (leaf_ok tree (vupd nums s val) node s) as (t & Ht & H); [lia|rewrite zlen_vupd; lia|];
        rewrite vat_vupd_eq in Ht by lia; by exists t).
  - cbn in Hsize. rewrite (proj2 (Z.eqb_eq s e)) by lia. apply Hleaf. lia.
  - destruct (Z.eqb_spec s e) as [Heq|Hne]; [by apply Hleaf|]. clear Hleaf.
    inversion Hseg as [|node' s' e' Hse _ Hv Hl Hr]; [lia|subst node' s' e'].
    pose proof (mid_bounds s e ltac:(lia)) as Hm. assert (0 <= i < zlen nums) as Hir by lia.
    assert (zlen (vupd nums i val) = zlen nums) as Hlen by apply zlen_vupd.
    destruct (mid_halves s e (Z.of_nat k)) as [Hh1 Hh2]; [lia|lia|by rewrite Nat2Z.inj_succ in Hsize|].
    destruct (Z.leb_spec idx ((s + e) ÷ 2)) as [Hle|Hgt].
    + destruct (IH fuel nums (2 * node + 1) s ((s + e) ÷ 2) tree idx i val) as (t1 & E1 & L1 & S1 & F1); [lia..|unfold clamp; lia|done|done|].
      assert (seg t1 (vupd nums i val) (2 * node + 2) ((s + e) ÷ 2 + 1) e) as Hr'.
      { eapply seg_frame; [exact Hr|lia|done| |intros; apply agg_other; lia].
        intros j Hj Hu. apply F1; [done|]. intros Hu2. exact (siblings_disjoint node j Hn Hu2 Hu). }
      destruct (seg_join t1 (vupd nums i val) node s e) as (t2 & E2 & L2 & S2 & F2); [lia|lia|lia|done|done|done|].
      exists t2. rewrite E1. cbn. split; [done|]. split; [lia|]. split; [done|].
      intros j Hj Hu. rewrite F2, F1; [done|lia| |lia|]; intros Hx; apply Hu; [eapply under_child; [|exact Hx]; tauto|subst; apply under_self].
    + destruct (IH fuel nums (2 * node + 2) ((s + e) ÷ 2 + 1) e tree idx i val) as (t1 & E1 & L1 & S1 & F1); [lia..|unfold clamp; lia|done|done|].
      assert (seg t1 (vupd nums i val) (2 * node + 1) s ((s + e) ÷ 2)) as Hl'.
      { eapply seg_frame; [exact Hl|lia|done| |intros; apply agg_other; lia].
        intros j Hj Hu. apply F1; [done|]. intros Hu2. exact (siblings_disjoint node j Hn Hu Hu2). }
      destruct (seg_join t1 (vupd nums i val) node s e) as (t2 & E2 & L2 & S2 & F2); [lia|lia|lia|done|done|done|].
      exists t2. rewrite E1. cbn. split; [done|]. split; [lia|]. split; [done|].
      intros j Hj Hu. rewrite F2, F1; [done|lia| |lia|]; intros Hx; apply Hu; [eapply under_child; [|exact Hx]; tauto|subst; apply under_self].
Qed.

Lemma agg_empty nums l r : r < l -> agg nums l r = unit_.
Proof. intros H. unfold SegmentTree.agg. by rewrite slice_nil by lia. Qed.

Lemma agg_int nums l r : ranges_fit nums -> 0 <= l -> r < zlen nums -> in_int (agg nums l r) = true.
Proof.
  intros Hfit Hl Hr. destruct (Z.leb_spec l r); [apply Hfit; lia|]. by rewrite agg_empty.
Qed.

Lemma combine_parts nums s m e l r :
  ranges_fit nums -> 0 <= s <= m -> m < e -> e < zlen nums -> s <= r -> l <= e ->
  combine (agg nums (Z.max s l) (Z.min m r)) (agg nums (Z.max (m + 1) l) (Z.min e r)) = Ok (agg nums (Z.max s l) (Z.min e r)).
Proof.
  intros Hfit Hs Hm He Hr Hl.
  pose proof (agg_int nums (Z.max s l) (Z.min m r) Hfit ltac:(lia) ltac:(lia)) as H1.
  pose proof (agg_int nums (Z.max (m + 1) l) (Z.min e r) Hfit ltac:(lia) ltac:(lia)) as H2.
  pose proof (agg_int nums (Z.max s l) (Z.min e r) Hfit ltac:(lia) ltac:(lia)) as H3.
  assert (f (agg nums (Z.max s l) (Z.min m r)) (agg nums (Z.max (m + 1) l) (Z.min e r)) = agg nums (Z.max s l) (Z.min e r)) as E.
  { destruct (Z.leb_spec r m) as [Hrm|Hrm].
    - rewrite (agg_empty nums (Z.max (m + 1) l)) by lia. rewrite (proj2 (f_unit _ H1)). f_equal. lia.
    - destruct (Z.leb_spec l m) as [Hlm|Hlm].
      + rewrite (agg_split nums (Z.max s l) m (Z.min e r)) by lia. f_equal; f_equal; lia.
      + rewrite (agg_empty nums (Z.max s l) (Z.min m r)) by lia. rewrite (proj1 (f_unit _ H2)). f_equal. lia. }
  rewrite combine_ok; rewrite ?E; done.
Qed.

Lemma query_ok k : forall fuel nums node s e l r tree,
  (k < fuel)%nat -> 0 <= s <= e -> e < zlen nums -> e - s + 1 <= 2 ^ Z.of_nat k ->
  ranges_fit nums -> seg tree nums node s e ->
  query combine unit_ fuel node s e l r tree = Ok (agg nums (Z.max s l) (Z.min e r)).
Proof.
  induction k as [|k IH]; intros fuel nums node s e l r tree Hfuel Hs He Hsize Hfit Hseg; destruct fuel as [|fuel]; try lia; cbn [query];
    destruct (seg_root _ _ _ _ _ Hseg) as [Hin Hv];
    destruct (Z.ltb_spec r s); cbn [orb]; [by rewrite agg_empty by lia| |by rewrite agg_empty by lia|];
    (destruct (Z.ltb_spec e l); [by rewrite agg_empty by lia|]);
    (destruct (Z.leb_spec l s), (Z.leb_spec e r); cbn [andb]; [rewrite vget_ok, Hv by lia; do 2 f_equal; lia|..]).
  1-3: exfalso; cbn in Hsize; lia.
  all: inversion Hseg as [|node' s' e' Hse _ _ Hl Hr]; [lia|subst node' s' e'].
  all: pose proof (mid_bounds s e ltac:(lia)) as Hm;
    destruct (mid_halves s e (Z.of_nat k)) as [Hh1 Hh2]; [lia|lia|by rewrite Nat2Z.inj_succ in Hsize|];
    rewrite (IH fuel nums (2 * node + 1) s ((s + e) ÷ 2) l r tree ltac:(lia) ltac:(lia) ltac:(lia) Hh1 Hfit Hl); cbn;
    rewrite (IH fuel nums (2 * node + 2) ((s + e) ÷ 2 + 1) e l r tree ltac:(lia) ltac:(lia) ltac:(lia) Hh2 Hfit Hr); cbn;
    apply combine_parts; done || lia.
Qed.

(** The object stands for the array. *)
Definition represents (t : SegTree) (nums : list Z) : Prop :=
  n_ t = zlen nums /\ nums <> [] /\ seg (tree_ t) nums 0 0 (zlen nums - 1).

(** Enough fuel and room for [n] elements. *)
Lemma depth_exists n : 0 < n -> exists k, (k < Z.to_nat n)%nat /\ n <= 2 ^ Z.of_nat k /\ 2 * 2 ^ Z.of_nat k <= 4 * n + 1.
Proof.
  intros Hn. destruct (decide (n = 1)) as [->|Hne]; [exists 0%nat; cbn; lia|].
  exists (Z.to_nat (Z.log2_up n)). pose proof (Z.log2_up_spec n ltac:(lia)) as [H1 H2].
  pose proof (Z.log2_up_pos n ltac:(lia)) as Hp. rewrite Z2Nat.id by lia.
  assert (Z.log2_up n < n) as Hlt by (apply Z.log2_up_lt_lin; lia).
  split; [lia|]. split; [done|].
  replace (Z.log2_up n) with (Z.succ (Z.pred (Z.log2_up n))) by lia. rewrite Z.pow_succ_r by lia. lia.
Qed.

Lemma new_SegTree_ok nums :
  nums <> [] -> 4 * zlen nums < 2 ^ 31 -> ranges_fit nums ->
  exists t, new_SegTree combine unit_ nums = Ok t /\ represents t nums.
Proof.
  intros Hne Hsmall Hfit. assert (0 < zlen nums) as Hpos by (destruct nums; [done|unfold zlen; cbn; lia]).
  unfold new_SegTree. rewrite (proj2 (Z.eqb_neq (zlen nums) 0)) by lia.
  rewrite ints_ok by (repeat constructor; lia). cbn [mbind outcome_bind].
  destruct (depth_exists (zlen nums) Hpos) as (k & Hk & Hn & Hroom).
  destruct (build_ok k (length nums) nums 0 0 (zlen nums - 1) (replicate (Z.to_nat (4 * zlen nums)) unit_)) as (t & E & _ & Hseg & _);
    [unfold zlen in Hk; lia|lia..|rewrite zlen_replicate; lia|done|].
  rewrite E. eexists. split; [done|]. by split.
Qed.

Lemma update_at_ok t nums i v :
  represents t nums -> ranges_fit (vupd nums (clamp 0 (zlen nums - 1) i) v) ->
  exists t', update_at combine i v t = Ok t' /\ represents t' (vupd nums (clamp 0 (zlen nums - 1) i) v).
Proof.
  intros (Hn & Hne & Hseg) Hfit. assert (0 < zlen nums) as Hpos by (destruct nums; [done|unfold zlen; cbn; lia]).
  destruct (depth_exists (zlen nums) Hpos) as (k & Hk & Hle & _). unfold update_at. rewrite Hn.
  destruct (update_ok k (Z.to_nat (zlen nums)) nums 0 0 (zlen nums - 1) (tree_ t) i (clamp 0 (zlen nums - 1) i) v) as (t' & E & _ & Hs & _);
    [lia..|done|done|done|].
  rewrite E. eexists. split; [done|]. split; [by rewrite zlen_vupd|]. split; [|by rewrite zlen_vupd].
  intros E0. apply (f_equal zlen) in E0. rewrite zlen_vupd in E0. unfold zlen in E0 at 2. cbn in E0. lia.
Qed.

Lemma query_range_ok t nums l r :
  represents t nums -> ranges_fit nums -> query_range combine unit_ l r t = Ok (agg nums (Z.max 0 l) (Z.min (zlen nums - 1) r)).
Proof.
  intros (Hn & Hne & Hseg) Hfit. assert (0 < zlen nums) as Hpos by (destruct nums; [done|unfold zlen; cbn; lia]).
  destruct (depth_exists (zlen nums) Hpos) as (k & Hk & Hle & _). unfold query_range. rewrite Hn.
  apply (query_ok k (Z.to_nat (zlen nums)) nums 0 0 (zlen nums - 1)); done || lia.
Qed.

Lemma ops_ok os : forall t nums answers,
  represents t nums -> ops_fit f unit_ nums os ->
  exists t', foldM (run_op combine unit_) (t, answers) os = Ok (t', answers ++ (spec_ops f unit_ nums os).2) /\
    represents t' (spec_ops f unit_ nums os).1.
Proof.
  induction os as [|o os IH]; intros t nums answers Hrep [Hfit Hfits]; [exists t; by rewrite app_nil_r|].
  destruct o as [i v|l r]; cbn [foldM run_op spec_ops spec_op].
  - destruct (update_at_ok t nums i v Hrep) as (t1 & E1 & H1).
    { destruct os; apply Hfits. }
    rewrite E1. cbn [mbind outcome_bind]. destruct (IH t1 _ answers H1 Hfits) as (t' & E & H'). exists t'.
    cbn in E, H' |- *. destruct (spec_ops _ _ _ os) as [nums' a] eqn:Es. by rewrite E.
  - rewrite (query_range_ok t nums l r Hrep Hfit). cbn [mbind outcome_bind].
    destruct (IH t nums (answers ++ [agg nums (Z.max 0 l) (Z.min (zlen nums - 1) r)]) Hrep Hfits) as (t' & E & H'). exists t'.
    cbn in E, H' |- *. destruct (spec_ops _ _ _ os) as [nums' a] eqn:Es. cbn in *. by rewrite E, <- app_assoc.
Qed.
End lemmas.

(** ** Properties *)

Lemma add_int_ok x y : in_int x = true -> in_int y = true -> in_int (x + y) = true -> add_int x y = Ok (x + y).
Proof. intros _ _ H. unfold add_int, ints, forallb. by rewrite H. Qed.
Lemma max_int_ok x y : in_int x = true -> in_int y = true -> in_int (Z.max x y) = true -> max_int x y = Ok (Z.max x y).
Proof. done. Qed.
Lemma int_min_unit x : in_int x = true -> Z.max INT_MIN x = x /\ Z.max x INT_MIN = x.
Proof. unfold INT_MIN. rewrite in_int_spec. lia. Qed.

(** A maximum of [int]s is one. *)
Lemma max_ranges_fit nums : Forall (fun x => in_int x = true) nums -> ranges_fit Z.max INT_MIN nums.
Proof.
  intros Hall l r Hl Hr. unfold agg.
  assert (Forall (fun x => in_int x = true) (slice nums l (r + 1))) as Hs by (unfold slice; by apply Forall_take, Forall_drop).
  destruct (slice nums l (r + 1)) as [|x xs]; [done|]. apply Forall_cons in Hs as [Hx Hxs].
  induction xs as [|y xs IH] in x, Hx, Hxs |- *; [done|]. apply Forall_cons in Hxs as [Hy Hxs]. cbn. apply IH; [|done].
  destruct (Z.max_spec x y) as [[_ ->]|[_ ->]]; done.
Qed.

Definition op_value_fits (o : op) : Prop := match o with Update _ v => in_int v = true | Query _ _ => True end.

Lemma max_ops_fit os : forall nums,
  Forall (fun x => in_int x = true) nums -> Forall op_value_fits os -> ops_fit Z.max INT_MIN nums os.
Proof.
  induction os as [|o os IH]; intros nums Hn Ho; (split; [by apply max_ranges_fit|]); [done|].
  apply Forall_cons in Ho as [Ho Hos]. apply IH; [|done]. destruct o as [i v|l r]; cbn; [|done].
  unfold vupd. by apply Forall_insert.
Qed.

Lemma sums_refine nums os :
  nums <> [] -> 4 * zlen nums < 2 ^ 31 -> ops_fit Z.add 0 nums os ->
  exists t t', SegmentTree nums = Ok t /\ foldM (run_op add_int 0) (t, []) os = Ok (t', (spec_ops Z.add 0 nums os).2).
Proof.
  intros Hne Hsmall Hfit. assert (ranges_fit Z.add 0 nums) as Hf by (destruct os; apply Hfit).
  assert (forall x y z, x + y + z = x + (y + z)) as Ha by (intros; lia).
  assert (forall x, in_int x = true -> 0 + x = x /\ x + 0 = x) as Hu by (intros; lia).
  destruct (new_SegTree_ok add_int Z.add 0 Ha add_int_ok nums Hne Hsmall Hf) as (t & Et & Hrep).
  destruct (ops_ok add_int Z.add 0 Ha Hu eq_refl add_int_ok os t nums [] Hrep Hfit) as (t' & E & _).
  exists t, t'. by split.
Qed.

Lemma maxima_refine nums os :
  nums <> [] -> 4 * zlen nums < 2 ^ 31 -> Forall (fun x => in_int x = true) nums -> Forall op_value_fits os ->
  exists t t', MaxSegmentTree nums = Ok t /\ foldM (run_op max_int INT_MIN) (t, []) os = Ok (t', (spec_ops Z.max INT_MIN nums os).2).
Proof.
  intros Hne Hsmall Hints Hvals. pose proof (max_ops_fit os nums Hints Hvals) as Hfit.
  pose proof (max_ranges_fit nums Hints) as Hf.
  assert (forall x y z, Z.max (Z.max x y) z = Z.max x (Z.max y z)) as Ha by (intros; lia).
  destruct (new_SegTree_ok max_int Z.max INT_MIN Ha max_int_ok nums Hne Hsmall Hf) as (t & Et & Hrep).
  destruct (ops_ok max_int Z.max INT_MIN Ha int_min_unit eq_refl max_int_ok os t nums [] Hrep Hfit) as (t' & E & _).
  exists t, t'. by split.
Qed.

(** C23: segment trees answer like the array they were built from, through
    any sequence of updates and queries: each query of a [SegmentTree] is the
    sum of the elements of its range (0 when the range misses the array), as
    long as the sums of ranges are [int]s, and each query of a
    [MaxSegmentTree] their maximum, for any [int]s ([INT_MIN] when the range
    misses the array); an update outside the array changes its nearest end. *)
Theorem segment_trees_refine nums os :
  nums <> [] -> 4 * zlen nums < 2 ^ 31 ->
  (ops_fit Z.add 0 nums os ->
   exists t t', SegmentTree nums = Ok t /\ foldM (run_op add_int 0) (t, []) os = Ok (t', (spec_ops Z.add 0 nums os).2)) /\
  (Forall (fun x => in_int x = true) nums -> Forall op_value_fits os ->
   exists t t', MaxSegmentTree nums = Ok t /\ foldM (run_op max_int INT_MIN) (t, []) os = Ok (t', (spec_ops Z.max INT_MIN nums os).2)).
Proof. intros Hne Hsmall. split; [by apply sums_refine|by apply maxima_refine]. Qed.

(** A check of [ranges_fit]. *)
Definition ranges_fitb (f : Z -> Z -> Z) (u : Z) (nums : list Z) : bool :=
  forallb (fun l => forallb (fun r => in_int (agg f u nums l r)) (seqZ 0 (zlen nums))) (seqZ 0 (zlen nums)).
Lemma ranges_fitb_ok f u nums : ranges_fitb f u nums = true -> ranges_fit f u nums.
Proof.
  unfold ranges_fitb. rewrite forallb_forall. intros H l r Hl Hr.
  specialize (H l ltac:(apply list_elem_of_In, elem_of_seqZ; lia)). rewrite forallb_forall in H.
  apply H. apply list_elem_of_In, elem_of_seqZ. lia.
Qed.

Lemma segment_trees_refine_witness :
  (exists t t', SegmentTree [1; 3; 5] = Ok t /\ foldM (run_op add_int 0) (t, []) [Query 0 1; Update 7 10; Query 1 2] = Ok (t', [4; 13])) /\
  (exists t t', MaxSegmentTree [1; 3; 5] = Ok t /\ foldM (run_op max_int INT_MIN) (t, []) [Query 0 1; Update 7 10; Query 1 2] = Ok (t', [3; 10])).
Proof.
  assert (ops_fit Z.add 0 [1; 3; 5] [Query 0 1; Update 7 10; Query 1 2]) as H
    by (repeat split; apply ranges_fitb_ok; vm_compute; reflexivity).
  destruct (segment_trees_refine [1; 3; 5] [Query 0 1; Update 7 10; Query 1 2]) as [Hs Hm]; [done|reflexivity|].
  split; [exact (Hs H)|]. apply Hm; by repeat constructor.
Defined.
