(* ===== verification/Ring.v ===== *)
(** * Ring: circular queues and deques

    Models [CircularQueue] with its [CycleArray] of
    [datastruct/circle_array_queue.cpp], [CircularDeque] with its
    [CycleArray] of [datastruct/circle_array_deque.cpp], and the
    [CycleArray] of [datastruct/cycle_array.cpp].  The same five members in
    all three; the indices are [size_t] that stay below the capacity, so
    nothing wraps. *)
From S2P Require Import Prelude Vector.

Section ring.
Context {T : Type} `{!Inhabited T}.

Record CycleArray := mkCycleArray { buffer_ : list T; capacity_ : Z; head_ : Z; tail_ : Z; size_ : Z }.

Definition empty (a : CycleArray) : bool := size_ a =? 0.
Definition full (a : CycleArray) : bool := size_ a =? capacity_ a.
Definition next_index (a : CycleArray) (index : Z) : Z := (index + 1) mod capacity_ a.
Definition prev_index (a : CycleArray) (index : Z) : Z := if index =? 0 then capacity_ a - 1 else index - 1.

(** A default-constructed [T] in every cell. *)
Definition new_CycleArray (capacity : Z) : outcome CycleArray :=
  if capacity =? 0 then Fail Exception
  else Ok (mkCycleArray (replicate (Z.to_nat capacity) inhabitant) capacity 0 0 0).

(** ** circle_array_queue.cpp *)

Definition push (item : T) (a : CycleArray) : outcome CycleArray :=
  let a := if full a then mkCycleArray (buffer_ a) (capacity_ a) (next_index a (head_ a)) (tail_ a) (size_ a)
           else mkCycleArray (buffer_ a) (capacity_ a) (head_ a) (tail_ a) (size_ a + 1) in
  b ← vset (buffer_ a) (tail_ a) item;
  Ok (mkCycleArray b (capacity_ a) (head_ a) (next_index a (tail_ a)) (size_ a)).

Definition pop (a : CycleArray) : outcome (T * CycleArray) :=
  if empty a then Fail Exception
  else
    item ← vget (buffer_ a) (head_ a);
    Ok (item, mkCycleArray (buffer_ a) (capacity_ a) (next_index a (head_ a)) (tail_ a) (size_ a - 1)).

Definition front (a : CycleArray) : outcome T :=
  if empty a then Fail Exception else vget (buffer_ a) (head_ a).

Definition enqueue := push.
Definition dequeue := pop.

(** [print]: moves the elements to a copy and back; what it prints, and the
    array it leaves. *)
Fixpoint print_out (n : nat) (a temp : CycleArray) : outcome (list T * CycleArray * CycleArray) :=
  match n with
  | O => Ok ([], a, temp)
  | S n =>
      item ← front a;
      temp ← push item temp;
      '(_, a) ← pop a;
      '(items, a, temp) ← print_out n a temp;
      Ok (item :: items, a, temp)
  end.
Fixpoint print_back (n : nat) (a temp : CycleArray) : outcome CycleArray :=
  match n with
  | O => Ok a
  | S n => '(item, temp) ← pop temp; a ← push item a; print_back n a temp
  end.
Definition print (a : CycleArray) : outcome (list T * CycleArray) :=
  if empty a then Ok ([], a)
  else
    temp ← new_CycleArray (capacity_ a);
    let current_size := Z.to_nat (size_ a) in
    '(items, a, temp) ← print_out current_size a temp;
    a ← print_back current_size a temp;
    Ok (items, a).

(** ** circle_array_deque.cpp *)

Definition push_front (item : T) (a : CycleArray) : outcome CycleArray :=
  if full a then Fail Exception
  else
    let head := prev_index a (head_ a) in
    b ← vset (buffer_ a) head item;
    Ok (mkCycleArray b (capacity_ a) head (tail_ a) (size_ a + 1)).

Definition push_back (item : T) (a : CycleArray) : outcome CycleArray :=
  if full a then Fail Exception
  else
    b ← vset (buffer_ a) (tail_ a) item;
    Ok (mkCycleArray b (capacity_ a) (head_ a) (next_index a (tail_ a)) (size_ a + 1)).

Definition pop_front (a : CycleArray) : outcome (T * CycleArray) :=
  if empty a then Fail Exception
  else
    item ← vget (buffer_ a) (head_ a);
    Ok (item, mkCycleArray (buffer_ a) (capacity_ a) (next_index a (head_ a)) (tail_ a) (size_ a - 1)).

Definition pop_back (a : CycleArray) : outcome (T * CycleArray) :=
  if empty a then Fail Exception
  else
    let tail := prev_index a (tail_ a) in
    item ← vget (buffer_ a) tail;
    Ok (item, mkCycleArray (buffer_ a) (capacity_ a) (head_ a) tail (size_ a - 1)).

Definition deque_front (a : CycleArray) : outcome T :=
  if empty a then Fail Exception else vget (buffer_ a) (head_ a).

Definition back (a : CycleArray) : outcome T :=
  if empty a then Fail Exception
  else let last_index := prev_index a (tail_ a) in vget (buffer_ a) last_index.

Fixpoint deque_items (n : nat) (current : Z) (a : CycleArray) : outcome (list T) :=
  match n with
  | O => Ok []
  | S n => x ← vget (buffer_ a) current; xs ← deque_items n (next_index a current) a; Ok (x :: xs)
  end.
Definition deque_print (a : CycleArray) : outcome (list T) :=
  if empty a then Ok [] else deque_items (Z.to_nat (size_ a)) (head_ a) a.

(** ** cycle_array.cpp

    [reserve] gives the vector room but no elements. *)
Definition reserved_CycleArray (cap : Z) : CycleArray := mkCycleArray [] cap 0 0 0.
Definition cycle_push (val : T) (a : CycleArray) : outcome CycleArray :=
  let a := if full a then mkCycleArray (buffer_ a) (capacity_ a) (next_index a (head_ a)) (tail_ a) (size_ a)
           else mkCycleArray (buffer_ a) (capacity_ a) (head_ a) (tail_ a) (size_ a + 1) in
  b ← vset (buffer_ a) (tail_ a) val;
  Ok (mkCycleArray b (capacity_ a) (head_ a) (next_index a (tail_ a)) (size_ a)).

(** ** Specification: a bounded list

    Calls, and what the caller sees: a value, the printed elements, or an
    exception. *)
Inductive call := Enqueue (x : T) | Dequeue | Front | Print
  | PushFront (x : T) | PushBack (x : T) | PopFront | PopBack | DequeFront | Back | DequePrint.
Inductive reply := Returned | Value (x : T) | Items (l : list T) | Threw.

Definition spec_call (cap : Z) (l : list T) (c : call) : list T * reply :=
  match c with
  | Enqueue x => (if zlen l =? cap then tail l ++ [x] else l ++ [x], Returned)
  | Dequeue | PopFront => match l with [] => (l, Threw) | x :: l => (l, Value x) end
  | Front | DequeFront => (l, match l with [] => Threw | x :: _ => Value x end)
  | Print | DequePrint => (l, Items l)
  | PushFront x => if zlen l =? cap then (l, Threw) else (x :: l, Returned)
  | PushBack x => if zlen l =? cap then (l, Threw) else (l ++ [x], Returned)
  | PopBack => match last l with None => (l, Threw) | Some x => (removelast l, Value x) end
  | Back => (l, match last l with None => Threw | Some x => Value x end)
  end.

(** An exception leaves the object as it was: it is thrown before the first
    change. *)
Definition reply_of {R} (a : CycleArray) (f : R -> CycleArray * reply) (m : outcome R) : outcome (CycleArray * reply) :=
  match m with Ok r => Ok (f r) | Fail Exception => Ok (a, Threw) | Fail w => Fail w end.

Definition run_call (a : CycleArray) (c : call) : outcome (CycleArray * reply) :=
  match c with
  | Enqueue x => reply_of a (fun a => (a, Returned)) (enqueue x a)
  | Dequeue => reply_of a (fun '(x, a) => (a, Value x)) (dequeue a)
  | Front => reply_of a (fun x => (a, Value x)) (front a)
  | Print => reply_of a (fun '(l, a) => (a, Items l)) (print a)
  | PushFront x => reply_of a (fun a => (a, Returned)) (push_front x a)
  | PushBack x => reply_of a (fun a => (a, Returned)) (push_back x a)
  | PopFront => reply_of a (fun '(x, a) => (a, Value x)) (pop_front a)
  | PopBack => reply_of a (fun '(x, a) => (a, Value x)) (pop_back a)
  | DequeFront => reply_of a (fun x => (a, Value x)) (deque_front a)
  | Back => reply_of a (fun x => (a, Value x)) (back a)
  | DequePrint => reply_of a (fun l => (a, Items l)) (deque_print a)
  end.

Fixpoint run_calls (a : CycleArray) (cs : list call) : outcome (list reply) :=
  match cs with
  | [] => Ok []
  | c :: cs => '(a, r) ← run_call a c; rs ← run_calls a cs; Ok (r :: rs)
  end.
Fixpoint spec_calls (cap : Z) (l : list T) (cs : list call) : list reply :=
  match cs with
  | [] => []
  | c :: cs => let '(l, r) := spec_call cap l c in r :: spec_calls cap l cs
  end.

(** The array holds [l]. *)
Definition cell (a : CycleArray) (k : Z) : Z := (head_ a + k) mod capacity_ a.
Record holds (a : CycleArray) (l : list T) : Prop := {
  ho_cap : 0 < capacity_ a;
  ho_buffer : zlen (buffer_ a) = capacity_ a;
  ho_head : 0 <= head_ a < capacity_ a;
  ho_size : size_ a = zlen l;
  ho_fits : zlen l <= capacity_ a;
  ho_tail : tail_ a = cell a (size_ a);
  ho_items : forall k, 0 <= k < zlen l -> vat (buffer_ a) (cell a k) = vat l k;
}.

(** ** Lemmas *)

Lemma cell_eq h k cap : 0 <= h < cap -> 0 <= k <= cap -> (h + k) mod cap = if h + k <? cap then h + k else h + k - cap.
Proof.
  intros Hh Hk. destruct (Z.ltb_spec (h + k) cap); [apply Z.mod_small; lia|].
  symmetry. apply Z.mod_unique_pos with 1; lia.
Qed.

Ltac ring_arith :=
  unfold cell, next_index, prev_index, empty, full in *; cbn [buffer_ capacity_ head_ tail_ size_] in *;
  repeat (rewrite cell_eq in * by lia);
  repeat match goal with
  | |- context [?x <? ?y] => destruct (Z.ltb_spec x y)
  | H : context [?x <? ?y] |- _ => destruct (Z.ltb_spec x y)
  | |- context [?x =? ?y] => destruct (Z.eqb_spec x y)
  | H : context [?x =? ?y] |- _ => destruct (Z.eqb_spec x y)
  end; try lia.

Lemma next_eq x cap : 0 <= x < cap -> (x + 1) mod cap = if x + 1 =? cap then 0 else x + 1.
Proof. intros Hx. destruct (Z.eqb_spec (x + 1) cap) as [->|]; [apply Z.mod_same; lia|apply Z.mod_small; lia]. Qed.

Lemma cell_range a l k : holds a l -> 0 <= cell a k < capacity_ a.
Proof. intros []. apply Z.mod_pos_bound. lia. Qed.

(** Different positions are in different cells. *)
Lemma cell_inj a l j k : holds a l -> 0 <= j < capacity_ a -> 0 <= k < capacity_ a -> cell a j = cell a k -> j = k.
Proof. intros [] Hj Hk. ring_arith. Qed.

Lemma next_cell a l k : holds a l -> 0 <= k < capacity_ a -> next_index a (cell a k) = cell a (k + 1).
Proof.
  intros H Hk. pose proof (cell_range a l k H). pose proof H as []. unfold next_index. rewrite next_eq by lia. ring_arith.
Qed.

Lemma read_head a x l : holds a (x :: l) -> vget (buffer_ a) (head_ a) = Ok x.
Proof.
  intros []. rewrite vget_ok by lia. rewrite zlen_cons in *. pose proof (zlen_nonneg l).
  specialize (ho_items0 0 ltac:(lia)). rewrite vat_cons in ho_items0 by lia. cbn in ho_items0.
  unfold cell in ho_items0. rewrite Z.add_0_r, Z.mod_small in ho_items0 by lia. by rewrite ho_items0.
Qed.

Lemma drop_head a x l :
  holds a (x :: l) -> holds (mkCycleArray (buffer_ a) (capacity_ a) (next_index a (head_ a)) (tail_ a) (size_ a - 1)) l.
Proof.
  intros H. pose proof H as []. rewrite zlen_cons in *. pose proof (zlen_nonneg l).
  assert (forall k, 0 <= k < capacity_ a -> (next_index a (head_ a) + k) mod capacity_ a = cell a (k + 1)) as Hc.
  { intros k Hk. unfold next_index, cell. rewrite Z.add_mod_idemp_l by lia. f_equal. lia. }
  constructor; cbn [buffer_ capacity_ head_ tail_ size_]; try lia.
  - unfold next_index. apply Z.mod_pos_bound. lia.
  - rewrite ho_tail0. unfold cell at 2. cbn. rewrite Hc by lia. f_equal. lia.
  - intros k Hk. unfold cell. cbn. rewrite Hc by lia. rewrite ho_items0 by lia. rewrite vat_cons by lia.
    rewrite decide_False by lia. f_equal. lia.
Qed.

Lemma append_tail a l x :
  holds a l -> zlen l < capacity_ a ->
  holds (mkCycleArray (vupd (buffer_ a) (tail_ a) x) (capacity_ a) (head_ a) (next_index a (tail_ a)) (size_ a + 1)) (l ++ [x]).
Proof.
  intros H Hlt. pose proof H as []. pose proof (zlen_nonneg l). pose proof (cell_range a l (size_ a) H).
  assert (zlen (l ++ [x]) = zlen l + 1) as Hl by (rewrite zlen_app; done).
  constructor; cbn [buffer_ capacity_ head_ tail_ size_]; rewrite ?zlen_vupd, ?Hl; try lia.
  - rewrite ho_tail0. by rewrite (next_cell a l) by (done || lia).
  - intros k Hk. unfold cell. cbn. fold (cell a k). pose proof (cell_range a l k H).
    rewrite vat_app by lia. rewrite vat_vupd by lia. rewrite ho_tail0. destruct (decide (k < zlen l)) as [Hkl|Hkl].
    + rewrite decide_False; [apply ho_items0; lia|]. intros E. apply (cell_inj a l) in E; [lia|done|lia|lia].
    + assert (k = size_ a) as -> by lia. rewrite decide_True by done. by rewrite ho_size0, Z.sub_diag.
Qed.

Lemma cons_head a l x :
  holds a l -> zlen l < capacity_ a ->
  holds (mkCycleArray (vupd (buffer_ a) (prev_index a (head_ a)) x) (capacity_ a) (prev_index a (head_ a)) (tail_ a) (size_ a + 1)) (x :: l).
Proof.
  intros H Hlt. pose proof H as []. pose proof (zlen_nonneg l).
  assert (0 <= prev_index a (head_ a) < capacity_ a) as Hp by ring_arith.
  assert (forall k, 0 <= k <= capacity_ a -> (prev_index a (head_ a) + k) mod capacity_ a = if decide (k = 0) then prev_index a (head_ a) else cell a (k - 1)) as Hc.
  { intros k Hk. destruct (decide (k = 0)) as [->|]; [rewrite Z.add_0_r; apply Z.mod_small; lia|].
    rewrite cell_eq by lia. ring_arith. }
  constructor; cbn [buffer_ capacity_ head_ tail_ size_]; rewrite ?zlen_vupd, ?zlen_cons; try lia.
  - unfold cell. cbn. rewrite Hc by lia. rewrite decide_False by lia. rewrite ho_tail0. f_equal. lia.
  - intros k Hk. unfold cell. cbn. rewrite Hc, vat_cons by lia. destruct (decide (k = 0)) as [->|Hk0]; [by rewrite vat_vupd_eq by lia|].
    pose proof (cell_range a l (k - 1) H). rewrite vat_vupd by lia. rewrite decide_False; [apply ho_items0; lia|].
    intros E. clear ho_items0. ring_arith.
Qed.

Lemma read_last a x l : holds a (l ++ [x]) -> vget (buffer_ a) (prev_index a (tail_ a)) = Ok x.
Proof.
  intros H. pose proof H as []. assert (zlen (l ++ [x]) = zlen l + 1) as Hl by (rewrite zlen_app; done). pose proof (zlen_nonneg l).
  assert (prev_index a (tail_ a) = cell a (zlen l)) as E by (rewrite ho_tail0; clear ho_items0; ring_arith).
  pose proof (cell_range a _ (zlen l) H). rewrite E, vget_ok by lia. rewrite ho_items0 by lia.
  rewrite vat_app by lia. rewrite decide_False by lia. by rewrite Z.sub_diag.
Qed.

Lemma drop_last a x l :
  holds a (l ++ [x]) -> holds (mkCycleArray (buffer_ a) (capacity_ a) (head_ a) (prev_index a (tail_ a)) (size_ a - 1)) l.
Proof.
  intros H. pose proof H as []. assert (zlen (l ++ [x]) = zlen l + 1) as Hl by (rewrite zlen_app; done). pose proof (zlen_nonneg l).
  constructor; cbn [buffer_ capacity_ head_ tail_ size_]; try lia.
  - rewrite ho_tail0. clear ho_items0. ring_arith.
  - intros k Hk. unfold cell. cbn. fold (cell a k). rewrite ho_items0 by lia. rewrite vat_app by lia. by rewrite decide_True by lia.
Qed.

Lemma empty_spec a l : holds a l -> empty a = match l with [] => true | _ => false end.
Proof.
  intros []. unfold empty. rewrite ho_size0. destruct l as [|x l]; [done|]. rewrite zlen_cons. pose proof (zlen_nonneg l).
  apply Z.eqb_neq. lia.
Qed.

Lemma full_spec a l : holds a l -> full a = (zlen l =? capacity_ a).
Proof. intros []. unfold full. by rewrite ho_size0. Qed.

Lemma write_tail a l x : holds a l -> vset (buffer_ a) (tail_ a) x = Ok (vupd (buffer_ a) (tail_ a) x).
Proof. intros H. pose proof (cell_range a l (size_ a) H). destruct H. apply vset_ok. lia. Qed.

Lemma push_ok a l x :
  holds a l -> exists a', push x a = Ok a' /\ capacity_ a' = capacity_ a /\ holds a' (if zlen l =? capacity_ a then tail l ++ [x] else l ++ [x]).
Proof.
  intros H. unfold push. rewrite (full_spec a l H). destruct (Z.eqb_spec (zlen l) (capacity_ a)) as [E|E]; cbn [buffer_ capacity_ head_ tail_ size_];
    rewrite (write_tail a l x H); cbn [mbind outcome_bind]; (eexists; split; [done|]; split; [done|]).
  - destruct l as [|y l]; [destruct H; unfold zlen in E; cbn in E; lia|].
    pose proof (append_tail _ l x (drop_head a y l H)) as Ha. cbn [buffer_ capacity_ head_ tail_ size_] in Ha.
    rewrite zlen_cons in E. specialize (Ha ltac:(lia)). by replace (size_ a - 1 + 1) with (size_ a) in Ha by lia.
  - assert (zlen l < capacity_ a) as Hlt by (destruct H; lia). exact (append_tail a l x H Hlt).
Qed.

Lemma pop_ok a x l : holds a (x :: l) -> exists a', pop a = Ok (x, a') /\ capacity_ a' = capacity_ a /\ holds a' l.
Proof.
  intros H. unfold pop. rewrite (empty_spec a _ H), (read_head a x l H). cbn. eexists. split; [done|]. split; [done|]. exact (drop_head a x l H).
Qed.

Lemma print_out_ok l : forall a temp l',
  holds a l -> holds temp l' -> zlen l' + zlen l <= capacity_ temp ->
  exists a' temp', print_out (length l) a temp = Ok (l, a', temp') /\ capacity_ a' = capacity_ a /\ capacity_ temp' = capacity_ temp /\
    holds a' [] /\ holds temp' (l' ++ l).
Proof.
  induction l as [|x l IH]; intros a temp l' Ha Ht Hroom; cbn [print_out length].
  - exists a, temp. by rewrite app_nil_r.
  - rewrite zlen_cons in Hroom. pose proof (zlen_nonneg l).
    unfold front. rewrite (empty_spec a _ Ha), (read_head a x l Ha). cbn [mbind outcome_bind].
    destruct (push_ok temp l' x Ht) as (t1 & E1 & C1 & H1). rewrite (proj2 (Z.eqb_neq _ _)) in H1 by lia. rewrite E1. cbn [mbind outcome_bind].
    destruct (pop_ok a x l Ha) as (a1 & E2 & C2 & H2). rewrite E2. cbn [mbind outcome_bind].
    destruct (IH a1 t1 (l' ++ [x]) H2 H1) as (a' & t' & E & C3 & C4 & H3 & H4); [rewrite zlen_app, C1; unfold zlen in *; cbn; lia|].
    rewrite E. cbn. exists a', t'. rewrite <- app_assoc in H4. split; [done|]. split; [congruence|]. split; [congruence|]. done.
Qed.

Lemma print_back_ok l : forall a temp l0,
  holds a l0 -> holds temp l -> zlen l0 + zlen l <= capacity_ a ->
  exists a', print_back (length l) a temp = Ok a' /\ capacity_ a' = capacity_ a /\ holds a' (l0 ++ l).
Proof.
  induction l as [|x l IH]; intros a temp l0 Ha Ht Hroom; cbn [print_back length].
  - exists a. by rewrite app_nil_r.
  - rewrite zlen_cons in Hroom. pose proof (zlen_nonneg l).
    destruct (pop_ok temp x l Ht) as (t1 & E1 & C1 & H1). rewrite E1. cbn [mbind outcome_bind].
    destruct (push_ok a l0 x Ha) as (a1 & E2 & C2 & H2). rewrite (proj2 (Z.eqb_neq _ _)) in H2 by lia. rewrite E2. cbn [mbind outcome_bind].
    destruct (IH a1 t1 (l0 ++ [x]) H2 H1) as (a' & E & C3 & H3); [rewrite zlen_app, C2; unfold zlen in *; cbn; lia|].
    exists a'. rewrite <- app_assoc in H3. split; [done|]. split; [congruence|done].
Qed.

Lemma new_CycleArray_ok cap : 0 < cap -> exists a, new_CycleArray cap = Ok a /\ capacity_ a = cap /\ holds a [].
Proof.
  intros Hc. unfold new_CycleArray. rewrite (proj2 (Z.eqb_neq cap 0)) by lia. eexists. split; [done|]. split; [done|].
  constructor; cbn [buffer_ capacity_ head_ tail_ size_]; rewrite ?zlen_replicate; unfold zlen in *; cbn [length] in *; try lia.
  unfold cell. cbn. by rewrite Zmod_0_l.
Qed.

Lemma print_ok a l : holds a l -> exists a', print a = Ok (l, a') /\ capacity_ a' = capacity_ a /\ holds a' l.
Proof.
  intros H. unfold print. rewrite (empty_spec a l H). destruct l as [|x l]; [by exists a|].
  pose proof H as []. destruct (new_CycleArray_ok (capacity_ a) ho_cap0) as (t & Et & Ct & Ht). rewrite Et. cbn [mbind outcome_bind].
  rewrite ho_size0. unfold zlen at 1 2. rewrite Nat2Z.id.
  destruct (print_out_ok (x :: l) a t [] H Ht) as (a1 & t1 & E1 & C1 & C2 & H1 & H2); [unfold zlen at 1; cbn; lia|].
  rewrite E1. cbn [mbind outcome_bind].
  destruct (print_back_ok (x :: l) a1 t1 [] H1 H2) as (a' & E & C & H3); [unfold zlen at 1; cbn; lia|].
  rewrite E. cbn. exists a'. split; [done|]. split; [congruence|done].
Qed.

Lemma deque_items_ok a l : holds a l -> forall n k, 0 <= k -> k + Z.of_nat n = zlen l ->
  deque_items n (cell a k) a = Ok (drop (Z.to_nat k) l).
Proof.
  intros H. pose proof H as []. induction n as [|n IH]; intros k Hk Hl; cbn [deque_items].
  - rewrite drop_ge; [done|]. unfold zlen in Hl. lia.
  - pose proof (cell_range a l k H). rewrite vget_ok, ho_items0 by lia. cbn [mbind outcome_bind].
    rewrite (next_cell a l k H) by lia. rewrite IH by lia. cbn. rewrite (drop_S l (vat l k) (Z.to_nat k)); [|apply vat_list; lia].
    do 2 f_equal. f_equal. lia.
Qed.

Lemma last_case (l : list T) : l = [] \/ exists l' x, l = l' ++ [x] /\ last l = Some x /\ removelast l = l'.
Proof.
  destruct l as [|y l _] using rev_ind; [by left|right]. exists l, y. rewrite last_snoc, removelast_last. done.
Qed.

Lemma call_ok a l c :
  holds a l -> exists a', run_call a c = Ok (a', (spec_call (capacity_ a) l c).2) /\ capacity_ a' = capacity_ a /\ holds a' (spec_call (capacity_ a) l c).1.
Proof.
  intros H. destruct c as [x| | | |x|x| | | | |]; cbn [run_call spec_call].
  - destruct (push_ok a l x H) as (a' & E & Hc & H'). unfold enqueue. rewrite E. cbn. exists a'. done.
  - unfold dequeue. destruct l as [|x l]; [|destruct (pop_ok a x l H) as (a' & E & Hc & H'); rewrite E; by exists a'].
    unfold pop. rewrite (empty_spec a _ H). by exists a.
  - unfold front. rewrite (empty_spec a l H). destruct l as [|x l]; [by exists a|]. rewrite (read_head a x l H). by exists a.
  - destruct (print_ok a l H) as (a' & E & Hc & H'). rewrite E. by exists a'.
  - unfold push_front. rewrite (full_spec a l H). destruct (Z.eqb_spec (zlen l) (capacity_ a)); [by exists a|].
    pose proof H as []. assert (0 <= prev_index a (head_ a) < capacity_ a) as Hp by (clear ho_items0; ring_arith).
    rewrite vset_ok by lia. cbn. eexists. split; [done|]. split; [done|]. assert (zlen l < capacity_ a) as Hlt by lia. exact (cons_head a l x H Hlt).
  - unfold push_back. rewrite (full_spec a l H). destruct (Z.eqb_spec (zlen l) (capacity_ a)); [by exists a|].
    rewrite (write_tail a l x H). cbn. eexists. split; [done|]. split; [done|]. assert (zlen l < capacity_ a) as Hlt by (destruct H; lia). exact (append_tail a l x H Hlt).
  - destruct l as [|x l]; [|destruct (pop_ok a x l H) as (a' & E & Hc & H'); change (pop_front a) with (pop a); rewrite E; by exists a'].
    unfold pop_front. rewrite (empty_spec a _ H). by exists a.
  - unfold pop_back. rewrite (empty_spec a l H). destruct (last_case l) as [->|(l' & x & -> & -> & Hr)]; [by exists a|].
    rewrite Hr. rewrite (read_last a x l' H). destruct (l' ++ [x]) eqn:E; [by destruct l'|]. rewrite <- E in H. cbn.
    eexists. split; [done|]. split; [done|]. exact (drop_last a x l' H).
  - unfold deque_front. rewrite (empty_spec a l H). destruct l as [|x l]; [by exists a|]. rewrite (read_head a x l H). by exists a.
  - unfold back. rewrite (empty_spec a l H). destruct (last_case l) as [->|(l' & x & -> & -> & Hr)]; [by exists a|].
    rewrite (read_last a x l' H). destruct (l' ++ [x]) eqn:E; [by destruct l'|]. by exists a.
  - unfold deque_print. rewrite (empty_spec a l H). destruct l as [|x l]; [by exists a|]. pose proof H as [].
    pose proof (deque_items_ok a (x :: l) H (length (x :: l)) 0 ltac:(lia) ltac:(unfold zlen; lia)) as E.
    assert (cell a 0 = head_ a) as Ec by (unfold cell; rewrite Z.add_0_r; apply Z.mod_small; lia). rewrite Ec in E.
    rewrite ho_size0. unfold zlen. rewrite Nat2Z.id, E. by exists a.
Qed.

Lemma calls_ok cs : forall a l, holds a l -> run_calls a cs = Ok (spec_calls (capacity_ a) l cs).
Proof.
  induction cs as [|c cs IH]; intros a l H; [done|]. cbn [run_calls spec_calls].
  destruct (call_ok a l c H) as (a' & E & Hc & H'). rewrite E. cbn [mbind outcome_bind].
  rewrite (IH a' _ H'), Hc. by destruct (spec_call (capacity_ a) l c).
Qed.

(** ** Properties *)

(** C27: a circular queue or deque of capacity [cap] is a list of at most
    [cap] elements: through any sequence of calls every value returned,
    every exception and everything printed is that of the list.  A full
    queue drops its oldest element for the new one, a full deque throws;
    [print] leaves the elements and their order as they were. *)
Theorem ring_refines_list cap cs :
  0 < cap -> exists a, new_CycleArray cap = Ok a /\ run_calls a cs = Ok (spec_calls cap [] cs).
Proof.
  intros Hcap. destruct (new_CycleArray_ok cap Hcap) as (a & E & Hc & H). exists a. split; [done|]. by rewrite (calls_ok cs a [] H), Hc.
Qed.

(** The [CycleArray] of [cycle_array.cpp] has room but no elements: its
    first [push] already writes outside the vector. *)
Lemma reserved_push_undefined cap x : 0 < cap -> cycle_push x (reserved_CycleArray cap) = Fail Undefined.
Proof. intros Hc. destruct cap as [|p|p]; [lia|reflexivity|lia]. Qed.
End ring.

Lemma ring_refines_list_witness :
  exists a, new_CycleArray 2 = Ok a /\
    run_calls a [Enqueue 10; Enqueue 20; Enqueue 30; Print; PopBack; PushFront 5; PushFront 6; Dequeue; Dequeue; Dequeue] =
      Ok [Returned; Returned; Returned; Items [20; 30]; Value 30; Returned; Threw; Value 5; Value 20; Threw].
Proof.
  apply (ring_refines_list 2 [Enqueue 10; Enqueue 20; Enqueue 30; Print; PopBack; PushFront 5; PushFront 6; Dequeue; Dequeue; Dequeue]). lia.
Defined.
