(* ===== verification/Heap.v ===== *)
(** * Heap: priority queues on an array

    Models [PriorityQueue] of [datastruct/priority_queue.cpp],
    [SimplePriorityQueue] of [datastruct/simple_priority_queue.cpp] and the
    [sink] of [datastruct/heap_sort.h]: a binary heap in a [std::vector],
    ordered by a comparison.  The loops carry fuel: [swim] moves up from
    index [i] at most [i] times, [sink] down at most once per element.
    Index arithmetic is exact, as it is in [int] below [2^30] elements. *)
From S2P Require Import Prelude Vector.
From Stdlib Require Import Permutation.

Definition parent (i : Z) : Z := (i - 1) ÷ 2.
Definition left_ (i : Z) : Z := 2 * i + 1.
Definition right_ (i : Z) : Z := 2 * i + 2.

Section heap.
Context {T : Type} `{!Inhabited T}.
Variable comp : T -> T -> bool.

Fixpoint swim (fuel : nat) (i : Z) (heap : list T) : outcome (list T) :=
  match fuel with
  | O => Fail Undefined
  | S fuel =>
      if 0 <? i then
        p ← vget heap (parent i);
        x ← vget heap i;
        if comp p x then heap ← vswap heap i (parent i); swim fuel (parent i) heap
        else Ok heap
      else Ok heap
  end.

(** [n]: the size of the heap, [heap_sort.h] passes it. *)
Fixpoint sink (fuel : nat) (i n : Z) (heap : list T) : outcome (list T) :=
  match fuel with
  | O => Fail Undefined
  | S fuel =>
      if left_ i <? n then
        maxChild ← (if right_ i <? n then
                      l ← vget heap (left_ i);
                      r ← vget heap (right_ i);
                      Ok (if comp l r then right_ i else left_ i)
                    else Ok (left_ i));
        x ← vget heap i;
        c ← vget heap maxChild;
        if negb (comp x c) then Ok heap
        else heap ← vswap heap i maxChild; sink fuel maxChild n heap
      else Ok heap
  end.

(** The object is its vector. *)
Definition push (val : T) (heap : list T) : outcome (list T) :=
  let heap := heap ++ [val] in swim (length heap) (zlen heap - 1) heap.

Definition pop (heap : list T) : outcome (T * list T) :=
  match heap with
  | [] => Fail Exception
  | _ =>
      top ← vget heap 0;
      heap ← vswap heap 0 (zlen heap - 1);
      let heap := removelast heap in
      heap ← (match heap with [] => Ok heap | _ => sink (length heap) 0 (zlen heap) heap end);
      Ok (top, heap)
  end.

Definition top (heap : list T) : outcome T :=
  match heap with [] => Fail Exception | _ => vget heap 0 end.

Inductive call := Push (x : T) | Pop | Top | Empty | Size | Clear.
Inductive reply := Returned | Value (x : T) | Is (b : bool) | Count (n : Z) | Threw.

Definition run_call (h : list T) (c : call) : outcome (list T * reply) :=
  match c with
  | Push x => h ← push x h; Ok (h, Returned)
  | Pop => match pop h with Ok (x, h) => Ok (h, Value x) | Fail Exception => Ok (h, Threw) | Fail w => Fail w end
  | Top => match top h with Ok x => Ok (h, Value x) | Fail Exception => Ok (h, Threw) | Fail w => Fail w end
  | Empty => Ok (h, Is (match h with [] => true | _ => false end))
  | Size => Ok (h, Count (zlen h))
  | Clear => Ok ([], Returned)
  end.
Fixpoint run_calls (h : list T) (cs : list call) : outcome (list reply) :=
  match cs with
  | [] => Ok []
  | c :: cs => '(h, r) ← run_call h c; rs ← run_calls h cs; Ok (r :: rs)
  end.

(** ** Specification: a bag from which a greatest element is taken *)

Definition greatest (v : T) (b : list T) : Prop := v ∈ b /\ Forall (fun y => comp v y = false) b.

Inductive bag_call (b : list T) : call -> reply -> list T -> Prop :=
| bag_push x : bag_call b (Push x) Returned (x :: b)
| bag_pop v b' : greatest v b -> b ≡ₚ v :: b' -> bag_call b Pop (Value v) b'
| bag_pop_empty : b = [] -> bag_call b Pop Threw []
| bag_top v : greatest v b -> bag_call b Top (Value v) b
| bag_top_empty : b = [] -> bag_call b Top Threw []
| bag_empty : bag_call b Empty (Is (bool_decide (zlen b = 0))) b
| bag_size : bag_call b Size (Count (zlen b)) b
| bag_clear : bag_call b Clear Returned [].

Inductive bag_run : list T -> list call -> list reply -> Prop :=
| bag_done b : bag_run b [] []
| bag_next b c r b' cs rs : bag_call b c r b' -> bag_run b' cs rs -> bag_run b (c :: cs) (r :: rs).

(** Below [lo] nothing is claimed: the children of the nodes [lo, n). *)
Definition ordered (p c : Z) (h : list T) : Prop := comp (vat h p) (vat h c) = false.
Definition heap_from (lo n : Z) (h : list T) : Prop := forall j, 0 < j < n -> lo <= parent j -> ordered (parent j) j h.

(** What a comparison must be: [std::less], [std::greater]. *)
Record weak_order : Prop := {
  wo_asym : forall a b, comp a b = true -> comp b a = false;
  wo_trans : forall a b c, comp a b = false -> comp b c = false -> comp a c = false;
}.
End heap.

Arguments call T : clear implicits.
Arguments reply T : clear implicits.

(** ** The other two heaps: the same loops on [>] *)

Definition greater_child (a b : Z) : bool := a <? b.
Definition SimplePriorityQueue_swim := swim greater_child.
Definition SimplePriorityQueue_sink := sink greater_child.
Definition SimplePriorityQueue_push := push greater_child.
Definition SimplePriorityQueue_pop := pop greater_child.

Example max_heap : run_calls greater_child [] [Push 3; Push 1; Push 4; Push 1; Push 5; Pop; Pop; Top; Size; Pop; Pop; Pop; Pop] =
  Ok [Returned; Returned; Returned; Returned; Returned; Value 5; Value 4; Value 3; Count 3; Value 3; Value 1; Value 1; Threw].
Proof. reflexivity. Qed.

(** ** Lemmas *)

Lemma parent_spec j i : 0 < j -> 0 <= i -> parent j = i <-> j = left_ i \/ j = right_ i.
Proof.
  intros Hj Hi. unfold parent, left_, right_. rewrite Z.quot_div_nonneg by lia.
  pose proof (Z.div_mod (j - 1) 2 ltac:(lia)). pose proof (Z.mod_pos_bound (j - 1) 2 ltac:(lia)). lia.
Qed.
Lemma parent_bounds j : 0 < j -> 0 <= parent j < j.
Proof.
  intros Hj. unfold parent. rewrite Z.quot_div_nonneg by lia.
  split; [apply Z.div_pos; lia|apply Z.div_lt_upper_bound; lia].
Qed.

Section lemmas.
Context {T : Type} `{!Inhabited T}.
Variable comp : T -> T -> bool.
Hypothesis Hwo : weak_order comp.

Lemma comp_irrefl a : comp a a = false.
Proof. destruct (comp a a) eqn:E; [|done]. by rewrite (wo_asym comp Hwo a a E) in E. Qed.

(** The order after a swap of a node [i] with its parent [p]. *)
Lemma swim_ok fuel : forall i n (h : list T),
  Z.of_nat fuel > i -> 0 <= i < n -> n <= zlen h ->
  (forall j, 0 < j < n -> j <> i -> ordered comp (parent j) j h) ->
  (forall j, 0 < j < n -> parent j = i -> 0 < i -> ordered comp (parent i) j h) ->
  exists h', swim comp fuel i h = Ok h' /\ h' ≡ₚ h /\ heap_from comp 0 n h'.
Proof.
  induction fuel as [|fuel IH]; intros i n h Hf Hi Hn Hother Hgrand; [lia|]. cbn [swim].
  destruct (Z.ltb_spec 0 i) as [Hpos|Hzero].
  2: { exists h. split; [done|]. split; [done|]. intros j Hj _. apply Hother; lia. }
  pose proof (parent_bounds i Hpos) as Hp. rewrite !vget_ok by lia. cbn [mbind outcome_bind].
  destruct (comp (vat h (parent i)) (vat h i)) eqn:Ec.
  2: { exists h. split; [done|]. split; [done|]. intros j Hj _. destruct (decide (j = i)) as [->|]; [exact Ec|by apply Hother]. }
  rewrite vswap_ok by lia. cbn [mbind outcome_bind].
  assert (forall k, 0 <= k -> vat (swapped h i (parent i)) k = if decide (k = parent i) then vat h i else if decide (k = i) then vat h (parent i) else vat h k) as Hat
    by (intros; apply vat_swapped; lia).
  destruct (IH (parent i) n (swapped h i (parent i))) as (h' & E & Hperm & Hheap); [lia|lia|by rewrite zlen_swapped| | |].
  - intros j Hj Hne. pose proof (parent_bounds j ltac:(lia)) as Hpj. unfold ordered. rewrite !Hat by lia.
    rewrite (decide_False (P := j = parent i)) by done.
    destruct (decide (j = i)) as [->|Hji].
    + rewrite decide_True by done. by apply (wo_asym comp Hwo).
    + destruct (decide (parent j = parent i)) as [Epp|Epp].
      * apply (wo_trans comp Hwo _ (vat h (parent i))); [by apply (wo_asym comp Hwo)|]. rewrite <- Epp. by apply Hother.
      * destruct (decide (parent j = i)) as [Epi|Epi]; [by apply Hgrand|by apply Hother].
  - intros j Hj Epj Hpp. pose proof (parent_bounds (parent i) Hpp) as Hpp2. pose proof (parent_bounds j ltac:(lia)).
    unfold ordered. rewrite !Hat by lia. rewrite (decide_False (P := parent (parent i) = parent i)) by lia.
    rewrite (decide_False (P := parent (parent i) = i)) by lia. rewrite (decide_False (P := j = parent i)) by lia.
    assert (ordered comp (parent (parent i)) (parent i) h) as Hup by (apply Hother; lia).
    destruct (decide (j = i)) as [->|Hji]; [exact Hup|].
    apply (wo_trans comp Hwo _ (vat h (parent i))); [exact Hup|]. rewrite <- Epj at 1. by apply Hother.
  - exists h'. split; [done|]. split; [|done]. rewrite Hperm. apply swapped_permutation; lia.
Qed.

(** The greater child of [i]. *)
Lemma max_child i n (h : list T) :
  0 <= i -> left_ i < n -> n <= zlen h ->
  exists c, (if right_ i <? n then l ← vget h (left_ i); r ← vget h (right_ i); Ok (if comp l r then right_ i else left_ i) else Ok (left_ i)) = Ok c /\
    parent c = i /\ 0 < c < n /\ (forall j, 0 < j < n -> parent j = i -> ordered comp c j h).
Proof.
  intros Hi Hl Hn. assert (0 < left_ i /\ 0 < right_ i) as [Hl0 Hr0] by (unfold left_, right_; lia).
  assert (right_ i = left_ i + 1) as Hlr by (unfold left_, right_; lia).
  destruct (Z.ltb_spec (right_ i) n) as [Hr|Hr].
  - rewrite !vget_ok by lia. cbn. destruct (comp (vat h (left_ i)) (vat h (right_ i))) eqn:Ec; eexists; (split; [done|]);
      (split; [apply parent_spec; lia|]); (split; [lia|]); intros j Hj Ep; apply parent_spec in Ep as [-> | ->]; try lia; unfold ordered;
      first [exact Ec|apply comp_irrefl|by apply (wo_asym comp Hwo)].
  - exists (left_ i). split; [done|]. split; [apply parent_spec; lia|]. split; [lia|]. intros j Hj Ep.
    apply parent_spec in Ep as [-> | ->]; [apply comp_irrefl|lia..].
Qed.

Lemma sink_ok fuel : forall lo i n (h : list T),
  Z.of_nat fuel >= n - i -> 0 <= lo <= i -> i < n -> n <= zlen h ->
  (forall j, 0 < j < n -> lo <= parent j -> parent j <> i -> ordered comp (parent j) j h) ->
  (forall j, 0 < j < n -> parent j = i -> lo <= parent i -> 0 < i -> ordered comp (parent i) j h) ->
  exists h', sink comp fuel i n h = Ok h' /\ h' ≡ₚ h /\ heap_from comp lo n h' /\ (forall k, n <= k < zlen h -> vat h' k = vat h k).
Proof.
  induction fuel as [|fuel IH]; intros lo i n h Hf Hlo Hi Hn Hother Hgrand; [lia|]. cbn [sink].
  destruct (Z.ltb_spec (left_ i) n) as [Hl|Hl].
  2: { exists h. split; [done|]. split; [done|]. split; [|done]. intros j Hj Hp. apply Hother; [done|done|]. intros E.
       apply parent_spec in E; [|lia|lia]. unfold left_, right_ in *. lia. }
  destruct (max_child i n h ltac:(lia) Hl Hn) as (c & Ec & Hpc & Hc & Hmax). rewrite Ec. cbn [mbind outcome_bind].
  rewrite !vget_ok by lia. cbn [mbind outcome_bind]. pose proof (parent_bounds c ltac:(lia)) as Hpb.
  destruct (comp (vat h i) (vat h c)) eqn:Ecomp; cbn [negb].
  2: { exists h. split; [done|]. split; [done|]. split; [|done]. intros j Hj Hp. destruct (decide (parent j = i)) as [E|E]; [|by apply Hother].
       rewrite E. apply (wo_trans comp Hwo _ (vat h c)); [exact Ecomp|by apply Hmax]. }
  rewrite vswap_ok by lia. cbn [mbind outcome_bind].
  assert (forall k, 0 <= k -> vat (swapped h i c) k = if decide (k = c) then vat h i else if decide (k = i) then vat h c else vat h k) as Hat
    by (intros; apply vat_swapped; lia).
  destruct (IH lo c n (swapped h i c)) as (h' & E & Hperm & Hheap & Hrest); [lia|lia|lia|by rewrite zlen_swapped| | |].
  - intros j Hj Hp Hne. pose proof (parent_bounds j ltac:(lia)) as Hpj. unfold ordered. rewrite !Hat by lia.
    rewrite (decide_False (P := parent j = c)) by done.
    destruct (decide (parent j = i)) as [Epi|Epi].
    + destruct (decide (j = c)) as [->|Hjc]; [by apply (wo_asym comp Hwo)|]. rewrite (decide_False (P := j = i)) by lia. by apply Hmax.
    + rewrite (decide_False (P := j = c)) by congruence. destruct (decide (j = i)) as [->|Hji].
      * apply Hgrand; [lia|done|done|lia].
      * by apply Hother.
  - intros j Hj Epj Hp Hc0. pose proof (parent_bounds j ltac:(lia)). rewrite Hpc in *. unfold ordered. rewrite !Hat by lia.
    rewrite (decide_False (P := i = c)) by lia. rewrite (decide_True (P := i = i)) by done.
    rewrite (decide_False (P := j = c)) by lia. rewrite (decide_False (P := j = i)) by lia. rewrite <- Epj. apply Hother; [done|lia|lia].
  - exists h'. split; [done|]. split; [rewrite Hperm; apply swapped_permutation; lia|]. split; [done|].
    intros k Hk. rewrite Hrest by (by rewrite zlen_swapped). rewrite Hat by lia. by rewrite !decide_False by lia.
Qed.

(** The root is a greatest element. *)
Lemma root_greatest n (h : list T) : heap_from comp 0 n h -> forall i, 0 <= i < n -> comp (vat h 0) (vat h i) = false.
Proof.
  intros Hh i. induction i as [i IH] using (well_founded_induction (Z.lt_wf 0)). intros Hi.
  destruct (decide (i = 0)) as [->|Hne]; [apply comp_irrefl|].
  pose proof (parent_bounds i ltac:(lia)) as Hp. apply (wo_trans comp Hwo _ (vat h (parent i))); [apply IH; lia|]. apply Hh; lia.
Qed.

(** The object stands for a bag. *)
Definition represents (h b : list T) : Prop := h ≡ₚ b /\ heap_from comp 0 (zlen h) h.

Lemma heap_push_ok x h b : represents h b -> exists h', push comp x h = Ok h' /\ represents h' (x :: b).
Proof.
  intros [Hp Hh]. unfold push. assert (zlen (h ++ [x]) = zlen h + 1) as Hl by (rewrite zlen_app; done). pose proof (zlen_nonneg h).
  assert (forall k, 0 <= k < zlen h -> vat (h ++ [x]) k = vat h k) as Hat by (intros k Hk; rewrite vat_app by lia; by rewrite decide_True by lia).
  destruct (swim_ok (length (h ++ [x])) (zlen (h ++ [x]) - 1) (zlen (h ++ [x])) (h ++ [x])) as (h' & E & Hperm & Hheap);
    [unfold zlen; lia|lia|lia| | |].
  - intros j Hj Hne. pose proof (parent_bounds j ltac:(lia)). unfold ordered. rewrite !Hat by lia. apply Hh; lia.
  - intros j Hj Ep. pose proof (parent_bounds j ltac:(lia)). lia.
  - exists h'. split; [done|]. split; [|by rewrite (zlen_permutation _ _ Hperm)]. rewrite Hperm, <- Permutation_cons_append. by constructor.
Qed.

Lemma represents_cons h b x l : represents h b -> h = x :: l -> greatest comp x b /\ vget h 0 = Ok x.
Proof.
  intros [Hp Hh] ->. split.
  - split; [rewrite <- Hp; left|]. rewrite <- Hp. apply Forall_lookup. intros k y Hk.
    pose proof (root_greatest _ _ Hh (Z.of_nat k)) as Hr. unfold vat in Hr at 2. rewrite Nat2Z.id in Hr.
    rewrite (list_lookup_total_correct _ _ _ Hk) in Hr. apply Hr. apply lookup_lt_Some in Hk. unfold zlen. lia.
  - rewrite vget_ok; [done|]. rewrite zlen_cons. pose proof (zlen_nonneg l). lia.
Qed.

Lemma pop_eq h : h <> [] -> pop comp h =
  (top ← vget h 0; heap ← vswap h 0 (zlen h - 1);
   heap ← (match removelast heap with [] => Ok [] | _ => sink comp (length (removelast heap)) 0 (zlen (removelast heap)) (removelast heap) end);
   Ok (top, heap)).
Proof.
  intros Hne. unfold pop. destruct h as [|x h]; [done|]. destruct (vget (x :: h) 0); [|done]. cbn [mbind outcome_bind].
  destruct (vswap (x :: h) 0 (zlen (x :: h) - 1)); [|done]. cbn [mbind outcome_bind]. by destruct (removelast _).
Qed.

Lemma heap_pop_ok h b x l : represents h b -> h = x :: l ->
  exists h', pop comp h = Ok (x, h') /\ greatest comp x b /\ exists b', b ≡ₚ x :: b' /\ represents h' b'.
Proof.
  intros Hrep Eh. destruct (represents_cons h b x l Hrep Eh) as [Hg Hx]. destruct Hrep as [Hp Hh].
  assert (0 < zlen h) as Hpos by (rewrite Eh, zlen_cons; pose proof (zlen_nonneg l); lia).
  rewrite pop_eq by (by rewrite Eh). rewrite Hx. rewrite vswap_ok by lia. cbn [mbind outcome_bind].
  set (s := swapped h 0 (zlen h - 1)).
  assert (zlen s = zlen h) as Hs by apply zlen_swapped.
  assert (s ≡ₚ h) as Hsp by (apply swapped_permutation; lia).
  destruct (exists_last (l := s)) as (r & y & Er); [intros E; rewrite E in Hs; unfold zlen in Hs at 1; cbn in Hs; lia|].
  assert (zlen r = zlen h - 1) as Hr by (rewrite Er, zlen_app in Hs; unfold zlen in *; cbn in Hs; lia).
  assert (y = x) as ->.
  { assert (vat s (zlen h - 1) = y) as <- by (rewrite Er, vat_app, decide_False by lia; by rewrite Hr, Z.sub_diag).
    unfold s. rewrite vat_swapped by lia. rewrite decide_True by done. rewrite vget_ok in Hx by lia. by injection Hx. }
  rewrite Er, removelast_last.
  assert (forall k, 0 <= k < zlen r -> vat r k = if decide (k = 0) then vat h (zlen h - 1) else vat h k) as Hat.
  { intros k Hk. assert (vat r k = vat s k) as -> by (rewrite Er, vat_app by lia; by rewrite decide_True by lia).
    unfold s. rewrite vat_swapped by lia. by rewrite decide_False by lia. }
  assert (b ≡ₚ x :: r) as Hbr by (rewrite <- Hp, <- Hsp, Er; by rewrite <- Permutation_cons_append).
  destruct (decide (r = [])) as [->|Hne].
  { exists []. split; [done|]. split; [done|]. exists []. split; [done|]. split; [done|]. intros j Hj. unfold zlen in Hj. cbn in Hj. lia. }
  destruct (sink_ok (length r) 0 0 (zlen r) r) as (h' & E & Hperm & Hheap & _).
  - unfold zlen. lia.
  - lia.
  - destruct r; [done|]. rewrite zlen_cons. pose proof (zlen_nonneg r). lia.
  - lia.
  - intros j Hj _ Hpj. pose proof (parent_bounds j ltac:(lia)). unfold ordered. rewrite !Hat by lia.
    rewrite !decide_False by lia. apply Hh; lia.
  - lia.
  - exists h'. destruct r as [|z r']; [done|]. rewrite E. cbn. split; [done|]. split; [done|]. exists (z :: r'). split; [done|].
    split; [done|]. by rewrite (zlen_permutation _ _ Hperm).
Qed.

Lemma represents_nil b : represents [] b -> b = [].
Proof. intros [Hp _]. by apply Permutation_nil. Qed.

Lemma heap_call h b c : represents h b -> exists h' r b', run_call comp h c = Ok (h', r) /\ bag_call comp b c r b' /\ represents h' b'.
Proof.
  intros Hrep. destruct c as [x| | | | |]; cbn [run_call].
  - destruct (heap_push_ok x h b Hrep) as (h' & E & H'). rewrite E. exists h', Returned, (x :: b). split; [done|]. split; [constructor|done].
  - destruct h as [|x l] eqn:Eh.
    + exists [], Threw, []. split; [done|]. apply represents_nil in Hrep as Hb. split; [by apply bag_pop_empty|by rewrite Hb in Hrep].
    + rewrite <- Eh in *. destruct (heap_pop_ok h b x l Hrep Eh) as (h' & E & Hg & b' & Hb & H'). rewrite E.
      exists h', (Value x), b'. split; [done|]. split; [by apply bag_pop|done].
  - destruct h as [|x l] eqn:Eh.
    + exists [], Threw, []. apply represents_nil in Hrep as Hb. split; [done|]. subst b. split; [by apply bag_top_empty|done].
    + rewrite <- Eh in *. destruct (represents_cons h b x l Hrep Eh) as [Hg Hx]. unfold top. rewrite Hx. rewrite Eh.
      exists (x :: l), (Value x), b. rewrite <- Eh. split; [done|]. split; [by apply bag_top|done].
  - exists h, (Is (match h with [] => true | _ => false end)), b. split; [done|]. split; [|done].
    assert ((match h with [] => true | _ => false end) = bool_decide (zlen b = 0)) as ->; [|constructor].
    destruct Hrep as [Hp _]. rewrite <- (zlen_permutation _ _ Hp). destruct h; [done|]. symmetry. apply bool_decide_eq_false_2.
    rewrite zlen_cons. pose proof (zlen_nonneg h). lia.
  - exists h, (Count (zlen h)), b. split; [done|]. split; [|done]. destruct Hrep as [Hp _]. rewrite (zlen_permutation _ _ Hp). constructor.
  - exists [], Returned, []. split; [done|]. split; [constructor|]. split; [done|]. intros j Hj. unfold zlen in Hj. cbn in Hj. lia.
Qed.

Lemma heap_calls cs : forall h b, represents h b -> exists rs, run_calls comp h cs = Ok rs /\ bag_run comp b cs rs.
Proof.
  induction cs as [|c cs IH]; intros h b Hrep; [exists []; split; [done|constructor]|].
  destruct (heap_call h b c Hrep) as (h' & r & b' & E & Hc & H'). destruct (IH h' b' H') as (rs & Es & Hs).
  exists (r :: rs). cbn. rewrite E. cbn. rewrite Es. split; [done|by econstructor].
Qed.
End lemmas.

(** ** Properties *)


Lemma greater_child_order : weak_order greater_child.
Proof. unfold greater_child. constructor; intros a b; [rewrite Z.ltb_lt, Z.ltb_ge; lia|intros c; rewrite !Z.ltb_ge; lia]. Qed.

