(* ===== verification/Sorts.v ===== *)
(** * Sorts: sorting an array of [int] in place

    Models [insertSort], [bubbleSort], [selectSort], [quickSort],
    [mergeSort] and [heapSort] of [datastruct/insert_sort.h],
    [bubble_sort.h], [select_sort.h], [quick_sort.h], [merge_sort.h] and
    [heap_sort.h].  Loops carry more fuel than the array has
    elements, and running out of it counts as undefined; the indices are
    [int]s that stay below the size of the array. *)
From stdpp Require Import sorting.
From S2P Require Import Prelude Vector Heap.
From Stdlib Require Import Permutation Sorted.

(** ** insert_sort.h *)

Fixpoint insert_down (fuel : nat) (i : Z) (nums : list Z) : outcome (list Z) :=
  match fuel with
  | O => Fail Undefined
  | S fuel =>
      if 0 <? i then
        x ← vget nums i;
        y ← vget nums (i - 1);
        if x <? y then nums ← vswap nums i (i - 1); insert_down fuel (i - 1) nums else Ok nums
      else Ok nums
  end.

Fixpoint insert_loop (fuel : nat) (sortedIndex : Z) (nums : list Z) : outcome (list Z) :=
  match fuel with
  | O => Fail Undefined
  | S fuel =>
      if sortedIndex <? zlen nums then
        nums ← insert_down (S (length nums)) sortedIndex nums;
        insert_loop fuel (sortedIndex + 1) nums
      else Ok nums
  end.

Definition insertSort (nums : list Z) : outcome (list Z) := insert_loop (S (length nums)) 0 nums.

(** ** bubble_sort.h *)

(** One pass from the right, and whether it swapped. *)
Fixpoint bubble_pass (fuel : nat) (i sortedIndex : Z) (swapped_ : bool) (nums : list Z) : outcome (bool * list Z) :=
  match fuel with
  | O => Fail Undefined
  | S fuel =>
      if sortedIndex <? i then
        x ← vget nums i;
        y ← vget nums (i - 1);
        if x <? y then nums ← vswap nums i (i - 1); bubble_pass fuel (i - 1) sortedIndex true nums
        else bubble_pass fuel (i - 1) sortedIndex swapped_ nums
      else Ok (swapped_, nums)
  end.

Fixpoint bubble_loop (fuel : nat) (sortedIndex : Z) (nums : list Z) : outcome (list Z) :=
  match fuel with
  | O => Fail Undefined
  | S fuel =>
      if sortedIndex <? zlen nums then
        '(swapped_, nums) ← bubble_pass (S (length nums)) (zlen nums - 1) sortedIndex false nums;
        if negb swapped_ then Ok nums else bubble_loop fuel (sortedIndex + 1) nums
      else Ok nums
  end.

Definition bubbleSort (nums : list Z) : outcome (list Z) := bubble_loop (S (length nums)) 0 nums.

(** ** select_sort.h *)

Fixpoint find_min (fuel : nat) (i minIndex : Z) (nums : list Z) : outcome Z :=
  match fuel with
  | O => Fail Undefined
  | S fuel =>
      if i <? zlen nums then
        x ← vget nums i;
        m ← vget nums minIndex;
        find_min fuel (i + 1) (if x <? m then i else minIndex) nums
      else Ok minIndex
  end.

Fixpoint select_loop (fuel : nat) (sortedIndex : Z) (nums : list Z) : outcome (list Z) :=
  match fuel with
  | O => Fail Undefined
  | S fuel =>
      if sortedIndex <? zlen nums then
        minIndex ← find_min (S (length nums)) (sortedIndex + 1) sortedIndex nums;
        nums ← vswap nums sortedIndex minIndex;
        select_loop fuel (sortedIndex + 1) nums
      else Ok nums
  end.

Definition selectSort (nums : list Z) : outcome (list Z) := select_loop (S (length nums)) 0 nums.

(** ** quick_sort.h *)

Fixpoint partition_loop (fuel : nat) (i j hi pivot : Z) (arr : list Z) : outcome (Z * list Z) :=
  match fuel with
  | O => Fail Undefined
  | S fuel =>
      if j <? hi then
        x ← vget arr j;
        if x <? pivot then arr ← vswap arr i j; partition_loop fuel (i + 1) (j + 1) hi pivot arr
        else partition_loop fuel i (j + 1) hi pivot arr
      else Ok (i, arr)
  end.

Definition partition (arr : list Z) (lo hi : Z) : outcome (Z * list Z) :=
  pivot ← vget arr hi;
  '(i, arr) ← partition_loop (S (length arr)) lo lo hi pivot arr;
  arr ← vswap arr i hi;
  Ok (i, arr).

Fixpoint quickSort_range (fuel : nat) (lo hi : Z) (arr : list Z) : outcome (list Z) :=
  if hi <=? lo then Ok arr
  else
    match fuel with
    | O => Fail Undefined
    | S fuel =>
        '(p, arr) ← partition arr lo hi;
        arr ← quickSort_range fuel lo (p - 1) arr;
        quickSort_range fuel (p + 1) hi arr
    end.

Definition quickSort (arr : list Z) : outcome (list Z) :=
  match arr with [] => Ok arr | _ => quickSort_range (length arr) 0 (zlen arr - 1) arr end.

(** ** merge_sort.h *)

(** The loops of [merge]: [m = mid - lo], [n = hi - lo]. *)
Fixpoint copy_rest (fuel : nat) (i k m : Z) (temp arr : list Z) : outcome (Z * list Z) :=
  match fuel with
  | O => Fail Undefined
  | S fuel =>
      if i <=? m then x ← vget temp i; arr ← vset arr k x; copy_rest fuel (i + 1) (k + 1) m temp arr
      else Ok (k, arr)
  end.

Fixpoint merge_loop (fuel : nat) (i j k m n : Z) (temp arr : list Z) : outcome (Z * Z * Z * list Z) :=
  match fuel with
  | O => Fail Undefined
  | S fuel =>
      if (i <=? m) && (j <=? n) then
        x ← vget temp i;
        y ← vget temp j;
        if x <=? y then arr ← vset arr k x; merge_loop fuel (i + 1) j (k + 1) m n temp arr
        else arr ← vset arr k y; merge_loop fuel i (j + 1) (k + 1) m n temp arr
      else Ok (i, j, k, arr)
  end.

Definition merge (arr : list Z) (lo mid hi : Z) : outcome (list Z) :=
  _ ← defined_ ((0 <=? lo) && (lo <=? hi + 1) && (hi + 1 <=? zlen arr));
  let temp := slice arr lo (hi + 1) in
  let fuel := S (length temp) in
  '(i, j, k, arr) ← merge_loop fuel 0 (mid - lo + 1) lo (mid - lo) (hi - lo) temp arr;
  '(k, arr) ← copy_rest fuel i k (mid - lo) temp arr;
  '(k, arr) ← copy_rest fuel j k (hi - lo) temp arr;
  Ok arr.

Fixpoint mergeSort_range (fuel : nat) (lo hi : Z) (arr : list Z) : outcome (list Z) :=
  if hi <=? lo then Ok arr
  else
    match fuel with
    | O => Fail Undefined
    | S fuel =>
        let mid := lo + (hi - lo) ÷ 2 in
        arr ← mergeSort_range fuel lo mid arr;
        arr ← mergeSort_range fuel (mid + 1) hi arr;
        merge arr lo mid hi
    end.

Definition mergeSort (arr : list Z) : outcome (list Z) :=
  match arr with [] => Ok arr | _ => mergeSort_range (length arr) 0 (zlen arr - 1) arr end.

(** ** heap_sort.h *)

Definition heapSort_sink (arr : list Z) (k n : Z) : outcome (list Z) := sink greater_child (Z.to_nat n) k n arr.

Fixpoint build_heap (fuel : nat) (i : Z) (nums : list Z) : outcome (list Z) :=
  match fuel with
  | O => Fail Undefined
  | S fuel => if 0 <=? i then nums ← heapSort_sink nums i (zlen nums); build_heap fuel (i - 1) nums else Ok nums
  end.

Fixpoint extract_loop (fuel : nat) (i : Z) (nums : list Z) : outcome (list Z) :=
  match fuel with
  | O => Fail Undefined
  | S fuel =>
      if 0 <? i then nums ← vswap nums 0 i; nums ← heapSort_sink nums 0 i; extract_loop fuel (i - 1) nums
      else Ok nums
  end.

Definition heapSort (nums : list Z) : outcome (list Z) :=
  nums ← build_heap (S (length nums)) (zlen nums ÷ 2 - 1) nums;
  extract_loop (S (length nums)) (zlen nums - 1) nums.

Example sorts_agree :
  let l := [5; -1; 3; 3; 0; 9; -7; 2] in
  (insertSort l, bubbleSort l, selectSort l, quickSort l, mergeSort l, heapSort l) =
  (let s := Ok [-7; -1; 0; 2; 3; 3; 5; 9] in (s, s, s, s, s, s)).
Proof. vm_compute. reflexivity. Qed.

(** ** Sorted ranges *)

(** [v] is sorted on [[lo, hi]]. *)
Definition sorted_on (lo hi : Z) (v : list Z) : Prop := forall i j, lo <= i <= j -> j <= hi -> vat v i <= vat v j.
Definition sorts (v v' : list Z) : Prop := v' ≡ₚ v /\ sorted_on 0 (zlen v' - 1) v'.

(** ** Lemmas: ranges *)

Lemma sorted_on_empty lo hi v : hi < lo -> sorted_on lo hi v.
Proof. intros H i j. lia. Qed.

(** What holds of the elements of a range holds after it is rearranged. *)
Lemma rearranges_all (P : Z -> Prop) lo hi v v' :
  0 <= lo -> hi < zlen v -> rearranges lo hi v v' ->
  (forall k, lo <= k <= hi -> P (vat v k)) -> forall k, lo <= k <= hi -> P (vat v' k).
Proof.
  intros Hlo Hhi Hr HP k Hk. pose proof (rearranges_zlen _ _ _ _ Hr) as Hl.
  pose proof (rearranges_slice lo hi v v' Hlo ltac:(lia) Hr) as Hs.
  assert (forall (w : list Z) j, zlen w = zlen v -> 0 <= j -> j <= hi - lo -> slice w lo (hi + 1) !! Z.to_nat j = Some (vat w (lo + j))) as Hat.
  { intros w j Hw Hj Hj'. unfold slice. rewrite lookup_take_lt, lookup_drop by lia.
    replace (Z.to_nat lo + Z.to_nat j)%nat with (Z.to_nat (lo + j)) by lia. apply vat_list. lia. }
  assert (vat v' k ∈ slice v' lo (hi + 1)) as Hin.
  { apply list_elem_of_lookup. exists (Z.to_nat (k - lo)). rewrite Hat by lia. do 2 f_equal. lia. }
  rewrite Hs in Hin. apply list_elem_of_lookup in Hin as [j Hj].
  assert (Z.of_nat j <= hi - lo) as Hjr.
  { apply lookup_lt_Some in Hj. pose proof (zlen_slice v lo (hi + 1) ltac:(lia) ltac:(lia)). unfold zlen in *. lia. }
  pose proof (Hat v (Z.of_nat j) eq_refl ltac:(lia) Hjr) as Hj'. rewrite Nat2Z.id in Hj'. rewrite Hj in Hj'. injection Hj' as ->.
  apply HP. lia.
Qed.

(** The sorted part [[0, s)] and the rest, which is no smaller. *)
Definition split_at (s : Z) (v : list Z) : Prop :=
  sorted_on 0 (s - 1) v /\ forall i j, 0 <= i < s -> s <= j < zlen v -> vat v i <= vat v j.

Lemma split_start v : split_at 0 v.
Proof. split; [apply sorted_on_empty; lia|lia]. Qed.

(** The rest is rearranged so that it starts with its minimum. *)
Lemma split_next s v v' :
  0 <= s < zlen v -> split_at s v -> rearranges s (zlen v - 1) v v' ->
  (forall j, s <= j < zlen v -> vat v' s <= vat v' j) -> split_at (s + 1) v'.
Proof.
  intros Hs [Hsort Hle] Hr Hmin. pose proof (rearranges_zlen _ _ _ _ Hr) as Hl. pose proof Hr as [_ Hsame].
  assert (forall i k, 0 <= i < s -> s <= k <= zlen v - 1 -> vat v' i <= vat v' k) as Hlow.
  { intros i k Hi Hk. rewrite (Hsame i) by lia.
    apply (rearranges_all (fun x => vat v i <= x) s (zlen v - 1) v v'); [lia|lia|done|intros; apply Hle; lia|lia]. }
  split.
  - intros i j Hi Hj. destruct (decide (j = s)) as [->|Hne].
    + destruct (decide (i = s)) as [->|]; [lia|]. apply Hlow; lia.
    + rewrite !Hsame by lia. apply Hsort; lia.
  - intros i j Hi Hj. destruct (decide (i = s)) as [->|Hne]; [apply Hmin; lia|apply Hlow; lia].
Qed.

Lemma split_end v : split_at (zlen v) v -> sorted_on 0 (zlen v - 1) v.
Proof. by intros []. Qed.

(** ** Lemmas: insertion sort *)

Lemma insert_down_ok fuel : forall i s v,
  i < Z.of_nat fuel -> 0 <= i <= s -> s < zlen v ->
  (forall a b, 0 <= a <= b -> b <= s -> a <> i -> b <> i -> vat v a <= vat v b) ->
  (forall b, i < b <= s -> vat v i <= vat v b) ->
  exists v', insert_down fuel i v = Ok v' /\ v' ≡ₚ v /\ sorted_on 0 s v'.
Proof.
  induction fuel as [|fuel IH]; intros i s v Hf Hi Hs Hrest Hright; [lia|]. cbn [insert_down].
  destruct (Z.ltb_spec 0 i) as [Hpos|Hz].
  2: { exists v. split; [done|]. split; [done|]. assert (i = 0) as -> by lia. intros a b Ha Hb.
       destruct (decide (a = 0)) as [->|]; [|apply Hrest; lia]. destruct (decide (b = 0)) as [->|]; [lia|apply Hright; lia]. }
  rewrite !vget_ok by lia. cbn [mbind outcome_bind]. destruct (Z.ltb_spec (vat v i) (vat v (i - 1))) as [Hlt|Hge].
  2: { exists v. split; [done|]. split; [done|]. intros a b Ha Hb.
       destruct (decide (a = i)) as [->|Hai]; destruct (decide (b = i)) as [->|Hbi]; [lia|apply Hright; lia| |by apply Hrest].
       destruct (decide (a = i - 1)) as [->|]; [lia|]. etrans; [|exact Hge]. apply Hrest; lia. }
  rewrite vswap_ok by lia. cbn [mbind outcome_bind].
  assert (forall k, 0 <= k -> vat (swapped v i (i - 1)) k = if decide (k = i - 1) then vat v i else if decide (k = i) then vat v (i - 1) else vat v k) as Hat
    by (intros; apply vat_swapped; lia).
  destruct (IH (i - 1) s (swapped v i (i - 1))) as (v' & E & Hp & Hsort); [lia|lia|by rewrite zlen_swapped| | |].
  - intros a b Ha Hb Hai Hbi. rewrite !Hat by lia. rewrite (decide_False (P := a = i - 1)), (decide_False (P := b = i - 1)) by lia.
    destruct (decide (a = i)) as [->|Ha1]; destruct (decide (b = i)) as [->|Hb1]; [lia|apply Hrest; lia|apply Hrest; lia|by apply Hrest].
  - intros b Hb. rewrite !Hat by lia. rewrite decide_True by lia. rewrite (decide_False (P := b = i - 1)) by lia.
    destruct (decide (b = i)) as [->|]; [lia|apply Hright; lia].
  - exists v'. split; [done|]. split; [|done]. rewrite Hp. apply swapped_permutation; lia.
Qed.

Lemma insert_loop_ok fuel : forall s v, 0 <= s <= zlen v -> zlen v - s < Z.of_nat fuel -> sorted_on 0 (s - 1) v ->
  exists v', insert_loop fuel s v = Ok v' /\ sorts v v'.
Proof.
  induction fuel as [|fuel IH]; intros s v Hs Hf Hsort; [lia|]. cbn [insert_loop].
  destruct (Z.ltb_spec s (zlen v)) as [Hlt|Hge].
  2: { exists v. split; [done|]. split; [done|]. by assert (s = zlen v) as -> by lia. }
  destruct (insert_down_ok (S (length v)) s s v) as (v1 & E1 & Hp & Hsort1); [unfold zlen in *; lia|lia|lia|intros; apply Hsort; lia|lia|].
  rewrite E1. cbn [mbind outcome_bind]. pose proof (zlen_permutation _ _ Hp) as Hl.
  destruct (IH (s + 1) v1) as (v' & E & Hp' & H'); [lia|lia|by replace (s + 1 - 1) with s by lia|].
  exists v'. split; [done|]. split; [by rewrite Hp'|done].
Qed.

(** ** Lemmas: bubble sort *)

Lemma rearranges_step lo hi (v v' : list Z) i j :
  0 <= lo <= i -> i <= hi -> lo <= j <= hi -> hi < zlen v -> rearranges lo hi (swapped v i j) v' -> rearranges lo hi v v'.
Proof. intros ? ? ? ? H. eapply rearranges_trans; [|exact H]. apply rearranges_swap; lia. Qed.

Lemma bubble_pass_ok fuel : forall i s b v,
  i - s < Z.of_nat fuel -> 0 <= s <= i -> i < zlen v ->
  (forall k, i <= k < zlen v -> vat v i <= vat v k) ->
  (b = false -> sorted_on i (zlen v - 1) v) ->
  exists b' v', bubble_pass fuel i s b v = Ok (b', v') /\ rearranges s (zlen v - 1) v v' /\
    (forall k, s <= k < zlen v -> vat v' s <= vat v' k) /\ (b' = false -> v' = v /\ sorted_on s (zlen v - 1) v).
Proof.
  induction fuel as [|fuel IH]; intros i s b v Hf Hi Hlen Hmin Hb; [lia|]. cbn [bubble_pass].
  destruct (Z.ltb_spec s i) as [Hlt|Hge].
  2: { exists b, v. assert (i = s) as -> by lia. split; [done|]. split; [apply rearranges_refl|]. split; [done|]. auto. }
  rewrite !vget_ok by lia. cbn [mbind outcome_bind]. destruct (Z.ltb_spec (vat v i) (vat v (i - 1))) as [Hx|Hx].
  - rewrite vswap_ok by lia. cbn [mbind outcome_bind].
    assert (forall k, 0 <= k -> vat (swapped v i (i - 1)) k = if decide (k = i - 1) then vat v i else if decide (k = i) then vat v (i - 1) else vat v k) as Hat
      by (intros; apply vat_swapped; lia).
    destruct (IH (i - 1) s true (swapped v i (i - 1))) as (b' & v' & E & Hr & Hm & Hb'); rewrite ?zlen_swapped in *; [lia|lia|lia| |done|].
    + intros k Hk. rewrite !Hat by lia. rewrite (decide_True (P := i - 1 = i - 1)) by done.
      destruct (decide (k = i - 1)) as [->|]; [lia|]. destruct (decide (k = i)) as [->|]; [lia|apply Hmin; lia].
    + exists b', v'. split; [done|]. split; [apply (rearranges_step _ _ _ _ i (i - 1)); done || lia|]. split; [done|].
      intros ->. destruct (Hb' eq_refl) as [Ev Hs]. exfalso.
      assert (forall fuel i v b' v', bubble_pass fuel i s true v = Ok (b', v') -> b' = true) as Htrue.
      { clear. induction fuel as [|fuel IH]; intros i v b' v'; [done|]. cbn [bubble_pass]. destruct (s <? i); [|by intros [= <- _]].
        destruct (vget v i); [|done]. cbn [mbind outcome_bind]. destruct (vget v (i - 1)); [|done]. cbn [mbind outcome_bind].
        destruct (a <? a0); [|apply IH]. destruct (vswap v i (i - 1)); [|done]. cbn [mbind outcome_bind]. apply IH. }
      apply Htrue in E. done.
  - destruct (IH (i - 1) s b v) as (b' & v' & E & Hr & Hm & Hb'); [lia|lia|lia| | |].
    + intros k Hk. destruct (decide (k = i - 1)) as [->|]; [lia|]. etrans; [exact Hx|]. apply Hmin. lia.
    + intros Eb j k Hj Hk. specialize (Hb Eb). destruct (decide (j = i - 1)) as [->|]; [|apply Hb; lia].
      destruct (decide (k = i - 1)) as [->|]; [lia|]. etrans; [exact Hx|]. apply Hmin. lia.
    + by exists b', v'.
Qed.

Lemma bubble_loop_ok fuel : forall s v, 0 <= s <= zlen v -> zlen v - s < Z.of_nat fuel -> split_at s v ->
  exists v', bubble_loop fuel s v = Ok v' /\ sorts v v'.
Proof.
  induction fuel as [|fuel IH]; intros s v Hs Hf Hsplit; [lia|]. cbn [bubble_loop].
  destruct (Z.ltb_spec s (zlen v)) as [Hlt|Hge].
  2: { exists v. split; [done|]. split; [done|]. apply split_end. by assert (s = zlen v) as -> by lia. }
  destruct (bubble_pass_ok (S (length v)) (zlen v - 1) s false v) as (b & v1 & E1 & Hr & Hmin & Hb).
  - unfold zlen in *. lia.
  - lia.
  - lia.
  - intros k Hk. assert (k = zlen v - 1) as -> by lia. lia.
  - intros _ i j Hi Hj. assert (i = j) as -> by lia. lia.
  - rewrite E1. cbn [mbind outcome_bind]. pose proof (rearranges_zlen _ _ _ _ Hr) as Hl. destruct b; cbn [negb].
    + destruct (IH (s + 1) v1) as (v' & E & Hp & H'); [lia|lia|apply (split_next s v); done || lia|].
      exists v'. split; [done|]. split; [|done]. rewrite Hp. apply Hr.
    + destruct (Hb eq_refl) as [-> Hsort]. exists v. split; [done|]. split; [done|]. destruct Hsplit as [Hlow Hle].
      intros i j Hi Hj. destruct (decide (j < s)); [apply Hlow; lia|]. destruct (decide (i < s)); [apply Hle; lia|apply Hsort; lia].
Qed.

(** ** Lemmas: selection sort *)

Lemma find_min_ok fuel : forall i m s v,
  zlen v - i < Z.of_nat fuel -> 0 <= s <= m -> m < i -> i <= zlen v ->
  (forall k, s <= k < i -> vat v m <= vat v k) ->
  exists m', find_min fuel i m v = Ok m' /\ s <= m' < zlen v /\ forall k, s <= k < zlen v -> vat v m' <= vat v k.
Proof.
  induction fuel as [|fuel IH]; intros i m s v Hf Hs Hm Hi Hmin; [lia|]. cbn [find_min].
  destruct (Z.ltb_spec i (zlen v)) as [Hlt|Hge].
  2: { exists m. split; [done|]. split; [lia|]. intros k Hk. apply Hmin. lia. }
  rewrite !vget_ok by lia. cbn [mbind outcome_bind]. destruct (Z.ltb_spec (vat v i) (vat v m)) as [Hx|Hx].
  - apply (IH (i + 1) i s v); [lia..|]. intros k Hk. destruct (decide (k = i)) as [->|]; [lia|]. specialize (Hmin k ltac:(lia)). lia.
  - apply (IH (i + 1) m s v); [lia..|]. intros k Hk. destruct (decide (k = i)) as [->|]; [lia|]. apply Hmin. lia.
Qed.

Lemma select_loop_ok fuel : forall s v, 0 <= s <= zlen v -> zlen v - s < Z.of_nat fuel -> split_at s v ->
  exists v', select_loop fuel s v = Ok v' /\ sorts v v'.
Proof.
  induction fuel as [|fuel IH]; intros s v Hs Hf Hsplit; [lia|]. cbn [select_loop].
  destruct (Z.ltb_spec s (zlen v)) as [Hlt|Hge].
  2: { exists v. split; [done|]. split; [done|]. apply split_end. by assert (s = zlen v) as -> by lia. }
  destruct (find_min_ok (S (length v)) (s + 1) s s v) as (m & E1 & Hm & Hmin); [unfold zlen in *; lia|lia|lia|lia| |].
  { intros k Hk. assert (k = s) as -> by lia. lia. }
  rewrite E1. cbn [mbind outcome_bind]. rewrite vswap_ok by lia. cbn [mbind outcome_bind].
  assert (rearranges s (zlen v - 1) v (swapped v s m)) as Hr by (apply rearranges_swap; lia).
  destruct (IH (s + 1) (swapped v s m)) as (v' & E & Hp & H'); rewrite ?zlen_swapped; [lia|lia| |].
  - apply (split_next s v); [lia|done|done|]. intros j Hj. rewrite !vat_swapped by lia.
    destruct (decide (s = m)) as [<-|Hne].
    + destruct (decide (j = s)) as [->|]; [lia|apply Hmin; lia].
    + rewrite (decide_True (P := s = s)) by done. destruct (decide (j = m)) as [->|]; [apply Hmin; lia|].
      destruct (decide (j = s)) as [->|]; [lia|apply Hmin; lia].
  - exists v'. split; [done|]. split; [|done]. rewrite Hp. apply Hr.
Qed.

(** ** Lemmas: quick sort *)

(** [[lo, i)] is below the pivot, [[i, j)] is not. *)
Lemma partition_loop_ok fuel : forall i j lo hi pivot v,
  hi - j < Z.of_nat fuel -> 0 <= lo <= i -> i <= j <= hi -> hi < zlen v -> vat v hi = pivot ->
  (forall k, lo <= k < i -> vat v k < pivot) -> (forall k, i <= k < j -> pivot <= vat v k) ->
  exists p v', partition_loop fuel i j hi pivot v = Ok (p, v') /\ lo <= p <= hi /\ rearranges lo hi v v' /\ vat v' hi = pivot /\
    (forall k, lo <= k < p -> vat v' k < pivot) /\ (forall k, p <= k < hi -> pivot <= vat v' k).
Proof.
  induction fuel as [|fuel IH]; intros i j lo hi pivot v Hf Hlo Hij Hhi Hpiv Hlow Hhigh; [lia|]. cbn [partition_loop].
  destruct (Z.ltb_spec j hi) as [Hlt|Hge].
  2: { exists i, v. split; [done|]. split; [lia|]. split; [apply rearranges_refl|]. split; [done|]. split; [done|].
       intros k Hk. apply Hhigh. lia. }
  rewrite vget_ok by lia. cbn [mbind outcome_bind]. destruct (Z.ltb_spec (vat v j) pivot) as [Hx|Hx].
  - rewrite vswap_ok by lia. cbn [mbind outcome_bind].
    assert (forall k, 0 <= k -> vat (swapped v i j) k = if decide (k = j) then vat v i else if decide (k = i) then vat v j else vat v k) as Hat
      by (intros; apply vat_swapped; lia).
    destruct (IH (i + 1) (j + 1) lo hi pivot (swapped v i j)) as (p & v' & E & Hp & Hr & Hv & Hl & Hh); rewrite ?zlen_swapped in *; [lia..| | | |].
    + rewrite Hat by lia. by rewrite !decide_False by lia.
    + intros k Hk. rewrite Hat by lia. destruct (decide (k = j)) as [->|]; [assert (i = j) as -> by lia; done|].
      destruct (decide (k = i)) as [->|]; [done|]. apply Hlow. lia.
    + intros k Hk. rewrite Hat by lia. destruct (decide (k = j)) as [->|]; [apply Hhigh; lia|].
      rewrite decide_False by lia. apply Hhigh. lia.
    + exists p, v'. split; [done|]. split; [lia|]. split; [|done]. apply (rearranges_step _ _ _ _ i j); done || lia.
  - apply (IH i (j + 1) lo hi pivot v); try done; try lia. intros k Hk. destruct (decide (k = j)) as [->|]; [done|]. apply Hhigh. lia.
Qed.

Lemma partition_ok v lo hi :
  0 <= lo <= hi -> hi < zlen v ->
  exists p v', partition v lo hi = Ok (p, v') /\ lo <= p <= hi /\ rearranges lo hi v v' /\
    (forall k, lo <= k < p -> vat v' k <= vat v' p) /\ (forall k, p < k <= hi -> vat v' p <= vat v' k).
Proof.
  intros Hlo Hhi. unfold partition. rewrite vget_ok by lia. cbn [mbind outcome_bind].
  destruct (partition_loop_ok (S (length v)) lo lo lo hi (vat v hi) v) as (p & v1 & E & Hp & Hr & Hv & Hl & Hh); [unfold zlen in *; lia|lia..|].
  rewrite E. cbn [mbind outcome_bind]. pose proof (rearranges_zlen _ _ _ _ Hr) as Hlen. rewrite vswap_ok by lia. cbn [mbind outcome_bind].
  assert (forall k, 0 <= k -> vat (swapped v1 p hi) k = if decide (k = hi) then vat v1 p else if decide (k = p) then vat v1 hi else vat v1 k) as Hat
    by (intros; apply vat_swapped; lia).
  assert (vat (swapped v1 p hi) p = vat v hi) as Hpiv.
  { rewrite Hat by lia. destruct (decide (p = hi)) as [->|]; [done|]. by rewrite decide_True. }
  exists p, (swapped v1 p hi). split; [done|]. split; [done|]. split; [eapply rearranges_trans; [exact Hr|]; apply rearranges_swap; lia|].
  rewrite Hpiv. split; intros k Hk; rewrite Hat by lia.
  - rewrite !decide_False by lia. specialize (Hl k ltac:(lia)). lia.
  - destruct (decide (k = hi)) as [->|]; [apply Hh; lia|]. rewrite decide_False by lia. apply Hh. lia.
Qed.

Lemma quickSort_range_ok fuel : forall lo hi v,
  hi - lo < Z.of_nat fuel -> 0 <= lo -> hi < zlen v ->
  exists v', quickSort_range fuel lo hi v = Ok v' /\ rearranges lo hi v v' /\ sorted_on lo hi v'.
Proof.
  induction fuel as [|fuel IH]; intros lo hi v Hf Hlo Hhi; cbn [quickSort_range]; destruct (Z.leb_spec hi lo) as [Hle|Hlt];
    try (exists v; split; [done|]; split; [apply rearranges_refl|]; intros i j Hi Hj; assert (i = j) as -> by lia; lia); [lia|].
  destruct (partition_ok v lo hi ltac:(lia) Hhi) as (p & v1 & E1 & Hp & Hr1 & Hl1 & Hh1). rewrite E1. cbn [mbind outcome_bind].
  pose proof (rearranges_zlen _ _ _ _ Hr1) as L1.
  destruct (IH lo (p - 1) v1) as (v2 & E2 & Hr2 & S2); [lia..|]. rewrite E2. cbn [mbind outcome_bind].
  pose proof (rearranges_zlen _ _ _ _ Hr2) as L2. pose proof Hr2 as [_ F2].
  destruct (IH (p + 1) hi v2) as (v3 & E3 & Hr3 & S3); [lia..|]. rewrite E3. pose proof Hr3 as [_ F3].
  exists v3. split; [done|]. split.
  { eapply rearranges_trans; [exact Hr1|]. eapply rearranges_trans; [apply (rearranges_mono lo (p - 1)); done || lia|].
    apply (rearranges_mono (p + 1) hi); [lia|lia|done]. }
  assert (vat v3 p = vat v1 p) as Epiv by (rewrite F3, F2 by lia; done).
  assert (forall k, lo <= k <= p - 1 -> vat v3 k <= vat v1 p) as Hlow.
  { intros k Hk. rewrite F3 by lia. apply (rearranges_all (fun x => x <= vat v1 p) lo (p - 1) v1 v2); [lia|lia|done|intros; apply Hl1; lia|lia]. }
  assert (forall k, p + 1 <= k <= hi -> vat v1 p <= vat v3 k) as Hhigh.
  { intros k Hk. apply (rearranges_all (fun x => vat v1 p <= x) (p + 1) hi v2 v3); [lia|lia|done| |lia].
    intros k' Hk'. rewrite F2 by lia. apply Hh1. lia. }
  intros i j Hi Hj. destruct (decide (j < p)); [rewrite !F3 by lia; apply S2; lia|].
  destruct (decide (i > p)); [apply S3; lia|].
  assert (vat v3 i <= vat v1 p) by (destruct (decide (i = p)) as [->|]; [lia|apply Hlow; lia]).
  assert (vat v1 p <= vat v3 j) by (destruct (decide (j = p)) as [->|]; [lia|apply Hhigh; lia]). lia.
Qed.

(** ** Lemmas: merge sort *)

Lemma slice_cons (v : list Z) a b : 0 <= a < b -> b <= zlen v -> slice v a b = vat v a :: slice v (a + 1) b.
Proof.
  intros Ha Hb. rewrite <- (slice_app v a (a + 1) b) by lia.
  assert (slice v a (a + 1) = [vat v a]) as ->; [|done].
  unfold slice. replace (Z.to_nat (a + 1 - a)) with 1%nat by lia. by rewrite (drop_S _ _ _ (vat_list v a ltac:(lia))).
Qed.

Lemma slice_vat (v : list Z) a b i : 0 <= a -> b <= zlen v -> 0 <= i < b - a -> vat (slice v a b) i = vat v (a + i).
Proof.
  intros Ha Hb Hi. unfold vat, slice. rewrite list_lookup_total_alt, lookup_take_lt, lookup_drop by lia.
  replace (Z.to_nat (a + i)) with (Z.to_nat a + Z.to_nat i)%nat by lia. by rewrite list_lookup_total_alt.
Qed.

Lemma sorted_vat (l : list Z) : StronglySorted Z.le l <-> sorted_on 0 (zlen l - 1) l.
Proof.
  split.
  - induction 1 as [|x l Hs IH Hx]; intros i j Hi Hj; [unfold zlen in Hj; cbn in Hj; lia|]. rewrite zlen_cons in Hj.
    rewrite !vat_cons by lia. destruct (decide (i = 0)) as [->|]; destruct (decide (j = 0)) as [->|]; [lia| |lia|apply IH; lia].
    rewrite Forall_lookup in Hx. apply (Hx (Z.to_nat (j - 1))). apply vat_list. lia.
  - induction l as [|x l IH]; intros Hs; constructor.
    + apply IH. intros i j Hi Hj. specialize (Hs (i + 1) (j + 1) ltac:(lia) ltac:(rewrite zlen_cons; lia)).
      rewrite !vat_cons, !decide_False in Hs by lia. by rewrite !Z.add_simpl_r in Hs.
    + apply Forall_lookup. intros i y Hy. pose proof (lookup_lt_Some _ _ _ Hy).
      specialize (Hs 0 (Z.of_nat i + 1) ltac:(lia) ltac:(rewrite zlen_cons; unfold zlen; lia)).
      rewrite !vat_cons, (decide_False (P := Z.of_nat i + 1 = 0)) in Hs by lia. rewrite decide_True in Hs by done. rewrite Z.add_simpl_r in Hs. unfold vat in Hs.
      rewrite Nat2Z.id, (list_lookup_total_correct _ _ _ Hy) in Hs. done.
Qed.

Lemma sorted_slice v lo hi : 0 <= lo <= hi + 1 -> hi < zlen v -> sorted_on lo hi v <-> StronglySorted Z.le (slice v lo (hi + 1)).
Proof.
  intros Hlo Hhi. rewrite sorted_vat. pose proof (zlen_slice v lo (hi + 1) ltac:(lia) ltac:(lia)) as Hl. split; intros Hs i j Hi Hj.
  - rewrite !slice_vat by lia. apply Hs; lia.
  - specialize (Hs (i - lo) (j - lo) ltac:(lia) ltac:(lia)). rewrite !slice_vat in Hs by lia.
    by replace (lo + (i - lo)) with i in Hs by lia; replace (lo + (j - lo)) with j in Hs by lia.
Qed.

(** An array rewritten on [[lo, hi]] only, with the same elements there. *)
Lemma rearranges_of_slice lo hi (v v' : list Z) :
  0 <= lo <= hi + 1 -> hi < zlen v -> zlen v' = zlen v -> (forall k, 0 <= k < lo \/ hi < k < zlen v -> vat v' k = vat v k) ->
  slice v' lo (hi + 1) ≡ₚ slice v lo (hi + 1) -> rearranges lo hi v v'.
Proof.
  intros Hlo Hhi Hl Hsame Hp. split; [|done].
  assert (forall w : list Z, zlen w = zlen v -> w = slice w 0 lo ++ slice w lo (hi + 1) ++ slice w (hi + 1) (zlen v)) as Hsplit.
  { intros w Hw. rewrite !slice_app by lia. rewrite <- Hw. by rewrite slice_full. }
  assert (slice v' 0 lo ++ slice v' lo (hi + 1) ++ slice v' (hi + 1) (zlen v) ≡ₚ
          slice v 0 lo ++ slice v lo (hi + 1) ++ slice v (hi + 1) (zlen v)) as Hm.
  { rewrite (slice_ext v v' 0 lo), (slice_ext v v' (hi + 1) (zlen v)); [|lia|lia|done|intros; apply Hsame; lia|lia|lia|done|intros; apply Hsame; lia].
    by rewrite Hp. }
  by rewrite <- (Hsplit v' Hl), <- (Hsplit v eq_refl) in Hm.
Qed.

(** [temp[i..m]] is copied to [arr[k..]]. *)
Lemma copy_rest_ok fuel : forall i k m temp arr,
  m + 1 - i < Z.of_nat fuel -> 0 <= i <= m + 1 -> m < zlen temp -> 0 <= k -> k + (m + 1 - i) <= zlen arr ->
  exists arr', copy_rest fuel i k m temp arr = Ok (k + (m + 1 - i), arr') /\ zlen arr' = zlen arr /\
    slice arr' k (k + (m + 1 - i)) = slice temp i (m + 1) /\
    (forall p, 0 <= p < k \/ k + (m + 1 - i) <= p -> vat arr' p = vat arr p).
Proof.
  induction fuel as [|fuel IH]; intros i k m temp arr Hf Hi Hm Hk Hroom; [lia|]. cbn [copy_rest].
  destruct (Z.leb_spec i m) as [Hle|Hgt].
  2: { exists arr. replace (k + (m + 1 - i)) with k by lia. split; [done|]. split; [done|]. split; [by rewrite !slice_nil by lia|done]. }
  rewrite vget_ok by lia. cbn [mbind outcome_bind]. rewrite vset_ok by lia. cbn [mbind outcome_bind].
  destruct (IH (i + 1) (k + 1) m temp (vupd arr k (vat temp i))) as (arr' & E & Hl & Hs & Hsame); rewrite ?zlen_vupd in *; [lia..|].
  replace (k + 1 + (m + 1 - (i + 1))) with (k + (m + 1 - i)) in * by lia.
  exists arr'. split; [done|]. split; [done|]. split.
  - rewrite (slice_cons arr'), (slice_cons temp) by lia. rewrite Hs. f_equal. rewrite Hsame by lia. by rewrite vat_vupd_eq by lia.
  - intros p Hp. rewrite Hsame by lia. apply vat_vupd_ne; lia.
Qed.

(** The three loops of [merge] after each other. *)
Definition merge_from (fuel fuel' : nat) (i j k m n : Z) (temp arr : list Z) : outcome (list Z) :=
  '(i, j, k, arr) ← merge_loop fuel i j k m n temp arr;
  '(k, arr) ← copy_rest fuel' i k m temp arr;
  '(k, arr) ← copy_rest fuel' j k n temp arr;
  Ok arr.

Lemma merge_from_ok fuel fuel' : forall i j k m n temp arr,
  (m + 1 - i) + (n + 1 - j) < Z.of_nat fuel -> zlen temp < Z.of_nat fuel' ->
  0 <= i <= m + 1 -> m < j -> j <= n + 1 -> n < zlen temp -> 0 <= k -> k + (m + 1 - i) + (n + 1 - j) <= zlen arr ->
  let e := k + (m + 1 - i) + (n + 1 - j) in
  exists arr', merge_from fuel fuel' i j k m n temp arr = Ok arr' /\ zlen arr' = zlen arr /\
    slice arr' k e = list_merge Z.le (slice temp i (m + 1)) (slice temp j (n + 1)) /\
    (forall p, 0 <= p < k \/ e <= p -> vat arr' p = vat arr p).
Proof.
  induction fuel as [|fuel IH]; intros i j k m n temp arr Hf Hf' Hi Hj Hjn Hn Hk Hroom e; [lia|]. unfold merge_from. cbn [merge_loop].
  destruct (Z.leb_spec i m) as [Him|Him]; destruct (Z.leb_spec j n) as [Hjn'|Hjn']; cbn [andb].
  - rewrite !vget_ok by lia. cbn [mbind outcome_bind].
    rewrite (slice_cons temp i), (slice_cons temp j) by lia. rewrite list_merge_cons.
    destruct (Z.leb_spec (vat temp i) (vat temp j)) as [Hx|Hx].
    + rewrite vset_ok by lia. cbn [mbind outcome_bind]. rewrite decide_True by done.
      destruct (IH (i + 1) j (k + 1) m n temp (vupd arr k (vat temp i))) as (arr' & E & Hl & Hs & Hsame); rewrite ?zlen_vupd in *; [lia..|].
      replace (k + 1 + (m + 1 - (i + 1)) + (n + 1 - j)) with e in * by lia.
      exists arr'. split; [exact E|]. split; [done|]. split.
      * rewrite (slice_cons arr') by lia. rewrite Hs, Hsame by lia. rewrite vat_vupd_eq by lia. by rewrite (slice_cons temp j) by lia.
      * intros p Hp. rewrite Hsame by lia. apply vat_vupd_ne; lia.
    + rewrite vset_ok by lia. cbn [mbind outcome_bind]. rewrite decide_False by lia.
      destruct (IH i (j + 1) (k + 1) m n temp (vupd arr k (vat temp j))) as (arr' & E & Hl & Hs & Hsame); rewrite ?zlen_vupd in *; [lia..|].
      replace (k + 1 + (m + 1 - i) + (n + 1 - (j + 1))) with e in * by lia.
      exists arr'. split; [exact E|]. split; [done|]. split.
      * rewrite (slice_cons arr') by lia. rewrite Hs, Hsame by lia. rewrite vat_vupd_eq by lia. by rewrite (slice_cons temp i) by lia.
      * intros p Hp. rewrite Hsame by lia. apply vat_vupd_ne; lia.
  - cbn [mbind outcome_bind]. destruct (copy_rest_ok fuel' i k m temp arr) as (a1 & E1 & L1 & S1 & F1); [lia..|]. rewrite E1. cbn [mbind outcome_bind].
    destruct (copy_rest_ok fuel' j (k + (m + 1 - i)) n temp a1) as (a2 & E2 & L2 & S2 & F2); [lia..|]. rewrite E2. cbn [mbind outcome_bind].
    exists a2. split; [done|]. split; [congruence|]. rewrite (slice_nil temp j) by lia. rewrite list_merge_nil_r. split.
    + rewrite <- S1. replace e with (k + (m + 1 - i)) by lia. apply slice_ext; [lia|lia|congruence|]. intros p Hp. apply F2. lia.
    + intros p Hp. rewrite F2, F1 by lia. done.
  - cbn [mbind outcome_bind]. destruct (copy_rest_ok fuel' i k m temp arr) as (a1 & E1 & L1 & S1 & F1); [lia..|]. rewrite E1. cbn [mbind outcome_bind].
    destruct (copy_rest_ok fuel' j (k + (m + 1 - i)) n temp a1) as (a2 & E2 & L2 & S2 & F2); [lia..|]. rewrite E2. cbn [mbind outcome_bind].
    exists a2. split; [done|]. split; [congruence|]. rewrite (slice_nil temp i) by lia. rewrite list_merge_nil_l. split.
    + rewrite <- S2. replace (k + (m + 1 - i)) with k by lia. f_equal. lia.
    + intros p Hp. rewrite F2, F1 by lia. done.
  - cbn [mbind outcome_bind]. destruct (copy_rest_ok fuel' i k m temp arr) as (a1 & E1 & L1 & S1 & F1); [lia..|]. rewrite E1. cbn [mbind outcome_bind].
    destruct (copy_rest_ok fuel' j (k + (m + 1 - i)) n temp a1) as (a2 & E2 & L2 & S2 & F2); [lia..|]. rewrite E2. cbn [mbind outcome_bind].
    exists a2. split; [done|]. split; [congruence|]. rewrite (slice_nil temp i), (slice_nil temp j), slice_nil by lia. split; [done|].
    intros p Hp. rewrite F2, F1 by lia. done.
Qed.

Lemma merge_ok v lo mid hi :
  0 <= lo <= mid -> mid < hi -> hi < zlen v -> sorted_on lo mid v -> sorted_on (mid + 1) hi v ->
  exists v', merge v lo mid hi = Ok v' /\ rearranges lo hi v v' /\ sorted_on lo hi v'.
Proof.
  intros Hlo Hmid Hhi Hl Hr. unfold merge. rewrite (proj2 (Z.leb_le 0 lo)), (proj2 (Z.leb_le lo (hi + 1))), (proj2 (Z.leb_le (hi + 1) (zlen v))) by lia.
  cbn [andb defined_ mbind outcome_bind]. set (temp := slice v lo (hi + 1)).
  assert (zlen temp = hi + 1 - lo) as Ht by (apply zlen_slice; lia).
  destruct (merge_from_ok (S (length temp)) (S (length temp)) 0 (mid - lo + 1) lo (mid - lo) (hi - lo) temp v) as (v' & E & Hlen & Hs & Hsame);
    [unfold zlen in Ht; lia|unfold zlen in *; lia|lia..|].
  replace (lo + (mid - lo + 1 - 0) + (hi - lo + 1 - (mid - lo + 1))) with (hi + 1) in * by lia.
  exists v'. split; [exact E|].
  assert (forall a b, 0 <= a <= b -> b <= hi + 1 - lo -> slice temp a b = slice v (lo + a) (lo + b)) as Hsub.
  { intros a b Ha Hb. apply vat_ext; [rewrite !zlen_slice by lia; lia|]. intros i Hi. rewrite zlen_slice in Hi by lia.
    rewrite !slice_vat by lia. unfold temp. rewrite slice_vat by lia. f_equal. lia. }
  rewrite !Hsub in Hs by lia. replace (lo + 0) with lo in Hs by lia. replace (lo + (mid - lo + 1)) with (mid + 1) in Hs by lia.
  replace (lo + (hi - lo + 1)) with (hi + 1) in Hs by lia. split.
  - apply rearranges_of_slice; [lia|lia|done|intros; apply Hsame; lia|]. rewrite Hs, merge_Permutation. by rewrite slice_app by lia.
  - apply sorted_slice; [lia|lia|]. rewrite Hs. apply Sorted_StronglySorted; [intros x y z; lia|].
    apply Sorted_list_merge; [intros x y; lia| |]; apply StronglySorted_Sorted, sorted_slice; done || lia.
Qed.

Lemma mergeSort_range_ok fuel : forall lo hi v,
  hi - lo < Z.of_nat fuel -> 0 <= lo -> hi < zlen v ->
  exists v', mergeSort_range fuel lo hi v = Ok v' /\ rearranges lo hi v v' /\ sorted_on lo hi v'.
Proof.
  induction fuel as [|fuel IH]; intros lo hi v Hf Hlo Hhi; cbn [mergeSort_range]; destruct (Z.leb_spec hi lo) as [Hle|Hlt];
    try (exists v; split; [done|]; split; [apply rearranges_refl|]; intros i j Hi Hj; assert (i = j) as -> by lia; lia); [lia|].
  set (mid := lo + (hi - lo) ÷ 2). assert (lo <= mid < hi) as Hm.
  { unfold mid. rewrite Z.quot_div_nonneg by lia. pose proof (Z.div_mod (hi - lo) 2 ltac:(lia)). pose proof (Z.mod_pos_bound (hi - lo) 2 ltac:(lia)). lia. }
  destruct (IH lo mid v) as (v1 & E1 & R1 & S1); [lia..|]. rewrite E1. cbn [mbind outcome_bind]. pose proof (rearranges_zlen _ _ _ _ R1) as L1.
  destruct (IH (mid + 1) hi v1) as (v2 & E2 & R2 & S2); [lia..|]. rewrite E2. cbn [mbind outcome_bind]. pose proof (rearranges_zlen _ _ _ _ R2) as L2.
  destruct (merge_ok v2 lo mid hi) as (v3 & E3 & R3 & S3); [lia..| |done|].
  { intros i j Hi Hj. destruct R2 as [_ F2]. rewrite !F2 by lia. apply S1; lia. }
  exists v3. split; [done|]. split; [|done]. eapply rearranges_trans; [apply (rearranges_mono lo mid); [lia|lia|exact R1]|].
  eapply rearranges_trans; [apply (rearranges_mono (mid + 1) hi); [lia|lia|exact R2]|exact R3].
Qed.

(** ** Lemmas: heap sort *)

Lemma heap_sink_ok lo i n v :
  0 <= lo <= i -> i < n -> n <= zlen v ->
  (forall j, 0 < j < n -> lo <= parent j -> parent j <> i -> ordered greater_child (parent j) j v) ->
  (forall j, 0 < j < n -> parent j = i -> lo <= parent i -> 0 < i -> ordered greater_child (parent i) j v) ->
  exists v', heapSort_sink v i n = Ok v' /\ rearranges 0 (n - 1) v v' /\ heap_from greater_child lo n v'.
Proof.
  intros Hlo Hi Hn Hother Hgrand. unfold heapSort_sink.
  destruct (sink_ok greater_child greater_child_order (Z.to_nat n) lo i n v) as (v' & E & Hp & Hh & Hrest); [lia..|done|done|].
  exists v'. split; [done|]. split; [|done]. split; [done|]. intros k Hk. apply Hrest. lia.
Qed.

Lemma build_heap_ok fuel : forall i v,
  i + 1 < Z.of_nat fuel -> -1 <= i -> i < zlen v -> heap_from greater_child (i + 1) (zlen v) v ->
  exists v', build_heap fuel i v = Ok v' /\ v' ≡ₚ v /\ heap_from greater_child 0 (zlen v') v'.
Proof.
  induction fuel as [|fuel IH]; intros i v Hf Hi Hlen Hh; [lia|]. cbn [build_heap]. destruct (Z.leb_spec 0 i) as [Hpos|Hneg].
  2: { exists v. split; [done|]. split; [done|]. by replace 0 with (i + 1) by lia. }
  destruct (heap_sink_ok i i (zlen v) v) as (v1 & E1 & [Hp1 _] & Hh1); [lia|lia|lia| | |].
  - intros j Hj Hp Hne. apply Hh; lia.
  - intros j Hj Ep Hp Hpos'. pose proof (parent_bounds i Hpos'). lia.
  - rewrite E1. cbn [mbind outcome_bind]. pose proof (zlen_permutation _ _ Hp1) as L1.
    destruct (IH (i - 1) v1) as (v' & E & Hp & Hh'); [lia|lia|lia|rewrite L1; by replace (i - 1 + 1) with i by lia|].
    exists v'. split; [done|]. split; [by rewrite Hp|done].
Qed.

(** [[0, i]] is a heap, below the sorted rest. *)
Lemma extract_loop_ok fuel : forall i v,
  i + 1 < Z.of_nat fuel -> 0 <= i + 1 <= zlen v -> heap_from greater_child 0 (i + 1) v ->
  sorted_on (i + 1) (zlen v - 1) v -> (forall a b, 0 <= a <= i -> i < b < zlen v -> vat v a <= vat v b) ->
  exists v', extract_loop fuel i v = Ok v' /\ v' ≡ₚ v /\ sorted_on 0 (zlen v - 1) v'.
Proof.
  induction fuel as [|fuel IH]; intros i v Hf Hi Hh Hs Hle.
  { lia. }
  cbn [extract_loop]. destruct (Z.ltb_spec 0 i) as [Hpos|Hz].
  2: { exists v. split; [done|]. split; [done|]. intros a b Ha Hb. destruct (decide (a = b)) as [->|]; [lia|].
       destruct (decide (a <= i)); [apply Hle; lia|apply Hs; lia]. }
  rewrite vswap_ok by lia. cbn [mbind outcome_bind]. set (w := swapped v 0 i).
  assert (forall k, 0 <= k -> vat w k = if decide (k = i) then vat v 0 else if decide (k = 0) then vat v i else vat v k) as Hat
    by (intros; apply vat_swapped; lia).
  assert (zlen w = zlen v) as Lw by apply zlen_swapped.
  assert (forall k, 0 <= k <= i -> vat v k <= vat v 0) as Hroot.
  { intros k Hk. pose proof (root_greatest greater_child greater_child_order (i + 1) v Hh k ltac:(lia)) as H.
    unfold greater_child in H. by apply Z.ltb_ge in H. }
  destruct (heap_sink_ok 0 0 i w) as (v1 & E1 & R1 & Hh1); [lia|lia|lia| |lia|].
  - intros j Hj _ Hne. pose proof (parent_bounds j ltac:(lia)). unfold ordered. rewrite !Hat by lia. rewrite !decide_False by lia. apply Hh; lia.
  - rewrite E1. cbn [mbind outcome_bind]. pose proof (rearranges_zlen _ _ _ _ R1) as L1. pose proof R1 as [P1 F1].
    assert (forall a, 0 <= a <= i - 1 -> vat v1 a <= vat v 0) as Hlow.
    { apply (rearranges_all (fun x => x <= vat v 0) 0 (i - 1) w v1); [lia|lia|done|]. intros k Hk. rewrite Hat by lia.
      rewrite decide_False by lia. destruct (decide (k = 0)); apply Hroot; lia. }
    assert (forall b, i < b < zlen v -> vat v1 b = vat v b) as Hrest by (intros b Hb; rewrite F1, Hat by lia; by rewrite !decide_False by lia).
    assert (vat v1 i = vat v 0) as Hi1 by (rewrite F1, Hat by lia; by rewrite decide_True).
    destruct (IH (i - 1) v1) as (v' & E & Hp & Hs').
    + lia.
    + lia.
    + by replace (i - 1 + 1) with i by lia.
    + intros a b Ha Hb. destruct (decide (a = i)) as [->|]; [|rewrite !Hrest by lia; apply Hs; lia].
      destruct (decide (b = i)) as [->|]; [lia|]. rewrite Hi1, Hrest by lia. apply Hle; lia.
    + intros a b Ha Hb. destruct (decide (b = i)) as [->|]; [rewrite Hi1; apply Hlow; lia|]. rewrite (Hrest b) by lia.
      etrans; [apply Hlow; lia|]. apply Hle; lia.
    + exists v'. split; [done|]. split; [|by replace (zlen v) with (zlen v1) by lia]. rewrite Hp, P1. apply swapped_permutation; lia.
Qed.

Lemma heapSort_ok v : exists v', heapSort v = Ok v' /\ sorts v v'.
Proof.
  pose proof (zlen_nonneg v). unfold heapSort. rewrite Z.quot_div_nonneg by lia. pose proof (Z.div_mod (zlen v) 2 ltac:(lia)). pose proof (Z.mod_pos_bound (zlen v) 2 ltac:(lia)).
  destruct (build_heap_ok (S (length v)) (zlen v / 2 - 1) v) as (v1 & E1 & P1 & Hv1); [unfold zlen in *; lia|lia| | |].
  - destruct (decide (zlen v = 0)); [|lia]. lia.
  - intros j Hj Hp. exfalso. pose proof (parent_bounds j ltac:(lia)).
    pose proof (proj1 (parent_spec j (parent j) ltac:(lia) ltac:(lia)) eq_refl) as [E|E]; unfold left_, right_ in E; lia.
  - rewrite E1. cbn [mbind outcome_bind]. pose proof (zlen_permutation _ _ P1) as L1.
    destruct (extract_loop_ok (S (length v1)) (zlen v1 - 1) v1) as (v' & E & P & S').
    + unfold zlen. lia.
    + lia.
    + by replace (zlen v1 - 1 + 1) with (zlen v1) by lia.
    + apply sorted_on_empty. lia.
    + lia.
    + exists v'. split; [done|]. split; [by rewrite P|]. by rewrite (zlen_permutation _ _ P).
Qed.

Lemma range_sorts v v' : rearranges 0 (zlen v - 1) v v' -> sorted_on 0 (zlen v - 1) v' -> sorts v v'.
Proof. intros Hr Hs. split; [apply Hr|]. by rewrite (rearranges_zlen _ _ _ _ Hr). Qed.

Lemma sorts_nil : sorts [] [].
Proof. split; [done|]. apply sorted_on_empty. unfold zlen. cbn. lia. Qed.

(** ** Properties *)

