(* ===== verification/Sudoku.v ===== *)
(** * Sudoku: three solvers by backtracking

    Models [sudoku/neighbor.cc], [sudoku_basic.cc], [sudoku_min_arity.cc] and
    [sudoku_min_arity_cache.cc], with the declarations of [sudoku.h]: the
    table of neighbors, the reading of a puzzle, the three solvers and the
    check [solved].  The solvers are one recursion, [search], with their own
    ways to choose the next space, to test a guess, and to hold and unhold
    it.  The recursion carries fuel, one more than the spaces that are left.
    The solver by dancing links is in SudokuDance.v. *)
From S2P Require Import Prelude CFormat Vector.
From Stdlib Require Import Strings.Byte Permutation.

Definition ROW : Z := 9.
Definition COL : Z := 9.
Definition NUM : Z := 9.
Definition N : Z := 81.
Definition NEIGHBOR : Z := 20.

(** ** neighbor.cc *)

(** [a[y][x]]. *)
Definition vget2 {A} `{!Inhabited A} (a : list (list A)) (y x : Z) : outcome A := r ← vget a y; vget r x.
Definition vset2 {A} `{!Inhabited A} (a : list (list A)) (y x : Z) (v : A) : outcome (list (list A)) :=
  r ← vget a y; r ← vset r x v; vset a y r.

Definition for_ {S} (lo n : Z) (body : S -> Z -> outcome S) (s : S) : outcome S := foldM body s (seqZ lo (n - lo)).

Definition mark_adjacent (adjacent : list (list bool)) (row col : Z) : outcome (list (list bool)) :=
  a ← for_ 0 NUM (fun a i => a ← vset2 a row i true; vset2 a i col true) adjacent;
  let top := row / 3 * 3 in
  let left := col / 3 * 3 in
  a ← vset2 a top left true; a ← vset2 a top (left + 1) true; a ← vset2 a top (left + 2) true;
  a ← vset2 a (top + 1) left true; a ← vset2 a (top + 1) (left + 1) true; a ← vset2 a (top + 1) (left + 2) true;
  a ← vset2 a (top + 2) left true; a ← vset2 a (top + 2) (left + 1) true; vset2 a (top + 2) (left + 2) true.

(** [myneighbors] so far; its length is [n]. *)
Definition collect_neighbors (adjacent : list (list bool)) (row col : Z) : outcome (list Z) :=
  myneighbors ← for_ 0 ROW (fun l y => for_ 0 COL (fun l x =>
    a ← vget2 adjacent y x;
    if (a : bool) && negb ((y =? row) && (x =? col)) then _ ← assert_ (zlen l <? NEIGHBOR); Ok (l ++ [y * COL + x])
    else Ok l) l) [];
  _ ← assert_ (zlen myneighbors =? NEIGHBOR);
  Ok myneighbors.

Definition init_neighbors : outcome (list (list Z)) :=
  for_ 0 ROW (fun t row => for_ 0 COL (fun t col =>
    let adjacent := replicate 9 (replicate 9 false) in
    a ← mark_adjacent adjacent row col;
    let me := row * COL + col in
    mine ← collect_neighbors a row col;
    vset t me mine) t) (replicate 81 (replicate 20 0)).

(** The table after [init_neighbors]. *)
Definition neighbors : list (list Z) := match init_neighbors with Ok t => t | Fail _ => [] end.

(** [std::count(occurs, occurs + 10, 1) == NUM]. *)
Definition all_once (occurs : list Z) : bool := zlen (filter (fun n => n = 1) occurs) =? NUM.

Definition count_cell (board : list Z) (check : bool) (occurs : list Z) (row col : Z) : outcome (list Z) :=
  val ← vget board (row * COL + col);
  _ ← (if check then assert_ ((1 <=? val) && (val <=? NUM)) else Ok tt);
  n ← vget occurs val; vset occurs val (n + 1).

(** The groups of nine cells in the order [solved] checks them. *)
Definition rows_ : list (list (Z * Z)) := (fun r => (fun c => (r, c)) <$> seqZ 0 9) <$> seqZ 0 9.
Definition cols_ : list (list (Z * Z)) := (fun c => (fun r => (r, c)) <$> seqZ 0 9) <$> seqZ 0 9.
Definition boxes_ : list (list (Z * Z)) :=
  (fun '(r, c) => [(r, c); (r, c + 1); (r, c + 2); (r + 1, c); (r + 1, c + 1); (r + 1, c + 2); (r + 2, c); (r + 2, c + 1); (r + 2, c + 2)])
    <$> [(0, 0); (0, 3); (0, 6); (3, 0); (3, 3); (3, 6); (6, 0); (6, 3); (6, 6)].

Fixpoint check_groups (board : list Z) (check : bool) (groups : list (list (Z * Z))) : outcome bool :=
  match groups with
  | [] => Ok true
  | g :: groups =>
      occurs ← foldM (fun o '(r, c) => count_cell board check o r c) (replicate 10 0) g;
      if all_once occurs then check_groups board check groups else Ok false
  end.

(** The first group that is wrong ends the check. *)
Definition and_then (m k : outcome bool) : outcome bool := match m with Ok true => k | r => r end.

Definition solved (board : list Z) : outcome bool :=
  and_then (check_groups board true rows_) (and_then (check_groups board false cols_) (check_groups board false boxes_)).

(** ** The board *)

(** [board], [spaces], [nspaces], and [occupied] and [arity] of
    [sudoku_min_arity_cache.cc]. *)
Record state := mkState { board : list Z; spaces : list Z; nspaces : Z; occupied : list (list bool); arity : list Z }.

Definition set_board (b : list Z) (s : state) : state := mkState b (spaces s) (nspaces s) (occupied s) (arity s).
Definition set_spaces (sp : list Z) (s : state) : state := mkState (board s) sp (nspaces s) (occupied s) (arity s).
Definition set_nspaces (n : Z) (s : state) : state := mkState (board s) (spaces s) n (occupied s) (arity s).
Definition set_cache (o : list (list bool)) (a : list Z) (s : state) : state := mkState (board s) (spaces s) (nspaces s) o a.

Definition find_spaces (s : state) : outcome state :=
  for_ 0 N (fun s cell =>
    v ← vget (board s) cell;
    if v =? 0 then sp ← vset (spaces s) (nspaces s) cell; Ok (set_nspaces (nspaces s + 1) (set_spaces sp s))
    else Ok s) (set_nspaces 0 s).

Definition input (inp : list byte) (s : state) : outcome state :=
  s ← for_ 0 N (fun s cell =>
    c ← vget (byte_to_Z <$> inp) cell;
    b ← vset (board s) cell (c - 48);
    _ ← assert_ ((0 <=? c - 48) && (c - 48 <=? NUM));
    Ok (set_board b s)) s;
  find_spaces s.

Fixpoint available_loop (board : list Z) (guess : Z) (ns : list Z) : outcome bool :=
  match ns with
  | [] => Ok true
  | neighbor :: ns => v ← vget board neighbor; if v =? guess then Ok false else available_loop board guess ns
  end.
Definition available (guess cell : Z) (s : state) : outcome bool :=
  ns ← vget neighbors cell; available_loop (board s) guess ns.

(** ** The recursion of the solvers *)
Section search.
Context {M : Type}.
Variable select : Z -> state -> outcome state.
Variable free : Z -> Z -> state -> outcome bool.
Variable hold : Z -> Z -> state -> outcome (M * state).
Variable unhold : Z -> Z -> M -> state -> outcome state.

Fixpoint try_guesses (try_ : state -> outcome (bool * state)) (cell : Z) (guesses : list Z) (s : state) : outcome (bool * state) :=
  match guesses with
  | [] => Ok (false, s)
  | guess :: guesses =>
      b ← free guess cell s;
      if (b : bool) then
        '(m, s) ← hold guess cell s;
        '(r, s) ← try_ s;
        if (r : bool) then Ok (true, s) else s ← unhold guess cell m s; try_guesses try_ cell guesses s
      else try_guesses try_ cell guesses s
  end.

Fixpoint search (fuel : nat) (which_space : Z) (s : state) : outcome (bool * state) :=
  match fuel with
  | O => Fail Undefined
  | S fuel =>
      if nspaces s <=? which_space then Ok (true, s)
      else
        s ← select which_space s;
        cell ← vget (spaces s) which_space;
        try_guesses (search fuel (which_space + 1)) cell (seqZ 1 NUM) s
  end.
End search.

(** ** sudoku_basic.cc *)

Definition select_first (space : Z) (s : state) : outcome state := Ok s.

Definition hold_cell (guess cell : Z) (s : state) : outcome (unit * state) :=
  v ← vget (board s) cell; _ ← assert_ (v =? 0);
  b ← vset (board s) cell guess; Ok (tt, set_board b s).
Definition unhold_cell (guess cell : Z) (_ : unit) (s : state) : outcome state :=
  v ← vget (board s) cell; _ ← assert_ (v =? guess);
  b ← vset (board s) cell 0; Ok (set_board b s).

Definition solve_sudoku_basic := search select_first available hold_cell unhold_cell.

(** ** sudoku_min_arity.cc *)

(** The loop of [find_min_arity], given the arity of a cell. *)
Fixpoint find_min_loop (arity_of : Z -> outcome Z) (sps : list Z) (nspaces : Z) (fuel : nat) (sp min_space min_arity : Z) : outcome Z :=
  match fuel with
  | O => Fail Undefined
  | S fuel =>
      if (sp <? nspaces) && (1 <? min_arity) then
        c ← vget sps sp; cur_arity ← arity_of c;
        if cur_arity <? min_arity then find_min_loop arity_of sps nspaces fuel (sp + 1) sp cur_arity
        else find_min_loop arity_of sps nspaces fuel (sp + 1) min_space min_arity
      else Ok min_space
  end.

Definition find_min (arity_of : Z -> outcome Z) (space : Z) (s : state) : outcome state :=
  cell ← vget (spaces s) space;
  min_arity ← arity_of cell;
  min_space ← find_min_loop arity_of (spaces s) (nspaces s) (S (Z.to_nat (nspaces s))) (space + 1) space min_arity;
  if negb (space =? min_space) then sp ← vswap (spaces s) min_space space; Ok (set_spaces sp s) else Ok s.

(** [arity(cell)]. *)
Definition arity_of_cell (board : list Z) (cell : Z) : outcome Z :=
  ns ← vget neighbors cell;
  occupied ← foldM (fun o neighbor => v ← vget board neighbor; vset o v true) (replicate 10 false) ns;
  Ok (zlen (filter (fun b => b = false) (slice occupied 1 10))).

Definition find_min_arity (space : Z) (s : state) : outcome state := find_min (arity_of_cell (board s)) space s.

Definition solve_sudoku_min_arity := search find_min_arity available hold_cell unhold_cell.

(** ** sudoku_min_arity_cache.cc *)

Definition find_min_arity_cached (space : Z) (s : state) : outcome state := find_min (vget (arity s)) space s.

(** A neighbor can no longer take [val]. *)
Definition occupy (val : Z) (s : state) (neighbor : Z) : outcome (bool * state) :=
  o ← vget2 (occupied s) neighbor val;
  if negb o then
    occ ← vset2 (occupied s) neighbor val true;
    n ← vget (arity s) neighbor;
    ar ← vset (arity s) neighbor (n - 1);
    Ok (true, set_cache occ ar s)
  else Ok (false, s).

Definition init_cache (s : state) : outcome state :=
  for_ 0 N (fun s cell =>
    occ ← vset2 (occupied s) cell 0 true;
    let s := set_cache occ (arity s) s in
    val ← vget (board s) cell;
    if 0 <? val then
      occ ← vset2 (occupied s) cell val true;
      let s := set_cache occ (arity s) s in
      ns ← vget neighbors cell;
      foldM (fun s neighbor => '(_, s) ← occupy val s neighbor; Ok s) s ns
    else Ok s) (set_cache (replicate 81 (replicate 10 false)) (replicate 81 NUM) s).

Definition free_cached (guess cell : Z) (s : state) : outcome bool := o ← vget2 (occupied s) cell guess; Ok (negb o).

(** The neighbors that were changed are remembered. *)
Definition hold_cached (guess cell : Z) (s : state) : outcome (list Z * state) :=
  v ← vget (board s) cell; _ ← assert_ (v =? 0);
  b ← vset (board s) cell guess;
  occ ← vset2 (occupied s) cell guess true;
  ns ← vget neighbors cell;
  foldM (fun '(modified, s) neighbor =>
    '(changed, s) ← occupy guess s neighbor; Ok (if (changed : bool) then modified ++ [neighbor] else modified, s))
    ([], set_cache occ (arity s) (set_board b s)) ns.

Definition unhold_cached (guess cell : Z) (modified : list Z) (s : state) : outcome state :=
  occ ← vset2 (occupied s) cell guess false;
  v ← vget (board s) cell; _ ← assert_ (v =? guess);
  b ← vset (board s) cell 0;
  foldM (fun s neighbor =>
    o ← vget2 (occupied s) neighbor guess; _ ← assert_ o;
    occ ← vset2 (occupied s) neighbor guess false;
    n ← vget (arity s) neighbor;
    ar ← vset (arity s) neighbor (n + 1);
    Ok (set_cache occ ar s)) (set_cache occ (arity s) (set_board b s)) modified.

Definition solve_sudoku_min_arity_cache := search find_min_arity_cached free_cached hold_cached unhold_cached.

(** ** main.cc: one puzzle *)

Inductive solver := Basic | MinArity | MinArityCache.
Definition solve (v : solver) : nat -> Z -> state -> outcome (bool * state) :=
  match v with
  | Basic => solve_sudoku_basic
  | MinArity => solve_sudoku_min_arity
  | MinArityCache => solve_sudoku_min_arity_cache
  end.

(** [input], [init_cache], [solve(0)], and the check; the arrays hold what
    the puzzle before left in them. *)
Definition new_state : state := mkState (replicate 81 0) (replicate 81 0) 0 [] [].
Definition puzzle (v : solver) (inp : list byte) (s : state) : outcome (bool * state) :=
  s ← input inp s;
  s ← init_cache s;
  '(r, s) ← solve v (S (Z.to_nat (nspaces s))) 0 s;
  if (r : bool) then ok ← solved (board s); _ ← assert_ ok; Ok (true, s) else Ok (false, s).

(** ** Specification *)

(** Two different cells of one row, column or box. *)
Definition related (c d : Z) : bool :=
  ((c / 9 =? d / 9) || (c mod 9 =? d mod 9) || ((c / 27 =? d / 27) && (c mod 9 / 3 =? d mod 9 / 3))) && negb (c =? d).

(** [b'] fills the blanks of [b] such that no blank gets the digit of a
    related cell. *)
Definition completes (b b' : list Z) : Prop :=
  zlen b' = N /\ forall c, 0 <= c < N ->
    (vat b c <> 0 -> vat b' c = vat b c) /\
    (vat b c = 0 -> 1 <= vat b' c <= NUM /\ forall d, 0 <= d < N -> related c d = true -> vat b' d <> vat b' c).

(** No two given digits clash. *)
Definition consistent (b : list Z) : Prop :=
  forall c d, 0 <= c < N -> 0 <= d < N -> related c d = true -> vat b c <> 0 -> vat b d <> vat b c.

(** A finished grid. *)
Definition valid_grid (b : list Z) : Prop :=
  zlen b = N /\ (forall c, 0 <= c < N -> 1 <= vat b c <= NUM) /\
  forall c d, 0 <= c < N -> 0 <= d < N -> related c d = true -> vat b d <> vat b c.

(** The digits of a puzzle. *)
Definition digits_of (inp : list byte) : list Z := (fun c => byte_to_Z c - 48) <$> take 81 inp.

(** ** Lemmas: neighbors *)

Definition nb (c : Z) : list Z := filter (fun d => related c d = true) (seqZ 0 81).

Lemma init_neighbors_ok : init_neighbors = Ok neighbors.
Proof. vm_compute. reflexivity. Qed.

Lemma neighbors_check : forallb (fun c => bool_decide (vget neighbors c = Ok (nb c)) && (zlen (nb c) =? NEIGHBOR)) (seqZ 0 81) = true.
Proof. vm_compute. reflexivity. Qed.

Lemma neighbors_ok c : 0 <= c < N -> vget neighbors c = Ok (nb c) /\ zlen (nb c) = NEIGHBOR.
Proof.
  intros Hc. pose proof neighbors_check as H. rewrite forallb_forall in H.
  specialize (H c ltac:(apply list_elem_of_In, elem_of_seqZ; unfold N in Hc; lia)). apply andb_true_iff in H as [H1 H2].
  split; [by apply bool_decide_eq_true in H1|by apply Z.eqb_eq].
Qed.

Lemma elem_of_nb c d : d ∈ nb c <-> 0 <= d < N /\ related c d = true.
Proof. unfold nb, N. rewrite list_elem_of_filter, elem_of_seqZ. intuition lia. Qed.

Lemma related_sym c d : related c d = related d c.
Proof. unfold related. rewrite (Z.eqb_sym (c / 9)), (Z.eqb_sym (c mod 9)), (Z.eqb_sym (c / 27)), (Z.eqb_sym (c mod 9 / 3)), (Z.eqb_sym c). done. Qed.
Lemma related_ne c d : related c d = true -> c <> d.
Proof. unfold related. intros H -> . rewrite (Z.eqb_refl d) in H. by apply andb_true_iff in H as [_ ?]. Qed.
#[global] Opaque neighbors.

(** ** Lemmas: the board *)

Lemma available_loop_ok b g ns :
  zlen b = N -> (forall d, d ∈ ns -> 0 <= d < N) ->
  exists r, available_loop b g ns = Ok r /\ (r = true <-> forall d, d ∈ ns -> vat b d <> g).
Proof.
  intros Hb. induction ns as [|d ns IH]; intros Hns; cbn [available_loop].
  - exists true. split; [done|]. split; [|done]. intros _ d Hd. by apply not_elem_of_nil in Hd.
  - rewrite vget_ok by (rewrite Hb; apply Hns; by left). cbn [mbind outcome_bind]. destruct (Z.eqb_spec (vat b d) g) as [E|E].
    + exists false. split; [done|]. split; [done|]. intros H. destruct (H d); [by left|done].
    + destruct IH as (r & -> & Hr); [intros e He; apply Hns; by right|]. exists r. split; [done|]. rewrite Hr. split.
      * intros H e He. apply elem_of_cons in He as [->|He]; [done|by apply H].
      * intros H e He. apply H. by right.
Qed.

(** The blanks are the spaces from [which] on. *)
Record wf (which : Z) (s : state) : Prop := {
  wf_board : zlen (board s) = N;
  wf_digits : forall c, 0 <= c < N -> 0 <= vat (board s) c <= NUM;
  wf_spaces : zlen (spaces s) = N;
  wf_which : 0 <= which <= nspaces s;
  wf_nspaces : nspaces s <= N;
  wf_nodup : NoDup (slice (spaces s) which (nspaces s));
  wf_blank : forall c, c ∈ slice (spaces s) which (nspaces s) <-> 0 <= c < N /\ vat (board s) c = 0;
}.

Lemma slice_first (l : list Z) a b : 0 <= a < b -> b <= zlen l -> slice l a b = vat l a :: slice l (a + 1) b.
Proof.
  intros Ha Hb. rewrite <- (slice_app l a (a + 1) b) by lia. f_equal. unfold slice.
  replace (Z.to_nat (a + 1 - a)) with 1%nat by lia. rewrite (drop_S l (vat l a)); [done|]. apply vat_list. lia.
Qed.

Section wf.
Context (which : Z) (s : state) (Hwf : wf which s).

Lemma wf_cell : which < nspaces s -> 0 <= vat (spaces s) which < N /\ vat (board s) (vat (spaces s) which) = 0.
Proof. intros Hw. destruct Hwf. apply wf_blank0. rewrite slice_first by lia. by left. Qed.

Lemma wf_fill g : which < nspaces s -> 1 <= g <= NUM -> wf (which + 1) (set_board (vupd (board s) (vat (spaces s) which) g) s).
Proof.
  intros Hw Hg. destruct (wf_cell Hw) as [Hc H0]. destruct Hwf. rewrite slice_first in wf_nodup0, wf_blank0 by lia.
  set (c := vat (spaces s) which) in *. apply NoDup_cons in wf_nodup0 as [Hnin Hnd].
  constructor; cbn; try done; try lia.
  - by rewrite zlen_vupd.
  - intros d Hd. rewrite vat_vupd by lia. destruct (decide (d = c)); [unfold NUM in *; lia|by apply wf_digits0].
  - intros d. specialize (wf_blank0 d). rewrite elem_of_cons in wf_blank0. split.
    + intros Hd. destruct (proj1 wf_blank0 (or_intror Hd)) as [Hd1 Hd2]. split; [done|]. rewrite vat_vupd by lia.
      destruct (decide (d = c)) as [->|]; done.
    + intros [Hd1 Hd2]. rewrite vat_vupd in Hd2 by lia. destruct (decide (d = c)) as [->|Hne]; [lia|].
      destruct (proj2 wf_blank0 (conj Hd1 Hd2)); done.
Qed.

Lemma wf_set_spaces sp : rearranges which (nspaces s - 1) (spaces s) sp -> wf which (set_spaces sp s).
Proof.
  intros Hp. destruct Hwf. pose proof (rearranges_zlen _ _ _ _ Hp) as Hl.
  pose proof (rearranges_slice which (nspaces s - 1) (spaces s) sp ltac:(lia) ltac:(lia) Hp) as Hs. rewrite Z.sub_add in Hs.
  constructor; cbn; try done; [congruence|by rewrite Hs|]. intros c. rewrite Hs. apply wf_blank0.
Qed.
End wf.

(** ** Lemmas: filling a blank *)
Section fill.
Context (b b' : list Z) (c : Z) (Hb : zlen b = N) (Hc : 0 <= c < N) (H0 : vat b c = 0).

Lemma completes_hold g :
  1 <= g <= NUM -> (forall d, d ∈ nb c -> vat b d <> g) -> completes (vupd b c g) b' -> completes b b'.
Proof.
  intros Hg Hfree [Hl Hcomp]. split; [done|]. intros d Hd. destruct (Hcomp d Hd) as [H1 H2].
  rewrite vat_vupd in H1, H2 by lia. destruct (decide (d = c)) as [->|Hne]; [|done].
  split; [done|]. intros _. rewrite (H1 ltac:(lia)). split; [done|]. intros e He Hrel.
  assert (e <> c) as Hec by (intros ->; by apply related_ne in Hrel).
  destruct (Hcomp e He) as [E1 E2]. rewrite vat_vupd, decide_False in E1, E2 by (done || lia).
  destruct (decide (vat b e = 0)) as [Ez|Enz].
  - destruct (E2 Ez) as [_ E3]. specialize (E3 c Hc). rewrite related_sym in E3. specialize (E3 Hrel). rewrite (H1 ltac:(lia)) in E3. done.
  - rewrite (E1 Enz). apply Hfree, elem_of_nb. done.
Qed.

Lemma completes_free : completes b b' -> 1 <= vat b' c <= NUM /\ forall d, d ∈ nb c -> vat b d <> vat b' c.
Proof.
  intros [Hl Hcomp]. destruct (Hcomp c Hc) as [_ H2]. destruct (H2 H0) as [Hr Hrel]. split; [done|].
  intros d [Hd Hdr]%elem_of_nb E. destruct (Hcomp d Hd) as [E1 _]. apply (Hrel d Hd Hdr). rewrite E1; [done|lia].
Qed.

Lemma completes_fill : completes b b' -> completes (vupd b c (vat b' c)) b'.
Proof.
  intros Hcomp. destruct (completes_free Hcomp) as [Hr _]. destruct Hcomp as [Hl Hcomp]. split; [done|]. intros d Hd.
  rewrite vat_vupd by lia. destruct (decide (d = c)) as [->|Hne]; [split; [done|lia]|]. by apply Hcomp.
Qed.
End fill.

(** ** Lemmas: the recursion *)
Section search_ok.
Context {M : Type} (select : Z -> state -> outcome state) (free : Z -> Z -> state -> outcome bool)
  (hold : Z -> Z -> state -> outcome (M * state)) (unhold : Z -> Z -> M -> state -> outcome state) (I : state -> Prop).

(** What a solver has to provide: choosing a space rearranges the spaces
    that are left; a guess is free if no neighbor has it; and undoing it
    restores everything but the order of the spaces. *)
Record strategy_ok : Prop := {
  so_select which s : wf which s -> which < nspaces s -> I s ->
    exists sp, select which s = Ok (set_spaces sp s) /\ rearranges which (nspaces s - 1) (spaces s) sp;
  so_free which g c s : wf which s -> I s -> 0 <= c < N -> vat (board s) c = 0 -> 1 <= g <= NUM ->
    exists b, free g c s = Ok b /\ (b = true <-> forall d, d ∈ nb c -> vat (board s) d <> g);
  so_hold which g c s : wf which s -> I s -> 0 <= c < N -> vat (board s) c = 0 -> 1 <= g <= NUM ->
    (forall d, d ∈ nb c -> vat (board s) d <> g) ->
    exists m s1, hold g c s = Ok (m, s1) /\ board s1 = vupd (board s) c g /\ spaces s1 = spaces s /\ nspaces s1 = nspaces s /\ I s1 /\
      forall sp, unhold g c m (set_spaces sp s1) = Ok (set_spaces sp s);
  so_spaces s sp : I s -> I (set_spaces sp s);
}.

Context (Hso : strategy_ok).

Definition search_spec (which : Z) (s : state) (r : bool) (s' : state) : Prop :=
  if r then completes (board s) (board s')
  else (forall b', ~ completes (board s) b') /\ exists sp, s' = set_spaces sp s /\ rearranges which (nspaces s - 1) (spaces s) sp.

Lemma set_spaces_twice sp sp' s : set_spaces sp (set_spaces sp' s) = set_spaces sp s.
Proof. done. Qed.
Lemma set_spaces_same s : set_spaces (spaces s) s = s.
Proof. by destruct s. Qed.

Lemma wf_ext which s s' : wf which s -> board s' = board s -> spaces s' = spaces s -> nspaces s' = nspaces s -> wf which s'.
Proof. intros [] E1 E2 E3. constructor; by rewrite ?E1, ?E2, ?E3. Qed.

Lemma try_guesses_ok try_ which gs s :
  (forall s1, wf (which + 1) s1 -> I s1 -> nspaces s1 = nspaces s -> exists r s', try_ s1 = Ok (r, s') /\ search_spec (which + 1) s1 r s') ->
  wf which s -> which < nspaces s -> I s -> (forall g, g ∈ gs -> 1 <= g <= NUM) ->
  let c := vat (spaces s) which in
  exists r s', try_guesses free hold unhold try_ c gs s = Ok (r, s') /\
    if r then completes (board s) (board s')
    else (forall b', completes (board s) b' -> vat b' c ∉ gs) /\
      exists sp, s' = set_spaces sp s /\ rearranges (which + 1) (nspaces s - 1) (spaces s) sp.
Proof.
  intros Htry. induction gs as [|g gs IH] in s, Htry |- *; intros Hwf Hw HI Hgs c; cbn [try_guesses].
  - exists false, s. split; [done|]. split; [intros b' _; apply not_elem_of_nil|]. exists (spaces s).
    split; [by rewrite set_spaces_same|apply rearranges_refl].
  - destruct (wf_cell which s Hwf Hw) as [Hc H0]. fold c in Hc, H0. assert (1 <= g <= NUM) as Hg by (apply Hgs; by left).
    assert (forall g, g ∈ gs -> 1 <= g <= NUM) as Hgs' by (intros; apply Hgs; by right).
    destruct (so_free Hso which g c s Hwf HI Hc H0 Hg) as (b & -> & Hb). cbn [mbind outcome_bind]. destruct b.
    + assert (forall d, d ∈ nb c -> vat (board s) d <> g) as Hfree by (by apply Hb).
      destruct (so_hold Hso which g c s Hwf HI Hc H0 Hg Hfree) as (m & s1 & -> & E1 & E2 & E3 & HI1 & Hun). cbn [mbind outcome_bind].
      assert (wf (which + 1) s1) as Hwf1 by (eapply wf_ext; [exact (wf_fill which s Hwf g Hw Hg)|done..]).
      destruct (Htry s1 Hwf1 HI1 E3) as (r & s2 & -> & Hspec). cbn [mbind outcome_bind]. unfold search_spec in Hspec. rewrite E1 in Hspec.
      destruct r.
      * exists true, s2. split; [done|]. eapply completes_hold; [apply Hwf|exact Hc|exact H0|exact Hg|exact Hfree|exact Hspec].
      * destruct Hspec as (Hno & sp & -> & Hp). rewrite E2, E3 in Hp. rewrite Hun. cbn [mbind outcome_bind].
        assert (rearranges which (nspaces s - 1) (spaces s) sp) as Hp' by (eapply rearranges_mono; [| |exact Hp]; lia).
        assert (vat sp which = c) as Ec by (destruct Hp as [_ Hp]; apply Hp; destruct Hwf; lia).
        destruct (IH (set_spaces sp s)) as (r & s' & E & Hs'); [|by apply wf_set_spaces|done|by apply (so_spaces Hso)|done|].
        { intros s3 H1 H2 H3. by apply Htry. }
        cbn [spaces set_spaces] in E, Hs'. rewrite Ec in E, Hs'. exists r, s'. split; [done|]. destruct r; [done|].
        destruct Hs' as (Hn & sp' & -> & Hp2). split.
        -- intros b' Hcomp [Eg|Hin]%elem_of_cons; [|by eapply Hn]. apply (Hno b'). rewrite <- Eg.
           eapply completes_fill; [apply Hwf|done|done|done].
        -- exists sp'. split; [done|]. eapply rearranges_trans; [exact Hp|exact Hp2].
    + destruct (IH s Htry Hwf Hw HI Hgs') as (r & s' & E & Hs'). exists r, s'. split; [exact E|]. destruct r; [done|].
      destruct Hs' as (Hn & Hsp). split; [|done]. intros b' Hcomp [Eg|Hin]%elem_of_cons; [|by eapply Hn].
      destruct (completes_free (board s) b' c Hc H0 Hcomp) as [_ Hfree]. rewrite Eg in Hfree.
      assert (false = true) by (by apply Hb). done.
Qed.

Lemma search_ok fuel which s :
  wf which s -> I s -> nspaces s - which < Z.of_nat fuel ->
  exists r s', search select free hold unhold fuel which s = Ok (r, s') /\ search_spec which s r s'.
Proof.
  induction fuel as [|fuel IH] in which, s |- *; intros Hwf HI Hf; [destruct Hwf; lia|]. cbn [search].
  destruct (Z.leb_spec (nspaces s) which) as [Hge|Hlt].
  - exists true, s. split; [done|]. split; [apply Hwf|]. intros c Hc. split; [done|]. intros H0. destruct Hwf.
    assert (c ∈ slice (spaces s) which (nspaces s)) as Hin by (by apply wf_blank0). rewrite slice_nil in Hin by lia. by apply not_elem_of_nil in Hin.
  - destruct (so_select Hso which s Hwf Hlt HI) as (sp & -> & Hp). cbn [mbind outcome_bind].
    pose proof (wf_set_spaces which s Hwf sp Hp) as Hwf'. pose proof (so_spaces Hso s sp HI) as HI'.
    rewrite vget_ok by (cbn [spaces set_spaces]; rewrite (rearranges_zlen _ _ _ _ Hp); destruct Hwf; lia). cbn [mbind outcome_bind].
    destruct (try_guesses_ok (search select free hold unhold fuel (which + 1)) which (seqZ 1 NUM) (set_spaces sp s)) as (r & s' & E & Hs'); try done.
    + intros s1 Hwf1 HI1 E1. apply IH; [done|done|]. rewrite E1. cbn [nspaces set_spaces]. lia.
    + intros g Hg. apply elem_of_seqZ in Hg. unfold NUM in *. lia.
    + cbn [spaces set_spaces] in E. exists r, s'. split; [exact E|]. destruct r; [exact Hs'|]. destruct Hs' as (Hn & sp' & -> & Hp').
      split.
      * intros b' Hcomp. apply (Hn b' Hcomp). destruct (wf_cell which _ Hwf' Hlt) as [Hc H0].
        destruct (completes_free (board s) b' _ Hc H0 Hcomp) as [Hr _]. apply elem_of_seqZ. unfold NUM in *. lia.
      * exists sp'. split; [done|]. eapply rearranges_trans; [exact Hp|]. eapply rearranges_mono; [| |exact Hp']; cbn; lia.
Qed.
End search_ok.

(** ** Lemmas: sudoku_basic and sudoku_min_arity *)

Definition no_cache (s : state) : Prop := True.

Lemma available_ok which g c s :
  wf which s -> 0 <= c < N -> exists b, available g c s = Ok b /\ (b = true <-> forall d, d ∈ nb c -> vat (board s) d <> g).
Proof.
  intros Hwf Hc. unfold available. destruct (neighbors_ok c Hc) as [-> _]. cbn [mbind outcome_bind].
  apply available_loop_ok; [apply Hwf|]. by intros d [? _]%elem_of_nb.
Qed.

Lemma hold_cell_ok which g c s :
  wf which s -> 0 <= c < N -> vat (board s) c = 0 -> 1 <= g <= NUM ->
  exists s1, hold_cell g c s = Ok (tt, s1) /\ board s1 = vupd (board s) c g /\ spaces s1 = spaces s /\ nspaces s1 = nspaces s /\
    forall sp, unhold_cell g c tt (set_spaces sp s1) = Ok (set_spaces sp s).
Proof.
  intros [] Hc H0 Hg. unfold hold_cell. rewrite vget_ok by lia. cbn [mbind outcome_bind]. rewrite H0. cbn [Z.eqb assert_ mbind outcome_bind].
  rewrite vset_ok by lia. cbn [mbind outcome_bind]. eexists. split; [done|]. split_and!; try done. intros sp.
  unfold unhold_cell. cbn [board set_spaces set_board]. rewrite vget_ok by (rewrite zlen_vupd; lia). cbn [mbind outcome_bind].
  rewrite vat_vupd_eq, Z.eqb_refl by lia. cbn [assert_ mbind outcome_bind]. rewrite vset_ok by (rewrite zlen_vupd; lia). cbn [mbind outcome_bind].
  rewrite vupd_vupd, <- H0 at 1. rewrite vupd_same by lia. by destruct s.
Qed.

Lemma find_min_loop_ok arity_of sps lo n fuel sp m ma :
  (forall i, lo <= i < n -> exists a, arity_of (vat sps i) = Ok a) -> n <= zlen sps -> 0 <= lo <= sp -> sp <= n -> n - sp < Z.of_nat fuel ->
  0 <= m < sp -> m < n -> exists m', find_min_loop arity_of sps n fuel sp m ma = Ok m' /\ (m' = m \/ sp <= m' < n).
Proof.
  intros Ha Hn. induction fuel as [|fuel IH] in sp, m, ma |- *; intros Hsp Hspn Hf Hm Hmn; [lia|]. cbn [find_min_loop].
  destruct (Z.ltb_spec sp n); [|exists m; by split; [|left]]. destruct (1 <? ma); cbn [andb]; [|exists m; by split; [|left]].
  rewrite vget_ok by lia. cbn [mbind outcome_bind]. destruct (Ha sp ltac:(lia)) as [a ->]. cbn [mbind outcome_bind].
  destruct (a <? ma).
  - destruct (IH (sp + 1) sp a) as (m' & -> & Hm'); [lia..|]. exists m'. split; [done|]. right. lia.
  - destruct (IH (sp + 1) m ma) as (m' & -> & Hm'); [lia..|]. exists m'. split; [done|]. destruct Hm'; [by left|right; lia].
Qed.

Lemma choose_min_ok arity_of which s :
  wf which s -> which < nspaces s -> (forall c, 0 <= c < N -> vat (board s) c = 0 -> exists a, arity_of c = Ok a) ->
  exists sp, find_min arity_of which s = Ok (set_spaces sp s) /\ rearranges which (nspaces s - 1) (spaces s) sp.
Proof.
  intros Hwf Hw Ha. pose proof Hwf as []. unfold find_min. rewrite vget_ok by lia. cbn [mbind outcome_bind].
  assert (forall i, which <= i < nspaces s -> exists a, arity_of (vat (spaces s) i) = Ok a) as Hall.
  { intros i Hi. assert (vat (spaces s) i ∈ slice (spaces s) which (nspaces s)) as Hin.
    { rewrite <- (slice_app _ which i) by lia. apply elem_of_app. right. rewrite slice_first by lia. by left. }
    apply wf_blank0 in Hin as [Hc H0]. by apply Ha. }
  destruct (Hall which ltac:(lia)) as [a ->]. cbn [mbind outcome_bind].
  destruct (find_min_loop_ok arity_of (spaces s) which (nspaces s) (S (Z.to_nat (nspaces s))) (which + 1) which a) as (m & -> & Hm); [done|lia..|].
  cbn [mbind outcome_bind]. destruct (Z.eqb_spec which m) as [E|E]; cbn [negb].
  - exists (spaces s). rewrite set_spaces_same. split; [done|apply rearranges_refl].
  - rewrite vswap_ok by lia. cbn [mbind outcome_bind]. eexists. split; [done|]. apply rearranges_swap; lia.
Qed.

Lemma mark_digits_ok b ns o :
  zlen b = N -> (forall c, 0 <= c < N -> 0 <= vat b c <= NUM) -> zlen o = 10 -> (forall d, d ∈ ns -> 0 <= d < N) ->
  exists o', foldM (fun o neighbor => v ← vget b neighbor; vset o v true) o ns = Ok o'.
Proof.
  intros Hb Hv. induction ns as [|d ns IH] in o |- *; intros Ho Hns; cbn [foldM]; [by exists o|].
  assert (0 <= d < N) as Hd by (apply Hns; by left). rewrite vget_ok by lia. cbn [mbind outcome_bind]. specialize (Hv d Hd). unfold NUM in Hv.
  rewrite vset_ok by lia. cbn [mbind outcome_bind]. apply IH; [by rewrite zlen_vupd|]. intros e He. apply Hns. by right.
Qed.

Lemma arity_of_cell_ok which s c : wf which s -> 0 <= c < N -> exists a, arity_of_cell (board s) c = Ok a.
Proof.
  intros [] Hc. unfold arity_of_cell. destruct (neighbors_ok c Hc) as [-> _]. cbn [mbind outcome_bind].
  destruct (mark_digits_ok (board s) (nb c) (replicate 10 false)) as [o ->]; try done; [by intros d [? _]%elem_of_nb|]. by eexists.
Qed.

Lemma basic_strategy : strategy_ok select_first available hold_cell unhold_cell no_cache.
Proof.
  constructor; try done.
  - intros which s Hwf Hw _. exists (spaces s). rewrite set_spaces_same. split; [done|apply rearranges_refl].
  - intros which g c s Hwf _ Hc _ _. by apply (available_ok which).
  - intros which g c s Hwf _ Hc H0 Hg _. destruct (hold_cell_ok which g c s Hwf Hc H0 Hg) as (s1 & E & E1 & E2 & E3 & Hun). exists tt, s1. by split_and!.
Qed.

Lemma min_arity_strategy : strategy_ok find_min_arity available hold_cell unhold_cell no_cache.
Proof.
  destruct basic_strategy as [_ H2 H3 H4]. constructor; [|done..]. intros which s Hwf Hw _. unfold find_min_arity.
  apply choose_min_ok; [done|done|]. intros c Hc _. by eapply arity_of_cell_ok.
Qed.

(** ** Lemmas: sudoku_min_arity_cache *)

(** Arrays of arrays: 81 rows of ten. *)
Definition shape (a : list (list bool)) : Prop := zlen a = N /\ forall y, 0 <= y < N -> zlen (vat a y) = 10.
Definition at2 (a : list (list bool)) (y x : Z) : bool := vat (vat a y) x.
Definition upd2 (a : list (list bool)) (y x : Z) (v : bool) : list (list bool) := vupd a y (vupd (vat a y) x v).

Section grid.
Context (a : list (list bool)) (Ha : shape a) (y x : Z) (Hy : 0 <= y < N) (Hx : 0 <= x <= NUM).

Lemma vget2_ok : vget2 a y x = Ok (at2 a y x).
Proof. destruct Ha as [H1 H2]. specialize (H2 y Hy). unfold vget2, NUM in *. rewrite vget_ok by lia. cbn [mbind outcome_bind]. by rewrite vget_ok by lia. Qed.
Lemma vset2_ok v : vset2 a y x v = Ok (upd2 a y x v).
Proof.
  destruct Ha as [H1 H2]. specialize (H2 y Hy). unfold vset2, NUM in *. rewrite vget_ok by lia. cbn [mbind outcome_bind].
  rewrite vset_ok by lia. cbn [mbind outcome_bind]. by rewrite vset_ok by lia.
Qed.
Lemma shape_upd2 v : shape (upd2 a y x v).
Proof.
  destruct Ha as [H1 H2]. unfold upd2. split; [by rewrite zlen_vupd|]. intros y' Hy'. rewrite vat_vupd by lia.
  destruct (decide (y' = y)); [rewrite zlen_vupd|]; by apply H2.
Qed.
Lemma at2_upd2 v y' x' : 0 <= y' < N -> 0 <= x' <= NUM -> at2 (upd2 a y x v) y' x' = if decide (y' = y /\ x' = x) then v else at2 a y' x'.
Proof.
  intros Hy' Hx'. destruct Ha as [H1 H2]. specialize (H2 y Hy). unfold at2, upd2, NUM in *. rewrite vat_vupd by lia.
  destruct (decide (y' = y)) as [->|Hne]; [|rewrite decide_False by tauto; done]. rewrite vat_vupd by lia.
  destruct (decide (x' = x)); [rewrite decide_True by done|rewrite decide_False by tauto]; done.
Qed.
End grid.

Lemma at2_ext a a' : shape a -> shape a' -> (forall y x, 0 <= y < N -> 0 <= x <= NUM -> at2 a y x = at2 a' y x) -> a = a'.
Proof.
  intros [H1 H2] [H1' H2'] He. apply vat_ext; [congruence|]. intros y Hy. rewrite H1 in Hy. apply vat_ext; [by rewrite H2, H2'|].
  intros x Hx. rewrite H2 in Hx by done. apply He; unfold NUM; lia.
Qed.

Record cache_ok (s : state) : Prop := {
  co_shape : shape (occupied s);
  co_arity : zlen (arity s) = N;
  co_value : forall c v, 0 <= c < N -> 0 <= v <= NUM ->
    (at2 (occupied s) c v = true <-> v = 0 \/ v = vat (board s) c \/ exists d, d ∈ nb c /\ vat (board s) d = v);
}.

Lemma occupy_eq g s d :
  1 <= g <= NUM -> shape (occupied s) -> zlen (arity s) = N -> 0 <= d < N ->
  occupy g s d = if at2 (occupied s) d g then Ok (false, s)
    else Ok (true, set_cache (upd2 (occupied s) d g true) (vupd (arity s) d (vat (arity s) d - 1)) s).
Proof.
  intros Hg Hs Ha Hd. unfold occupy. rewrite (vget2_ok _ Hs) by lia. cbn [mbind outcome_bind].
  destruct (at2 (occupied s) d g); cbn [negb]; [done|]. rewrite (vset2_ok _ Hs) by lia. cbn [mbind outcome_bind].
  rewrite vget_ok by lia. cbn [mbind outcome_bind]. by rewrite vset_ok by lia.
Qed.

(** Occupying a list of cells. *)
Lemma occupy_list g ns md s :
  1 <= g <= NUM -> shape (occupied s) -> zlen (arity s) = N -> NoDup ns -> (forall d, d ∈ ns -> 0 <= d < N) ->
  exists occ ar, foldM (fun '(modified, s) neighbor =>
      '(changed, s) ← occupy g s neighbor; Ok (if (changed : bool) then modified ++ [neighbor] else modified, s)) (md, s) ns =
    Ok (md ++ filter (fun d => at2 (occupied s) d g = false) ns, set_cache occ ar s) /\
    shape occ /\ zlen ar = N /\
    (forall c v, 0 <= c < N -> 0 <= v <= NUM -> at2 occ c v = if decide (c ∈ ns /\ v = g) then true else at2 (occupied s) c v) /\
    (forall c, 0 <= c < N -> vat ar c = vat (arity s) c - (if decide (c ∈ ns /\ at2 (occupied s) c g = false) then 1 else 0)).
Proof.
  intros Hg. induction ns as [|d ns IH] in md, s |- *; intros Hs Ha Hnd Hns; cbn [foldM].
  - exists (occupied s), (arity s). cbn [filter list_filter]. rewrite app_nil_r. split; [by destruct s|]. split; [done|split; [done|split]].
    + intros c v _ _. rewrite decide_False; [done|]. intros [Hin _]. by apply not_elem_of_nil in Hin.
    + intros c _. rewrite decide_False; [lia|]. intros [Hin _]. by apply not_elem_of_nil in Hin.
  - apply NoDup_cons in Hnd as [Hnin Hnd]. assert (0 <= d < N) as Hd by (apply Hns; by left).
    assert (forall e, e ∈ ns -> 0 <= e < N) as Hns' by (intros; apply Hns; by right).
    rewrite (occupy_eq g s d) by done. rewrite filter_cons. destruct (at2 (occupied s) d g) eqn:Ed; cbn [mbind outcome_bind].
    + destruct (IH md s Hs Ha Hnd Hns') as (occ & ar & E & H1 & H2 & H3 & H4). rewrite E.
      exists occ, ar. rewrite decide_False by done. split; [done|split; [done|split; [done|split]]].
      * intros c v Hc Hv. rewrite H3 by done. destruct (decide (c ∈ ns /\ v = g)) as [[Hin ->]|Hno].
        -- rewrite decide_True; [done|]. split; [by right|done].
        -- destruct (decide (c ∈ d :: ns /\ v = g)) as [[Hin ->]|]; [|done]. apply elem_of_cons in Hin as [->|Hin]; [done|tauto].
      * intros c Hc. rewrite H4 by done. destruct (decide (c ∈ ns /\ _)) as [[Hin Hf]|Hno].
        -- rewrite decide_True; [done|]. split; [by right|done].
        -- rewrite decide_False; [done|]. intros [[->|Hin]%elem_of_cons Hf]; [congruence|tauto].
    + set (s1 := set_cache _ _ s).
      destruct (IH (md ++ [d]) s1) as (occ & ar & E & H1 & H2 & H3 & H4); [by apply shape_upd2; (done || lia)|cbn; by rewrite zlen_vupd|done|done|].
      rewrite E. cbn [occupied arity s1 set_cache] in H3, H4.
      assert (forall e v, 0 <= e < N -> 0 <= v <= NUM -> at2 (upd2 (occupied s) d g true) e v = if decide (e = d /\ v = g) then true else at2 (occupied s) e v) as Hup
        by (intros; apply at2_upd2; (done || lia)).
      assert (filter (fun e => at2 (occupied s1) e g = false) ns = filter (fun e => at2 (occupied s) e g = false) ns) as Ef.
      { apply filter_ext_in. intros e He. cbn [occupied s1 set_cache]. rewrite Hup by (auto || lia). rewrite decide_False; [done|]. by intros [-> _]. }
      exists occ, ar. rewrite Ef, decide_True by done. split; [rewrite <- app_assoc; done|]. split; [done|split; [done|split]].
      * intros c v Hc Hv. rewrite H3, Hup by done. destruct (decide (c ∈ ns /\ v = g)) as [[Hin ->]|Hno].
        -- rewrite decide_True; [done|]. split; [by right|done].
        -- destruct (decide (c = d /\ v = g)) as [[-> ->]|Hno']; [rewrite decide_True; [done|]; split; [by left|done]|].
           rewrite decide_False; [done|]. intros [[->|Hin]%elem_of_cons ->]; tauto.
      * intros c Hc. rewrite H4, Hup, vat_vupd by (done || lia). destruct (decide (c = d)) as [->|Hne].
        -- rewrite (decide_False (P := d ∈ ns /\ _)) by tauto. rewrite decide_True; [lia|]. split; [by left|done].
        -- rewrite (decide_False (P := c = d /\ _)) by tauto. destruct (decide (c ∈ ns /\ _)) as [[Hin Hf]|Hno].
           ++ rewrite decide_True; [done|]. split; [by right|done].
           ++ rewrite decide_False; [done|]. intros [[->|Hin]%elem_of_cons Hf]; tauto.
Qed.

(** Undoing it. *)
Lemma vacate_list g ns s :
  1 <= g <= NUM -> shape (occupied s) -> zlen (arity s) = N -> NoDup ns -> (forall d, d ∈ ns -> 0 <= d < N) ->
  (forall d, d ∈ ns -> at2 (occupied s) d g = true) ->
  exists occ ar, foldM (fun s neighbor =>
      o ← vget2 (occupied s) neighbor g; _ ← assert_ o;
      occ ← vset2 (occupied s) neighbor g false;
      n ← vget (arity s) neighbor;
      ar ← vset (arity s) neighbor (n + 1);
      Ok (set_cache occ ar s)) s ns = Ok (set_cache occ ar s) /\ shape occ /\ zlen ar = N /\
    (forall c v, 0 <= c < N -> 0 <= v <= NUM -> at2 occ c v = if decide (c ∈ ns /\ v = g) then false else at2 (occupied s) c v) /\
    (forall c, 0 <= c < N -> vat ar c = vat (arity s) c + (if decide (c ∈ ns) then 1 else 0)).
Proof.
  intros Hg. induction ns as [|d ns IH] in s |- *; intros Hs Ha Hnd Hns Ht; cbn [foldM].
  - exists (occupied s), (arity s). split; [by destruct s|]. split; [done|split; [done|split]].
    + intros c v _ _. rewrite decide_False; [done|]. intros [Hin _]. by apply not_elem_of_nil in Hin.
    + intros c _. rewrite decide_False; [lia|]. apply not_elem_of_nil.
  - apply NoDup_cons in Hnd as [Hnin Hnd]. assert (0 <= d < N) as Hd by (apply Hns; by left).
    assert (forall e, e ∈ ns -> 0 <= e < N) as Hns' by (intros; apply Hns; by right).
    rewrite (vget2_ok _ Hs) by lia. cbn [mbind outcome_bind]. rewrite (Ht d ltac:(by left)). cbn [assert_ mbind outcome_bind].
    rewrite (vset2_ok _ Hs) by lia. cbn [mbind outcome_bind]. rewrite vget_ok by lia. cbn [mbind outcome_bind].
    rewrite vset_ok by lia. cbn [mbind outcome_bind]. set (s1 := set_cache _ _ s).
    assert (forall e v, 0 <= e < N -> 0 <= v <= NUM -> at2 (upd2 (occupied s) d g false) e v = if decide (e = d /\ v = g) then false else at2 (occupied s) e v) as Hup
      by (intros; apply at2_upd2; (done || lia)).
    destruct (IH s1) as (occ & ar & E & H1 & H2 & H3 & H4); [by apply shape_upd2; (done || lia)|cbn; by rewrite zlen_vupd|done|done| |].
    { intros e He. cbn [occupied s1 set_cache]. rewrite Hup by (auto || lia). rewrite decide_False; [apply Ht; by right|]. by intros [-> _]. }
    rewrite E. cbn [occupied arity s1 set_cache] in H3, H4. exists occ, ar. split; [done|split; [done|split; [done|split]]].
    + intros c v Hc Hv. rewrite H3, Hup by done. destruct (decide (c ∈ ns /\ v = g)) as [[Hin ->]|Hno].
      * rewrite decide_True; [done|]. split; [by right|done].
      * destruct (decide (c = d /\ v = g)) as [[-> ->]|Hno']; [rewrite decide_True; [done|]; split; [by left|done]|].
        rewrite decide_False; [done|]. intros [[->|Hin]%elem_of_cons ->]; tauto.
    + intros c Hc. rewrite H4, vat_vupd by (done || lia). destruct (decide (c = d)) as [->|Hne].
      * rewrite (decide_False (P := d ∈ ns)) by done. rewrite decide_True; [lia|by left].
      * destruct (decide (c ∈ ns)) as [Hin|Hno]; [rewrite decide_True; [done|by right]|].
        rewrite decide_False; [done|]. intros [->|Hin]%elem_of_cons; done.
Qed.

Lemma nb_NoDup c : NoDup (nb c).
Proof. apply NoDup_filter, NoDup_seqZ. Qed.
Lemma nb_range c d : d ∈ nb c -> 0 <= d < N.
Proof. by intros [? _]%elem_of_nb. Qed.
Lemma not_own_nb c : c ∉ nb c.
Proof. intros [_ H]%elem_of_nb. by apply related_ne in H. Qed.
Lemma nb_sym c d : 0 <= c < N -> 0 <= d < N -> d ∈ nb c <-> c ∈ nb d.
Proof. intros. rewrite !elem_of_nb, (related_sym c d). intuition. Qed.

Section hold_cached.
Context (which g c : Z) (s : state) (Hwf : wf which s) (Hco : cache_ok s) (Hc : 0 <= c < N) (H0 : vat (board s) c = 0)
  (Hg : 1 <= g <= NUM) (Hfree : forall d, d ∈ nb c -> vat (board s) d <> g).

Definition touched : list Z := filter (fun d => at2 (occupied s) d g = false) (nb c).

Lemma own_free : at2 (occupied s) c g = false.
Proof.
  destruct (at2 (occupied s) c g) eqn:E; [|done]. destruct Hco. apply co_value0 in E; [|done|lia].
  destruct E as [?|[?|(d & Hd & E)]]; [lia|lia|]. by destruct (Hfree d Hd).
Qed.

Lemma hold_cached_eq :
  exists occ ar, hold_cached g c s = Ok (touched, set_cache occ ar (set_board (vupd (board s) c g) s)) /\ shape occ /\ zlen ar = N /\
    (forall e v, 0 <= e < N -> 0 <= v <= NUM -> at2 occ e v = if decide ((e = c \/ e ∈ nb c) /\ v = g) then true else at2 (occupied s) e v) /\
    (forall e, 0 <= e < N -> vat ar e = vat (arity s) e - (if decide (e ∈ touched) then 1 else 0)).
Proof.
  destruct Hco as [Hs Ha _]. pose proof Hwf as []. unfold hold_cached. rewrite (vget_ok (board s)) by lia. cbn [mbind outcome_bind]. rewrite H0. cbn [Z.eqb assert_ mbind outcome_bind].
  rewrite vset_ok by lia. cbn [mbind outcome_bind]. rewrite (vset2_ok _ Hs) by lia. cbn [mbind outcome_bind].
  destruct (neighbors_ok c Hc) as [-> _]. cbn [mbind outcome_bind]. set (s0 := set_cache _ _ _).
  assert (forall e v, 0 <= e < N -> 0 <= v <= NUM -> at2 (occupied s0) e v = if decide (e = c /\ v = g) then true else at2 (occupied s) e v) as Hup
    by (intros; apply at2_upd2; (done || lia)).
  destruct (occupy_list g (nb c) [] s0 Hg) as (occ & ar & E & H1 & H2 & H3 & H4);
    [by apply shape_upd2; (done || lia)|done|apply nb_NoDup|apply nb_range|].
  exists occ, ar. rewrite E. cbn [app]. split; [|split; [done|split; [done|split]]].
  - do 2 f_equal. unfold touched. apply filter_ext_in. intros d Hd. rewrite Hup by (apply (nb_range c d Hd) || lia).
    rewrite decide_False; [done|]. intros [-> _]. by apply not_own_nb in Hd.
  - intros e v He Hv. rewrite H3, Hup by done. destruct (decide (e ∈ nb c /\ v = g)) as [[Hin ->]|Hno].
    + rewrite decide_True; [done|]. split; [by right|done].
    + destruct (decide (e = c /\ v = g)) as [[-> ->]|Hno']; [rewrite decide_True; [done|]; split; [by left|done]|].
      rewrite decide_False; [done|]. tauto.
  - intros e He. rewrite H4 by done. cbn [arity s0 set_cache set_board]. f_equal. rewrite Hup by (done || lia). unfold touched.
    destruct (decide (e ∈ filter _ _)) as [Hin|Hno].
    + apply list_elem_of_filter in Hin as [Hf Hin]. rewrite decide_True; [done|]. split; [done|].
      rewrite decide_False; [done|]. intros [-> _]. by apply not_own_nb in Hin.
    + rewrite decide_False; [done|]. intros [Hin Hf]. apply Hno, list_elem_of_filter. split; [|done].
      rewrite decide_False in Hf; [done|]. intros [-> _]. by apply not_own_nb in Hin.
Qed.

Lemma hold_cached_ok :
  exists m s1, hold_cached g c s = Ok (m, s1) /\ board s1 = vupd (board s) c g /\ spaces s1 = spaces s /\ nspaces s1 = nspaces s /\ cache_ok s1 /\
    forall sp, unhold_cached g c m (set_spaces sp s1) = Ok (set_spaces sp s).
Proof.
  destruct hold_cached_eq as (occ & ar & E & Hs & Ha & Hocc & Har). exists touched. eexists. split; [exact E|]. split_and!; try done.
  - pose proof Hwf as []. destruct Hco as [_ _ Hv]. constructor; cbn [occupied arity board set_cache set_board]; [done|done|]. intros e v He Hvr.
    rewrite Hocc by done. assert (forall d, 0 <= d < N -> vat (vupd (board s) c g) d = if decide (d = c) then g else vat (board s) d) as Hup
      by (intros; apply vat_vupd; lia). rewrite Hup by done. destruct (decide ((e = c \/ e ∈ nb c) /\ v = g)) as [[[->|Hin] ->]|Hno].
    + split; [|done]. intros _. right. left. by rewrite decide_True.
    + split; [|done]. intros _. right. right. exists c. rewrite Hup, decide_True by done. by rewrite <- (nb_sym c e).
    + rewrite Hv by done. split.
      * intros [->|[->|(d & Hd & Ev)]]; [by left| |].
        -- destruct (decide (e = c)) as [->|]; [left; lia|by right; left].
        -- destruct (decide (d = c)) as [->|Hne]; [left; lia|]. right. right. exists d. split; [done|].
           rewrite Hup by (by apply (nb_range e)). by rewrite decide_False.
      * intros [->|[Ev|(d & Hd & Ev)]]; [by left| |].
        -- destruct (decide (e = c)) as [->|]; [destruct Hno; split; [by left|done]|by right; left].
        -- rewrite Hup in Ev by (by apply (nb_range e)). destruct (decide (d = c)) as [->|Hne]; [|right; right; by exists d].
           destruct Hno. split; [right; by rewrite (nb_sym c e)|done].
  - intros sp. destruct Hco as [Hs0 Ha0 _]. pose proof Hwf as []. pose proof own_free as Hown. unfold unhold_cached.
    set (s1 := set_spaces sp _). rewrite (vset2_ok occ Hs) by lia. cbn [mbind outcome_bind].
    change (board s1) with (vupd (board s) c g). rewrite vget_ok by (rewrite zlen_vupd; lia). cbn [mbind outcome_bind].
    rewrite vat_vupd_eq, Z.eqb_refl by lia. cbn [assert_ mbind outcome_bind].
    rewrite vset_ok by (rewrite zlen_vupd; lia). cbn [mbind outcome_bind]. rewrite vupd_vupd. set (s2 := set_cache _ _ _).
    assert (forall e v, 0 <= e < N -> 0 <= v <= NUM -> at2 (occupied s2) e v = if decide (e = c /\ v = g) then false else at2 occ e v) as Hup
      by (intros; apply at2_upd2; (done || lia)).
    destruct (vacate_list g touched s2 Hg) as (occ2 & ar2 & E2 & H1 & H2 & H3 & H4);
      [by apply shape_upd2; (done || lia)|done|apply NoDup_filter, nb_NoDup|by intros d [_ Hd]%list_elem_of_filter; apply (nb_range c)| |].
    { intros d [Hf Hd]%list_elem_of_filter. rewrite Hup by (by apply (nb_range c) || lia). rewrite decide_False by (by intros [-> _]; apply not_own_nb in Hd).
      rewrite Hocc by (by apply (nb_range c) || lia). rewrite decide_True; [done|]. split; [by right|done]. }
    rewrite E2. f_equal. assert (occ2 = occupied s) as ->.
    { apply at2_ext; [done|done|]. intros e v He Hv. rewrite H3, Hup, Hocc by done.
      destruct (decide (e ∈ touched /\ v = g)) as [[Hin ->]|Hno]; [by apply list_elem_of_filter in Hin as [? _]|].
      destruct (decide (e = c /\ v = g)) as [[-> ->]|Hno']; [done|]. destruct (decide ((e = c \/ e ∈ nb c) /\ v = g)) as [[[->|Hin] ->]|]; [tauto| |done].
      destruct (at2 (occupied s) e g) eqn:Ee; [done|]. destruct Hno. split; [by apply list_elem_of_filter|done]. }
    assert (ar2 = arity s) as ->.
    { apply vat_ext; [congruence|]. intros e He. rewrite H2 in He. rewrite H4 by done. unfold s2, s1. cbn [arity set_spaces set_cache set_board].
      rewrite Har by done. destruct (decide (e ∈ touched)); lia. }
    unfold s2, s1, set_cache, set_board, set_spaces. cbn. rewrite <- H0, vupd_same by lia. by destruct s.
Qed.
End hold_cached.

Lemma cached_strategy : strategy_ok find_min_arity_cached free_cached hold_cached unhold_cached cache_ok.
Proof.
  constructor.
  - intros which s Hwf Hw [_ Ha _]. unfold find_min_arity_cached. apply choose_min_ok; [done|done|]. intros c Hc _. rewrite vget_ok by lia. by eexists.
  - intros which g c s Hwf [Hs _ Hv] Hc H0 Hg. unfold free_cached. rewrite (vget2_ok _ Hs) by lia. cbn [mbind outcome_bind]. eexists. split; [done|].
    rewrite negb_true_iff, <- not_true_iff_false, Hv by lia. split.
    + intros Hno d Hd E. apply Hno. right. right. by exists d.
    + intros Hfree [?|[?|(d & Hd & E)]]; [lia|lia|by apply (Hfree d)].
  - intros which g c s Hwf HI Hc H0 Hg Hfree. by apply (hold_cached_ok which).
  - intros s sp [H1 H2 H3]. by constructor.
Qed.

(** The cache at the start. *)
Lemma occupy_plain g ns md s :
  foldM (fun s neighbor => '(_, s) ← occupy g s neighbor; Ok s) s ns =
  ('(_, s) ← foldM (fun '(modified, s) neighbor =>
      '(changed, s) ← occupy g s neighbor; Ok (if (changed : bool) then modified ++ [neighbor] else modified, s)) (md, s) ns; Ok s).
Proof.
  induction ns as [|d ns IH] in md, s |- *; cbn [foldM]; [done|].
  destruct (occupy g s d) as [[ch s']|]; cbn [mbind outcome_bind]; [|done]. apply IH.
Qed.

Lemma init_cache_ok s :
  zlen (board s) = N -> (forall c, 0 <= c < N -> 0 <= vat (board s) c <= NUM) ->
  exists occ ar, init_cache s = Ok (set_cache occ ar s) /\ cache_ok (set_cache occ ar s).
Proof.
  intros Hb Hdig. unfold init_cache, for_. change (seqZ 0 (N - 0)) with (seqZ 0 81).
  set (P := fun (dn : list Z) (s' : state) => exists occ ar, s' = set_cache occ ar s /\ shape occ /\ zlen ar = N /\
    forall c v, 0 <= c < N -> 0 <= v <= NUM -> (at2 occ c v = true <->
      exists d, d ∈ dn /\ ((c = d /\ v = 0) \/ (0 < v /\ v = vat (board s) d /\ (c = d \/ c ∈ nb d))))).
  match goal with |- context [foldM ?f ?b ?l] => destruct (foldM_inv P f b l) as (s' & -> & occ & ar & -> & Hs & Ha & Hv) end.
  - exists (replicate 81 (replicate 10 false)), (replicate 81 NUM). split; [done|]. split; [|split; [done|]].
    + split; [done|]. intros y Hy. unfold vat. rewrite lookup_total_replicate_2; [done|unfold N in Hy; lia].
    + intros c v Hc Hr. unfold at2, vat. rewrite lookup_total_replicate_2 by (unfold N in Hc; lia). rewrite lookup_total_replicate_2 by (unfold NUM in Hr; lia).
      split; [done|]. intros (d & Hd & _). by apply not_elem_of_nil in Hd.
  - intros dn c rest s' Hl (occ & ar & -> & Hs & Ha & Hv). assert (0 <= c < N) as Hc.
    { assert (c ∈ seqZ 0 81) as Hin by (rewrite Hl; apply elem_of_app; right; by left). apply elem_of_seqZ in Hin. unfold N. lia. }
    cbn [occupied arity set_cache]. rewrite (vset2_ok occ Hs) by (unfold NUM; lia). cbn [mbind outcome_bind].
    change (board (set_cache (upd2 occ c 0 true) ar (set_cache occ ar s))) with (board s). rewrite (vget_ok (board s)) by lia. cbn [mbind outcome_bind].
    assert (forall e v, 0 <= e < N -> 0 <= v <= NUM -> at2 (upd2 occ c 0 true) e v = if decide (e = c /\ v = 0) then true else at2 occ e v) as Hup
      by (intros; apply at2_upd2; (done || lia || (unfold NUM; lia))).
    assert (shape (upd2 occ c 0 true)) as Hs1 by (apply shape_upd2; (done || lia || (unfold NUM; lia))).
    specialize (Hdig c Hc). destruct (Z.ltb_spec 0 (vat (board s) c)) as [Hpos|Hzero].
    + cbn [occupied set_cache]. rewrite (vset2_ok _ Hs1) by lia. cbn [mbind outcome_bind]. destruct (neighbors_ok c Hc) as [-> _]. cbn [mbind outcome_bind].
      rewrite (occupy_plain _ _ []). set (g := vat (board s) c) in *.
      assert (forall e v, 0 <= e < N -> 0 <= v <= NUM -> at2 (upd2 (upd2 occ c 0 true) c g true) e v = if decide (e = c /\ v = g) then true else at2 (upd2 occ c 0 true) e v) as Hup2
        by (intros; apply at2_upd2; (done || lia)).
      set (s2 := set_cache _ _ _).
      destruct (occupy_list g (nb c) [] s2) as (occ2 & ar2 & E & H1 & H2 & H3 & H4); [lia|by apply shape_upd2; (done || lia)|done|apply nb_NoDup|apply nb_range|].
      rewrite E. cbn [mbind outcome_bind]. eexists. split; [done|]. exists occ2, ar2. split; [done|]. split; [done|]. split; [done|].
      intros e v He Hr. rewrite H3 by done. cbn [occupied s2 set_cache]. rewrite Hup2, Hup by done.
      destruct (decide (e ∈ nb c /\ v = g)) as [[Hin ->]|Hno].
      { split; [|done]. intros _. exists c. split; [apply elem_of_app; right; by left|]. right. split; [done|]. split; [done|by right]. }
      destruct (decide (e = c /\ v = g)) as [[-> ->]|Hno2].
      { split; [|done]. intros _. exists c. split; [apply elem_of_app; right; by left|]. right. split; [done|]. split; [done|by left]. }
      destruct (decide (e = c /\ v = 0)) as [[-> ->]|Hno3].
      { split; [|done]. intros _. exists c. split; [apply elem_of_app; right; by left|]. by left. }
      rewrite Hv by done. split.
      * intros (d & Hd & H). exists d. split; [apply elem_of_app; by left|done].
      * intros (d & [Hd|Hd]%elem_of_app & H); [by exists d|]. apply list_elem_of_singleton in Hd as ->. exfalso. fold g in H. intuition.
    + eexists. split; [done|]. eexists _, ar. split; [done|]. split; [exact Hs1|]. split; [done|]. intros e v He Hr. rewrite Hup by done.
      destruct (decide (e = c /\ v = 0)) as [[-> ->]|Hno3].
      { split; [|done]. intros _. exists c. split; [apply elem_of_app; right; by left|]. by left. }
      rewrite Hv by done. split.
      * intros (d & Hd & H). exists d. split; [apply elem_of_app; by left|done].
      * intros (d & [Hd|Hd]%elem_of_app & H); [by exists d|]. apply list_elem_of_singleton in Hd as ->. exfalso. intuition lia.
  - exists occ, ar. split; [done|]. constructor; [done|done|]. intros c v Hc Hr. cbn [occupied set_cache board].
    assert (forall d, 0 <= d < N -> d ∈ seqZ 0 81) as Hall by (intros d Hd; apply elem_of_seqZ; unfold N in Hd; lia).
    rewrite Hv by done. split.
    + intros (d & Hd & [[-> ->]|(Hpos & -> & [->|Hin])]); [by left|by right; left|]. right. right. exists d. split; [|done].
      apply elem_of_seqZ in Hd. rewrite (nb_sym c d); [done|done|unfold N; lia].
    + intros [->|[->|(d & Hd & <-)]].
      * exists c. split; [by apply Hall|by left].
      * exists c. split; [by apply Hall|]. specialize (Hdig c Hc). destruct (decide (vat (board s) c = 0)); [by left|right].
        split; [lia|]. split; [done|by left].
      * pose proof (nb_range c d Hd) as Hdr. specialize (Hdig d Hdr). destruct (decide (vat (board s) d = 0)) as [E|E].
        -- exists c. split; [by apply Hall|]. left. done.
        -- exists d. split; [by apply Hall|]. right. split; [lia|]. split; [done|]. right. by rewrite (nb_sym d c).
Qed.

(** ** Lemmas: input *)

Lemma for_inv {S} (P : Z -> S -> Prop) lo n (body : S -> Z -> outcome S) s :
  lo <= n -> P lo s -> (forall i s, lo <= i < n -> P i s -> exists s', body s i = Ok s' /\ P (i + 1) s') ->
  exists s', for_ lo n body s = Ok s' /\ P n s'.
Proof.
  intros Hlo H0 Hstep. unfold for_. remember (Z.to_nat (n - lo)) as k eqn:Ek.
  induction k as [|k IH] in lo, s, Hlo, H0, Hstep, Ek |- *.
  - rewrite seqZ_nil by lia. exists s. split; [done|]. by replace n with lo by lia.
  - rewrite seqZ_cons by lia. cbn [foldM]. destruct (Hstep lo s ltac:(lia) H0) as (s1 & -> & H1). cbn [mbind outcome_bind].
    replace (Z.pred (n - lo)) with (n - Z.succ lo) by lia. apply IH; [lia|done| |lia]. intros i s2 Hi. apply Hstep. lia.
Qed.

Definition digit_char (c : byte) : Prop := 48 <= byte_to_Z c <= 57.

Lemma find_spaces_ok s :
  zlen (board s) = N -> zlen (spaces s) = N -> (forall c, 0 <= c < N -> 0 <= vat (board s) c <= NUM) ->
  exists s', find_spaces s = Ok s' /\ board s' = board s /\ wf 0 s'.
Proof.
  intros Hb Hsp Hd. unfold find_spaces.
  destruct (for_inv (fun k s' => board s' = board s /\ zlen (spaces s') = N /\ 0 <= nspaces s' <= k /\
      slice (spaces s') 0 (nspaces s') = filter (fun c => vat (board s) c = 0) (seqZ 0 k))
    0 N (fun s cell => v ← vget (board s) cell;
       if v =? 0 then sp ← vset (spaces s) (nspaces s) cell; Ok (set_nspaces (nspaces s + 1) (set_spaces sp s)) else Ok s)
    (set_nspaces 0 s)) as (s' & E & Eb & Es & Hn & Hsl).
  - done.
  - done.
  - intros i s' Hi (Eb & Es & Hn & Hsl). rewrite Eb, vget_ok by lia. cbn [mbind outcome_bind].
    assert (seqZ 0 (i + 1) = seqZ 0 i ++ [i]) as Eseq by (rewrite seqZ_app by lia; do 2 f_equal; lia).
    rewrite Eseq, filter_app. destruct (Z.eqb_spec (vat (board s) i) 0) as [E0|E0].
    + rewrite vset_ok by lia. cbn [mbind outcome_bind]. eexists. split; [done|]. cbn [board spaces nspaces set_nspaces set_spaces].
      split; [done|]. split; [by rewrite zlen_vupd|]. split; [lia|].
      rewrite <- (slice_app _ 0 (nspaces s') (nspaces s' + 1)) by lia. rewrite (slice_first _ (nspaces s')) by (rewrite ?zlen_vupd; lia).
      rewrite (slice_nil _ (nspaces s' + 1)) by lia. rewrite vat_vupd_eq by lia.
      rewrite (slice_ext (spaces s')) by (rewrite ?zlen_vupd; (lia || (intros; apply vat_vupd_ne; lia))). rewrite Hsl. f_equal.
      rewrite filter_cons, decide_True by done. done.
    + exists s'. split; [done|]. split; [done|]. split; [done|]. split; [lia|]. rewrite Hsl, (filter_cons _ i), decide_False by done. by rewrite app_nil_r.
  - exists s'. split; [exact E|]. split; [done|]. constructor; rewrite ?Eb; try done; try lia.
    + rewrite Hsl. apply NoDup_filter, NoDup_seqZ.
    + intros c. rewrite Hsl, list_elem_of_filter, elem_of_seqZ. unfold N. intuition lia.
Qed.

Lemma read_puzzle_ok inp s :
  81 <= zlen inp -> Forall digit_char (take 81 inp) -> zlen (board s) = N -> zlen (spaces s) = N ->
  exists s', input inp s = Ok s' /\ board s' = digits_of inp /\ wf 0 s'.
Proof.
  intros Hl Hc Hb Hsp. unfold input.
  assert (forall i, 0 <= i < N -> 0 <= i < zlen (byte_to_Z <$> inp) /\ vat (digits_of inp) i = vat (byte_to_Z <$> inp) i - 48 /\
    0 <= vat (byte_to_Z <$> inp) i - 48 <= NUM) as Hin.
  { intros i Hi. unfold zlen, N in *. destruct (lookup_lt_is_Some_2 inp (Z.to_nat i) ltac:(lia)) as [c Ec].
    assert (take 81 inp !! Z.to_nat i = Some c) as Et by (rewrite lookup_take_lt by lia; done).
    assert (vat (byte_to_Z <$> inp) i = byte_to_Z c) as -> by (unfold vat; apply list_lookup_total_correct; by rewrite list_lookup_fmap, Ec).
    rewrite length_fmap. split; [lia|]. split.
    - unfold vat, digits_of. apply list_lookup_total_correct. by rewrite list_lookup_fmap, Et.
    - rewrite Forall_lookup in Hc. specialize (Hc _ _ Et). unfold digit_char, NUM in *. lia. }
  destruct (for_inv (fun k s' => zlen (board s') = N /\ zlen (spaces s') = N /\ forall i, 0 <= i < k -> vat (board s') i = vat (digits_of inp) i)
    0 N (fun s cell => c ← vget (byte_to_Z <$> inp) cell; b ← vset (board s) cell (c - 48);
       _ ← assert_ ((0 <=? c - 48) && (c - 48 <=? NUM)); Ok (set_board b s)) s) as (s1 & -> & Hb1 & Hs1 & Hv1).
  - done.
  - split; [done|]. split; [done|]. lia.
  - intros i s' Hi (Hb' & Hs' & Hv'). destruct (Hin i Hi) as (H1 & H2 & H3). rewrite vget_ok by done. cbn [mbind outcome_bind].
    rewrite vset_ok by lia. cbn [mbind outcome_bind]. rewrite (proj2 (Z.leb_le _ _)), (proj2 (Z.leb_le _ _)) by lia. cbn [andb assert_ mbind outcome_bind].
    eexists. split; [done|]. cbn [board spaces set_board]. split; [by rewrite zlen_vupd|]. split; [done|]. intros j Hj.
    rewrite vat_vupd by lia. destruct (decide (j = i)) as [->|]; [by rewrite H2|apply Hv'; lia].
  - cbn [mbind outcome_bind]. assert (board s1 = digits_of inp) as Eb.
    { apply vat_ext; [|intros i Hi; apply Hv1; lia]. rewrite Hb1. unfold digits_of, zlen, N in *. rewrite length_fmap, length_take. lia. }
    destruct (find_spaces_ok s1) as (s2 & E2 & Eb2 & Hwf); [done|done| |].
    + intros c Hcr. rewrite Eb. destruct (Hin c Hcr) as (_ & -> & ?). done.
    + exists s2. split; [done|]. split; [congruence|done].
Qed.

(** ** Lemmas: solved *)

Definition cell_of (p : Z * Z) : Z := p.1 * COL + p.2.
Definition count_of (v : Z) (l : list Z) : Z := zlen (filter (fun x => x = v) l).

Fixpoint pairwise (l : list Z) : bool := match l with [] => true | c :: l => forallb (related c) l && pairwise l end.
Definition group_ok (g : list (Z * Z)) : bool :=
  (length g =? 9)%nat && forallb (fun c => (0 <=? c) && (c <? N)) (cell_of <$> g) && pairwise (cell_of <$> g).

Lemma groups_ok : forallb group_ok (rows_ ++ cols_ ++ boxes_) = true.
Proof. vm_compute. reflexivity. Qed.

Lemma count_cell_eq b check o r c :
  count_cell b check o r c = (let cell := r * COL + c in
    v ← vget b cell; _ ← (if check then assert_ ((1 <=? v) && (v <=? NUM)) else Ok tt); n ← vget o v; vset o v (n + 1)).
Proof. done. Qed.

Lemma count_cells b check g o :
  zlen b = N -> (forall c, 0 <= c < N -> 1 <= vat b c <= NUM) -> zlen o = 10 ->
  forallb (fun c => (0 <=? c) && (c <? N)) (cell_of <$> g) = true ->
  exists o', foldM (fun o '(r, c) => count_cell b check o r c) o g = Ok o' /\ zlen o' = 10 /\
    forall v, 0 <= v <= NUM -> vat o' v = vat o v + count_of v (vat b <$> (cell_of <$> g)).
Proof.
  intros Hb Hv. induction g as [|[r c] g IH] in o |- *; intros Ho Hg; cbn [foldM].
  - exists o. split; [done|]. split; [done|]. intros v _. unfold count_of. cbn. unfold zlen. cbn. lia.
  - cbn [fmap list_fmap forallb] in Hg. apply andb_true_iff in Hg as [Hc Hg]. apply andb_true_iff in Hc as [Hc1%Z.leb_le Hc2%Z.ltb_lt].
    unfold cell_of in Hc1, Hc2. cbn [fst snd] in Hc1, Hc2. rewrite count_cell_eq. cbv zeta. rewrite (vget_ok b) by lia. cbn [mbind outcome_bind].
    specialize (Hv (r * COL + c) ltac:(lia)) as Hr.
    assert ((if check then assert_ ((1 <=? vat b (r * COL + c)) && (vat b (r * COL + c) <=? NUM)) else Ok tt) = Ok tt) as ->.
    { destruct check; [|done]. by rewrite (proj2 (Z.leb_le _ _)), (proj2 (Z.leb_le _ _)) by lia. }
    cbn [mbind outcome_bind]. unfold NUM in Hr. rewrite vget_ok by lia. cbn [mbind outcome_bind]. rewrite vset_ok by lia. cbn [mbind outcome_bind].
    match goal with |- context [foldM _ ?o1 g] => destruct (IH o1) as (o' & -> & Ho' & Hcount); [by rewrite zlen_vupd|done|] end.
    exists o'. split; [done|]. split; [done|]. intros v Hvr. rewrite Hcount by done. unfold NUM in Hvr. rewrite vat_vupd by lia.
    cbn [fmap list_fmap]. unfold count_of. rewrite filter_cons. change (cell_of (r, c)) with (r * COL + c).
    destruct (decide (v = vat b (r * COL + c))) as [->|Hne]; [rewrite decide_True by done; rewrite zlen_cons; lia|by rewrite decide_False by congruence].
Qed.

Lemma pairwise_NoDup b l :
  valid_grid b -> forallb (fun c => (0 <=? c) && (c <? N)) l = true -> pairwise l = true -> NoDup (vat b <$> l).
Proof.
  intros (Hb & Hv & Hrel). induction l as [|c l IH]; intros Hr Hp; [constructor|]. cbn in Hr, Hp.
  apply andb_true_iff in Hr as [Hc Hr]. apply andb_true_iff in Hc as [Hc1%Z.leb_le Hc2%Z.ltb_lt]. apply andb_true_iff in Hp as [Hp1 Hp2].
  cbn. constructor; [|by apply IH]. intros (d & Ed & Hd)%list_elem_of_fmap. rewrite forallb_forall in Hr, Hp1.
  apply list_elem_of_In in Hd. specialize (Hr d Hd). specialize (Hp1 d Hd). apply andb_true_iff in Hr as [Hr1%Z.leb_le Hr2%Z.ltb_lt].
  by apply (Hrel c d).
Qed.

(** Nine different digits: each occurs once. *)
Lemma nine_digits l o :
  length l = 9%nat -> NoDup l -> (forall v, v ∈ l -> 1 <= v <= NUM) -> zlen o = 10 ->
  (forall v, 0 <= v <= NUM -> vat o v = count_of v l) -> all_once o = true.
Proof.
  intros Hl Hnd Hr Ho Hv. assert (l ≡ₚ seqZ 1 9) as Hp.
  { apply submseteq_length_Permutation; [|rewrite length_seqZ; lia]. apply NoDup_submseteq; [done|]. intros v Hin. apply elem_of_seqZ.
    specialize (Hr v Hin). unfold NUM in Hr. lia. }
  assert (o = [0; 1; 1; 1; 1; 1; 1; 1; 1; 1]) as ->; [|done]. apply vat_ext; [done|]. intros i Hi. rewrite Ho in Hi.
  rewrite Hv by (unfold NUM; lia). unfold count_of, zlen. rewrite Hp.
  assert (i ∈ seqZ 0 10) as Hin by (apply elem_of_seqZ; lia). revert i Hin Hi. 
  assert (forallb (fun i => bool_decide (Z.of_nat (length (filter (fun x => x = i) (seqZ 1 9))) = vat [0; 1; 1; 1; 1; 1; 1; 1; 1; 1] i)) (seqZ 0 10) = true) as Hall
    by (vm_compute; reflexivity).
  rewrite forallb_forall in Hall. intros i Hin _. apply list_elem_of_In in Hin. by apply (bool_decide_eq_true_1 _ (Hall i Hin)).
Qed.

Lemma check_groups_ok b check gs : valid_grid b -> forallb group_ok gs = true -> check_groups b check gs = Ok true.
Proof.
  intros Hg. pose proof Hg as (Hb & Hv & _). induction gs as [|g gs IH]; intros H; [done|]. cbn [forallb check_groups] in *.
  apply andb_true_iff in H as [Hok H]. unfold group_ok in Hok. apply andb_true_iff in Hok as [Hok Hpw]. apply andb_true_iff in Hok as [Hlen Hr].
  apply Nat.eqb_eq in Hlen. destruct (count_cells b check g (replicate 10 0)) as (o & -> & Ho & Hcount); [done..|]. cbn [mbind outcome_bind].
  rewrite (nine_digits (vat b <$> (cell_of <$> g))); [by apply IH|by rewrite !length_fmap|by apply pairwise_NoDup| |done|].
  - intros v (c & -> & Hc)%list_elem_of_fmap. apply Hv. rewrite forallb_forall in Hr. apply list_elem_of_In in Hc. specialize (Hr c Hc).
    apply andb_true_iff in Hr as [Hr1%Z.leb_le Hr2%Z.ltb_lt]. lia.
  - intros v Hvr. rewrite Hcount by done. unfold vat at 1. rewrite lookup_total_replicate_2 by (unfold NUM in *; lia). done.
Qed.

Lemma solved_ok b : valid_grid b -> solved b = Ok true.
Proof.
  intros Hg. pose proof groups_ok as H. rewrite !forallb_app in H. apply andb_true_iff in H as [H1 H]. apply andb_true_iff in H as [H2 H3].
  unfold solved. by rewrite !(check_groups_ok b).
Qed.

(** A completion of a consistent puzzle is a finished grid. *)
Lemma completes_valid b b' :
  (forall c, 0 <= c < N -> 0 <= vat b c <= NUM) -> consistent b -> completes b b' -> valid_grid b'.
Proof.
  intros Hd Hcons [Hl Hc]. split; [done|]. split.
  - intros c Hr. destruct (Hc c Hr) as [H1 H2]. specialize (Hd c Hr). destruct (decide (vat b c = 0)) as [E|E]; [apply H2, E|rewrite H1 by done; lia].
  - intros c d Hcr Hdr Hrel. destruct (Hc c Hcr) as [H1 H2]. destruct (Hc d Hdr) as [D1 D2].
    destruct (decide (vat b c = 0)) as [E|E]; [by apply (proj2 (H2 E))|].
    destruct (decide (vat b d = 0)) as [F|F]; [|rewrite H1, D1 by done; by apply (Hcons c d)].
    rewrite related_sym in Hrel. intros Eq. by apply (proj2 (D2 F) c).
Qed.

(** ** Properties *)

(** Each of the three solvers, on any puzzle of 81 digits and whatever
    the puzzle before left in the arrays, ends without a failed assertion or
    an access out of range; it returns true exactly if the blanks can be
    filled so that none gets the digit of a neighbor, and then the board is
    such a filling of the given digits; so the solvers agree.  If the given
    digits do not clash, the board passes [solved], and it is a grid in which
    no row, column or box has a digit twice. *)
Theorem sudoku_solvers_correct (v : solver) (inp : list byte) (s : state) :
  81 <= zlen inp -> Forall digit_char (take 81 inp) -> zlen (board s) = N -> zlen (spaces s) = N ->
  exists s0 s1 r s', input inp s = Ok s0 /\ init_cache s0 = Ok s1 /\
    solve v (S (Z.to_nat (nspaces s1))) 0 s1 = Ok (r, s') /\
    (r = true <-> exists b', completes (digits_of inp) b') /\
    (r = true -> completes (digits_of inp) (board s')) /\
    (consistent (digits_of inp) -> puzzle v inp s = Ok (r, s') /\ (r = true -> valid_grid (board s'))).
Proof.
  intros Hl Hc Hb Hsp. destruct (read_puzzle_ok inp s Hl Hc Hb Hsp) as (s0 & E0 & Eb0 & Hwf). pose proof Hwf as [Hb0 Hd0 _ _ _ _ _].
  destruct (init_cache_ok s0 Hb0 Hd0) as (occ & ar & E1 & Hco). set (s1 := set_cache occ ar s0) in *.
  assert (wf 0 s1) as Hwf1 by (eapply wf_ext; [exact Hwf|done..]).
  assert (exists r s', solve v (S (Z.to_nat (nspaces s1))) 0 s1 = Ok (r, s') /\ search_spec 0 s1 r s') as (r & s' & E2 & Hs).
  { assert (nspaces s1 - 0 < Z.of_nat (S (Z.to_nat (nspaces s1)))) as Hf by (destruct Hwf1; lia).
    destruct v; [exact (search_ok _ _ _ _ no_cache basic_strategy _ 0 s1 Hwf1 Logic.I Hf)|
      exact (search_ok _ _ _ _ no_cache min_arity_strategy _ 0 s1 Hwf1 Logic.I Hf)|exact (search_ok _ _ _ _ cache_ok cached_strategy _ 0 s1 Hwf1 Hco Hf)]. }
  unfold search_spec in Hs. change (board s1) with (board s0) in Hs. rewrite Eb0 in Hs.
  exists s0, s1, r, s'. split; [done|]. split; [done|]. split; [done|]. split; [|split].
  - destruct r; split; try done; [intros _; by exists (board s')|]. intros [b' Hb']. destruct Hs as [Hno _]. by destruct (Hno b').
  - by intros ->.
  - intros Hcons. assert (r = true -> valid_grid (board s')) as Hval.
    { intros ->. eapply completes_valid; [|exact Hcons|exact Hs]. rewrite <- Eb0. done. }
    split; [|done]. unfold puzzle. rewrite E0. cbn [mbind outcome_bind]. rewrite E1. cbn [mbind outcome_bind]. rewrite E2. cbn [mbind outcome_bind].
    destruct r; [|done]. by rewrite solved_ok by auto.
Qed.

(** ** Witness *)

Definition consistentb (b : list Z) : bool :=
  forallb (fun c => forallb (fun d => negb (related c d) || (vat b c =? 0) || negb (vat b d =? vat b c)) (seqZ 0 81)) (seqZ 0 81).

Lemma consistentb_ok b : consistentb b = true -> consistent b.
Proof.
  unfold consistentb. rewrite forallb_forall. intros H c d Hc Hd Hr Hz E.
  assert (c ∈ seqZ 0 81) as Hcin%list_elem_of_In by (apply elem_of_seqZ; unfold N in *; lia). specialize (H c Hcin). rewrite forallb_forall in H.
  assert (d ∈ seqZ 0 81) as Hdin%list_elem_of_In by (apply elem_of_seqZ; unfold N in *; lia). specialize (H d Hdin).
  rewrite Hr, E, Z.eqb_refl in H. destruct (Z.eqb_spec (vat b c) 0); done.
Qed.

(** A puzzle with 51 blanks. *)
Definition sample : list byte :=
  bs "530070000600195000098000060800060003400803001700020006060000280000419005000080079".

#[export] Instance digit_char_dec c : Decision (digit_char c).
Proof. unfold digit_char. apply _. Defined.

Lemma sudoku_solvers_correct_witness :
  exists s', puzzle MinArityCache sample new_state = Ok (true, s') /\ valid_grid (board s').
Proof.
  destruct (sudoku_solvers_correct MinArityCache sample new_state) as (s0 & s1 & r & s' & E0 & E1 & E2 & _ & _ & Hp).
  - vm_compute. discriminate.
  - apply (bool_decide_eq_true_1 _). vm_compute. reflexivity.
  - reflexivity.
  - reflexivity.
  - destruct Hp as [Hp Hv]; [apply consistentb_ok; vm_compute; reflexivity|]. exists s'.
    assert ((fst <$> puzzle MinArityCache sample new_state) = Ok true) as Hr by (vm_compute; reflexivity).
    rewrite Hp in Hr. injection Hr as Hr. cbn in Hr. rewrite Hr in Hp, Hv. split; [exact Hp|by apply Hv].
Defined.

(** Given digits that clash are not rejected: the solver succeeds with
    nothing left to fill and the check of the result aborts the program. *)
Lemma clash_aborts v : puzzle v (replicate 81 "1"%byte) new_state = Fail AssertFail.
Proof. destruct v; vm_compute; reflexivity. Qed.
