(* ===== verification/Queens.v ===== *)
(** * Queens: five programs that count placements of queens

    Models [puzzle/nqueens.cc] (brute force and backtracking),
    [nqueens_mt.cc] (backtracking on symmetric halves by threads),
    [nqueens_opt.cc] and [nqueens_opt_mt.cc] (backtracking on bit masks,
    without and with threads).  A placement lists the column of the queen of
    each row; [counts N n] says that [n] placements of [N] queens exist in
    which none attacks another, and every program is compared with it.  The
    recursions carry fuel, one unit per row that is left, and the loops on
    masks one per bit. *)
From Stdlib Require Import Sorted.
From S2P Require Import Prelude Vector.

Definition int_add (a b : Z) : outcome Z := _ ← ints [a + b]; Ok (a + b).
Definition int64_add (a b : Z) : outcome Z := _ ← longs [a + b]; Ok (a + b).

(** ** nqueens.cc: bruteforce *)

(** The smallest of the ascending elements [r] that is greater than [x] is
    replaced by [x]. *)
Fixpoint exchange (x : Z) (r : list Z) : option (Z * list Z) :=
  match r with
  | [] => None
  | y :: r => if x <? y then Some (y, x :: r) else '(z, r) ← exchange x r; Some (z, y :: r)
  end.

(** [std::next_permutation]: [None] when there is no next one.  A tail
    without a next permutation is descending; the element before it is
    swapped with the last one that is greater, and the tail is reversed. *)
Fixpoint next_permutation (l : list Z) : option (list Z) :=
  match l with
  | [] => None
  | x :: l =>
      match next_permutation l with
      | Some l => Some (x :: l)
      | None => '(y, l) ← exchange x (reverse l); Some (y :: l)
      end
  end.

(** The loop that tests one placement: false is [goto infeasible]. *)
Fixpoint feasible (N : Z) (pos : list Z) (is_ : list Z) (diagnoal antidiagnoal : list bool) : outcome bool :=
  match is_ with
  | [] => Ok true
  | i :: is_ =>
      p ← vget pos i;
      a ← vget antidiagnoal (i + p);
      if (a : bool) then Ok false
      else
        antidiagnoal ← vset antidiagnoal (i + p) true;
        let d := N + i - p in
        b ← vget diagnoal d;
        if (b : bool) then Ok false
        else diagnoal ← vset diagnoal d true; feasible N pos is_ diagnoal antidiagnoal
  end.

Definition no_bools (n : Z) : list bool := replicate (Z.to_nat n) false.

Fixpoint bruteforce_loop (fuel : nat) (N : Z) (pos : list Z) (count : Z) : outcome Z :=
  match fuel with
  | O => Fail Undefined
  | S fuel =>
      ok ← feasible N pos (seqZ 0 N) (no_bools (2 * N)) (no_bools (2 * N));
      count ← (if (ok : bool) then int_add count 1 else Ok count);
      match next_permutation pos with
      | Some pos => bruteforce_loop fuel N pos count
      | None => Ok count
      end
  end.
Definition bruteforce (N : Z) : outcome Z := bruteforce_loop (fact (Z.to_nat N)) N (seqZ 0 N) 0.

(** ** nqueens.cc and nqueens_mt.cc: backtracking *)

Section backtracking.
(** [++count], which is an [int] in one and an [int64_t] in the other. *)
Variable add : Z -> Z -> outcome Z.
Variable kMaxQueens : Z.

Record BackTracking := mkBackTracking { count : Z; columns : list bool; diagnoal : list bool; antidiagnoal : list bool }.

Definition new_BackTracking (N : Z) : outcome BackTracking :=
  _ ← assert_ ((0 <? N) && (N <=? kMaxQueens));
  Ok (mkBackTracking 0 (no_bools kMaxQueens) (no_bools (2 * kMaxQueens)) (no_bools (2 * kMaxQueens))).

(** Column [i] of [row] is marked as taken or free. *)
Definition mark (N row i : Z) (v : bool) (s : BackTracking) : outcome BackTracking :=
  c ← vset (columns s) i v;
  a ← vset (antidiagnoal s) (row + i) v;
  d ← vset (diagnoal s) (N + row - i) v;
  Ok (mkBackTracking (count s) c d a).

Definition occupied (N row i : Z) (s : BackTracking) : outcome bool :=
  c ← vget (columns s) i;
  if (c : bool) then Ok true
  else a ← vget (antidiagnoal s) (row + i); if (a : bool) then Ok true else vget (diagnoal s) (N + row - i).

Definition count_one (s : BackTracking) : outcome BackTracking :=
  n ← add (count s) 1; Ok (mkBackTracking n (columns s) (diagnoal s) (antidiagnoal s)).

Fixpoint search (fuel : nat) (N row : Z) (s : BackTracking) : outcome BackTracking :=
  match fuel with
  | O => Fail Undefined
  | S fuel =>
      foldM (fun s i =>
        o ← occupied N row i s;
        if negb o then
          if row =? N - 1 then count_one s
          else s ← mark N row i true s; s ← search fuel N (row + 1) s; mark N row i false s
        else Ok s) s (seqZ 0 N)
  end.

Definition search_fuel (N : Z) : nat := S (Z.to_nat N).

(** [backtracking] of [nqueens.cc]. *)
Definition backtracking (N : Z) : outcome Z :=
  bt ← new_BackTracking N; bt ← search (search_fuel N) N 0 bt; Ok (count bt).

(** [backtrackingsub] of [nqueens_mt.cc]: the queen of the first row in
    column [i]. *)
Definition backtrackingsub (N i : Z) : outcome Z :=
  bt ← new_BackTracking N; bt ← mark N 0 i true bt; bt ← search (search_fuel N) N 1 bt; Ok (count bt).
End backtracking.
Arguments mkBackTracking count columns diagnoal antidiagnoal : assert.

Definition nqueens_backtracking : Z -> outcome Z := backtracking int_add 16.
Definition nqueens_mt_sub : Z -> Z -> outcome Z := backtrackingsub int64_add 20.

(** ** nqueens_opt.cc *)

Fixpoint pos_ctz (p : positive) : Z := match p with xO p => 1 + pos_ctz p | _ => 0 end.
(** [__builtin_ctz], which is undefined at 0. *)
Definition ctz (z : Z) : outcome Z := match z with Zpos p => Ok (pos_ctz p) | _ => Fail Undefined end.

Definition not32 (z : Z) : Z := u32 (Z.lnot z).

(** The loop [while (avail)]: [body] is run for each bit below [limit], the
    lowest first; a bit at [limit] or above ends the loop. *)
Section bits.
Context {St : Type} (limit : Z) (body : St -> Z -> outcome St).
Fixpoint while_avail (fuel : nat) (avail : Z) (s : St) : outcome St :=
  match fuel with
  | O => Fail Undefined
  | S fuel =>
      if avail =? 0 then Ok s
      else
        i ← ctz avail;
        if limit <=? i then Ok s
        else s ← body s i; while_avail fuel (Z.land avail (u32 (avail - 1))) s
  end.
End bits.

Record OptBackTracking := mkOpt { opt_count : Z; opt_columns : list Z; opt_diagnoal : list Z; opt_antidiagnoal : list Z }.

Definition opt_kMaxQueens : Z := 20.

Definition new_Opt (N : Z) : outcome OptBackTracking :=
  _ ← assert_ ((0 <? N) && (N <=? opt_kMaxQueens));
  let zeros := replicate (Z.to_nat opt_kMaxQueens) 0 in Ok (mkOpt 0 zeros zeros zeros).

(** The masks of the row after [row]. *)
Definition place (row m : Z) (s : OptBackTracking) : outcome OptBackTracking :=
  c ← vget (opt_columns s) row; c ← vset (opt_columns s) (row + 1) (Z.lor c m);
  d ← vget (opt_diagnoal s) row; d ← vset (opt_diagnoal s) (row + 1) (Z.shiftr (Z.lor d m) 1);
  a ← vget (opt_antidiagnoal s) row; a ← vset (opt_antidiagnoal s) (row + 1) (u32 (Z.shiftl (Z.lor a m) 1));
  Ok (mkOpt (opt_count s) c d a).

Fixpoint opt_search (fuel : nat) (N row : Z) (s : OptBackTracking) : outcome OptBackTracking :=
  match fuel with
  | O => Fail Undefined
  | S fuel =>
      c ← vget (opt_columns s) row; d ← vget (opt_diagnoal s) row; a ← vget (opt_antidiagnoal s) row;
      while_avail N (fun s i =>
        if row =? N - 1 then
          n ← int64_add (opt_count s) 1; Ok (mkOpt n (opt_columns s) (opt_diagnoal s) (opt_antidiagnoal s))
        else s ← place row (Z.shiftl 1 i) s; opt_search fuel N (row + 1) s) 33 (not32 (Z.lor (Z.lor c d) a)) s
  end.

Definition opt_sub (N i : Z) : outcome Z :=
  let m := Z.shiftl 1 i in
  bt ← new_Opt N;
  c ← vset (opt_columns bt) 1 m; d ← vset (opt_diagnoal bt) 1 (Z.shiftr m 1);
  a ← vset (opt_antidiagnoal bt) 1 (u32 (Z.shiftl m 1));
  bt ← opt_search (search_fuel N) N 1 (mkOpt (opt_count bt) c d a); Ok (opt_count bt).

(** ** nqueens_opt_mt.cc *)

Fixpoint mask_search (fuel : nat) (N mask row columns diagnoal antidiagnoal : Z) (count : Z) : outcome Z :=
  match fuel with
  | O => Fail Undefined
  | S fuel =>
      while_avail 32 (fun count i =>
        if row =? N - 1 then int64_add count 1
        else
          let m := Z.shiftl 1 i in
          mask_search fuel N mask (row + 1) (Z.lor columns m) (Z.shiftr (Z.lor diagnoal m) 1)
            (u32 (Z.shiftl (Z.lor antidiagnoal m) 1)) count) 33
        (not32 (Z.lor (Z.lor (Z.lor columns diagnoal) antidiagnoal) mask)) count
  end.

Definition mask_sub (N i : Z) : outcome Z :=
  let m := Z.shiftl 1 i in
  _ ← assert_ ((0 <? N) && (N <=? 20));
  mask_search (search_fuel N) N (not32 (Z.shiftl 1 N - 1)) 1 m (Z.shiftr m 1) (u32 (Z.shiftl m 1)) 0.

(** ** The sum over the columns of the first queen *)

Section halves.
(** [backtrackingsub]. *)
Variable sub : Z -> Z -> outcome Z.

(** [backtracking] of the three files. *)
Definition backtracking_halves (N : Z) : outcome Z :=
  total ← foldM (fun total i => n ← sub N i; int64_add total n) 0 (seqZ 0 (N ÷ 2));
  _ ← longs [total * 2];
  if Z.rem N 2 =? 1 then n ← sub N (N ÷ 2); int64_add (total * 2) n else Ok (total * 2).

(** [backtracking_thr]: one [fetch_add]. *)
Definition backtracking_thr (N : Z) (total i : Z) : outcome Z :=
  n ← sub N i;
  if (Z.rem N 2 =? 1) && (i =? N ÷ 2) then int64_add total n else _ ← longs [2 * n]; int64_add total (2 * n).

(** The threads that are started. *)
Definition threads (N : Z) : list Z := seqZ 0 ((N + 1) ÷ 2).

(** [backtracking_mt], for threads that add in the given order. *)
Definition backtracking_mt (N : Z) (order : list Z) : outcome Z := foldM (backtracking_thr N) 0 order.
End halves.

(** [backtracking] of [nqueens_opt.cc] returns an [int]. *)
Definition nqueens_opt (N : Z) : outcome Z := n ← backtracking_halves opt_sub N; Ok (i32 n).

Example small_boards :
  [bruteforce 6; nqueens_backtracking 6; backtracking_mt nqueens_mt_sub 6 [2; 0; 1]; nqueens_opt 6;
   backtracking_mt mask_sub 7 [3; 1; 0; 2]; backtracking_halves mask_sub 7] = Ok <$> [4; 4; 4; 4; 40; 40].
Proof. vm_compute. reflexivity. Qed.

(** One queen has one placement; the programs on halves count none. *)
Example one_queen :
  [nqueens_backtracking 1; backtracking_mt nqueens_mt_sub 1 [0]; nqueens_opt 1; backtracking_mt mask_sub 1 [0]] = Ok <$> [1; 0; 0; 0].
Proof. vm_compute. reflexivity. Qed.

(** ** Specification *)

(** No queen attacks another one. *)
Definition peaceful (p : list Z) : Prop :=
  forall r r' c c', (r < r')%nat -> p !! r = Some c -> p !! r' = Some c' ->
    c' <> c /\ Z.abs (c' - c) <> Z.of_nat r' - Z.of_nat r.

Definition placement (N : Z) (p : list Z) : Prop :=
  zlen p = N /\ Forall (fun c => 0 <= c < N) p /\ peaceful p.

Definition counts (N n : Z) : Prop := exists ps, NoDup ps /\ (forall p, p ∈ ps <-> placement N p) /\ zlen ps = n.

(** ** Lemmas: placements row by row *)

(** The next queen in column [c] is attacked by one of [q]. *)
Definition attacks (q : list Z) (c : Z) : Prop :=
  exists r x, q !! r = Some x /\ (x = c \/ Z.abs (c - x) = zlen q - Z.of_nat r).

Definition attacksb (q : list Z) (c : Z) : bool :=
  existsb (fun b => b) (imap (fun r x => (x =? c) || (Z.abs (c - x) =? zlen q - Z.of_nat r)) q).

Lemma attacksb_spec q c : attacksb q c = true <-> attacks q c.
Proof.
  unfold attacksb, attacks. rewrite existsb_exists. split.
  - intros (b & Hb & ->). apply list_elem_of_In, elem_of_lookup_imap in Hb as (r & x & E & Hx). exists r, x. split; [done|].
    symmetry in E. apply orb_true_iff in E as [E%Z.eqb_eq|E%Z.eqb_eq]; auto.
  - intros (r & x & Hx & E). exists true. split; [|done]. apply list_elem_of_In, elem_of_lookup_imap. exists r, x. split; [|done].
    symmetry. apply orb_true_iff. rewrite !Z.eqb_eq. done.
Qed.

#[export] Instance attacks_dec q c : Decision (attacks q c).
Proof. refine (cast_if (decide (attacksb q c = true))); by rewrite <- attacksb_spec. Defined.

Lemma zlen_snoc {A} (l : list A) x : zlen (l ++ [x]) = zlen l + 1.
Proof. by rewrite zlen_app. Qed.

Lemma peaceful_snoc q c : peaceful (q ++ [c]) <-> peaceful q /\ ~ attacks q c.
Proof.
  unfold peaceful, attacks, zlen. split.
  - intros Hp. split.
    + intros r r' x x' Hr E E'. apply (Hp r r'); [done|by apply lookup_app_l_Some..].
    + intros (r & x & E & Hx). pose proof (lookup_lt_Some _ _ _ E).
      destruct (Hp r (length q) x c) as [H1 H2]; [done|by apply lookup_app_l_Some|by rewrite list_lookup_middle|].
      destruct Hx as [->|Hx]; [done|lia].
  - intros [Hp Ha] r r' x x' Hr E E'. apply lookup_app_Some in E' as [E'|[Hlen E']].
    + pose proof (lookup_lt_Some _ _ _ E'). rewrite lookup_app_l in E by lia. by apply (Hp r r').
    + apply list_lookup_singleton_Some in E' as [Hr' <-]. assert (r' = length q) as -> by lia.
      rewrite lookup_app_l in E by lia. split; [intros ->; apply Ha; exists r, x; auto|].
      intros Hd. apply Ha. exists r, x. auto.
Qed.

(** The completions of [q] by [k] rows, in the order the programs find them. *)
Fixpoint completions (N : Z) (k : nat) (q : list Z) : list (list Z) :=
  match k with
  | O => [q]
  | S k => c ← filter (fun c => ~ attacks q c) (seqZ 0 N); completions N k (q ++ [c])
  end.

Lemma completions_spec N k q p :
  Forall (fun c => 0 <= c < N) q -> peaceful q ->
  p ∈ completions N k q <-> (exists t, p = q ++ t /\ length t = k) /\ Forall (fun c => 0 <= c < N) p /\ peaceful p.
Proof.
  induction k as [|k IH] in q |- *; intros Hq Hp; cbn [completions].
  - rewrite list_elem_of_singleton. split.
    + intros ->. split; [|done]. exists []. by rewrite app_nil_r.
    + intros ((t & -> & ->%nil_length_inv) & _). apply app_nil_r.
  - rewrite list_elem_of_bind. split.
    + intros (c & Hin & [Ha Hc]%list_elem_of_filter). apply elem_of_seqZ in Hc.
      apply IH in Hin as ((t & -> & <-) & H); [|apply Forall_app; split; [done|by constructor; [lia|]]|by apply peaceful_snoc].
      split; [|done]. exists (c :: t). by rewrite <- app_assoc.
    + intros ((t & -> & Ht) & Hr & Hpe). destruct t as [|c t]; [done|]. injection Ht as Ht.
      rewrite (cons_middle c q t), (assoc_L (++)) in Hr. rewrite (cons_middle c q t), (assoc_L (++)) in Hpe.
      assert (peaceful (q ++ [c])) as Hs. { intros r r' x x' Hr' E E'. apply (Hpe r r'); [done|by apply lookup_app_l_Some..]. }
      pose proof (proj1 (Forall_app _ _ _) Hr) as [Hr1 _]. exists c. split.
      * apply IH; [done|done|]. rewrite (cons_middle c q t), (assoc_L (++)). split; [by exists t|done].
      * apply list_elem_of_filter. split; [by apply peaceful_snoc|]. apply elem_of_seqZ.
        apply Forall_app in Hr1 as [_ Hc]. rewrite Forall_singleton in Hc. lia.
Qed.

Lemma completions_prefix N k q p : p ∈ completions N k q -> exists t, p = q ++ t.
Proof.
  induction k as [|k IH] in q |- *; cbn [completions].
  - rewrite list_elem_of_singleton. intros ->. exists []. by rewrite app_nil_r.
  - rewrite list_elem_of_bind. intros (c & (t & ->)%IH & _). exists (c :: t). by rewrite <- app_assoc.
Qed.

Lemma completions_NoDup N k q : NoDup (completions N k q).
Proof.
  induction k as [|k IH] in q |- *; cbn [completions]; [apply NoDup_singleton|].
  assert (NoDup (filter (fun c => ~ attacks q c) (seqZ 0 N))) as Hnd by (apply NoDup_filter, NoDup_seqZ). induction Hnd as [|c cs Hc Hcs IHc].
  - constructor.
  - rewrite bind_cons. apply NoDup_app. split; [apply IH|]. split; [|exact IHc].
    intros p (t & ->)%completions_prefix (d & (t' & E)%completions_prefix & Hd)%list_elem_of_bind.
    rewrite <- !app_assoc in E. apply app_inv_head in E. injection E as <- _. done.
Qed.

Lemma peaceful_nil : peaceful [].
Proof. intros r r' c c' _ E. done. Qed.

(** All placements. *)
Lemma completions_counts N : 0 <= N -> counts N (zlen (completions N (Z.to_nat N) [])).
Proof.
  intros HN. exists (completions N (Z.to_nat N) []). split; [apply completions_NoDup|]. split; [|done].
  intros p. rewrite completions_spec by (done || apply peaceful_nil). unfold placement, zlen. split.
  - intros ((t & -> & Ht) & H). split; [cbn; lia|done].
  - intros (Hl & H). split; [|done]. exists p. split; [done|lia].
Qed.

Lemma counts_unique N n n' : counts N n -> counts N n' -> n = n'.
Proof.
  intros (ps & Hnd & Hin & <-) (ps' & Hnd' & Hin' & <-). unfold zlen. f_equal. apply Permutation_length. apply NoDup_Permutation; [done..|].
  intros p. by rewrite Hin, Hin'.
Qed.

(** There are at most as many as permutations. *)
Lemma peaceful_NoDup q : peaceful q -> NoDup q.
Proof.
  intros Hp. apply NoDup_alt. intros i j x Ei Ej. destruct (Nat.lt_trichotomy i j) as [Hlt|[->|Hlt]]; [|done|].
  - by destruct (Hp i j x x Hlt Ei Ej).
  - by destruct (Hp j i x x Hlt Ej Ei).
Qed.

Lemma completions_bound N k q :
  Forall (fun c => 0 <= c < N) q -> peaceful q -> zlen q + Z.of_nat k = N -> (length (completions N k q) <= fact k)%nat.
Proof.
  induction k as [|k IH] in q |- *; intros Hq Hp Hk; cbn [completions]; [done|].
  set (cs := filter _ _). assert (length cs <= S k)%nat as Hlen.
  { assert (NoDup (q ++ cs)) as Hnd.
    { apply NoDup_app. split; [by apply peaceful_NoDup|]. split; [|apply NoDup_filter, NoDup_seqZ].
      intros x [r Hr]%list_elem_of_lookup [Ha _]%list_elem_of_filter. apply Ha. exists r, x. auto. }
    assert (q ++ cs ⊆+ seqZ 0 N) as Hsub.
    { apply NoDup_submseteq; [done|]. intros x [Hx|Hx]%elem_of_app; apply elem_of_seqZ.
      - rewrite Forall_forall in Hq. specialize (Hq x Hx). lia.
      - apply list_elem_of_filter in Hx as [_ Hx%elem_of_seqZ]. lia. }
    apply submseteq_length in Hsub. rewrite length_app, length_seqZ in Hsub. unfold zlen in Hk. lia. }
  assert (forall c, c ∈ cs -> (length (completions N k (q ++ [c])) <= fact k)%nat) as Hc.
  { intros c [Ha Hc%elem_of_seqZ]%list_elem_of_filter. apply IH.
    - apply Forall_app. split; [done|]. constructor; [lia|done].
    - by apply peaceful_snoc.
    - rewrite zlen_snoc. lia. }
  clearbody cs. transitivity (length cs * fact k)%nat; [|change (fact (S k)) with (S k * fact k)%nat; nia].
  clear Hlen. induction cs as [|c cs IHc]; [done|]. rewrite bind_cons, length_app. cbn [length Nat.mul].
  assert (length (completions N k (q ++ [c])) <= fact k)%nat by (apply Hc; left).
  assert (length (cs ≫= (fun c => completions N k (q ++ [c]))) <= length cs * fact k)%nat by (apply IHc; intros; apply Hc; by right). lia.
Qed.

(** ** Lemmas: next_permutation visits all permutations *)

(** [next_permutation] leads from [l] through [ps] to its last element [e]. *)
Inductive walk : list Z -> list (list Z) -> list Z -> Prop :=
| walk_one l : walk l [l] l
| walk_step l l' ps e : next_permutation l = Some l' -> walk l' ps e -> walk l (l :: ps) e.

Lemma walk_app l ps e l' ps' e' : walk l ps e -> next_permutation e = Some l' -> walk l' ps' e' -> walk l (ps ++ ps') e'.
Proof. induction 1 as [|l l1 ps e E Hw IH]; intros He Hw'; cbn; econstructor; eauto. Qed.

Lemma walk_cons x l ps e : walk l ps e -> walk (x :: l) (cons x <$> ps) (x :: e).
Proof. induction 1 as [|l l1 ps e E Hw IH]; cbn; [constructor|]. econstructor; [|exact IH]. cbn. by rewrite E. Qed.

(** The permutations of [l] in lexicographic order; [l] is split at each of
    its elements. *)
Fixpoint splits (a b : list Z) : list (list Z * Z * list Z) :=
  match b with [] => [] | y :: b => (a, y, b) :: splits (a ++ [y]) b end.

Fixpoint permutations (n : nat) (l : list Z) : list (list Z) :=
  match n with
  | O => [[]]
  | S n => '(a, y, b) ← splits [] l; cons y <$> permutations n (a ++ b)
  end.

Notation ascending := (StronglySorted Z.lt).

Lemma ascending_app a b : ascending (a ++ b) <-> ascending a /\ ascending b /\ forall x y, x ∈ a -> y ∈ b -> x < y.
Proof.
  induction a as [|c a IH]; cbn [app].
  - split; [|tauto]. intros Hb. split; [constructor|]. split; [done|]. intros x y []%not_elem_of_nil.
  - split.
    + inversion_clear 1 as [|? ? Hs Hf]. apply IH in Hs as (Ha & Hb & Hab). apply Forall_app in Hf as [Hfa Hfb].
      split; [by constructor|]. split; [done|]. intros x y [->|Hx]%elem_of_cons Hy; [|auto]. rewrite Forall_forall in Hfb. auto.
    + intros (Hca & Hb & Hab). inversion_clear Hca as [|? ? Ha Hf]. constructor.
      * apply IH. split; [done|]. split; [done|]. intros x y Hx Hy. apply Hab; [by right|done].
      * apply Forall_app. split; [done|]. apply Forall_forall. intros y Hy. apply Hab; [by left|done].
Qed.

Lemma ascending_singleton x : ascending [x].
Proof. repeat constructor. Qed.

Lemma exchange_split x a y b : (forall z, z ∈ a -> z < x) -> x < y -> exchange x (a ++ y :: b) = Some (y, a ++ x :: b).
Proof.
  intros Ha Hy. induction a as [|z a IH]; cbn [app exchange].
  - by rewrite (proj2 (Z.ltb_lt x y)).
  - rewrite (proj2 (Z.ltb_ge x z)) by (specialize (Ha z (list_elem_of_here _ _)); lia). rewrite IH; [done|]. intros w Hw. apply Ha. by right.
Qed.

Lemma exchange_none x a : (forall z, z ∈ a -> z < x) -> exchange x a = None.
Proof.
  intros Ha. induction a as [|z a IH]; [done|]. cbn [exchange].
  rewrite (proj2 (Z.ltb_ge x z)) by (specialize (Ha z (list_elem_of_here _ _)); lia). rewrite IH; [done|]. intros w Hw. apply Ha. by right.
Qed.

Lemma next_descending l : ascending l -> next_permutation (reverse l) = None.
Proof.
  induction l as [|x l IH] using rev_ind; intros Hs; [done|]. apply ascending_app in Hs as (Hl & _ & Hx).
  rewrite reverse_snoc. cbn [next_permutation]. rewrite IH by done. rewrite reverse_involutive.
  rewrite exchange_none; [done|]. intros z Hz. apply Hx; [done|by left].
Qed.

Lemma next_after a x y b :
  ascending (a ++ x :: y :: b) -> next_permutation (x :: reverse (a ++ y :: b)) = Some (y :: a ++ x :: b).
Proof.
  intros (Ha & Hb & Hab)%ascending_app. inversion_clear Hb as [|? ? Hyb Hx]. apply Forall_cons in Hx as [Hxy Hxb].
  cbn [next_permutation]. rewrite next_descending.
  - rewrite reverse_involutive, exchange_split; [done| |done]. intros z Hz. apply Hab; [done|by left].
  - apply ascending_app. split; [done|]. split; [done|]. intros z w Hz Hw. apply Hab; [done|by right].
Qed.

Lemma walk_splits n a y b :
  ascending (a ++ y :: b) ->
  (forall l, ascending l -> length l = n -> walk l (permutations n l) (reverse l)) ->
  S n = length (a ++ y :: b) ->
  walk (y :: a ++ b) ('(a, y, b) ← splits a (y :: b); cons y <$> permutations n (a ++ b)) (reverse (a ++ y :: b)).
Proof.
  intros Hs IH Hn. induction b as [|y' b IHb] in a, y, Hs, Hn |- *.
  - cbn. rewrite !app_nil_r, reverse_snoc. apply walk_cons, IH; [by apply ascending_app in Hs as [? _]|].
    rewrite length_app in Hn. cbn in Hn. lia.
  - change (splits a (y :: y' :: b)) with ((a, y, y' :: b) :: splits (a ++ [y]) (y' :: b)). rewrite bind_cons.
    assert (a ++ y :: y' :: b = (a ++ [y]) ++ y' :: b) as Ea by by rewrite <- app_assoc.
    eapply walk_app.
    + apply walk_cons, IH; [|rewrite length_app in Hn |- *; cbn in Hn |- *; lia].
      apply ascending_app in Hs as (Ha & Hb & Hab). inversion_clear Hb. apply ascending_app. split; [done|]. split; [done|].
      intros z w Hz Hw. apply Hab; [done|by right].
    + by apply next_after.
    + rewrite Ea in Hs, Hn |- *. replace (a ++ y :: b) with ((a ++ [y]) ++ b) by by rewrite <- app_assoc. by apply IHb.
Qed.

Lemma walk_permutations n l : ascending l -> length l = n -> walk l (permutations n l) (reverse l).
Proof.
  induction n as [|n IH] in l |- *; intros Hs Hl.
  - apply nil_length_inv in Hl as ->. constructor.
  - destruct l as [|y b]; [done|]. by apply (walk_splits n [] y b).
Qed.

Lemma splits_elem a b a' y b' : (a', y, b') ∈ splits a b -> a ++ b = a' ++ y :: b'.
Proof.
  induction b as [|z b IH] in a |- *; cbn [splits]; [by intros []%not_elem_of_nil|].
  intros [E|Hin]%elem_of_cons; [injection E as -> -> ->; done|]. apply IH in Hin. by rewrite <- app_assoc in Hin.
Qed.

Lemma splits_mid a c y b : (a ++ c, y, b) ∈ splits a (c ++ y :: b).
Proof.
  induction c as [|z c IH] in a |- *; cbn [splits app]; [rewrite app_nil_r; left|]. right.
  replace (a ++ z :: c) with ((a ++ [z]) ++ c) by by rewrite <- app_assoc. apply IH.
Qed.

Lemma permutations_spec n l p : length l = n -> p ∈ permutations n l <-> p ≡ₚ l.
Proof.
  induction n as [|n IH] in l, p |- *; intros Hl; cbn [permutations].
  - apply nil_length_inv in Hl as ->. rewrite list_elem_of_singleton. split; [by intros ->|]. by intros ?%Permutation_nil_r.
  - rewrite list_elem_of_bind. split.
    + intros ([[a y] b] & (t & -> & Ht)%list_elem_of_fmap & Hin%splits_elem). cbn [app] in Hin. subst l.
      apply IH in Ht; [|rewrite length_app in Hl |- *; cbn in Hl; lia]. rewrite Ht. by rewrite Permutation_middle.
    + intros Hp. destruct p as [|y t]; [apply Permutation_length in Hp; cbn in Hp; lia|].
      assert (y ∈ l) as (a & b & ->)%list_elem_of_split by (rewrite <- Hp; left).
      exists (a, y, b). split; [|apply (splits_mid [] a y b)]. apply list_elem_of_fmap_2. apply IH.
      * rewrite length_app in Hl |- *. cbn in Hl. lia.
      * rewrite <- Permutation_middle in Hp. by apply Permutation_cons_inv in Hp.
Qed.

Lemma permutations_length n l : length l = n -> length (permutations n l) = fact n.
Proof.
  induction n as [|n IH] in l |- *; intros Hl; cbn [permutations]; [done|].
  assert (forall a b, length (a ++ b) = S n ->
    length ('(a, y, b) ← splits a b; cons y <$> permutations n (a ++ b)) = (length b * fact n)%nat) as Hs.
  { intros a b. induction b as [|y b IHb] in a |- *; intros Hab; [done|]. cbn [splits]. rewrite bind_cons, length_app, length_fmap.
    rewrite IH by (rewrite length_app in Hab |- *; cbn in Hab; lia). rewrite IHb by (by rewrite <- app_assoc). done. }
  rewrite Hs by done. by rewrite Hl.
Qed.

Lemma permutations_NoDup n l : NoDup l -> length l = n -> NoDup (permutations n l).
Proof.
  induction n as [|n IH] in l |- *; intros Hnd Hl; cbn [permutations]; [apply NoDup_singleton|].
  assert (forall a b, NoDup (a ++ b) -> length (a ++ b) = S n ->
    NoDup ('(a, y, b) ← splits a b; cons y <$> permutations n (a ++ b))) as Hs; [|by apply (Hs [])].
  intros a b. induction b as [|y b IHb] in a |- *; intros Hab Hn; [constructor|]. cbn [splits]. rewrite bind_cons.
  apply NoDup_app. split; [|split].
  - apply (NoDup_fmap_2 _). apply IH; [|rewrite length_app in Hn |- *; cbn in Hn; lia].
    apply NoDup_app in Hab as (H1 & H2 & H3). apply NoDup_app. split; [done|]. apply NoDup_cons in H3 as [_ H3]. split; [|done].
    intros x Hx Hxb. apply (H2 x); [done|by right].
  - intros p (t & -> & _)%list_elem_of_fmap ([[a' y'] b'] & (t' & E & _)%list_elem_of_fmap & Hin)%list_elem_of_bind. injection E as <- ->.
    assert (y ∈ b) as Hyb.
    { clear -Hin. remember (a ++ [y]) as a0 eqn:E. clear E. induction b as [|z b IHb] in a0, Hin |- *; cbn [splits] in Hin;
        [by apply not_elem_of_nil in Hin|]. apply elem_of_cons in Hin as [E|Hin]; [injection E as -> -> ->; left|right; by apply (IHb _ Hin)]. }
    apply NoDup_app in Hab as (_ & _ & [Hy _]%NoDup_cons). done.
  - apply IHb; by rewrite <- app_assoc.
Qed.

(** ** Lemmas: counting in loops *)

(** A loop in which iteration [i] adds [f i] to the count. *)
Lemma foldM_count {St} (P : Z -> St -> Prop) (f : Z -> Z) (body : St -> Z -> outcome St) L cs n s :
  (forall i n s, i ∈ cs -> 0 <= n -> n + f i <= L -> P n s -> exists s', body s i = Ok s' /\ P (n + f i) s') ->
  (forall i, 0 <= f i) -> 0 <= n -> n + sum_of f cs <= L -> P n s ->
  exists s', foldM body s cs = Ok s' /\ P (n + sum_of f cs) s'.
Proof.
  induction cs as [|i cs IH] in n, s |- *; intros Hstep Hf Hn HL HP; cbn [sum_of foldM] in *.
  - exists s. by rewrite Z.add_0_r.
  - pose proof (sum_of_nonneg f cs Hf). pose proof (Hf i).
    destruct (Hstep i n s) as (s1 & -> & HP1); [left|lia|lia|done|]. cbn [mbind outcome_bind].
    destruct (IH (n + f i) s1) as (s2 & E & HP2); [|done|lia|lia|done|].
    + intros j m t Hj. apply Hstep. by right.
    + exists s2. split; [done|]. by rewrite Z.add_assoc.
Qed.

(** The completions of [q] that begin with column [c]. *)
Definition from_column (N : Z) (k : nat) (q : list Z) (c : Z) : Z :=
  if decide (attacks q c) then 0 else zlen (completions N k (q ++ [c])).

Lemma from_column_eq N k q c : from_column N k q c = if decide (attacks q c) then 0 else zlen (completions N k (q ++ [c])).
Proof. done. Qed.

Lemma from_column_nonneg N k q c : 0 <= from_column N k q c.
Proof. unfold from_column. case_decide; [done|apply zlen_nonneg]. Qed.

Lemma zlen_bind {A B} (f : A -> list B) l : zlen (l ≫= f) = sum_of (fun x => zlen (f x)) l.
Proof. induction l as [|x l IH]; [done|]. rewrite bind_cons, zlen_app. cbn [sum_of]. lia. Qed.

Lemma completions_sum N k q : zlen (completions N (S k) q) = sum_of (from_column N k q) (seqZ 0 N).
Proof.
  cbn [completions]. rewrite zlen_bind. induction (seqZ 0 N) as [|c cs IH]; [done|]. rewrite filter_cons. cbn [sum_of].
  rewrite (from_column_eq N k q c). destruct (decide (attacks q c)) as [Ha|Ha].
  - rewrite decide_False by tauto. rewrite IH. lia.
  - rewrite decide_True by done. cbn [sum_of]. rewrite IH. lia.
Qed.

(** ** Lemmas: arrays that mark the lines of the queens *)

(** [a] marks the line [f r x] of each queen. *)
Definition marks (f : Z -> Z -> Z) (q : list Z) (a : list bool) : Prop :=
  forall k, 0 <= k < zlen a -> vat a k = true <-> exists r x, q !! r = Some x /\ f (Z.of_nat r) x = k.

Lemma marks_snoc f q a c : marks f q a -> 0 <= f (zlen q) c < zlen a -> marks f (q ++ [c]) (vupd a (f (zlen q) c) true).
Proof.
  intros Hm Hr k Hk. rewrite zlen_vupd in Hk. rewrite vat_vupd by lia. destruct (decide (k = f (zlen q) c)) as [->|Hne].
  - split; [intros _|done]. exists (length q), c. by rewrite list_lookup_middle.
  - rewrite (Hm k Hk). split.
    + intros (r & x & E & <-). exists r, x. split; [by apply lookup_app_l_Some|done].
    + intros (r & x & [E|[Hl E]]%lookup_app_Some & <-); [by exists r, x|].
      apply list_lookup_singleton_Some in E as [Hr0 <-]. assert (r = length q) as -> by lia. done.
Qed.

Definition no_marks f (n : Z) : marks f [] (no_bools n).
Proof.
  intros k Hk. unfold no_bools, vat. split; [|by intros (r & x & E & _)].
  unfold no_bools, zlen in Hk. rewrite length_replicate in Hk. by rewrite lookup_total_replicate_2 by lia.
Qed.

Lemma zlen_no_bools n : 0 <= n -> zlen (no_bools n) = n.
Proof. intros. unfold no_bools. by apply zlen_replicate. Qed.

Definition column_of (r x : Z) : Z := x.
Definition antidiagonal_of (r x : Z) : Z := r + x.
Definition diagonal_of (N r x : Z) : Z := N + r - x.

Lemma attacks_marks q c N :
  attacks q c <->
  (exists r x, q !! r = Some x /\ column_of (Z.of_nat r) x = c) \/
  (exists r x, q !! r = Some x /\ antidiagonal_of (Z.of_nat r) x = zlen q + c) \/
  (exists r x, q !! r = Some x /\ diagonal_of N (Z.of_nat r) x = N + zlen q - c).
Proof.
  unfold attacks, column_of, antidiagonal_of, diagonal_of. split.
  - intros (r & x & E & H). destruct H as [->|H]; [left; eauto|right]. pose proof (lookup_lt_Some _ _ _ E). unfold zlen in *.
    destruct (Z.abs_spec (c - x)); [right|left]; exists r, x; split; (done || lia).
  - assert (forall r x, q !! r = Some x -> Z.of_nat r < zlen q) as Hlt.
    { intros r x E%lookup_lt_Some. unfold zlen. lia. }
    intros [(r & x & E & H)|[(r & x & E & H)|(r & x & E & H)]]; exists r, x; (split; [done|]); specialize (Hlt r x E); lia.
Qed.

(** ** Lemmas: brute force *)

Lemma vat_of_prefix (q : list Z) c t : vat (q ++ c :: t) (zlen q) = c.
Proof. unfold vat, zlen. rewrite Nat2Z.id. apply list_lookup_total_correct. by rewrite list_lookup_middle. Qed.

Lemma feasible_ok N q t diag anti :
  zlen (q ++ t) = N -> Forall (fun c => 0 <= c < N) (q ++ t) -> NoDup (q ++ t) -> peaceful q ->
  zlen diag = 2 * N -> zlen anti = 2 * N -> marks (diagonal_of N) q diag -> marks antidiagonal_of q anti ->
  exists b, feasible N (q ++ t) (seqZ (zlen q) (N - zlen q)) diag anti = Ok b /\ (b = true <-> peaceful (q ++ t)).
Proof.
  induction t as [|c t IH] in q, diag, anti |- *; intros Hl Hr Hnd Hp Hdl Hal Hdm Ham.
  - rewrite app_nil_r in *. rewrite Hl, Z.sub_diag, seqZ_nil by lia. by exists true.
  - assert (zlen q < N) as Hq by (rewrite zlen_app, zlen_cons in Hl; pose proof (zlen_nonneg t); lia). pose proof (zlen_nonneg q).
    rewrite seqZ_cons by lia. cbn [feasible]. rewrite vget_ok by lia. cbn [mbind outcome_bind]. rewrite vat_of_prefix.
    assert (0 <= c < N) as Hc. { rewrite Forall_forall in Hr. apply Hr, elem_of_app. right. left. }
    assert (c ∉ q) as Hcq. { apply NoDup_app in Hnd as (_ & Hnd & _). intros Hin. apply (Hnd c Hin). left. }
    assert (forall r x, q !! r = Some x -> x <> c) as Hcol. { intros r x E ->. apply Hcq. by apply list_elem_of_lookup_2 in E. }
    pose proof (attacks_marks q c N) as Hatt.
    assert (attacks q c -> ~ peaceful (q ++ c :: t)) as Hfail.
    { intros Ha Hpp. rewrite (cons_middle c q t), (assoc_L (++)) in Hpp. apply (proj1 (peaceful_snoc q c)); [|done].
      intros r r' x x' Hlt E E'. apply (Hpp r r'); [done|by apply lookup_app_l_Some..]. }
    rewrite (vget_ok anti) by lia. cbn [mbind outcome_bind]. destruct (vat anti (zlen q + c)) eqn:Ea.
    { exists false. split; [done|]. split; [done|]. intros Hpp. exfalso. apply Hfail; [|done]. apply Hatt. right. left. apply Ham; [lia|done]. }
    rewrite (vset_ok anti) by lia. cbn [mbind outcome_bind]. rewrite (vget_ok diag) by lia. cbn [mbind outcome_bind].
    destruct (vat diag (N + zlen q - c)) eqn:Ed.
    { exists false. split; [done|]. split; [done|]. intros Hpp. exfalso. apply Hfail; [|done]. apply Hatt. right. right. apply Hdm; [lia|done]. }
    rewrite (vset_ok diag) by lia. cbn [mbind outcome_bind].
    assert (~ attacks q c) as Hna.
    { intros [(r & x & E & Hx)|[Hx|Hx]]%Hatt; [by apply (Hcol r x)| |]; [apply Ham in Hx; [congruence|lia]|apply Hdm in Hx; [congruence|lia]]. }
    rewrite (cons_middle c q t), (assoc_L (++)) in Hl, Hr, Hnd |- *.
    replace (Z.succ (zlen q)) with (zlen (q ++ [c])) by (rewrite zlen_snoc; lia).
    replace (Z.pred (N - zlen q)) with (N - zlen (q ++ [c])) by (rewrite zlen_snoc; lia).
    apply IH; [done|done|done|by apply peaceful_snoc|by rewrite zlen_vupd|by rewrite zlen_vupd| |].
    + apply (marks_snoc (diagonal_of N)); [done|unfold diagonal_of; lia].
    + apply (marks_snoc antidiagonal_of); [done|unfold antidiagonal_of; lia].
Qed.

(** The rows from the last to the first. *)
Fixpoint peacefulb (r : list Z) : bool :=
  match r with [] => true | c :: r => negb (attacksb (reverse r) c) && peacefulb r end.

Lemma peacefulb_spec p : peacefulb (reverse p) = true <-> peaceful p.
Proof.
  induction p as [|c q IH] using rev_ind; [split; [intros _; apply peaceful_nil|done]|].
  rewrite reverse_snoc, peaceful_snoc. cbn [peacefulb]. rewrite reverse_involutive, andb_true_iff, negb_true_iff, IH.
  rewrite <- (not_true_iff_false (attacksb q c)), attacksb_spec. tauto.
Qed.

#[export] Instance peaceful_dec p : Decision (peaceful p).
Proof. refine (cast_if (decide (peacefulb (reverse p) = true))); by rewrite <- peacefulb_spec. Defined.

Lemma bruteforce_loop_ok N pos ps e n fuel :
  0 <= N -> (forall p, p ∈ ps -> p ≡ₚ seqZ 0 N) -> walk pos ps e -> next_permutation e = None -> (length ps <= fuel)%nat ->
  0 <= n -> n + zlen (filter peaceful ps) < 2 ^ 31 ->
  bruteforce_loop fuel N pos n = Ok (n + zlen (filter peaceful ps)).
Proof.
  intros HN Hps Hw He. revert Hps. induction Hw as [l|l l' ps e E Hw IH] in n, fuel, He |- *; intros Hps Hf Hn Hlt.
  all: destruct fuel as [|fuel]; [cbn in Hf; lia|]; cbn [bruteforce_loop].
  all: assert (l ≡ₚ seqZ 0 N) as Hl by (apply Hps; left).
  all: destruct (feasible_ok N [] l (no_bools (2 * N)) (no_bools (2 * N))) as (b & Eb & Hb);
    [cbn; unfold zlen; rewrite Hl, length_seqZ; lia|cbn; rewrite Hl; apply Forall_forall; intros c Hc%elem_of_seqZ; lia|
     cbn; rewrite Hl; apply NoDup_seqZ|apply peaceful_nil|by rewrite zlen_no_bools by lia|by rewrite zlen_no_bools by lia|apply no_marks|apply no_marks|].
  all: cbn [app] in Eb, Hb; rewrite zlen_nil, Z.sub_0_r in Eb; rewrite Eb; cbn [mbind outcome_bind].
  all: rewrite filter_cons in Hlt |- *.
  - rewrite filter_nil in Hlt |- *. rewrite He. destruct b.
    + rewrite decide_True in Hlt |- * by by apply Hb. change (zlen [l]) with 1 in Hlt |- *.
      unfold int_add. by rewrite ints_ok by (constructor; [lia|done]).
    + rewrite decide_False in Hlt |- * by (intros Hp%Hb; done). rewrite zlen_nil, Z.add_0_r. done.
  - rewrite E. specialize (fun m => IH m fuel He (fun p Hp => Hps p (list_elem_of_further _ _ _ Hp)) ltac:(cbn in Hf; lia)).
    pose proof (zlen_nonneg (filter peaceful ps)). destruct b.
    + rewrite decide_True in Hlt |- * by by apply Hb. rewrite zlen_cons in Hlt |- *. unfold int_add.
      rewrite ints_ok by (constructor; [lia|done]). cbn [mbind outcome_bind]. rewrite IH by lia. f_equal. lia.
    + rewrite decide_False in Hlt |- * by (intros Hp%Hb; done). cbn [mbind outcome_bind]. by apply IH.
Qed.

Lemma seqZ_ascending lo n : ascending (seqZ lo n).
Proof.
  destruct (Z.le_gt_cases n 0) as [Hn|Hn]; [rewrite seqZ_nil by lia; constructor|].
  rewrite <- (Z2Nat.id n) by lia. clear Hn. induction (Z.to_nat n) as [|k IH] in lo |- *; [constructor|].
  rewrite seqZ_cons by lia. replace (Z.pred (Z.of_nat (S k))) with (Z.of_nat k) by lia. constructor; [apply IH|].
  apply Forall_forall. intros x Hx%elem_of_seqZ. lia.
Qed.

Lemma bruteforce_ok N n : 0 <= N -> counts N n -> n < 2 ^ 31 -> bruteforce N = Ok n.
Proof.
  intros HN Hc Hlt. set (l := seqZ 0 N). assert (length l = Z.to_nat N) as Hl by apply length_seqZ.
  assert (counts N (zlen (filter peaceful (permutations (Z.to_nat N) l)))) as Hc'.
  { exists (filter peaceful (permutations (Z.to_nat N) l)). split; [apply NoDup_filter, permutations_NoDup; [apply NoDup_seqZ|done]|].
    split; [|done]. intros p. rewrite list_elem_of_filter, permutations_spec by done. unfold placement. split.
    - intros [Hp Hperm]. split; [unfold zlen; rewrite Hperm; lia|]. split; [|done]. rewrite Hperm. apply Forall_forall.
      intros c Hc1%elem_of_seqZ. lia.
    - intros (Hlen & Hr & Hp). split; [done|]. apply submseteq_length_Permutation; [|unfold zlen in Hlen; lia].
      apply NoDup_submseteq; [by apply peaceful_NoDup|]. intros x Hx. rewrite Forall_forall in Hr. apply elem_of_seqZ. specialize (Hr x Hx). lia. }
  rewrite (counts_unique N n _ Hc Hc') in Hlt |- *. unfold bruteforce.
  rewrite (bruteforce_loop_ok N l (permutations (Z.to_nat N) l) (reverse l)); [done|done| | | | |done|done].
  - intros p. by apply permutations_spec.
  - apply walk_permutations; [apply seqZ_ascending|done].
  - apply next_descending, seqZ_ascending.
  - by rewrite permutations_length.
Qed.

(** ** Lemmas: backtracking on arrays *)

(** The arrays stand for the placement [q] of the first rows. *)
Record lines_of (K N : Z) (q : list Z) (s : BackTracking) : Prop := {
  lines_columns : zlen (columns s) = K;
  lines_anti : zlen (antidiagnoal s) = 2 * K;
  lines_diag : zlen (diagnoal s) = 2 * K;
  marks_columns : marks column_of q (columns s);
  marks_anti : marks antidiagonal_of q (antidiagnoal s);
  marks_diag : marks (diagonal_of N) q (diagnoal s);
}.

Section arrays.
Context (add : Z -> Z -> outcome Z) (L K N : Z).
Hypothesis add_ok : forall n, 0 <= n < L -> add n 1 = Ok (n + 1).
Hypothesis N_ok : N <= K.

Definition counted (s : BackTracking) (n : Z) : BackTracking := mkBackTracking n (columns s) (diagnoal s) (antidiagnoal s).

Lemma occupied_ok q s i :
  lines_of K N q s -> zlen q < N -> 0 <= i < N -> occupied N (zlen q) i s = Ok (bool_decide (attacks q i)).
Proof.
  intros [Hc Ha Hd Mc Ma Md] Hq Hi. pose proof (zlen_nonneg q). pose proof (attacks_marks q i N) as Hatt. unfold occupied.
  rewrite <- (Mc i), <- (Ma (zlen q + i)), <- (Md (N + zlen q - i)) in Hatt by lia.
  rewrite (vget_ok (columns s)) by lia. cbn [mbind outcome_bind]. destruct (vat (columns s) i) eqn:Ec; [by rewrite bool_decide_true by tauto|].
  rewrite (vget_ok (antidiagnoal s)) by lia. cbn [mbind outcome_bind]. destruct (vat (antidiagnoal s) (zlen q + i)) eqn:Ea; [by rewrite bool_decide_true by tauto|].
  rewrite (vget_ok (diagnoal s)) by lia. destruct (vat (diagnoal s) (N + zlen q - i)); [by rewrite bool_decide_true by tauto|].
  rewrite bool_decide_false; [done|]. rewrite Hatt. intros [?|[?|?]]; done.
Qed.

Definition set_lines (row i : Z) (v : bool) (s : BackTracking) : BackTracking :=
  mkBackTracking (count s) (vupd (columns s) i v) (vupd (diagnoal s) (N + row - i) v) (vupd (antidiagnoal s) (row + i) v).

Lemma mark_ok q s i v :
  lines_of K N q s -> zlen q < N -> 0 <= i < N -> mark N (zlen q) i v s = Ok (set_lines (zlen q) i v s).
Proof.
  intros [Hc Ha Hd _ _ _] Hq Hi. pose proof (zlen_nonneg q). unfold mark. by rewrite !vset_ok by lia.
Qed.

Lemma lines_snoc q s i : lines_of K N q s -> zlen q < N -> 0 <= i < N -> lines_of K N (q ++ [i]) (set_lines (zlen q) i true s).
Proof.
  intros [Hc Ha Hd Mc Ma Md] Hq Hi. pose proof (zlen_nonneg q). constructor; cbn [columns diagnoal antidiagnoal set_lines]; rewrite ?zlen_vupd; try done.
  - apply (marks_snoc column_of); [done|unfold column_of; lia].
  - apply (marks_snoc antidiagonal_of); [done|unfold antidiagonal_of; lia].
  - apply (marks_snoc (diagonal_of N)); [done|unfold diagonal_of; lia].
Qed.

Lemma unmark_ok q s i n :
  lines_of K N q s -> zlen q < N -> 0 <= i < N -> ~ attacks q i ->
  mark N (zlen q) i false (counted (set_lines (zlen q) i true s) n) = Ok (counted s n).
Proof.
  intros [Hc Ha Hd Mc Ma Md] Hq Hi Hna. pose proof (zlen_nonneg q). pose proof (attacks_marks q i N) as Hatt.
  rewrite <- (Mc i), <- (Ma (zlen q + i)), <- (Md (N + zlen q - i)) in Hatt by lia.
  unfold mark. cbn [columns diagnoal antidiagnoal counted set_lines count]. rewrite !vset_ok by (rewrite ?zlen_vupd; lia). cbn [mbind outcome_bind].
  rewrite !vupd_vupd. unfold counted. do 2 f_equal.
  all: match goal with |- vupd ?a ?k false = ?a => assert (vat a k = false) as <-; [|by apply vupd_same; lia] end.
  all: apply not_true_iff_false; tauto.
Qed.

Lemma lines_counted q s n : lines_of K N q s -> lines_of K N q (counted s n).
Proof. by intros [? ? ? ? ? ?]. Qed.

Lemma array_search_ok fuel k q s :
  lines_of K N q s -> zlen q + Z.of_nat (S k) = N -> (k < fuel)%nat ->
  0 <= count s -> count s + zlen (completions N (S k) q) <= L ->
  search add fuel N (zlen q) s = Ok (counted s (count s + zlen (completions N (S k) q))).
Proof.
  induction fuel as [|fuel IH] in k, q, s |- *; intros Hs Hk Hf Hn HL; [lia|]. cbn [search]. rewrite completions_sum in HL |- *.
  edestruct (foldM_count (fun n t => t = counted s n) (from_column N k q)) with (L := L) (n := count s) (s := s) as (s' & E & ->);
    [|apply from_column_nonneg|exact Hn|exact HL|by destruct s|exact E].
  intros i n t Hi%elem_of_seqZ Hn0 Hn1 ->. pose proof (lines_counted q s n Hs) as Hs'.
  rewrite (occupied_ok q) by (done || lia). cbn [mbind outcome_bind].
  rewrite from_column_eq in Hn1 |- *. destruct (decide (attacks q i)) as [Ha|Ha].
  - rewrite bool_decide_true by done. cbn [negb]. rewrite Z.add_0_r. by exists (counted s n).
  - rewrite bool_decide_false by done. cbn [negb]. destruct (Z.eqb_spec (zlen q) (N - 1)) as [Er|Er].
    + assert (k = O) as -> by lia. cbn [completions] in Hn1 |- *. change (zlen [q ++ [i]]) with 1 in Hn1 |- *.
      unfold count_one. cbn [count counted]. rewrite add_ok by lia. by eexists.
    + destruct k as [|k]; [lia|]. rewrite (mark_ok q) by (done || lia). cbn [mbind outcome_bind].
      rewrite <- (zlen_snoc q i). erewrite (IH k).
      * cbn [mbind outcome_bind]. eexists. split; [|done]. change (count (set_lines (zlen q) i true (counted s n))) with n.
        change (counted (set_lines (zlen q) i true (counted s n))) with (counted (set_lines (zlen q) i true s)).
        apply (unmark_ok q); (done || lia).
      * apply lines_snoc; (done || lia).
      * rewrite zlen_snoc. lia.
      * lia.
      * done.
      * cbn [count set_lines counted]. lia.
Qed.

Lemma new_lines n : 0 <= N -> lines_of K N [] (mkBackTracking n (no_bools K) (no_bools (2 * K)) (no_bools (2 * K))).
Proof. intros HN. constructor; cbn; (apply no_marks || (apply zlen_no_bools; lia)). Qed.

Lemma backtracking_ok : 0 < N -> zlen (completions N (Z.to_nat N) []) <= L ->
  backtracking add K N = Ok (zlen (completions N (Z.to_nat N) [])).
Proof.
  intros HN HL. unfold backtracking, new_BackTracking. rewrite (proj2 (Z.ltb_lt 0 N)), (proj2 (Z.leb_le N K)) by done. cbn [andb assert_ mbind outcome_bind].
  replace (Z.to_nat N) with (S (Z.to_nat (N - 1))) in HL |- * by lia.
  change 0 with (zlen (@nil Z)) at 1. rewrite (array_search_ok _ (Z.to_nat (N - 1)));
    [done|apply new_lines; lia|rewrite zlen_nil; lia|unfold search_fuel; lia|done|done].
Qed.

(** With the queen of the first row placed and at least one more row. *)
Lemma backtrackingsub_ok i k : 0 <= i < N -> N = Z.of_nat (S (S k)) -> zlen (completions N (S k) [i]) <= L ->
  backtrackingsub add K N i = Ok (zlen (completions N (S k) [i])).
Proof.
  intros Hi Hk HL. unfold backtrackingsub, new_BackTracking. rewrite (proj2 (Z.ltb_lt 0 N)), (proj2 (Z.leb_le N K)) by lia. cbn [andb assert_ mbind outcome_bind].
  set (s0 := mkBackTracking _ _ _ _). assert (lines_of K N [] s0) as Hs by (apply new_lines; lia).
  change (mark N 0 i true s0) with (mark N (zlen (@nil Z)) i true s0). rewrite (mark_ok []) by (done || (rewrite zlen_nil; lia)). cbn [mbind outcome_bind].
  change 1 with (zlen [i]) at 1. rewrite (array_search_ok _ k);
    [done|apply (lines_snoc []); (done || rewrite zlen_nil; lia)|change (zlen [i]) with 1; lia|unfold search_fuel; lia|done|done].
Qed.
End arrays.

(** ** Lemmas: loops over the bits of a mask *)

Lemma pos_ctz_split p : exists m, 0 <= pos_ctz p /\ 0 <= m /\ Z.pos p = 2 ^ (pos_ctz p + 1) * m + 2 ^ pos_ctz p.
Proof.
  induction p as [p IH|p IH|]; cbn [pos_ctz].
  - exists (Z.pos p). lia.
  - destruct IH as (m & H0 & Hm & E). exists m. split; [lia|]. split; [done|]. rewrite Pos2Z.inj_xO, E.
    replace (1 + pos_ctz p + 1) with (Z.succ (pos_ctz p + 1)) by lia. replace (1 + pos_ctz p) with (Z.succ (pos_ctz p)) by lia.
    rewrite !Z.pow_succ_r by lia. lia.
  - exists 0. lia.
Qed.

(** [avail] has bit [i] and none below; [avail &= avail - 1] clears it. *)
Lemma ctz_ok avail : 0 < avail ->
  exists i, ctz avail = Ok i /\ 0 <= i /\ Z.testbit avail i = true /\ (forall j, 0 <= j < i -> Z.testbit avail j = false) /\
    forall j, 0 <= j -> Z.testbit (Z.land avail (avail - 1)) j = (i <? j) && Z.testbit avail j.
Proof.
  destruct avail as [|p|p]; try lia. intros _. destruct (pos_ctz_split p) as (m & H0 & Hm & E). set (i := pos_ctz p) in *.
  assert (Z.pos p = 2 ^ i * (2 * m + 1)) as E' by (rewrite E, Z.pow_add_r by lia; lia).
  assert (0 < 2 ^ i) as Hpow by (apply Z.pow_pos_nonneg; lia).
  assert (Z.testbit (Z.pos p) i = true) as Hbit.
  { rewrite <- (Z.add_0_l i), <- Z.div_pow2_bits by lia. rewrite E', (Z.mul_comm (2 ^ i)), Z.div_mul by lia. apply Z.testbit_odd_0. }
  assert (forall j, 0 <= j < i -> Z.testbit (Z.pos p) j = false) as Hlow.
  { intros j Hj. rewrite E', Z.mul_comm. apply Z.mul_pow2_bits_low. lia. }
  exists i. split; [done|]. split; [done|]. split; [done|]. split; [done|].
  intros j Hj. rewrite Z.land_spec. destruct (Z.ltb_spec i j) as [Hij|Hij]; cbn [andb].
  - assert (0 < 2 ^ (i + 1)) by (apply Z.pow_pos_nonneg; lia).
    assert (forall a, Z.testbit a j = Z.testbit (a / 2 ^ (i + 1)) (j - (i + 1))) as Hdiv.
    { intros a. rewrite Z.div_pow2_bits by lia. f_equal. lia. }
    rewrite (Hdiv (Z.pos p)), (Hdiv (Z.pos p - 1)). rewrite E.
    assert (2 ^ (i + 1) = 2 * 2 ^ i) as E2 by (rewrite Z.pow_add_r by lia; lia).
    replace ((2 ^ (i + 1) * m + 2 ^ i - 1) / 2 ^ (i + 1)) with m by (apply (Z.div_unique _ _ _ (2 ^ i - 1)); lia).
    replace ((2 ^ (i + 1) * m + 2 ^ i) / 2 ^ (i + 1)) with m by (apply (Z.div_unique _ _ _ (2 ^ i)); lia). apply andb_diag.
  - destruct (decide (j = i)) as [->|Hne]; [|by rewrite Hlow by lia]. rewrite Hbit. cbn [andb].
    rewrite <- (Z.add_0_l i), <- Z.div_pow2_bits by lia. rewrite E'.
    replace ((2 ^ i * (2 * m + 1) - 1) / 2 ^ i) with (2 * m) by (apply (Z.div_unique _ _ _ (2 ^ i - 1)); lia). by apply Z.testbit_even_0.
Qed.

Lemma testbit_range z j n : 0 <= z < 2 ^ n -> n <= j -> Z.testbit z j = false.
Proof.
  intros Hz Hj. destruct (Z.le_gt_cases 0 n) as [Hn|Hn]; [|rewrite Z.pow_neg_r in Hz by lia; lia].
  rewrite <- (Z.mod_small z (2 ^ n)) by done. by apply Z.mod_pow2_bits_high.
Qed.

Lemma bits_below z n : 0 <= z -> 0 <= n -> (forall j, n <= j -> Z.testbit z j = false) -> z < 2 ^ n.
Proof.
  intros Hz Hn Hb. assert (z = z mod 2 ^ n) as ->; [|apply Z.mod_pos_bound; apply Z.pow_pos_nonneg; lia].
  apply Z.bits_inj'. intros j Hj. destruct (Z.lt_ge_cases j n); [by rewrite Z.mod_pow2_bits_low|]. rewrite Z.mod_pow2_bits_high by lia. by apply Hb.
Qed.

Lemma testbit_pos z j : 0 < z -> z < 2 ^ 32 -> Z.testbit z j = true -> j < 32.
Proof. intros H0 Hz Hj. destruct (Z.lt_ge_cases j 32); [done|]. by rewrite (testbit_range z j 32) in Hj by lia. Qed.

Definition bits_of (avail lo limit : Z) : list Z := filter (fun i => Z.testbit avail i = true) (seqZ lo (limit - lo)).

Lemma bits_of_skip avail lo lo' limit :
  lo <= lo' -> (forall j, lo <= j < lo' -> j < limit -> Z.testbit avail j = false) -> bits_of avail lo limit = bits_of avail lo' limit.
Proof.
  intros Hle Hb. unfold bits_of. destruct (Z.le_gt_cases lo' limit) as [Hl|Hl].
  - replace (limit - lo) with ((lo' - lo) + (limit - lo')) by lia. rewrite seqZ_app, filter_app by lia. replace (lo + (lo' - lo)) with lo' by lia.
    rewrite (filter_none _ (seqZ lo (lo' - lo))); [done|]. intros j Hj%elem_of_seqZ Ht. rewrite Hb in Ht by lia. done.
  - rewrite (seqZ_nil lo') by lia. rewrite filter_none; [done|]. intros j Hj%elem_of_seqZ Ht. rewrite Hb in Ht by lia. done.
Qed.

Lemma while_avail_bits {St} limit (body : St -> Z -> outcome St) fuel lo avail s :
  0 <= avail < 2 ^ 32 -> 0 <= lo -> limit <= 32 -> (forall j, 0 <= j < lo -> Z.testbit avail j = false) -> lo <= 32 -> 32 - lo < Z.of_nat fuel ->
  while_avail limit body fuel avail s = foldM body s (bits_of avail lo limit).
Proof.
  intros Ha Hlo Hlim. induction fuel as [|fuel IH] in lo, avail, s, Ha, Hlo |- *; intros Hb Hlo32 Hf; [lia|]. cbn [while_avail].
  destruct (Z.eqb_spec avail 0) as [->|Hne].
  - unfold bits_of. rewrite filter_none; [done|]. intros j _. by rewrite Z.testbit_0_l.
  - destruct (ctz_ok avail ltac:(lia)) as (i & -> & Hi0 & Hbit & Hlow & Hclear). cbn [mbind outcome_bind].
    assert (i < 32) as Hi32 by (apply (testbit_pos avail); [lia|lia|done]).
    assert (lo <= i) as Hloi. { destruct (Z.le_gt_cases lo i); [done|]. rewrite Hb in Hbit by lia. done. }
    rewrite (bits_of_skip avail lo i) by (done || (intros; apply Hlow; lia)). destruct (Z.leb_spec limit i) as [Hl|Hl].
    + unfold bits_of. by rewrite seqZ_nil by lia.
    + unfold bits_of at 1. rewrite seqZ_cons by lia. rewrite filter_cons, decide_True by done. cbn [foldM].
      destruct (body s i) as [s'|w]; [|done]. cbn [mbind outcome_bind].
      assert (u32 (avail - 1) = avail - 1) as -> by (apply wrapu_small; lia).
      rewrite (IH (i + 1)); try lia.
      * f_equal. unfold bits_of. replace (Z.pred (limit - i)) with (limit - (i + 1)) by lia. apply filter_ext_in.
        intros j Hj%elem_of_seqZ. rewrite Hclear by lia. rewrite (proj2 (Z.ltb_lt i j)) by lia. done.
      * split; [apply Z.land_nonneg; lia|]. apply bits_below; [apply Z.land_nonneg; lia|lia|]. intros j Hj.
        by rewrite Z.land_spec, (testbit_range avail j 32) by lia.
      * intros j Hj. rewrite Hclear by lia. by rewrite (proj2 (Z.ltb_ge i j)) by lia.
Qed.

(** ** Lemmas: backtracking on masks *)

(** The masks of the next row: the columns of the queens of [q] and where
    their diagonals meet the row. *)
Record masks_of (q : list Z) (columns diagnoal antidiagnoal : Z) : Prop := {
  mask_columns c : 0 <= c < 32 -> Z.testbit columns c = true <-> exists r x, q !! r = Some x /\ x = c;
  mask_diag c : 0 <= c < 32 -> Z.testbit diagnoal c = true <-> exists r x, q !! r = Some x /\ x - c = zlen q - Z.of_nat r;
  mask_anti c : 0 <= c < 32 -> Z.testbit antidiagnoal c = true <-> exists r x, q !! r = Some x /\ c - x = zlen q - Z.of_nat r;
  diag_small : 0 <= diagnoal < 2 ^ 32;
}.

Lemma masks_attacks q c d a i : masks_of q c d a -> 0 <= i < 32 -> Z.testbit (Z.lor (Z.lor c d) a) i = true <-> attacks q i.
Proof.
  intros [Hc Hd Ha _] Hi. rewrite !Z.lor_spec, !orb_true_iff, Hc, Hd, Ha by done. unfold attacks. split.
  - intros [[(r & x & E & H)|(r & x & E & H)]|(r & x & E & H)]; exists r, x; (split; [done|]); pose proof (lookup_lt_Some _ _ _ E); unfold zlen in *; lia.
  - intros (r & x & E & [H|H]); [left; left; eauto|]. destruct (Z.abs_spec (i - x)) as [[_ Hs]|[_ Hs]]; rewrite Hs in H; [right|left; right]; exists r, x; split; (done || lia).
Qed.

Lemma exists_snoc (P : Z -> Z -> Prop) q i :
  (exists r x, (q ++ [i]) !! r = Some x /\ P (Z.of_nat r) x) <-> (exists r x, q !! r = Some x /\ P (Z.of_nat r) x) \/ P (zlen q) i.
Proof.
  split.
  - intros (r & x & [E|[Hl E]]%lookup_app_Some & H); [left; eauto|]. apply list_lookup_singleton_Some in E as [Hr <-].
    assert (r = length q) as -> by lia. by right.
  - intros [(r & x & E & H)|H]; [exists r, x; split; [by apply lookup_app_l_Some|done]|]. exists (length q), i. by rewrite list_lookup_middle.
Qed.

Lemma testbit_one i c : 0 <= i -> Z.testbit (Z.shiftl 1 i) c = true <-> c = i.
Proof. intros Hi. rewrite Z.shiftl_1_l, Z.pow2_bits_eqb by lia. rewrite Z.eqb_eq. lia. Qed.

Lemma lor_small a b n : 0 <= n -> 0 <= a < 2 ^ n -> 0 <= b < 2 ^ n -> 0 <= Z.lor a b < 2 ^ n.
Proof.
  intros Hn Ha Hb. split; [apply Z.lor_nonneg; lia|]. apply bits_below; [apply Z.lor_nonneg; lia|done|]. intros j Hj.
  by rewrite Z.lor_spec, (testbit_range a j n), (testbit_range b j n) by lia.
Qed.

Lemma one_small i : 0 <= i < 32 -> 0 <= Z.shiftl 1 i < 2 ^ 32.
Proof. intros Hi. rewrite Z.shiftl_1_l. split; [apply Z.pow_nonneg; lia|]. apply Z.pow_lt_mono_r; lia. Qed.

(** One more queen, in column [i]. *)
Lemma masks_snoc q c d a i :
  masks_of q c d a -> Forall (fun x => 0 <= x < 32) q -> 0 <= i < 32 ->
  masks_of (q ++ [i]) (Z.lor c (Z.shiftl 1 i)) (Z.shiftr (Z.lor d (Z.shiftl 1 i)) 1) (u32 (Z.shiftl (Z.lor a (Z.shiftl 1 i)) 1)).
Proof.
  intros [Hc Hd Ha Hs] Hq Hi. pose proof (one_small i Hi) as H1. rewrite Forall_lookup in Hq.
  assert (forall r x, q !! r = Some x -> Z.of_nat r < zlen q) as Hlt by (intros r x E%lookup_lt_Some; unfold zlen; lia).
  constructor.
  - intros k Hk. rewrite Z.lor_spec, orb_true_iff, Hc, testbit_one, (exists_snoc (fun _ x => x = k)) by lia. intuition.
  - intros k Hk. rewrite zlen_snoc, Z.shiftr_spec, Z.lor_spec, orb_true_iff, testbit_one by lia.
    rewrite (exists_snoc (fun r x => x - k = zlen q + 1 - r)). destruct (decide (k + 1 < 32)) as [Hk1|Hk1].
    + rewrite Hd by lia. split; intros [(r & x & E & H)|H]; try (left; exists r, x; split; [done|lia]); right; lia.
    + rewrite (testbit_range d (k + 1) 32) by lia. split; [intros [?|?]; [done|lia]|]. intros [(r & x & E & H)|H]; [|lia].
      specialize (Hq r x E). specialize (Hlt r x E). cbn in Hq. lia.
  - intros k Hk. unfold u32. rewrite zlen_snoc. unfold wrapu. rewrite Z.mod_pow2_bits_low by lia. rewrite Z.shiftl_spec by lia.
    rewrite (exists_snoc (fun r x => k - x = zlen q + 1 - r)). destruct (decide (k = 0)) as [->|Hk0].
    + rewrite Z.testbit_neg_r by lia. split; [done|]. intros [(r & x & E & H)|H]; [|lia].
      specialize (Hq r x E). specialize (Hlt r x E). cbn in Hq. lia.
    + rewrite Z.lor_spec, orb_true_iff, testbit_one, Ha by lia.
      split; intros [(r & x & E & H)|H]; try (left; exists r, x; split; [done|lia]); right; lia.
  - pose proof (lor_small d (Z.shiftl 1 i) 32 ltac:(lia) Hs H1) as Hl. rewrite Z.shiftr_div_pow2 by lia. change (2 ^ 1) with 2. split; [apply Z.div_pos; lia|].
    apply Z.div_lt_upper_bound; lia.
Qed.

Lemma no_masks : masks_of [] 0 0 0.
Proof. constructor; [| | |lia]; intros c Hc; rewrite Z.testbit_0_l; (split; [done|]); by intros (r & x & E & _). Qed.

Lemma not32_spec z i : 0 <= i < 32 -> Z.testbit (not32 z) i = negb (Z.testbit z i).
Proof. intros Hi. unfold not32, wrapu. rewrite Z.mod_pow2_bits_low by lia. apply Z.lnot_spec. lia. Qed.

Lemma not32_range z : 0 <= not32 z < 2 ^ 32.
Proof. apply wrapu_range. lia. Qed.

(** The loop visits the columns that are not attacked. *)
Lemma free_columns {St} N limit q z (body : St -> Z -> outcome St) s :
  0 <= N <= 32 -> N <= limit <= 32 -> (forall i, 0 <= i < N -> Z.testbit z i = true <-> attacks q i) ->
  (forall i, N <= i < limit -> Z.testbit z i = true) ->
  while_avail limit body 33 (not32 z) s = foldM body s (filter (fun c => ~ attacks q c) (seqZ 0 N)).
Proof.
  intros HN Hl Hz Hhigh. rewrite (while_avail_bits limit body 33 0) by (lia || apply not32_range). f_equal. unfold bits_of. rewrite Z.sub_0_r.
  replace limit with (N + (limit - N)) at 1 by lia. rewrite seqZ_app, filter_app by lia.
  rewrite (filter_none _ (seqZ (0 + N) (limit - N))).
  - rewrite app_nil_r. apply filter_ext_in. intros i Hi%elem_of_seqZ. rewrite not32_spec by lia. rewrite <- Hz by lia.
    destruct (Z.testbit z i); cbn; intuition congruence.
  - intros i Hi%elem_of_seqZ. rewrite not32_spec by lia. by rewrite Hhigh by lia.
Qed.

Lemma sum_free N k q : sum_of (fun c => zlen (completions N k (q ++ [c]))) (filter (fun c => ~ attacks q c) (seqZ 0 N)) = zlen (completions N (S k) q).
Proof. cbn [completions]. by rewrite zlen_bind. Qed.

Lemma free_range N q i : i ∈ filter (fun c => ~ attacks q c) (seqZ 0 N) -> 0 <= i < N /\ ~ attacks q i.
Proof. intros [Ha Hi%elem_of_seqZ]%list_elem_of_filter. split; [lia|done]. Qed.

Lemma int64_add_one n : 0 <= n < 2 ^ 63 - 1 -> int64_add n 1 = Ok (n + 1).
Proof. intros Hn. unfold int64_add. by rewrite longs_ok by (constructor; [lia|done]). Qed.

Definition int64_max : Z := 2 ^ 63 - 1.

Lemma mask_spec N i : 0 <= N < 32 -> 0 <= i < 32 -> Z.testbit (not32 (Z.shiftl 1 N - 1)) i = (N <=? i).
Proof.
  intros HN Hi. rewrite not32_spec by done. rewrite Z.shiftl_1_l. replace (2 ^ N - 1) with (Z.ones N) by (rewrite Z.ones_equiv; lia).
  destruct (Z.leb_spec N i); [by rewrite Z.ones_spec_high by lia|by rewrite Z.ones_spec_low by lia].
Qed.

Lemma in_columns_32 N q : N <= 20 -> Forall (fun x => 0 <= x < N) q -> Forall (fun x => 0 <= x < 32) q.
Proof. intros HN Hq. eapply Forall_impl; [exact Hq|]. cbn. lia. Qed.

Section masks.
Context (N : Z) (N_range : 0 < N <= 20).

Lemma mask_search_ok fuel k q c d a n :
  masks_of q c d a -> Forall (fun x => 0 <= x < N) q -> zlen q + Z.of_nat (S k) = N -> (k < fuel)%nat ->
  0 <= n -> n + zlen (completions N (S k) q) <= int64_max ->
  mask_search fuel N (not32 (Z.shiftl 1 N - 1)) (zlen q) c d a n = Ok (n + zlen (completions N (S k) q)).
Proof.
  induction fuel as [|fuel IH] in k, q, c, d, a, n |- *; intros Hm Hq Hk Hf Hn HL; [lia|]. cbn [mask_search].
  rewrite (free_columns N 32 q); [|lia|lia| |].
  - rewrite <- sum_free in HL |- *.
    edestruct (foldM_count (fun m t => t = m) (fun i => zlen (completions N k (q ++ [i])))) with (L := int64_max) (n := n) (s := n) as (s' & E & ->);
      [|intros; apply zlen_nonneg|exact Hn|exact HL|done|exact E].
    intros i m t [Hi Hna]%free_range Hm0 HmL ->. destruct (Z.eqb_spec (zlen q) (N - 1)) as [Er|Er].
    + assert (k = O) as -> by lia. cbn [completions] in HmL |- *. change (zlen [q ++ [i]]) with 1 in HmL |- *.
      rewrite int64_add_one by (unfold int64_max in HmL; lia). by eexists.
    + destruct k as [|k]; [lia|]. rewrite <- (zlen_snoc q i). eexists. split; [|done]. apply IH.
      * apply masks_snoc; [done|apply (in_columns_32 N); (done || lia)|lia].
      * apply Forall_app. split; [done|]. by constructor.
      * rewrite zlen_snoc. lia.
      * lia.
      * done.
      * done.
  - intros i Hi. rewrite Z.lor_spec, mask_spec, (proj2 (Z.leb_gt N i)), orb_false_r by lia. apply masks_attacks; [done|lia].
  - intros i Hi. rewrite Z.lor_spec, mask_spec, (proj2 (Z.leb_le N i)), orb_true_r by lia. done.
Qed.

Lemma masks_one i : 0 <= i < N -> masks_of [i] (Z.shiftl 1 i) (Z.shiftr (Z.shiftl 1 i) 1) (u32 (Z.shiftl (Z.shiftl 1 i) 1)).
Proof. intros Hi. apply (masks_snoc [] 0 0 0 i); [apply no_masks|done|lia]. Qed.

Lemma mask_sub_ok i k : 0 <= i < N -> N = Z.of_nat (S (S k)) -> zlen (completions N (S k) [i]) <= int64_max ->
  mask_sub N i = Ok (zlen (completions N (S k) [i])).
Proof.
  intros Hi Hk HL. unfold mask_sub. rewrite (proj2 (Z.ltb_lt 0 N)), (proj2 (Z.leb_le N 20)) by lia. cbn [andb assert_ mbind outcome_bind].
  change 1 with (zlen [i]) at 3. rewrite (mask_search_ok _ k [i]);
    [done|by apply masks_one|by constructor|change (zlen [i]) with 1; lia|unfold search_fuel; lia|done|done].
Qed.

(** The arrays hold the masks of the rows up to [zlen q]. *)
Record opt_lines (q : list Z) (s : OptBackTracking) : Prop := {
  opt_len_columns : zlen (opt_columns s) = 20;
  opt_len_diag : zlen (opt_diagnoal s) = 20;
  opt_len_anti : zlen (opt_antidiagnoal s) = 20;
  opt_masks : masks_of q (vat (opt_columns s) (zlen q)) (vat (opt_diagnoal s) (zlen q)) (vat (opt_antidiagnoal s) (zlen q));
}.

(** What a search of [row] leaves as it was. *)
Definition same_rows (row : Z) (s s' : OptBackTracking) : Prop :=
  zlen (opt_columns s') = zlen (opt_columns s) /\ zlen (opt_diagnoal s') = zlen (opt_diagnoal s) /\
  zlen (opt_antidiagnoal s') = zlen (opt_antidiagnoal s) /\
  forall j, 0 <= j <= row -> vat (opt_columns s') j = vat (opt_columns s) j /\ vat (opt_diagnoal s') j = vat (opt_diagnoal s) j /\
    vat (opt_antidiagnoal s') j = vat (opt_antidiagnoal s) j.

Lemma same_rows_refl row s : same_rows row s s.
Proof. done. Qed.
Lemma same_rows_trans row row' s s' s'' : same_rows row s s' -> same_rows row' s' s'' -> row <= row' -> same_rows row s s''.
Proof.
  intros (A1 & A2 & A3 & A) (B1 & B2 & B3 & B) Hle. split; [congruence|]. split; [congruence|]. split; [congruence|].
  intros j Hj. destruct (A j Hj) as (? & ? & ?), (B j ltac:(lia)) as (? & ? & ?). split; [congruence|]. split; congruence.
Qed.
Lemma same_rows_lines q s s' : opt_lines q s -> same_rows (zlen q) s s' -> opt_lines q s'.
Proof.
  intros [L1 L2 L3 Hm] (E1 & E2 & E3 & E). destruct (E (zlen q)) as (C & D & A); [pose proof (zlen_nonneg q); lia|].
  constructor; [congruence..|]. by rewrite C, D, A.
Qed.

Lemma place_ok q s i :
  opt_lines q s -> Forall (fun x => 0 <= x < N) q -> zlen q < 19 -> 0 <= i < N ->
  exists s', place (zlen q) (Z.shiftl 1 i) s = Ok s' /\ opt_count s' = opt_count s /\ same_rows (zlen q) s s' /\ opt_lines (q ++ [i]) s'.
Proof.
  intros [L1 L2 L3 Hm] Hq Hlen Hi. pose proof (zlen_nonneg q). unfold place. rewrite !vget_ok by lia. cbn [mbind outcome_bind].
  rewrite !vset_ok by lia. cbn [mbind outcome_bind]. eexists. split; [done|]. split; [done|]. split.
  - unfold same_rows. cbn [opt_columns opt_diagnoal opt_antidiagnoal]. rewrite !zlen_vupd. split; [done|]. split; [done|]. split; [done|].
    intros j Hj. by rewrite !vat_vupd_ne by lia.
  - constructor; cbn [opt_columns opt_diagnoal opt_antidiagnoal]; rewrite ?zlen_vupd; [done..|]. rewrite zlen_snoc, !vat_vupd_eq by lia.
    apply masks_snoc; [done|apply (in_columns_32 N); (done || lia)|lia].
Qed.

Lemma opt_search_ok fuel k q s :
  opt_lines q s -> Forall (fun x => 0 <= x < N) q -> zlen q + Z.of_nat (S k) = N -> (k < fuel)%nat ->
  0 <= opt_count s -> opt_count s + zlen (completions N (S k) q) <= int64_max ->
  exists s', opt_search fuel N (zlen q) s = Ok s' /\ opt_count s' = opt_count s + zlen (completions N (S k) q) /\ same_rows (zlen q) s s'.
Proof.
  induction fuel as [|fuel IH] in k, q, s |- *; intros Hs Hq Hk Hf Hn HL; [lia|]. pose proof Hs as [L1 L2 L3 Hm]. pose proof (zlen_nonneg q).
  cbn [opt_search]. rewrite (vget_ok (opt_columns s)) by lia. cbn [mbind outcome_bind]. rewrite (vget_ok (opt_diagnoal s)) by lia. cbn [mbind outcome_bind].
  rewrite (vget_ok (opt_antidiagnoal s)) by lia. cbn [mbind outcome_bind].
  rewrite (free_columns N N q); [|lia|lia| |lia].
  - rewrite <- sum_free in HL |- *.
    edestruct (foldM_count (fun m t => opt_count t = m /\ same_rows (zlen q) s t) (fun i => zlen (completions N k (q ++ [i])))) with
      (L := int64_max) (n := opt_count s) (s := s) as (s' & E & Ec & Hsame);
      [|intros; apply zlen_nonneg|exact Hn|exact HL|by split|exists s'; split; [exact E|by split]].
    intros i m t [Hi Hna]%free_range Hm0 HmL (<- & Ht). destruct (Z.eqb_spec (zlen q) (N - 1)) as [Er|Er].
    + assert (k = O) as -> by lia. cbn [completions] in HmL |- *. change (zlen [q ++ [i]]) with 1 in HmL |- *.
      rewrite int64_add_one by (unfold int64_max in HmL; lia). eexists. split; [done|]. by split.
    + destruct k as [|k]; [lia|]. destruct (place_ok q t i) as (t1 & -> & Ec1 & Hs1 & Hl1); [by apply (same_rows_lines q s)|done|lia|done|].
      cbn [mbind outcome_bind]. rewrite <- (zlen_snoc q i). destruct (IH k (q ++ [i]) t1) as (t2 & -> & Ec2 & Hs2).
      * done.
      * apply Forall_app. split; [done|]. by constructor.
      * rewrite zlen_snoc. lia.
      * lia.
      * lia.
      * by rewrite Ec1.
      * exists t2. split; [done|]. split; [by rewrite Ec2, Ec1|]. eapply same_rows_trans; [exact Ht| |done].
        eapply same_rows_trans; [exact Hs1|exact Hs2|]. rewrite zlen_snoc. lia.
  - intros i Hi. apply masks_attacks; [done|lia].
Qed.

Lemma opt_sub_ok i k : 0 <= i < N -> N = Z.of_nat (S (S k)) -> zlen (completions N (S k) [i]) <= int64_max ->
  opt_sub N i = Ok (zlen (completions N (S k) [i])).
Proof.
  intros Hi Hk HL. pose proof (opt_search_ok (search_fuel N) k [i]) as Hsearch. assert (zlen [i] = 1) as E1 by done. rewrite E1 in Hsearch.
  unfold opt_sub. revert Hsearch. generalize (opt_search (search_fuel N) N 1) as srch. intros srch Hsearch. unfold new_Opt.
  assert ((0 <? N) && (N <=? opt_kMaxQueens) = true) as -> by (apply andb_true_iff; rewrite Z.ltb_lt, Z.leb_le; done).
  set (zeros := replicate _ 0). assert (zlen zeros = 20) as Hz by done. clearbody zeros.
  cbn [assert_ mbind outcome_bind opt_columns opt_diagnoal opt_antidiagnoal opt_count].
  rewrite !(vset_ok zeros) by lia. cbn [mbind outcome_bind].
  match goal with |- context [srch ?s] => destruct (Hsearch s) as (s' & E & Ec & _) end.
  - constructor; cbn [opt_columns opt_diagnoal opt_antidiagnoal]; [by rewrite zlen_vupd..|]. rewrite E1.
    rewrite !vat_vupd_eq by lia. by apply masks_one.
  - by constructor.
  - lia.
  - unfold search_fuel. lia.
  - cbn [opt_count]. lia.
  - cbn [opt_count]. lia.
  - rewrite E. cbn [mbind outcome_bind]. rewrite Ec. cbn [opt_count]. by rewrite Z.add_0_l.
Qed.
End masks.

(** ** Lemmas: symmetric halves *)

Definition mirror (N : Z) (p : list Z) : list Z := (fun c => N - 1 - c) <$> p.

Lemma mirror_mirror N p : mirror N (mirror N p) = p.
Proof. induction p as [|c p IH]; [done|]. unfold mirror in *. cbn. rewrite IH. f_equal. lia. Qed.

Lemma mirror_peaceful N p : peaceful p -> peaceful (mirror N p).
Proof.
  intros Hp r r' c c' Hr E E'. apply list_lookup_fmap_Some in E as (x & -> & E). apply list_lookup_fmap_Some in E' as (x' & -> & E').
  destruct (Hp r r' x x' Hr E E') as [H1 H2]. split; lia.
Qed.

Lemma mirror_range N p : Forall (fun c => 0 <= c < N) p -> Forall (fun c => 0 <= c < N) (mirror N p).
Proof. intros Hp. apply Forall_fmap. eapply Forall_impl; [exact Hp|]. cbn. lia. Qed.

Lemma one_queen_peaceful i : peaceful [i].
Proof. intros r r' c c' Hr E E'. apply list_lookup_singleton_Some in E as [-> _]. apply list_lookup_singleton_Some in E' as [-> _]. lia. Qed.

Lemma completions_mirror N k i : 0 <= i < N -> zlen (completions N k [N - 1 - i]) = zlen (completions N k [i]).
Proof.
  intros Hi. assert (forall j p, 0 <= j < N -> p ∈ completions N k [j] -> mirror N p ∈ completions N k [N - 1 - j]) as Hm.
  { intros j p Hj Hp. apply completions_spec in Hp as ((t & -> & Ht) & Hr & Hp); [|by constructor|apply one_queen_peaceful].
    apply completions_spec; [constructor; [lia|done]|apply one_queen_peaceful|]. split; [|split; [by apply mirror_range|by apply mirror_peaceful]].
    exists (mirror N t). split; [done|]. unfold mirror. by rewrite length_fmap. }
  unfold zlen. f_equal. rewrite <- (length_fmap (mirror N) (completions N k [i])). apply Permutation_length, NoDup_Permutation.
  - apply completions_NoDup.
  - apply NoDup_fmap_2; [|apply completions_NoDup]. intros p p' E. by rewrite <- (mirror_mirror N p), E, mirror_mirror.
  - intros p. rewrite list_elem_of_fmap. split.
    + intros Hp. exists (mirror N p). split; [by rewrite mirror_mirror|]. apply Hm in Hp; [|lia]. by replace (N - 1 - (N - 1 - i)) with i in Hp by lia.
    + intros (p' & -> & Hp'). by apply Hm.
Qed.

Section sums.
Context (N : Z) (k : nat) (N_eq : N = Z.of_nat (S (S k))) (N_max : N <= 20).

Definition first_column (i : Z) : Z := zlen (completions N (S k) [i]).

Lemma first_nonneg i : 0 <= first_column i.
Proof. apply zlen_nonneg. Qed.

Lemma sum_mirror m : Z.of_nat m <= N -> sum_of first_column (seqZ (N - Z.of_nat m) (Z.of_nat m)) = sum_of first_column (seqZ 0 (Z.of_nat m)).
Proof.
  induction m as [|m IH]; intros Hm; [done|]. rewrite (seqZ_cons (N - _)) by lia. cbn [sum_of].
  replace (Z.succ (N - Z.of_nat (S m))) with (N - Z.of_nat m) by lia. replace (Z.pred (Z.of_nat (S m))) with (Z.of_nat m) by lia.
  rewrite IH by lia. replace (Z.of_nat (S m)) with (Z.of_nat m + 1) at 2 by lia. rewrite seqZ_app, sum_of_app by lia. cbn [sum_of seqZ].
  change (seqZ (0 + Z.of_nat m) 1) with [0 + Z.of_nat m]. cbn [sum_of]. replace (N - Z.of_nat (S m)) with (N - 1 - Z.of_nat m) by lia.
  unfold first_column at 1. rewrite completions_mirror by lia. change (zlen (completions N (S k) [Z.of_nat m])) with (first_column (Z.of_nat m)).
  rewrite Z.add_0_l. lia.
Qed.

Lemma sum_all : sum_of first_column (seqZ 0 N) = zlen (completions N (Z.to_nat N) []).
Proof.
  replace (Z.to_nat N) with (S (S k)) by lia. rewrite completions_sum. induction (seqZ 0 N) as [|c cs IH]; [done|]. cbn [sum_of]. rewrite IH, from_column_eq.
  rewrite decide_False; [done|]. intros (r & x & E & _). done.
Qed.

Lemma total_small : zlen (completions N (Z.to_nat N) []) < int64_max.
Proof.
  pose proof (completions_bound N (Z.to_nat N) [] ltac:(constructor) peaceful_nil ltac:(rewrite zlen_nil; lia)) as Hb. unfold zlen.
  assert (fact (Z.to_nat N) <= fact 20)%nat as Hf by (apply fact_le; lia).
  assert (forall n, Z.of_nat (fact n) = fold_right Z.mul 1 (seqZ 1 (Z.of_nat n))) as Hz.
  { intros n. induction n as [|n IH]; [done|]. change (fact (S n)) with (S n * fact n)%nat. rewrite Nat2Z.inj_mul, IH.
    replace (Z.of_nat (S n)) with (Z.of_nat n + 1) at 2 by lia. rewrite seqZ_app by lia. rewrite fold_right_app.
    change (seqZ (1 + Z.of_nat n) 1) with [1 + Z.of_nat n]. cbn [fold_right]. rewrite Z.mul_1_r.
    assert (forall l a, fold_right Z.mul a l = a * fold_right Z.mul 1 l) as Ha.
    { intros l a. induction l as [|x l IHl]; cbn [fold_right]; [lia|]. rewrite IHl. lia. }
    rewrite (Ha _ (1 + Z.of_nat n)). lia. }
  assert (Z.of_nat (fact 20) < int64_max) as H20 by (rewrite Hz; vm_compute; done). lia.
Qed.

Let h := N ÷ 2.
Definition middle : Z := if Z.rem N 2 =? 1 then first_column (N ÷ 2) else 0.

Lemma halves : 0 <= h /\ N = 2 * h + Z.rem N 2 /\ (Z.rem N 2 = 0 \/ Z.rem N 2 = 1).
Proof. unfold h. pose proof (Z.quot_rem' N 2). pose proof (Z.rem_bound_pos N 2 ltac:(lia) ltac:(lia)). pose proof (Z.quot_pos N 2). lia. Qed.

Lemma sum_halves : sum_of first_column (seqZ 0 N) = 2 * sum_of first_column (seqZ 0 h) + middle.
Proof.
  destruct halves as (Hh & HN & Hr). unfold middle.
  replace (seqZ 0 N) with (seqZ 0 (h + (Z.rem N 2 + h))) by (f_equal; lia).
  rewrite (seqZ_app 0 h), (seqZ_app _ (Z.rem N 2)), !sum_of_app by lia.
  replace (0 + h + Z.rem N 2) with (N - h) by lia. pose proof (sum_mirror (Z.to_nat h) ltac:(lia)) as Hm. rewrite Z2Nat.id in Hm by lia. rewrite Hm.
  rewrite Z.add_0_l. destruct Hr as [E|E]; rewrite E.
  - change (seqZ h 0) with (@nil Z). change (0 =? 1) with false. cbn [sum_of]. lia.
  - change (seqZ h 1) with [h]. cbn [sum_of]. rewrite Z.eqb_refl. fold h. lia.
Qed.

Context (sub : Z -> Z -> outcome Z).
Hypothesis sub_ok : forall i, 0 <= i < N -> sub N i = Ok (first_column i).

Lemma halves_ok : backtracking_halves sub N = Ok (zlen (completions N (Z.to_nat N) [])).
Proof.
  destruct halves as (Hh & HN & Hr). pose proof sum_halves as Hs. rewrite sum_all in Hs. pose proof total_small as Ht.
  assert (0 <= middle) as Hm by (unfold middle; destruct (_ =? 1); [apply first_nonneg|done]).
  pose proof (sum_of_nonneg first_column (seqZ 0 h) first_nonneg) as Hnn. unfold int64_max in Ht. unfold backtracking_halves. fold h.
  edestruct (foldM_count (fun m t => t = m) first_column) with (L := 2 ^ 63 - 1) (n := 0) (s := 0) (cs := seqZ 0 h) as (s' & -> & ->);
    [|apply first_nonneg|done|lia|done|].
  { intros i m t Hi%elem_of_seqZ Hm0 HmL ->. rewrite sub_ok by lia. cbn [mbind outcome_bind]. pose proof (first_nonneg i).
    unfold int64_add. rewrite longs_ok by (constructor; [lia|done]). by eexists. }
  cbn [mbind outcome_bind]. rewrite Z.add_0_l. rewrite longs_ok by (constructor; [lia|done]). cbn [mbind outcome_bind].
  unfold middle in Hs, Hm. fold h in Hs, Hm. destruct (Z.rem N 2 =? 1); [|f_equal; lia]. rewrite sub_ok by lia. cbn [mbind outcome_bind].
  unfold int64_add. rewrite longs_ok by (constructor; [lia|done]). cbn [mbind outcome_bind]. f_equal. lia.
Qed.

Definition thread_adds (i : Z) : Z := if (Z.rem N 2 =? 1) && (i =? N ÷ 2) then first_column i else 2 * first_column i.

Lemma thread_nonneg i : 0 <= thread_adds i.
Proof. unfold thread_adds. pose proof (first_nonneg i). case_match; lia. Qed.

Lemma threads_sum : sum_of thread_adds (threads N) = zlen (completions N (Z.to_nat N) []).
Proof.
  destruct halves as (Hh & HN & Hr). rewrite <- sum_all, sum_halves. unfold threads.
  assert ((N + 1) ÷ 2 = h + Z.rem N 2) as -> by (unfold h; dlia).
  rewrite seqZ_app, sum_of_app by lia. f_equal.
  - assert (forall cs, (forall i, i ∈ cs -> i < h) -> sum_of thread_adds cs = 2 * sum_of first_column cs) as Hc.
    { intros cs. induction cs as [|i cs IH]; intros Hlt; [done|]. cbn [sum_of]. rewrite IH by (intros j Hj; apply Hlt; by right).
      unfold thread_adds. fold h. specialize (Hlt i ltac:(left)). rewrite (proj2 (Z.eqb_neq i h)) by lia. rewrite andb_false_r. lia. }
    apply Hc. intros i Hi%elem_of_seqZ. lia.
  - unfold middle. destruct Hr as [E|E]; rewrite E; [done|]. change (seqZ (0 + h) 1) with [0 + h]. cbn [sum_of]. unfold thread_adds. rewrite E.
    rewrite Z.add_0_l. fold h. rewrite !Z.eqb_refl. cbn [andb]. lia.
Qed.

Lemma mt_ok order : order ≡ₚ threads N -> backtracking_mt sub N order = Ok (zlen (completions N (Z.to_nat N) [])).
Proof.
  intros Ho. pose proof total_small as Ht. unfold int64_max in Ht. rewrite <- threads_sum, <- (sum_of_permutation _ _ _ Ho) in Ht |- *. unfold backtracking_mt.
  edestruct (foldM_count (fun m t => t = m) thread_adds) with (L := 2 ^ 63 - 1) (n := 0) (s := 0) (cs := order) as (s' & -> & ->);
    [|apply thread_nonneg|done|lia|done|done].
  intros i m t Hi Hm0 HmL ->. rewrite Ho in Hi. apply elem_of_seqZ in Hi. destruct halves as (Hh & HN & Hr).
  rewrite Z.quot_div_nonneg in Hi by lia. assert (0 <= i < N) as HiN by (split; [lia|]; pose proof (Z.div_lt_upper_bound (N + 1) 2 (N + 1)); dlia).
  unfold backtracking_thr. rewrite sub_ok by done. cbn [mbind outcome_bind]. pose proof (first_nonneg i). unfold thread_adds in *. unfold int64_add.
  destruct ((Z.rem N 2 =? 1) && (i =? N ÷ 2)); rewrite !longs_ok by (constructor; [lia|done]); by eexists.
Qed.
End sums.

(** ** Properties *)

(** C31: for each size of the board from 1 to 20 there is a number of
    placements in which no queen attacks another. Brute force over all
    permutations computes it if it fits the [int] it counts in, and so does
    backtracking on arrays up to 16 queens, beyond which its assertion fails.
    The programs that search half of the first row and double, on arrays and
    on masks, sequentially and with threads that add their parts in any order,
    compute it for two queens or more, where [nqueens_opt] cuts the number
    down to an [int]; for one queen, which can be placed, they all compute
    0. *)
Theorem queens_programs_agree N :
  1 <= N <= 20 ->
  exists n, counts N n /\ 0 <= n < 2 ^ 63 /\
    (n < 2 ^ 31 -> bruteforce N = Ok n /\ (N <= 16 -> nqueens_backtracking N = Ok n)) /\
    (16 < N -> nqueens_backtracking N = Fail AssertFail) /\
    (N = 1 -> n = 1 /\ nqueens_opt N = Ok 0 /\
      forall sub, sub = nqueens_mt_sub \/ sub = mask_sub ->
        backtracking_halves sub N = Ok 0 /\ forall order, order ≡ₚ threads N -> backtracking_mt sub N order = Ok 0) /\
    (2 <= N -> nqueens_opt N = Ok (i32 n) /\
      forall sub, sub = nqueens_mt_sub \/ sub = mask_sub ->
        backtracking_halves sub N = Ok n /\
        forall order, order ≡ₚ threads N -> backtracking_mt sub N order = Ok n).
Proof.
  intros HN. exists (zlen (completions N (Z.to_nat N) [])).
  pose proof (completions_counts N ltac:(lia)) as Hcounts. split; [exact Hcounts|]. split; [|split; [|split; [|split]]].
  - split; [apply zlen_nonneg|]. destruct (decide (N = 1)) as [->|Hne]; [vm_compute; done|].
    pose proof (total_small N (Z.to_nat (N - 2)) ltac:(lia) ltac:(lia)) as Ht. unfold int64_max in Ht. lia.
  - intros Hlt. split; [apply bruteforce_ok; [lia|done|done]|]. intros H16. apply (backtracking_ok int_add (2 ^ 31 - 1)); [|lia|lia|lia].
    intros n Hn. unfold int_add. by rewrite ints_ok by (constructor; [lia|done]).
  - intros H16. unfold nqueens_backtracking, backtracking, new_BackTracking. by rewrite (proj2 (Z.leb_gt N 16)), andb_false_r by lia.
  - intros ->. split; [vm_compute; reflexivity|]. split; [vm_compute; reflexivity|]. intros sub Hsub.
    split; [destruct Hsub as [-> | ->]; vm_compute; reflexivity|]. intros order Ho. change (threads 1) with [0] in Ho.
    apply Permutation_singleton_r in Ho as ->. destruct Hsub as [-> | ->]; vm_compute; reflexivity.
  - intros H2. set (k := Z.to_nat (N - 2)). assert (N = Z.of_nat (S (S k))) as HNk by lia.
    assert (forall i, 0 <= i < N -> first_column N k i <= int64_max) as Hsmall.
    { intros i Hi. pose proof (total_small N k HNk ltac:(lia)) as Ht. rewrite <- (sum_all N k HNk) in Ht.
      pose proof (sum_of_elem (first_column N k) (seqZ 0 N) i (first_nonneg N k) ltac:(apply elem_of_seqZ; lia)). lia. }
    split.
    + unfold nqueens_opt. rewrite (halves_ok N k HNk ltac:(lia) opt_sub); [done|]. intros i Hi. apply (opt_sub_ok N ltac:(lia)); [done|done|by apply Hsmall].
    + intros sub Hsub. assert (forall i, 0 <= i < N -> sub N i = Ok (first_column N k i)) as Hok.
      { intros i Hi. destruct Hsub as [->| ->].
        - apply (backtrackingsub_ok int64_add int64_max); [|lia|done|done|by apply Hsmall]. intros n Hn. apply int64_add_one. unfold int64_max in Hn. lia.
        - apply (mask_sub_ok N ltac:(lia)); [done|done|by apply Hsmall]. }
      split; [by apply (halves_ok N k HNk ltac:(lia))|]. intros order Ho. by apply (mt_ok N k HNk ltac:(lia)).
Qed.

Lemma queens_programs_agree_witness :
  counts 6 4 /\ bruteforce 6 = Ok 4 /\ nqueens_backtracking 6 = Ok 4 /\ nqueens_opt 6 = Ok 4 /\ backtracking_mt mask_sub 6 [1; 2; 0] = Ok 4.
Proof.
  assert (counts 6 4) as Hc by (pose proof (completions_counts 6 ltac:(lia)) as Hc; vm_compute in Hc; exact Hc).
  destruct (queens_programs_agree 6 ltac:(lia)) as (n & Hn & _ & H1 & _ & _ & H2). assert (n = 4) as -> by exact (counts_unique 6 n 4 Hn Hc).
  destruct (H1 ltac:(lia)) as [Hb Hbt]. destruct (H2 ltac:(lia)) as [Ho Hm]. split; [exact Hc|]. split; [exact Hb|]. split; [apply Hbt; lia|].
  split; [exact Ho|]. apply (Hm mask_sub (or_intror eq_refl)). exact (Permutation_app_comm [1; 2] [0]).
Defined.
