(* ===== verification/DancingLinks.v ===== *)
(** * DancingLinks: exact cover by linked rings

    Models the structure that [sudoku/sudoku_dancing_links.cc] and
    [puzzle/nqueens_dl.cc] share: nodes in an array, linked into a ring of
    columns, a ring of nodes per column and a ring of nodes per row, with
    [cover] and [uncover], the choice of the smallest column and the search.
    A node is known by its index; the nodes live in a heap, a [gmap].  What
    happens when no column is left is an argument of the search.

    The rings are described by lists, and the theorem on the search says that
    it visits every exact cover once and puts every link back.  Loops over a
    ring carry one unit of fuel more than there are nodes, the search one unit
    per column. *)
From S2P Require Import Prelude.

Abbreviation addr := Z.

Record Node := mkNode { left : addr; right : addr; up : addr; down : addr; col : addr; name : Z; size_ : Z }.

Definition set_left (v : addr) (n : Node) : Node := mkNode v (right n) (up n) (down n) (col n) (name n) (size_ n).
Definition set_right (v : addr) (n : Node) : Node := mkNode (left n) v (up n) (down n) (col n) (name n) (size_ n).
Definition set_up (v : addr) (n : Node) : Node := mkNode (left n) (right n) v (down n) (col n) (name n) (size_ n).
Definition set_down (v : addr) (n : Node) : Node := mkNode (left n) (right n) (up n) v (col n) (name n) (size_ n).
Definition set_col (v : addr) (n : Node) : Node := mkNode (left n) (right n) (up n) (down n) v (name n) (size_ n).
Definition add_size (v : Z) (n : Node) : Node := mkNode (left n) (right n) (up n) (down n) (col n) (name n) (size_ n + v).

Abbreviation heap := (gmap Z Node).

Definition get (h : heap) (p : addr) : outcome Node := from_some Undefined (h !! p).
Definition put (f : Node -> Node) (p : addr) (h : heap) : outcome heap := n ← get h p; Ok (<[p := f n]> h).

(** ** Linking *)

(** [c->right->left = c->left; c->left->right = c->right;] *)
Definition unlink_column (c : addr) (h : heap) : outcome heap :=
  n ← get h c; h ← put (set_left (left n)) (right n) h;
  n ← get h c; put (set_right (right n)) (left n) h.
Definition relink_column (c : addr) (h : heap) : outcome heap :=
  n ← get h c; h ← put (set_left c) (right n) h;
  n ← get h c; put (set_right c) (left n) h.

(** The body of the inner loop of [cover], and of [uncover]. *)
Definition unlink_node (j : addr) (h : heap) : outcome heap :=
  n ← get h j; h ← put (set_up (up n)) (down n) h;
  n ← get h j; h ← put (set_down (down n)) (up n) h;
  n ← get h j; put (add_size (-1)) (col n) h.
Definition relink_node (j : addr) (h : heap) : outcome heap :=
  n ← get h j; h ← put (add_size 1) (col n) h;
  n ← get h j; h ← put (set_up j) (down n) h;
  n ← get h j; put (set_down j) (up n) h.

(** [for (p = c->next; p != c; p = p->next) body(p);] *)
Fixpoint ring_loop (next : Node -> addr) (c : addr) (body : addr -> heap -> outcome heap) (fuel : nat) (p : addr) (h : heap) : outcome heap :=
  match fuel with
  | O => Fail Undefined
  | S fuel =>
      if p =? c then Ok h
      else h ← body p h; n ← get h p; ring_loop next c body fuel (next n) h
  end.
Definition ring_fuel (h : heap) : nat := S (size h).
Definition for_ring (next : Node -> addr) (c : addr) (body : addr -> heap -> outcome heap) (h : heap) : outcome heap :=
  n ← get h c; ring_loop next c body (ring_fuel h) (next n) h.

Definition cover (c : addr) (h : heap) : outcome heap :=
  h ← unlink_column c h; for_ring down c (fun row => for_ring right row unlink_node) h.
Definition uncover (c : addr) (h : heap) : outcome heap :=
  h ← for_ring up c (fun row => for_ring left row relink_node) h; relink_column c h.

(** ** Building *)

Section build.
Variable kMaxNodes : Z.

(** [root_] is the node 0. *)
Record Dance := mkDance { nodes_ : heap; cur_node_ : Z; columns_ : list (option addr) }.
Definition root_ : addr := 0.

Definition set_nodes (h : heap) (d : Dance) : Dance := mkDance h (cur_node_ d) (columns_ d).

Definition columns_at (n : Z) (d : Dance) : outcome (option addr) := from_some Undefined (if 0 <=? n then columns_ d !! Z.to_nat n else None).

Definition new_column (n : Z) (d : Dance) : outcome (addr * Dance) :=
  _ ← assert_ (cur_node_ d <? kMaxNodes);
  let c := cur_node_ d in
  Ok (c, mkDance (<[c := mkNode c c c c c n 0]> (nodes_ d)) (c + 1) (columns_ d)).

Definition put_left (old nnew : addr) (h : heap) : outcome heap :=
  o ← get h old; h ← put (set_left (left o)) nnew h;
  h ← put (set_right old) nnew h;
  o ← get h old; h ← put (set_right nnew) (left o) h;
  put (set_left nnew) old h.

Definition put_up (old nnew : addr) (h : heap) : outcome heap :=
  o ← get h old; h ← put (set_up (up o)) nnew h;
  h ← put (set_down old) nnew h;
  o ← get h old; h ← put (set_down nnew) (up o) h;
  h ← put (set_up nnew) old h;
  h ← put (add_size 1) old h;
  put (set_col old) nnew h.

(** A column of its own, or one in the ring of the root. *)
Definition lone_column (n : Z) (d : Dance) : outcome Dance :=
  o ← columns_at n d; _ ← assert_ (bool_decide (o = None));
  '(c, d) ← new_column n d; Ok (mkDance (nodes_ d) (cur_node_ d) (<[Z.to_nat n := Some c]> (columns_ d))).
Definition append_column (n : Z) (d : Dance) : outcome Dance :=
  o ← columns_at n d; _ ← assert_ (bool_decide (o = None));
  '(c, d) ← new_column n d;
  h ← put_left root_ c (nodes_ d); Ok (mkDance h (cur_node_ d) (<[Z.to_nat n := Some c]> (columns_ d))).

Definition new_row (n : Z) (d : Dance) : outcome (addr * Dance) :=
  o ← columns_at n d; _ ← assert_ (bool_decide (o <> None));
  _ ← assert_ (cur_node_ d <? kMaxNodes);
  c ← from_some Undefined o;
  let r := cur_node_ d in
  h ← put_up c r (<[r := mkNode r r r r c n 0]> (nodes_ d));
  Ok (r, mkDance h (r + 1) (columns_ d)).

(** Four nodes in the columns [c0] to [c3], in one row. *)
Definition new_row4 (c0 c1 c2 c3 : Z) (d : Dance) : outcome Dance :=
  '(n0, d) ← new_row c0 d; '(n1, d) ← new_row c1 d; '(n2, d) ← new_row c2 d; '(n3, d) ← new_row c3 d;
  h ← put_left n0 n1 (nodes_ d); h ← put_left n0 n2 h; h ← put_left n0 n3 h;
  Ok (set_nodes h d).

Definition empty_dance (kMaxColumns : Z) : outcome Dance :=
  '(_, d) ← new_column 0 (mkDance ∅ 0 (replicate (Z.to_nat kMaxColumns) None)); Ok d.
End build.

(** ** Search *)

Fixpoint min_loop (fuel : nat) (cc c min_size : Z) (h : heap) : outcome addr :=
  match fuel with
  | O => Fail Undefined
  | S fuel =>
      if cc =? root_ then Ok c
      else
        n ← get h cc;
        if size_ n <? min_size then
          if size_ n <=? 1 then Ok cc else min_loop fuel (right n) cc (size_ n) h
        else min_loop fuel (right n) c min_size h
  end.

Definition get_min_column (h : heap) : outcome addr :=
  r ← get h root_; n ← get h (right r);
  if 1 <? size_ n then min_loop (ring_fuel h) (right n) (right r) (size_ n) h else Ok (right r).

Section search.
(** What is done with [stack_] when no column is left; true ends the search. *)
Context {St : Type} (leaf : heap -> list addr -> St -> outcome (bool * St)).

Definition cover_col (j : addr) (h : heap) : outcome heap := n ← get h j; cover (col n) h.
Definition uncover_col (j : addr) (h : heap) : outcome heap := n ← get h j; uncover (col n) h.

(** The loop over the rows of the column [c]. *)
Fixpoint try_rows (solve : heap -> list addr -> St -> outcome (bool * heap * St)) (c : addr) (fuel : nat)
    (row : addr) (h : heap) (stack_ : list addr) (s : St) : outcome (bool * heap * St) :=
  match fuel with
  | O => Fail Undefined
  | S fuel =>
      if row =? c then h ← uncover c h; Ok (false, h, s)
      else
        h ← for_ring right row cover_col h;
        '(r, h, s) ← solve h (stack_ ++ [row]) s;
        if (r : bool) then Ok (true, h, s)
        else
          h ← for_ring left row uncover_col h;
          n ← get h row; try_rows solve c fuel (down n) h stack_ s
  end.

Fixpoint solve (fuel : nat) (h : heap) (stack_ : list addr) (s : St) : outcome (bool * heap * St) :=
  match fuel with
  | O => Fail Undefined
  | S fuel =>
      r ← get h root_;
      if left r =? root_ then '(b, s) ← leaf h stack_ s; Ok (b, h, s)
      else
        c ← get_min_column h;
        h ← cover c h;
        n ← get h c;
        try_rows (solve fuel) c (ring_fuel h) (down n) h stack_ s
  end.
End search.

(** ** Lemmas: heaps *)

Definition fld {A} (f : Node -> A) (h : heap) (p : addr) : option A := f <$> h !! p.

Lemma fld_get {A} (f : Node -> A) h p v : fld f h p = Some v -> exists n, h !! p = Some n /\ get h p = Ok n /\ f n = v.
Proof. unfold fld, get. destruct (h !! p) as [n|]; [|done]. intros [= <-]. by exists n. Qed.

Lemma put_ok f p h : is_Some (h !! p) -> put f p h = Ok (alter f p h).
Proof.
  intros [n E]. unfold put, get. rewrite E. cbn [from_some mbind outcome_bind]. f_equal. apply map_eq. intros q.
  destruct (decide (p = q)) as [<-|Hne]; [by rewrite lookup_insert_eq, lookup_alter_eq, E|by rewrite lookup_insert_ne, lookup_alter_ne].
Qed.

Lemma alter_some (f : Node -> Node) p (h : heap) q : is_Some (alter f p h !! q) <-> is_Some (h !! q).
Proof. destruct (decide (p = q)) as [<-|Hne]; [rewrite lookup_alter_eq; apply fmap_is_Some|by rewrite lookup_alter_ne]. Qed.

(** A field that the update [f] of a node does not touch. *)
Lemma fld_alter_other {A} (g : Node -> A) f p (h : heap) q : (forall n, g (f n) = g n) -> fld g (alter f p h) q = fld g h q.
Proof.
  intros Hg. unfold fld. destruct (decide (p = q)) as [<-|Hne]; [|by rewrite lookup_alter_ne]. rewrite lookup_alter_eq. by destruct (h !! p); cbn; rewrite ?Hg.
Qed.
Lemma fld_alter_ne {A} (g : Node -> A) f p (h : heap) q : p <> q -> fld g (alter f p h) q = fld g h q.
Proof. intros Hne. unfold fld. by rewrite lookup_alter_ne. Qed.
Lemma fld_alter_eq {A} (g : Node -> A) f p (h : heap) v : is_Some (h !! p) -> (forall n, g (f n) = v) -> fld g (alter f p h) p = Some v.
Proof. intros [n E] Hg. unfold fld. rewrite lookup_alter_eq, E. cbn. by rewrite Hg. Qed.

(** The neighbors of [j] point to it. *)
Record linked_node (h : heap) (j : addr) (n : Node) : Prop := {
  linked_self : h !! j = Some n;
  linked_down : fld up h (down n) = Some j;
  linked_up : fld down h (up n) = Some j;
  linked_col : is_Some (h !! col n);
  not_own_down : down n <> j;
  not_own_up : up n <> j;
  not_own_col : col n <> j;
}.

Definition unlinked (n : Node) (h : heap) : heap :=
  alter (add_size (-1)) (col n) (alter (set_down (down n)) (up n) (alter (set_up (up n)) (down n) h)).

Lemma get_eq h p n : h !! p = Some n -> get h p = Ok n.
Proof. intros E. unfold get. by rewrite E. Qed.

Lemma unlink_node_eq h j n : linked_node h j n -> unlink_node j h = Ok (unlinked n h).
Proof.
  intros [E Hd Hu Hc Hnd Hnu Hnc]. apply fld_get in Hd as (nd & Hd & _), Hu as (nu & Hu & _). unfold unlink_node.
  rewrite (get_eq _ _ n) by done. cbn [mbind outcome_bind]. rewrite put_ok by done. cbn [mbind outcome_bind].
  rewrite (get_eq _ _ n) by (by rewrite lookup_alter_ne). cbn [mbind outcome_bind].
  rewrite put_ok by (apply alter_some; done). cbn [mbind outcome_bind].
  rewrite (get_eq _ _ n) by (by rewrite !lookup_alter_ne). cbn [mbind outcome_bind].
  by rewrite put_ok by (rewrite !alter_some; done).
Qed.

Lemma relink_node_eq h j n : linked_node h j n -> relink_node j (unlinked n h) = Ok h.
Proof.
  intros [E Hd Hu Hc Hnd Hnu Hnc]. apply fld_get in Hd as (nd & Hd & _ & Ed), Hu as (nu & Hu & _ & Eu).
  assert (unlinked n h !! j = Some n) as Ej by (unfold unlinked; by rewrite !lookup_alter_ne). unfold relink_node.
  rewrite (get_eq _ _ n) by done. cbn [mbind outcome_bind].
  rewrite put_ok by (unfold unlinked; by rewrite !alter_some). cbn [mbind outcome_bind].
  rewrite (get_eq _ _ n) by (by rewrite !lookup_alter_ne). cbn [mbind outcome_bind].
  rewrite put_ok by (unfold unlinked; by rewrite !alter_some). cbn [mbind outcome_bind].
  rewrite (get_eq _ _ n) by (by rewrite !lookup_alter_ne). cbn [mbind outcome_bind].
  rewrite put_ok by (unfold unlinked; by rewrite !alter_some). f_equal. apply map_eq. intros q. unfold unlinked.
  assert (forall f p, p = q -> forall m : heap, alter f p m !! q = f <$> m !! q) as Heq by (intros f p -> m; apply lookup_alter_eq).
  assert (forall f p, p <> q -> forall m : heap, alter f p m !! q = m !! q) as Hne by (intros f p ? m; by apply lookup_alter_ne).
  clear E Ej. destruct Hc as [nc Hc].
  destruct (decide (up n = q)) as [Eq1|Eq1], (decide (down n = q)) as [Eq2|Eq2], (decide (col n = q)) as [Eq3|Eq3].
  all: repeat first [rewrite (Heq _ _ Eq1)|rewrite (Heq _ _ Eq2)|rewrite (Heq _ _ Eq3)|rewrite (Hne _ _ Eq1)|rewrite (Hne _ _ Eq2)|rewrite (Hne _ _ Eq3)].
  all: try (rewrite Eq1 in Hu); try (rewrite Eq2 in Hd); try (rewrite Eq3 in Hc).
  all: try done.
  all: destruct (h !! q) as [m|]; [|congruence].
  all: destruct m as [l r u d c nm sz]; cbn.
  all: repeat match goal with Hm : Some _ = Some _ |- _ => injection Hm as Hm end; try subst nd; try subst nu.
  all: cbn in *; unfold set_up, set_down, add_size; cbn; f_equal; f_equal; (congruence || lia || (subst; cbn; congruence)).
Qed.

(** The same for a column of the ring of the root. *)
Record linked_column (h : heap) (c : addr) (n : Node) : Prop := {
  column_self : h !! c = Some n;
  linked_right : fld left h (right n) = Some c;
  linked_left : fld right h (left n) = Some c;
  not_own_right : right n <> c;
  not_own_left : left n <> c;
}.

Definition without_column (n : Node) (h : heap) : heap :=
  alter (set_right (right n)) (left n) (alter (set_left (left n)) (right n) h).

Lemma unlink_column_eq h c n : linked_column h c n -> unlink_column c h = Ok (without_column n h).
Proof.
  intros [E Hr Hl Hnr Hnl]. apply fld_get in Hr as (nr & Hr & _), Hl as (nl & Hl & _). unfold unlink_column.
  rewrite (get_eq _ _ n) by done. cbn [mbind outcome_bind]. rewrite put_ok by done. cbn [mbind outcome_bind].
  rewrite (get_eq _ _ n) by (by rewrite lookup_alter_ne). cbn [mbind outcome_bind]. by rewrite put_ok by (apply alter_some; done).
Qed.

Lemma relink_column_eq h c n : linked_column h c n -> relink_column c (without_column n h) = Ok h.
Proof.
  intros [E Hr Hl Hnr Hnl]. apply fld_get in Hr as (nr & Hr & _ & Er), Hl as (nl & Hl & _ & El). unfold relink_column.
  rewrite (get_eq _ _ n) by (unfold without_column; by rewrite !lookup_alter_ne). cbn [mbind outcome_bind].
  rewrite put_ok by (unfold without_column; by rewrite !alter_some). cbn [mbind outcome_bind].
  rewrite (get_eq _ _ n) by (unfold without_column; by rewrite !lookup_alter_ne). cbn [mbind outcome_bind].
  rewrite put_ok by (unfold without_column; by rewrite !alter_some). f_equal. apply map_eq. intros q. unfold without_column.
  assert (forall f p, p = q -> forall m : heap, alter f p m !! q = f <$> m !! q) as Heq by (intros f p -> m; apply lookup_alter_eq).
  assert (forall f p, p <> q -> forall m : heap, alter f p m !! q = m !! q) as Hne by (intros f p ? m; by apply lookup_alter_ne).
  clear E. destruct (decide (right n = q)) as [Eq1|Eq1], (decide (left n = q)) as [Eq2|Eq2].
  all: repeat first [rewrite (Heq _ _ Eq1)|rewrite (Heq _ _ Eq2)|rewrite (Hne _ _ Eq1)|rewrite (Hne _ _ Eq2)].
  all: try (rewrite Eq1 in Hr); try (rewrite Eq2 in Hl).
  all: try done.
  all: destruct (h !! q) as [m|]; [|congruence].
  all: destruct m as [l r u d c' nm sz]; cbn.
  all: repeat match goal with Hm : Some _ = Some _ |- _ => injection Hm as Hm end; try subst nr; try subst nl.
  all: cbn in *; unfold set_left, set_right; cbn; f_equal; f_equal; (congruence || (subst; cbn; congruence)).
Qed.

(** A column outside the ring is linked to itself: nothing happens to it. *)
Lemma unlink_lone h c : fld left h c = Some c -> fld right h c = Some c -> unlink_column c h = Ok h /\ relink_column c h = Ok h.
Proof.
  intros Hl Hr. apply fld_get in Hl as (n & E & Eg & El). unfold fld in Hr. rewrite E in Hr. injection Hr as Er.
  assert (forall f, f n = n -> put f c h = Ok h) as Hid.
  { intros f Hf. rewrite put_ok by done. f_equal. apply map_eq. intros q. destruct (decide (c = q)) as [<-|?];
      [rewrite lookup_alter_eq, E; cbn; by rewrite Hf|by rewrite lookup_alter_ne]. }
  assert (set_left c n = n /\ set_right c n = n) as [H1 H2].
  { destruct n; unfold set_left, set_right; cbn in *; subst; done. }
  unfold unlink_column, relink_column. rewrite !Eg. cbn [mbind outcome_bind]. rewrite El, Er.
  rewrite !Hid by done. cbn [mbind outcome_bind]. rewrite Eg. cbn [mbind outcome_bind]. by rewrite El, Er, !Hid.
Qed.

(** ** Lemmas: rings *)

(** The neighbors in a list. *)
Fixpoint pairs (l : list addr) : list (addr * addr) :=
  match l with
  | [] => []
  | a :: l => match l with [] => [] | b :: _ => (a, b) :: pairs l end
  end.

Lemma pairs_cons a b l : pairs (a :: b :: l) = (a, b) :: pairs (b :: l).
Proof. done. Qed.

Lemma pairs_split l1 x l2 : pairs (l1 ++ x :: l2) = pairs (l1 ++ [x]) ++ pairs (x :: l2).
Proof.
  induction l1 as [|a l1 IH]; [done|]. destruct l1 as [|b l1]; [done|]. cbn [app]. rewrite !pairs_cons.
  change (b :: l1 ++ x :: l2) with ((b :: l1) ++ x :: l2). rewrite IH. done.
Qed.

Lemma pairs_elem l a b : (a, b) ∈ pairs l -> exists l1 l2, l = l1 ++ a :: b :: l2.
Proof.
  induction l as [|x l IH]; [by intros ?%not_elem_of_nil|]. destruct l as [|y l]; [by intros ?%not_elem_of_nil|]. rewrite pairs_cons.
  intros [E|Hin]%elem_of_cons; [injection E as -> ->; by exists [], l|]. destruct (IH Hin) as (l1 & l2 & E). rewrite E. by exists (x :: l1), l2.
Qed.

(** [c] and [l] form a ring. *)
Definition ring (nx pv : Node -> addr) (h : heap) (c : addr) (l : list addr) : Prop :=
  Forall (fun '(a, b) => fld nx h a = Some b /\ fld pv h b = Some a) (pairs (c :: l ++ [c])).

Definition hd_or (c : addr) (l : list addr) : addr := match l with [] => c | x :: _ => x end.
Definition last_or (c : addr) (l : list addr) : addr := default c (last l).

Lemma last_or_snoc c l x : last_or c (l ++ [x]) = x.
Proof. unfold last_or. by rewrite last_snoc. Qed.

Lemma split_last c l : exists l', c :: l = l' ++ [last_or c l].
Proof.
  induction l as [|x l _] using rev_ind; [by exists []|]. exists (c :: l). by rewrite last_or_snoc.
Qed.

Lemma split_hd c l : l ++ [c] = hd_or c l :: tail (l ++ [c]).
Proof. by destruct l. Qed.

Lemma heap_size (h : heap) l : NoDup l -> (forall x, x ∈ l -> is_Some (h !! x)) -> (length l <= size h)%nat.
Proof.
  intros Hnd Hl. rewrite <- size_dom, <- (size_list_to_set (C := gset addr) l Hnd). apply subseteq_size. intros x Hx%elem_of_list_to_set.
  apply elem_of_dom. by apply Hl.
Qed.

Section ring.
Context (nx pv : Node -> addr) (h : heap) (c : addr).

Lemma ring_at l1 y l2 : ring nx pv h c (l1 ++ y :: l2) ->
  fld nx h y = Some (hd_or c l2) /\ fld pv h (hd_or c l2) = Some y /\ fld pv h y = Some (last_or c l1) /\ fld nx h (last_or c l1) = Some y.
Proof.
  unfold ring. destruct (split_last c l1) as [l' E]. replace (c :: (l1 ++ y :: l2) ++ [c]) with (l' ++ last_or c l1 :: y :: hd_or c l2 :: tail (l2 ++ [c])).
  - rewrite pairs_split, Forall_app, pairs_cons, pairs_cons. intros [_ [H1 H2]%Forall_cons]. apply Forall_cons in H2 as [H2 _]. tauto.
  - rewrite <- split_hd, <- app_assoc. change (c :: l1 ++ (y :: l2) ++ [c]) with ((c :: l1) ++ y :: l2 ++ [c]). by rewrite E, <- app_assoc.
Qed.

Lemma ring_ends l : ring nx pv h c l -> fld nx h c = Some (hd_or c l) /\ fld pv h c = Some (last_or c l).
Proof.
  intros Hr. split.
  - unfold ring in Hr. rewrite split_hd, pairs_cons in Hr. apply Forall_cons in Hr as [[Hr _] _]. done.
  - unfold ring in Hr. destruct (split_last c l) as [l' E]. rewrite app_comm_cons, E, <- app_assoc in Hr. cbn [app] in Hr.
    rewrite pairs_split, Forall_app, pairs_cons in Hr. destruct Hr as [_ [[_ Hr] _]%Forall_cons]. done.
Qed.

Lemma ring_some l x : ring nx pv h c l -> x ∈ l -> is_Some (h !! x).
Proof. intros Hr (l1 & l2 & ->)%list_elem_of_split. apply ring_at in Hr as (Hr & _). apply fld_get in Hr as (n & -> & _). done. Qed.

Lemma ring_short l : ring nx pv h c l -> NoDup l -> (length l <= size h)%nat.
Proof. intros Hr Hnd. apply heap_size; [done|]. intros x. by apply ring_some. Qed.
End ring.

Lemma pairs_init a b l x : (a, b) ∈ pairs (l ++ [x]) -> a ∈ l.
Proof.
  intros (l1 & l2 & E)%pairs_elem. destruct l2 as [|z l2 _] using rev_ind.
  - change (a :: [b]) with ([a] ++ [b]) in E. rewrite app_assoc in E. apply app_inj_tail in E as [-> _]. apply elem_of_app. right. left.
  - rewrite (app_comm_cons l2), (app_comm_cons (b :: l2)), app_assoc in E. apply app_inj_tail in E as [-> _]. apply elem_of_app. right. left.
Qed.

Lemma pairs_tail a b x l : (a, b) ∈ pairs (x :: l) -> b ∈ l.
Proof.
  intros (l1 & l2 & E)%pairs_elem. destruct l1 as [|z l1]; injection E as -> ->; [left|]. apply elem_of_app. right. right. left.
Qed.

Lemma last_or_elem c l : last_or c l ∈ c :: l.
Proof. destruct l as [|x l _] using rev_ind; [left|]. rewrite last_or_snoc. right. apply elem_of_app. right. left. Qed.

Lemma hd_or_elem c l : hd_or c l ∈ l ++ [c].
Proof. destruct l; left. Qed.

Section ring_change.
Context (nx pv : Node -> addr) (h h' : heap) (c : addr).

Lemma ring_frame l :
  ring nx pv h c l -> (forall x, x ∈ c :: l -> fld nx h' x = fld nx h x /\ fld pv h' x = fld pv h x) -> ring nx pv h' c l.
Proof.
  unfold ring. intros Hr Hf. rewrite Forall_forall in Hr |- *. intros [a b] Hin. specialize (Hr (a, b) Hin) as [H1 H2].
  assert (a ∈ c :: l) as Ha by (rewrite app_comm_cons in Hin; by apply pairs_init in Hin).
  assert (b ∈ c :: l) as Hb. { apply pairs_tail in Hin. apply elem_of_app in Hin as [?| ->%list_elem_of_singleton]; [by right|left]. }
  by rewrite (proj1 (Hf a Ha)), (proj2 (Hf b Hb)).
Qed.

Lemma ring_remove l1 y l2 :
  let p := last_or c l1 in let n := hd_or c l2 in
  ring nx pv h c (l1 ++ y :: l2) -> NoDup (c :: l1 ++ y :: l2) ->
  fld nx h' p = Some n -> fld pv h' n = Some p ->
  (forall x, x <> p -> fld nx h' x = fld nx h x) -> (forall x, x <> n -> fld pv h' x = fld pv h x) ->
  ring nx pv h' c (l1 ++ l2).
Proof.
  intros p n Hr Hnd Hp Hn Hnx Hpv. unfold ring in *. destruct (split_last c l1) as [A EA]. fold p in EA.
  pose proof (split_hd c l2) as EB. fold n in EB. set (B := tail (l2 ++ [c])) in EB.
  replace (c :: (l1 ++ y :: l2) ++ [c]) with (A ++ p :: y :: n :: B) in Hr by
    (rewrite <- EB, <- app_assoc; change (c :: l1 ++ (y :: l2) ++ [c]) with ((c :: l1) ++ y :: l2 ++ [c]); by rewrite EA, <- app_assoc).
  replace (c :: (l1 ++ l2) ++ [c]) with (A ++ p :: n :: B) by
    (rewrite <- EB, <- app_assoc; change (c :: l1 ++ l2 ++ [c]) with ((c :: l1) ++ l2 ++ [c]); by rewrite EA, <- app_assoc).
  rewrite pairs_split, !pairs_cons in Hr. rewrite pairs_split, pairs_cons. apply Forall_app in Hr as [HA Hr]. apply Forall_cons in Hr as [_ Hr]. apply Forall_cons in Hr as [_ HB].
  rewrite app_comm_cons in Hnd. apply NoDup_app in Hnd as (Hnd1 & Hdisj & [Hy Hnd2]%NoDup_cons).
  assert (forall x, x ∈ l2 ++ [c] -> x ∉ l1) as Hn1.
  { intros x [Hx| ->%list_elem_of_singleton]%elem_of_app Hx1; [apply (Hdisj x); by right|]. by apply NoDup_cons in Hnd1 as [? _]. }
  apply Forall_app. split; [|apply Forall_cons; split; [done|]]; apply Forall_forall; intros [a b] Hin.
  - rewrite Forall_forall in HA. destruct (HA _ Hin) as [H1 H2]. rewrite Hnx, Hpv; [done| |].
    + intros ->. rewrite <- EA in Hin. apply pairs_tail in Hin. apply (Hn1 n); [apply hd_or_elem|done].
    + intros ->. apply pairs_init in Hin. rewrite EA in Hnd1. apply NoDup_app in Hnd1 as (_ & Hd & _). apply (Hd p); [done|left].
  - rewrite Forall_forall in HB. destruct (HB _ Hin) as [H1 H2]. rewrite Hnx, Hpv; [done| |].
    + intros ->. apply pairs_tail in Hin. assert (NoDup (l2 ++ [c])) as Hl2.
      { apply NoDup_app. split; [done|]. split; [|apply NoDup_singleton]. intros x Hx ->%list_elem_of_singleton. apply (Hdisj c); [left|by right]. }
      rewrite EB in Hl2. by apply NoDup_cons in Hl2 as [? _].
    + intros ->. rewrite <- EB in Hin. apply pairs_init in Hin. apply (Hdisj p); [apply last_or_elem|by right].
Qed.

(** A new element before [c]. *)
Lemma ring_snoc l y :
  let p := last_or c l in
  ring nx pv h c l -> NoDup (c :: l) -> y ∉ c :: l ->
  fld nx h' p = Some y -> fld pv h' y = Some p -> fld nx h' y = Some c -> fld pv h' c = Some y ->
  (forall x, x ∈ c :: l -> x <> p -> fld nx h' x = fld nx h x) -> (forall x, x ∈ l -> fld pv h' x = fld pv h x) ->
  ring nx pv h' c (l ++ [y]).
Proof.
  intros p Hr Hnd Hy H1 H2 H3 H4 Hnx Hpv. unfold ring in *. destruct (split_last c l) as [A EA]. fold p in EA.
  replace (c :: (l ++ [y]) ++ [c]) with (A ++ p :: y :: [c]) by
    (rewrite <- app_assoc; change (c :: l ++ [y] ++ [c]) with ((c :: l) ++ y :: [c]); by rewrite EA, <- app_assoc).
  replace (c :: l ++ [c]) with (A ++ p :: [c]) in Hr by (change (c :: l ++ [c]) with ((c :: l) ++ [c]); by rewrite EA, <- app_assoc).
  rewrite pairs_split in Hr |- *. apply Forall_app in Hr as [HA _]. apply Forall_app. split.
  - rewrite Forall_forall in HA |- *. intros [a b] Hin. destruct (HA _ Hin) as [Ha Hb]. pose proof Hin as Hin'. rewrite <- EA in Hin'.
    apply pairs_init in Hin. apply pairs_tail in Hin'. rewrite Hnx, Hpv; [done|done| |].
    + rewrite EA. apply elem_of_app. by left.
    + intros ->. rewrite EA in Hnd. apply NoDup_app in Hnd as (_ & Hd & _). apply (Hd p); [done|left].
  - repeat constructor; done.
Qed.
End ring_change.

(** A walk around the ring that does something at each element, and a walk
    in the other direction that undoes it. *)
Lemma ring_walk nx pv c l (do_ undo : addr -> heap -> outcome heap) (P : list addr -> heap -> Prop) h :
  NoDup (c :: l) -> P [] h ->
  (forall l1 h, P l1 h -> ring nx pv h c l) ->
  (forall l1 y l2 h, l = l1 ++ y :: l2 -> P l1 h -> exists h', do_ y h = Ok h' /\ P (l1 ++ [y]) h' /\ undo y h' = Ok h) ->
  exists h', for_ring nx c do_ h = Ok h' /\ P l h' /\ for_ring pv c undo h' = Ok h.
Proof.
  intros Hnd HP Hring Hstep. apply NoDup_cons in Hnd as [Hc Hnd].
  assert (forall l2 l1 hk fuel, l = l1 ++ l2 -> P l1 hk -> (length l2 < fuel)%nat ->
    (forall fuel, (length l1 < fuel)%nat -> ring_loop pv c undo fuel (last_or c l1) hk = Ok h) ->
    exists h', ring_loop nx c do_ fuel (hd_or c l2) hk = Ok h' /\ P l h' /\
      forall fuel, (length l < fuel)%nat -> ring_loop pv c undo fuel (last_or c l) h' = Ok h) as Hwalk.
  { induction l2 as [|y l2 IH]; intros l1 hk fuel El HPk Hf Hback; (destruct fuel as [|fuel]; [lia|]); cbn [ring_loop hd_or].
    - rewrite Z.eqb_refl. exists hk. rewrite app_nil_r in El. subst l1. done.
    - assert (y <> c) as Hyc. { intros ->. apply Hc. rewrite El. apply elem_of_app. right. left. }
      rewrite (proj2 (Z.eqb_neq y c)) by done. destruct (Hstep l1 y l2 hk El HPk) as (h1 & E1 & HP1 & Eu). rewrite E1. cbn [mbind outcome_bind].
      pose proof (Hring _ _ HP1) as Hr1. rewrite El in Hr1. apply ring_at in Hr1 as (Hnx & _). apply fld_get in Hnx as (n & _ & Eg & En). rewrite Eg. cbn [mbind outcome_bind]. rewrite En. clear Eg En.
      apply (IH (l1 ++ [y])); [by rewrite <- app_assoc|done|cbn in Hf; lia|]. intros fuel' Hf'. rewrite last_or_snoc.
      destruct fuel' as [|fuel']; [lia|]. cbn [ring_loop]. rewrite (proj2 (Z.eqb_neq y c)) by done. rewrite Eu. cbn [mbind outcome_bind].
      pose proof (Hring _ _ HPk) as Hrk. rewrite El in Hrk. apply ring_at in Hrk as (_ & _ & Hpv & _). apply fld_get in Hpv as (n' & _ & Eg & En). rewrite Eg. cbn [mbind outcome_bind]. rewrite En. clear Eg En. apply Hback. rewrite length_app in Hf'. cbn in Hf'. lia. }
  pose proof (Hring _ _ HP) as Hr. destruct (Hwalk l [] h (ring_fuel h)) as (h' & E & HP' & Hback).
  - done.
  - done.
  - unfold ring_fuel. pose proof (ring_short nx pv h c l Hr Hnd). lia.
  - intros [|fuel] Hf; [lia|]. cbn. by rewrite Z.eqb_refl.
  - exists h'. unfold for_ring. apply ring_ends in Hr as [Hnx _]. apply fld_get in Hnx as (n & _ & Eg & En). rewrite Eg. cbn [mbind outcome_bind]. rewrite En. clear Eg En. split; [done|]. split; [done|].
    pose proof (Hring _ _ HP') as Hr'. pose proof (ring_short nx pv h' c l Hr' Hnd). apply ring_ends in Hr' as [_ Hpv].
    apply fld_get in Hpv as (n' & _ & Eg & En). rewrite Eg. cbn [mbind outcome_bind]. rewrite En. clear Eg En. apply Hback. unfold ring_fuel. lia.
Qed.

(** ** The matrix *)

Section matrix.
(** All columns, all rows with their nodes in order, and the column and the
    name of each node. *)
Context (cs0 : list addr) (rows : list (list addr)) (colof : addr -> addr) (nameof : addr -> Z).

Record matrix_ok : Prop := {
  matrix_NoDup : NoDup (root_ :: cs0 ++ concat rows);
  row_columns R : R ∈ rows -> R <> [] /\ NoDup (colof <$> R);
  colof_column n : n ∈ concat rows -> colof n ∈ cs0;
}.

(** The nodes of [A] that are in column [c]. *)
Definition vcol (A : list addr) (c : addr) : list addr := filter (fun n => colof n = c) A.

(** The heap links the columns [hs] to the root, each column of [ls] to
    itself, and in each column of [ks] the nodes of [A]. *)
Record rep (hs ls ks A : list addr) (h : heap) : Prop := {
  rep_head : ring right left h root_ hs;
  rep_lone c : c ∈ ls -> fld left h c = Some c /\ fld right h c = Some c;
  rep_col c : c ∈ ks -> ring down up h c (vcol A c);
  rep_size c : c ∈ ks -> fld size_ h c = Some (zlen (vcol A c));
  rep_rows R1 r R2 : R1 ++ r :: R2 ∈ rows -> ring right left h r (R2 ++ R1);
  rep_colof n : n ∈ concat rows -> fld col h n = Some (colof n) /\ fld name h n = Some (nameof n);
}.

Record parts (hs ls ks A : list addr) : Prop := {
  heads_NoDup : NoDup (hs ++ ls);
  heads_columns c : c ∈ hs ++ ls -> c ∈ cs0;
  rings_columns c : c ∈ ks -> c ∈ cs0;
  nodes_rows : sublist A (concat rows);
}.

Hypothesis M : matrix_ok.

Lemma rows_NoDup : NoDup (concat rows).
Proof. destruct M as [Hnd _ _]. apply NoDup_cons in Hnd as [_ Hnd]. by apply NoDup_app in Hnd as (_ & _ & ?). Qed.

Lemma node_not_column n c : n ∈ concat rows -> c ∈ cs0 -> n <> c.
Proof. intros Hn Hc ->. destruct M as [Hnd _ _]. apply NoDup_cons in Hnd as [_ Hnd]. apply NoDup_app in Hnd as (_ & Hd & _). by apply (Hd c). Qed.

Lemma root_not_column c : c ∈ cs0 -> c <> root_.
Proof. intros Hc ->. destruct M as [Hnd _ _]. apply NoDup_cons in Hnd as [Hr _]. apply Hr, elem_of_app. by left. Qed.

Lemma root_not_node n : n ∈ concat rows -> n <> root_.
Proof. intros Hn ->. destruct M as [Hnd _ _]. apply NoDup_cons in Hnd as [Hr _]. apply Hr, elem_of_app. by right. Qed.

Section parts.
Context (hs ls ks A : list addr) (HP : parts hs ls ks A).

Lemma node_in_rows n : n ∈ A -> n ∈ concat rows.
Proof. intros Hn. by eapply elem_of_sublist, nodes_rows. Qed.

Lemma nodes_NoDup : NoDup A.
Proof. eapply sublist_NoDup; [apply rows_NoDup|apply (nodes_rows _ _ _ _ HP)]. Qed.

Lemma vcol_elem n c : n ∈ vcol A c <-> colof n = c /\ n ∈ A.
Proof. unfold vcol. by rewrite list_elem_of_filter. Qed.

Lemma vcol_ring_NoDup c : c ∈ ks -> NoDup (c :: vcol A c).
Proof.
  intros Hc. apply NoDup_cons. split; [|apply NoDup_filter, nodes_NoDup]. intros [_ Hn%node_in_rows]%vcol_elem.
  by apply (node_not_column c c Hn); [apply (rings_columns _ _ _ _ HP)|].
Qed.

(** The rings of different columns have nothing in common. *)
Lemma column_unique x c c' : c ∈ ks -> c' ∈ ks -> x ∈ c :: vcol A c -> x ∈ c' :: vcol A c' -> c = c'.
Proof.
  intros Hc Hc' [->|[Ex Hx]%vcol_elem]%elem_of_cons [E|[Ex' Hx']%vcol_elem]%elem_of_cons; [done| | |congruence].
  - exfalso. apply (node_not_column c c); [by apply node_in_rows|by apply (rings_columns _ _ _ _ HP)|done].
  - subst x. exfalso. apply (node_not_column c' c'); [by apply node_in_rows|by apply (rings_columns _ _ _ _ HP)|done].
Qed.
End parts.

Lemma filter_ne_mid (l1 l2 : list addr) y : NoDup (l1 ++ y :: l2) -> filter (fun x => x <> y) (l1 ++ y :: l2) = l1 ++ l2.
Proof.
  intros Hnd. apply NoDup_app in Hnd as (_ & Hd & [Hy _]%NoDup_cons). rewrite filter_app, filter_cons, decide_False by tauto.
  assert (forall l : list addr, y ∉ l -> filter (fun x => x <> y) l = l) as Hid.
  { intros l Hl. induction l as [|x l IH]; [done|]. apply not_elem_of_cons in Hl as [Hx Hl].
    rewrite filter_cons, decide_True by done. by rewrite IH. }
  rewrite !Hid; [done|done|]. intros Hy1. apply (Hd y Hy1). left.
Qed.

Lemma vcol_without (A : list addr) (j : addr) c : vcol (filter (fun x => x <> j) A) c = filter (fun x => x <> j) (vcol A c).
Proof. unfold vcol. rewrite !list_filter_filter. apply filter_ext_in. tauto. Qed.
Section unlink.
Context (hs ls ks A : list addr) (HP : parts hs ls ks A).

(** What [unlink_node] changes. *)
Lemma unlinked_fields h j n : linked_node h j n ->
  let h' := unlinked n h in
  (forall x, fld left h' x = fld left h x /\ fld right h' x = fld right h x /\ fld col h' x = fld col h x /\ fld name h' x = fld name h x) /\
  fld down h' (up n) = Some (down n) /\ fld up h' (down n) = Some (up n) /\
  (forall x, x <> up n -> fld down h' x = fld down h x) /\ (forall x, x <> down n -> fld up h' x = fld up h x) /\
  (forall x, x <> col n -> fld size_ h' x = fld size_ h x) /\
  (forall v, fld size_ h (col n) = Some v -> fld size_ h' (col n) = Some (v - 1)).
Proof.
  intros [E Hd Hu [nc Hc] _ _ _] h'. unfold h', unlinked. apply fld_get in Hd as (nd & Hd & _), Hu as (nu & Hu & _).
  split; [|split; [|split; [|split; [|split; [|split]]]]].
  - intros x. by rewrite !fld_alter_other by done.
  - rewrite fld_alter_other by done. apply fld_alter_eq; [by rewrite alter_some|done].
  - rewrite !fld_alter_other by done. by apply fld_alter_eq.
  - intros x Hx. rewrite fld_alter_other by done. rewrite fld_alter_ne by done. by rewrite fld_alter_other by done.
  - intros x Hx. rewrite !fld_alter_other by done. by rewrite fld_alter_ne by done.
  - intros x Hx. rewrite fld_alter_ne by done. by rewrite !fld_alter_other by done.
  - intros v Hv. assert (fld size_ (alter (set_down (down n)) (up n) (alter (set_up (up n)) (down n) h)) (col n) = Some v) as Hv'
      by by rewrite !fld_alter_other by done.
    apply fld_get in Hv' as (m & Em & _ & <-). unfold fld. rewrite lookup_alter_eq, Em. cbn. f_equal.
Qed.

Lemma unlink_node_rep j h :
  rep hs ls ks A h -> j ∈ A -> colof j ∈ ks ->
  exists h', unlink_node j h = Ok h' /\ rep hs ls ks (filter (fun x => x <> j) A) h' /\ relink_node j h' = Ok h.
Proof.
  intros HR Hj Hcj. pose proof HR as [Hhead Hlone Hcol Hsize Hrows Hcolof].
  assert (exists c, colof j = c) as [c Ecj] by eauto. rewrite Ecj in Hcj.
  assert (j ∈ vcol A c) as (l1 & l2 & El)%list_elem_of_split by by apply vcol_elem.
  pose proof (vcol_ring_NoDup hs ls ks A HP c Hcj) as Hnd. rewrite El in Hnd.
  pose proof (Hcol c Hcj) as Hring. rewrite El in Hring. pose proof Hring as (Hd & Hdu & Hu & Hud)%ring_at.
  apply fld_get in Hd as (n & En & _ & Edn). unfold fld in Hu. rewrite En in Hu. injection Hu as Eup.
  assert (fld col h j = Some c) as Ec by (rewrite <- Ecj; apply Hcolof; by apply (node_in_rows hs ls ks A)).
  unfold fld in Ec. rewrite En in Ec. injection Ec as Ecol.
  assert (j ∉ c :: l1) as Hj1. { rewrite app_comm_cons in Hnd. apply NoDup_app in Hnd as (_ & Hdis & _). intros Hin. apply (Hdis j Hin). left. }
  assert (j ∉ l2 ++ [c]) as Hj2.
  { rewrite elem_of_app. intros [Hin| ->%list_elem_of_singleton]; [|apply Hj1; left]. rewrite app_comm_cons in Hnd.
    apply NoDup_app in Hnd as (_ & _ & [? _]%NoDup_cons). done. }
  assert (linked_node h j n) as Hl.
  { pose proof (hd_or_elem c l2). pose proof (last_or_elem c l1). pose proof (Hsize c Hcj) as Hs. apply fld_get in Hs as (nc & Enc & _).
    constructor; rewrite ?Edn, ?Eup, ?Ecol; [done..| | |]; congruence || (intros ->; apply Hj1; left). }
  exists (unlinked n h). split; [by apply unlink_node_eq|]. split; [|by apply relink_node_eq].
  destruct (unlinked_fields h j n Hl) as (Hsame & H1 & H2 & Hdn & Hupn & Hsz & Hszc). rewrite Edn, Eup in *. rewrite Ecol in *.
  assert (forall c', c' ∈ ks -> c' <> c -> vcol (filter (fun x => x <> j) A) c' = vcol A c') as Hother.
  { intros c' Hc' Hne. unfold vcol. rewrite list_filter_filter. apply filter_ext_in. intros x _. split; [tauto|]. intros Hx.
    split; [done|]. intros ->. congruence. }
  assert (vcol (filter (fun x => x <> j) A) c = l1 ++ l2) as Hown.
  { rewrite vcol_without, El. apply filter_ne_mid. by apply NoDup_cons in Hnd as [_ ?]. }
  constructor.
  - eapply ring_frame; [exact Hhead|]. intros x _. by destruct (Hsame x) as (-> & -> & _).
  - intros c' Hc'. destruct (Hsame c') as (-> & -> & _). by apply Hlone.
  - intros c' Hc'. destruct (decide (c' = c)) as [->|Hne].
    + rewrite Hown. apply (ring_remove down up h (unlinked n h) c l1 j l2); done.
    + rewrite Hother by done. eapply ring_frame; [by apply Hcol|]. intros x Hx.
      assert (forall y, y ∈ c :: vcol A c -> x <> y) as Hxy.
      { intros y Hy ->. apply Hne. by apply (column_unique hs ls ks A HP y). }
      split; [apply Hdn|apply Hupn]; apply Hxy; rewrite El.
      * rewrite app_comm_cons. apply elem_of_app. left. apply last_or_elem.
      * pose proof (hd_or_elem c l2) as [Hh| ->%list_elem_of_singleton]%elem_of_app; [|left]. right. apply elem_of_app. right. by right.
  - intros c' Hc'. destruct (decide (c' = c)) as [->|Hne].
    + rewrite Hown. rewrite (Hszc (zlen (vcol A c))) by by apply Hsize. f_equal. rewrite El, !zlen_app, zlen_cons. lia.
    + rewrite Hother, Hsz by done. by apply Hsize.
  - intros R1 r R2 HRr. eapply ring_frame; [by apply Hrows|]. intros x _. by destruct (Hsame x) as (-> & -> & _).
  - intros m Hm. destruct (Hsame m) as (_ & _ & -> & ->). by apply Hcolof.
Qed.
End unlink.

(** Without the element [c]. *)
Definition minus (l : list addr) (c : addr) : list addr := filter (fun x => x <> c) l.

Lemma elem_of_minus l c x : x ∈ minus l c <-> x <> c /\ x ∈ l.
Proof. unfold minus. by rewrite list_elem_of_filter. Qed.

Lemma minus_absent l c : c ∉ l -> minus l c = l.
Proof.
  unfold minus. induction l as [|x l IH]; [done|]. intros [Hx Hl]%not_elem_of_cons. rewrite filter_cons, decide_True by done. by rewrite IH.
Qed.

Lemma unlink_column_rep hs ls ks A c h :
  parts hs ls ks A -> rep hs ls ks A h -> c ∈ hs ++ ls ->
  exists h', unlink_column c h = Ok h' /\ rep (minus hs c) (minus ls c) ks A h' /\ relink_column c h' = Ok h.
Proof.
  intros HP HR Hc. pose proof HR as [Hhead Hlone Hcol Hsize Hrows Hcolof]. pose proof HP as [Hnd Hcols Hks _].
  pose proof Hnd as (Hnh & Hdis & Hnl)%NoDup_app. destruct (decide (c ∈ ls)) as [Hls|Hls].
  { exists h. destruct (Hlone c Hls) as [Hl Hr]. destruct (unlink_lone h c Hl Hr) as [-> ->]. split; [done|]. split; [|done].
    rewrite minus_absent by (intros Hin; by apply (Hdis c)). constructor; try done. intros c' [_ Hc']%elem_of_minus. by apply Hlone. }
  rewrite (minus_absent ls) by done. apply elem_of_app in Hc as [Hc|]; [|done].
  apply list_elem_of_split in Hc as (l1 & l2 & El). rewrite El in *.
  pose proof Hhead as (Hr & Hrl & Hl & Hlr)%ring_at.
  apply fld_get in Hr as (n & En & _ & Er). unfold fld in Hl. rewrite En in Hl. injection Hl as El'.
  assert (NoDup (root_ :: l1 ++ c :: l2)) as Hndr.
  { apply NoDup_cons. split; [|done]. intros Hin. apply (root_not_column root_); [|done]. apply Hcols, elem_of_app. by left. }
  assert (c ∉ root_ :: l1) as Hc1. { rewrite app_comm_cons in Hndr. apply NoDup_app in Hndr as (_ & Hd & _). intros Hin. apply (Hd c Hin). left. }
  assert (c ∉ l2 ++ [root_]) as Hc2.
  { rewrite elem_of_app. intros [Hin| ->%list_elem_of_singleton]; [|apply Hc1; left]. apply NoDup_app in Hnh as (_ & _ & [? _]%NoDup_cons). done. }
  assert (linked_column h c n) as Hlc.
  { pose proof (hd_or_elem root_ l2). pose proof (last_or_elem root_ l1). constructor; rewrite ?Er, ?El'; congruence. }
  exists (without_column n h). split; [by apply unlink_column_eq|]. split; [|by apply relink_column_eq].
  assert (Hm : minus (l1 ++ c :: l2) c = l1 ++ l2) by (apply filter_ne_mid; done). rewrite Hm.
  assert (forall x, fld up (without_column n h) x = fld up h x /\ fld down (without_column n h) x = fld down h x /\
    fld col (without_column n h) x = fld col h x /\ fld name (without_column n h) x = fld name h x /\ fld size_ (without_column n h) x = fld size_ h x) as Hsame.
  { intros x. unfold without_column. by rewrite !fld_alter_other by done. }
  assert (forall x, x <> left n -> fld right (without_column n h) x = fld right h x) as Hright.
  { intros x Hx. unfold without_column. rewrite fld_alter_ne by done. by rewrite fld_alter_other by done. }
  assert (forall x, x <> right n -> fld left (without_column n h) x = fld left h x) as Hleft.
  { intros x Hx. unfold without_column. rewrite fld_alter_other by done. by rewrite fld_alter_ne by done. }
  assert (forall x, x ∉ root_ :: l1 ++ l2 -> x <> left n /\ x <> right n) as Hout.
  { intros x Hx. rewrite Er, El'. split; intros ->; apply Hx.
    - pose proof (last_or_elem root_ l1) as Hin. rewrite app_comm_cons. apply elem_of_app. by left.
    - pose proof (hd_or_elem root_ l2) as [Hin| ->%list_elem_of_singleton]%elem_of_app; [|left]. right. apply elem_of_app. by right. }
  apply fld_get in Hrl as (nr & Enr & _), Hlr as (nl & Enl & _). constructor.
  - apply (ring_remove right left h (without_column n h) root_ l1 c l2); try done; rewrite <- ?Er, <- ?El'; [..|done|done].
    + unfold without_column. apply fld_alter_eq; [|done]. rewrite alter_some, El'. done.
    + unfold without_column. rewrite fld_alter_other by done. apply fld_alter_eq; [|done]. by rewrite Er.
  - intros c' Hc'. assert (c' ∉ root_ :: l1 ++ l2) as Hn.
    { intros [->|Hin]%elem_of_cons; [apply (root_not_column root_); [apply Hcols, elem_of_app; by right|done]|].
      apply (Hdis c'); [|done]. apply elem_of_app in Hin as [?|?]; apply elem_of_app; [by left|right; by right]. }
    destruct (Hout c' Hn). rewrite Hright, Hleft by done. by apply Hlone.
  - intros c' Hc'. eapply ring_frame; [by apply Hcol|]. intros x _. by destruct (Hsame x) as (-> & -> & _).
  - intros c' Hc'. destruct (Hsame c') as (_ & _ & _ & _ & ->). by apply Hsize.
  - intros R1 r R2 HR'. eapply ring_frame; [by apply Hrows|]. intros x Hx.
    assert (x ∈ concat rows) as Hxr.
    { apply list_elem_of_In, in_concat. exists (R1 ++ r :: R2). split; [by apply list_elem_of_In|]. apply list_elem_of_In.
      apply elem_of_cons in Hx as [->|[?|?]%elem_of_app]; apply elem_of_app; [right; left|right; by right|by left]. }
    assert (x ∉ root_ :: l1 ++ l2) as Hn.
    { intros [->|Hin]%elem_of_cons; [by apply (root_not_node root_)|]. apply (node_not_column x x); [done| |done]. apply Hcols.
      apply elem_of_app. left. apply elem_of_app in Hin as [?|?]; apply elem_of_app; [by left|right; by right]. }
    destruct (Hout x Hn). by rewrite Hright, Hleft by done.
  - intros m Hm'. destruct (Hsame m) as (_ & _ & -> & -> & _). by apply Hcolof.
Qed.

(** ** Lemmas: cover *)

Definition same_row (x r : addr) : Prop := Exists (fun R => x ∈ R /\ r ∈ R) rows.

Lemma in_rows R x : R ∈ rows -> x ∈ R -> x ∈ concat rows.
Proof. intros HR Hx. apply list_elem_of_In, in_concat. exists R. split; by apply list_elem_of_In. Qed.

Lemma rows_disjoint R R' x : R ∈ rows -> R' ∈ rows -> x ∈ R -> x ∈ R' -> R = R'.
Proof.
  pose proof rows_NoDup as Hnd. induction rows as [|R0 rs IH]; [by intros ?%not_elem_of_nil|]. cbn [concat] in Hnd.
  apply NoDup_app in Hnd as (_ & Hd & Hnd). assert (forall R, R ∈ rs -> x ∈ R -> x ∈ concat rs) as Hin.
  { intros R1 HR1 Hx. apply list_elem_of_In, in_concat. exists R1. split; by apply list_elem_of_In. }
  intros [->|HR]%elem_of_cons [->|HR']%elem_of_cons Hx Hx'; [done| | |by apply IH]; exfalso.
  - apply (Hd x Hx). by apply (Hin R').
  - apply (Hd x Hx'). by apply (Hin R).
Qed.

Lemma row_NoDup R : R ∈ rows -> NoDup R.
Proof. intros HR. destruct (row_columns M R HR) as [_ Hnd]. by apply NoDup_fmap_1 in Hnd. Qed.

Lemma row_inj R x y : R ∈ rows -> x ∈ R -> y ∈ R -> colof x = colof y -> x = y.
Proof.
  intros HR Hx Hy E. destruct (row_columns M R HR) as [_ Hnd]. apply list_elem_of_lookup in Hx as [i Hi], Hy as [j Hj].
  assert (i = j) as ->; [|congruence]. rewrite NoDup_alt in Hnd. apply (Hnd i j (colof x)); rewrite list_lookup_fmap; [by rewrite Hi|by rewrite Hj, E].
Qed.

Lemma same_row_in R x r : R ∈ rows -> r ∈ R -> same_row x r <-> x ∈ R.
Proof.
  intros HR Hr. unfold same_row. rewrite Exists_exists. split.
  - intros (R' & HR' & Hx & Hr'). by rewrite (rows_disjoint R R' r).
  - intros Hx. by exists R.
Qed.

(** In a row, and taken out of the columns because of one of [l]. *)
Definition touched (l : list addr) (x : addr) : Prop := Exists (fun r => x <> r /\ same_row x r) l.

Definition outside (l A : list addr) : list addr := filter (fun x => x ∉ l) A.
Definition untouched (l A : list addr) : list addr := filter (fun x => ~ touched l x) A.

Lemma outside_nil A : outside [] A = A.
Proof. unfold outside. induction A as [|x A IH]; [done|]. rewrite filter_cons, decide_True by apply not_elem_of_nil. by rewrite IH. Qed.

Lemma outside_snoc l y A : outside (l ++ [y]) A = filter (fun x => x <> y) (outside l A).
Proof.
  unfold outside. rewrite list_filter_filter. apply filter_ext_in. intros x _. rewrite not_elem_of_app, list_elem_of_singleton. tauto.
Qed.

Lemma parts_filter hs ls ks A (P : addr -> Prop) `{!forall x, Decision (P x)} : parts hs ls ks A -> parts hs ls ks (filter P A).
Proof. intros [H1 H2 H3 H4]. constructor; [done..|]. etrans; [apply sublist_filter|done]. Qed.

(** The other nodes of the row of [r]. *)
Lemma row_walk hs ls ks A R1 r R2 h :
  parts hs ls ks A -> rep hs ls ks A h -> R1 ++ r :: R2 ∈ rows ->
  (forall x, x ∈ R2 ++ R1 -> x ∈ A /\ colof x ∈ ks) ->
  exists h', for_ring right r unlink_node h = Ok h' /\ rep hs ls ks (outside (R2 ++ R1) A) h' /\ for_ring left r relink_node h' = Ok h.
Proof.
  intros HP HR HRr Hin. assert (NoDup (r :: R2 ++ R1)) as Hnd.
  { pose proof (row_NoDup _ HRr) as Hnd. by rewrite Permutation_app_comm in Hnd. }
  apply (ring_walk right left r (R2 ++ R1) unlink_node relink_node (fun m h => rep hs ls ks (outside m A) h)); [done|by rewrite outside_nil| |].
  - intros m h0 HR0. by apply (rep_rows _ _ _ _ _ HR0).
  - intros m1 y m2 h0 El HR0. rewrite outside_snoc. destruct (Hin y) as [HyA Hyk]; [rewrite El; apply elem_of_app; right; left|].
    apply (unlink_node_rep hs ls ks (outside m1 A)); [by apply parts_filter|done| |done].
    unfold outside. apply list_elem_of_filter. split; [|done]. intros Hy. rewrite El in Hnd. apply NoDup_cons in Hnd as [_ Hnd].
    apply NoDup_app in Hnd as (_ & Hd & _). apply (Hd y Hy). left.
Qed.

Lemma column_walk hs ls ks A c h :
  parts hs ls ks A -> rep hs ls ks A h -> c ∈ ks ->
  (forall r x, r ∈ vcol A c -> same_row x r -> x ∈ A /\ colof x ∈ ks) ->
  exists h', for_ring down c (fun row => for_ring right row unlink_node) h = Ok h' /\
    rep hs ls ks (untouched (vcol A c) A) h' /\ ring down up h' c (vcol A c) /\
    for_ring up c (fun row => for_ring left row relink_node) h' = Ok h.
Proof.
  intros HP HR Hc Hin.
  assert (forall l1, l1 ⊆ vcol A c -> vcol (untouched l1 A) c = vcol A c) as Hsame.
  { intros l1 Hl1. unfold untouched, vcol. rewrite list_filter_filter. apply filter_ext_in. intros x Hx. split; [tauto|]. intros Ex.
    split; [done|]. unfold touched. rewrite Exists_exists. intros (r & Hr & Hne & Hxr). apply Hne.
    apply Exists_exists in Hxr as (R & HRr & HxR & HrR). apply (row_inj R); try done. apply Hl1, vcol_elem in Hr as [-> _]. done. }
  assert (forall l1 h0, l1 ⊆ vcol A c -> rep hs ls ks (untouched l1 A) h0 -> ring down up h0 c (vcol A c)) as Hring.
  { intros l1 h0 Hl1 HR0. pose proof (rep_col _ _ _ _ _ HR0 c Hc) as Hr. by rewrite Hsame in Hr. }
  destruct (ring_walk down up c (vcol A c) (fun row => for_ring right row unlink_node) (fun row => for_ring left row relink_node)
    (fun l1 h => l1 ⊆ vcol A c /\ rep hs ls ks (untouched l1 A) h) h) as (h' & E & [Hsub HR'] & Eu).
  - by apply (vcol_ring_NoDup hs ls ks).
  - split; [by intros x ?%not_elem_of_nil|]. unfold untouched. rewrite (filter_ext_in _ (fun x => x ∉ [])); [by fold (outside [] A); rewrite outside_nil|].
    intros x _. split; [intros _; apply not_elem_of_nil|]. intros _ Ht. by apply Exists_nil in Ht.
  - intros l1 h0 [Hl1 HR0]. by apply (Hring l1).
  - intros l1 y l2 h0 El [Hl1 HR0]. assert (y ∈ vcol A c) as Hy by (rewrite El; apply elem_of_app; right; left).
    pose proof Hy as [Ey HyA]%vcol_elem. pose proof (node_in_rows hs ls ks A HP y HyA) as Hyr.
    apply list_elem_of_In, in_concat in Hyr as (R & HRr & HyR). apply list_elem_of_In in HRr, HyR.
    pose proof HyR as (R1 & R2 & ER)%list_elem_of_split. rewrite ER in HRr, HyR.
    assert (forall x, x ∈ R2 ++ R1 <-> x <> y /\ same_row x y) as Hothers.
    { intros x. rewrite (same_row_in _ x y HRr HyR). pose proof (row_NoDup _ HRr) as Hnd. apply NoDup_app in Hnd as (_ & Hd & [Hy2 _]%NoDup_cons).
      rewrite !elem_of_app, elem_of_cons. split; [|tauto]. intros [Hx|Hx]; (split; [intros ->|tauto]); [done|]. apply (Hd y Hx). left. }
    assert (untouched (l1 ++ [y]) A = outside (R2 ++ R1) (untouched l1 A)) as ->.
    { unfold untouched, outside. rewrite list_filter_filter. apply filter_ext_in. intros x _. unfold touched. rewrite Exists_app, Exists_cons, Exists_nil.
      rewrite Hothers. tauto. }
    destruct (row_walk hs ls ks (untouched l1 A) R1 y R2 h0) as (h1 & E1 & HR1 & Eu1); [by apply parts_filter|done|done| |].
    { intros x Hx%Hothers. destruct (Hin y x Hy) as [HxA Hxk]; [tauto|]. split; [|done]. unfold untouched. apply list_elem_of_filter. split; [|done].
      unfold touched. rewrite Exists_exists. intros (r & Hr & Hne & Hxr). apply Exists_exists in Hxr as (R' & HR' & HxR' & HrR').
      destruct Hx as [Hxy Hsr]. apply (same_row_in _ x y HRr HyR) in Hsr. pose proof (rows_disjoint _ _ x HR' HRr HxR' Hsr) as ->.
      assert (r = y) as ->. { apply (row_inj _ r y HRr); [done|done|]. apply Hl1, vcol_elem in Hr as [-> _]. done. }
      pose proof (vcol_ring_NoDup hs ls ks A HP c Hc) as Hnd. rewrite El in Hnd. apply NoDup_cons in Hnd as [_ Hnd].
      apply NoDup_app in Hnd as (_ & Hd & _). apply (Hd y Hr). left. }
    exists h1. split; [done|]. split; [|done]. split; [|done]. intros x [Hx| ->%list_elem_of_singleton]%elem_of_app; [by apply Hl1|done].
  - exists h'. split; [done|]. split; [done|]. split; [by apply (Hring (vcol A c))|done].
Qed.

(** The state of the search: the columns that are left, in the ring of the
    root and others, and the rows that are left. *)
Definition cols (R : list addr) : list addr := colof <$> R.

Record mat (hs ls : list addr) (rs : list (list addr)) (h : heap) : Prop := {
  mat_parts : parts hs ls (hs ++ ls) (concat rs);
  mat_rep : rep hs ls (hs ++ ls) (concat rs) h;
  mat_rows : sublist rs rows;
  mat_cols R n : R ∈ rs -> n ∈ R -> colof n ∈ hs ++ ls;
  mat_head R : R ∈ rs -> exists n, n ∈ R /\ colof n ∈ hs;
}.

Definition without (c : addr) (rs : list (list addr)) : list (list addr) := filter (fun R => c ∉ cols R) rs.

Lemma elem_of_cols R c : c ∈ cols R <-> exists n, n ∈ R /\ colof n = c.
Proof. unfold cols. rewrite list_elem_of_fmap. split; intros (n & H1 & H2); exists n; done. Qed.

Lemma concat_filter (P : list addr -> Prop) (Q : addr -> Prop) `{!forall R, Decision (P R)} `{!forall x, Decision (Q x)} rs :
  (forall R x, R ∈ rs -> x ∈ R -> P R <-> Q x) -> concat (filter P rs) = filter Q (concat rs).
Proof.
  induction rs as [|R rs IH]; intros HPQ; [done|]. cbn [concat]. rewrite filter_cons, filter_app.
  rewrite <- IH by (intros; apply HPQ; [by right|done]). destruct (decide (P R)) as [HR|HR]; cbn [concat].
  - f_equal. assert (forall x, x ∈ R -> Q x) as HQ by (intros x Hx; apply (HPQ R x); [left|done|done]). clear -HQ.
    induction R as [|x R IH]; [done|]. rewrite filter_cons, decide_True by (apply HQ; left). f_equal. apply IH. intros y Hy. apply HQ. by right.
  - rewrite (filter_none Q R); [done|]. intros x Hx HQ. apply HR, (HPQ R x); [left|done|done].
Qed.

Lemma elem_of_concat (rs : list (list addr)) x : x ∈ concat rs <-> exists R, R ∈ rs /\ x ∈ R.
Proof.
  rewrite list_elem_of_In, in_concat. split; intros (R & H1 & H2); exists R; [by rewrite !list_elem_of_In|by rewrite !list_elem_of_In in *].
Qed.

Lemma rep_weaken hs ls ks ks' A A' h :
  rep hs ls ks A h -> ks' ⊆ ks -> (forall c, c ∈ ks' -> vcol A' c = vcol A c) -> rep hs ls ks' A' h.
Proof.
  intros [H1 H2 H3 H4 H5 H6] Hk HA. constructor; try done; intros c Hc; rewrite HA by done; [apply H3|apply H4]; by apply Hk.
Qed.

Lemma minus_app l l' c : minus (l ++ l') c = minus l c ++ minus l' c.
Proof. apply filter_app. Qed.

Lemma cover_ok hs ls rs c h :
  mat hs ls rs h -> c ∈ hs ++ ls ->
  exists h', cover c h = Ok h' /\ mat (minus hs c) (minus ls c) (without c rs) h' /\ uncover c h' = Ok h /\
    ring down up h' c (vcol (concat rs) c).
Proof.
  intros [HP HR Hsub Hcols Hhead] Hc.
  assert (forall R, R ∈ rs -> R ∈ rows) as Hrows by (intros R HRr; by eapply elem_of_sublist).
  destruct (unlink_column_rep hs ls (hs ++ ls) (concat rs) c h HP HR Hc) as (h1 & E1 & HR1 & Eu1).
  assert (parts (minus hs c) (minus ls c) (hs ++ ls) (concat rs)) as HP1.
  { destruct HP as [A1 A2 A3 A4]. constructor; [|intros x; rewrite <- minus_app|done|done].
    - rewrite <- minus_app. by apply NoDup_filter.
    - intros [_ Hx]%elem_of_minus. by apply A2. }
  destruct (column_walk (minus hs c) (minus ls c) (hs ++ ls) (concat rs) c h1 HP1 HR1 Hc) as (h2 & E2 & HR2 & Hring & Eu2).
  { intros r x [_ Hr]%vcol_elem Hx. apply elem_of_concat in Hr as (R & HRs & HrR). apply (same_row_in R x r (Hrows R HRs) HrR) in Hx.
    split; [apply elem_of_concat; by exists R|by apply (Hcols R)]. }
  exists h2. split; [unfold cover; rewrite E1; exact E2|]. split; [|split; [unfold uncover; rewrite Eu2; exact Eu1|exact Hring]].
  assert (concat (without c rs) = filter (fun x => ~ touched (vcol (concat rs) c) x /\ colof x <> c) (concat rs)) as Econ.
  { apply concat_filter. intros R x HRs Hx. pose proof (Hrows R HRs) as HRr. rewrite elem_of_cols. split.
    - intros Hno. split; [|intros Ex; apply Hno; by exists x]. intros Ht. apply Exists_exists in Ht as (r & [Er Hr]%vcol_elem & Hne & Hsame).
      apply Hno. exists r. split; [|done]. apply Exists_exists in Hsame as (R' & HR' & HxR' & HrR'). by rewrite (rows_disjoint R R' x).
    - intros [Ht Hxc] (r & Hr & Er). apply Ht. apply Exists_exists. exists r. split; [apply vcol_elem; split; [done|apply elem_of_concat; by exists R]|].
      split; [intros ->; done|]. by apply (same_row_in R). }
  constructor.
  - destruct HP1 as [A1 A2 A3 A4]. constructor; [done|done| |].
    + intros x Hx. rewrite <- minus_app in Hx. apply elem_of_minus in Hx as [_ Hx]. by apply A3.
    + rewrite Econ. etrans; [apply sublist_filter|done].
  - eapply rep_weaken; [exact HR2|intros x; rewrite <- minus_app; by intros [_ ?]%elem_of_minus|].
    intros c' Hc'. rewrite <- minus_app in Hc'. apply elem_of_minus in Hc' as [Hne _]. rewrite Econ. unfold untouched, vcol.
    rewrite !list_filter_filter. apply filter_ext_in. intros x _. split; [tauto|]. intros [Ex Ht]. split; [done|]. split; [done|congruence].
  - etrans; [apply sublist_filter|done].
  - intros R n [Hno HRs]%list_elem_of_filter Hn. rewrite <- minus_app. apply elem_of_minus. split; [|by apply (Hcols R)].
    intros E. apply Hno, elem_of_cols. by exists n.
  - intros R [Hno HRs]%list_elem_of_filter. destruct (Hhead R HRs) as (n & Hn & Hnh). exists n. split; [done|]. apply elem_of_minus. split; [|done].
    intros E. apply Hno, elem_of_cols. by exists n.
Qed.

(** ** Lemmas: a row is chosen *)

Definition drop_cols (cs hs : list addr) : list addr := filter (fun c => c ∉ cs) hs.
Definition drop_rows (cs : list addr) (rs : list (list addr)) : list (list addr) := filter (fun R => Forall (fun c => c ∉ cols R) cs) rs.

Lemma drop_cols_snoc cs c hs : drop_cols (cs ++ [c]) hs = minus (drop_cols cs hs) c.
Proof. apply outside_snoc. Qed.

Lemma drop_rows_snoc cs c rs : drop_rows (cs ++ [c]) rs = without c (drop_rows cs rs).
Proof. unfold drop_rows, without. rewrite list_filter_filter. apply filter_ext_in. intros R _. rewrite Forall_app, Forall_singleton. tauto. Qed.

Lemma drop_cols_one c hs : drop_cols [c] hs = minus hs c.
Proof. unfold drop_cols, minus. apply filter_ext_in. intros x _. rewrite list_elem_of_singleton. tauto. Qed.

Lemma drop_rows_one c rs : drop_rows [c] rs = without c rs.
Proof. unfold drop_rows, without. apply filter_ext_in. intros R _. by rewrite Forall_singleton. Qed.

Lemma drop_perm cs cs' hs rs : cs ≡ₚ cs' -> drop_cols cs hs = drop_cols cs' hs /\ drop_rows cs rs = drop_rows cs' rs.
Proof.
  intros Hp. split; apply filter_ext_in; intros x _; [by rewrite Hp|]. by rewrite Hp.
Qed.

Lemma cover_row_ok hs ls rs R1 r R2 h :
  R1 ++ r :: R2 ∈ rows -> mat (minus hs (colof r)) (minus ls (colof r)) (without (colof r) rs) h ->
  (forall n, n ∈ R1 ++ r :: R2 -> colof n ∈ hs ++ ls) ->
  exists h', for_ring right r cover_col h = Ok h' /\
    mat (drop_cols (cols (R1 ++ r :: R2)) hs) (drop_cols (cols (R1 ++ r :: R2)) ls) (drop_rows (cols (R1 ++ r :: R2)) rs) h' /\
    for_ring left r uncover_col h' = Ok h.
Proof.
  intros HRr HM Hin. set (c := colof r) in *.
  assert (R1 ++ r :: R2 ≡ₚ r :: R2 ++ R1) as Hperm by (rewrite Permutation_app_comm; done).
  assert (cols (R1 ++ r :: R2) ≡ₚ c :: cols (R2 ++ R1)) as Hpc by (unfold cols; by rewrite Hperm).
  destruct (drop_perm _ _ hs rs Hpc) as [-> ->]. destruct (drop_perm _ _ ls rs Hpc) as [-> _].
  assert (NoDup (c :: cols (R2 ++ R1))) as Hndc by (rewrite <- Hpc; by destruct (row_columns M _ HRr)).
  destruct (ring_walk right left r (R2 ++ R1) cover_col uncover_col
    (fun m h => mat (drop_cols (c :: cols m) hs) (drop_cols (c :: cols m) ls) (drop_rows (c :: cols m) rs) h) h) as (h' & E & HM' & Eu).
  - rewrite <- Hperm. by apply row_NoDup.
  - cbn. rewrite !drop_cols_one, drop_rows_one. done.
  - intros m h0 HM0. by apply (rep_rows _ _ _ _ _ (mat_rep _ _ _ _ HM0)).
  - intros m1 y m2 h0 El HM0. unfold cols. rewrite fmap_app. cbn. rewrite app_comm_cons. rewrite !drop_cols_snoc, drop_rows_snoc.
    assert (y ∈ R1 ++ r :: R2) as Hy. { rewrite Hperm, El. right. apply elem_of_app. right. left. }
    pose proof (rep_colof _ _ _ _ _ (mat_rep _ _ _ _ HM0) y (in_rows _ _ HRr Hy)) as [Hcol _]. apply fld_get in Hcol as (n & _ & Eg & En).
    destruct (cover_ok _ _ _ (colof y) h0 HM0) as (h1 & E1 & HM1 & Eu1 & _).
    { unfold drop_cols. rewrite <- filter_app. apply list_elem_of_filter. split; [|by apply Hin].
      rewrite El in Hndc. unfold cols in Hndc. rewrite fmap_app, app_comm_cons in Hndc. apply NoDup_app in Hndc as (_ & Hd & _). intros Hc. apply (Hd _ Hc). left. }
    exists h1. split; [unfold cover_col; rewrite Eg; cbn [mbind outcome_bind]; by rewrite En|]. split; [done|].
    pose proof (rep_colof _ _ _ _ _ (mat_rep _ _ _ _ HM1) y (in_rows _ _ HRr Hy)) as [Hcol1 _]. apply fld_get in Hcol1 as (n1 & _ & Eg1 & En1).
    unfold uncover_col. rewrite Eg1. cbn [mbind outcome_bind]. by rewrite En1.
  - by exists h'.
Qed.

(** ** Exact covers *)

(** Rows of [rs] with no column in common, which meet every column of [hs]. *)
Record valid_cover (hs : list addr) (rs S : list (list addr)) : Prop := {
  cover_rows R : R ∈ S -> R ∈ rs;
  cover_disjoint : NoDup (concat (cols <$> S));
  cover_all c : c ∈ hs -> c ∈ concat (cols <$> S);
}.

Lemma valid_perm hs rs S S' : S ≡ₚ S' -> valid_cover hs rs S -> valid_cover hs rs S'.
Proof.
  intros Hp [H1 H2 H3]. assert (concat (cols <$> S) ≡ₚ concat (cols <$> S')) as Hc.
  { clear -Hp. induction Hp; cbn; [done|by rewrite IHHp|rewrite !app_assoc; by rewrite (Permutation_app_comm (cols y))|by etrans]. }
  constructor; [intros R; rewrite <- Hp; apply H1|by rewrite <- Hc|intros c; rewrite <- Hc; apply H3].
Qed.

Lemma elem_of_cover S c : c ∈ concat (cols <$> S) <-> exists R, R ∈ S /\ c ∈ cols R.
Proof.
  rewrite elem_of_concat. split.
  - intros (C & (R & -> & HR)%list_elem_of_fmap & Hc). by exists R.
  - intros (R & HR & Hc). exists (cols R). split; [|done]. by apply list_elem_of_fmap_2.
Qed.

Lemma valid_cons hs ls rs R S :
  R ∈ rs -> NoDup (cols R) -> (forall R n, R ∈ rs -> n ∈ R -> colof n ∈ hs ++ ls) ->
  valid_cover hs rs (R :: S) <-> valid_cover (drop_cols (cols R) hs) (drop_rows (cols R) rs) S.
Proof.
  intros HR HndR Hin. split; intros [H1 H2 H3].
  - cbn in H2. apply NoDup_app in H2 as (_ & Hd & H2). constructor; [|done|].
    + intros R' HR'. apply list_elem_of_filter. split; [|apply H1; by right]. apply Forall_forall. intros c Hc Hc'. apply (Hd c Hc).
      apply elem_of_cover. by exists R'.
    + intros c [Hc Hch]%list_elem_of_filter. specialize (H3 c Hch). cbn in H3. by apply elem_of_app in H3 as [?|?].
  - constructor.
    + intros R' [->|HR']%elem_of_cons; [done|]. specialize (H1 R' HR'). by apply list_elem_of_filter in H1 as [_ ?].
    + cbn. apply NoDup_app. split; [done|]. split; [|done]. intros c Hc (R' & HR' & Hc')%elem_of_cover.
      specialize (H1 R' HR'). apply list_elem_of_filter in H1 as [Hf _]. rewrite Forall_forall in Hf. by apply (Hf c).
    + intros c Hc. cbn. apply elem_of_app. destruct (decide (c ∈ cols R)) as [?|Hn]; [by left|right]. apply H3, list_elem_of_filter. done.
Qed.

(** No two are the same up to order. *)
Fixpoint distinct (Ss : list (list (list addr))) : Prop :=
  match Ss with [] => True | C :: Ss => (forall S', S' ∈ Ss -> ~ C ≡ₚ S') /\ distinct Ss end.

Lemma distinct_app Ss Ss' : distinct Ss -> distinct Ss' -> (forall S S', S ∈ Ss -> S' ∈ Ss' -> ~ S ≡ₚ S') -> distinct (Ss ++ Ss').
Proof.
  intros Hs Hs' Hd. induction Ss as [|S Ss IH]; [done|]. destruct Hs as [H1 H2]. split.
  - intros S' [HS|HS]%elem_of_app; [by apply H1|]. apply Hd; [left|done].
  - apply IH; [done|]. intros S1 S2 HS1. apply Hd. by right.
Qed.

Lemma distinct_cons R Ss : distinct Ss -> distinct (cons R <$> Ss).
Proof.
  induction Ss as [|S Ss IH]; [done|]. intros [H1 H2]. split; [|by apply IH]. intros S' (S0 & -> & HS0)%list_elem_of_fmap Hp.
  apply Permutation_cons_inv in Hp. by apply (H1 S0).
Qed.

(** [Ss] are the exact covers of the matrix, each once. *)
Record all_covers (hs : list addr) (rs : list (list addr)) (Ss : list (list (list addr))) : Prop := {
  covers_valid S : S ∈ Ss -> valid_cover hs rs S;
  covers_complete S : valid_cover hs rs S -> exists S', S' ∈ Ss /\ S' ≡ₚ S;
  covers_distinct : distinct Ss;
}.

(** [stack_] holds a node of each row. *)
Definition picks (ns : list addr) (S : list (list addr)) : Prop := Forall2 (fun n R => n ∈ R) ns S.

(** ** Lemmas: search *)

Lemma min_loop_ok hs ls rs h l2 l1 c m fuel :
  mat hs ls rs h -> hs = l1 ++ l2 -> c ∈ hs -> (length l2 < fuel)%nat ->
  exists c', min_loop fuel (hd_or root_ l2) c m h = Ok c' /\ c' ∈ hs.
Proof.
  intros HM. pose proof (mat_rep _ _ _ _ HM) as [Hhead _ _ Hsize _ _]. pose proof (mat_parts _ _ _ _ HM) as [_ Hcols _ _].
  induction l2 as [|x l2 IH] in l1, c, m, fuel |- *; intros El Hc Hf; (destruct fuel as [|fuel]; [lia|]); cbn [min_loop hd_or].
  - rewrite Z.eqb_refl. by exists c.
  - assert (x ∈ hs) as Hx by (rewrite El; apply elem_of_app; right; left).
    rewrite (proj2 (Z.eqb_neq x root_)) by (apply root_not_column, Hcols, elem_of_app; by left).
    pose proof Hhead as Hh. rewrite El in Hh. apply ring_at in Hh as (Hr & _). apply fld_get in Hr as (n & _ & Eg & En). rewrite Eg. cbn [mbind outcome_bind]. rewrite En.
    assert (hs = (l1 ++ [x]) ++ l2) as El' by by rewrite <- app_assoc.
    destruct (size_ n <? m); [destruct (size_ n <=? 1); [by exists x|]|]; apply (IH (l1 ++ [x])); (done || (cbn in Hf; lia)).
Qed.

Lemma get_min_ok hs ls rs h : mat hs ls rs h -> hs <> [] -> exists c, get_min_column h = Ok c /\ c ∈ hs.
Proof.
  intros HM Hne. pose proof (mat_rep _ _ _ _ HM) as [Hhead _ _ Hsize _ _]. destruct hs as [|c hs]; [done|]. unfold get_min_column.
  pose proof (ring_ends _ _ _ _ _ Hhead) as [Hr _]. apply fld_get in Hr as (r & _ & Er & Err). rewrite Er. cbn [mbind outcome_bind]. rewrite Err. cbn [hd_or].
  pose proof Hhead as Hc. change (c :: hs) with ([] ++ c :: hs) in Hc. apply ring_at in Hc as (Hc & _). apply fld_get in Hc as (n & _ & En & Enr).
  rewrite En. cbn [mbind outcome_bind]. rewrite Enr. destruct (1 <? size_ n); [|exists c; split; [done|left]].
  apply (min_loop_ok (c :: hs) ls rs h hs [c]); [done|done|left|]. unfold ring_fuel. pose proof (mat_parts _ _ _ _ HM) as [Hnd _ _ _].
  apply NoDup_app in Hnd as [Hnd _]. pose proof (ring_short _ _ _ _ _ Hhead Hnd) as Hs. cbn in Hs. lia.
Qed.

Section search_ok.
Context {St : Type} (leaf : heap -> list addr -> St -> outcome (bool * St)) (leaf0 : list addr -> St -> outcome (bool * St)).
Hypothesis leaf_ok : forall ls rs h ns s, mat [] ls rs h -> (forall n, n ∈ ns -> n ∈ concat rows) -> leaf h ns s = leaf0 ns s.

(** What the search does with the exact covers, one after the other. *)
Fixpoint visit (Ls : list (list addr)) (s : St) : outcome (bool * St) :=
  match Ls with
  | [] => Ok (false, s)
  | ns :: Ls => '(b, s) ← leaf0 ns s; if (b : bool) then Ok (true, s) else visit Ls s
  end.

Lemma visit_app Ls Ls' s : visit (Ls ++ Ls') s = ('(b, s) ← visit Ls s; if (b : bool) then Ok (true, s) else visit Ls' s).
Proof.
  induction Ls as [|ns Ls IH] in s |- *; [done|]. cbn [visit app]. destruct (leaf0 ns s) as [[[] s']|w]; [done| |done]. cbn [mbind outcome_bind]. apply IH.
Qed.

(** The search either ends, or puts everything back. *)
Definition search_result (m : outcome (bool * heap * St)) (h : heap) (v : outcome (bool * St)) : Prop :=
  match v with
  | Ok (true, s) => exists h', m = Ok (true, h', s)
  | Ok (false, s) => m = Ok (false, h, s)
  | Fail w => m = Fail w
  end.

(** The covers that contain a row with a node of [l]. *)
Record covers_through (hs : list addr) (rs : list (list addr)) (l : list addr) (Ss : list (list (list addr))) : Prop := {
  through_valid S : S ∈ Ss -> valid_cover hs rs S /\ exists r R S', r ∈ l /\ r ∈ R /\ S = R :: S';
  through_complete r R S : r ∈ l -> r ∈ R -> valid_cover hs rs (R :: S) -> exists S', S' ∈ Ss /\ S' ≡ₚ R :: S;
  through_distinct : distinct Ss;
}.

Definition solves (m : list addr -> St -> outcome (bool * heap * St)) (h : heap) (Ls : list (list addr)) (Ss : list (list (list addr))) : Prop :=
  Forall2 picks Ls Ss /\ forall ns s, (forall n, n ∈ ns -> n ∈ concat rows) -> search_result (m ns s) h (visit ((fun l => ns ++ l) <$> Ls) s).

Lemma covers_cons hs ls rs c r R l Ss1 Ss2 :
  NoDup (r :: l) -> (forall x, x ∈ r :: l -> colof x = c) -> R ∈ rs -> R ∈ rows -> (forall R, R ∈ rs -> R ∈ rows) -> r ∈ R ->
  (forall R n, R ∈ rs -> n ∈ R -> colof n ∈ hs ++ ls) ->
  all_covers (drop_cols (cols R) hs) (drop_rows (cols R) rs) Ss1 -> covers_through hs rs l Ss2 ->
  covers_through hs rs (r :: l) ((cons R <$> Ss1) ++ Ss2).
Proof.
  intros Hnd Hcol HRs HRr Hrows Hr Hin [V1 C1 D1] [V2 C2 D2]. destruct (row_columns M R HRr) as [_ HndR].
  pose proof (fun S => valid_cons hs ls rs R S HRs HndR Hin) as Hvc. constructor.
  - intros S [(S1 & -> & HS1)%list_elem_of_fmap|HS]%elem_of_app.
    + split; [by apply Hvc, V1|]. exists r, R, S1. split; [left|done].
    + destruct (V2 S HS) as [Hv (r' & R' & S' & Hr' & H)]. split; [done|]. exists r', R', S'. split; [by right|done].
  - intros r' R' S Hr' HrR' Hv. apply elem_of_cons in Hr' as [->|Hr'].
    + assert (R' = R) as -> by (apply (rows_disjoint _ _ r); [apply Hrows, (cover_rows _ _ _ Hv); left|done..]).
      apply Hvc in Hv. destruct (C1 S Hv) as (S' & HS' & Hp). exists (R :: S'). split; [|by rewrite Hp]. apply elem_of_app. left. by apply list_elem_of_fmap_2.
    + destruct (C2 r' R' S Hr' HrR' Hv) as (S' & HS' & Hp). exists S'. split; [|done]. apply elem_of_app. by right.
  - apply distinct_app; [by apply distinct_cons|done|]. intros S S' (S1 & -> & HS1)%list_elem_of_fmap HS' Hp.
    destruct (V2 S' HS') as [Hv' (r' & R' & S2 & Hr' & HrR' & ->)].
    assert (R ∈ R' :: S2) as HR by (rewrite <- Hp; left).
    assert (R' ∈ rows) as HRr' by (apply Hrows, (cover_rows _ _ _ Hv'); left).
    apply elem_of_cons in HR as [->|HR].
    + assert (r = r') as ->; [|by apply NoDup_cons in Hnd as [? _]]. apply (row_inj R'); [done..|]. rewrite (Hcol r), (Hcol r'); [done|by right|left].
    + destruct Hv' as [_ Hd _]. cbn in Hd. apply NoDup_app in Hd as (_ & Hd & _). apply (Hd c).
      * apply elem_of_cols. exists r'. split; [done|]. apply Hcol. by right.
      * apply elem_of_cover. exists R. split; [done|]. apply elem_of_cols. exists r. split; [done|]. apply Hcol. left.
Qed.

Lemma try_rows_ok hs ls rs c h h1 fuel l2 l1 :
  mat hs ls rs h -> c ∈ hs -> uncover c h1 = Ok h -> mat (minus hs c) (minus ls c) (without c rs) h1 ->
  ring down up h1 c (vcol (concat rs) c) -> vcol (concat rs) c = l1 ++ l2 ->
  (forall hs' ls' rs' h', mat hs' ls' rs' h' -> (length hs' < length hs)%nat ->
    exists Ls Ss, all_covers hs' rs' Ss /\ solves (solve leaf fuel h') h' Ls Ss) ->
  exists Ls Ss, covers_through hs rs l2 Ss /\
    forall fuel', (length l2 < fuel')%nat -> solves (try_rows (solve leaf fuel) c fuel' (hd_or c l2) h1) h Ls Ss.
Proof.
  intros HM Hc Hun HM1 Hring El IH. pose proof (mat_parts _ _ _ _ HM) as HP. pose proof (mat_cols _ _ _ _ HM) as Hcols.
  assert (forall R, R ∈ rs -> R ∈ rows) as Hrows by (intros R HRr; eapply elem_of_sublist; [done|by apply (mat_rows _ _ _ _ HM)]).
  assert (NoDup (c :: vcol (concat rs) c)) as Hnd by (apply (vcol_ring_NoDup hs ls (hs ++ ls)); [done|apply elem_of_app; by left]).
  induction l2 as [|r l2 IHl] in l1, El |- *.
  - exists [], []. split; [constructor; [by intros ? ?%not_elem_of_nil|by intros ? ? ? ?%not_elem_of_nil|done]|].
    intros [|fuel'] Hf; [lia|]. split; [constructor|]. intros ns s _. cbn. rewrite Z.eqb_refl, Hun. done.
  - destruct (IHl (l1 ++ [r])) as (Ls2 & Ss2 & Hthrough & Hsolves2); [by rewrite <- app_assoc|].
    assert (r ∈ vcol (concat rs) c) as Hr by (rewrite El; apply elem_of_app; right; left).
    pose proof Hr as [Ec Hrc]%vcol_elem. apply elem_of_concat in Hrc as (R & HRs & HrR). pose proof (Hrows R HRs) as HRr.
    pose proof HrR as (R1 & R2 & ER)%list_elem_of_split. rewrite ER in HRr. rewrite <- Ec in HM1.
    destruct (cover_row_ok hs ls rs R1 r R2 h1 HRr HM1) as (h2 & E2 & HM2 & Eu2); [intros n Hn; apply (Hcols R); [done|by rewrite ER]|].
    rewrite <- ER in HRr, HM2. destruct (IH _ _ _ _ HM2) as (Ls1 & Ss1 & Hcov1 & [Hpick1 Hsol1]).
    { clear -Hc HrR Ec. unfold drop_cols. apply list_elem_of_split in Hc as (a & b & ->).
      rewrite filter_app, filter_cons, decide_False, !length_app by (intros Hno; apply Hno, elem_of_cols; by exists r). cbn.
      pose proof (length_filter (fun c => c ∉ cols R) a). pose proof (length_filter (fun c => c ∉ cols R) b). lia. }
    exists ((cons r <$> Ls1) ++ Ls2), ((cons R <$> Ss1) ++ Ss2). split.
    { apply (covers_cons hs ls rs c); try done; rewrite El in Hnd.
      - apply NoDup_cons in Hnd as [_ Hnd]. by apply NoDup_app in Hnd as (_ & _ & ?).
      - intros x Hx. assert (x ∈ vcol (concat rs) c) as [? _]%vcol_elem; [|done]. rewrite El. apply elem_of_app. by right. }
    intros [|fuel'] Hf; [lia|]. destruct (Hsolves2 fuel') as [Hpick2 Hsol2]; [cbn in Hf; lia|]. split.
    { apply Forall2_app; [|done]. apply Forall2_fmap. eapply Forall2_impl; [exact Hpick1|]. intros a b Hab. by constructor. }
    intros ns s Hns. cbn [try_rows hd_or]. assert (r <> c) as Hrc by (intros ->; by apply NoDup_cons in Hnd as [? _]).
    rewrite (proj2 (Z.eqb_neq r c)) by done. rewrite E2. cbn [mbind outcome_bind]. rewrite fmap_app, visit_app.
    assert ((fun l => ns ++ l) <$> (cons r <$> Ls1) = (fun l => (ns ++ [r]) ++ l) <$> Ls1) as ->.
    { rewrite <- list_fmap_compose. apply list_fmap_ext. intros ? l _. cbn. by rewrite <- app_assoc. }
    specialize (Hsol1 (ns ++ [r]) s).
    assert (forall n, n ∈ ns ++ [r] -> n ∈ concat rows) as Hns' by (intros n [?| ->%list_elem_of_singleton]%elem_of_app; [by apply Hns|by apply (in_rows R)]).
    specialize (Hsol1 Hns'). destruct (visit _ s) as [[[] s']|w]; cbn [search_result mbind outcome_bind] in *.
    + destruct Hsol1 as (h' & ->). by exists h'.
    + rewrite Hsol1. cbn [mbind outcome_bind]. rewrite Eu2. cbn [mbind outcome_bind].
      rewrite El in Hring. apply ring_at in Hring as (Hdn & _). apply fld_get in Hdn as (n & _ & Eg & En). rewrite Eg. cbn [mbind outcome_bind]. rewrite En. by apply Hsol2.
    + by rewrite Hsol1.
Qed.

Lemma solve_ok fuel hs ls rs h :
  mat hs ls rs h -> (length hs < fuel)%nat -> exists Ls Ss, all_covers hs rs Ss /\ solves (solve leaf fuel h) h Ls Ss.
Proof.
  induction fuel as [|fuel IH] in hs, ls, rs, h |- *; intros HM Hf; [lia|].
  pose proof (mat_rep _ _ _ _ HM) as [Hhead _ _ _ _ _]. pose proof (ring_ends _ _ _ _ _ Hhead) as [_ Hl].
  apply fld_get in Hl as (r & _ & Er & Erl). destruct (decide (hs = [])) as [->|Hne].
  - exists [[]], [[]]. split.
    + assert (rs = []) as Hrs.
      { destruct rs as [|R rs]; [done|]. destruct (mat_head _ _ _ _ HM R) as (n & _ & Hn); [left|]. by apply not_elem_of_nil in Hn. }
      constructor.
      * intros S ->%list_elem_of_singleton. constructor; [by intros ? ?%not_elem_of_nil|constructor|by intros ? ?%not_elem_of_nil].
      * intros S [H1 _ _]. exists []. split; [left|]. destruct S as [|R S]; [done|]. specialize (H1 R ltac:(left)). rewrite Hrs in H1. by apply not_elem_of_nil in H1.
      * cbn. split; [|done]. by intros ? ?%not_elem_of_nil.
    + split; [repeat constructor|]. intros ns s Hns. cbn [solve]. rewrite Er. cbn [mbind outcome_bind]. rewrite Erl. cbn. rewrite (leaf_ok _ _ _ _ _ HM Hns), app_nil_r.
      destruct (leaf0 ns s) as [[[] s']|w]; cbn; [by eexists|done|done].
  - destruct (get_min_ok hs ls rs h HM Hne) as (c & Emin & Hc).
    destruct (cover_ok hs ls rs c h HM) as (h1 & E1 & HM1 & Eu & Hring); [apply elem_of_app; by left|].
    destruct (try_rows_ok hs ls rs c h h1 fuel (vcol (concat rs) c) [] HM Hc Eu HM1 Hring) as (Ls & Ss & [V C D] & Hsol); [done| |].
    { intros hs' ls' rs' h' HM' Hlt. apply (IH hs' ls' rs'); [done|lia]. }
    exists Ls, Ss. split.
    + constructor; [by intros S [? _]%V| |done]. intros S HS. pose proof (cover_all _ _ _ HS c Hc) as (R & HR & (r' & HrR & Er')%elem_of_cols)%elem_of_cover.
      pose proof HR as (S1 & S2 & ES)%list_elem_of_split. assert (S ≡ₚ R :: S1 ++ S2) as Hp by (rewrite ES; by rewrite Permutation_middle).
      destruct (C r' R (S1 ++ S2)) as (S' & HS' & Hp'); [|done|by apply (valid_perm hs rs S)|exists S'; split; [done|by rewrite Hp', Hp]].
      apply vcol_elem. split; [done|]. apply elem_of_concat. exists R. split; [|done]. by apply (cover_rows _ _ _ HS).
    + assert (length (vcol (concat rs) c) < ring_fuel h1)%nat as Hlen.
      { unfold ring_fuel. pose proof (ring_short _ _ _ _ _ Hring). assert (NoDup (vcol (concat rs) c)) as Hnd; [|specialize (H Hnd); lia].
        apply NoDup_filter. apply (nodes_NoDup hs ls (hs ++ ls)). by apply (mat_parts _ _ _ _ HM). }
      destruct (Hsol _ Hlen) as [Hpick Hs]. split; [done|]. intros ns s Hns. cbn [solve]. rewrite Er. cbn [mbind outcome_bind]. rewrite Erl.
      assert (last_or root_ hs <> root_) as Hlast.
      { intros E. destruct (ring_ends _ _ _ _ _ Hhead) as [_ _]. destruct hs as [|x hs _] using rev_ind; [done|]. rewrite last_or_snoc in E. subst x.
        pose proof (mat_parts _ _ _ _ HM) as [_ Hcs _ _]. apply (root_not_column root_); [|done]. apply Hcs, elem_of_app. left. apply elem_of_app. right. left. }
      rewrite (proj2 (Z.eqb_neq _ _)) by done. rewrite Emin. cbn [mbind outcome_bind]. rewrite E1. cbn [mbind outcome_bind].
      apply ring_ends in Hring as [Hd _]. apply fld_get in Hd as (n & _ & Eg & En). rewrite Eg. cbn [mbind outcome_bind]. rewrite En. by apply Hs.
Qed.
End search_ok.
End matrix.

(** ** Lemmas: building *)

(** An element of one of the parts of a list. *)
Ltac search_list :=
  first [assumption | apply list_elem_of_here | apply elem_of_app; left; search_list | apply elem_of_app; right; search_list | apply list_elem_of_further; search_list].
Ltac in_parts :=
  try (intros ? ?); rewrite ?fmap_app;
  first
    [ search_list
    | match goal with
      | H : ?x ∈ _ :: _ |- ?x ∈ _ => apply elem_of_cons in H as [H|H]; [rewrite H|]; in_parts
      | H : ?x ∈ _ ++ _ |- ?x ∈ _ => apply elem_of_app in H as [H|H]; in_parts
      | H : ?x ∈ _ <$> _ ++ _ |- ?x ∈ _ => rewrite fmap_app in H; in_parts
      | H : ?x = _ |- ?x ∈ _ => rewrite H; in_parts
      end ].
Ltac in_list := first [in_parts | set_solver].

(** A row that was put in the place of another one, and the rest. *)
Lemma replaced_row {A} (rs rest : list A) (R B : A) : B ∈ rs ++ R :: rest -> B = R \/ B ∈ rs ++ rest.
Proof. rewrite !elem_of_app, elem_of_cons. tauto. Qed.
Lemma other_row {A} (rs rest : list A) (R R' B : A) : B ∈ rs ++ rest -> B ∈ rs ++ R :: R' :: rest.
Proof. rewrite !elem_of_app, !elem_of_cons. tauto. Qed.

Lemma ring_rotate nx pv h c l1 y l2 : ring nx pv h c (l1 ++ y :: l2) -> ring nx pv h y (l2 ++ c :: l1).
Proof.
  unfold ring. assert (c :: (l1 ++ y :: l2) ++ [c] = (c :: l1) ++ y :: (l2 ++ [c])) as -> by by rewrite <- app_assoc.
  assert (y :: (l2 ++ c :: l1) ++ [y] = (y :: l2) ++ c :: (l1 ++ [y])) as -> by by rewrite <- app_assoc.
  rewrite (pairs_split (c :: l1) y), (pairs_split (y :: l2) c), !Forall_app. cbn [app]. tauto.
Qed.

(** What linking [y] before [o] in a row, or above it in a column, changes. *)
Definition linked_in (nx pv : Node -> addr) (h h' : heap) (o p y : addr) : Prop :=
  fld nx h' p = Some y /\ fld pv h' y = Some p /\ fld nx h' y = Some o /\ fld pv h' o = Some y /\
  (forall x, x <> p -> x <> y -> fld nx h' x = fld nx h x) /\ (forall x, x <> o -> x <> y -> fld pv h' x = fld pv h x).

Lemma put_left_ok h o p y :
  fld left h o = Some p -> is_Some (h !! p) -> is_Some (h !! y) -> y <> o -> y <> p ->
  exists h', put_left o y h = Ok h' /\ linked_in right left h h' o p y /\
    (forall x, fld up h' x = fld up h x /\ fld down h' x = fld down h x /\ fld col h' x = fld col h x /\ fld name h' x = fld name h x /\ fld size_ h' x = fld size_ h x) /\
    (forall x, is_Some (h' !! x) <-> is_Some (h !! x)).
Proof.
  intros Ho Hp Hy Hyo Hyp. apply fld_get in Ho as (no & Eno & Ego & Elo).
  assert (put_left o y h = Ok (alter (set_left y) o (alter (set_right y) p (alter (set_right o) y (alter (set_left p) y h))))) as E.
  { unfold put_left. rewrite Ego. cbn [mbind outcome_bind]. rewrite Elo, put_ok by done. cbn [mbind outcome_bind].
    rewrite put_ok by (by rewrite alter_some). cbn [mbind outcome_bind]. rewrite (get_eq _ _ no) by (by rewrite !lookup_alter_ne). cbn [mbind outcome_bind].
    rewrite Elo, put_ok by (by rewrite !alter_some). cbn [mbind outcome_bind]. by rewrite put_ok by (rewrite !alter_some; done). }
  eexists. split; [exact E|]. split; [|split].
  - split; [|split; [|split; [|split; [|split]]]].
    + rewrite fld_alter_other by done. apply fld_alter_eq; [by rewrite !alter_some|done].
    + rewrite fld_alter_ne by done. rewrite !fld_alter_other by done. by apply fld_alter_eq.
    + rewrite fld_alter_other by done. rewrite fld_alter_ne by done. apply fld_alter_eq; [by rewrite alter_some|done].
    + apply fld_alter_eq; [|done]. by rewrite !alter_some.
    + intros x Hx1 Hx2. rewrite fld_alter_other by done. by rewrite !fld_alter_ne by done.
    + intros x Hx1 Hx2. rewrite fld_alter_ne by done. rewrite !fld_alter_other by done. by rewrite fld_alter_ne by done.
  - intros x. by rewrite !fld_alter_other by done.
  - intros x. by rewrite !alter_some.
Qed.

Lemma put_up_ok h c p r sz :
  fld up h c = Some p -> is_Some (h !! p) -> is_Some (h !! r) -> r <> c -> r <> p -> fld size_ h c = Some sz ->
  exists h', put_up c r h = Ok h' /\ linked_in down up h h' c p r /\ fld size_ h' c = Some (sz + 1) /\ fld col h' r = Some c /\
    (forall x, x <> c -> fld size_ h' x = fld size_ h x) /\ (forall x, x <> r -> fld col h' x = fld col h x) /\
    (forall x, fld left h' x = fld left h x /\ fld right h' x = fld right h x /\ fld name h' x = fld name h x) /\
    (forall x, is_Some (h' !! x) <-> is_Some (h !! x)).
Proof.
  intros Hc Hp Hr Hrc Hrp Hsz. apply fld_get in Hc as (nc & Enc & Egc & Euc). unfold fld in Hsz. rewrite Enc in Hsz. injection Hsz as Hsz.
  assert (put_up c r h = Ok (alter (set_col c) r (alter (add_size 1) c (alter (set_up r) c (alter (set_down r) p (alter (set_down c) r (alter (set_up p) r h))))))) as E.
  { unfold put_up. rewrite Egc. cbn [mbind outcome_bind]. rewrite Euc, put_ok by done. cbn [mbind outcome_bind].
    rewrite put_ok by (by rewrite alter_some). cbn [mbind outcome_bind]. rewrite (get_eq _ _ nc) by (by rewrite !lookup_alter_ne). cbn [mbind outcome_bind].
    rewrite Euc, put_ok by (by rewrite !alter_some). cbn [mbind outcome_bind]. rewrite put_ok by (rewrite !alter_some; done). cbn [mbind outcome_bind].
    rewrite put_ok by (rewrite !alter_some; done). cbn [mbind outcome_bind]. by rewrite put_ok by (rewrite !alter_some; done). }
  eexists. split; [exact E|]. split; [|split; [|split; [|split; [|split; [|split]]]]].
  - split; [|split; [|split; [|split; [|split]]]].
    + rewrite (fld_alter_other down (set_col c)), (fld_alter_other down (add_size 1)), (fld_alter_other down (set_up r)) by done.
      apply fld_alter_eq; [by rewrite !alter_some|done].
    + rewrite (fld_alter_other up (set_col c)) by done. rewrite !fld_alter_ne by done. rewrite (fld_alter_other up (set_down c)) by done. by apply fld_alter_eq.
    + rewrite (fld_alter_other down (set_col c)), (fld_alter_other down (add_size 1)), (fld_alter_other down (set_up r)) by done.
      rewrite fld_alter_ne by done. apply fld_alter_eq; [by rewrite alter_some|done].
    + rewrite (fld_alter_other up (set_col c)), (fld_alter_other up (add_size 1)) by done. apply fld_alter_eq; [by rewrite !alter_some|done].
    + intros x Hx1 Hx2. rewrite (fld_alter_other down (set_col c)), (fld_alter_other down (add_size 1)), (fld_alter_other down (set_up r)) by done.
      by rewrite !fld_alter_ne by done.
    + intros x Hx1 Hx2. rewrite (fld_alter_other up (set_col c)), (fld_alter_other up (add_size 1)) by done. rewrite fld_alter_ne by done.
      rewrite !(fld_alter_other up (set_down _)) by done. by rewrite fld_alter_ne by done.
  - rewrite fld_alter_other by done. unfold fld. rewrite lookup_alter_eq. rewrite lookup_alter_eq.
    assert (is_Some (alter (set_down r) p (alter (set_down c) r (alter (set_up p) r h)) !! c)) as [m Em] by (by rewrite !alter_some).
    rewrite Em. cbn. f_equal. f_equal.
    assert (fld size_ (alter (set_down r) p (alter (set_down c) r (alter (set_up p) r h))) c = Some sz) as Hs.
    { rewrite !fld_alter_other by done. unfold fld. rewrite Enc. cbn. by rewrite Hsz. }
    unfold fld in Hs. rewrite Em in Hs. by injection Hs.
  - apply fld_alter_eq; [|done]. by rewrite !alter_some.
  - intros x Hx. rewrite fld_alter_other by done. rewrite fld_alter_ne by done. by rewrite !fld_alter_other by done.
  - intros x Hx. rewrite fld_alter_ne by done. by rewrite !fld_alter_other by done.
  - intros x. by rewrite !fld_alter_other by done.
  - intros x. by rewrite !alter_some.
Qed.

Definition hcol (h : heap) (p : addr) : addr := default 0 (fld col h p).
Definition hname (h : heap) (p : addr) : Z := default 0 (fld name h p).

(** The node of a column. *)
Definition caddr (d : Dance) (n : Z) : addr := default 0 (default None (columns_ d !! Z.to_nat n)).

(** The structure has the columns [ps] in the ring of the root, the columns
    [ls] outside, and [rows]. *)
Record built (K : Z) (ps ls : list Z) (rows : list (list addr)) (d : Dance) : Prop := {
  b_dom p : is_Some (nodes_ d !! p) <-> 0 <= p < cur_node_ d;
  b_len : zlen (columns_ d) = K;
  b_col n : n ∈ ps ++ ls -> 0 <= n /\ columns_ d !! Z.to_nat n = Some (Some (caddr d n));
  b_free n : 0 <= n < K -> n ∉ ps ++ ls -> columns_ d !! Z.to_nat n = Some None;
  b_matrix : matrix_ok (caddr d <$> ps ++ ls) rows (hcol (nodes_ d));
  b_rep : rep rows (hcol (nodes_ d)) (hname (nodes_ d)) (caddr d <$> ps) (caddr d <$> ls) (caddr d <$> ps ++ ls) (concat rows) (nodes_ d);
  b_names x : x ∈ concat rows -> hname (nodes_ d) x ∈ ps ++ ls /\ hcol (nodes_ d) x = caddr d (hname (nodes_ d) x);
}.

Lemma fld_some {A} (f : Node -> A) h p v : fld f h p = Some v -> is_Some (h !! p).
Proof. intros (n & -> & _)%fld_get. done. Qed.

Lemma matrix_ok_ext cs cs' rows colof colof' :
  cs ≡ₚ cs' -> (forall x, x ∈ concat rows -> colof' x = colof x) -> matrix_ok cs rows colof -> matrix_ok cs' rows colof'.
Proof.
  intros Hp Hc [H1 H2 H3]. constructor; [by rewrite <- Hp| |].
  - intros R HR. destruct (H2 R HR) as [Hne Hnd]. split; [done|]. rewrite (list_fmap_ext _ colof R); [done|]. intros i x Hx. apply Hc.
    apply elem_of_concat. exists R. split; [done|]. by eapply list_elem_of_lookup_2.
  - intros n Hn. rewrite Hc, <- Hp by done. by apply H3.
Qed.

Lemma vcol_ext colof colof' A c : (forall x, x ∈ A -> colof' x = colof x) -> vcol colof' A c = vcol colof A c.
Proof. intros Hc. unfold vcol. apply filter_ext_in. intros x Hx. by rewrite Hc. Qed.

(** Everything in the rings is below [cur_node_]. *)
Lemma built_below K ps ls rows d x : built K ps ls rows d -> x ∈ root_ :: (caddr d <$> ps ++ ls) ++ concat rows -> is_Some (nodes_ d !! x).
Proof.
  intros [_ _ _ _ _ [Hhead _ _ Hsize _ Hcolof] _] [->|[Hx|Hx]%elem_of_app]%elem_of_cons.
  - apply ring_ends in Hhead as [Hh _]. by eapply fld_some.
  - apply Hsize in Hx. by eapply fld_some.
  - apply Hcolof in Hx as [Hx _]. by eapply fld_some.
Qed.

Lemma empty_built K kMaxNodes : 0 < kMaxNodes -> 0 <= K -> exists d, empty_dance kMaxNodes K = Ok d /\ built K [] [] [] d /\ cur_node_ d = 1.
Proof.
  intros Hk HK. unfold empty_dance, new_column. cbn [cur_node_]. rewrite (proj2 (Z.ltb_lt 0 kMaxNodes)) by done.
  cbn [assert_ mbind outcome_bind nodes_ columns_]. eexists. split; [done|]. split; [|done]. constructor; cbn [nodes_ cur_node_ columns_].
  - intros p. destruct (decide (p = 0)) as [->|Hne]; [rewrite lookup_insert_eq; split; [lia|done]|]. rewrite lookup_insert_ne by done. rewrite lookup_empty.
    split; [by intros [? ?]|lia].
  - by apply zlen_replicate.
  - by intros n ?%not_elem_of_nil.
  - intros n Hn _. apply lookup_replicate_2. lia.
  - constructor; cbn; [apply NoDup_singleton|by intros ? ?%not_elem_of_nil|by intros ? ?%not_elem_of_nil].
  - constructor; cbn; try (by intros ? ?%not_elem_of_nil). + repeat constructor. + intros R1 r R2 Hr. by apply not_elem_of_nil in Hr.
  - by intros x ?%not_elem_of_nil.
Qed.

(** ** Lemmas: a column outside the ring *)

Lemma lone_built K ps ls rows d n kMaxNodes :
  built K ps ls rows d -> 0 <= n < K -> n ∉ ps ++ ls -> cur_node_ d < kMaxNodes -> 0 <= cur_node_ d ->
  exists d', lone_column kMaxNodes n d = Ok d' /\ built K ps (ls ++ [n]) rows d' /\ cur_node_ d' = cur_node_ d + 1 /\
    caddr d' n = cur_node_ d /\ (forall x, x ∈ concat rows -> hname (nodes_ d') x = hname (nodes_ d) x).
Proof.
  intros HB Hn Hfree Hcur Hcur0. pose proof HB as [Hdom Hlen Hcol Hf HM HR Hnames]. set (c := cur_node_ d) in *.
  pose proof (Hf n Hn Hfree) as Hnone.
  assert (forall x, x ∈ root_ :: (caddr d <$> ps ++ ls) ++ concat rows -> x <> c) as Hnew.
  { intros x Hx ->. apply (built_below _ _ _ _ _ _ HB), Hdom in Hx. lia. }
  unfold lone_column, columns_at. rewrite (proj2 (Z.leb_le 0 n)) by lia. rewrite Hnone. cbn [from_some mbind outcome_bind]. rewrite bool_decide_true by done.
  cbn [assert_ mbind outcome_bind]. unfold new_column. fold c. rewrite (proj2 (Z.ltb_lt c kMaxNodes)) by done. cbn [assert_ mbind outcome_bind nodes_ cur_node_ columns_].
  set (h' := <[c := mkNode c c c c c n 0]> (nodes_ d)). set (d' := mkDance _ _ _). exists d'.
  assert (forall A (f : Node -> A) x, x <> c -> fld f h' x = fld f (nodes_ d) x) as Hsame.
  { intros A f x Hx. unfold fld, h'. by rewrite lookup_insert_ne. }
  assert (forall A (f : Node -> A), fld f h' c = Some (f (mkNode c c c c c n 0))) as Hown by (intros A f; unfold fld, h'; by rewrite lookup_insert_eq).
  assert (forall x, x ∈ concat rows -> hcol h' x = hcol (nodes_ d) x /\ hname h' x = hname (nodes_ d) x) as Hrows.
  { intros x Hx. unfold hcol, hname. rewrite !Hsame; [done|..]; (apply Hnew; right; apply elem_of_app; by right). }
  assert (caddr d' n = c) as Hcn.
  { unfold caddr, d'. cbn [columns_]. rewrite list_lookup_insert_eq; [done|]. by apply lookup_lt_Some in Hnone. }
  assert (forall m, m ∈ ps ++ ls -> caddr d' m = caddr d m) as Hcm.
  { intros m Hm. destruct (Hcol m Hm) as [Hm0 _]. unfold caddr, d'. cbn [columns_]. rewrite list_lookup_insert_ne; [done|]. intros E.
    assert (m = n) as -> by lia. done. }
  assert (forall l, l ⊆ ps ++ ls -> caddr d' <$> l = caddr d <$> l) as Hcl.
  { intros l Hl. apply list_fmap_ext. intros i m Hm. apply Hcm, Hl. by eapply list_elem_of_lookup_2. }
  assert (caddr d' <$> ps = caddr d <$> ps) as Eps by (apply Hcl; in_list).
  assert (caddr d' <$> ls = caddr d <$> ls) as Els by (apply Hcl; in_list).
  split; [done|]. split; [|split; [done|split; [exact Hcn|intros x Hx; by apply Hrows]]]. constructor; cbn [nodes_ cur_node_ columns_ d']; fold h'.
  - intros p. unfold h'. destruct (decide (p = c)) as [->|Hp]; [rewrite lookup_insert_eq; split; [lia|done]|]. rewrite lookup_insert_ne by done. rewrite Hdom. lia.
  - unfold zlen. by rewrite length_insert.
  - intros m Hm. rewrite app_assoc, elem_of_app, list_elem_of_singleton in Hm. destruct Hm as [Hm| ->].
    + destruct (Hcol m Hm) as [Hm0 Em]. split; [done|]. rewrite (Hcm m Hm), list_lookup_insert_ne; [done|]. intros E. assert (m = n) as -> by lia. done.
    + split; [lia|]. rewrite Hcn, list_lookup_insert_eq; [done|]. by apply lookup_lt_Some in Hnone.
  - intros m Hm Hnm. rewrite app_assoc, not_elem_of_app, not_elem_of_cons in Hnm. destruct Hnm as [Hnm [Hne _]].
    rewrite list_lookup_insert_ne by lia. by apply Hf.
  - apply (matrix_ok_ext (c :: (caddr d <$> ps ++ ls)) _ rows (hcol (nodes_ d))); [|intros x Hx; by apply Hrows|].
    + rewrite !fmap_app. cbn. rewrite Eps, Els, Hcn. symmetry. rewrite (app_assoc (caddr d <$> ps)). apply (Permutation_app_comm _ [c]).
    + destruct HM as [H1 H2 H3]. constructor; [|done|intros x Hx; right; by apply H3].
      rewrite <- app_comm_cons, Permutation_swap. apply NoDup_cons. split; [|done]. intros Hin. by apply (Hnew c).
  - destruct HR as [R1 R2 R3 R4 R5 R6]. rewrite app_assoc, !fmap_app, Eps, Els, <- fmap_app. cbn. rewrite Hcn. constructor.
    + eapply ring_frame; [exact R1|]. intros x Hx. assert (x <> c) by (apply Hnew; in_list). by rewrite !Hsame by done.
    + intros x [Hx| ->%list_elem_of_singleton]%elem_of_app; [|by rewrite !Hown]. assert (x <> c) by (apply Hnew; in_list). rewrite !Hsame by done. by apply R2.
    + intros x [Hx| ->%list_elem_of_singleton]%elem_of_app; rewrite (vcol_ext (hcol (nodes_ d))) by (intros; by apply Hrows).
      * eapply ring_frame; [by apply R3|]. intros y Hy. assert (y <> c) by (apply Hnew; apply elem_of_cons in Hy as [->|Hy]; [in_list|];
          unfold vcol in Hy; apply list_elem_of_filter in Hy as [_ ?]; in_list). by rewrite !Hsame by done.
      * unfold vcol. rewrite filter_none; [|intros x Hx Ex; apply (Hnew c); [|done]; right; apply elem_of_app; left; rewrite <- Ex; by apply (colof_column _ _ _ HM)].
        unfold ring. cbn. rewrite Forall_singleton. by rewrite !Hown.
    + intros x [Hx| ->%list_elem_of_singleton]%elem_of_app; rewrite (vcol_ext (hcol (nodes_ d))) by (intros; by apply Hrows).
      * rewrite Hsame by (apply Hnew; in_list). by apply R4.
      * rewrite Hown. cbn. unfold vcol. rewrite filter_none; [done|]. intros x Hx Ex. apply (Hnew c); [|done]. right. apply elem_of_app. left. rewrite <- Ex. by apply (colof_column _ _ _ HM).
    + intros A r B HAB. eapply ring_frame; [by apply R5|]. intros x Hx. assert (x <> c); [|by rewrite !Hsame by done].
      apply Hnew. right. apply elem_of_app. right. apply elem_of_concat. exists (A ++ r :: B). split; [done|]. in_list.
    + intros x Hx. destruct (Hrows x Hx) as [-> ->]. rewrite !Hsame by (apply Hnew; in_list). by apply R6.
  - intros x Hx. destruct (Hrows x Hx) as [-> ->]. destruct (Hnames x Hx) as [Hin E]. split; [in_list|]. rewrite E. symmetry. by apply Hcm.
Qed.

(** ** Lemmas: a column in the ring *)

Lemma caddr_set_nodes h d n : caddr (set_nodes h d) n = caddr d n.
Proof. done. Qed.

Lemma built_perm K ps ps' ls ls' rows d h' :
  built K ps ls rows d -> ps ++ ls ≡ₚ ps' ++ ls' -> (forall x, is_Some (h' !! x) <-> is_Some (nodes_ d !! x)) ->
  (forall x, fld col h' x = fld col (nodes_ d) x /\ fld name h' x = fld name (nodes_ d) x) ->
  rep rows (hcol h') (hname h') (caddr d <$> ps') (caddr d <$> ls') (caddr d <$> ps' ++ ls') (concat rows) h' ->
  built K ps' ls' rows (set_nodes h' d).
Proof.
  intros [Hdom Hlen Hcol Hf HM HR Hnames] Hp Hsome Hsame HR'.
  assert (forall x, hcol h' x = hcol (nodes_ d) x /\ hname h' x = hname (nodes_ d) x) as Hh.
  { intros x. unfold hcol, hname. by destruct (Hsame x) as [-> ->]. }
  constructor; cbn [nodes_ cur_node_ columns_ set_nodes].
  - intros p. by rewrite Hsome.
  - done.
  - intros n Hn. apply Hcol. by rewrite Hp.
  - intros n Hn Hnin. apply Hf; [done|]. by rewrite Hp.
  - apply (matrix_ok_ext (caddr d <$> ps ++ ls) _ rows (hcol (nodes_ d))); [|intros x _; apply Hh|done].
    change (caddr (set_nodes h' d)) with (caddr d). by rewrite Hp.
  - exact HR'.
  - intros x Hx. destruct (Hh x) as [-> ->]. rewrite <- Hp. by apply Hnames.
Qed.

Lemma adopt_built K ps ls rows d n :
  built K ps (ls ++ [n]) rows d ->
  exists h', put_left root_ (caddr d n) (nodes_ d) = Ok h' /\ built K (ps ++ [n]) ls rows (set_nodes h' d) /\
    (forall x, hname h' x = hname (nodes_ d) x).
Proof.
  intros HB. pose proof HB as [Hdom Hlen Hcol Hf HM HR Hnames]. pose proof HR as [R1 R2 R3 R4 R5 R6]. set (c := caddr d n) in *.
  pose proof (matrix_NoDup _ _ _ HM) as Hnd. rewrite !fmap_app in Hnd. cbn in Hnd. fold c in Hnd.
  apply NoDup_cons in Hnd as [Hroot Hnd]. apply NoDup_app in Hnd as (Hnd & Hdr & _). apply NoDup_app in Hnd as (Hndp & Hdp & Hndl).
  apply NoDup_app in Hndl as (Hndl & Hdl & _).
  assert (c ∉ root_ :: (caddr d <$> ps)) as Hcps.
  { intros [Hc|Hc]%elem_of_cons; [apply Hroot; rewrite <- Hc; in_list|]. apply (Hdp c Hc). in_list. }
  pose proof (ring_ends _ _ _ _ _ R1) as [_ Hl]. set (p := last_or root_ (caddr d <$> ps)) in *.
  pose proof (last_or_elem root_ (caddr d <$> ps)) as Hp. fold p in Hp.
  destruct (put_left_ok (nodes_ d) root_ p c) as (h' & E & (L1 & L2 & L3 & L4 & L5 & L6) & Hsame & Hsome); [exact Hl| | | | |].
  { apply (built_below _ _ _ _ _ _ HB). apply elem_of_cons in Hp as [->|Hp]; [left|]. rewrite fmap_app. in_list. }
  { apply (built_below _ _ _ _ _ _ HB). rewrite fmap_app, fmap_app. right. cbn. fold c. in_list. }
  { intros Hc. apply Hcps. rewrite Hc. left. }
  { intros Hc. apply Hcps. by rewrite Hc. }
  exists h'. split; [exact E|]. split.
  - apply (built_perm K ps (ps ++ [n]) (ls ++ [n]) ls rows d h' HB); [| |intros x; destruct (Hsame x) as (_ & _ & -> & -> & _); done|].
    { rewrite <- !app_assoc. f_equiv. apply Permutation_app_comm. }
    { exact Hsome. }
    assert (forall x, hcol h' x = hcol (nodes_ d) x) as Hh by (intros x; unfold hcol; by destruct (Hsame x) as (_ & _ & -> & _)).
    assert (forall x, x ∈ (caddr d <$> (ps ++ [n]) ++ ls) -> x ∈ (caddr d <$> ps ++ (ls ++ [n]))) as Hin by (intros x; rewrite !fmap_app; in_list).
    constructor.
    + rewrite fmap_app. cbn. fold c. apply (ring_snoc right left (nodes_ d)); try done.
      * apply NoDup_cons. split; [|done]. intros Hr. apply Hroot. in_list.
      * intros x Hx Hne. apply L5; [done|]. intros ->. done.
      * intros x Hx. apply L6; [|intros ->; apply Hcps; by right]. intros ->. apply Hroot. in_list.
    + intros x Hx. assert (x <> c) as Hxc. { intros ->. apply (Hdl c Hx). in_list. }
      assert (x ∉ root_ :: (caddr d <$> ps)) as Hxp. { intros [->|Hxp]%elem_of_cons; [apply Hroot; in_list|]. apply (Hdp x Hxp). in_list. }
      rewrite L5, L6; [apply R2; rewrite fmap_app; in_list| | |intros ->; by apply Hxp|]; [intros ->; apply Hxp; left|done|done].
    + intros x Hx%Hin. rewrite (vcol_ext (hcol (nodes_ d))) by (intros; by apply Hh). eapply ring_frame; [by apply R3|]. intros y _. by destruct (Hsame y) as (-> & -> & _).
    + intros x Hx%Hin. rewrite (vcol_ext (hcol (nodes_ d))) by (intros; by apply Hh). destruct (Hsame x) as (_ & _ & _ & _ & ->). by apply R4.
    + intros A r B HAB. eapply ring_frame; [by apply R5|]. intros x Hx. assert (x ∈ concat rows) as Hxr.
      { apply elem_of_concat. exists (A ++ r :: B). split; [done|]. in_list. }
      assert (x <> c). { intros ->. apply (Hdr c); [in_list|done]. }
      assert (x ∉ root_ :: (caddr d <$> ps)) as Hxp. { intros [->|Hxp]%elem_of_cons; [apply Hroot; in_list|]. apply (Hdr x); [in_list|done]. }
      rewrite L5, L6; try done; intros ->; apply Hxp; [left|done].
    + intros x Hx. rewrite Hh. destruct (Hsame x) as (_ & _ & -> & -> & _). destruct (R6 x Hx) as [-> E6]. split; [done|]. unfold hname.
      destruct (Hsame x) as (_ & _ & _ & -> & _). by rewrite E6.
  - intros x. unfold hname. by destruct (Hsame x) as (_ & _ & _ & -> & _).
Qed.

Lemma append_built K ps ls rows d n kMaxNodes :
  built K ps ls rows d -> 0 <= n < K -> n ∉ ps ++ ls -> cur_node_ d < kMaxNodes -> 0 <= cur_node_ d ->
  exists d', append_column kMaxNodes n d = Ok d' /\ built K (ps ++ [n]) ls rows d' /\ cur_node_ d' = cur_node_ d + 1 /\
    (forall x, x ∈ concat rows -> hname (nodes_ d') x = hname (nodes_ d) x).
Proof.
  intros HB Hn Hfree Hcur Hcur0. destruct (lone_built K ps ls rows d n kMaxNodes HB Hn Hfree Hcur Hcur0) as (d1 & E & HB1 & Ec & Ea & Hn1).
  unfold lone_column, append_column in *. destruct (columns_at n d) as [o|]; [|done]. cbn [mbind outcome_bind] in *.
  destruct (assert_ _); [|done]. cbn [mbind outcome_bind] in *. destruct (new_column kMaxNodes n d) as [[c d0]|]; [|done]. cbn [mbind outcome_bind] in *.
  injection E as <-. destruct (adopt_built K ps ls rows _ n HB1) as (h' & E' & HB' & Hn').
  assert (caddr (mkDance (nodes_ d0) (cur_node_ d0) (<[Z.to_nat n := Some c]> (columns_ d0))) n = c) as Hc.
  { pose proof (b_col _ _ _ _ _ HB1 n) as [_ Hlk]; [in_list|]. cbn [columns_] in Hlk. apply lookup_lt_Some in Hlk. rewrite length_insert in Hlk.
    unfold caddr. cbn [columns_]. by rewrite list_lookup_insert_eq. }
  rewrite Hc in E'. cbn [nodes_] in E'. rewrite E'. cbn [mbind outcome_bind]. eexists. split; [done|]. split; [exact HB'|]. split; [done|].
  intros x Hx. cbn [nodes_]. rewrite Hn'. by apply Hn1.
Qed.

(** ** Lemmas: rows *)

Lemma row_built K ps ls rows d n kMaxNodes :
  built K ps ls rows d -> n ∈ ps ++ ls -> cur_node_ d < kMaxNodes -> 0 <= cur_node_ d ->
  exists d', new_row kMaxNodes n d = Ok (cur_node_ d, d') /\ built K ps ls (rows ++ [[cur_node_ d]]) d' /\ cur_node_ d' = cur_node_ d + 1 /\
    hname (nodes_ d') (cur_node_ d) = n /\ (forall x, x ∈ concat rows -> hname (nodes_ d') x = hname (nodes_ d) x).
Proof.
  intros HB Hn Hcur Hcur0. pose proof HB as [Hdom Hlen Hcol Hf HM HR Hnames]. set (r := cur_node_ d) in *.
  destruct (Hcol n Hn) as [Hn0 Hlk]. set (c := caddr d n) in *.
  assert (forall x, x ∈ root_ :: (caddr d <$> ps ++ ls) ++ concat rows -> x <> r) as Hnew.
  { intros x Hx ->. apply (built_below _ _ _ _ _ _ HB), Hdom in Hx. lia. }
  assert (c ∈ caddr d <$> ps ++ ls) as Hc by (by apply list_elem_of_fmap_2).
  assert (c <> r) as Hcr by (apply Hnew; in_list).
  unfold new_row, columns_at. rewrite (proj2 (Z.leb_le 0 n)) by lia. rewrite Hlk. cbn [from_some mbind outcome_bind]. rewrite bool_decide_true by done.
  cbn [assert_ mbind outcome_bind]. fold r. rewrite (proj2 (Z.ltb_lt r kMaxNodes)) by done. cbn [assert_ mbind outcome_bind].
  set (h1 := <[r := mkNode r r r r c n 0]> (nodes_ d)).
  assert (forall A (f : Node -> A) x, x <> r -> fld f h1 x = fld f (nodes_ d) x) as Hsame1.
  { intros A f x Hx. unfold fld, h1. by rewrite lookup_insert_ne. }
  assert (forall A (f : Node -> A), fld f h1 r = Some (f (mkNode r r r r c n 0))) as Hown by (intros A f; unfold fld, h1; by rewrite lookup_insert_eq).
  pose proof HR as [R1 R2 R3 R4 R5 R6]. pose proof (ring_ends _ _ _ _ _ (R3 c Hc)) as [_ Hup]. set (V := vcol (hcol (nodes_ d)) (concat rows) c) in *.
  assert (forall x, x ∈ V -> x ∈ concat rows) as HV by (intros x Hx; unfold V, vcol in Hx; by apply list_elem_of_filter in Hx as [_ ?]).
  assert (forall x, x ∈ c :: V -> x <> r) as HcV by (intros x [->|Hx%HV]%elem_of_cons; apply Hnew; in_list).
  set (p := last_or c V) in *. pose proof (last_or_elem c V) as Hp. fold p in Hp.
  assert (forall x, is_Some (h1 !! x) <-> is_Some (nodes_ d !! x) \/ x = r) as Hs1.
  { intros x. unfold h1. destruct (decide (x = r)) as [->|Hx]; [rewrite lookup_insert_eq; split; [by right|done]|]. rewrite lookup_insert_ne by done. tauto. }
  destruct (put_up_ok h1 c p r (zlen V)) as (h' & E & (L1 & L2 & L3 & L4 & L5 & L6) & Hsz & Hcol' & Hsz' & Hcolo & Hsame & Hsome).
  { rewrite Hsame1 by done. exact Hup. }
  { apply Hs1. left. apply (built_below _ _ _ _ _ _ HB). apply elem_of_cons in Hp as [->|Hp%HV]; in_list. }
  { apply Hs1. by right. }
  { done. }
  { intros Hrp. by apply (HcV p). }
  { rewrite Hsame1 by done. by apply R4. }
  rewrite E. cbn [mbind outcome_bind]. set (d' := mkDance _ _ _). exists d'. split; [done|].
  assert (forall x, x <> r -> hcol h' x = hcol (nodes_ d) x /\ hname h' x = hname (nodes_ d) x) as Hh.
  { intros x Hx. unfold hcol, hname. destruct (Hsame x) as (_ & _ & ->). by rewrite Hcolo, !Hsame1 by done. }
  assert (hcol h' r = c) as Hhr by (unfold hcol; by rewrite Hcol').
  assert (hname h' r = n) as Hnr. { unfold hname. destruct (Hsame r) as (_ & _ & ->). by rewrite Hown. }
  assert (forall x, x ∈ concat rows -> hcol h' x = hcol (nodes_ d) x) as Hhrows by (intros x Hx; apply Hh, Hnew; in_list).
  split; [|split; [done|split; [exact Hnr|intros x Hx; apply Hh, Hnew; in_list]]].
  assert (concat (rows ++ [[r]]) = concat rows ++ [r]) as Econ by by rewrite concat_app.
  assert (forall c', vcol (hcol h') (concat rows ++ [r]) c' = vcol (hcol (nodes_ d)) (concat rows) c' ++ (if decide (c' = c) then [r] else [])) as Hvcol.
  { intros c'. unfold vcol. rewrite filter_app. f_equal; [by apply vcol_ext|]. rewrite filter_cons, Hhr. repeat case_decide; done. }
  constructor; cbn [nodes_ cur_node_ columns_ d'].
  - intros x. rewrite Hsome, Hs1, Hdom. lia.
  - done.
  - exact Hcol.
  - exact Hf.
  - change (caddr d') with (caddr d). destruct HM as [M1 M2 M3]. constructor.
    + rewrite Econ, app_assoc, app_comm_cons. apply NoDup_app. split; [done|]. split; [|apply NoDup_singleton].
      intros x Hx ->%list_elem_of_singleton. by apply (Hnew r).
    + intros R [HR'| ->%list_elem_of_singleton]%elem_of_app; [|split; [done|apply NoDup_singleton]]. destruct (M2 R HR') as [Hne Hnd]. split; [done|].
      rewrite (list_fmap_ext _ (hcol (nodes_ d)) R); [done|]. intros i x Hx. apply Hhrows, elem_of_concat. exists R. split; [done|]. by eapply list_elem_of_lookup_2.
    + intros x. rewrite Econ. intros [Hx| ->%list_elem_of_singleton]%elem_of_app; [|by rewrite Hhr]. rewrite Hhrows by done. by apply M3.
  - change (caddr d') with (caddr d). rewrite Econ. constructor.
    + eapply ring_frame; [exact R1|]. intros x Hx. destruct (Hsame x) as (-> & -> & _). assert (x <> r) by (apply Hnew; rewrite fmap_app; in_list). by rewrite !Hsame1 by done.
    + intros x Hx. destruct (Hsame x) as (-> & -> & _). rewrite !Hsame1 by (apply Hnew; rewrite fmap_app; in_list). by apply R2.
    + intros x Hx. rewrite Hvcol. destruct (decide (x = c)) as [->|Hne].
      * fold V. apply (ring_snoc down up h1); try done.
        -- eapply ring_frame; [exact (R3 c Hc)|]. intros y Hy. by rewrite !Hsame1 by (by apply HcV).
        -- apply NoDup_cons. split.
           ++ intros Hin%HV. pose proof (matrix_NoDup _ _ _ HM) as Hnd. apply NoDup_cons in Hnd as [_ Hnd]. apply NoDup_app in Hnd as (_ & Hd & _). by apply (Hd c).
           ++ apply NoDup_filter, (rows_NoDup _ _ _ HM).
        -- intros Hr. by apply (HcV r).
        -- intros y Hy Hyp. apply L5; [done|by apply HcV].
        -- intros y Hy. apply L6; [|apply HcV; by right]. intros ->. apply HV in Hy.
           pose proof (matrix_NoDup _ _ _ HM) as Hnd. apply NoDup_cons in Hnd as [_ Hnd]. apply NoDup_app in Hnd as (_ & Hd & _). by apply (Hd c).
      * rewrite app_nil_r. eapply ring_frame; [by apply R3|]. intros y Hy.
        assert (y <> r) as Hyr by (apply elem_of_cons in Hy as [->|[_ Hy]%list_elem_of_filter]; apply Hnew; in_list).
        assert (parts (caddr d <$> ps ++ ls) rows [] [] (caddr d <$> ps ++ ls) (concat rows)) as HP by (constructor; [constructor|by intros ? ?%not_elem_of_nil|done|done]).
        assert (forall z, z ∈ c :: V -> y <> z) as Hyz.
        { intros z Hz ->. apply Hne. by apply (column_unique _ _ _ HM _ _ _ _ HP z). }
        rewrite L5, L6, !Hsame1; [done|done|done|apply Hyz; left|done|by apply Hyz|done].
    + intros x Hx. rewrite Hvcol. destruct (decide (x = c)) as [->|Hne].
      * fold V. rewrite Hsz, zlen_app. done.
      * rewrite app_nil_r, Hsz', Hsame1 by (done || (apply Hnew; in_list)). by apply R4.
    + intros A x B [HAB|HAB%list_elem_of_singleton]%elem_of_app.
      * eapply ring_frame; [by apply R5|]. intros y Hy. destruct (Hsame y) as (-> & -> & _). assert (y <> r); [|by rewrite !Hsame1 by done].
        apply Hnew. right. apply elem_of_app. right. apply elem_of_concat. exists (A ++ x :: B). split; [done|]. in_list.
      * destruct A as [|a A]; [|by destruct A]. injection HAB as -> ->. unfold ring. cbn. rewrite Forall_singleton.
        destruct (Hsame r) as (-> & -> & _). by rewrite !Hown.
    + intros x. rewrite Econ. intros [Hx| ->%list_elem_of_singleton]%elem_of_app.
      * destruct (Hsame x) as (_ & _ & ->). assert (x <> r) as Hxr by (apply Hnew; in_list). destruct (Hh x Hxr) as [-> ->].
        rewrite Hcolo, !Hsame1 by done. by apply R6.
      * rewrite Hhr, Hnr, Hcol'. destruct (Hsame r) as (_ & _ & ->). by rewrite Hown.
  - change (caddr d') with (caddr d). intros x. rewrite Econ. intros [Hx| ->%list_elem_of_singleton]%elem_of_app; [|by rewrite Hnr, Hhr].
    destruct (Hh x) as [-> ->]; [apply Hnew; in_list|]. by apply Hnames.
Qed.

Lemma join_built K ps ls rs n0 R y rest d :
  built K ps ls (rs ++ (n0 :: R) :: [y] :: rest) d ->
  hname (nodes_ d) y ∉ hname (nodes_ d) <$> n0 :: R ->
  exists h', put_left n0 y (nodes_ d) = Ok h' /\ built K ps ls (rs ++ (n0 :: R ++ [y]) :: rest) (set_nodes h' d) /\
    (forall x, hname h' x = hname (nodes_ d) x).
Proof.
  intros HB Hname. pose proof HB as [Hdom Hlen Hcol Hf HM HR Hnames]. pose proof HR as [R1 R2 R3 R4 R5 R6].
  set (rows := rs ++ (n0 :: R) :: [y] :: rest) in *. set (rows' := rs ++ (n0 :: R ++ [y]) :: rest).
  assert (concat rows' = concat rows) as Econ by (unfold rows, rows'; rewrite !concat_app; cbn; by rewrite <- app_assoc).
  assert (n0 :: R ∈ rows) as HR0 by (unfold rows; in_list). assert ([y] ∈ rows) as Hy0 by (unfold rows; in_list).
  assert (forall A x, A ∈ rows -> x ∈ A -> x ∈ concat rows) as Hin by (intros A x HA Hx; apply elem_of_concat; by exists A).
  pose proof (rows_NoDup _ _ _ HM) as Hnd.
  assert (NoDup (n0 :: R)) as HndR by (by apply (row_NoDup _ _ _ HM)).
  assert (y ∉ n0 :: R) as HyR by (intros Hy; apply Hname; by apply list_elem_of_fmap_2).
  assert (forall A x, A ∈ rs ++ rest -> x ∈ A -> x ∉ n0 :: R ++ [y]) as Hother.
  { intros A x HA Hx Hx'. assert (NoDup (concat ((rs ++ rest) ++ [n0 :: R; [y]]))) as Hnd'.
    { assert (concat ((rs ++ rest) ++ [n0 :: R; [y]]) ≡ₚ concat rows) as ->; [|done]. unfold rows. rewrite !concat_app. cbn.
      rewrite <- app_assoc. f_equiv. rewrite (Permutation_app_comm (concat rest)). cbn. by rewrite <- app_assoc. }
    rewrite concat_app in Hnd'. apply NoDup_app in Hnd' as (_ & Hd & _). apply (Hd x); [apply elem_of_concat; by exists A|].
    done. }
  pose proof (R5 [] n0 R HR0) as Hring. rewrite app_nil_r in Hring. pose proof (ring_ends _ _ _ _ _ Hring) as [_ Hl].
  set (p := last_or n0 R) in *. pose proof (last_or_elem n0 R) as Hp. fold p in Hp.
  destruct (put_left_ok (nodes_ d) n0 p y) as (h' & E & (L1 & L2 & L3 & L4 & L5 & L6) & Hsame & Hsome); [exact Hl| | | | |].
  { apply (built_below _ _ _ _ _ _ HB). right. apply elem_of_app. right. by apply (Hin (n0 :: R)). }
  { apply (built_below _ _ _ _ _ _ HB). right. apply elem_of_app. right. apply (Hin [y]); [done|left]. }
  { intros ->. apply HyR. left. }
  { intros ->. done. }
  assert (forall x, hcol h' x = hcol (nodes_ d) x) as Hh by (intros x; unfold hcol; by destruct (Hsame x) as (_ & _ & -> & _)).
  assert (forall x, hname h' x = hname (nodes_ d) x) as Hn by (intros x; unfold hname; by destruct (Hsame x) as (_ & _ & _ & -> & _)).
  exists h'. split; [exact E|]. split; [|exact Hn].
  assert (forall x, x ∉ n0 :: R ++ [y] -> fld left h' x = fld left (nodes_ d) x /\ fld right h' x = fld right (nodes_ d) x) as Hlr.
  { intros x Hx. rewrite L5, L6; [done|..]; intros ->; apply Hx; in_list. }
  assert (forall x, x ∈ root_ :: (caddr d <$> ps ++ ls) -> x ∉ n0 :: R ++ [y]) as Hcols.
  { intros x Hx Hx'. assert (x ∈ concat rows) as Hxr.
    { rewrite app_comm_cons, elem_of_app in Hx'. destruct Hx' as [?|?]; [by apply (Hin (n0 :: R))|by apply (Hin [y])]. }
    apply elem_of_cons in Hx as [->|Hx]; [by apply (root_not_node _ _ _ HM root_)|by apply (node_not_column _ _ _ HM x x)]. }
  assert (forall x c, (hname (nodes_ d) x = hname (nodes_ d) y -> False) -> x ∈ concat rows -> c = hcol (nodes_ d) y -> hcol (nodes_ d) x <> c) as Hcolne.
  { intros x c Hxy Hx -> Eq. apply Hxy. destruct (Hnames x Hx) as [Hx1 Ex]. destruct (Hnames y) as [Hy1 Ey]; [apply (Hin [y]); [done|left]|].
    rewrite Ex, Ey in Eq. pose proof (matrix_NoDup _ _ _ HM) as Hm. apply NoDup_cons in Hm as [_ Hm]. apply NoDup_app in Hm as (Hm & _ & _).
    apply list_elem_of_lookup in Hx1 as [i Hi], Hy1 as [j Hj]. rewrite NoDup_alt in Hm. assert (i = j) as ->; [|congruence].
    apply (Hm i j (caddr d (hname (nodes_ d) x))); rewrite list_lookup_fmap; [by rewrite Hi|by rewrite Hj, Eq]. }
  constructor; cbn [nodes_ cur_node_ columns_ set_nodes]; change (caddr (set_nodes h' d)) with (caddr d).
  - intros x. by rewrite Hsome.
  - done.
  - exact Hcol.
  - exact Hf.
  - destruct HM as [M1 M2 M3]. constructor.
    + by rewrite Econ.
    + intros A HA. apply replaced_row in HA as [->|HA'].
      * split; [done|]. rewrite (list_fmap_ext _ (hcol (nodes_ d))) by (intros; apply Hh). rewrite app_comm_cons, fmap_app. apply NoDup_app.
        split; [by apply (M2 (n0 :: R))|]. split; [|apply NoDup_singleton]. intros c (x & -> & Hx)%list_elem_of_fmap Hc%list_elem_of_singleton.
        apply (Hcolne x (hcol (nodes_ d) y)); [|by apply (Hin (n0 :: R))|done|done]. intros Exy. apply Hname. rewrite <- Exy. by apply list_elem_of_fmap_2.
      * rewrite (list_fmap_ext _ (hcol (nodes_ d))) by (intros; apply Hh). by apply M2, other_row.
    + intros x. rewrite Econ, Hh. apply M3.
  - rewrite Econ. constructor.
    + eapply ring_frame; [exact R1|]. intros x Hx. destruct (Hlr x) as [-> ->]; [|done]. apply Hcols. rewrite fmap_app. in_list.
    + intros x Hx. destruct (Hlr x) as [-> ->]; [|by apply R2]. apply Hcols. rewrite fmap_app. in_list.
    + intros x Hx. rewrite (vcol_ext (hcol (nodes_ d))) by (intros; by apply Hh). eapply ring_frame; [by apply R3|]. intros z _. by destruct (Hsame z) as (-> & -> & _).
    + intros x Hx. rewrite (vcol_ext (hcol (nodes_ d))) by (intros; by apply Hh). destruct (Hsame x) as (_ & _ & _ & _ & ->). by apply R4.
    + assert (ring right left h' n0 (R ++ [y])) as Hnew.
      { apply (ring_snoc right left (nodes_ d)); try done.
        - intros x Hx Hne. apply L5; [done|]. by intros ->.
        - intros x Hx. apply L6; [|intros ->; apply HyR; by right]. intros ->. by apply NoDup_cons in HndR as [? _]. }
      intros A x B HAB. apply replaced_row in HAB as [Eq|HA'].
      * destruct A as [|a A]; cbn in Eq; injection Eq as -> Eq; [rewrite Eq, app_nil_r; done|]. rewrite <- Eq in Hnew. by apply ring_rotate in Hnew.
      * eapply ring_frame; [by apply R5, other_row|]. intros z Hz. destruct (Hlr z) as [-> ->]; [|done]. apply (Hother (A ++ x :: B)); [done|]. rewrite elem_of_cons, elem_of_app in Hz. rewrite elem_of_app, elem_of_cons. tauto.
    + intros x. rewrite Econ. intros Hx. rewrite Hh, Hn. destruct (Hsame x) as (_ & _ & -> & -> & _). by apply R6.
  - intros x. rewrite Econ. intros Hx. rewrite Hh, Hn. by apply Hnames.
Qed.

Lemma fmap_same (f g : addr -> Z) (l : list addr) : (forall x, x ∈ l -> f x = g x) -> f <$> l = g <$> l.
Proof. intros Hfg. apply list_fmap_ext. intros i x Hx. apply Hfg. by eapply list_elem_of_lookup_2. Qed.

Lemma row4_built K ps ls rows d c0 c1 c2 c3 kMaxNodes :
  built K ps ls rows d -> (forall c, c ∈ [c0; c1; c2; c3] -> c ∈ ps ++ ls) -> NoDup [c0; c1; c2; c3] ->
  cur_node_ d + 4 <= kMaxNodes -> 0 <= cur_node_ d ->
  exists d' R, new_row4 kMaxNodes c0 c1 c2 c3 d = Ok d' /\ built K ps ls (rows ++ [R]) d' /\ cur_node_ d' = cur_node_ d + 4 /\
    hname (nodes_ d') <$> R = [c0; c1; c2; c3] /\ (forall x, x ∈ concat rows -> hname (nodes_ d') x = hname (nodes_ d) x).
Proof.
  intros HB Hin Hnd Hcur Hcur0. unfold new_row4.
  destruct (row_built K ps ls rows d c0 kMaxNodes) as (d0 & -> & B0 & C0 & N0 & S0); [done|in_list|lia|lia|]. cbn [mbind outcome_bind].
  destruct (row_built K ps ls _ d0 c1 kMaxNodes B0) as (d1 & -> & B1 & C1 & N1 & S1); [in_list|lia|lia|]. cbn [mbind outcome_bind].
  destruct (row_built K ps ls _ d1 c2 kMaxNodes B1) as (d2 & -> & B2 & C2 & N2 & S2); [in_list|lia|lia|]. cbn [mbind outcome_bind].
  destruct (row_built K ps ls _ d2 c3 kMaxNodes B2) as (d3 & -> & B3 & C3 & N3 & S3); [in_list|lia|lia|]. cbn [mbind outcome_bind].
  set (n0 := cur_node_ d) in *. set (n1 := cur_node_ d0) in *. set (n2 := cur_node_ d1) in *. set (n3 := cur_node_ d2) in *.
  assert (hname (nodes_ d3) n2 = c2) as E2. { rewrite S3; [done|]. rewrite !concat_app. in_list. }
  assert (hname (nodes_ d3) n1 = c1) as E1. { rewrite S3, S2; [done|rewrite !concat_app; in_list..]. }
  assert (hname (nodes_ d3) n0 = c0) as E0. { rewrite S3, S2, S1; [done|rewrite !concat_app; in_list..]. }
  rewrite <- !app_assoc in B3. cbn [app] in B3.
  assert (c1 ∉ [c0] /\ c2 ∉ [c0; c1] /\ c3 ∉ [c0; c1; c2]) as (D1 & D2 & D3).
  { apply NoDup_cons in Hnd as [H0 Hnd]. apply NoDup_cons in Hnd as [H1 Hnd]. apply NoDup_cons in Hnd as [H2 _]. in_list. }
  destruct (join_built K ps ls rows n0 [] n1 [[n2]; [n3]] d3 B3) as (h1 & -> & J1 & M1); [cbn; by rewrite E0, E1|]. cbn [mbind outcome_bind].
  cbn [app] in J1.
  destruct (join_built K ps ls rows n0 [n1] n2 [[n3]] _ J1) as (h2 & Ej2 & J2 & M2); [cbn; rewrite !M1, E0, E1, E2; done|].
  cbn [nodes_ set_nodes] in Ej2. rewrite Ej2. cbn [mbind outcome_bind]. cbn [app] in J2.
  destruct (join_built K ps ls rows n0 [n1; n2] n3 [] _ J2) as (h3 & Ej3 & J3 & M3);
    [cbn; rewrite !M2; cbn [nodes_ set_nodes]; rewrite !M1, E0, E1, E2, N3; done|].
  cbn [nodes_ set_nodes] in Ej3. rewrite Ej3. cbn [mbind outcome_bind]. eexists _, [n0; n1; n2; n3]. split; [done|]. split; [exact J3|]. split; [cbn; lia|].
  cbn [nodes_ set_nodes]. split.
  - cbn. rewrite !M3. cbn [nodes_ set_nodes]. rewrite !M2. cbn [nodes_ set_nodes]. by rewrite !M1, E0, E1, E2, N3.
  - intros x Hx. rewrite M3. cbn [nodes_ set_nodes]. rewrite M2. cbn [nodes_ set_nodes].
    rewrite M1, S3, S2, S1, S0; [done|done|rewrite !concat_app; in_list..].
Qed.

(** ** Exact covers by names *)

(** Rows of [rns], lists of columns, that meet every column of [ps] and none
    twice. *)
Record name_cover (ps : list Z) (rns Ns : list (list Z)) : Prop := {
  names_rows N : N ∈ Ns -> N ∈ rns;
  names_disjoint : NoDup (concat Ns);
  names_all n : n ∈ ps -> n ∈ concat Ns;
}.

Section built.
Context (K : Z) (ps ls : list Z) (rows : list (list addr)) (d : Dance) (HB : built K ps ls rows d).
Let h := nodes_ d.

(** The columns of a row. *)
Definition row_names (R : list addr) : list Z := hname (nodes_ d) <$> R.

Lemma caddr_inj n n' : n ∈ ps ++ ls -> n' ∈ ps ++ ls -> caddr d n = caddr d n' -> n = n'.
Proof.
  intros Hn Hn' E. pose proof (matrix_NoDup _ _ _ (b_matrix _ _ _ _ _ HB)) as Hnd. apply NoDup_cons in Hnd as [_ Hnd]. apply NoDup_app in Hnd as (Hnd & _ & _).
  apply list_elem_of_lookup in Hn as [i Hi], Hn' as [j Hj]. rewrite NoDup_alt in Hnd. assert (i = j) as ->; [|congruence].
  apply (Hnd i j (caddr d n)); rewrite list_lookup_fmap; [by rewrite Hi|by rewrite Hj, E].
Qed.

Lemma cols_names R : R ∈ rows -> cols (hcol h) R = caddr d <$> row_names R.
Proof.
  intros HR. unfold cols, row_names. rewrite <- list_fmap_compose. apply list_fmap_ext. intros i x Hx. cbn.
  apply (b_names _ _ _ _ _ HB). apply elem_of_concat. exists R. split; [done|]. by eapply list_elem_of_lookup_2.
Qed.

Lemma names_columns R n : R ∈ rows -> n ∈ row_names R -> n ∈ ps ++ ls.
Proof. intros HR (x & -> & Hx)%list_elem_of_fmap. apply (b_names _ _ _ _ _ HB). apply elem_of_concat. by exists R. Qed.

Lemma cover_names S : (forall R, R ∈ S -> R ∈ rows) -> concat (cols (hcol h) <$> S) = caddr d <$> concat (row_names <$> S).
Proof.
  induction S as [|R S IH]; intros HS; [done|]. cbn. rewrite fmap_app, IH, cols_names; [done|apply HS; left|]. intros R' HR'. apply HS. by right.
Qed.

Lemma caddr_NoDup l : (forall n, n ∈ l -> n ∈ ps ++ ls) -> NoDup (caddr d <$> l) <-> NoDup l.
Proof.
  intros Hl. split; [apply NoDup_fmap_1|]. induction l as [|n l IH]; intros Hnd; [constructor|]. apply NoDup_cons in Hnd as [Hn Hnd]. cbn. apply NoDup_cons. split.
  - intros (n' & E & Hn')%list_elem_of_fmap. apply Hn. rewrite (caddr_inj n n'); [done|apply Hl; left|apply Hl; by right|done].
  - apply IH; [|done]. intros m Hm. apply Hl. by right.
Qed.

Lemma valid_names S : (forall R, R ∈ S -> R ∈ rows) ->
  valid_cover (hcol h) (caddr d <$> ps) rows S <-> name_cover ps (row_names <$> rows) (row_names <$> S).
Proof.
  intros HS. assert (forall n, n ∈ concat (row_names <$> S) -> n ∈ ps ++ ls) as Hin.
  { intros n (N & (R & -> & HR)%list_elem_of_fmap & Hn)%elem_of_concat. by apply (names_columns R); [apply HS|]. }
  pose proof (caddr_NoDup _ Hin) as Hnd. split; intros [H1 H2 H3].
  - constructor.
    + intros N (R & -> & HR)%list_elem_of_fmap. apply list_elem_of_fmap_2. by apply HS.
    + apply Hnd. by rewrite <- cover_names.
    + intros n Hn. specialize (H3 (caddr d n) (list_elem_of_fmap_2 _ _ _ Hn)). rewrite cover_names in H3 by done.
      apply list_elem_of_fmap in H3 as (n' & E & Hn'). rewrite (caddr_inj n n'); [done|in_list|by apply Hin|done].
  - constructor; [done| |].
    + rewrite cover_names by done. by apply Hnd.
    + intros c (n & -> & Hn)%list_elem_of_fmap. rewrite cover_names by done. apply list_elem_of_fmap_2. by apply H3.
Qed.

(** Each cover by names comes from rows. *)
Lemma lift_names (Ns : list (list Z)) : (forall N, N ∈ Ns -> N ∈ row_names <$> rows) -> exists S : list (list addr), (forall R, R ∈ S -> R ∈ rows) /\ row_names <$> S = Ns.
Proof.
  induction Ns as [|N Ns IH]; intros HN; [exists []; split; [by intros ? ?%not_elem_of_nil|done]|].
  destruct IH as (S & HS & <-); [intros N' HN'; apply HN; by right|]. destruct (proj1 (list_elem_of_fmap _ _ _) (HN N ltac:(left))) as (R & -> & HR).
  exists (R :: S). split; [|done]. intros R' [->|HR']%elem_of_cons; [done|by apply HS].
Qed.

Lemma built_mat : (forall R, R ∈ rows -> exists n, n ∈ row_names R /\ n ∈ ps) ->
  mat (caddr d <$> ps ++ ls) rows (hcol h) (hname h) (caddr d <$> ps) (caddr d <$> ls) rows h.
Proof.
  intros Hhead. pose proof (b_matrix _ _ _ _ _ HB) as HM. constructor.
  - constructor; rewrite <- ?fmap_app; try done. pose proof (matrix_NoDup _ _ _ HM) as Hnd. apply NoDup_cons in Hnd as [_ Hnd]. by apply NoDup_app in Hnd as (? & _ & _).
  - rewrite <- fmap_app. apply (b_rep _ _ _ _ _ HB).
  - done.
  - intros R n HR Hn. rewrite <- fmap_app. apply (colof_column _ _ _ HM). apply elem_of_concat. by exists R.
  - intros R HR. destruct (Hhead R HR) as (n & (x & -> & Hx)%list_elem_of_fmap & Hn). exists x. split; [done|].
    destruct (b_names _ _ _ _ _ HB x) as [_ E]; [apply elem_of_concat; by exists R|]. unfold h. rewrite E. by apply list_elem_of_fmap_2.
Qed.

Definition rows_names (S : list (list addr)) : list (list Z) := row_names <$> S.

(** The rings of the rows and the names are the ones that were built. *)
Record rows_kept (h' : heap) : Prop := {
  kept_ring R1 r R2 : R1 ++ r :: R2 ∈ rows -> ring right left h' r (R2 ++ R1);
  kept_name x : x ∈ concat rows -> fld name h' x = Some (hname (nodes_ d) x);
}.

Lemma built_kept : rows_kept h.
Proof. destruct (b_rep _ _ _ _ _ HB) as [_ _ _ _ R5 R6]. constructor; [exact R5|]. intros x Hx. by apply R6. Qed.

Lemma row_names_perm (S S' : list (list addr)) :
  NoDup (rows_names rows) -> (forall R, R ∈ S -> R ∈ rows) -> (forall R, R ∈ S' -> R ∈ rows) ->
  rows_names S ≡ₚ rows_names S' -> S ≡ₚ S'.
Proof.
  unfold rows_names. intros Hnd HS HS' Hp. assert (forall R R', R ∈ rows -> R' ∈ rows -> row_names R = row_names R' -> R = R') as Hinj.
  { intros R R' [i Hi]%list_elem_of_lookup [j Hj]%list_elem_of_lookup E. rewrite NoDup_alt in Hnd. assert (i = j) as ->; [|congruence].
    apply (Hnd i j (row_names R)); rewrite list_lookup_fmap; [by rewrite Hi|by rewrite Hj, E]. }
  induction S as [|R S IH] in S', HS, HS', Hp |- *.
  { destruct S' as [|R' S']; [done|]. apply Permutation_length in Hp. done. }
  assert (row_names R ∈ rows_names S') as (R' & E & HR')%list_elem_of_fmap by (rewrite <- Hp; left).
  assert (R = R') as <- by (apply Hinj; [apply HS; left|by apply HS'|done]).
  apply list_elem_of_split in HR' as (A & B & ->). rewrite <- Permutation_middle in Hp |- *. f_equiv. cbn in Hp. apply IH.
  - intros R' HR'. apply HS. by right.
  - intros R' HR'. apply HS'. in_list.
  - by apply Permutation_cons_inv in Hp.
Qed.

(** The search for the exact covers by names: each is found once, and the
    links are put back unless the search is ended. *)
Lemma named_search {St} (leaf : heap -> list addr -> St -> outcome (bool * St)) fuel s :
  (forall R, R ∈ rows -> exists n, n ∈ row_names R /\ n ∈ ps) ->
  NoDup (rows_names rows) ->
  (forall h' ns s, rows_kept h' -> (forall n, n ∈ ns -> n ∈ concat rows) -> leaf h' ns s = leaf h ns s) ->
  (length ps < fuel)%nat ->
  exists (Ls : list (list addr)) (Ss : list (list (list addr))), Forall2 picks Ls Ss /\ distinct (map rows_names Ss) /\
    (forall S, S ∈ Ss -> (forall R, R ∈ S -> R ∈ rows) /\ name_cover ps (rows_names rows) (rows_names S)) /\
    (forall Ns, name_cover ps (rows_names rows) Ns -> exists S : list (list addr), S ∈ Ss /\ rows_names S ≡ₚ Ns) /\
    search_result (solve leaf fuel h [] s) h (visit (leaf h) Ls s).
Proof.
  intros Hhead Hnd Hleaf Hf. pose proof (built_mat Hhead) as HM.
  destruct (solve_ok (caddr d <$> ps ++ ls) rows (hcol h) (hname h) (b_matrix _ _ _ _ _ HB) leaf (leaf h)) with (fuel := fuel) (2 := HM)
    as (Ls & Ss & [V C D] & Hpick & Hsol).
  - intros ls' rs h' ns s' HM' Hns. apply Hleaf; [|done]. destruct (mat_rep _ _ _ _ _ _ _ _ HM') as [_ _ _ _ R5 R6]. constructor; [exact R5|]. intros x Hx. by apply R6.
  - by rewrite length_fmap.
  - exists Ls, Ss. split; [exact Hpick|].
    assert (forall S, S ∈ Ss -> forall R, R ∈ S -> R ∈ rows) as HSs by (intros S HS; apply (cover_rows _ _ _ _ (V S HS))).
    split; [|split; [|split]].
    + clear -D HSs Hnd HB. induction Ss as [|S Ss IH]; [done|]. destruct D as [D1 D2]. split.
      * intros N' (S' & <- & HS'%list_elem_of_In)%list_elem_of_In%in_map_iff Hp. apply (D1 S' HS'). apply row_names_perm; [done|apply HSs; left|apply HSs; by right|done].
      * apply IH; [done|]. intros S' HS'. apply HSs. by right.
    + intros S HS. split; [by apply HSs|]. apply valid_names; [by apply HSs|]. by apply V.
    + intros Ns HNs. destruct (lift_names Ns) as (S & HS & <-); [by apply (names_rows _ _ _ HNs)|]. apply valid_names in HNs; [|done].
      destruct (C S HNs) as (S' & HS' & Hp). exists S'. split; [done|]. unfold rows_names. by rewrite Hp.
    + specialize (Hsol [] s). rewrite (list_fmap_ext _ id), list_fmap_id in Hsol by done. apply Hsol. by intros ? ?%not_elem_of_nil.
Qed.
End built.

(** ** Building by names *)

(** The structure has the columns [ps] and [ls] and a row of four nodes for
    each element of [rns]. *)
Definition holds (K : Z) (ps ls : list Z) (rns : list (list Z)) (d : Dance) : Prop :=
  exists rows, built K ps ls rows d /\ rows_names d rows = rns /\ cur_node_ d = 1 + zlen ps + zlen ls + 4 * zlen rns.

Lemma rows_names_same d d' rows :
  (forall x, x ∈ concat rows -> hname (nodes_ d') x = hname (nodes_ d) x) -> rows_names d' rows = rows_names d rows.
Proof.
  intros Hsame. apply list_fmap_ext. intros i R HR. apply fmap_same. intros x Hx. apply Hsame, elem_of_concat. exists R.
  split; [by eapply list_elem_of_lookup_2|done].
Qed.

Lemma holds_nodes K ps ls rns d : holds K ps ls rns d -> cur_node_ d = 1 + zlen ps + zlen ls + 4 * zlen rns /\ 0 <= cur_node_ d.
Proof.
  intros (rows & _ & _ & E). split; [done|]. pose proof (zlen_nonneg ps). pose proof (zlen_nonneg ls). pose proof (zlen_nonneg rns). lia.
Qed.

Lemma holds_empty K kMaxNodes : 0 < kMaxNodes -> 0 <= K -> exists d, empty_dance kMaxNodes K = Ok d /\ holds K [] [] [] d.
Proof. intros Hk HK. destruct (empty_built K kMaxNodes Hk HK) as (d & E & HB & Ec). exists d. split; [done|]. by exists []. Qed.

Section holds.
Context (K : Z) (ps ls : list Z) (rns : list (list Z)) (d : Dance) (Hd : holds K ps ls rns d) (kMaxNodes : Z).
Hypothesis (room : 1 + zlen ps + zlen ls + 4 * zlen rns < kMaxNodes).

Lemma holds_append n : 0 <= n < K -> n ∉ ps ++ ls -> exists d', append_column kMaxNodes n d = Ok d' /\ holds K (ps ++ [n]) ls rns d'.
Proof.
  intros Hn Hfree. pose proof (holds_nodes _ _ _ _ _ Hd) as [Ec Hc]. destruct Hd as (rows & HB & <- & _).
  destruct (append_built K ps ls rows d n kMaxNodes HB Hn Hfree) as (d' & E & HB' & Ec' & Hsame); [lia|done|].
  exists d'. split; [done|]. exists rows. split; [done|]. split; [by apply rows_names_same|]. rewrite Ec', Ec, zlen_app. change (zlen [n]) with 1. lia.
Qed.

Lemma holds_lone n : 0 <= n < K -> n ∉ ps ++ ls -> exists d', lone_column kMaxNodes n d = Ok d' /\ holds K ps (ls ++ [n]) rns d'.
Proof.
  intros Hn Hfree. pose proof (holds_nodes _ _ _ _ _ Hd) as [Ec Hc]. destruct Hd as (rows & HB & <- & _).
  destruct (lone_built K ps ls rows d n kMaxNodes HB Hn Hfree) as (d' & E & HB' & Ec' & _ & Hsame); [lia|done|].
  exists d'. split; [done|]. exists rows. split; [done|]. split; [by apply rows_names_same|]. rewrite Ec', Ec, zlen_app. change (zlen [n]) with 1. lia.
Qed.

Lemma holds_row4 c0 c1 c2 c3 :
  (forall c, c ∈ [c0; c1; c2; c3] -> c ∈ ps ++ ls) -> NoDup [c0; c1; c2; c3] -> 1 + zlen ps + zlen ls + 4 * zlen rns + 4 <= kMaxNodes ->
  exists d', new_row4 kMaxNodes c0 c1 c2 c3 d = Ok d' /\ holds K ps ls (rns ++ [[c0; c1; c2; c3]]) d'.
Proof.
  intros Hin Hnd Hroom. pose proof (holds_nodes _ _ _ _ _ Hd) as [Ec Hc]. destruct Hd as (rows & HB & <- & _).
  destruct (row4_built K ps ls rows d c0 c1 c2 c3 kMaxNodes HB Hin Hnd) as (d' & R & E & HB' & Ec' & ER & Hsame); [lia|done|].
  exists d'. split; [done|]. exists (rows ++ [R]). split; [done|]. split.
  - unfold rows_names. rewrite fmap_app. f_equal; [by apply (rows_names_same d d')|]. cbn. f_equal. exact ER.
  - rewrite Ec', Ec, zlen_app. match goal with |- context [zlen [?l]] => change (zlen [l]) with 1 end. lia.
Qed.
End holds.

(** ** Lemmas: disjoint lists of names *)

Lemma concat_disjoint (Ns : list (list Z)) A B x : NoDup (concat Ns) -> A ∈ Ns -> B ∈ Ns -> x ∈ A -> x ∈ B -> A = B.
Proof.
  induction Ns as [|N Ns IH]; [by intros _ ?%not_elem_of_nil|]. cbn. intros (_ & Hd & Hnd)%NoDup_app HA HB Ha Hb.
  assert (forall C, C ∈ Ns -> x ∈ C -> x ∈ N -> False) as Hx by (intros C HC HxC HxN; apply (Hd x HxN), elem_of_concat; by exists C).
  apply elem_of_cons in HA as [->|HA], HB as [->|HB]; [done|by destruct (Hx B)|by destruct (Hx A)|by apply IH].
Qed.

Lemma concat_NoDup_elem (Ns : list (list Z)) : NoDup (concat Ns) -> (forall A, A ∈ Ns -> A <> []) -> NoDup Ns.
Proof.
  induction Ns as [|N Ns IH]; [constructor|]. cbn. intros (_ & Hd & Hnd)%NoDup_app Hne. apply NoDup_cons. split.
  - intros HN. destruct N as [|x N]; [by apply (Hne []); [left|]|]. apply (Hd x); [left|]. apply elem_of_concat. exists (x :: N). split; [done|left].
  - apply IH; [done|]. intros A HA. apply Hne. by right.
Qed.

Lemma concat_NoDup_intro (f : Z -> list Z) l :
  NoDup l -> (forall i, i ∈ l -> NoDup (f i)) -> (forall i j x, i ∈ l -> j ∈ l -> x ∈ f i -> x ∈ f j -> i = j) -> NoDup (concat (f <$> l)).
Proof.
  induction l as [|i l IH]; [constructor|]. intros [Hi Hnd]%NoDup_cons Hf Hdis. cbn. apply NoDup_app. split; [apply Hf; left|]. split.
  - intros x Hx (A & (j & -> & Hj)%list_elem_of_fmap & HxA)%elem_of_concat. apply Hi. rewrite (Hdis i j x); [done|left|by right|done..].
  - apply IH; [done|intros j Hj; apply Hf; by right|]. intros j k x Hj Hk. apply Hdis; by right.
Qed.

(** If each cover stands for one [p] with [Ps] and each [p] has a cover,
    there are as many of them as covers. *)
Lemma covers_stand_for {A} (Ps : list Z -> Prop) (namesof : list Z -> list (list Z)) (names : A -> list (list Z)) (Ss : list A) :
  (forall S, S ∈ Ss -> exists p, Ps p /\ names S ≡ₚ namesof p) ->
  (forall p, Ps p -> exists S, S ∈ Ss /\ names S ≡ₚ namesof p) ->
  (forall p p', Ps p -> Ps p' -> namesof p ≡ₚ namesof p' -> p = p') ->
  distinct (names <$> Ss) ->
  exists qs, NoDup qs /\ (forall p, p ∈ qs <-> Ps p) /\ zlen qs = zlen Ss.
Proof.
  intros Hsound Hcomplete Hinj Hd.
  assert (exists qs, Forall2 (fun S p => Ps p /\ names S ≡ₚ namesof p) Ss qs) as [qs Hqs].
  { clear Hcomplete Hd. induction Ss as [|S Ss IH]; [by exists []|]. destruct IH as [qs Hqs]; [intros S' HS'; apply Hsound; by right|].
    destruct (Hsound S) as (p & Hp); [left|]. exists (p :: qs). by constructor. }
  exists qs. split; [|split; [|unfold zlen; by rewrite (Forall2_length _ _ _ Hqs)]].
  - clear Hcomplete Hsound. induction Hqs as [|S p Ss qs [Hp HSp] Hqs IH]; [constructor|]. destruct Hd as [H1 H2]. apply NoDup_cons. split; [|by apply IH].
    intros Hin. apply list_elem_of_lookup in Hin as [i Hi]. destruct (Forall2_lookup_r _ _ _ _ _ Hqs Hi) as (S' & HS' & _ & HSp').
    apply (H1 (names S')); [apply list_elem_of_fmap_2; by eapply list_elem_of_lookup_2|]. by rewrite HSp, HSp'.
  - intros p. split.
    + intros [i Hi]%list_elem_of_lookup. by destruct (Forall2_lookup_r _ _ _ _ _ Hqs Hi) as (S & _ & Hp & _).
    + intros Hp. destruct (Hcomplete p Hp) as (S & [i Hi]%list_elem_of_lookup & HSp). destruct (Forall2_lookup_l _ _ _ _ _ Hqs Hi) as (q & Hq & HPq & HSq).
      rewrite (Hinj p q Hp HPq); [by eapply list_elem_of_lookup_2|]. by rewrite <- HSp, HSq.
Qed.
