(* ===== verification/QueensDance.v ===== *)
(** * QueensDance: the queens program on dancing links

    Models [QueenSolver] of [puzzle/nqueens_dl.cc] on the structure of
    DancingLinks.v: a column of the ring for each column and each row of the
    board, a column outside for each diagonal, and a row of four nodes for
    each square.  [solve] counts a solution when the ring is empty; the stack
    of chosen rows that the search of DancingLinks.v carries is not used. *)
From S2P Require Import Prelude Vector Queens DancingLinks.

Definition kMaxQueens : Z := 20.
Definition kMaxColumns : Z := kMaxQueens * 6.
Definition kMaxNodes : Z := 1 + kMaxColumns + kMaxQueens * kMaxQueens * 4.

(** The three loops of the constructor. *)
Definition append_columns (N : Z) (d : Dance) : outcome Dance :=
  foldM (fun d i => d ← append_column kMaxNodes i d; append_column kMaxNodes (N + i) d) d (seqZ 0 N).
Definition lone_columns (N : Z) (d : Dance) : outcome Dance :=
  foldM (fun d j => d ← lone_column kMaxNodes (2 * N + j) d; lone_column kMaxNodes (4 * N + j) d) d (seqZ 0 (2 * N)).
Definition square_row (N col row : Z) (d : Dance) : outcome Dance :=
  new_row4 kMaxNodes col (N + row) (2 * N + row + col) (5 * N + row - col) d.
Definition square_rows (N : Z) (d : Dance) : outcome Dance :=
  foldM (fun d col => foldM (fun d row => square_row N col row d) d (seqZ 0 N)) d (seqZ 0 N).

Definition QueenSolver (N : Z) : outcome Dance :=
  d ← empty_dance kMaxNodes kMaxColumns;
  _ ← assert_ (N <=? kMaxQueens);
  d ← append_columns N d; d ← lone_columns N d; square_rows N d.

(** [++count_; return;] *)
Definition count_solution (h : heap) (stack_ : list addr) (count_ : Z) : outcome (bool * Z) :=
  n ← int64_add count_ 1; Ok (false, n).

(** [main]. *)
Definition nqueens_dl (N : Z) : outcome Z :=
  d ← QueenSolver N;
  '(_, _, n) ← DancingLinks.solve count_solution (S (Z.to_nat kMaxColumns)) (nodes_ d) [] 0;
  Ok n.

Example small_dances : nqueens_dl 0 = Ok 1 /\ nqueens_dl 1 = Ok 1 /\ nqueens_dl 4 = Ok 2 /\ nqueens_dl 5 = Ok 10 /\ nqueens_dl 21 = Fail AssertFail.
Proof. vm_compute. done. Qed.

(** ** Lemmas: building *)

Definition square (N col row : Z) : list Z := [col; N + row; 2 * N + row + col; 5 * N + row - col].
Definition ring_columns (N : Z) (l : list Z) : list Z := l ≫= (fun i => [i; N + i]).
Definition diagonals (N : Z) (l : list Z) : list Z := l ≫= (fun j => [2 * N + j; 4 * N + j]).
Definition squares (N : Z) : list (list Z) := seqZ 0 N ≫= (fun col => square N col <$> seqZ 0 N).

Lemma elem_of_ring_columns N l x : x ∈ ring_columns N l <-> exists i, i ∈ l /\ (x = i \/ x = N + i).
Proof. unfold ring_columns. rewrite list_elem_of_bind. split; intros (i & H1 & H2); exists i; set_solver. Qed.
Lemma elem_of_diagonals N l x : x ∈ diagonals N l <-> exists i, i ∈ l /\ (x = 2 * N + i \/ x = 4 * N + i).
Proof. unfold diagonals. rewrite list_elem_of_bind. split; intros (i & H1 & H2); exists i; set_solver. Qed.

Lemma zlen_pairs (f g : Z -> Z) l : zlen (l ≫= (fun i => [f i; g i])) = 2 * zlen l.
Proof. induction l as [|x l IH]; [done|]. rewrite bind_cons, zlen_app, IH, !zlen_cons, zlen_nil. lia. Qed.

Section queens.
Context (N : Z) (N_range : 0 <= N <= kMaxQueens).

Lemma append_columns_ok d : holds kMaxColumns [] [] [] d -> exists d', append_columns N d = Ok d' /\ holds kMaxColumns (ring_columns N (seqZ 0 N)) [] [] d'.
Proof.
  intros Hd. unfold append_columns. apply (foldM_inv (fun l d => holds kMaxColumns (ring_columns N l) [] [] d)); [done|].
  intros l i rest d0 El H0. symmetry in El. apply next_of_range in El as (Hi & Hni & Hl & Hlen).
  assert (zlen (ring_columns N l) = 2 * zlen l) as Hz by apply zlen_pairs. unfold kMaxQueens in N_range.
  destruct (holds_append _ _ _ _ _ H0 kMaxNodes) with (n := i) as (d1 & -> & H1).
  { rewrite Hz. unfold kMaxNodes, kMaxColumns, kMaxQueens. change (zlen (@nil Z)) with 0. change (zlen (@nil (list Z))) with 0. lia. }
  { unfold kMaxColumns, kMaxQueens. lia. }
  { rewrite app_nil_r, elem_of_ring_columns. intros (j & Hj & [->| ->]); [done|]. specialize (Hl j Hj). lia. }
  cbn [mbind outcome_bind].
  destruct (holds_append _ _ _ _ _ H1 kMaxNodes) with (n := N + i) as (d2 & E2 & H2).
  { rewrite zlen_app, Hz. unfold kMaxNodes, kMaxColumns, kMaxQueens. change (zlen (@nil Z)) with 0. change (zlen (@nil (list Z))) with 0. change (zlen [i]) with 1. lia. }
  { unfold kMaxColumns, kMaxQueens. lia. }
  { rewrite app_nil_r, elem_of_app, elem_of_ring_columns, list_elem_of_singleton. intros [(j & Hj & Ej)|Ej]; [|lia]. specialize (Hl j Hj).
    destruct Ej as [Ej|Ej]; [lia|]. assert (j = i) as -> by lia. done. }
  exists d2. split; [done|]. unfold ring_columns in *. rewrite bind_app. cbn. by rewrite <- app_assoc in H2.
Qed.

Lemma lone_columns_ok d : holds kMaxColumns (ring_columns N (seqZ 0 N)) [] [] d ->
  exists d', lone_columns N d = Ok d' /\ holds kMaxColumns (ring_columns N (seqZ 0 N)) (diagonals N (seqZ 0 (2 * N))) [] d'.
Proof.
  intros Hd. unfold lone_columns. apply (foldM_inv (fun l d => holds kMaxColumns (ring_columns N (seqZ 0 N)) (diagonals N l) [] d)); [done|].
  intros l i rest d0 El H0. symmetry in El. apply next_of_range in El as (Hi & Hni & Hl & Hlen).
  assert (zlen (diagonals N l) = 2 * zlen l) as Hz by apply zlen_pairs. unfold kMaxQueens in N_range.
  assert (zlen (ring_columns N (seqZ 0 N)) = 2 * N) as Hz0 by (unfold ring_columns; rewrite zlen_pairs; unfold zlen; rewrite length_seqZ; lia).
  assert (forall x, x ∈ ring_columns N (seqZ 0 N) -> x < 2 * N) as Hlow.
  { intros x (j & Hj%elem_of_seqZ & Ej)%elem_of_ring_columns. lia. }
  destruct (holds_lone _ _ _ _ _ H0 kMaxNodes) with (n := 2 * N + i) as (d1 & -> & H1).
  { rewrite Hz0, Hz. unfold kMaxNodes, kMaxColumns, kMaxQueens. change (zlen (@nil (list Z))) with 0. lia. }
  { unfold kMaxColumns, kMaxQueens. lia. }
  { rewrite elem_of_app, elem_of_diagonals. intros [H%Hlow|(j & Hj & Ej)]; [lia|]. specialize (Hl j Hj).
    destruct Ej as [Ej|Ej]; [|lia]. assert (j = i) as -> by lia. done. }
  cbn [mbind outcome_bind].
  destruct (holds_lone _ _ _ _ _ H1 kMaxNodes) with (n := 4 * N + i) as (d2 & E2 & H2).
  { rewrite zlen_app, Hz0, Hz. unfold kMaxNodes, kMaxColumns, kMaxQueens. change (zlen (@nil (list Z))) with 0. change (zlen [2 * N + i]) with 1. lia. }
  { unfold kMaxColumns, kMaxQueens. lia. }
  { rewrite !elem_of_app, elem_of_diagonals, list_elem_of_singleton. intros [H%Hlow|[(j & Hj & Ej)|Ej]]; [lia| |lia]. specialize (Hl j Hj).
    destruct Ej as [Ej|Ej]; [lia|]. assert (j = i) as -> by lia. done. }
  exists d2. split; [done|]. unfold diagonals in *. rewrite bind_app. cbn. by rewrite <- app_assoc in H2.
Qed.

Let ps := ring_columns N (seqZ 0 N).
Let ls := diagonals N (seqZ 0 (2 * N)).

Lemma square_columns col row c : 0 <= col < N -> 0 <= row < N -> c ∈ square N col row -> c ∈ ps ++ ls.
Proof.
  intros Hc Hr Hin. apply elem_of_app. unfold square in Hin. rewrite !elem_of_cons in Hin. destruct Hin as [->|[->|[->|[->|[]%not_elem_of_nil]]]].
  - left. apply elem_of_ring_columns. exists col. rewrite elem_of_seqZ. split; [lia|by left].
  - left. apply elem_of_ring_columns. exists row. rewrite elem_of_seqZ. split; [lia|by right].
  - right. apply elem_of_diagonals. exists (row + col). rewrite elem_of_seqZ. lia.
  - right. apply elem_of_diagonals. exists (N + row - col). rewrite elem_of_seqZ. lia.
Qed.

Lemma square_NoDup col row : 0 <= col < N -> 0 <= row < N -> NoDup (square N col row).
Proof. intros Hc Hr. unfold square. rewrite !NoDup_cons, !not_elem_of_cons. repeat split; (lia || apply not_elem_of_nil || apply NoDup_nil_2). Qed.

Lemma square_rows_ok d : holds kMaxColumns ps ls [] d -> exists d', square_rows N d = Ok d' /\ holds kMaxColumns ps ls (squares N) d'.
Proof.
  intros Hd. unfold square_rows. unfold kMaxQueens in N_range.
  assert (zlen ps = 2 * N) as Hps by (unfold ps, ring_columns; rewrite zlen_pairs; unfold zlen; rewrite length_seqZ; lia).
  assert (zlen ls = 4 * N) as Hls by (unfold ls, diagonals; rewrite zlen_pairs; unfold zlen; rewrite length_seqZ; lia).
  apply (foldM_inv (fun l d => holds kMaxColumns ps ls (l ≫= (fun col => square N col <$> seqZ 0 N)) d)); [done|].
  intros l col rest d0 El H0. symmetry in El. apply next_of_range in El as (Hc & _ & _ & Hlen).
  assert (zlen (l ≫= (fun col => square N col <$> seqZ 0 N)) = N * zlen l) as Hz.
  { clear -N_range. induction l as [|x l IH]; [change (zlen (@nil (list Z)) = N * 0); unfold zlen; cbn; lia|]. rewrite bind_cons, zlen_app, IH, zlen_cons.
    unfold zlen. rewrite length_fmap, length_seqZ. lia. }
  set (L := l ≫= _) in *. rewrite bind_app. fold L. cbn [mbind list_bind]. rewrite app_nil_r.
  apply (foldM_inv (fun m d => holds kMaxColumns ps ls (L ++ (square N col <$> m)) d)); [by rewrite app_nil_r|].
  intros m row rest' d1 El' H1. symmetry in El'. apply next_of_range in El' as (Hr & _ & _ & Hlen').
  assert (zlen (L ++ (square N col <$> m)) = N * zlen l + zlen m) as Hz' by (rewrite zlen_app, Hz; f_equal; unfold zlen; by rewrite length_fmap).
  assert (zlen (L ++ (square N col <$> m)) < 400) as Hsmall by (rewrite Hz'; nia).
  destruct (holds_row4 _ _ _ _ _ H1 kMaxNodes) with (c0 := col) (c1 := N + row) (c2 := 2 * N + row + col) (c3 := 5 * N + row - col) as (d2 & E2 & H2).
  - rewrite Hps, Hls. unfold kMaxNodes, kMaxColumns, kMaxQueens. lia.
  - intros c Hin. by apply (square_columns col row).
  - by apply square_NoDup.
  - rewrite Hps, Hls. unfold kMaxNodes, kMaxColumns, kMaxQueens. lia.
  - exists d2. split; [exact E2|]. rewrite fmap_app, app_assoc. exact H2.
Qed.

Lemma QueenSolver_ok : exists d, QueenSolver N = Ok d /\ holds kMaxColumns ps ls (squares N) d.
Proof.
  unfold QueenSolver. destruct (holds_empty kMaxColumns kMaxNodes) as (d0 & -> & H0); [done|done|]. cbn [mbind outcome_bind].
  rewrite (proj2 (Z.leb_le _ _)) by lia. cbn [assert_ mbind outcome_bind].
  destruct (append_columns_ok d0 H0) as (d1 & -> & H1). cbn [mbind outcome_bind].
  destruct (lone_columns_ok d1 H1) as (d2 & -> & H2). cbn [mbind outcome_bind]. by apply square_rows_ok.
Qed.

(** ** Lemmas: covers and placements *)

Lemma elem_of_squares A : A ∈ squares N <-> exists col row, A = square N col row /\ 0 <= col < N /\ 0 <= row < N.
Proof.
  unfold squares. rewrite list_elem_of_bind. split.
  - intros (col & (row & -> & Hr%elem_of_seqZ)%list_elem_of_fmap & Hc%elem_of_seqZ). exists col, row. split; [done|lia].
  - intros (col & row & -> & Hc & Hr). exists col. split; [|apply elem_of_seqZ; lia]. apply list_elem_of_fmap_2, elem_of_seqZ. lia.
Qed.

Lemma elem_of_square col row x : x ∈ square N col row <-> x = col \/ x = N + row \/ x = 2 * N + row + col \/ x = 5 * N + row - col.
Proof. unfold square. rewrite !elem_of_cons. set_solver. Qed.

(** The squares with a queen. *)
Definition queens_of (p : list Z) : list (list Z) := (fun row => square N (vat p row) row) <$> seqZ 0 N.

Lemma peaceful_at p : zlen p = N ->
  peaceful p <-> forall r r', 0 <= r < r' -> r' < N -> vat p r' <> vat p r /\ Z.abs (vat p r' - vat p r) <> r' - r.
Proof.
  intros Hl. split.
  - intros Hp r r' Hr Hr'. destruct (Hp (Z.to_nat r) (Z.to_nat r') (vat p r) (vat p r')) as [H1 H2]; [lia|apply vat_list; lia|apply vat_list; lia|].
    split; [done|lia].
  - intros Hp r r' c c' Hr Ec Ec'. assert (Z.of_nat r' < N) as Hr' by (apply lookup_lt_Some in Ec'; unfold zlen in Hl; lia).
    destruct (Hp (Z.of_nat r) (Z.of_nat r') ltac:(lia) Hr') as [H1 H2]. unfold vat in H1, H2. rewrite !Nat2Z.id in H1, H2.
    rewrite (list_lookup_total_correct _ _ _ Ec), (list_lookup_total_correct _ _ _ Ec') in H1, H2. done.
Qed.

Lemma placement_range p row : placement N p -> 0 <= row < N -> 0 <= vat p row < N.
Proof.
  intros (Hl & Hr & _) Hrow. rewrite Forall_lookup in Hr. apply (Hr (Z.to_nat row)). apply vat_list. lia.
Qed.

Lemma placement_all p c : placement N p -> 0 <= c < N -> exists row, 0 <= row < N /\ vat p row = c.
Proof.
  intros (Hl & Hr & Hp) Hc. assert (p ≡ₚ seqZ 0 N) as Hperm.
  { apply submseteq_length_Permutation; [|rewrite length_seqZ; unfold zlen in Hl; lia]. apply NoDup_submseteq; [by apply peaceful_NoDup|].
    intros x Hx. rewrite Forall_forall in Hr. specialize (Hr x Hx). apply elem_of_seqZ. lia. }
  assert (c ∈ p) as [i Hi]%list_elem_of_lookup by (rewrite Hperm; apply elem_of_seqZ; lia). exists (Z.of_nat i). split.
  - apply lookup_lt_Some in Hi. unfold zlen in Hl. lia.
  - unfold vat. rewrite Nat2Z.id. by apply list_lookup_total_correct.
Qed.

Lemma placement_cover p : placement N p -> name_cover ps (squares N) (queens_of p).
Proof.
  intros Hpl. pose proof Hpl as (Hl & _ & Hp). rewrite peaceful_at in Hp by done. constructor.
  - intros A (row & -> & Hr%elem_of_seqZ)%list_elem_of_fmap. apply elem_of_squares. exists (vat p row), row. split; [done|].
    split; [apply placement_range; [done|lia]|lia].
  - apply concat_NoDup_intro; [apply NoDup_seqZ| |].
    + intros row Hr%elem_of_seqZ. apply square_NoDup; [apply placement_range; [done|lia]|lia].
    + intros r r' x Hr%elem_of_seqZ Hr'%elem_of_seqZ Hx%elem_of_square Hx'%elem_of_square.
      pose proof (placement_range p r Hpl ltac:(lia)). pose proof (placement_range p r' Hpl ltac:(lia)).
      destruct (Z.lt_trichotomy r r') as [Hlt|[E|Hlt]]; [|done|]; exfalso.
      * specialize (Hp r r' ltac:(lia) ltac:(lia)). lia.
      * specialize (Hp r' r ltac:(lia) ltac:(lia)). lia.
  - intros n (i & Hi%elem_of_seqZ & Hn)%elem_of_ring_columns. apply elem_of_concat. destruct Hn as [->| ->].
    + destruct (placement_all p i Hpl ltac:(lia)) as (row & Hr & E). exists (square N (vat p row) row). split; [|apply elem_of_square; by left].
      apply (list_elem_of_fmap_2 (fun row => square N (vat p row) row)), elem_of_seqZ. lia.
    + exists (square N (vat p i) i). split; [|apply elem_of_square; by right; left].
      apply (list_elem_of_fmap_2 (fun row => square N (vat p row) row)), elem_of_seqZ. lia.
Qed.

(** A list of choices. *)
Lemma choose_vector (P : Z -> Z -> Prop) n : (forall r, 0 <= r < Z.of_nat n -> exists c, P r c) -> exists p, zlen p = Z.of_nat n /\ forall r, 0 <= r < Z.of_nat n -> P r (vat p r).
Proof.
  induction n as [|n IH]; intros Hc; [exists []; split; [done|lia]|]. destruct IH as (p & Hl & Hp); [intros r Hr; apply Hc; lia|].
  destruct (Hc (Z.of_nat n)) as [c HPc]; [lia|]. exists (p ++ [c]). split; [rewrite zlen_snoc; lia|]. intros r Hr.
  rewrite vat_app by lia. case_decide; [apply Hp; lia|]. assert (r = Z.of_nat n) as -> by lia. rewrite Hl, Z.sub_diag. done.
Qed.

Lemma cover_placement Ns : name_cover ps (squares N) Ns -> exists p, placement N p /\ Ns ≡ₚ queens_of p.
Proof.
  intros [Hrows Hdis Hall].
  destruct (choose_vector (fun row col => 0 <= col < N /\ square N col row ∈ Ns) (Z.to_nat N)) as (p & Hl & Hp).
  { intros row Hr. assert (N + row ∈ ps) as Hin by (apply elem_of_ring_columns; exists row; rewrite elem_of_seqZ; split; [lia|by right]).
    apply Hall, elem_of_concat in Hin as (A & HA & Hx). pose proof (Hrows A HA) as (col & row' & -> & Hc & Hr')%elem_of_squares.
    apply elem_of_square in Hx. assert (row = row') as -> by lia. by exists col. }
  rewrite Z2Nat.id in Hl, Hp by lia.
  assert (forall r r' x, 0 <= r < N -> 0 <= r' < N -> x ∈ square N (vat p r) r -> x ∈ square N (vat p r') r' -> r = r') as Hone.
  { intros r r' x Hr Hr' Hx Hx'. destruct (Hp r Hr) as [H1 H2], (Hp r' Hr') as [H1' H2'].
    pose proof (concat_disjoint Ns _ _ x Hdis H2 H2' Hx Hx') as E. unfold square in E. injection E. lia. }
  exists p. split; [split; [done|split]|].
  - apply Forall_lookup. intros i c Hi. assert (0 <= Z.of_nat i < N) as Hr by (apply lookup_lt_Some in Hi; unfold zlen in Hl; lia).
    destruct (Hp _ Hr) as [H1 _]. unfold vat in H1. rewrite Nat2Z.id, (list_lookup_total_correct _ _ _ Hi) in H1. done.
  - apply peaceful_at; [done|]. intros r r' Hr Hr'. split.
    + intros E. pose proof (Hone r r' (vat p r) ltac:(lia) ltac:(lia)) as H. rewrite !elem_of_square in H. lia.
    + intros E. pose proof (Hone r r' (2 * N + r + vat p r) ltac:(lia) ltac:(lia)) as H. pose proof (Hone r r' (5 * N + r - vat p r) ltac:(lia) ltac:(lia)) as H'.
      rewrite !elem_of_square in H, H'. lia.
  - apply NoDup_Permutation.
    + apply concat_NoDup_elem; [done|]. intros A HA. by apply Hrows, elem_of_squares in HA as (? & ? & -> & _).
    + apply NoDup_fmap_2_strong; [|apply NoDup_seqZ]. intros r r' _ _ E. unfold square in E. injection E. lia.
    + intros A. split.
      * intros HA. pose proof (Hrows A HA) as (col & row & -> & Hc & Hr)%elem_of_squares. destruct (Hp row Hr) as [_ H2].
        rewrite (concat_disjoint Ns (square N col row) (square N (vat p row) row) (N + row)); [|done..|apply elem_of_square; by right; left|apply elem_of_square; by right; left].
        apply (list_elem_of_fmap_2 (fun row => square N (vat p row) row)), elem_of_seqZ. lia.
      * intros (row & -> & Hr%elem_of_seqZ)%list_elem_of_fmap. apply Hp. lia.
Qed.

Lemma queens_of_inj p p' : placement N p -> placement N p' -> queens_of p ≡ₚ queens_of p' -> p = p'.
Proof.
  intros (Hl & _) (Hl' & _) Hperm. apply vat_ext; [congruence|]. intros row Hr.
  assert (square N (vat p row) row ∈ queens_of p') as (row' & E & _)%list_elem_of_fmap.
  { rewrite <- Hperm. apply (list_elem_of_fmap_2 (fun row => square N (vat p row) row)), elem_of_seqZ. lia. }
  unfold square in E. injection E as E1 E2 _ _. assert (row = row') as -> by lia. done.
Qed.

(** ** Lemmas: counting *)

Lemma squares_NoDup : NoDup (squares N).
Proof.
  unfold squares. apply NoDup_bind; [|intros col _; apply NoDup_fmap_2_strong; [|apply NoDup_seqZ]|apply NoDup_seqZ].
  - intros c c' A _ _ (r & -> & _)%list_elem_of_fmap (r' & E & _)%list_elem_of_fmap. unfold square in E. by injection E.
  - intros r r' _ _ E. unfold square in E. injection E. lia.
Qed.

Lemma visit_counts (Ls : list (list addr)) h n : 0 <= n -> n + zlen Ls < 2 ^ 63 -> visit (count_solution h) Ls n = Ok (false, n + zlen Ls).
Proof.
  induction Ls as [|l Ls IH] in n |- *; intros Hn Hlt; [by rewrite zlen_nil, Z.add_0_r|]. rewrite zlen_cons in *. cbn [visit].
  change (count_solution h l n) with (m ← int64_add n 1; Ok (false, m)).
  pose proof (zlen_nonneg Ls). rewrite int64_add_one by lia. cbn [mbind outcome_bind]. rewrite IH by lia. do 2 f_equal. lia.
Qed.

Lemma placements_small n : counts N n -> n < 2 ^ 63.
Proof.
  intros Hc. rewrite (counts_unique N n _ Hc (completions_counts N ltac:(lia))). unfold kMaxQueens in N_range.
  destruct (decide (N < 2)) as [Hlt|Hge].
  - assert (N = 0 \/ N = 1) as [->| ->] by lia; vm_compute; done.
  - pose proof (total_small N (Z.to_nat (N - 2)) ltac:(lia) ltac:(lia)) as Ht. unfold int64_max in Ht. lia.
Qed.

Lemma nqueens_dl_ok : exists n, nqueens_dl N = Ok n /\ counts N n.
Proof.
  unfold nqueens_dl. destruct QueenSolver_ok as (d & -> & rows & HB & Erows & _). cbn [mbind outcome_bind].
  destruct (named_search _ _ _ _ _ HB count_solution (S (Z.to_nat kMaxColumns)) 0) as (Ls & Ss & Hpick & Hd & Hsound & Hcomplete & Hres).
  - intros R HR. assert (row_names d R ∈ squares N) as (col & row & E & Hc & _)%elem_of_squares by (rewrite <- Erows; by apply list_elem_of_fmap_2).
    exists col. rewrite E. split; [apply elem_of_square; by left|]. apply elem_of_ring_columns. exists col. rewrite elem_of_seqZ. split; [lia|by left].
  - rewrite Erows. apply squares_NoDup.
  - done.
  - unfold ps. assert (zlen (ring_columns N (seqZ 0 N)) = 2 * N) as Hz by (unfold ring_columns; rewrite zlen_pairs; unfold zlen; rewrite length_seqZ; lia).
    unfold zlen, kMaxColumns, kMaxQueens in *. lia.
  - rewrite Erows in Hsound, Hcomplete.
    destruct (covers_stand_for (placement N) queens_of (rows_names d) Ss) as (qs & Hnd & Hqs & Hlen).
    + intros S HS. destruct (Hsound S HS) as [_ Hc]. apply (cover_placement _ Hc).
    + intros p Hp. apply Hcomplete. by apply placement_cover.
    + apply queens_of_inj.
    + exact Hd.
    + assert (zlen Ls = zlen Ss) as El by (unfold zlen; by rewrite (Forall2_length _ _ _ Hpick)).
      assert (counts N (zlen Ls)) as Hcounts by (exists qs; split; [done|split; [done|congruence]]).
      pose proof (placements_small _ Hcounts). rewrite visit_counts in Hres by lia. cbn [search_result] in Hres. rewrite Hres. cbn [mbind outcome_bind].
      exists (zlen Ls). split; [done|exact Hcounts].
Qed.
End queens.

(** ** Properties *)

(** C32: on a board of at most 20 columns the program on dancing links counts
    the placements in which no queen attacks another, as the programs of
    Queens.v do; a larger board fails the assertion of the constructor. *)
Theorem dancing_queens_count N :
  0 <= N ->
  (N <= 20 -> exists n, nqueens_dl N = Ok n /\ counts N n) /\ (20 < N -> nqueens_dl N = Fail AssertFail).
Proof.
  intros HN. split; intros HN'; [by apply nqueens_dl_ok|]. unfold nqueens_dl, QueenSolver.
  destruct (holds_empty kMaxColumns kMaxNodes) as (d & -> & _); [done|done|]. cbn [mbind outcome_bind].
  by rewrite (proj2 (Z.leb_gt N kMaxQueens)).
Qed.

Lemma dancing_queens_count_witness : nqueens_dl 6 = Ok 4 /\ counts 6 4 /\ nqueens_dl 21 = Fail AssertFail.
Proof.
  assert (nqueens_dl 6 = Ok 4) as E by (vm_compute; reflexivity).
  destruct (proj1 (dancing_queens_count 6 ltac:(lia)) ltac:(lia)) as (n & En & Hc). rewrite E in En. injection En as <-.
  split; [exact E|]. split; [exact Hc|]. apply (proj2 (dancing_queens_count 21 ltac:(lia))). lia.
Defined.
