(* ===== verification/SudokuDance.v ===== *)
(** * SudokuDance: the solver by dancing links

    Models [sudoku/sudoku_dancing_links.cc] on the structure of
    DancingLinks.v: a column of the ring for each blank cell and for each
    digit that a row, a column or a box lacks, and a row of four nodes for
    each digit that a blank may take.  When the ring is empty the stack is
    read off into the board.  The theorem compares it with the three solvers
    of Sudoku.v. *)
From S2P Require Import Prelude CFormat Vector Sudoku DancingLinks.

Definition kMaxNodes : Z := 1 + 81 * 4 + 9 * 9 * 9 * 4.
Definition kMaxColumns : Z := 400.
Definition kRow : Z := 100.
Definition kCol : Z := 200.
Definition kBox : Z := 300.

Definition get_row_col (row val : Z) : Z := kRow + row * 10 + val.
Definition get_col_col (col val : Z) : Z := kCol + col * 10 + val.
Definition get_box_col (box val : Z) : Z := kBox + box * 10 + val.

(** [i / 9], [i % 9] and [row/3*3 + col/3]. *)
Definition row_of (i : Z) : Z := i / 9.
Definition col_of (i : Z) : Z := i mod 9.
Definition box_of (i : Z) : Z := row_of i / 3 * 3 + col_of i / 3.

(** [rows], [cols] and [boxes] of the constructor. *)
Record marks := mkMarks { rows : list (list bool); cols : list (list bool); boxes : list (list bool) }.

Definition mark_cell (inout : list Z) (m : marks) (i : Z) : outcome marks :=
  val ← vget inout i;
  r ← vset2 (rows m) (row_of i) val true;
  c ← vset2 (cols m) (col_of i) val true;
  b ← vset2 (boxes m) (box_of i) val true;
  Ok (mkMarks r c b).
Definition no_marks : marks := let none := replicate 81 (replicate 10 false) in mkMarks none none none.
Definition mark_cells (inout : list Z) : outcome marks := for_ 0 N (mark_cell inout) no_marks.

Definition append_blank (inout : list Z) (d : Dance) (i : Z) : outcome Dance :=
  v ← vget inout i; if v =? 0 then append_column kMaxNodes i d else Ok d.
Definition append_blanks (inout : list Z) (d : Dance) : outcome Dance := for_ 0 N (append_blank inout) d.

Definition append_missing (m : marks) (i v : Z) (d : Dance) : outcome Dance :=
  r ← vget2 (rows m) i v; d ← (if negb r then append_column kMaxNodes (get_row_col i v) d else Ok d);
  c ← vget2 (cols m) i v; d ← (if negb c then append_column kMaxNodes (get_col_col i v) d else Ok d);
  b ← vget2 (boxes m) i v; if negb b then append_column kMaxNodes (get_box_col i v) d else Ok d.
Definition append_lines (m : marks) (d : Dance) : outcome Dance :=
  for_ 0 9 (fun d i => for_ 1 10 (fun d v => append_missing m i v d) d) d.

(** [rows[row][v] || cols[col][v] || boxes[box][v]]. *)
Definition or_else (a b : outcome bool) : outcome bool := x ← a; if (x : bool) then Ok true else b.
Definition excluded (m : marks) (i v : Z) : outcome bool :=
  or_else (vget2 (rows m) (row_of i) v) (or_else (vget2 (cols m) (col_of i) v) (vget2 (boxes m) (box_of i) v)).
Definition append_guess (m : marks) (i v : Z) (d : Dance) : outcome Dance :=
  x ← excluded m i v;
  if negb x then new_row4 kMaxNodes i (get_row_col (row_of i) v) (get_col_col (col_of i) v) (get_box_col (box_of i) v) d else Ok d.
Definition append_guesses (inout : list Z) (m : marks) (d : Dance) : outcome Dance :=
  for_ 0 N (fun d i => val ← vget inout i; if val =? 0 then for_ 1 10 (fun d v => append_guess m i v d) d else Ok d) d.

(** The constructor. *)
Definition new_Dance (inout : list Z) : outcome Dance :=
  d ← empty_dance kMaxNodes kMaxColumns;
  m ← mark_cells inout;
  d ← append_blanks inout d;
  d ← append_lines m d;
  append_guesses inout m d.

(** The loop that reads a node of the stack. *)
Fixpoint read_row (fuel : nat) (h : heap) (n cell val : Z) : outcome (Z * Z) :=
  match fuel with
  | O => Fail Undefined
  | S fuel =>
      if (cell =? -1) || (val =? -1) then
        x ← get h n;
        if name x <? 100 then read_row fuel h (right x) (name x) val
        else read_row fuel h (right x) cell (Z.rem (name x) 10)
      else Ok (cell, val)
  end.
Definition fill (h : heap) (inout : list Z) (n : addr) : outcome (list Z) :=
  '(cell, val) ← read_row (ring_fuel h) h n (-1) (-1); vset inout cell val.
Definition fill_board (h : heap) (stack_ : list addr) (inout : list Z) : outcome (bool * list Z) :=
  b ← foldM (fill h) inout stack_; Ok (true, b).

Definition solve_sudoku_dancing_links (board : list Z) : outcome (bool * list Z) :=
  d ← new_Dance board;
  '(r, _, b) ← DancingLinks.solve fill_board (S (Z.to_nat kMaxColumns)) (nodes_ d) [] board;
  Ok (r, b).

(** The loop of main.cc with this solver. *)
Definition puzzle_dance (inp : list Byte.byte) (s : state) : outcome (bool * state) :=
  s ← input inp s;
  s ← init_cache s;
  '(r, b) ← solve_sudoku_dancing_links (board s);
  let s := set_board b s in
  if (r : bool) then ok ← solved (board s); _ ← assert_ ok; Ok (true, s) else Ok (false, s).

(** ** Lemmas: rows, columns and boxes *)

Inductive kind := Row | Col | Box.
Definition kinds : list kind := [Row; Col; Box].
Definition line (k : kind) : Z -> Z := match k with Row => row_of | Col => col_of | Box => box_of end.
Definition array (k : kind) : marks -> list (list bool) := match k with Row => rows | Col => cols | Box => boxes end.
Definition column (k : kind) : Z -> Z -> Z := match k with Row => get_row_col | Col => get_col_col | Box => get_box_col end.

Lemma elem_of_kinds k : k ∈ kinds.
Proof. destruct k; unfold kinds; rewrite !elem_of_cons; tauto. Qed.

Definition on_line (k : kind) (c d : Z) : bool := line k c =? line k d.

Lemma related_lines c d : 0 <= c < N -> 0 <= d < N -> related c d = true <-> (exists k, line k c = line k d) /\ c <> d.
Proof.
  intros Hc Hd. assert (related c d = existsb (fun k => on_line k c d) kinds && negb (c =? d)) as ->.
  { assert (forallb (fun c => forallb (fun d => eqb (related c d) (existsb (fun k => on_line k c d) kinds && negb (c =? d))) (seqZ 0 81)) (seqZ 0 81) = true) as H
      by (vm_compute; reflexivity).
    unfold N in *. rewrite forallb_forall in H. specialize (H c ltac:(apply list_elem_of_In, elem_of_seqZ; lia)). rewrite forallb_forall in H.
    specialize (H d ltac:(apply list_elem_of_In, elem_of_seqZ; lia)). by apply eqb_prop in H. }
  rewrite andb_true_iff, negb_true_iff, Z.eqb_neq, existsb_exists. split.
  - intros [(k & _ & Hk%Z.eqb_eq) Hne]. split; [by exists k|done].
  - intros [(k & Hk) Hne]. split; [|done]. exists k. split; [apply list_elem_of_In, elem_of_kinds|by apply Z.eqb_eq].
Qed.

Lemma line_range k c : 0 <= c < N -> 0 <= line k c < 9.
Proof. unfold N. destruct k; cbn [line]; unfold row_of, col_of, box_of, row_of, col_of; dlia. Qed.

Lemma column_inj k k' l l' v v' : 0 <= l < 9 -> 0 <= l' < 9 -> 1 <= v <= 9 -> 1 <= v' <= 9 -> column k l v = column k' l' v' -> k = k' /\ l = l' /\ v = v'.
Proof.
  intros Hl Hl' Hv Hv'. destruct k, k'; cbn [column]; unfold get_row_col, get_col_col, get_box_col, kRow, kCol, kBox; intros E; try lia; (split; [done|lia]).
Qed.

Lemma column_range k l v : 0 <= l < 9 -> 1 <= v <= 9 -> 100 <= column k l v < kMaxColumns.
Proof. intros Hl Hv. destruct k; cbn [column]; unfold get_row_col, get_col_col, get_box_col, kRow, kCol, kBox, kMaxColumns; lia. Qed.

(** The cells of a line. *)
Definition cells (k : kind) (l : Z) : list Z := filter (fun c => line k c = l) (seqZ 0 81).

Lemma elem_of_cells k l c : c ∈ cells k l <-> 0 <= c < N /\ line k c = l.
Proof. unfold cells, N. rewrite list_elem_of_filter, elem_of_seqZ. intuition lia. Qed.

Lemma nine_cells k l : 0 <= l < 9 -> length (cells k l) = 9%nat.
Proof.
  intros Hl. assert (forallb (fun k => forallb (fun l => (length (cells k l) =? 9)%nat) (seqZ 0 9)) kinds = true) as H by (vm_compute; reflexivity).
  rewrite forallb_forall in H. specialize (H k (proj1 (list_elem_of_In _ _) (elem_of_kinds k))). rewrite forallb_forall in H.
  apply Nat.eqb_eq, H, list_elem_of_In, elem_of_seqZ. lia.
Qed.

(** In a grid each line has each digit, and conversely. *)
Lemma grid_line b k l v : valid_grid b -> 0 <= l < 9 -> 1 <= v <= 9 -> exists c, 0 <= c < N /\ line k c = l /\ vat b c = v.
Proof.
  intros (Hlen & Hdig & Hrel) Hl Hv. assert (vat b <$> cells k l ≡ₚ seqZ 1 9) as Hp.
  { apply submseteq_length_Permutation; [|rewrite length_fmap, nine_cells, length_seqZ by done; lia]. apply NoDup_submseteq.
    - apply NoDup_fmap_2_strong; [|apply NoDup_filter, NoDup_seqZ]. intros c d [Hc Ec]%elem_of_cells [Hd Ed]%elem_of_cells E.
      destruct (decide (c = d)) as [|Hne]; [done|]. exfalso. apply (Hrel c d Hc Hd); [|done]. apply related_lines; [done..|]. split; [|done]. exists k. congruence.
    - intros x (c & -> & [Hc _]%elem_of_cells)%list_elem_of_fmap. specialize (Hdig c Hc). apply elem_of_seqZ. unfold NUM in *. lia. }
  assert (v ∈ vat b <$> cells k l) as (c & -> & [Hc Ec]%elem_of_cells)%list_elem_of_fmap by (rewrite Hp; apply elem_of_seqZ; lia). by exists c.
Qed.

Lemma grid_of_lines b :
  zlen b = N -> (forall k l v, 0 <= l < 9 -> 1 <= v <= 9 -> exists c, 0 <= c < N /\ line k c = l /\ vat b c = v) -> valid_grid b.
Proof.
  intros Hlen Hall. assert (forall k l, 0 <= l < 9 -> vat b <$> cells k l ≡ₚ seqZ 1 9) as Hp.
  { intros k l Hl. symmetry. apply submseteq_length_Permutation; [|rewrite length_fmap, nine_cells, length_seqZ by done; lia].
    apply NoDup_submseteq; [apply NoDup_seqZ|]. intros v Hv%elem_of_seqZ. destruct (Hall k l v Hl ltac:(lia)) as (c & Hc & Ec & <-).
    apply list_elem_of_fmap_2, elem_of_cells. done. }
  split; [done|]. split.
  - intros c Hc. assert (vat b c ∈ vat b <$> cells Row (line Row c)) as Hin by (apply list_elem_of_fmap_2, elem_of_cells; done).
    rewrite Hp in Hin by (by apply line_range). apply elem_of_seqZ in Hin. unfold NUM. lia.
  - intros c d Hc Hd [(k & Ek) Hne]%related_lines E; [|done..]. assert (NoDup (vat b <$> cells k (line k c))) as Hnd by (rewrite Hp by (by apply line_range); apply NoDup_seqZ).
    apply Hne. assert (c ∈ cells k (line k c)) as [i Hi]%list_elem_of_lookup by (by apply elem_of_cells).
    assert (d ∈ cells k (line k c)) as [j Hj]%list_elem_of_lookup by (by apply elem_of_cells). rewrite NoDup_alt in Hnd.
    assert (i = j) as ->; [|congruence]. apply (Hnd i j (vat b c)); rewrite list_lookup_fmap; [by rewrite Hi|by rewrite Hj, <- E].
Qed.

(** ** Lemmas: building *)

(** The digit [v] is given on the line. *)
Definition given (b : list Z) (k : kind) (l v : Z) : bool := existsb (fun c => (line k c =? l) && (vat b c =? v)) (seqZ 0 81).
Definition open (b : list Z) (c v : Z) : bool := forallb (fun k => negb (given b k (line k c) v)) kinds.

Definition blanks (b : list Z) (cs : list Z) : list Z := filter (fun c => vat b c = 0) cs.
Definition lacking (b : list Z) (l v : Z) : list Z := (fun k => column k l v) <$> filter (fun k => given b k l v = false) kinds.
Definition all_lacking (b : list Z) (ls : list Z) : list Z := ls ≫= (fun l => seqZ 1 9 ≫= lacking b l).
Definition guess (c v : Z) : list Z := c :: ((fun k => column k (line k c) v) <$> kinds).
Definition guesses_at (b : list Z) (c : Z) (vs : list Z) : list (list Z) := guess c <$> filter (fun v => open b c v = true) vs.
Definition guesses (b : list Z) (cs : list Z) : list (list Z) := cs ≫= (fun c => if decide (vat b c = 0) then guesses_at b c (seqZ 1 9) else []).

Definition ring_names (b : list Z) : list Z := blanks b (seqZ 0 81) ++ all_lacking b (seqZ 0 9).

Lemma given_spec b k l v : given b k l v = true <-> exists c, 0 <= c < N /\ line k c = l /\ vat b c = v.
Proof.
  unfold given. rewrite existsb_exists. split.
  - intros (c & Hc%list_elem_of_In%elem_of_seqZ & [E1%Z.eqb_eq E2%Z.eqb_eq]%andb_true_iff). exists c. unfold N. split; [lia|done].
  - intros (c & Hc & E1 & E2). exists c. split; [apply list_elem_of_In, elem_of_seqZ; unfold N in Hc; lia|]. by rewrite E1, E2, !Z.eqb_refl.
Qed.

Lemma open_spec b c v : open b c v = true <-> forall k, given b k (line k c) v = false.
Proof.
  unfold open. rewrite forallb_forall. split.
  - intros H k. specialize (H k (proj1 (list_elem_of_In _ _) (elem_of_kinds k))). by apply negb_true_iff in H.
  - intros H k _. by rewrite H.
Qed.

Lemma elem_of_blanks b cs c : c ∈ blanks b cs <-> vat b c = 0 /\ c ∈ cs.
Proof. unfold blanks. by rewrite list_elem_of_filter. Qed.

Lemma elem_of_lacking b l v x : x ∈ lacking b l v <-> exists k, given b k l v = false /\ x = column k l v.
Proof.
  unfold lacking. rewrite list_elem_of_fmap. split.
  - intros (k & -> & [Hk _]%list_elem_of_filter). by exists k.
  - intros (k & Hk & ->). exists k. split; [done|]. apply list_elem_of_filter. split; [done|apply elem_of_kinds].
Qed.

Lemma elem_of_all_lacking b ls x : x ∈ all_lacking b ls <-> exists k l v, l ∈ ls /\ 1 <= v <= 9 /\ given b k l v = false /\ x = column k l v.
Proof.
  unfold all_lacking. rewrite list_elem_of_bind. split.
  - intros (l & (v & (k & Hk & ->)%elem_of_lacking & Hv%elem_of_seqZ)%list_elem_of_bind & Hl). exists k, l, v. split; [done|]. split; [lia|done].
  - intros (k & l & v & Hl & Hv & Hk & ->). exists l. split; [|done]. apply list_elem_of_bind. exists v. split; [|apply elem_of_seqZ; lia].
    apply elem_of_lacking. by exists k.
Qed.

Lemma elem_of_guesses b cs A : A ∈ guesses b cs <-> exists c v, A = guess c v /\ c ∈ cs /\ vat b c = 0 /\ 1 <= v <= 9 /\ open b c v = true.
Proof.
  unfold guesses. rewrite list_elem_of_bind. split.
  - intros (c & HA & Hc). case_decide as Hz; [|by apply not_elem_of_nil in HA]. apply list_elem_of_fmap in HA as (v & -> & [Ho Hv%elem_of_seqZ]%list_elem_of_filter).
    exists c, v. split; [done|]. split; [done|]. split; [done|]. split; [lia|done].
  - intros (c & v & -> & Hc & Hz & Hv & Ho). exists c. split; [|done]. rewrite decide_True by done. apply list_elem_of_fmap_2, list_elem_of_filter.
    split; [done|]. apply elem_of_seqZ. lia.
Qed.

Lemma elem_of_guess c v x : x ∈ guess c v <-> x = c \/ exists k, x = column k (line k c) v.
Proof.
  unfold guess. rewrite elem_of_cons, list_elem_of_fmap. split; (intros [->|(k & H)]; [by left|right; exists k]); [tauto|]. split; [done|apply elem_of_kinds].
Qed.

Lemma guess_NoDup c v : 0 <= c < N -> 1 <= v <= 9 -> NoDup (guess c v).
Proof.
  intros Hc Hv. assert (forall k, 0 <= line k c < 9) as Hl by (intros k; by apply line_range). unfold guess. apply NoDup_cons. split.
  - intros (k & E & _)%list_elem_of_fmap. pose proof (column_range k (line k c) v (Hl k) Hv). unfold N in Hc. lia.
  - apply NoDup_fmap_2_strong; [|unfold kinds; repeat (apply NoDup_cons; split; [rewrite ?elem_of_cons, ?not_elem_of_cons; by (intuition (discriminate || eapply not_elem_of_nil; eassumption))|]); constructor].
    intros k k' _ _ E. by apply column_inj in E as [? _].
Qed.

Section build.
Context (b : list Z) (b_len : zlen b = N) (b_digits : forall c, 0 <= c < N -> 0 <= vat b c <= NUM).

Lemma mark_cells_ok :
  exists m, mark_cells b = Ok m /\ forall k, shape (array k m) /\ forall l v, 0 <= l < N -> 0 <= v <= NUM -> at2 (array k m) l v = given b k l v.
Proof.
  unfold mark_cells, given. apply (for_inv (fun i m => forall k, shape (array k m) /\ forall l v, 0 <= l < N -> 0 <= v <= NUM ->
    at2 (array k m) l v = existsb (fun c => (line k c =? l) && (vat b c =? v)) (seqZ 0 i))).
  - done.
  - assert (shape (replicate 81 (replicate 10 false))) as Hs.
    { split; [done|]. intros y Hy. unfold vat. rewrite lookup_total_replicate_2 by (unfold N in Hy; lia). done. }
    intros k. assert (array k no_marks = replicate 81 (replicate 10 false)) as -> by by destruct k. split; [done|]. intros l v Hl Hv. cbn [seqZ existsb].
    unfold at2, vat. rewrite lookup_total_replicate_2 by (unfold N in Hl; lia). rewrite lookup_total_replicate_2 by (unfold NUM in Hv; lia). done.
  - intros i m Hi Hm. change (0 <= i < N) in Hi. unfold mark_cell. rewrite vget_ok by lia. cbn [mbind outcome_bind]. pose proof (b_digits i Hi) as Hd.
    assert (forall k, 0 <= line k i < N) as Hline by (intros k; pose proof (line_range k i Hi); unfold N; lia).
    assert (forall k, vset2 (array k m) (line k i) (vat b i) true = Ok (upd2 (array k m) (line k i) (vat b i) true)) as Hset.
    { intros k. destruct (Hm k) as [Hs _]. by apply vset2_ok. }
    rewrite (Hset Row : vset2 (rows m) (row_of i) _ _ = _). cbn [mbind outcome_bind].
    rewrite (Hset Col : vset2 (cols m) (col_of i) _ _ = _). cbn [mbind outcome_bind].
    rewrite (Hset Box : vset2 (boxes m) (box_of i) _ _ = _). cbn [mbind outcome_bind]. eexists. split; [done|]. intros k.
    destruct (Hm k) as [Hs Hat].
    assert (array k (mkMarks (upd2 (array Row m) (line Row i) (vat b i) true) (upd2 (array Col m) (line Col i) (vat b i) true) (upd2 (array Box m) (line Box i) (vat b i) true)) =
      upd2 (array k m) (line k i) (vat b i) true) as -> by by destruct k.
    split; [by apply shape_upd2|]. intros l v Hl Hv. rewrite at2_upd2 by done.
    replace (seqZ 0 (i + 1)) with (seqZ 0 i ++ [i]) by (rewrite seqZ_app by lia; do 2 f_equal; lia).
    rewrite existsb_app, <- Hat by done. cbn [existsb]. rewrite orb_false_r. case_decide as Hlv.
    + destruct Hlv as [-> ->]. by rewrite !Z.eqb_refl, orb_true_r.
    + destruct (Z.eqb_spec (line k i) l), (Z.eqb_spec (vat b i) v); cbn; rewrite ?orb_false_r; try done. by destruct Hlv.
Qed.

Lemma append_unless P d (g : bool) x : holds kMaxColumns P [] [] d -> x ∉ P -> 0 <= x < kMaxColumns -> zlen P < 400 ->
  exists d', (if negb g then append_column kMaxNodes x d else Ok d) = Ok d' /\ holds kMaxColumns (P ++ (if g then [] else [x])) [] [] d'.
Proof.
  intros Hd Hx Hr Hz. destruct g; cbn [negb]; [exists d; by rewrite app_nil_r|]. apply holds_append; [done| |done|by rewrite app_nil_r].
  change (zlen (@nil Z)) with 0. change (zlen (@nil (list Z))) with 0. unfold kMaxNodes. lia.
Qed.

Lemma append_blanks_ok d : holds kMaxColumns [] [] [] d -> exists d', append_blanks b d = Ok d' /\ holds kMaxColumns (blanks b (seqZ 0 81)) [] [] d'.
Proof.
  intros Hd. unfold append_blanks. apply (for_inv (fun i d => holds kMaxColumns (blanks b (seqZ 0 i)) [] [] d)); [done|done|].
  intros i d0 Hi H0. change (0 <= i < N) in Hi. unfold append_blank. rewrite vget_ok by lia. cbn [mbind outcome_bind].
  replace (seqZ 0 (i + 1)) with (seqZ 0 i ++ [i]) by (rewrite seqZ_app by lia; do 2 f_equal; lia). unfold blanks in *. rewrite filter_app.
  assert (zlen (filter (fun c => vat b c = 0) (seqZ 0 i)) <= i) as Hz by (etrans; [apply zlen_filter_le|rewrite zlen_seqZ; lia]).
  destruct (append_unless _ d0 (negb (vat b i =? 0)) i H0) as (d' & E & H'); [|unfold N, kMaxColumns in *; lia|unfold N in *; lia|].
  - intros [_ Hin%elem_of_seqZ]%list_elem_of_filter. lia.
  - exists d'. rewrite negb_involutive in E. split; [done|]. rewrite filter_cons. by destruct (Z.eqb_spec (vat b i) 0); case_decide.
Qed.

Context (m : marks).
Hypothesis m_ok : forall k, shape (array k m) /\ forall l v, 0 <= l < N -> 0 <= v <= NUM -> at2 (array k m) l v = given b k l v.

Lemma read_mark k l v : 0 <= l < 9 -> 1 <= v <= 9 -> vget2 (array k m) l v = Ok (given b k l v).
Proof.
  intros Hl Hv. destruct (m_ok k) as [Hs Hat]. rewrite vget2_ok by (done || unfold N, NUM; lia). by rewrite Hat by (unfold N, NUM; lia).
Qed.

Lemma append_missing_ok P d l v : holds kMaxColumns P [] [] d -> 0 <= l < 9 -> 1 <= v <= 9 -> (forall k, column k l v ∉ P) -> zlen P + 3 <= 400 ->
  exists d', append_missing m l v d = Ok d' /\ holds kMaxColumns (P ++ lacking b l v) [] [] d'.
Proof.
  intros Hd Hl Hv HP Hz. assert (forall k, 0 <= column k l v < kMaxColumns) as Hc by (intros k; pose proof (column_range k l v Hl Hv); lia).
  assert (forall k k', k <> k' -> column k l v <> column k' l v) as Hne by (intros k k' Hkk E; by apply column_inj in E as [? _]).
  unfold append_missing. rewrite (read_mark Row l v Hl Hv : vget2 (rows m) l v = _). cbn [mbind outcome_bind].
  set (r := given b Row l v). set (c := given b Col l v). set (x := given b Box l v).
  destruct (append_unless _ _ r (column Row l v) Hd) as (d1 & E1 & H1); [done|done|lia|].
  cbn [column] in E1. rewrite E1. cbn [mbind outcome_bind]. rewrite (read_mark Col l v Hl Hv : vget2 (cols m) l v = _). cbn [mbind outcome_bind].
  destruct (append_unless _ _ c (column Col l v) H1) as (d2 & E2 & H2); [|done|rewrite zlen_app; destruct r; rewrite ?zlen_cons, ?zlen_nil; lia|].
  { intros [Hin|Hin]%elem_of_app; [by apply (HP Col)|]. destruct r; [by apply not_elem_of_nil in Hin|]. apply list_elem_of_singleton in Hin. by apply (Hne Col Row). }
  cbn [column] in E2. fold c. rewrite E2. cbn [mbind outcome_bind]. rewrite (read_mark Box l v Hl Hv : vget2 (boxes m) l v = _). cbn [mbind outcome_bind].
  destruct (append_unless _ _ x (column Box l v) H2) as (d3 & E3 & H3); [|done|rewrite !zlen_app; destruct r, c; rewrite ?zlen_cons, ?zlen_nil; lia|].
  { rewrite !elem_of_app. intros [[Hin|Hin]|Hin]; [by apply (HP Box)| |].
    - destruct r; [by apply not_elem_of_nil in Hin|]. apply list_elem_of_singleton in Hin. by apply (Hne Box Row).
    - destruct c; [by apply not_elem_of_nil in Hin|]. apply list_elem_of_singleton in Hin. by apply (Hne Box Col). }
  exists d3. split; [exact E3|]. assert (lacking b l v = (if r then [] else [column Row l v]) ++ (if c then [] else [column Col l v]) ++ (if x then [] else [column Box l v])) as ->.
  { unfold lacking, kinds. rewrite !filter_cons, filter_nil. fold r c x. by destruct r, c, x. }
  by rewrite !app_assoc.
Qed.

Lemma zlen_lacking l v : zlen (lacking b l v) <= 3.
Proof. unfold lacking. rewrite zlen_fmap. etrans; [apply zlen_filter_le|done]. Qed.

Lemma append_lines_ok d : holds kMaxColumns (blanks b (seqZ 0 81)) [] [] d -> exists d', append_lines m d = Ok d' /\ holds kMaxColumns (ring_names b) [] [] d'.
Proof.
  intros Hd. unfold append_lines, for_ at 1, ring_names. set (B := blanks b (seqZ 0 81)) in *.
  assert (zlen B <= 81) as HB by (unfold B, blanks; etrans; [apply zlen_filter_le|done]).
  assert (forall k l v, 0 <= l < 9 -> 1 <= v <= 9 -> column k l v ∉ B) as HnB.
  { intros k l v Hl Hv [_ Hin%elem_of_seqZ]%elem_of_blanks. pose proof (column_range k l v Hl Hv). lia. }
  apply (foldM_inv (fun ls d => holds kMaxColumns (B ++ all_lacking b ls) [] [] d)); [by rewrite app_nil_r|].
  intros ls l rest d0 El H0. symmetry in El. apply next_of_range in El as (Hl & Hnl & Hls & Hlen).
  assert (zlen (all_lacking b ls) <= 27 * zlen ls) as Hz.
  { apply zlen_bind_le. intros x. etrans; [apply (zlen_bind_le _ 3)|done]. intros y. apply zlen_lacking. }
  unfold all_lacking in *. rewrite bind_app. set (L := ls ≫= _) in *. cbn [mbind list_bind]. rewrite app_nil_r. unfold for_.
  apply (foldM_inv (fun vs d => holds kMaxColumns (B ++ L ++ (vs ≫= lacking b l)) [] [] d)); [by rewrite app_nil_r|].
  intros vs v rest' d1 El' H1. symmetry in El'. apply next_of_range in El' as (Hv & Hnv & Hvs & Hlen').
  assert (zlen (vs ≫= lacking b l) <= 3 * zlen vs) as Hz' by (apply zlen_bind_le; intros x; apply zlen_lacking).
  destruct (append_missing_ok _ d1 l v H1) as (d2 & E2 & H2); [lia|lia| |rewrite !zlen_app; lia|].
  - intros k. rewrite !elem_of_app. intros [Hin|[Hin|Hin]].
    + apply (HnB k l v); [lia|lia|done].
    + apply elem_of_all_lacking in Hin as (k' & l' & v' & Hl' & Hv' & _ & E). specialize (Hls l' Hl'). apply column_inj in E as (_ & -> & _); lia || done.
    + apply list_elem_of_bind in Hin as (v' & (k' & _ & E)%elem_of_lacking & Hv'). specialize (Hvs v' Hv'). apply column_inj in E as (_ & _ & ->); lia || done.
  - exists d2. split; [exact E2|]. rewrite bind_app. cbn [mbind list_bind]. rewrite app_nil_r. by rewrite <- !app_assoc in H2.
Qed.

Lemma excluded_ok c v : 0 <= c < N -> 1 <= v <= 9 -> excluded m c v = Ok (negb (open b c v)).
Proof.
  intros Hc Hv. unfold excluded, open, kinds.
  rewrite (read_mark Row (line Row c) v (line_range Row c Hc) Hv : vget2 (rows m) (row_of c) v = _).
  rewrite (read_mark Col (line Col c) v (line_range Col c Hc) Hv : vget2 (cols m) (col_of c) v = _).
  rewrite (read_mark Box (line Box c) v (line_range Box c Hc) Hv : vget2 (boxes m) (box_of c) v = _). cbn [forallb line].
  by destruct (given b Row _ v), (given b Col _ v), (given b Box _ v).
Qed.

Lemma zlen_ring_names : zlen (ring_names b) <= 324.
Proof.
  unfold ring_names. rewrite zlen_app. assert (zlen (blanks b (seqZ 0 81)) <= 81) by (unfold blanks; etrans; [apply zlen_filter_le|done]).
  assert (zlen (all_lacking b (seqZ 0 9)) <= 27 * zlen (seqZ 0 9)) as H2.
  { apply zlen_bind_le. intros x. etrans; [apply (zlen_bind_le _ 3)|done]. intros y. apply zlen_lacking. }
  rewrite zlen_seqZ in H2; lia.
Qed.

Lemma guess_in_ring c v x : 0 <= c < N -> vat b c = 0 -> 1 <= v <= 9 -> open b c v = true -> x ∈ guess c v -> x ∈ ring_names b.
Proof.
  intros Hc Hz Hv Ho. unfold ring_names. rewrite elem_of_app. intros [->|(k & ->)]%elem_of_guess.
  - left. apply elem_of_blanks. split; [done|]. apply elem_of_seqZ. unfold N in Hc. lia.
  - right. apply elem_of_all_lacking. exists k, (line k c), v. pose proof (line_range k c Hc). split; [apply elem_of_seqZ; lia|].
    split; [lia|]. split; [by apply open_spec|done].
Qed.

Lemma append_guess_ok rns c v d :
  holds kMaxColumns (ring_names b) [] rns d -> 0 <= c < N -> vat b c = 0 -> 1 <= v <= 9 -> zlen rns < 729 ->
  exists d', append_guess m c v d = Ok d' /\ holds kMaxColumns (ring_names b) [] (rns ++ (if open b c v then [guess c v] else [])) d'.
Proof.
  intros Hd Hc Hz Hv Hn. pose proof zlen_ring_names as Hr. unfold append_guess. rewrite excluded_ok by done. cbn [mbind outcome_bind]. rewrite negb_involutive.
  destruct (open b c v) eqn:Ho; [|exists d; by rewrite app_nil_r].
  apply (holds_row4 _ _ _ _ _ Hd kMaxNodes).
  - change (zlen (@nil Z)) with 0. unfold kMaxNodes. lia.
  - intros x Hx. rewrite app_nil_r. by apply (guess_in_ring c v).
  - exact (guess_NoDup c v Hc Hv).
  - change (zlen (@nil Z)) with 0. unfold kMaxNodes. lia.
Qed.

Lemma append_guesses_ok d : holds kMaxColumns (ring_names b) [] [] d ->
  exists d', append_guesses b m d = Ok d' /\ holds kMaxColumns (ring_names b) [] (guesses b (seqZ 0 81)) d'.
Proof.
  intros Hd. unfold append_guesses, for_ at 1. change (N - 0) with 81.
  apply (foldM_inv (fun cs d => holds kMaxColumns (ring_names b) [] (guesses b cs) d)); [done|].
  intros cs c rest d0 El H0. symmetry in El. apply next_of_range in El as (Hc & _ & _ & Hlen). change (0 <= c < N) in Hc.
  rewrite vget_ok by lia. cbn [mbind outcome_bind].
  assert (zlen (guesses b cs) <= 9 * zlen cs) as Hz.
  { apply zlen_bind_le. intros x. case_decide; [|done]. unfold guesses_at. rewrite zlen_fmap. etrans; [apply zlen_filter_le|done]. }
  unfold guesses in *. rewrite bind_app. set (L := cs ≫= _) in *. cbn [mbind list_bind]. rewrite app_nil_r.
  destruct (Z.eqb_spec (vat b c) 0) as [Hz0|Hz0]; case_decide; try done; [|exists d0; by rewrite app_nil_r].
  unfold for_, guesses_at. apply (foldM_inv (fun vs d => holds kMaxColumns (ring_names b) [] (L ++ (guess c <$> filter (fun v => open b c v = true) vs)) d)); [by rewrite app_nil_r|].
  intros vs v rest' d1 El' H1. symmetry in El'. apply next_of_range in El' as (Hv & _ & _ & Hlen').
  destruct (append_guess_ok _ c v d1 H1) as (d2 & E2 & H2); [done|done|lia| |].
  - rewrite zlen_app, zlen_fmap. pose proof (zlen_filter_le (fun v => open b c v = true) vs). lia.
  - exists d2. split; [exact E2|]. rewrite filter_app, fmap_app, app_assoc, filter_cons. by destruct (open b c v).
Qed.
End build.

Lemma new_Dance_ok b : zlen b = N -> (forall c, 0 <= c < N -> 0 <= vat b c <= NUM) ->
  exists d, new_Dance b = Ok d /\ holds kMaxColumns (ring_names b) [] (guesses b (seqZ 0 81)) d.
Proof.
  intros Hl Hd. unfold new_Dance. destruct (holds_empty kMaxColumns kMaxNodes) as (d0 & -> & H0); [done|done|]. cbn [mbind outcome_bind].
  destruct (mark_cells_ok b Hl Hd) as (m & -> & Hm). cbn [mbind outcome_bind].
  destruct (append_blanks_ok b Hl d0 H0) as (d1 & -> & H1). cbn [mbind outcome_bind].
  destruct (append_lines_ok b m Hm d1 H1) as (d2 & -> & H2). cbn [mbind outcome_bind]. by apply append_guesses_ok.
Qed.

(** ** Lemmas: covers and grids *)

(** [b'] is a finished grid with the digits of [b]. *)
Definition finishes (b b' : list Z) : Prop := valid_grid b' /\ forall c, 0 <= c < N -> vat b c <> 0 -> vat b' c = vat b c.

(** The guesses that fill the blanks of [b] as in [b']. *)
Definition cover_of (b b' : list Z) : list (list Z) := (fun c => guess c (vat b' c)) <$> blanks b (seqZ 0 81).

Lemma guess_inj c v c' v' : guess c v = guess c' v' -> c = c' /\ v = v'.
Proof. unfold guess, kinds. cbn. unfold get_row_col. intros E. injection E as -> E _ _. split; [done|lia]. Qed.

Lemma guess_cell c v c' : 0 <= c < N -> 1 <= v <= 9 -> 0 <= c' < N -> c' ∈ guess c v -> c' = c.
Proof.
  intros Hc Hv Hc' [->|(k & E)]%elem_of_guess; [done|]. pose proof (column_range k (line k c) v (line_range k c Hc) Hv). unfold N in Hc'. lia.
Qed.

Lemma guess_column c v k l w : 0 <= c < N -> 1 <= v <= 9 -> 0 <= l < 9 -> 1 <= w <= 9 -> column k l w ∈ guess c v -> line k c = l /\ v = w.
Proof.
  intros Hc Hv Hl Hw [E|(k' & E)]%elem_of_guess.
  - pose proof (column_range k l w Hl Hw). unfold N in Hc. lia.
  - apply column_inj in E as (-> & -> & ->); [done|done|by apply line_range|done|done].
Qed.

Section grids.
Context (b b' : list Z).

Lemma blank_range c : c ∈ blanks b (seqZ 0 81) -> 0 <= c < N /\ vat b c = 0.
Proof. intros [Hz Hc%elem_of_seqZ]%elem_of_blanks. unfold N. split; [lia|done]. Qed.

Lemma finishes_cover : finishes b b' -> name_cover (ring_names b) (guesses b (seqZ 0 81)) (cover_of b b').
Proof.
  intros [Hgrid Hkeep]. pose proof Hgrid as (Hlen & Hdig & Hrel). constructor.
  - intros A (c & -> & Hb)%list_elem_of_fmap. apply blank_range in Hb as [Hc Hz]. specialize (Hdig c Hc). unfold NUM in Hdig.
    apply elem_of_guesses. exists c, (vat b' c). split; [done|]. split; [apply elem_of_seqZ; unfold N in Hc; lia|]. split; [done|]. split; [done|].
    apply open_spec. intros k. apply not_true_iff_false. intros (d & Hd & El & Ev)%given_spec.
    apply (Hrel c d Hc Hd); [|rewrite Hkeep by (done || lia); done]. apply related_lines; [done..|]. split; [by exists k|]. intros <-. lia.
  - apply concat_NoDup_intro; [apply NoDup_filter, NoDup_seqZ| |].
    + intros c [Hc _]%blank_range. apply guess_NoDup; [done|]. by apply Hdig.
    + intros c d x [Hc _]%blank_range [Hd _]%blank_range Hx Hx'. pose proof (Hdig c Hc) as Hvc. pose proof (Hdig d Hd) as Hvd. unfold NUM in Hvc, Hvd.
      apply elem_of_guess in Hx as [->|(k & ->)]; [by apply (guess_cell d (vat b' d))|].
      apply guess_column in Hx' as [El Ev]; [|done..|by apply line_range|done].
      destruct (decide (c = d)) as [|Hne]; [done|]. exfalso. apply (Hrel c d Hc Hd); [|done]. apply related_lines; [done..|]. split; [by exists k|done].
  - intros n. unfold ring_names. rewrite elem_of_app, elem_of_concat. intros [Hb|(k & l & v & Hl%elem_of_seqZ & Hv & Hg & ->)%elem_of_all_lacking].
    + exists (guess n (vat b' n)). split; [by apply (list_elem_of_fmap_2 (fun c => guess c (vat b' c)))|apply elem_of_guess; by left].
    + destruct (grid_line b' k l v Hgrid) as (c & Hc & El & Ev); [lia|lia|]. exists (guess c (vat b' c)). split.
      * apply (list_elem_of_fmap_2 (fun c => guess c (vat b' c))). apply elem_of_blanks. split; [|apply elem_of_seqZ; unfold N in Hc; lia].
        destruct (decide (vat b c = 0)) as [|Hz]; [done|]. apply not_true_iff_false in Hg. destruct Hg. apply given_spec. exists c.
        split; [done|]. split; [done|]. by rewrite <- Hkeep.
      * apply elem_of_guess. right. exists k. by rewrite El, Ev.
Qed.

Lemma cover_finishes Ns :
  name_cover (ring_names b) (guesses b (seqZ 0 81)) Ns -> zlen b' = N -> (forall c v, guess c v ∈ Ns -> vat b' c = v) ->
  (forall c, 0 <= c < N -> vat b c <> 0 -> vat b' c = vat b c) -> finishes b b'.
Proof.
  intros [Hrows _ Hall] Hlen Hguess Hkeep. split; [|done]. apply grid_of_lines; [done|]. intros k l v Hl Hv.
  destruct (given b k l v) eqn:Hg.
  - apply given_spec in Hg as (c & Hc & El & Ev). exists c. split; [done|]. split; [done|]. rewrite Hkeep by (done || lia). done.
  - assert (column k l v ∈ concat Ns) as (A & HA & Hx)%elem_of_concat.
    { apply Hall, elem_of_app. right. apply elem_of_all_lacking. exists k, l, v. split; [apply elem_of_seqZ; lia|done]. }
    pose proof (Hrows A HA) as (c & w & -> & Hc%elem_of_seqZ & _ & Hw & _)%elem_of_guesses. assert (0 <= c < N) as Hc' by (unfold N; lia).
    apply guess_column in Hx as [El ->]; [|done..]. exists c. split; [done|]. split; [done|]. by apply Hguess.
Qed.
End grids.

(** ** Lemmas: reading off the stack *)

Lemma read_cell fuel h x y c cell val : fld name h x = Some c -> fld right h x = Some y -> c < 100 -> cell = -1 \/ val = -1 ->
  read_row (S fuel) h x cell val = read_row fuel h y c val.
Proof.
  intros (n & E & Eg & En)%fld_get Hr Hc Hcv. unfold fld in Hr. rewrite E in Hr. injection Hr as Hr. cbn [read_row].
  replace ((cell =? -1) || (val =? -1)) with true by (symmetry; apply orb_true_iff; rewrite !Z.eqb_eq; done).
  rewrite Eg. cbn [mbind outcome_bind]. by rewrite En, Hr, (proj2 (Z.ltb_lt c 100)).
Qed.

Lemma read_column fuel h x y k l v cell val : fld name h x = Some (column k l v) -> fld right h x = Some y -> 0 <= l < 9 -> 1 <= v <= 9 -> cell = -1 \/ val = -1 ->
  read_row (S fuel) h x cell val = read_row fuel h y cell v.
Proof.
  intros (n & E & Eg & En)%fld_get Hr Hl Hv Hcv. unfold fld in Hr. rewrite E in Hr. injection Hr as Hr. cbn [read_row].
  replace ((cell =? -1) || (val =? -1)) with true by (symmetry; apply orb_true_iff; rewrite !Z.eqb_eq; done).
  rewrite Eg. cbn [mbind outcome_bind]. rewrite En, Hr, (proj2 (Z.ltb_ge _ 100)) by (pose proof (column_range k l v Hl Hv); lia).
  f_equal. rewrite Z.rem_mod_nonneg by (pose proof (column_range k l v Hl Hv); lia).
  destruct k; cbn [column]; unfold get_row_col, get_col_col, get_box_col, kRow, kCol, kBox; dlia.
Qed.

Lemma read_end fuel h x cell val : 0 <= cell -> 0 <= val -> read_row (S fuel) h x cell val = Ok (cell, val).
Proof. intros Hc Hv. cbn [read_row]. by rewrite !(proj2 (Z.eqb_neq _ _)) by lia. Qed.

Lemma foldM_ext_in {S A} (f g : S -> A -> outcome S) l s : (forall a s, a ∈ l -> f s a = g s a) -> foldM f s l = foldM g s l.
Proof.
  induction l as [|a l IH] in s |- *; intros Hfg; [done|]. cbn [foldM]. rewrite Hfg by left. destruct (g s a) as [s'|]; [|done].
  cbn [mbind outcome_bind]. apply IH. intros a' s'' Ha. apply Hfg. by right.
Qed.

Section fill.
Context (rows : list (list addr)) (d : Dance) (h : heap) (Hkept : rows_kept rows d h) (rows_nodup : NoDup (concat rows)).

Lemma fill_row R n c v inout :
  R ∈ rows -> row_names d R = guess c v -> n ∈ R -> 0 <= c < N -> 1 <= v <= 9 -> fill h inout n = vset inout c v.
Proof.
  intros HR ER Hn Hc Hv. destruct R as [|x0 [|x1 [|x2 [|x3 [|]]]]]; try done. cbn in ER. injection ER as E0 E1 E2 E3.
  pose proof (line_range Row c Hc) as HlR. pose proof (line_range Col c Hc) as HlC. pose proof (line_range Box c Hc) as HlB.
  assert (forall x, x ∈ [x0; x1; x2; x3] -> x ∈ concat rows) as Hin by (intros x Hx; apply elem_of_concat; by eexists).
  assert (forall x, x ∈ [x0; x1; x2; x3] -> fld name h x = Some (hname (nodes_ d) x)) as Hnm by (intros x Hx; apply (kept_name _ _ _ Hkept), Hin, Hx).
  pose proof (Hnm x0 ltac:(in_list)) as N0. pose proof (Hnm x1 ltac:(in_list)) as N1. pose proof (Hnm x2 ltac:(in_list)) as N2. pose proof (Hnm x3 ltac:(in_list)) as N3.
  rewrite E0 in N0. rewrite E1 in N1. rewrite E2 in N2. rewrite E3 in N3.
  pose proof (kept_ring _ _ _ Hkept [] x0 [x1; x2; x3] HR) as R0. apply ring_ends in R0 as [R0 _].
  pose proof (kept_ring _ _ _ Hkept [x0] x1 [x2; x3] HR) as R1. apply ring_ends in R1 as [R1 _].
  pose proof (kept_ring _ _ _ Hkept [x0; x1] x2 [x3] HR) as R2. apply ring_ends in R2 as [R2 _].
  pose proof (kept_ring _ _ _ Hkept [x0; x1; x2] x3 [] HR) as R3. apply ring_ends in R3 as [R3 _]. cbn [hd_or app] in R0, R1, R2, R3.
  assert (exists f, ring_fuel h = S (S (S (S (S f))))) as [f Hf].
  { assert (NoDup [x0; x1; x2; x3]) as Hnd.
    { clear -HR rows_nodup. induction rows as [|R rs IH]; [by apply not_elem_of_nil in HR|]. cbn in rows_nodup. apply NoDup_app in rows_nodup as (H1 & _ & H2).
      apply elem_of_cons in HR as [->|HR]; [done|by apply IH]. }
    apply heap_size with (h := h) in Hnd; [|intros x Hx; eapply fld_some; by apply Hnm]. cbn in Hnd. unfold ring_fuel.
    exists (size h - 4)%nat. lia. }
  assert (c < 100) as Hc100 by (unfold N in Hc; lia).
  assert (forall f cell val, cell = -1 \/ val = -1 -> read_row (S f) h x1 cell val = read_row f h x2 cell v) as S1 by (intros; by apply (read_column _ _ _ _ Row (row_of c))).
  assert (forall f cell val, cell = -1 \/ val = -1 -> read_row (S f) h x2 cell val = read_row f h x3 cell v) as S2 by (intros; by apply (read_column _ _ _ _ Col (col_of c))).
  assert (forall f cell val, cell = -1 \/ val = -1 -> read_row (S f) h x3 cell val = read_row f h x0 cell v) as S3 by (intros; by apply (read_column _ _ _ _ Box (box_of c))).
  assert (forall f cell val, cell = -1 \/ val = -1 -> read_row (S f) h x0 cell val = read_row f h x1 c val) as S0 by (intros; by apply read_cell).
  assert (forall f x, read_row (S f) h x c v = Ok (c, v)) as Send by (intros; apply read_end; lia).
  unfold fill. rewrite Hf. rewrite !elem_of_cons in Hn. destruct Hn as [->|[->|[->|[->|[]%not_elem_of_nil]]]].
  - rewrite S0, S1, Send by auto. done.
  - rewrite S1, S2, S3, S0, Send by auto. done.
  - rewrite S2, S3, S0, Send by auto. done.
  - rewrite S3, S0, Send by auto. done.
Qed.

Definition guess_rows (S : list (list addr)) : Prop := forall R, R ∈ S -> R ∈ rows /\ exists c v, row_names d R = guess c v /\ 0 <= c < N /\ 1 <= v <= 9.

Lemma fill_cover ns S inout :
  picks ns S -> guess_rows S -> NoDup (concat (rows_names d S)) -> zlen inout = N ->
  exists b1, fill_board h ns inout = Ok (true, b1) /\ zlen b1 = N /\ (forall c v, guess c v ∈ rows_names d S -> vat b1 c = v) /\
    (forall c, 0 <= c < N -> (forall v, guess c v ∉ rows_names d S) -> vat b1 c = vat inout c).
Proof.
  unfold fill_board, rows_names. intros Hp. induction Hp as [|n R ns S Hn Hp IH] in inout |- *; intros Hg Hnd Hl.
  - exists inout. split; [done|]. split; [done|]. split; [by intros c v ?%not_elem_of_nil|done].
  - destruct (Hg R ltac:(left)) as (HR & c & v & ER & Hc & Hv). cbn [fmap list_fmap concat] in Hnd. apply NoDup_app in Hnd as (_ & Hd & Hnd).
    cbn [foldM]. rewrite (fill_row R n c v) by done. rewrite vset_ok by lia. cbn [mbind outcome_bind].
    destruct (IH (vupd inout c v)) as (b1 & Eb & Hl1 & Hin & Hout); [intros R' HR'; apply Hg; by right|done|by rewrite zlen_vupd|].
    assert (forall w, guess c w ∉ row_names d <$> S) as Hc1.
    { intros w Hw. apply (Hd c); [rewrite ER; apply elem_of_guess; by left|]. apply elem_of_concat. exists (guess c w). split; [done|apply elem_of_guess; by left]. }
    exists b1. split; [exact Eb|]. split; [done|]. cbn [fmap list_fmap]. fold (row_names d R). rewrite ER. split.
    + intros c' v' [[-> ->]%guess_inj|Hcv]%elem_of_cons; [|by apply Hin]. rewrite Hout by done. apply vat_vupd_eq. lia.
    + intros c' Hc' Hno. rewrite Hout; [|done|]; [|intros w Hw; apply (Hno w); by right]. apply vat_vupd_ne; [|lia|lia].
      intros ->. apply (Hno v). left.
Qed.
End fill.

(** ** Lemmas: the solver *)

Lemma guesses_NoDup b : NoDup (guesses b (seqZ 0 81)).
Proof.
  unfold guesses. apply NoDup_bind; [|intros c _; case_decide; [|constructor]; apply NoDup_fmap_2_strong; [|apply NoDup_filter, NoDup_seqZ]|apply NoDup_seqZ].
  - intros c c' A _ _. do 2 case_decide; try by intros ? ?%not_elem_of_nil || intros ?%not_elem_of_nil.
    intros (v & -> & _)%list_elem_of_fmap (v' & E & _)%list_elem_of_fmap. by apply guess_inj in E as [? _].
  - intros v v' _ _ E. by apply guess_inj in E as [_ ?].
Qed.

Lemma solve_dance_ok b : zlen b = N -> (forall c, 0 <= c < N -> 0 <= vat b c <= NUM) ->
  exists r b', solve_sudoku_dancing_links b = Ok (r, b') /\ (r = true <-> exists b'', finishes b b'') /\
    (r = true -> finishes b b') /\ (r = false -> b' = b).
Proof.
  intros Hl Hdig. unfold solve_sudoku_dancing_links. destruct (new_Dance_ok b Hl Hdig) as (d & -> & rows & HB & Erows & _). cbn [mbind outcome_bind].
  pose proof (rows_NoDup _ _ _ (b_matrix _ _ _ _ _ HB)) as Hnd.
  assert (guess_rows rows d rows) as Hguess.
  { intros R HR. split; [done|]. assert (row_names d R ∈ guesses b (seqZ 0 81)) as (c & v & E & Hc%elem_of_seqZ & _ & Hv & _)%elem_of_guesses
      by (rewrite <- Erows; by apply list_elem_of_fmap_2). exists c, v. unfold N. split; [done|]. split; [lia|done]. }
  assert (forall h' ns s, rows_kept rows d h' -> (forall n, n ∈ ns -> n ∈ concat rows) -> fill_board h' ns s = fill_board (nodes_ d) ns s) as Hsame.
  { intros h' ns s Hk Hns. unfold fill_board. rewrite (foldM_ext_in (fill h') (fill (nodes_ d))); [done|]. intros n s' Hn.
    apply Hns, elem_of_concat in Hn as (R & HR & Hn). destruct (Hguess R HR) as (_ & c & v & ER & Hc & Hv).
    rewrite (fill_row rows d h' Hk Hnd R n c v), (fill_row rows d (nodes_ d) (built_kept _ _ _ _ _ HB) Hnd R n c v) by done. done. }
  destruct (named_search _ _ _ _ _ HB fill_board (S (Z.to_nat kMaxColumns)) b) as (Ls & Ss & Hpick & _ & Hsound & Hcomplete & Hres).
  - intros R HR. assert (row_names d R ∈ guesses b (seqZ 0 81)) as (c & v & E & Hc & Hz & _)%elem_of_guesses
      by (rewrite <- Erows; by apply list_elem_of_fmap_2).
    exists c. rewrite E. split; [apply elem_of_guess; by left|]. apply elem_of_app. left. by apply elem_of_blanks.
  - rewrite Erows. apply guesses_NoDup.
  - exact Hsame.
  - pose proof (zlen_ring_names b) as Hz. unfold zlen, kMaxColumns in *. lia.
  - rewrite Erows in Hsound, Hcomplete. destruct Hpick as [|ns S Ls Ss Hp _].
    + cbn [visit search_result] in Hres. rewrite Hres. cbn [mbind outcome_bind]. exists false, b. split; [done|]. split; [|done]. split; [done|].
      intros (b'' & Hb''). destruct (Hcomplete _ (finishes_cover _ _ Hb'')) as (S & HS & _). by apply not_elem_of_nil in HS.
    + destruct (Hsound S ltac:(left)) as [HS Hcover].
      destruct (fill_cover rows d (nodes_ d) (built_kept _ _ _ _ _ HB) Hnd ns S b Hp) as (b1 & Eb & Hl1 & Hin & Hout).
      { intros R HR. split; [by apply HS|]. by apply Hguess, HS. }
      { apply (names_disjoint _ _ _ Hcover). }
      { done. }
      cbn [visit] in Hres. rewrite Eb in Hres. cbn [mbind outcome_bind search_result] in Hres. destruct Hres as (h' & ->). cbn [mbind outcome_bind].
      assert (finishes b b1) as Hfin.
      { apply (cover_finishes b b1 (rows_names d S)); [done|done|done|]. intros c Hc Hz. apply Hout; [done|]. intros v Hv.
        apply (names_rows _ _ _ Hcover), elem_of_guesses in Hv as (c' & v' & E & _ & Hz' & _). apply guess_inj in E as [-> _]. done. }
      exists true, b1. split; [done|]. split; [|done]. split; [by exists b1|done].
Qed.

(** For given digits that do not clash, to finish the grid is to fill the
    blanks. *)
Lemma finishes_completes b b' : (forall c, 0 <= c < N -> 0 <= vat b c <= NUM) -> consistent b -> finishes b b' <-> completes b b'.
Proof.
  intros Hd Hc. split.
  - intros [(Hl & Hdig & Hrel) Hkeep]. split; [done|]. intros c Hr. split; [by apply Hkeep|]. intros Hz. split; [by apply Hdig|]. intros e He Hre. by apply Hrel.
  - intros Hcomp. split; [by apply (completes_valid b)|]. intros c Hr Hz. by apply Hcomp.
Qed.

(** ** Properties *)

(** C12: on any puzzle of 81 digits, and whatever the puzzle before left in
    the arrays, the solver by dancing links ends without a failed assertion
    or an access out of range.  It returns true exactly if there is a grid,
    with no digit twice in a row, column or box, that has the given digits,
    and then the board is such a grid.  If the given digits do not clash,
    the three solvers by backtracking return the same, with such a grid. *)
Theorem four_solvers_agree (inp : list Byte.byte) (s : state) :
  81 <= zlen inp -> Forall digit_char (take 81 inp) -> zlen (board s) = N -> zlen (spaces s) = N ->
  exists r s', puzzle_dance inp s = Ok (r, s') /\ (r = true <-> exists b, finishes (digits_of inp) b) /\
    (r = true -> finishes (digits_of inp) (board s')) /\
    (consistent (digits_of inp) -> forall v, exists s1, puzzle v inp s = Ok (r, s1) /\ (r = true -> finishes (digits_of inp) (board s1))).
Proof.
  intros Hl Hc Hb Hsp. destruct (read_puzzle_ok inp s Hl Hc Hb Hsp) as (s0 & E0 & Eb0 & Hwf). destruct Hwf as [Hb0 Hd0 _ _ _ _ _].
  destruct (init_cache_ok s0 Hb0 Hd0) as (occ & ar & E1 & _). destruct (solve_dance_ok (board s0) Hb0 Hd0) as (r & b' & E2 & Hr & Hfin & _).
  rewrite Eb0 in Hr, Hfin, Hd0. exists r, (set_board b' (set_cache occ ar s0)). split.
  { unfold puzzle_dance. rewrite E0. cbn [mbind outcome_bind]. rewrite E1. cbn [mbind outcome_bind board set_cache]. rewrite E2. cbn [mbind outcome_bind].
    destruct r; [|done]. cbn [board set_board]. rewrite solved_ok by (by apply Hfin). done. }
  split; [exact Hr|]. split; [exact Hfin|]. intros Hcons v.
  destruct (sudoku_solvers_correct v inp s Hl Hc Hb Hsp) as (_ & _ & r1 & s1 & _ & _ & _ & Hr1 & Hfill & Hp). destruct (Hp Hcons) as [Hp1 _].
  assert (r1 = true <-> r = true) as Hrr.
  { rewrite Hr1, Hr. split; intros [b Hbb]; exists b; by apply finishes_completes. }
  assert (r1 = r) as <- by (destruct r1, r; intuition congruence). exists s1. split; [done|]. intros Ht. apply finishes_completes; [done|done|]. by apply Hfill.
Qed.

Lemma four_solvers_agree_witness :
  exists s1 s2, puzzle_dance sample new_state = Ok (true, s1) /\ finishes (digits_of sample) (board s1) /\
    puzzle Basic sample new_state = Ok (true, s2) /\ valid_grid (board s2).
Proof.
  destruct (four_solvers_agree sample new_state) as (r & s1 & E1 & _ & Hf & Hp).
  - vm_compute. discriminate.
  - apply (bool_decide_eq_true_1 _). vm_compute. reflexivity.
  - reflexivity.
  - reflexivity.
  - assert ((fst <$> puzzle_dance sample new_state) = Ok true) as Hr by (vm_compute; reflexivity).
    rewrite E1 in Hr. injection Hr as Hr. cbn in Hr. subst r.
    destruct (Hp (consistentb_ok (digits_of sample) ltac:(vm_compute; reflexivity)) Basic) as (s2 & E2 & Hf2). exists s1, s2.
    split; [exact E1|]. split; [by apply Hf|]. split; [exact E2|]. by apply Hf2.
Defined.

(** Given digits that clash make this solver fail, where the others abort
    the program ([clash_aborts]). *)
Example clash_refused : (fst <$> puzzle_dance (replicate 81 Byte.x31) new_state) = Ok false.
Proof. vm_compute. reflexivity. Qed.
