(* ===== verification/Bst.v ===== *)
(** * Bst: a binary search tree with ranks

    Models [BST] of [datastruct/bst.cpp].  Each node is owned by one pointer,
    so a tree is a value; a pointer to a node is the subtree it leads to.
    [size] of a node is an [int], and one out of range is undefined.  The
    recursion is on the tree.  The specification is a finite map with an
    order on its keys. *)
From stdpp Require Import sorting.
From S2P Require Import Prelude.
From Stdlib Require Import Sorted.

Section bst.
Context {K V : Type} `{Countable K}.
(** [operator<] of the keys; [a > b] is [b < a]. *)
Variable lt : K -> K -> bool.

Inductive tree := Leaf | Node (left : tree) (key : K) (value : V) (size : Z) (right : tree).

Definition getSize (t : tree) : Z := match t with Leaf => 0 | Node _ _ _ s _ => s end.
(** [updateSize] of a node with these fields. *)
Definition updateSize (l : tree) (k : K) (v : V) (r : tree) : outcome tree :=
  let s := getSize l + getSize r + 1 in _ ← ints [getSize l + getSize r; s]; Ok (Node l k v s r).

Fixpoint put (t : tree) (key : K) (value : V) : outcome tree :=
  match t with
  | Leaf => Ok (Node Leaf key value 1 Leaf)
  | Node l k v s r =>
      if lt key k then l ← put l key value; updateSize l k v r
      else if lt k key then r ← put r key value; updateSize l k v r
      else updateSize l k value r
  end.

(** The value, or [nullptr]. *)
Fixpoint get (t : tree) (key : K) : option V :=
  match t with
  | Leaf => None
  | Node l k v s r => if lt key k then get l key else if lt k key then get r key else Some v
  end.

(** The tree is not empty. *)
Fixpoint findMin (t : tree) : outcome (K * V) :=
  match t with
  | Leaf => Fail Undefined
  | Node l k v s r => match l with Leaf => Ok (k, v) | _ => findMin l end
  end.

Fixpoint removeMin (t : tree) : outcome tree :=
  match t with
  | Leaf => Fail Undefined
  | Node l k v s r => match l with Leaf => Ok r | _ => l ← removeMin l; updateSize l k v r end
  end.

Fixpoint remove (t : tree) (key : K) : outcome tree :=
  match t with
  | Leaf => Ok Leaf
  | Node l k v s r =>
      if lt key k then l ← remove l key; updateSize l k v r
      else if lt k key then r ← remove r key; updateSize l k v r
      else
        match l, r with
        | Leaf, _ => Ok r
        | _, Leaf => Ok l
        | _, _ => '(k, v) ← findMin r; r ← removeMin r; updateSize l k v r
        end
  end.

Fixpoint inorder (t : tree) (keyList : list K) : list K :=
  match t with Leaf => keyList | Node l k v s r => inorder r (inorder l keyList ++ [k]) end.

Fixpoint select (t : tree) (i : Z) : option K :=
  match t with
  | Leaf => None
  | Node l k v s r =>
      let leftSize := getSize l in
      if i <? leftSize then select l i
      else if leftSize =? i then Some k
      else select r (i - leftSize - 1)
  end.

Fixpoint rank (t : tree) (key : K) : outcome Z :=
  match t with
  | Leaf => Ok 0
  | Node l k v s r =>
      if lt key k then rank l key
      else if lt k key then
        n ← rank r key; _ ← ints [getSize l + 1; getSize l + 1 + n]; Ok (getSize l + 1 + n)
      else Ok (getSize l)
  end.

(** The loop of [lastKey] from a node. *)
Fixpoint last_key (t : tree) (k : K) : K :=
  match t with Leaf => k | Node _ k _ _ r => last_key r k end.

(** ** The interface *)

Inductive call := Put (k : K) (v : V) | Get (k : K) | Remove (k : K) | ContainsKey (k : K) | FirstKey | LastKey | Keys | SelectKey (i : Z) | Rank (k : K) | Size.
Inductive reply := Done | Value (v : V) | Is (b : bool) | Key (k : K) | Keylist (l : list K) | Count (n : Z) | Threw.

Definition run_call (t : tree) (c : call) : outcome (tree * reply) :=
  match c with
  | Put k v => t ← put t k v; Ok (t, Done)
  | Get k => Ok (t, match get t k with Some v => Value v | None => Threw end)
  | Remove k => t ← remove t k; Ok (t, Done)
  | ContainsKey k => Ok (t, Is (match get t k with Some _ => true | None => false end))
  | FirstKey => match t with Leaf => Ok (t, Threw) | _ => '(k, _) ← findMin t; Ok (t, Key k) end
  | LastKey => match t with Leaf => Ok (t, Threw) | Node _ k _ _ r => Ok (t, Key (last_key r k)) end
  | Keys => Ok (t, Keylist (inorder t []))
  | SelectKey i => Ok (t, match select t i with Some k => Key k | None => Threw end)
  | Rank k => n ← rank t k; Ok (t, Count n)
  | Size => Ok (t, Count (getSize t))
  end.
Fixpoint run_calls (t : tree) (cs : list call) : outcome (list reply) :=
  match cs with
  | [] => Ok []
  | c :: cs => '(t, r) ← run_call t c; rs ← run_calls t cs; Ok (r :: rs)
  end.

(** ** Specification: a map with ordered keys *)

(** The number of keys of [m] below [k]. *)
Definition keys_below (m : gmap K V) (k : K) : Z := Z.of_nat (size (filter (fun x => lt x k = true) (dom m))).

Inductive map_call (m : gmap K V) : call -> reply -> gmap K V -> Prop :=
| map_put k v : map_call m (Put k v) Done (<[k := v]> m)
| map_get k v : m !! k = Some v -> map_call m (Get k) (Value v) m
| map_get_none k : m !! k = None -> map_call m (Get k) Threw m
| map_remove k : map_call m (Remove k) Done (delete k m)
| map_contains k : map_call m (ContainsKey k) (Is (bool_decide (k ∈ dom m))) m
| map_first k : k ∈ dom m -> (forall x, x ∈ dom m -> lt x k = false) -> map_call m FirstKey (Key k) m
| map_first_none : m = ∅ -> map_call m FirstKey Threw m
| map_last k : k ∈ dom m -> (forall x, x ∈ dom m -> lt k x = false) -> map_call m LastKey (Key k) m
| map_last_none : m = ∅ -> map_call m LastKey Threw m
| map_keys l : StronglySorted (fun a b => lt a b = true) l -> (forall k, k ∈ l <-> k ∈ dom m) -> map_call m Keys (Keylist l) m
| map_select i k : k ∈ dom m -> keys_below m k = i -> map_call m (SelectKey i) (Key k) m
| map_select_none i : i < 0 \/ Z.of_nat (size m) <= i -> map_call m (SelectKey i) Threw m
| map_rank k : map_call m (Rank k) (Count (keys_below m k)) m
| map_size : map_call m Size (Count (Z.of_nat (size m))) m.

Inductive map_run : gmap K V -> list call -> list reply -> Prop :=
| map_done m : map_run m [] []
| map_next m c r m' cs rs : map_call m c r m' -> map_run m' cs rs -> map_run m (c :: cs) (r :: rs).

(** A strict total order. *)
Record total_order : Prop := {
  order_irrefl a : lt a a = false;
  order_trans a b c : lt a b = true -> lt b c = true -> lt a c = true;
  order_total a b : lt a b = false -> lt b a = false -> a = b;
}.
End bst.

Arguments tree K V : clear implicits.
Arguments Leaf {K V}.
Arguments call K V : clear implicits.
Arguments reply K V : clear implicits.

Example main_calls :
  run_calls Z.ltb Leaf [Put 3 65; Put 1 66; Put 4 67; Put 2 68; Put 3 97; Get 3; ContainsKey 2; FirstKey; LastKey; Keys; SelectKey 2; Rank 4; Remove 2; Keys; Get 2; Size; SelectKey (-1); Remove 3; Keys] =
  Ok [Done; Done; Done; Done; Done; Value 97; Is true; Key 1; Key 4; Keylist [1; 2; 3; 4]; Key 3; Count 3; Done; Keylist [1; 3; 4]; Threw; Count 3; Threw; Done; Keylist [1; 4]].
Proof. reflexivity. Qed.

(** ** Lemmas: the order of a tree *)

Section lemmas.
Context {K V : Type} `{Countable K} (lt : K -> K -> bool) (O : total_order lt).
Implicit Types t l r : tree K V.

Fixpoint entries t : list (K * V) :=
  match t with Leaf => [] | Node l k v s r => entries l ++ (k, v) :: entries r end.

(** Keys to the left are smaller, keys to the right greater, and [size] is
    the number of nodes. *)
Fixpoint ok t : Prop :=
  match t with
  | Leaf => True
  | Node l k v s r =>
      ok l /\ ok r /\ (forall x, x ∈ entries l -> lt x.1 k = true) /\ (forall x, x ∈ entries r -> lt k x.1 = true) /\
      s = zlen (entries l) + zlen (entries r) + 1
  end.

Lemma order_asym a b : lt a b = true -> lt b a = false.
Proof. intros Hab. apply not_true_iff_false. intros Hba. pose proof (order_trans lt O _ _ _ Hab Hba) as E. by rewrite (order_irrefl lt O) in E. Qed.

Lemma order_ne a b : lt a b = true -> a <> b.
Proof. intros Hab ->. by rewrite (order_irrefl lt O) in Hab. Qed.

(** The comparisons of the code. *)
Lemma compare_cases a b : (lt a b = true /\ a <> b) \/ (lt a b = false /\ lt b a = true /\ a <> b) \/ (lt a b = false /\ lt b a = false /\ a = b).
Proof.
  destruct (lt a b) eqn:E1; [left; split; [done|by apply order_ne]|right]. destruct (lt b a) eqn:E2; [left|right].
  - split; [done|split; [done|]]. intros ->. by rewrite (order_irrefl lt O) in E2.
  - split; [done|split; [done|]]. by apply (order_total lt O).
Qed.

Lemma getSize_ok t : ok t -> getSize t = zlen (entries t).
Proof. destruct t as [|l k v s r]; [done|]. intros (_ & _ & _ & _ & ->). cbn [getSize entries]. rewrite zlen_app, zlen_cons. lia. Qed.

Lemma updateSize_ok l k v r :
  ok l -> ok r -> (forall x, x ∈ entries l -> lt x.1 k = true) -> (forall x, x ∈ entries r -> lt k x.1 = true) ->
  zlen (entries l) + zlen (entries r) + 1 < 2 ^ 31 ->
  exists t, updateSize l k v r = Ok t /\ ok t /\ entries t = entries l ++ (k, v) :: entries r.
Proof.
  intros Hl Hr Hlk Hkr Hs. unfold updateSize. rewrite !getSize_ok by done. pose proof (zlen_nonneg (entries l)). pose proof (zlen_nonneg (entries r)).
  rewrite ints_ok by (repeat constructor; lia). cbn [mbind outcome_bind]. eexists. split; [done|]. done.
Qed.

Lemma entries_node l k v s r x : x ∈ entries (Node l k v s r) <-> x ∈ entries l \/ x = (k, v) \/ x ∈ entries r.
Proof. cbn [entries]. rewrite elem_of_app, elem_of_cons. done. Qed.

Lemma zlen_entries l k v s r : zlen (entries (Node l k v s r)) = zlen (entries l) + zlen (entries r) + 1.
Proof. cbn [entries]. rewrite zlen_app, zlen_cons. lia. Qed.

Lemma bst_put_ok t key value : ok t -> zlen (entries t) + 1 < 2 ^ 31 ->
  exists t', put lt t key value = Ok t' /\ ok t' /\ zlen (entries t') <= zlen (entries t) + 1 /\
    forall x, x ∈ entries t' <-> x = (key, value) \/ x.1 <> key /\ x ∈ entries t.
Proof.
  induction t as [|l IHl k v s r IHr]; intros Hok Hs.
  - exists (Node Leaf key value 1 Leaf). split; [done|]. split; [cbn; split_and!; try done; by intros ? ?%not_elem_of_nil|]. split; [done|].
    intros x. cbn [entries app]. rewrite list_elem_of_singleton. split; [by left|]. intros [->|[_ []%not_elem_of_nil]]. done.
  - destruct Hok as (Hl & Hr & Hlk & Hkr & ->). rewrite zlen_entries in Hs |- *.
    pose proof (zlen_nonneg (entries l)). pose proof (zlen_nonneg (entries r)). cbn [put].
    destruct (compare_cases key k) as [[E Hne]|[(E1 & E2 & Hne)|(E1 & E2 & ->)]].
    + rewrite E. destruct IHl as (l' & -> & Hl' & Hz & Hin); [done|lia|]. cbn [mbind outcome_bind].
      destruct (updateSize_ok l' k v r) as (t' & -> & Ht' & Ee); [done|done| |done|lia|].
      { intros x [->|[_ Hx]]%Hin; [done|by apply Hlk]. }
      exists t'. split; [done|]. split; [done|]. rewrite Ee. split; [rewrite zlen_app, zlen_cons; lia|]. intros x.
      rewrite elem_of_app, elem_of_cons, Hin, entries_node. split.
      * intros [[->|[Hx Hxl]]|[->|Hxr]]; [by left|right; split; [done|by left]|right; split; [done|tauto]|right].
        split; [|tauto]. apply Hkr in Hxr. intros Ex. rewrite Ex in Hxr. by rewrite (order_asym _ _ E) in Hxr.
      * tauto.
    + rewrite E1, E2. destruct IHr as (r' & -> & Hr' & Hz & Hin); [done|lia|]. cbn [mbind outcome_bind].
      destruct (updateSize_ok l k v r') as (t' & -> & Ht' & Ee); [done|done|done| |lia|].
      { intros x [->|[_ Hx]]%Hin; [done|by apply Hkr]. }
      exists t'. split; [done|]. split; [done|]. rewrite Ee. split; [rewrite zlen_app, zlen_cons; lia|]. intros x.
      rewrite elem_of_app, elem_of_cons, Hin, entries_node. split.
      * intros [Hxl|[->|[->|[Hx Hxr]]]]; [right|right; split; [done|tauto]|by left|right; split; [done|tauto]].
        split; [|tauto]. apply Hlk in Hxl. intros Ex. rewrite Ex in Hxl. by rewrite E1 in Hxl.
      * tauto.
    + rewrite (order_irrefl lt O). destruct (updateSize_ok l k value r) as (t' & -> & Ht' & Ee); [done..|lia|].
      exists t'. split; [done|]. split; [done|]. rewrite Ee. split; [rewrite zlen_app, zlen_cons; lia|]. intros x.
      rewrite elem_of_app, elem_of_cons, entries_node. split.
      * intros [Hxl|[->|Hxr]]; [right; split; [|tauto]|by left|right; split; [|tauto]]; [by apply order_ne, Hlk|].
        intros Ex. apply Hkr in Hxr. by rewrite Ex, (order_irrefl lt O) in Hxr.
      * intros [->|[Hx [Hxl|[->|Hxr]]]]; [tauto..|done|tauto].
Qed.

Lemma get_ok t key v : ok t -> get lt t key = Some v <-> (key, v) ∈ entries t.
Proof.
  induction t as [|l IHl k w s r IHr]; intros Hok; [split; [done|by intros ?%not_elem_of_nil]|]. destruct Hok as (Hl & Hr & Hlk & Hkr & _).
  rewrite entries_node. cbn [get]. destruct (compare_cases key k) as [[E Hne]|[(E1 & E2 & Hne)|(E1 & E2 & ->)]].
  - rewrite E, IHl by done. split; [by left|]. intros [?|[?|Hx%Hkr]]; [done|congruence|]. cbn in Hx. by rewrite (order_asym _ _ E) in Hx.
  - rewrite E1, E2, IHr by done. split; [by right; right|]. intros [Hx%Hlk|[?|?]]; [|congruence|done]. cbn in Hx. by rewrite E1 in Hx.
  - rewrite (order_irrefl lt O). split; [intros [= ->]; by right; left|].
    intros [Hx%Hlk|[[= ->]|Hx%Hkr]]; [|done|]; cbn in Hx; by rewrite (order_irrefl lt O) in Hx.
Qed.

Lemma findMin_ok t : ok t -> t <> Leaf -> exists k v, findMin t = Ok (k, v) /\ (k, v) ∈ entries t /\ forall x, x ∈ entries t -> x = (k, v) \/ lt k x.1 = true.
Proof.
  induction t as [|l IHl k v s r IHr]; intros Hok Hne; [done|]. destruct Hok as (Hl & Hr & Hlk & Hkr & _). cbn [findMin].
  destruct l as [|ll lk lv ls lr].
  - exists k, v. split; [done|]. cbn [entries app]. split; [left|]. intros x [->|Hx]%elem_of_cons; [by left|right; by apply Hkr].
  - destruct IHl as (k' & v' & E & Hin & Hmin); [done|done|]. exists k', v'. split; [exact E|]. split; [apply entries_node; by left|].
    intros x [Hx|[->|Hx]]%entries_node; [by apply Hmin|right; by apply (Hlk _ Hin)|right]. apply (order_trans lt O _ k); [by apply (Hlk _ Hin)|by apply Hkr].
Qed.

Lemma removeMin_ok t k v : ok t -> findMin t = Ok (k, v) -> zlen (entries t) < 2 ^ 31 ->
  exists t', removeMin t = Ok t' /\ ok t' /\ zlen (entries t') = zlen (entries t) - 1 /\ forall x, x ∈ entries t' <-> x.1 <> k /\ x ∈ entries t.
Proof.
  induction t as [|l IHl k0 v0 s r IHr]; intros Hok Hmin Hs; [done|]. pose proof Hok as (Hl & Hr & Hlk & Hkr & _).
  rewrite zlen_entries in Hs |- *. pose proof (zlen_nonneg (entries l)). pose proof (zlen_nonneg (entries r)). cbn [removeMin findMin] in *.
  destruct l as [|ll lk lv ls lr].
  - injection Hmin as -> ->. exists r. split; [done|]. split; [done|]. split; [cbn [entries]; unfold zlen; cbn; lia|]. intros x. rewrite entries_node. split.
    + intros Hx. split; [|tauto]. intros E. apply Hkr in Hx. by rewrite E, (order_irrefl lt O) in Hx.
    + intros [Hne [[]%not_elem_of_nil|[->|?]]]; done.
  - set (l := Node ll lk lv ls lr) in *. destruct IHl as (l' & -> & Hl' & Hz & Hin); [done|done|lia|]. cbn [mbind outcome_bind].
    destruct (updateSize_ok l' k0 v0 r) as (t' & -> & Ht' & Ee); [done|done| |done|lia|].
    { intros x [_ Hx]%Hin. by apply Hlk. }
    assert (lt k k0 = true) as Hk.
    { destruct (findMin_ok l Hl ltac:(done)) as (k1 & v1 & E1 & Hk1 & _). assert (k1 = k) as <- by congruence. by apply (Hlk _ Hk1). }
    exists t'. split; [done|]. split; [done|]. rewrite Ee, zlen_app, zlen_cons. split; [lia|]. intros x. rewrite elem_of_app, elem_of_cons, Hin, entries_node. split.
    + intros [[Hne Hx]|[->|Hx]]; [tauto|split; [|tauto]; cbn; intros <-; by rewrite (order_irrefl lt O) in Hk|]. split; [|tauto].
      intros E. apply Hkr in Hx. by rewrite E, (order_asym _ _ Hk) in Hx.
    + tauto.
Qed.

Lemma remove_ok t key : ok t -> zlen (entries t) < 2 ^ 31 ->
  exists t', remove lt t key = Ok t' /\ ok t' /\ zlen (entries t') <= zlen (entries t) /\ forall x, x ∈ entries t' <-> x.1 <> key /\ x ∈ entries t.
Proof.
  induction t as [|l IHl k v s r IHr]; intros Hok Hs.
  - exists Leaf. split; [done|]. split; [done|]. split; [done|]. intros x. split; [by intros ?%not_elem_of_nil|tauto].
  - pose proof Hok as (Hl & Hr & Hlk & Hkr & _). rewrite zlen_entries in Hs |- *.
    pose proof (zlen_nonneg (entries l)). pose proof (zlen_nonneg (entries r)). cbn [remove].
    destruct (compare_cases key k) as [[E Hne]|[(E1 & E2 & Hne)|(E1 & E2 & ->)]].
    + rewrite E. destruct IHl as (l' & -> & Hl' & Hz & Hin); [done|lia|]. cbn [mbind outcome_bind].
      destruct (updateSize_ok l' k v r) as (t' & -> & Ht' & Ee); [done|done| |done|lia|].
      { intros x [_ Hx]%Hin. by apply Hlk. }
      exists t'. split; [done|]. split; [done|]. rewrite Ee, zlen_app, zlen_cons. split; [lia|]. intros x.
      rewrite elem_of_app, elem_of_cons, Hin, entries_node. split.
      * intros [?|[->|Hx]]; [tauto|split; [done|tauto]|]. split; [|tauto]. intros Ex. apply Hkr in Hx. rewrite Ex in Hx. by rewrite (order_asym _ _ E) in Hx.
      * tauto.
    + rewrite E1, E2. destruct IHr as (r' & -> & Hr' & Hz & Hin); [done|lia|]. cbn [mbind outcome_bind].
      destruct (updateSize_ok l k v r') as (t' & -> & Ht' & Ee); [done|done|done| |lia|].
      { intros x [_ Hx]%Hin. by apply Hkr. }
      exists t'. split; [done|]. split; [done|]. rewrite Ee, zlen_app, zlen_cons. split; [lia|]. intros x.
      rewrite elem_of_app, elem_of_cons, Hin, entries_node. split.
      * intros [Hx|[->|?]]; [|split; [done|tauto]|tauto]. split; [|tauto]. intros Ex. apply Hlk in Hx. rewrite Ex in Hx. by rewrite E1 in Hx.
      * tauto.
    + rewrite (order_irrefl lt O).
      assert (forall x, x ∈ entries l -> x.1 <> k) as Hnl by (intros x Hx; by apply order_ne, Hlk).
      assert (forall x, x ∈ entries r -> x.1 <> k) as Hnr by (intros x Hx E; apply Hkr in Hx; by rewrite E, (order_irrefl lt O) in Hx).
      assert (forall x, x ∈ entries (Node l k v s r) -> x.1 <> k -> x ∈ entries l \/ x ∈ entries r) as Hsplit.
      { intros x [?|[->|?]]%entries_node Hne; tauto. }
      destruct l as [|ll lk lv ls lr]; [|destruct r as [|rl rk rv rs rr]].
      * exists r. split; [done|]. split; [done|]. split; [lia|]. intros x. split; [intros Hx; split; [by apply Hnr|apply entries_node; tauto]|].
        intros [Hne Hx]. destruct (Hsplit x Hx Hne) as [[]%not_elem_of_nil|?]; done.
      * set (l := Node ll lk lv ls lr) in *. exists l. split; [done|]. split; [done|]. split; [lia|]. intros x. split; [intros Hx; split; [by apply Hnl|apply entries_node; tauto]|].
        intros [Hne Hx]. destruct (Hsplit x Hx Hne) as [?|[]%not_elem_of_nil]; done.
      * set (l := Node ll lk lv ls lr) in *. set (r := Node rl rk rv rs rr) in *.
        destruct (findMin_ok r Hr ltac:(done)) as (k' & v' & Emin & Hmin & Hleast). rewrite Emin. cbn [mbind outcome_bind].
        destruct (removeMin_ok r k' v' Hr Emin ltac:(lia)) as (r' & -> & Hr' & Hz & Hin). cbn [mbind outcome_bind].
        pose proof (Hkr _ Hmin) as Hkk. cbn [fst] in Hkk.
        destruct (updateSize_ok l k' v' r') as (t' & -> & Ht' & Ee); [done|done| | |lia|].
        { intros x Hx. apply (order_trans lt O _ k); [by apply Hlk|done]. }
        { intros x [Hne Hx]%Hin. by destruct (Hleast x Hx) as [->|?]. }
        exists t'. split; [done|]. split; [done|]. rewrite Ee, zlen_app, zlen_cons. split; [lia|]. intros x. rewrite elem_of_app, elem_of_cons, Hin. split.
        -- intros [Hx|[->|[Hne Hx]]]; [split; [by apply Hnl|]|split; [by apply (Hnr _ Hmin)|]|split; [by apply Hnr|]]; apply entries_node; tauto.
        -- intros [Hne Hx]. destruct (Hsplit x Hx Hne) as [?|Hxr]; [tauto|]. right. destruct (Hleast x Hxr) as [->|Hlt]; [by left|right].
           split; [|done]. intros E. by rewrite E, (order_irrefl lt O) in Hlt.
Qed.

Lemma inorder_ok t kl : inorder t kl = kl ++ (entries t).*1.
Proof.
  induction t as [|l IHl k v s r IHr] in kl |- *; cbn [inorder entries]; [by rewrite app_nil_r|]. rewrite IHr, IHl, fmap_app. cbn. by rewrite <- !app_assoc.
Qed.

Lemma sorted_around {A} (R : A -> A -> Prop) (l : list A) x (r : list A) :
  StronglySorted R l -> StronglySorted R r -> (forall a, a ∈ l -> R a x) -> (forall b, b ∈ r -> R x b) -> (forall a b c, R a b -> R b c -> R a c) ->
  StronglySorted R (l ++ x :: r).
Proof.
  intros Hl Hr Hlx Hxr Htrans. induction Hl as [|a l Hl IH Ha]; cbn.
  - constructor; [done|]. by apply Forall_forall.
  - constructor; [apply IH; intros b Hb; apply Hlx; by right|]. apply Forall_forall. intros b [Hb|[->|Hb]%elem_of_cons]%elem_of_app.
    + rewrite Forall_forall in Ha. by apply Ha.
    + apply Hlx. left.
    + apply (Htrans _ x); [apply Hlx; left|by apply Hxr].
Qed.

Lemma keys_sorted t : ok t -> StronglySorted (fun a b => lt a b = true) (entries t).*1.
Proof.
  induction t as [|l IHl k v s r IHr]; intros Hok; [constructor|]. destruct Hok as (Hl & Hr & Hlk & Hkr & _). cbn [entries]. rewrite fmap_app. cbn.
  apply sorted_around; [by apply IHl|by apply IHr| | |].
  - intros a (x & -> & Hx)%list_elem_of_fmap. by apply Hlk.
  - intros a (x & -> & Hx)%list_elem_of_fmap. by apply Hkr.
  - intros a b c. apply (order_trans lt O).
Qed.

Lemma keys_NoDup t : ok t -> NoDup (entries t).*1.
Proof.
  intros Hok. apply keys_sorted in Hok. induction Hok as [|a l _ IH Ha]; [constructor|]. apply NoDup_cons. split; [|done].
  intros Hin. rewrite Forall_forall in Ha. specialize (Ha a Hin). by rewrite (order_irrefl lt O) in Ha.
Qed.

Lemma select_ok t i : ok t -> select t i = if 0 <=? i then (entries t).*1 !! Z.to_nat i else None.
Proof.
  induction t as [|l IHl k v s r IHr] in i |- *; intros Hok; [by destruct (0 <=? i)|]. destruct Hok as (Hl & Hr & _ & _ & _). cbn [select entries].
  rewrite getSize_ok by done. pose proof (zlen_nonneg (entries l)) as Hn. assert (zlen (entries l).*1 = zlen (entries l)) as Hz by apply zlen_fmap.
  rewrite fmap_app. cbn [fmap list_fmap fst]. destruct (Z.ltb_spec i (zlen (entries l))) as [Hi|Hi].
  - rewrite IHl by done. destruct (Z.leb_spec 0 i); [|done]. rewrite lookup_app_l; [done|]. unfold zlen in Hz, Hi. lia.
  - rewrite (proj2 (Z.leb_le 0 i)) by lia. rewrite lookup_app_r by (unfold zlen in Hz, Hi; lia). destruct (Z.eqb_spec (zlen (entries l)) i) as [<-|Hne].
    + replace (Z.to_nat (zlen (entries l)) - length (entries l).*1)%nat with 0%nat by (unfold zlen in Hz |- *; lia). done.
    + rewrite IHr by done. rewrite (proj2 (Z.leb_le _ _)) by lia.
      replace (Z.to_nat i - length (entries l).*1)%nat with (S (Z.to_nat (i - zlen (entries l) - 1))) by (unfold zlen in Hz, Hi, Hne |- *; lia). done.
Qed.

Definition below (key : K) (x : K) : Prop := lt x key = true.
#[global] Instance below_dec key x : Decision (below key x).
Proof. unfold below. apply _. Defined.

Lemma rank_ok t key : ok t -> zlen (entries t) < 2 ^ 31 -> rank lt t key = Ok (zlen (filter (below key) (entries t).*1)).
Proof.
  induction t as [|l IHl k v s r IHr]; intros Hok Hs; [done|]. destruct Hok as (Hl & Hr & Hlk & Hkr & _). rewrite zlen_entries in Hs.
  pose proof (zlen_nonneg (entries l)). pose proof (zlen_nonneg (entries r)). cbn [rank entries]. rewrite getSize_ok by done.
  rewrite fmap_app, filter_app, zlen_app. cbn [fmap list_fmap fst]. rewrite filter_cons.
  assert (lt k key = true \/ k = key -> zlen (filter (below key) (entries l).*1) = zlen (entries l)) as Hall.
  { intros Hk. rewrite filter_all; [apply zlen_fmap|]. intros a (x & -> & Hx)%list_elem_of_fmap. apply Hlk in Hx.
    destruct Hk as [Hk| <-]; [by apply (order_trans lt O _ k)|done]. }
  assert (lt key k = true \/ k = key -> filter (below key) (entries r).*1 = []) as Hnone.
  { intros Hk. apply filter_none. intros a (x & -> & Hx)%list_elem_of_fmap Hb. unfold below in Hb. apply Hkr in Hx.
    destruct Hk as [Hk| <-]; [|by rewrite (order_asym _ _ Hx) in Hb]. pose proof (order_trans lt O _ _ _ Hk Hx) as Hkx. by rewrite (order_asym _ _ Hkx) in Hb. }
  destruct (compare_cases key k) as [[E Hne]|[(E1 & E2 & Hne)|(E1 & E2 & ->)]].
  - rewrite E, IHl by (done || lia). rewrite decide_False by (unfold below; by rewrite (order_asym _ _ E)). rewrite Hnone by auto. rewrite zlen_nil. f_equal. lia.
  - rewrite E1, E2, IHr by (done || lia). cbn [mbind outcome_bind]. pose proof (zlen_filter_le (below key) (entries r).*1) as Hf. rewrite zlen_fmap in Hf.
    pose proof (zlen_nonneg (filter (below key) (entries r).*1)). rewrite ints_ok by (repeat constructor; lia). cbn [mbind outcome_bind].
    rewrite decide_True by done. rewrite zlen_cons, Hall by auto. f_equal. lia.
  - rewrite (order_irrefl lt O). rewrite decide_False by (unfold below; by rewrite (order_irrefl lt O)). rewrite Hall, Hnone by auto. rewrite zlen_nil. f_equal. lia.
Qed.

Lemma last_key_ok t k : ok t -> (forall x, x ∈ entries t -> lt k x.1 = true) ->
  (last_key t k = k \/ last_key t k ∈ (entries t).*1) /\ (forall x, x ∈ entries t -> lt (last_key t k) x.1 = false) /\ (last_key t k = k \/ lt k (last_key t k) = true).
Proof.
  induction t as [|l _ k0 v s r IHr] in k |- *; intros Hok Hk.
  - cbn [last_key]. split; [by left|]. split; [by intros ? ?%not_elem_of_nil|by left].
  - destruct Hok as (Hl & Hr & Hlk & Hkr & _). cbn [last_key]. destruct (IHr k0 Hr Hkr) as (H1 & H2 & H3).
    assert (lt k k0 = true) as Hkk by (apply (Hk (k0, v)), entries_node; tauto). split; [|split].
    + right. cbn [entries]. rewrite fmap_app. apply elem_of_app. right. cbn. apply elem_of_cons. destruct H1 as [->|?]; [by left|by right].
    + intros x [Hx|[->|Hx]]%entries_node.
      * apply Hlk in Hx. destruct H3 as [->|H3]; [by apply order_asym|]. apply order_asym. by apply (order_trans lt O _ k0).
      * destruct H3 as [->|H3]; [apply (order_irrefl lt O)|by apply order_asym].
      * by apply H2.
    + right. destruct H3 as [->|H3]; [done|]. by apply (order_trans lt O _ k0).
Qed.
End lemmas.

(** ** Lemmas: the refinement *)

Section refinement.
Context {K V : Type} `{Countable K} (lt : K -> K -> bool) (O : total_order lt).
Implicit Types (t : tree K V) (m : gmap K V).

Record represents t m : Prop := {
  rep_ok : ok lt t;
  rep_entries k v : m !! k = Some v <-> (k, v) ∈ entries t;
}.

Section rep.
Context t m (R : represents t m).

Lemma rep_dom k : k ∈ dom m <-> k ∈ (entries t).*1.
Proof.
  rewrite elem_of_dom, list_elem_of_fmap. split.
  - intros [v Hv%(rep_entries _ _ R)]. by exists (k, v).
  - intros ((k' & v) & -> & Hv%(rep_entries _ _ R)). by exists v.
Qed.

Lemma rep_get k : get lt t k = m !! k.
Proof. apply option_eq. intros v. rewrite (get_ok lt O), (rep_entries _ _ R); [done|apply (rep_ok _ _ R)]. Qed.

Lemma rep_size : Z.of_nat (size m) = zlen (entries t).
Proof.
  rewrite <- size_dom. assert (dom m = list_to_set (entries t).*1) as -> by (apply set_eq; intros k; by rewrite rep_dom, elem_of_list_to_set).
  rewrite size_list_to_set by (apply (keys_NoDup lt O), (rep_ok _ _ R)). apply zlen_fmap.
Qed.

Lemma rep_below k : keys_below lt m k = zlen (filter (below lt k) (entries t).*1).
Proof.
  unfold keys_below. match goal with |- context [size ?X] => assert (X = list_to_set (filter (below lt k) (entries t).*1)) as -> end.
  { apply set_eq. intros x. by rewrite elem_of_filter, rep_dom, elem_of_list_to_set, list_elem_of_filter. }
  by rewrite size_list_to_set by (apply NoDup_filter, (keys_NoDup lt O), (rep_ok _ _ R)).
Qed.

Lemma rep_rank_at i k : (entries t).*1 !! i = Some k -> keys_below lt m k = Z.of_nat i.
Proof.
  intros Hi. rewrite rep_below. pose proof (keys_sorted lt O t (rep_ok _ _ R)) as Hs. pose proof (lookup_lt_Some _ _ _ Hi) as Hlt.
  apply list_elem_of_split_length in Hi as (l1 & l2 & E & ->). rewrite E in Hs |- *. apply StronglySorted_app in Hs as (Hx & _ & Hs).
  apply StronglySorted_cons in Hs as [Hk _]. rewrite Forall_forall in Hk.
  rewrite filter_app, filter_cons, decide_False by (unfold below; by rewrite (order_irrefl lt O)).
  rewrite (filter_none (below lt k) l2), app_nil_r.
  - by rewrite filter_all; [|intros x Hx1; apply Hx; [done|left]].
  - intros x Hx2 Hb. apply Hk in Hx2. unfold below in Hb. by rewrite (order_asym lt O _ _ Hx2) in Hb.
Qed.

Lemma rep_empty : t = Leaf <-> m = ∅.
Proof.
  split.
  - intros ->. apply map_empty. intros k. apply eq_None_not_Some. intros [v Hv%(rep_entries _ _ R)]. by apply not_elem_of_nil in Hv.
  - intros Hm. pose proof rep_size as Hs. rewrite Hm, map_size_empty in Hs. destruct t as [|l k v s r]; [done|].
    rewrite zlen_entries in Hs. pose proof (zlen_nonneg (entries l)). pose proof (zlen_nonneg (entries r)). lia.
Qed.
End rep.

Lemma rep_put t t' m k v : represents t m -> ok lt t' -> (forall x, x ∈ entries t' <-> x = (k, v) \/ x.1 <> k /\ x ∈ entries t) -> represents t' (<[k := v]> m).
Proof.
  intros R Hok Hin. constructor; [done|]. intros k' v'. rewrite Hin, lookup_insert_Some, (rep_entries _ _ R). cbn. split.
  - intros [[-> ->]|[Hne ?]]; [by left|right; by split].
  - intros [[= -> ->]|[Hne ?]]; [by left|right; by split].
Qed.

Lemma rep_remove t t' m k : represents t m -> ok lt t' -> (forall x, x ∈ entries t' <-> x.1 <> k /\ x ∈ entries t) -> represents t' (delete k m).
Proof.
  intros R Hok Hin. constructor; [done|]. intros k' v'. rewrite Hin, lookup_delete_Some, (rep_entries _ _ R). cbn. split; intros [Hne ?]; by split.
Qed.

Lemma run_call_ok t m c : represents t m -> zlen (entries t) + 1 < 2 ^ 31 ->
  exists t' r m', run_call lt t c = Ok (t', r) /\ map_call lt m c r m' /\ represents t' m' /\ zlen (entries t') <= zlen (entries t) + 1.
Proof.
  intros R Hs. pose proof (rep_ok _ _ R) as Hok. destruct c as [k v|k|k|k| | | |i|k|]; cbn [run_call].
  - destruct (bst_put_ok lt O t k v Hok Hs) as (t' & -> & Hok' & Hz & Hin). cbn [mbind outcome_bind]. exists t', Done, (<[k := v]> m).
    split; [done|]. split; [constructor|]. split; [by apply (rep_put t)|done].
  - rewrite (rep_get _ _ R). eexists t, _, m. split; [done|]. split; [|split; [done|lia]]. destruct (m !! k) eqn:E; by constructor.
  - destruct (remove_ok lt O t k Hok ltac:(lia)) as (t' & -> & Hok' & Hz & Hin). cbn [mbind outcome_bind]. exists t', Done, (delete k m).
    split; [done|]. split; [constructor|]. split; [by apply (rep_remove t)|lia].
  - rewrite (rep_get _ _ R). eexists t, _, m. split; [done|]. split; [|split; [done|lia]].
    assert ((match m !! k with Some _ => true | None => false end) = bool_decide (k ∈ dom m)) as ->; [|constructor].
    destruct (m !! k) eqn:E; symmetry; [apply bool_decide_eq_true_2; by apply elem_of_dom|apply bool_decide_eq_false_2; by apply not_elem_of_dom].
  - destruct t as [|l k v s r].
    { eexists Leaf, _, m. split; [done|]. split; [|split; [done|lia]]. apply map_first_none. by apply (rep_empty _ _ R). }
    destruct (findMin_ok lt O _ Hok ltac:(done)) as (k' & v' & -> & Hin & Hmin). cbn [mbind outcome_bind]. eexists _, _, m.
    split; [done|]. split; [|split; [done|lia]]. apply map_first.
    + apply (rep_dom _ _ R). by apply (list_elem_of_fmap_2 fst _ (k', v')).
    + intros x (y & -> & Hy)%(rep_dom _ _ R)%list_elem_of_fmap. destruct (Hmin y Hy) as [->|Hlt]; [apply (order_irrefl lt O)|by apply (order_asym lt O)].
  - destruct t as [|l k v s r].
    { eexists Leaf, _, m. split; [done|]. split; [|split; [done|lia]]. apply map_last_none. by apply (rep_empty _ _ R). }
    pose proof Hok as (Hl & Hr & Hlk & Hkr & _). destruct (last_key_ok lt O r k Hr Hkr) as (H1 & H2 & H3). eexists _, _, m.
    split; [done|]. split; [|split; [done|lia]]. apply map_last.
    + apply (rep_dom _ _ R). cbn [entries]. rewrite fmap_app. cbn. rewrite elem_of_app, elem_of_cons. tauto.
    + intros x (y & -> & [Hy|[->|Hy]]%entries_node)%(rep_dom _ _ R)%list_elem_of_fmap; [| |by apply H2].
      * apply Hlk in Hy. destruct H3 as [->|H3]; [by apply (order_asym lt O)|]. apply (order_asym lt O). by apply (order_trans lt O _ k).
      * destruct H3 as [->|H3]; [apply (order_irrefl lt O)|by apply (order_asym lt O)].
  - rewrite inorder_ok. eexists _, _, m. split; [done|]. split; [|split; [done|lia]]. apply map_keys; [by apply keys_sorted|].
    intros k. by rewrite (rep_dom _ _ R).
  - rewrite (select_ok lt) by done. eexists _, _, m. split; [done|]. split; [|split; [done|lia]]. destruct (Z.leb_spec 0 i) as [Hi|Hi].
    + destruct ((entries t).*1 !! Z.to_nat i) as [k|] eqn:E.
      * apply map_select; [apply (rep_dom _ _ R); by eapply list_elem_of_lookup_2|]. rewrite (rep_rank_at _ _ R _ _ E). lia.
      * apply map_select_none. right. rewrite (rep_size _ _ R), <- (zlen_fmap fst). apply lookup_ge_None in E. unfold zlen. lia.
    + apply map_select_none. by left.
  - rewrite (rank_ok lt O) by (done || lia). cbn [mbind outcome_bind]. eexists _, _, m. split; [done|]. split; [|split; [done|lia]].
    rewrite <- (rep_below _ _ R). constructor.
  - rewrite (getSize_ok lt) by done. eexists _, _, m. split; [done|]. split; [|split; [done|lia]]. rewrite <- (rep_size _ _ R). constructor.
Qed.

Lemma run_calls_ok cs t m : represents t m -> zlen (entries t) + zlen cs < 2 ^ 31 -> exists rs, run_calls lt t cs = Ok rs /\ map_run lt m cs rs.
Proof.
  induction cs as [|c cs IH] in t, m |- *; intros R Hs; [exists []; split; [done|constructor]|]. rewrite zlen_cons in Hs. pose proof (zlen_nonneg cs).
  destruct (run_call_ok t m c R ltac:(lia)) as (t' & r & m' & E & Hc & R' & Hz). destruct (IH t' m' R' ltac:(lia)) as (rs & Es & Hrs).
  exists (r :: rs). cbn [run_calls]. rewrite E. cbn [mbind outcome_bind]. rewrite Es. split; [done|by econstructor].
Qed.
End refinement.

(** ** Properties *)

(** C34: from the empty tree, and with any strict total order on the keys,
    fewer than [2^31] calls get the answers of a finite map: values, the keys
    in order, the first and the last one, the key of each rank and the rank
    of each key; the recursion ends, [size] does not overflow, and a key or
    a rank that is not there, or an empty tree, throws. *)
Theorem bst_is_ordered_map {K V : Type} `{Countable K} (lt : K -> K -> bool) (cs : list (call K V)) :
  total_order lt -> zlen cs < 2 ^ 31 -> exists rs, run_calls lt Leaf cs = Ok rs /\ map_run lt ∅ cs rs.
Proof.
  intros O Hcs. apply (run_calls_ok lt O); [|done]. constructor; [done|]. intros k v. rewrite lookup_empty. split; [done|by intros ?%not_elem_of_nil].
Qed.

Lemma bst_is_ordered_map_witness :
  exists rs, run_calls Z.ltb Leaf [Put 3 1; Put 1 2; Put 4 3; Remove 3; SelectKey 1; Get 3] = Ok rs /\
    map_run Z.ltb ∅ [Put 3 1; Put 1 2; Put 4 3; Remove 3; SelectKey 1; Get 3] rs.
Proof.
  apply (bst_is_ordered_map Z.ltb); [|reflexivity]. constructor; intros a; [apply Z.ltb_irrefl|intros b c; rewrite !Z.ltb_lt; lia|intros b; rewrite !Z.ltb_ge; lia].
Defined.
