(* ===== verification/HashSets.v ===== *)
(** * HashSets: two hash sets

    Models [MyHashSet] of [datastruct/myhashset.h], with lists as buckets,
    and [LinearProbingHashSet] of [datastruct/LinearProbingHashSet.h], with
    open addressing and marks on deleted nodes.  The hash function is any
    function and [Equal] is equality.  [size >= capacity * 0.75] is exact in
    [double] for the sizes considered.

    [insert] and the doubling of the table call each other; the fuel bounds
    how deep, and two is enough.  The probing loop may go round for ever: its
    fuel is one more than the slots, and [probe_hangs] says that when it runs
    out, no fuel is enough. *)
From S2P Require Import Prelude Vector.
From Stdlib Require Import Permutation.

Section hash_sets.
Context {T : Type} `{Countable T}.
Variable hashFunc : T -> Z.

(** [size >= capacity * LOAD_FACTOR]. *)
Definition loaded (size capacity : Z) : bool := 3 * capacity <=? 4 * size.

(** ** myhashset.h *)

Record MyHashSet := mkSet { capacity : Z; size : Z; buckets : list (list T) }.

Definition new_MyHashSet (initialCapacity : Z) : MyHashSet := mkSet initialCapacity 0 (replicate (Z.to_nat initialCapacity) []).

Definition hash (key : T) (s : MyHashSet) : outcome Z := _ ← defined_ (negb (capacity s =? 0)); Ok (hashFunc key mod capacity s).

Definition contains (key : T) (s : MyHashSet) : outcome bool :=
  index ← hash key s; bucket ← vget (buckets s) index; Ok (bool_decide (key ∈ bucket)).

(** [resize], given [insert]. *)
Definition resize (insert : T -> MyHashSet -> outcome MyHashSet) (s : MyHashSet) : outcome MyHashSet :=
  let c := u64 (capacity s * 2) in
  foldM (fun s key => insert key s) (mkSet c 0 (replicate (Z.to_nat c) [])) (concat (buckets s)).

Fixpoint insert (fuel : nat) (key : T) (s : MyHashSet) : outcome MyHashSet :=
  match fuel with
  | O => Fail Undefined
  | S fuel =>
      c ← contains key s;
      if (c : bool) then Ok s
      else
        s ← (if loaded (size s) (capacity s) then resize (insert fuel) s else Ok s);
        index ← hash key s;
        bucket ← vget (buckets s) index;
        b ← vset (buckets s) index (bucket ++ [key]);
        Ok (mkSet (capacity s) (size s + 1) b)
  end.

(** [bucket.erase] of the first equal element. *)
Fixpoint erase_first (key : T) (bucket : list T) : list T :=
  match bucket with [] => [] | x :: bucket => if decide (x = key) then bucket else x :: erase_first key bucket end.

Definition erase (key : T) (s : MyHashSet) : outcome MyHashSet :=
  c ← contains key s;
  if negb c then Ok s
  else
    index ← hash key s;
    bucket ← vget (buckets s) index;
    b ← vset (buckets s) index (erase_first key bucket);
    Ok (mkSet (capacity s) (if bool_decide (key ∈ bucket) then size s - 1 else size s) b).

(** ** LinearProbingHashSet.h *)

(** [value] and [deleted]. *)
Abbreviation slot := (option (T * bool)).
Record ProbingSet := mkProbing { table : list slot; live : Z }.

Definition DEFAULT_CAPACITY : Z := 16.
Definition new_ProbingSet : ProbingSet := mkProbing (replicate (Z.to_nat DEFAULT_CAPACITY) None) 0.

Fixpoint probe (fuel : nat) (key : T) (t : list slot) (idx : Z) : outcome Z :=
  match fuel with
  | O => Fail Undefined
  | S fuel =>
      n ← vget t idx;
      match n with
      | None => Ok idx
      | Some (v, deleted) =>
          if negb deleted && bool_decide (v = key) then Ok idx else probe fuel key t ((idx + 1) mod zlen t)
      end
  end.
Definition find (key : T) (t : list slot) : outcome Z :=
  _ ← defined_ (negb (zlen t =? 0)); idx ← probe (S (length t)) key t (hashFunc key mod zlen t); Ok (i32 idx).

(** [rehash], given [insert]; the table that was moved from is empty. *)
Definition rehash (insert : T -> ProbingSet -> outcome ProbingSet) (s : ProbingSet) : outcome ProbingSet :=
  foldM (fun s n => match n with Some (v, false) => insert v s | _ => Ok s end)
    (mkProbing (replicate (Z.to_nat (u64 (zlen (table s) * 2))) None) 0) (table s).

Fixpoint probing_insert (fuel : nat) (value : T) (s : ProbingSet) : outcome ProbingSet :=
  match fuel with
  | O => Fail Undefined
  | S fuel =>
      s ← (if loaded (live s) (zlen (table s)) then rehash (probing_insert fuel) s else Ok s);
      idx ← find value (table s);
      n ← vget (table s) idx;
      match n with
      | None | Some (_, true) => t ← vset (table s) idx (Some (value, false)); Ok (mkProbing t (live s + 1))
      | Some (_, false) => Ok s
      end
  end.

Definition probing_erase (value : T) (s : ProbingSet) : outcome ProbingSet :=
  idx ← find value (table s);
  n ← vget (table s) idx;
  match n with
  | Some (v, false) => t ← vset (table s) idx (Some (v, true)); Ok (mkProbing t (live s - 1))
  | _ => Ok s
  end.

Definition probing_contains (value : T) (s : ProbingSet) : outcome bool :=
  idx ← find value (table s);
  n ← vget (table s) idx;
  Ok (match n with Some (_, false) => true | _ => false end).

(** ** The interface *)

Inductive call := Insert (x : T) | Erase (x : T) | Contains (x : T) | GetSize | IsEmpty.
Inductive reply := Done | Is (b : bool) | Count (n : Z).

Definition fuel : nat := 2.
Definition set_call (s : MyHashSet) (c : call) : outcome (MyHashSet * reply) :=
  match c with
  | Insert x => s ← insert fuel x s; Ok (s, Done)
  | Erase x => s ← erase x s; Ok (s, Done)
  | Contains x => b ← contains x s; Ok (s, Is b)
  | GetSize => Ok (s, Count (size s))
  | IsEmpty => Ok (s, Is (size s =? 0))
  end.
Definition probing_call (s : ProbingSet) (c : call) : outcome (ProbingSet * reply) :=
  match c with
  | Insert x => s ← probing_insert fuel x s; Ok (s, Done)
  | Erase x => s ← probing_erase x s; Ok (s, Done)
  | Contains x => b ← probing_contains x s; Ok (s, Is b)
  | GetSize => Ok (s, Count (live s))
  | IsEmpty => Ok (s, Is (live s =? 0))
  end.

Section run.
Context {S : Type} (run_call : S -> call -> outcome (S * reply)).
Fixpoint run_calls (s : S) (cs : list call) : outcome (list reply) :=
  match cs with
  | [] => Ok []
  | c :: cs => '(s, r) ← run_call s c; rs ← run_calls s cs; Ok (r :: rs)
  end.
End run.

(** ** Specification: a set *)

Definition abstract_call (X : gset T) (c : call) : gset T * reply :=
  match c with
  | Insert x => ({[x]} ∪ X, Done)
  | Erase x => (X ∖ {[x]}, Done)
  | Contains x => (X, Is (bool_decide (x ∈ X)))
  | GetSize => (X, Count (Z.of_nat (base.size X)))
  | IsEmpty => (X, Is (bool_decide (X = ∅)))
  end.
Fixpoint abstract_calls (X : gset T) (cs : list call) : list reply :=
  match cs with [] => [] | c :: cs => let '(X, r) := abstract_call X c in r :: abstract_calls X cs end.
End hash_sets.

Arguments MyHashSet T : clear implicits.
Arguments ProbingSet T : clear implicits.
Arguments call T : clear implicits.

(** What a [std::hash] of [int] does. *)
Definition int_hash (x : Z) : Z := u64 x.

Definition many_calls : list (call Z) := (Insert <$> seqZ (-5) 40) ++ (Erase <$> seqZ 0 3) ++ [Contains 1; Contains 7; Insert 7; GetSize; IsEmpty; Contains (-3)].
Example sets_agree :
  run_calls (set_call int_hash) (new_MyHashSet 16) many_calls = Ok (abstract_calls ∅ many_calls) /\
  run_calls (probing_call int_hash) new_ProbingSet many_calls = Ok (abstract_calls ∅ many_calls).
Proof. vm_compute. done. Qed.

(** Sixteen numbers are inserted and erased one after the other; then every
    slot holds a deleted node, and no search ends. *)
Definition churn : list (call Z) := seqZ 0 16 ≫= (fun x => [Insert x; Erase x]).
Example churned : run_calls (probing_call int_hash) new_ProbingSet (churn ++ [GetSize]) = Ok (replicate 32 Done ++ [Count 0]) /\
  run_calls (probing_call int_hash) new_ProbingSet (churn ++ [Contains 99]) = Fail Undefined.
Proof. vm_compute. done. Qed.

(** ** Lemmas: buckets *)

Lemma vupd_split {A} `{!Inhabited A} (b : list A) i y : 0 <= i < zlen b ->
  exists l r, b = l ++ vat b i :: r /\ vupd b i y = l ++ y :: r /\ zlen l = i.
Proof.
  intros Hi. exists (take (Z.to_nat i) b), (drop (S (Z.to_nat i)) b). unfold zlen in Hi. split; [|split].
  - rewrite <- (take_drop_middle b (Z.to_nat i) (vat b i)) at 1; [done|]. apply vat_list. unfold zlen. lia.
  - unfold vupd. apply insert_take_drop. lia.
  - unfold zlen. rewrite length_take. lia.
Qed.

Lemma elem_of_concat_vat {A} (b : list (list A)) x : x ∈ concat b <-> exists i, 0 <= i < zlen b /\ x ∈ vat b i.
Proof.
  rewrite list_elem_of_In, in_concat. split.
  - intros (l & Hl%list_elem_of_In & Hx%list_elem_of_In). apply list_elem_of_lookup in Hl as [i Hi]. exists (Z.of_nat i).
    pose proof (lookup_lt_Some _ _ _ Hi). unfold zlen, vat. split; [lia|]. by rewrite Nat2Z.id, (list_lookup_total_correct _ _ _ Hi).
  - intros (i & Hi & Hx). exists (vat b i). rewrite <- !list_elem_of_In. split; [|done]. eapply list_elem_of_lookup_2. by apply vat_list.
Qed.

Section buckets.
Context {T : Type} `{Countable T} (hashFunc : T -> Z).
Implicit Types (s : MyHashSet T) (X : gset T).

Record valid s X : Prop := {
  v_cap : capacity s = zlen (buckets s) /\ 1 <= capacity s;
  v_hash i x : 0 <= i < capacity s -> x ∈ vat (buckets s) i -> hashFunc x mod capacity s = i;
  v_nodup : NoDup (concat (buckets s));
  v_set x : x ∈ X <-> x ∈ concat (buckets s);
  v_size : size s = zlen (concat (buckets s));
  v_load : 4 * size s <= 3 * capacity s + 3;
}.

Lemma concat_replicate_nil n : concat (replicate n (@nil T)) = [].
Proof. by induction n. Qed.

Lemma empty_valid c : 1 <= c -> valid (new_MyHashSet c) ∅.
Proof.
  intros Hc. unfold new_MyHashSet. constructor; cbn [capacity buckets size].
  - rewrite zlen_replicate by lia. lia.
  - intros i x Hi Hx. unfold vat in Hx. rewrite lookup_total_replicate_2 in Hx by lia. by apply not_elem_of_nil in Hx.
  - rewrite concat_replicate_nil. constructor.
  - intros x. rewrite concat_replicate_nil. split; [by intros ?%elem_of_empty|by intros ?%not_elem_of_nil].
  - by rewrite concat_replicate_nil.
  - lia.
Qed.

Section valid.
Context s X (V : valid s X).

Lemma hash_range x : 0 <= hashFunc x mod capacity s < capacity s.
Proof. apply Z.mod_pos_bound. destruct (v_cap _ _ V). lia. Qed.

Lemma hash_ok x : hash hashFunc x s = Ok (hashFunc x mod capacity s).
Proof. unfold hash. destruct (v_cap _ _ V). by rewrite (proj2 (Z.eqb_neq _ _)) by lia. Qed.

Lemma bucket_elem x : x ∈ X <-> x ∈ vat (buckets s) (hashFunc x mod capacity s).
Proof.
  rewrite (v_set _ _ V), elem_of_concat_vat. destruct (v_cap _ _ V) as [Hc _]. split.
  - intros (i & Hi & Hx). by rewrite (v_hash _ _ V i x) by (done || lia).
  - intros Hx. pose proof (hash_range x). exists (hashFunc x mod capacity s). split; [lia|done].
Qed.

Lemma contains_ok x : contains hashFunc x s = Ok (bool_decide (x ∈ X)).
Proof.
  unfold contains. rewrite hash_ok. cbn [mbind outcome_bind]. pose proof (hash_range x). destruct (v_cap _ _ V) as [Hc _].
  rewrite vget_ok by lia. cbn [mbind outcome_bind]. f_equal. apply bool_decide_ext. symmetry. apply bucket_elem.
Qed.

Lemma valid_size : size s = Z.of_nat (base.size X).
Proof.
  rewrite (v_size _ _ V). assert (X = list_to_set (concat (buckets s))) as -> by (apply set_eq; intros x; by rewrite (v_set _ _ V), elem_of_list_to_set).
  by rewrite size_list_to_set by apply (v_nodup _ _ V).
Qed.

(** The bucket of [x] is replaced by one with [x] or without it. *)
Lemma valid_update x y X' n :
  (forall z, z ∈ y -> z = x \/ z ∈ vat (buckets s) (hashFunc x mod capacity s)) ->
  NoDup (concat (vupd (buckets s) (hashFunc x mod capacity s) y)) ->
  (forall z, z ∈ X' <-> z ∈ concat (vupd (buckets s) (hashFunc x mod capacity s) y)) ->
  n = zlen (concat (vupd (buckets s) (hashFunc x mod capacity s) y)) -> 4 * n <= 3 * capacity s + 3 ->
  valid (mkSet (capacity s) n (vupd (buckets s) (hashFunc x mod capacity s) y)) X'.
Proof.
  intros Hy Hnd HX Hn Hload. destruct (v_cap _ _ V) as [Hc Hc1]. pose proof (hash_range x). constructor; cbn [capacity buckets size]; try done.
  - by rewrite zlen_vupd.
  - intros i z Hi Hz. rewrite vat_vupd in Hz by lia. case_decide as E; [|by apply (v_hash _ _ V)]. subst i.
    destruct (Hy z Hz) as [->|Hz']; [done|by apply (v_hash _ _ V)].
Qed.

Lemma bucket_add_ok f x : x ∉ X -> loaded (size s) (capacity s) = false ->
  exists s', insert hashFunc (S f) x s = Ok s' /\ valid s' ({[x]} ∪ X) /\ capacity s' = capacity s /\ size s' = size s + 1.
Proof.
  intros Hx Hl. cbn [insert]. rewrite contains_ok. cbn [mbind outcome_bind]. rewrite bool_decide_false by done. rewrite Hl. cbn [mbind outcome_bind].
  rewrite hash_ok. cbn [mbind outcome_bind]. pose proof (hash_range x). destruct (v_cap _ _ V) as [Hc _].
  rewrite vget_ok by lia. cbn [mbind outcome_bind]. rewrite vset_ok by lia. cbn [mbind outcome_bind]. eexists. split; [done|]. split; [|done].
  destruct (vupd_split (buckets s) (hashFunc x mod capacity s) (vat (buckets s) (hashFunc x mod capacity s) ++ [x])) as (l & r & El & Er & _); [lia|].
  assert (concat (vupd (buckets s) (hashFunc x mod capacity s) (vat (buckets s) (hashFunc x mod capacity s) ++ [x])) ≡ₚ x :: concat (buckets s)) as Hp.
  { rewrite Er. rewrite El at 2. rewrite !concat_app. cbn. rewrite <- !app_assoc. cbn. rewrite <- Permutation_middle. by rewrite <- Permutation_middle. }
  apply valid_update.
  - intros z [?| ->%list_elem_of_singleton]%elem_of_app; [by right|by left].
  - rewrite Hp. apply NoDup_cons. split; [by rewrite <- (v_set _ _ V)|apply (v_nodup _ _ V)].
  - intros z. rewrite Hp, elem_of_cons, <- (v_set _ _ V). set_solver.
  - unfold zlen. rewrite Hp. cbn. rewrite (v_size _ _ V). unfold zlen. lia.
  - unfold loaded in Hl. apply Z.leb_gt in Hl. lia.
Qed.

End valid.

Lemma resize_ok s X f : valid s X -> loaded (size s) (capacity s) = true -> size s < 2 ^ 60 ->
  exists s', resize (insert hashFunc (S f)) s = Ok s' /\ valid s' X /\ capacity s' = 2 * capacity s /\ size s' = size s.
Proof.
  intros V Hl Hs. unfold resize. destruct (v_cap _ _ V) as [Hc Hc1]. unfold loaded in Hl. apply Z.leb_le in Hl. pose proof (v_load _ _ V) as Hload.
  rewrite wrapu_small by lia. set (c := capacity s * 2).
  destruct (foldM_inv (fun l s' => valid s' (list_to_set l) /\ capacity s' = c /\ size s' = zlen l) (fun s key => insert hashFunc (S f) key s)
    (mkSet c 0 (replicate (Z.to_nat c) [])) (concat (buckets s))) as (s' & -> & V' & Ec & Es).
  - split; [apply (empty_valid c); lia|done].
  - intros l x rest s1 El (V1 & Ec & Es). pose proof (v_nodup _ _ V) as Hnd. rewrite El in Hnd. apply NoDup_app in Hnd as (_ & Hd & _).
    assert (zlen l < size s) as Hlt. { rewrite (v_size _ _ V), El, zlen_app, zlen_cons. pose proof (zlen_nonneg rest). lia. }
    destruct (bucket_add_ok s1 (list_to_set l) V1 f x) as (s2 & -> & V2 & Ec2 & Es2).
    + rewrite elem_of_list_to_set. intros Hx. apply (Hd x Hx). left.
    + unfold loaded. apply Z.leb_gt. lia.
    + exists s2. split; [done|]. split; [|split; [lia|rewrite zlen_app; change (zlen [x]) with 1; lia]].
      assert (list_to_set (l ++ [x]) = {[x]} ∪ list_to_set (C := gset T) l) as ->; [|done]. rewrite list_to_set_app_L. set_solver.
  - exists s'. split; [done|]. split; [|split; [lia|by rewrite Es, (v_size _ _ V)]].
    assert (X = list_to_set (concat (buckets s))) as -> by (apply set_eq; intros x; by rewrite (v_set _ _ V), elem_of_list_to_set). done.
Qed.

Lemma insert_ok s X x : valid s X -> size s < 2 ^ 60 ->
  exists s', insert hashFunc fuel x s = Ok s' /\ valid s' ({[x]} ∪ X) /\ size s' <= size s + 1.
Proof.
  intros V Hs. destruct (decide (x ∈ X)) as [Hx|Hx].
  - exists s. cbn [insert fuel]. rewrite (contains_ok s X V). cbn [mbind outcome_bind]. rewrite bool_decide_true by done. split; [done|].
    assert ({[x]} ∪ X = X) as -> by set_solver. split; [done|lia].
  - destruct (loaded (size s) (capacity s)) eqn:Hl.
    + destruct (resize_ok s X 0 V Hl Hs) as (s1 & E1 & V1 & Ec1 & Es1).
      assert (loaded (size s1) (capacity s1) = false) as Hl1.
      { unfold loaded. apply Z.leb_gt. pose proof (v_load _ _ V). destruct (v_cap _ _ V). lia. }
      destruct (bucket_add_ok s1 X V1 0 x Hx Hl1) as (s2 & E2 & V2 & _ & Es2).
      exists s2. split; [|split; [done|lia]]. rewrite <- E2. unfold fuel. change (insert hashFunc 2 x s) with
        (c ← contains hashFunc x s; if (c : bool) then Ok s else
          s ← (if loaded (size s) (capacity s) then resize (insert hashFunc 1) s else Ok s);
          index ← hash hashFunc x s; bucket ← vget (buckets s) index; b ← vset (buckets s) index (bucket ++ [x]); Ok (mkSet (capacity s) (size s + 1) b)).
      rewrite (contains_ok s X V). cbn [mbind outcome_bind]. rewrite bool_decide_false by done. rewrite Hl, E1. cbn [mbind outcome_bind].
      cbn [insert]. rewrite (contains_ok s1 X V1). cbn [mbind outcome_bind]. rewrite bool_decide_false by done.
      by rewrite Hl1.
    + destruct (bucket_add_ok s X V 1 x Hx Hl) as (s2 & E2 & V2 & _ & Es2). exists s2. split; [done|split; [done|lia]].
Qed.

Lemma erase_first_perm (x : T) l : x ∈ l -> l ≡ₚ x :: erase_first x l.
Proof.
  induction l as [|y l IH]; [by intros ?%not_elem_of_nil|]. intros Hx. cbn [erase_first]. case_decide as E; [by subst|].
  apply elem_of_cons in Hx as [->|Hx]; [done|]. rewrite (IH Hx) at 1. apply Permutation_swap.
Qed.

Lemma erase_ok s X x : valid s X -> exists s', erase hashFunc x s = Ok s' /\ valid s' (X ∖ {[x]}) /\ size s' <= size s.
Proof.
  intros V. unfold erase. rewrite (contains_ok s X V). cbn [mbind outcome_bind]. destruct (decide (x ∈ X)) as [Hx|Hx].
  - rewrite bool_decide_true by done. cbn [negb]. rewrite (hash_ok s X V). cbn [mbind outcome_bind]. pose proof (hash_range s X V x). destruct (v_cap _ _ V) as [Hc _].
    rewrite vget_ok by lia. cbn [mbind outcome_bind]. rewrite vset_ok by lia. cbn [mbind outcome_bind].
    set (i := hashFunc x mod capacity s) in *. pose proof (proj1 (bucket_elem s X V x) Hx) as Hb. fold i in Hb. rewrite bool_decide_true by done.
    eexists. split; [done|]. pose proof (erase_first_perm x _ Hb) as Hp.
    destruct (vupd_split (buckets s) i (erase_first x (vat (buckets s) i))) as (l & r & El & Er & _); [lia|].
    assert (concat (buckets s) ≡ₚ x :: concat (vupd (buckets s) i (erase_first x (vat (buckets s) i)))) as Hpc.
    { rewrite Er. rewrite El at 1. rewrite !concat_app. cbn [concat]. rewrite Hp at 1. cbn [app]. symmetry. apply Permutation_middle. }
    pose proof (v_nodup _ _ V) as Hnd. rewrite Hpc in Hnd. apply NoDup_cons in Hnd as [Hnx Hnd].
    pose proof (v_size _ _ V) as Hz. unfold zlen in Hz. rewrite Hpc in Hz. cbn in Hz. split; [|cbn [size]; lia]. apply (valid_update s X V).
    + intros z Hz'. right. fold i. rewrite Hp. by right.
    + done.
    + intros z. rewrite elem_of_difference, (v_set _ _ V), Hpc, elem_of_cons, elem_of_singleton. split; [intros [[?|?] ?]; done|].
      intros Hz'. split; [by right|]. by intros ->.
    + unfold zlen. fold i. lia.
    + pose proof (v_load _ _ V). lia.
  - rewrite bool_decide_false by done. cbn [negb]. exists s. split; [done|]. assert (X ∖ {[x]} = X) as -> by set_solver. split; [done|lia].
Qed.

Lemma set_call_ok s X c : valid s X -> size s < 2 ^ 60 ->
  exists s' r X', set_call hashFunc s c = Ok (s', r) /\ abstract_call X c = (X', r) /\ valid s' X' /\ size s' <= size s + 1.
Proof.
  intros V Hs. destruct c as [x|x|x| |]; cbn [set_call abstract_call].
  - destruct (insert_ok s X x V Hs) as (s' & -> & V' & Hz). by exists s', Done, ({[x]} ∪ X).
  - destruct (erase_ok s X x V) as (s' & -> & V' & Hz). exists s', Done, (X ∖ {[x]}). split; [done|split; [done|split; [done|lia]]].
  - rewrite (contains_ok s X V). exists s, (Is (bool_decide (x ∈ X))), X. split; [done|split; [done|split; [done|lia]]].
  - exists s, (Count (size s)), X. split; [done|]. split; [by rewrite (valid_size s X V)|split; [done|lia]].
  - exists s, (Is (size s =? 0)), X. split; [done|]. split; [|split; [done|lia]]. f_equal. f_equal. rewrite (valid_size s X V).
    destruct (Z.eqb_spec (Z.of_nat (base.size X)) 0) as [E|E]; [apply bool_decide_eq_true_2; apply leibniz_equiv, size_empty_inv; lia|].
    apply bool_decide_eq_false_2. intros ->. rewrite size_empty in E. lia.
Qed.

Lemma set_calls_ok cs s X : valid s X -> size s + zlen cs <= 2 ^ 60 -> run_calls (set_call hashFunc) s cs = Ok (abstract_calls X cs).
Proof.
  induction cs as [|c cs IH] in s, X |- *; intros V Hs; [done|]. rewrite zlen_cons in Hs. pose proof (zlen_nonneg cs).
  destruct (set_call_ok s X c V ltac:(lia)) as (s' & r & X' & E & Ea & V' & Hz). cbn [run_calls abstract_calls]. rewrite E, Ea. cbn [mbind outcome_bind].
  by rewrite (IH s' X') by (done || lia).
Qed.
End buckets.

(** ** Lemmas: probing *)

Section probing.
Context {T : Type} `{Countable T} (hashFunc : T -> Z).
Implicit Types (s : ProbingSet T) (X : gset T) (t : list (option (T * bool))).

Definition lives t : list T := omap (fun n => match n with Some (v, false) => Some v | _ => None end) t.
Definition used t : Z := zlen (omap id t).

Definition stops (key : T) (n : option (T * bool)) : Prop := n = None \/ n = Some (key, false).

Lemma probe_eq n key t idx : 0 <= idx < zlen t ->
  probe (S n) key t idx = (if decide (stops key (vat t idx)) then Ok idx else probe n key t ((idx + 1) mod zlen t)).
Proof.
  intros Hi. cbn [probe]. rewrite vget_ok by done. cbn [mbind outcome_bind]. destruct (vat t idx) as [[v [|]]|].
  - rewrite decide_False by (intros [?|[=]]; done). done.
  - cbn [negb andb]. case_bool_decide as E; [rewrite decide_True by (right; by rewrite E); done|].
    rewrite decide_False by (intros [?|[= ->]]; done). done.
  - by rewrite decide_True by (by left).
Qed.

(** Probing goes on to the first slot where it stops. *)
Lemma probe_ok n key t h d e :
  0 < zlen t -> 0 <= d <= e -> e - d < Z.of_nat n -> stops key (vat t ((h + e) mod zlen t)) ->
  exists e', d <= e' <= e /\ probe n key t ((h + d) mod zlen t) = Ok ((h + e') mod zlen t) /\ stops key (vat t ((h + e') mod zlen t)) /\
    forall k, d <= k < e' -> ~ stops key (vat t ((h + k) mod zlen t)).
Proof.
  intros Ht. induction n as [|n IH] in d |- *; intros Hd Hn Hs; [lia|]. rewrite probe_eq by (apply Z.mod_pos_bound; lia). case_decide as Hst.
  - exists d. split; [lia|]. split; [done|]. split; [done|]. lia.
  - assert (d <> e) by (intros ->; done). destruct (IH (d + 1)) as (e' & He' & E & Hs' & Hbefore); [lia|lia|done|].
    exists e'. split; [lia|]. split; [|split; [done|]].
    + rewrite <- E. f_equal. rewrite Z.add_mod_idemp_l by lia. f_equal. lia.
    + intros k Hk. destruct (decide (k = d)) as [->|]; [done|]. apply Hbefore. lia.
Qed.

(** If it stops nowhere, no fuel is enough. *)
Lemma probe_hangs n key t idx : 0 <= idx < zlen t -> (forall i, 0 <= i < zlen t -> ~ stops key (vat t i)) -> probe n key t idx = Fail Undefined.
Proof.
  induction n as [|n IH] in idx |- *; intros Hi Ht; [done|]. rewrite probe_eq, decide_False by auto. apply IH; [|done]. apply Z.mod_pos_bound. lia.
Qed.

Lemma lives_elem t v : v ∈ lives t <-> exists i, 0 <= i < zlen t /\ vat t i = Some (v, false).
Proof.
  unfold lives. rewrite list_elem_of_omap. split.
  - intros (n & [i Hi]%list_elem_of_lookup & E). exists (Z.of_nat i). pose proof (lookup_lt_Some _ _ _ Hi). unfold zlen, vat. split; [lia|].
    rewrite Nat2Z.id, (list_lookup_total_correct _ _ _ Hi). destruct n as [[w [|]]|]; [done| |done]. by injection E as ->.
  - intros (i & Hi & E). exists (Some (v, false)). split; [|done]. rewrite <- E. eapply list_elem_of_lookup_2. by apply vat_list.
Qed.

Lemma free_slot t : used t < zlen t -> exists i, 0 <= i < zlen t /\ vat t i = None.
Proof.
  intros Hu. destruct (decide (None ∈ t)) as [Hin|Hno].
  - apply list_elem_of_lookup in Hin as [i Hi]. exists (Z.of_nat i). pose proof (lookup_lt_Some _ _ _ Hi). unfold zlen, vat. split; [lia|].
    by rewrite Nat2Z.id, (list_lookup_total_correct _ _ _ Hi).
  - exfalso. assert (used t = zlen t); [|lia]. unfold used, zlen. f_equal. clear Hu. induction t as [|n t IH]; [done|].
    destruct n as [n|]; [|exfalso; apply Hno; left]. cbn. f_equal. apply IH. intros Hin. apply Hno. by right.
Qed.

(** A slot is written. *)
Lemma write_slot t i n : 0 <= i < zlen t ->
  used (vupd t i (Some n)) = used t + (match vat t i with None => 1 | _ => 0 end) /\
  exists l r, lives t = l ++ lives [vat t i] ++ r /\ lives (vupd t i (Some n)) = l ++ lives [Some n] ++ r.
Proof.
  intros Hi. destruct (vupd_split t i (Some n) Hi) as (l & r & El & Er & _). set (x := vat t i) in *. clearbody x. split.
  - rewrite Er, El. unfold used. rewrite !omap_app, !zlen_app. destruct x; cbn; rewrite ?zlen_cons; lia.
  - exists (lives l), (lives r). rewrite Er, El. unfold lives. rewrite !omap_app. cbn. destruct x as [[? []]|], n as [? []]; done.
Qed.

(** The slots on the way from the hash of a key to its slot are in use. *)
Definition reachable t : Prop := forall i v, 0 <= i < zlen t -> vat t i = Some (v, false) ->
  forall d, 0 <= d < (i - hashFunc v) mod zlen t -> vat t ((hashFunc v + d) mod zlen t) <> None.

Record table_ok s X : Prop := {
  t_set x : x ∈ X <-> x ∈ lives (table s);
  t_nodup : NoDup (lives (table s));
  t_live : live s = zlen (lives (table s));
  t_reach : reachable (table s);
  t_cap : 16 <= zlen (table s) < 2 ^ 31 /\ exists q, zlen (table s) = 4 * q;
  t_load : 4 * live s <= 3 * zlen (table s);
}.

Lemma same_slot h d i c : 0 < c -> 0 <= i < c -> d = (i - h) mod c -> (h + d) mod c = i.
Proof.
  intros Hc Hi ->. rewrite Z.add_mod_idemp_r by lia. replace (h + (i - h)) with i by lia. by apply Z.mod_small.
Qed.

Lemma find_ok s X key : table_ok s X -> used (table s) < zlen (table s) ->
  exists idx, find hashFunc key (table s) = Ok idx /\ 0 <= idx < zlen (table s) /\
    vat (table s) idx = (if decide (key ∈ X) then Some (key, false) else None) /\
    forall d, 0 <= d < (idx - hashFunc key) mod zlen (table s) -> vat (table s) ((hashFunc key + d) mod zlen (table s)) <> None.
Proof.
  intros V Hu. set (t := table s) in *. set (c := zlen t) in *. destruct (t_cap _ _ V) as [Hc _]. fold t c in Hc.
  destruct (free_slot t Hu) as (j & Hj & Ej). set (h := hashFunc key). set (e := (j - h) mod c).
  assert (0 <= e < c) as He by (apply Z.mod_pos_bound; lia). assert ((h + e) mod c = j) as Ee by (by apply same_slot; [lia|..]).
  destruct (probe_ok (S (length t)) key t h 0 e) as (e' & He' & E & Hst & Hbefore); [fold c; lia|lia|unfold c, zlen in He; lia|fold c; rewrite Ee, Ej; by left|].
  fold c in E, Hst, Hbefore. rewrite Z.add_0_r in E. set (idx := (h + e') mod c) in *. assert (0 <= idx < c) as Hidx by (apply Z.mod_pos_bound; lia).
  assert (forall d, 0 <= d < e' -> vat t ((h + d) mod c) <> None) as Hpath by (intros d Hd En; apply (Hbefore d); [lia|by left]).
  assert (e' = (idx - h) mod c) as Eidx. { unfold idx. rewrite Zminus_mod_idemp_l. replace (h + e' - h) with e' by lia. by rewrite Z.mod_small by lia. }
  exists idx. split; [|split; [done|split]].
  - unfold find. fold c. rewrite (proj2 (Z.eqb_neq c 0)) by lia. cbn [negb defined_ mbind outcome_bind]. fold h. rewrite E. cbn [mbind outcome_bind].
    by rewrite wraps_small by lia.
  - destruct Hst as [Hn|Hlive].
    + rewrite decide_False; [done|]. intros (i & Hi & Ei)%(t_set _ _ V)%lives_elem. fold t in Hi, Ei. fold c in Hi.
      set (k := (i - h) mod c). assert (0 <= k < c) as Hk by (apply Z.mod_pos_bound; lia). assert ((h + k) mod c = i) as Ek by (by apply same_slot; [lia|..]).
      destruct (Z.lt_trichotomy e' k) as [Hlt|[Hek|Hlt]].
      * apply (t_reach _ _ V i key Hi Ei e'); fold t c h k; [lia|]. exact Hn.
      * subst k. assert (idx = i) as Eii by (unfold idx; rewrite Hek; done). rewrite Eii in Hn. congruence.
      * apply (Hbefore k); [lia|]. rewrite Ek. right. exact Ei.
    + rewrite decide_True; [done|]. apply (t_set _ _ V), lives_elem. by exists idx.
  - intros d Hd. rewrite <- Eidx in Hd. by apply Hpath.
Qed.

Lemma reach_write t i v b : 0 <= i < zlen t -> reachable t ->
  (b = false -> forall d, 0 <= d < (i - hashFunc v) mod zlen t -> vat t ((hashFunc v + d) mod zlen t) <> None) ->
  reachable (vupd t i (Some (v, b))).
Proof.
  intros Hi Hr Hp j w. rewrite zlen_vupd. intros Hj Ej d Hd. pose proof (Z.mod_pos_bound (hashFunc w + d) (zlen t) ltac:(lia)).
  rewrite vat_vupd by lia. case_decide as E; [done|]. rewrite vat_vupd in Ej by lia. case_decide as E'.
  - injection Ej as -> ->. subst j. by apply Hp.
  - by apply (Hr j).
Qed.

Lemma empty_table c : 16 <= c < 2 ^ 31 -> (exists q, c = 4 * q) -> table_ok (mkProbing (replicate (Z.to_nat c) None) 0) ∅ /\ used (replicate (Z.to_nat c) (@None (T * bool))) = 0.
Proof.
  intros Hc Hq. assert (lives (replicate (Z.to_nat c) None) = []) as El by (generalize (Z.to_nat c); intros n; by induction n).
  split; [|generalize (Z.to_nat c); intros n; by induction n]. constructor; cbn [table live]; rewrite ?El, ?zlen_replicate by lia; try done; try lia.
  - intros x. split; [by intros ?%elem_of_empty|by intros ?%not_elem_of_nil].
  - constructor.
  - intros i v Hi E. rewrite zlen_replicate in Hi by lia. unfold vat in E. rewrite lookup_total_replicate_2 in E by lia. done.
Qed.

Section table.
Context s X (V : table_ok s X) (room : used (table s) < zlen (table s)).

Lemma table_size : live s = Z.of_nat (base.size X).
Proof.
  rewrite (t_live _ _ V). assert (X = list_to_set (lives (table s))) as -> by (apply set_eq; intros x; by rewrite (t_set _ _ V), elem_of_list_to_set).
  by rewrite size_list_to_set by apply (t_nodup _ _ V).
Qed.

Lemma probing_contains_ok x : probing_contains hashFunc x s = Ok (bool_decide (x ∈ X)).
Proof.
  unfold probing_contains. destruct (find_ok s X x V room) as (idx & -> & Hi & E & _). cbn [mbind outcome_bind]. rewrite vget_ok by done. cbn [mbind outcome_bind].
  rewrite E. case_decide; [by rewrite bool_decide_true|by rewrite bool_decide_false].
Qed.

(** An insertion without doubling. *)
Lemma probing_add_ok f x : loaded (live s) (zlen (table s)) = false ->
  exists s', probing_insert hashFunc (S f) x s = Ok s' /\ table_ok s' ({[x]} ∪ X) /\ zlen (table s') = zlen (table s) /\
    used (table s') - live s' = used (table s) - live s /\ live s <= live s' <= live s + 1.
Proof.
  intros Hl. cbn [probing_insert]. rewrite Hl. cbn [mbind outcome_bind]. destruct (find_ok s X x V room) as (idx & -> & Hi & E & Hpath). cbn [mbind outcome_bind].
  rewrite vget_ok by done. cbn [mbind outcome_bind]. rewrite E. case_decide as Hx.
  - exists s. split; [done|]. assert ({[x]} ∪ X = X) as -> by set_solver. split; [done|split; [done|lia]].
  - rewrite vset_ok by done. cbn [mbind outcome_bind]. eexists. split; [done|]. cbn [table live].
    destruct (write_slot (table s) idx (x, false) Hi) as (Hu & l & r & El & Er). rewrite E in Hu, El. cbn in El, Er.
    assert (lives (vupd (table s) idx (Some (x, false))) ≡ₚ x :: lives (table s)) as Hp by (rewrite Er, El; by rewrite Permutation_middle).
    destruct (t_cap _ _ V) as [Hc [q Hq]]. unfold loaded in Hl. apply Z.leb_gt in Hl. rewrite zlen_vupd, Hu. split; [|split; [done|lia]].
    constructor; cbn [table live]; rewrite ?zlen_vupd.
    + intros y. rewrite Hp, elem_of_cons, <- (t_set _ _ V). set_solver.
    + rewrite Hp. apply NoDup_cons. split; [by rewrite <- (t_set _ _ V)|apply (t_nodup _ _ V)].
    + unfold zlen. rewrite Hp. cbn. rewrite (t_live _ _ V). unfold zlen. lia.
    + apply reach_write; [done|apply (t_reach _ _ V)|done].
    + split; [done|by exists q].
    + lia.
Qed.

Lemma probing_erase_ok x : exists s', probing_erase hashFunc x s = Ok s' /\ table_ok s' (X ∖ {[x]}) /\ zlen (table s') = zlen (table s) /\
  used (table s') = used (table s) /\ live s - 1 <= live s' <= live s.
Proof.
  unfold probing_erase. destruct (find_ok s X x V room) as (idx & -> & Hi & E & Hpath). cbn [mbind outcome_bind]. rewrite vget_ok by done. cbn [mbind outcome_bind].
  rewrite E. case_decide as Hx.
  - rewrite vset_ok by done. cbn [mbind outcome_bind]. eexists. split; [done|]. cbn [table live].
    destruct (write_slot (table s) idx (x, true) Hi) as (Hu & l & r & El & Er). rewrite E in Hu, El. cbn in El, Er.
    assert (lives (table s) ≡ₚ x :: lives (vupd (table s) idx (Some (x, true)))) as Hp by (rewrite Er, El; by rewrite Permutation_middle).
    pose proof (t_nodup _ _ V) as Hnd. rewrite Hp in Hnd. apply NoDup_cons in Hnd as [Hnx Hnd].
    pose proof (t_live _ _ V) as Hlv. unfold zlen in Hlv. rewrite Hp in Hlv. cbn in Hlv.
    rewrite zlen_vupd, Hu. split; [|split; [done|lia]]. constructor; cbn [table live]; rewrite ?zlen_vupd.
    + intros y. rewrite elem_of_difference, (t_set _ _ V), Hp, elem_of_cons, elem_of_singleton. split; [intros [[?|?] ?]; done|].
      intros Hy. split; [by right|]. by intros ->.
    + done.
    + unfold zlen. lia.
    + apply reach_write; [done|apply (t_reach _ _ V)|done].
    + apply (t_cap _ _ V).
    + pose proof (t_load _ _ V). lia.
  - exists s. split; [done|]. assert (X ∖ {[x]} = X) as -> by set_solver. split; [done|split; [done|lia]].
Qed.
End table.

Lemma rehash_ok s X f : table_ok s X -> loaded (live s) (zlen (table s)) = true -> zlen (table s) < 2 ^ 30 ->
  exists s', rehash (probing_insert hashFunc (S f)) s = Ok s' /\ table_ok s' X /\ zlen (table s') = 2 * zlen (table s) /\
    used (table s') = live s' /\ live s' = live s.
Proof.
  intros V Hl Hc. unfold rehash. destruct (t_cap _ _ V) as [Hc16 [q Hq]]. pose proof (t_load _ _ V) as Hload. rewrite wrapu_small by lia. set (c := zlen (table s) * 2).
  destruct (empty_table c) as [V0 U0]; [lia|exists (2 * q); lia|].
  destruct (foldM_inv (fun l s' => table_ok s' (list_to_set (lives l)) /\ zlen (table s') = c /\ used (table s') - live s' = 0 /\ live s' = zlen (lives l))
    (fun s n => match n with Some (v, false) => probing_insert hashFunc (S f) v s | _ => Ok s end)
    (mkProbing (replicate (Z.to_nat c) None) 0) (table s)) as (s' & -> & V' & Ec & Eu & El).
  - split; [done|]. cbn [table live]. rewrite zlen_replicate by lia. split; [done|]. split; [lia|done].
  - intros l n rest s1 E (V1 & Ec1 & Eu1 & El1). assert (lives (l ++ [n]) = lives l ++ lives [n]) as -> by (unfold lives; by rewrite omap_app).
    assert (forall m, lives [m] = [] -> table_ok s1 (list_to_set (lives l ++ lives [m])) /\ zlen (table s1) = c /\ used (table s1) - live s1 = 0 /\ live s1 = zlen (lives l ++ lives [m])) as Hskip
      by (intros m ->; by rewrite app_nil_r).
    destruct n as [[v [|]]|]; [exists s1; split; [done|by apply Hskip]| |exists s1; split; [done|by apply Hskip]].
    cbn [lives omap list_omap].
    assert (lives (table s) = lives l ++ v :: lives rest) as Elt by (rewrite E; unfold lives; by rewrite omap_app).
    pose proof (t_nodup _ _ V) as Hnd. rewrite Elt in Hnd. apply NoDup_app in Hnd as (_ & Hd & _).
    assert (zlen (lives l) < live s) as Hlt. { rewrite (t_live _ _ V), Elt, zlen_app, zlen_cons. pose proof (zlen_nonneg (lives rest)). lia. }
    destruct (probing_add_ok s1 _ V1) with (f := f) (x := v) as (s2 & E2 & V2 & Ec2 & Eu2 & _); [lia|unfold loaded; apply Z.leb_gt; lia|].
    exists s2. split; [exact E2|]. assert (v ∉ lives l) as Hv by (intros Hv; apply (Hd v Hv); left).
    assert (list_to_set (lives l ++ [v]) = {[v]} ∪ list_to_set (C := gset T) (lives l)) as Es by (rewrite list_to_set_app_L; set_solver).
    rewrite Es. split; [exact V2|]. split; [lia|]. split; [lia|].
    rewrite (table_size s2 _ V2), size_union, size_singleton by set_solver. rewrite size_list_to_set by (pose proof (t_nodup _ _ V) as Hn; rewrite Elt in Hn; by apply NoDup_app in Hn as (? & _)).
    rewrite zlen_app. change (zlen [v]) with 1. unfold zlen. lia.
  - exists s'. split; [done|]. assert (X = list_to_set (lives (table s))) as -> by (apply set_eq; intros x; by rewrite (t_set _ _ V), elem_of_list_to_set).
    split; [done|]. split; [lia|]. split; [lia|]. by rewrite El, (t_live _ _ V).
Qed.

Definition erases (cs : list (call T)) : Z := zlen (filter (fun c => match c with Erase _ => true | _ => false end = true) cs).

(** What holds between calls: at most [e] slots hold deleted nodes, and the
    table has not grown beyond what [n] insertions need. *)
Record between (e n : Z) s X : Prop := {
  bt_ok : table_ok s X;
  bt_deleted : used (table s) <= live s + e;
  bt_live : live s <= n;
  bt_cap : 3 * zlen (table s) <= 8 * n + 48;
}.

Lemma between_room e n s X : between e n s X -> e <= 3 -> used (table s) < zlen (table s).
Proof. intros [V Hu _ _] He. destruct (t_cap _ _ V) as [Hc _]. pose proof (t_load _ _ V). lia. Qed.

Lemma probing_insert_ok e n s X x : between e n s X -> 0 <= e <= 3 -> n < 2 ^ 28 ->
  exists s', probing_insert hashFunc fuel x s = Ok s' /\ between e (n + 1) s' ({[x]} ∪ X).
Proof.
  intros B He Hn. pose proof (between_room _ _ _ _ B ltac:(lia)) as Hroom. destruct B as [V Hu Hlive Hcap]. unfold fuel.
  destruct (loaded (live s) (zlen (table s))) eqn:Hl.
  - destruct (rehash_ok s X 0 V Hl ltac:(lia)) as (s1 & E1 & V1 & Ec1 & Eu1 & El1). destruct (t_cap _ _ V) as [Hc _]. pose proof (t_load _ _ V).
    assert (loaded (live s1) (zlen (table s1)) = false) as Hl1 by (unfold loaded; apply Z.leb_gt; lia).
    destruct (probing_add_ok s1 X V1) with (f := 0%nat) (x := x) as (s2 & E2 & V2 & Ec2 & Eu2 & El2); [lia|done|].
    exists s2. split.
    + rewrite <- E2. change (probing_insert hashFunc 2 x s) with
        (s ← (if loaded (live s) (zlen (table s)) then rehash (probing_insert hashFunc 1) s else Ok s);
         idx ← find hashFunc x (table s); n ← vget (table s) idx;
         match n with None | Some (_, true) => t ← vset (table s) idx (Some (x, false)); Ok (mkProbing t (live s + 1)) | Some (_, false) => Ok s end).
      rewrite Hl, E1. cbn [mbind outcome_bind probing_insert]. by rewrite Hl1.
    + unfold loaded in Hl. apply Z.leb_le in Hl. constructor; [done|lia|lia|lia].
  - destruct (probing_add_ok s X V Hroom 1 x Hl) as (s2 & E2 & V2 & Ec2 & Eu2 & El2). exists s2. split; [done|]. constructor; [done|lia|lia|lia].
Qed.

Lemma probing_calls_ok cs e n s X : between e n s X -> 0 <= e -> e + erases cs <= 3 -> n + zlen cs < 2 ^ 28 ->
  run_calls (probing_call hashFunc) s cs = Ok (abstract_calls X cs).
Proof.
  induction cs as [|c cs IH] in e, n, s, X |- *; intros B He Hes Hn; [done|]. unfold erases in Hes. rewrite filter_cons in Hes. fold (erases cs) in Hes. rewrite zlen_cons in Hn.
  pose proof (zlen_nonneg cs). assert (0 <= erases cs) by apply zlen_nonneg.
  assert (e <= 3) as He3 by (destruct c; case_decide; rewrite ?zlen_cons in Hes; fold (erases cs) in Hes; lia).
  pose proof (between_room _ _ _ _ B He3) as Hroom. pose proof (bt_ok _ _ _ _ B) as V.
  destruct c as [x|x|x| |]; cbn [run_calls probing_call abstract_calls abstract_call].
  - destruct (probing_insert_ok e n s X x B) as (s' & -> & B'); [lia|lia|]. cbn [mbind outcome_bind]. rewrite (IH e (n + 1) s' ({[x]} ∪ X)); [done|done|done|exact Hes|lia].
  - destruct (probing_erase_ok s X V Hroom x) as (s' & -> & V' & Ec & Eu & El). cbn [mbind outcome_bind].
    rewrite decide_True, zlen_cons in Hes by done. fold (erases cs) in Hes. destruct B as [_ Hu Hlive Hcap].
    rewrite (IH (e + 1) n s' (X ∖ {[x]})); [done| |lia|lia|lia]. constructor; [done|lia|lia|lia].
  - rewrite (probing_contains_ok s X V Hroom). cbn [mbind outcome_bind]. rewrite (IH e n s X); [done|done|done|exact Hes|lia].
  - cbn [mbind outcome_bind]. rewrite (IH e n s X); [|done|done|exact Hes|lia]. cbn. by rewrite (table_size s X V).
  - cbn [mbind outcome_bind]. rewrite (IH e n s X); [|done|done|exact Hes|lia]. cbn. do 3 f_equal. rewrite (table_size s X V).
    destruct (Z.eqb_spec (Z.of_nat (base.size X)) 0) as [E|E]; symmetry.
    + apply bool_decide_eq_true_2. apply leibniz_equiv, size_empty_inv. lia.
    + apply bool_decide_eq_false_2. intros ->. rewrite size_empty in E. lia.
Qed.
End probing.

(** ** Properties *)

(** C35: whatever the hash function, both hash sets answer like a set.  The
    one with buckets does so for any sequence of calls, from any capacity of
    at least one; the one that probes does so for any sequence with at most
    three calls of [erase].  Without such a bound it need not answer: when every slot holds
    a deleted node, [find] goes round for ever. *)
Theorem hash_sets_are_sets {T : Type} `{Countable T} (hashFunc : T -> Z) (cs : list (call T)) :
  (forall c, 1 <= c -> zlen cs <= 2 ^ 60 -> run_calls (set_call hashFunc) (new_MyHashSet c) cs = Ok (abstract_calls ∅ cs)) /\
  (erases cs <= 3 -> zlen cs < 2 ^ 28 -> run_calls (probing_call hashFunc) new_ProbingSet cs = Ok (abstract_calls ∅ cs)) /\
  (forall (t : list (option (T * bool))) key fuel, t <> [] -> (forall n, n ∈ t -> exists v, n = Some (v, true)) -> probe fuel key t (hashFunc key mod zlen t) = Fail Undefined).
Proof.
  split; [|split].
  - intros c Hc Hcs. apply set_calls_ok; [by apply empty_valid|]. done.
  - intros He Hcs. destruct (empty_table (T := T) hashFunc DEFAULT_CAPACITY) as [V0 U0]; [done|by exists 4|].
    apply (probing_calls_ok hashFunc cs 0 0); [|done|done|done]. constructor; [exact V0| | |]; done.
  - intros t key fuel Ht Hd. assert (0 < zlen t) as Hz by (destruct t as [|n t]; [done|rewrite zlen_cons; pose proof (zlen_nonneg t); lia]).
    apply probe_hangs; [by apply Z.mod_pos_bound|]. intros i Hi. destruct (Hd (vat t i)) as [v ->]; [eapply list_elem_of_lookup_2; by apply vat_list|].
    by intros [?|[=]].
Qed.

Lemma hash_sets_are_sets_witness :
  let cs := [Insert 3; Insert 19; Erase 3; Contains 19; GetSize] in
  run_calls (set_call int_hash) (new_MyHashSet 1) cs = Ok [Done; Done; Done; Is true; Count 1] /\
  run_calls (probing_call int_hash) new_ProbingSet cs = Ok [Done; Done; Done; Is true; Count 1] /\
  forall fuel, probe fuel 7 (replicate 16 (Some (0, true))) 7 = Fail Undefined.
Proof.
  set (cs := [Insert 3; Insert 19; Erase 3; Contains 19; GetSize]). destruct (hash_sets_are_sets int_hash cs) as (H1 & H2 & H3). cbv zeta.
  split; [|split].
  - rewrite H1; [vm_compute; reflexivity|lia|vm_compute; discriminate].
  - rewrite H2; [vm_compute; reflexivity|vm_compute; discriminate|vm_compute; reflexivity].
  - intros fuel. apply (H3 (replicate 16 (Some (0, true))) 7 fuel); [done|]. intros n Hn. apply elem_of_replicate in Hn as [-> _]. by exists 0.
Defined.
