(* ===== verification/CountingSorts.v ===== *)
(** * CountingSorts: sorting by counting

    Models [countingSort] of [datastruct/counting_sort.h] and [radixSort] of
    [radix_sort.h].  Both count how often each key occurs, add the counts up
    and place the elements from the back; what they have in common takes the
    key as a function.  All arithmetic is in [int].  Running out of memory is
    not modelled. *)
From stdpp Require Import sorting.
From S2P Require Import Prelude Vector Heap Sorts.
From Stdlib Require Import Permutation Sorted.

(** ** The loops *)

(** A loop body that starts with [x = nums[i]]. *)
Definition at_index {B} (nums : list Z) (f : B -> Z -> outcome B) (b : B) (i : Z) : outcome B := x ← vget nums i; f b x.

(** [count[key]++]. *)
Definition tally (key : Z -> outcome Z) (count : list Z) (x : Z) : outcome (list Z) :=
  k ← key x; c ← vget count k; _ ← ints [c + 1]; vset count k (c + 1).

(** [count[i] += count[i - 1]]. *)
Definition accumulate (count : list Z) (i : Z) : outcome (list Z) :=
  c ← vget count i; d ← vget count (i - 1); _ ← ints [c + d]; vset count i (c + d).

(** [result[count[key] - 1] = x; count[key]--]. *)
Definition place (key : Z -> outcome Z) (s : list Z * list Z) (x : Z) : outcome (list Z * list Z) :=
  let '(count, result) := s in
  k ← key x; c ← vget count k; _ ← ints [c - 1]; result ← vset result (c - 1) x; count ← vset count k (c - 1); Ok (count, result).

(** [n - 1], ..., [0]. *)
Definition downto (n : Z) : list Z := reverse (seqZ 0 n).

(** ** counting_sort.h *)

Definition least (nums : list Z) : Z := match nums with [] => 0 | x :: nums => foldl Z.min x nums end.
Definition greatest (nums : list Z) : Z := match nums with [] => 0 | x :: nums => foldl Z.max x nums end.

Definition offset_key (min_val x : Z) : outcome Z := _ ← ints [x - min_val]; Ok (x - min_val).

Definition countingSort (nums : list Z) : outcome (list Z) :=
  match nums with
  | [] => Ok []
  | _ =>
      let min_val := least nums in
      let max_val := greatest nums in
      _ ← ints [max_val - min_val; max_val - min_val + 1];
      let range := max_val - min_val + 1 in
      count ← foldM (tally (offset_key min_val)) (replicate (Z.to_nat range) 0) nums;
      count ← foldM accumulate count (seqZ 1 (range - 1));
      '(_, result) ← foldM (at_index nums (place (offset_key min_val))) (count, replicate (length nums) 0) (downto (i32 (zlen nums - 1) + 1));
      Ok result
  end.

(** ** radix_sort.h *)

(** [(x / exp) % 10]. *)
Definition digit (exp x : Z) : outcome Z := _ ← defined_ (negb (exp =? 0)); Ok (Z.rem (Z.quot x exp) 10).

Definition countingSortForRadix (arr : list Z) (exp : Z) : outcome (list Z) :=
  let n := i32 (zlen arr) in
  count ← foldM (at_index arr (tally (digit exp))) (replicate 10 0) (seqZ 0 n);
  count ← foldM accumulate count (seqZ 1 9);
  '(_, output) ← foldM (at_index arr (place (digit exp))) (count, replicate (Z.to_nat n) 0) (downto n);
  foldM (fun arr i => x ← vget output i; vset arr i x) arr (seqZ 0 n).

Fixpoint radix_loop (fuel : nat) (max_val exp : Z) (nums : list Z) : outcome (list Z) :=
  match fuel with
  | O => Fail Undefined
  | S fuel =>
      _ ← defined_ (negb (exp =? 0));
      if 0 <? Z.quot max_val exp then
        nums ← countingSortForRadix nums exp;
        _ ← ints [exp * 10];
        radix_loop fuel max_val (exp * 10) nums
      else Ok nums
  end.

Definition most_digits : nat := 11.

Definition int_sum (x y : Z) : outcome Z := _ ← ints [x + y]; Ok (x + y).

Definition radixSort (nums : list Z) : outcome (list Z) :=
  match nums with
  | [] => Ok []
  | _ =>
      let min_val := least nums in
      offset ← (if min_val <? 0 then _ ← ints [- min_val]; Ok (- min_val) else Ok 0);
      nums ← (if 0 <? offset then mapM (fun x => int_sum x offset) nums else Ok nums);
      nums ← radix_loop most_digits (greatest nums) 1 nums;
      (if 0 <? offset then mapM (fun x => int_sum x (- offset)) nums else Ok nums)
  end.

Example count_few : countingSort [3; -1; 3; 0; -1] = Ok [-1; -1; 0; 3; 3].
Proof. reflexivity. Qed.
Example count_far : countingSort [2 ^ 30; - 2 ^ 30] = Fail Undefined.
Proof. reflexivity. Qed.
Example radix_few : radixSort [170; -45; 75; 90; -802; 24] = Ok [-802; -45; 24; 75; 90; 170].
Proof. vm_compute. reflexivity. Qed.
Example radix_billion : radixSort [10 ^ 9] = Fail Undefined.
Proof. vm_compute. reflexivity. Qed.

(** ** Specification: stable distribution *)

(** The elements with key 0, then those with key 1, and so on, each in the
    order they have. *)
Definition with_key (key : Z -> Z) (k : Z) (l : list Z) : list Z := filter (fun x => key x = k) l.
Definition distribute (key : Z -> Z) (ks l : list Z) : list Z := ks ≫= (fun k => with_key key k l).

Section distribute.
Variable key : Z -> Z.

Lemma elem_of_distribute ks l x : x ∈ distribute key ks l <-> key x ∈ ks /\ x ∈ l.
Proof.
  unfold distribute, with_key. rewrite list_elem_of_bind. setoid_rewrite list_elem_of_filter. split; [by intros (k & [<- ?] & ?)|].
  intros [? ?]. by exists (key x).
Qed.

Lemma distribute_skip ks l x : key x ∉ ks -> distribute key ks (x :: l) = distribute key ks l.
Proof.
  unfold distribute, with_key. induction ks as [|k ks IH]; [done|]. intros [Hk Hks]%not_elem_of_cons. cbn [mbind list_bind].
  rewrite filter_cons_False by done. f_equal. by apply IH.
Qed.

Lemma distribute_perm ks l : NoDup ks -> (forall x, x ∈ l -> key x ∈ ks) -> distribute key ks l ≡ₚ l.
Proof.
  intros Hks. induction l as [|x l IH]; intros Hl.
  - unfold distribute, with_key. clear. induction ks; [done|]. cbn. done.
  - rewrite <- IH at 2 by (intros y Hy; apply Hl; by right). specialize (Hl x ltac:(left)). clear IH.
    induction ks as [|k ks IH]; [by apply not_elem_of_nil in Hl|]. apply NoDup_cons in Hks as [Hk Hks].
    change (distribute key (k :: ks) (x :: l)) with (with_key key k (x :: l) ++ distribute key ks (x :: l)).
    change (distribute key (k :: ks) l) with (with_key key k l ++ distribute key ks l). unfold with_key.
    apply elem_of_cons in Hl as [Hl|Hl].
    + rewrite filter_cons_True by done. rewrite <- Hl in Hk. by rewrite distribute_skip.
    + rewrite filter_cons_False by (intros E; by rewrite E in Hl). rewrite (IH Hks Hl). by rewrite Permutation_middle.
Qed.

Lemma filter_sorted (R : Z -> Z -> Prop) (P : Z -> Prop) `{!forall x, Decision (P x)} l : StronglySorted R l -> StronglySorted R (filter P l).
Proof.
  induction 1 as [|x l Hl IH Hx]; [constructor|]. rewrite filter_cons. case_decide; [|done]. constructor; [done|].
  rewrite Forall_forall in Hx |- *. intros y [_ Hy]%list_elem_of_filter. by apply Hx.
Qed.

(** Distribution by a key refines the order of the list. *)
Lemma distribute_sorted (R R' : Z -> Z -> Prop) ks l : StronglySorted Z.lt ks -> StronglySorted R l ->
  (forall x y, x ∈ l -> y ∈ l -> key x < key y -> R' x y) ->
  (forall x y, x ∈ l -> y ∈ l -> key x = key y -> R x y -> R' x y) -> StronglySorted R' (distribute key ks l).
Proof.
  intros Hks Hl Hlt Heq. induction Hks as [|k ks Hks IH Hk]; [constructor|].
  change (distribute key (k :: ks) l) with (with_key key k l ++ distribute key ks l). fold (distribute key ks l). apply StronglySorted_app_2; [| |exact IH].
  - intros x y [Ex Hx]%list_elem_of_filter [Hy Hyl]%elem_of_distribute. rewrite Forall_forall in Hk. apply Hlt; [done|done|]. specialize (Hk _ Hy). lia.
  - unfold with_key. assert (StronglySorted R (filter (fun x => key x = k) l)) as Hf by (by apply filter_sorted).
    assert (forall x, x ∈ filter (fun x => key x = k) l -> key x = k /\ x ∈ l) as Hin by (intros x Hx; by apply list_elem_of_filter in Hx).
    induction Hf as [|x f Hf IHf Hx]; [constructor|]. constructor; [apply IHf; intros y Hy; apply Hin; by right|].
    rewrite Forall_forall in Hx |- *. intros y Hy. destruct (Hin x ltac:(left)) as [? ?]. destruct (Hin y ltac:(by right)) as [? ?].
    apply Heq; [done|done|congruence|by apply Hx].
Qed.
End distribute.

Lemma seqZ_sorted lo n : StronglySorted Z.lt (seqZ lo n).
Proof.
  unfold seqZ. generalize (Z.to_nat n) as m. intros m. generalize 0%nat as i. induction m as [|m IH]; intros i; cbn; [constructor|].
  constructor; [apply IH|]. apply Forall_forall. intros x (j & -> & Hj)%list_elem_of_fmap. apply elem_of_seq in Hj. lia.
Qed.

(** ** The loops compute it *)

Definition count_key (key : Z -> Z) (k : Z) (l : list Z) : Z := zlen (with_key key k l).
Definition count_below (key : Z -> Z) (k : Z) (l : list Z) : Z := zlen (filter (fun x => key x < k) l).

Lemma filter_true {A} (P : A -> Prop) `{!forall x, Decision (P x)} x l : P x -> filter P (x :: l) = x :: filter P l.
Proof. apply filter_cons_True. Qed.

Section counting.
Context (keyM : Z -> outcome Z) (key : Z -> Z) (K : Z) (nums : list Z).
Hypothesis key_ok : forall x, x ∈ nums -> keyM x = Ok (key x) /\ 0 <= key x < K.
Hypothesis length_ok : zlen nums < 2 ^ 31.

Abbreviation cnt := (count_key key).
Abbreviation below := (count_below key).

Lemma cnt_app k l l' : cnt k (l ++ l') = cnt k l + cnt k l'.
Proof. unfold count_key, with_key. by rewrite filter_app, zlen_app. Qed.

Lemma cnt_one k x : cnt k [x] = if decide (key x = k) then 1 else 0.
Proof. unfold count_key, with_key. rewrite filter_cons, filter_nil. by destruct (decide _). Qed.

Lemma cnt_range k l : 0 <= cnt k l <= zlen l.
Proof. split; [apply zlen_nonneg|apply zlen_filter_le]. Qed.

Lemma below_succ k l : below (k + 1) l = below k l + cnt k l.
Proof.
  unfold count_below, count_key, with_key. induction l as [|x l IH]; [done|]. rewrite !filter_cons.
  repeat case_decide; rewrite ?zlen_cons; lia.
Qed.

Lemma below_mono k k' l : k <= k' -> below k l <= below k' l.
Proof.
  intros Hk. unfold count_below. induction l as [|x l IH]; [done|]. rewrite !filter_cons. repeat case_decide; rewrite ?zlen_cons; lia.
Qed.

Lemma below_range k l : 0 <= below k l <= zlen l.
Proof. split; [apply zlen_nonneg|apply zlen_filter_le]. Qed.

Lemma below_first : below 0 nums = 0.
Proof. unfold count_below. rewrite filter_none; [done|]. intros x Hx. destruct (key_ok x Hx). lia. Qed.

Lemma below_last : below K nums = zlen nums.
Proof. unfold count_below. rewrite filter_all; [done|]. intros x Hx. destruct (key_ok x Hx). lia. Qed.

Lemma tally_ok : 0 <= K -> exists count, foldM (tally keyM) (replicate (Z.to_nat K) 0) nums = Ok count /\ zlen count = K /\
  forall k, 0 <= k < K -> vat count k = cnt k nums.
Proof.
  intros HK. apply (foldM_inv (fun l count => zlen count = K /\ forall k, 0 <= k < K -> vat count k = cnt k l)).
  - split; [by apply zlen_replicate|]. intros k Hk. unfold vat. apply lookup_total_replicate_2. lia.
  - intros l x rest count E [Hl Hc]. destruct (key_ok x) as [Ek Hk]; [rewrite E; apply elem_of_app; right; left|].
    unfold tally. rewrite Ek. cbn [mbind outcome_bind]. rewrite vget_ok by lia. cbn [mbind outcome_bind]. rewrite Hc by lia.
    pose proof (cnt_range (key x) l). assert (zlen l < zlen nums) by (rewrite E, zlen_app, zlen_cons; pose proof (zlen_nonneg rest); lia).
    rewrite ints_ok by (repeat constructor; lia). cbn [mbind outcome_bind]. rewrite vset_ok by lia. eexists. split; [done|].
    rewrite zlen_vupd. split; [done|]. intros k Hk'. rewrite vat_vupd by lia. rewrite cnt_app, cnt_one.
    repeat case_decide; subst; try lia; rewrite Hc by lia; lia.
Qed.

Lemma accumulate_ok count : 1 <= K -> zlen count = K -> (forall k, 0 <= k < K -> vat count k = cnt k nums) ->
  exists count', foldM accumulate count (seqZ 1 (K - 1)) = Ok count' /\ zlen count' = K /\ forall k, 0 <= k < K -> vat count' k = below (k + 1) nums.
Proof.
  intros HK Hl Hc.
  destruct (foldM_inv (fun l count' => zlen count' = K /\ forall k, 0 <= k < K -> vat count' k = if decide (k <= zlen l) then below (k + 1) nums else cnt k nums)
    accumulate count (seqZ 1 (K - 1))) as (count' & E & Hl' & Hc').
  - split; [done|]. intros k Hk. rewrite Hc by done. case_decide as Hz; [|done]. rewrite zlen_nil in Hz. replace k with 0 by lia. rewrite below_succ, below_first. lia.
  - intros l i rest c E [Hlc Hcc]. assert (i = 1 + zlen l) as ->.
    { assert (seqZ 1 (K - 1) !! length l = Some i) as Hi by (rewrite E; apply list_lookup_middle; done). apply lookup_seqZ in Hi as [-> _]. unfold zlen. lia. }
    pose proof (zlen_nonneg l). pose proof (zlen_nonneg rest).
    assert (1 + zlen l < K) by (pose proof (zlen_seqZ 1 (K - 1) ltac:(lia)) as Hz; rewrite E, zlen_app, zlen_cons in Hz; lia).
    unfold accumulate. rewrite vget_ok by lia. cbn [mbind outcome_bind]. rewrite vget_ok by lia. cbn [mbind outcome_bind]. rewrite !Hcc by lia.
    rewrite decide_False, decide_True by lia. replace (1 + zlen l - 1 + 1) with (1 + zlen l) by lia.
    pose proof (below_succ (1 + zlen l) nums) as Hs. pose proof (below_range (1 + zlen l + 1) nums). pose proof (cnt_range (1 + zlen l) nums). pose proof (below_range (1 + zlen l) nums).
    rewrite ints_ok by (repeat constructor; lia). cbn [mbind outcome_bind]. rewrite vset_ok by lia. eexists. split; [done|]. rewrite zlen_vupd. split; [done|].
    intros k Hk. rewrite vat_vupd by lia. rewrite zlen_app. change (zlen [1 + zlen l]) with 1. case_decide as Hki; [subst; rewrite decide_True by lia; lia|].
    rewrite Hcc by lia. repeat case_decide; (done || lia).
  - exists count'. split; [done|]. split; [done|]. intros k Hk. rewrite Hc', decide_True; [done|rewrite zlen_seqZ; lia|done].
Qed.

(** What holds while the elements of [pre] are still to be placed. *)
Definition placed (pre : list Z) (s : list Z * list Z) : Prop :=
  let '(count, result) := s in
  zlen count = K /\ zlen result = zlen nums /\
  (forall k, 0 <= k < K -> vat count k = below k nums + cnt k pre) /\
  (forall k, 0 <= k < K -> with_key key k pre ++ slice result (below k nums + cnt k pre) (below (k + 1) nums) = with_key key k nums).

Lemma place_one pre x s : (exists rest, nums = pre ++ x :: rest) -> placed (pre ++ [x]) s -> exists s', place keyM s x = Ok s' /\ placed pre s'.
Proof.
  destruct s as [count result]. intros (rest & E) (Hlc & Hlr & Hc & Hr). destruct (key_ok x) as [Ek Hk]; [rewrite E; apply elem_of_app; right; left|].
  set (k := key x) in *. pose proof (Hc k Hk) as Eck. rewrite cnt_app, cnt_one, decide_True in Eck by done.
  assert (cnt k pre + 1 <= cnt k nums) as Hroom by (rewrite E, cnt_app; change (x :: rest) with ([x] ++ rest); rewrite cnt_app, cnt_one, decide_True by done; pose proof (cnt_range k rest); lia).
  pose proof (below_succ k nums) as Hs. pose proof (below_range k nums). pose proof (below_range (k + 1) nums). pose proof (cnt_range k pre).
  unfold place. rewrite Ek. cbn [mbind outcome_bind]. rewrite vget_ok by lia. cbn [mbind outcome_bind]. rewrite Eck.
  rewrite ints_ok by (repeat constructor; lia). cbn [mbind outcome_bind]. rewrite vset_ok by lia. cbn [mbind outcome_bind]. rewrite vset_ok by lia. cbn [mbind outcome_bind].
  eexists. split; [done|]. unfold placed. rewrite !zlen_vupd. split; [done|]. split; [done|]. split.
  - intros k' Hk'. rewrite vat_vupd by lia. case_decide as Hkk; [subst k'; lia|]. rewrite Hc, cnt_app, cnt_one, decide_False by (done || congruence). lia.
  - intros k' Hk'. pose proof (Hr k' Hk') as Hr'. rewrite cnt_app, cnt_one in Hr'. unfold with_key in Hr'. rewrite filter_app in Hr'. cbn [filter list_filter] in Hr'.
    pose proof (below_succ k' nums). pose proof (below_range k' nums). pose proof (below_range (k' + 1) nums). pose proof (cnt_range k' pre).
    replace (below k nums + (cnt k pre + 1) - 1) with (below k nums + cnt k pre) by lia.
    destruct (decide (k' = k)) as [->|Hkk].
    + rewrite slice_cons by (rewrite ?zlen_vupd; lia). rewrite vat_vupd_eq by lia. fold k in Hr'. rewrite !decide_True in Hr' by done. unfold with_key. rewrite <- Hr'.
      rewrite <- app_assoc. cbn [app]. do 2 f_equal. rewrite Z.add_assoc. apply slice_ext; [lia|lia|by rewrite zlen_vupd|]. intros i Hi. apply vat_vupd_ne; lia.
    + fold k in Hr'. rewrite !decide_False in Hr' by congruence. rewrite app_nil_r, Z.add_0_r in Hr'. unfold with_key. rewrite <- Hr'. f_equal.
      assert (cnt k' pre <= cnt k' nums) by (rewrite E, cnt_app; pose proof (cnt_range k' (x :: rest)); lia).
      apply slice_ext; [lia|lia|by rewrite zlen_vupd|]. intros i Hi. apply vat_vupd_ne; [|lia|lia]. intros Hi'.
      destruct (Z.lt_total k k') as [Hlt|[?|Hlt]]; [pose proof (below_mono (k + 1) k' nums ltac:(lia)); lia|congruence|pose proof (below_mono (k' + 1) k nums ltac:(lia)); lia].
Qed.

Lemma place_all s : placed nums s -> exists s', foldM (place keyM) s (reverse nums) = Ok s' /\ placed [] s'.
Proof.
  intros Hs. destruct (foldM_inv (fun l s => exists pre, nums = pre ++ reverse l /\ placed pre s) (place keyM) s (reverse nums)) as (s' & E & pre & Hp & Hs').
  - exists nums. split; [by rewrite app_nil_r|done].
  - intros l x rest s1 E (pre & Hp & Hs1). assert (pre = reverse rest ++ [x]) as ->.
    { apply (app_inv_tail (reverse l)). rewrite <- Hp, <- (reverse_involutive nums), E. by rewrite reverse_app, reverse_cons. }
    destruct (place_one (reverse rest) x s1) as (s2 & E2 & Hs2); [exists (reverse l); by rewrite Hp, <- app_assoc|done|].
    exists s2. split; [done|]. exists (reverse rest). split; [|done]. by rewrite Hp, reverse_app, <- app_assoc.
  - exists s'. split; [done|]. rewrite reverse_involutive in Hp. apply (f_equal length) in Hp. rewrite length_app in Hp.
    destruct pre; [done|cbn in Hp; lia].
Qed.

Lemma placed_end count result : 0 <= K -> placed [] (count, result) -> result = distribute key (seqZ 0 K) nums.
Proof.
  intros HK (_ & Hl & _ & Hr). assert (forall k, 0 <= k -> k <= K -> slice result 0 (below k nums) = distribute key (seqZ 0 k) nums) as H.
  { apply (natlike_ind (fun k => k <= K -> slice result 0 (below k nums) = distribute key (seqZ 0 k) nums)).
    - intros _. rewrite below_first. by rewrite slice_nil.
    - intros k Hk IH HkK. pose proof (below_range k nums). pose proof (below_range (k + 1) nums). pose proof (below_mono k (k + 1) nums ltac:(lia)).
      replace (Z.succ k) with (k + 1) in * by lia. rewrite <- (slice_app result 0 (below k nums)) by lia. rewrite IH by lia.
      rewrite seqZ_app by lia. unfold distribute. rewrite bind_app. f_equal. replace (seqZ (0 + k) 1) with [k] by (unfold seqZ; cbn; f_equal; lia).
      cbn [mbind list_bind]. rewrite app_nil_r, <- (Hr k) by lia.
      change (with_key key k []) with (@nil Z). change (cnt k []) with 0. cbn [app]. by rewrite Z.add_0_r. }
  rewrite <- H by lia. rewrite below_last, <- Hl. by rewrite slice_full.
Qed.

Lemma counting_ok result : 1 <= K -> zlen result = zlen nums ->
  exists count count' count'', foldM (tally keyM) (replicate (Z.to_nat K) 0) nums = Ok count /\ foldM accumulate count (seqZ 1 (K - 1)) = Ok count' /\
    foldM (place keyM) (count', result) (reverse nums) = Ok (count'', distribute key (seqZ 0 K) nums).
Proof.
  intros HK Hl. destruct tally_ok as (count & E & Hlc & Hc); [lia|]. destruct (accumulate_ok count) as (count' & E' & Hlc' & Hc'); [done|done|done|].
  destruct (place_all (count', result)) as ([count'' r] & E'' & H).
  - split; [done|]. split; [done|]. split.
    + intros k Hk. by rewrite Hc', below_succ.
    + intros k Hk. rewrite <- below_succ, slice_nil by lia. apply app_nil_r.
  - exists count, count', count''. split; [done|]. split; [done|]. rewrite E''. by rewrite (placed_end count'' r) by (done || lia).
Qed.
End counting.

(** ** Loops over indices *)

Lemma vat_seqZ (nums : list Z) : vat nums <$> seqZ 0 (zlen nums) = nums.
Proof.
  apply vat_ext; [rewrite zlen_fmap, zlen_seqZ; [done|apply zlen_nonneg]|]. intros i Hi. rewrite zlen_fmap, zlen_seqZ in Hi by apply zlen_nonneg.
  unfold vat at 1. apply list_lookup_total_correct. rewrite list_lookup_fmap, lookup_seqZ_lt by lia. cbn. do 2 f_equal. lia.
Qed.

Lemma foldM_at_index {B} nums (f : B -> Z -> outcome B) b js : (forall i, i ∈ js -> 0 <= i < zlen nums) ->
  foldM (at_index nums f) b js = foldM f b (vat nums <$> js).
Proof.
  induction js as [|i js IH] in b |- *; intros Hi; [done|]. cbn [foldM fmap list_fmap].
  assert (at_index nums f b i = f b (vat nums i)) as -> by (unfold at_index; by rewrite vget_ok by (apply Hi; left)).
  apply bind_ext. intros b' _. apply IH. intros j Hj. apply Hi. by right.
Qed.

Lemma foldM_upto {B} nums (f : B -> Z -> outcome B) b : foldM (at_index nums f) b (seqZ 0 (zlen nums)) = foldM f b nums.
Proof. rewrite foldM_at_index by (intros i Hi; apply elem_of_seqZ in Hi; lia). by rewrite vat_seqZ. Qed.

Lemma foldM_downto {B} nums (f : B -> Z -> outcome B) b : foldM (at_index nums f) b (downto (zlen nums)) = foldM f b (reverse nums).
Proof.
  unfold downto. rewrite foldM_at_index by (intros i Hi; rewrite elem_of_reverse in Hi; apply elem_of_seqZ in Hi; lia).
  rewrite fmap_reverse. by rewrite vat_seqZ.
Qed.

(** ** The least and the greatest element *)

Lemma least_spec nums : nums <> [] -> least nums ∈ nums /\ forall x, x ∈ nums -> least nums <= x.
Proof.
  destruct nums as [|y nums]; [done|]. intros _. unfold least. induction nums as [|z nums IH] in y |- *; cbn [foldl].
  - split; [left|]. intros x ->%list_elem_of_singleton. lia.
  - destruct (IH (Z.min y z)) as [Hi Hl]. split.
    + apply elem_of_cons in Hi as [->|Hi]; [destruct (Z.min_spec y z) as [[_ ->]|[_ ->]]; [left|right; left]|by do 2 right].
    + pose proof (Hl (Z.min y z) ltac:(left)). intros x [->|[->|Hx]%elem_of_cons]%elem_of_cons; [lia|lia|]. apply Hl. by right.
Qed.

Lemma greatest_spec nums : nums <> [] -> greatest nums ∈ nums /\ forall x, x ∈ nums -> x <= greatest nums.
Proof.
  destruct nums as [|y nums]; [done|]. intros _. unfold greatest. induction nums as [|z nums IH] in y |- *; cbn [foldl].
  - split; [left|]. intros x ->%list_elem_of_singleton. lia.
  - destruct (IH (Z.max y z)) as [Hi Hl]. split.
    + apply elem_of_cons in Hi as [->|Hi]; [destruct (Z.max_spec y z) as [[_ ->]|[_ ->]]; [right; left|left]|by do 2 right].
    + pose proof (Hl (Z.max y z) ltac:(left)). intros x [->|[->|Hx]%elem_of_cons]%elem_of_cons; [lia|lia|]. apply Hl. by right.
Qed.

Lemma strongly_sorts nums v : v ≡ₚ nums -> StronglySorted Z.le v -> sorts nums v.
Proof.
  intros Hp Hs. split; [done|]. clear Hp. induction Hs as [|x v Hs IH Hx]; [by apply sorted_on_empty|].
  intros i j Hij Hj. rewrite zlen_cons in Hj. rewrite !vat_cons by lia. rewrite Forall_forall in Hx. destruct (decide (i = 0)), (decide (j = 0)); [lia| |lia|apply IH; lia].
  apply Hx. eapply list_elem_of_lookup_2, vat_list. lia.
Qed.

Definition int_list (nums : list Z) : Prop := (forall x, x ∈ nums -> - 2 ^ 31 <= x < 2 ^ 31) /\ zlen nums < 2 ^ 31.

Lemma i32_zlen (nums : list Z) d : zlen nums < 2 ^ 31 -> 0 <= d <= 1 -> i32 (zlen nums - d) = zlen nums - d.
Proof. intros Hl Hd. apply wraps_small; [lia|]. pose proof (zlen_nonneg nums). lia. Qed.

Lemma countingSort_ok nums : int_list nums -> greatest nums - least nums < 2 ^ 31 - 1 -> exists v, countingSort nums = Ok v /\ sorts nums v.
Proof.
  intros [Hi Hl] Hr. destruct (decide (nums = [])) as [->|Hne]; [exists []; split; [done|apply sorts_nil]|].
  destruct (least_spec nums Hne) as [Hmin Hlow]. destruct (greatest_spec nums Hne) as [Hmax Hhigh]. pose proof (Hlow _ Hmax).
  set (key := fun x => x - least nums). set (K := greatest nums - least nums + 1).
  destruct (counting_ok (offset_key (least nums)) key K nums) with (result := replicate (length nums) 0) as (c1 & c2 & c3 & E1 & E2 & E3);
    [|exact Hl|lia|unfold zlen; by rewrite length_replicate|].
  { intros x Hx. pose proof (Hlow _ Hx). pose proof (Hhigh _ Hx). unfold offset_key. rewrite ints_ok by (repeat constructor; lia). split; [done|]. unfold key, K. lia. }
  exists (distribute key (seqZ 0 K) nums). split.
  - assert (countingSort nums = (_ ← ints [greatest nums - least nums; greatest nums - least nums + 1];
      count ← foldM (tally (offset_key (least nums))) (replicate (Z.to_nat (greatest nums - least nums + 1)) 0) nums;
      count ← foldM accumulate count (seqZ 1 (greatest nums - least nums + 1 - 1));
      '(_, result) ← foldM (at_index nums (place (offset_key (least nums)))) (count, replicate (length nums) 0) (downto (i32 (zlen nums - 1) + 1));
      Ok result)) as -> by (by destruct nums).
    rewrite ints_ok by (repeat constructor; lia). cbn [mbind outcome_bind]. fold K. rewrite E1. cbn [mbind outcome_bind]. rewrite E2. cbn [mbind outcome_bind].
    rewrite (i32_zlen nums 1) by (done || lia). replace (zlen nums - 1 + 1) with (zlen nums) by lia. rewrite foldM_downto. by rewrite E3.
  - apply strongly_sorts.
    + apply distribute_perm; [apply NoDup_seqZ|]. intros x Hx. apply elem_of_seqZ. pose proof (Hlow _ Hx). pose proof (Hhigh _ Hx). unfold key, K. lia.
    + apply (distribute_sorted key (fun _ _ => True)); [apply seqZ_sorted| |unfold key; lia|unfold key; lia].
      clear. induction nums; constructor; [done|]. by apply Forall_forall.
Qed.

Lemma countingSort_far nums : nums <> [] -> 2 ^ 31 - 1 <= greatest nums - least nums -> countingSort nums = Fail Undefined.
Proof.
  intros Hne Hr. unfold countingSort. destruct nums as [|x l]; [done|]. set (nums := x :: l) in *.
  assert (ints [greatest nums - least nums; greatest nums - least nums + 1] = Fail Undefined) as ->; [|done].
  unfold ints. cbn [forallb]. assert (in_int (greatest nums - least nums + 1) = false) as ->; [|by rewrite andb_false_r].
  apply not_true_iff_false. rewrite in_int_spec. lia.
Qed.

(** ** Digits *)

Definition digit_of (exp x : Z) : Z := (x / exp) mod 10.

Lemma digit_ok exp x : 0 < exp -> 0 <= x -> digit exp x = Ok (digit_of exp x) /\ 0 <= digit_of exp x < 10.
Proof.
  intros He Hx. unfold digit, digit_of. rewrite (proj2 (Z.eqb_neq _ _)) by lia. cbn. pose proof (Z.div_pos x exp Hx He).
  rewrite Z.quot_div_nonneg, Z.rem_mod_nonneg by lia. split; [done|]. by apply Z.mod_pos_bound.
Qed.

Lemma write_back (output arr : list Z) : zlen output = zlen arr ->
  foldM (fun arr i => x ← vget output i; vset arr i x) arr (seqZ 0 (zlen arr)) = Ok output.
Proof.
  intros Hl. destruct (foldM_inv (fun l a => zlen a = zlen arr /\ forall i, 0 <= i < zlen l -> vat a i = vat output i)
    (fun arr i => x ← vget output i; vset arr i x) arr (seqZ 0 (zlen arr))) as (a & -> & Ha & Hi).
  - split; [done|]. intros i Hi. change (zlen []) with 0 in Hi. lia.
  - intros l i rest a E [Ha Hi]. pose proof E as E'. symmetry in E'. destruct (next_of_range _ _ _ _ _ E') as (Hr & _).
    assert (i = zlen l) as ->.
    { assert (seqZ 0 (zlen arr) !! length l = Some i) as Hl' by (rewrite E; apply list_lookup_middle; done). apply lookup_seqZ in Hl' as [-> _]. unfold zlen. lia. }
    rewrite vget_ok by lia. cbn [mbind outcome_bind]. rewrite vset_ok by lia. eexists. split; [done|]. rewrite zlen_vupd. split; [done|].
    intros i Hl'. rewrite zlen_app in Hl'. change (zlen [zlen l]) with 1 in Hl'. rewrite vat_vupd by lia. case_decide; [by subst|]. apply Hi. lia.
  - f_equal. apply vat_ext; [lia|]. intros i Hz. apply Hi. rewrite zlen_seqZ; lia.
Qed.

Lemma pass_ok arr exp : 0 < exp -> (forall x, x ∈ arr -> 0 <= x) -> zlen arr < 2 ^ 31 ->
  countingSortForRadix arr exp = Ok (distribute (digit_of exp) (seqZ 0 10) arr).
Proof.
  intros He Hx Hl. pose proof (zlen_nonneg arr). unfold countingSortForRadix.
  pose proof (i32_zlen arr 0 Hl ltac:(lia)) as E. rewrite Z.sub_0_r in E. rewrite E. clear E.
  destruct (counting_ok (digit exp) (digit_of exp) 10 arr) with (result := replicate (Z.to_nat (zlen arr)) 0) as (c1 & c2 & c3 & E1 & E2 & E3);
    [intros x Hi; by apply digit_ok, Hx|done|lia|by apply zlen_replicate|].
  rewrite foldM_upto. change (replicate 10 0) with (replicate (Z.to_nat 10) 0). rewrite E1. cbn [mbind outcome_bind]. change 9 with (10 - 1). rewrite E2.
  cbn [mbind outcome_bind]. rewrite foldM_downto, E3. cbn [mbind outcome_bind]. apply write_back. apply zlen_permutation, distribute_perm; [apply NoDup_seqZ|].
  intros x Hi. apply elem_of_seqZ. destruct (digit_ok exp x He (Hx x Hi)). lia.
Qed.

(** ** The passes *)

Definition below_exp (exp : Z) (x y : Z) : Prop := x mod exp <= y mod exp.

Lemma mod_digit exp x : 0 < exp -> x mod (exp * 10) = x mod exp + exp * digit_of exp x.
Proof. intros He. unfold digit_of. apply Z.rem_mul_r; lia. Qed.

Lemma pass_sorts arr exp : 0 < exp -> (forall x, x ∈ arr -> 0 <= x) -> StronglySorted (below_exp exp) arr ->
  distribute (digit_of exp) (seqZ 0 10) arr ≡ₚ arr /\ StronglySorted (below_exp (exp * 10)) (distribute (digit_of exp) (seqZ 0 10) arr).
Proof.
  intros He Hx Hs. split.
  - apply distribute_perm; [apply NoDup_seqZ|]. intros x Hi. apply elem_of_seqZ. destruct (digit_ok exp x He (Hx x Hi)). lia.
  - apply (distribute_sorted _ (below_exp exp)); [apply seqZ_sorted|done| |]; intros x y _ _; unfold below_exp; rewrite !mod_digit by done.
    + intros Hd. pose proof (Z.mod_pos_bound x exp He). pose proof (Z.mod_pos_bound y exp He). nia.
    + intros ->. lia.
Qed.

Lemma pow10_pos j : 0 <= j -> 0 < 10 ^ j.
Proof. intros. lia. Qed.

Lemma pow10_le j k : 0 <= j <= k -> 10 ^ j <= 10 ^ k.
Proof. intros. apply Z.pow_le_mono_r; lia. Qed.

Lemma radix_loop_step fuel max_val j nums : 0 <= j <= 9 -> 0 <= max_val -> (forall x, x ∈ nums -> 0 <= x) -> zlen nums < 2 ^ 31 ->
  radix_loop (S fuel) max_val (10 ^ j) nums =
    if max_val <? 10 ^ j then Ok nums
    else if j =? 9 then Fail Undefined
    else radix_loop fuel max_val (10 ^ (j + 1)) (distribute (digit_of (10 ^ j)) (seqZ 0 10) nums).
Proof.
  intros Hj Hm Hx Hl. pose proof (pow10_pos j ltac:(lia)). cbn [radix_loop]. rewrite (proj2 (Z.eqb_neq _ _)) by lia. cbn [negb defined_ mbind outcome_bind].
  rewrite Z.quot_div_nonneg by lia. destruct (Z.ltb_spec max_val (10 ^ j)) as [Hlt|Hge].
  - by rewrite Z.div_small by lia.
  - rewrite (proj2 (Z.ltb_lt _ _)) by (apply Z.div_str_pos; lia). rewrite pass_ok by done. cbn [mbind outcome_bind].
    replace (10 ^ j * 10) with (10 ^ (j + 1)) by (rewrite Z.pow_add_r by lia; lia). destruct (Z.eqb_spec j 9) as [->|Hne]; [done|].
    pose proof (pow10_le (j + 1) 9 ltac:(lia)). rewrite ints_ok; [done|]. repeat constructor; [lia|]. change (10 ^ 9) with 1000000000 in *. lia.
Qed.

Lemma radix_loop_ok fuel max_val j nums : 0 <= j <= 9 -> 10 <= Z.of_nat fuel + j -> 0 <= max_val < 10 ^ 9 ->
  (forall x, x ∈ nums -> 0 <= x <= max_val) -> zlen nums < 2 ^ 31 -> StronglySorted (below_exp (10 ^ j)) nums ->
  exists v, radix_loop fuel max_val (10 ^ j) nums = Ok v /\ v ≡ₚ nums /\ StronglySorted Z.le v.
Proof.
  induction fuel as [|fuel IH] in j, nums |- *; intros Hj Hf Hm Hx Hl Hs; [lia|].
  rewrite radix_loop_step by (done || lia || (intros x Hi; apply Hx in Hi; lia)). destruct (Z.ltb_spec max_val (10 ^ j)) as [Hlt|Hge].
  - exists nums. split; [done|]. split; [done|]. clear IH. induction Hs as [|x nums Hs IHs Hh]; [constructor|]. rewrite zlen_cons in Hl.
    constructor; [apply IHs; [intros y Hy; apply Hx; by right|lia]|]. rewrite Forall_forall in Hh |- *. intros y Hy. specialize (Hh y Hy). unfold below_exp in Hh.
    pose proof (Hx x ltac:(left)). pose proof (Hx y ltac:(by right)). rewrite !Z.mod_small in Hh by lia. done.
  - destruct (Z.eqb_spec j 9) as [->|Hne]; [lia|]. pose proof (pow10_pos j ltac:(lia)).
    destruct (pass_sorts nums (10 ^ j)) as [Hp Hs']; [done|intros x Hi; apply Hx in Hi; lia|done|].
    destruct (IH (j + 1) (distribute (digit_of (10 ^ j)) (seqZ 0 10) nums)) as (v & E & Hv & Hsv); [lia|lia|done| |by rewrite (zlen_permutation _ _ Hp)| |].
    + intros x. rewrite Hp. apply Hx.
    + replace (10 ^ (j + 1)) with (10 ^ j * 10) by (rewrite Z.pow_add_r by lia; lia). done.
    + exists v. split; [done|]. split; [by rewrite Hv|done].
Qed.

Lemma radix_loop_far fuel max_val j nums : 0 <= j <= 9 -> 10 <= Z.of_nat fuel + j -> 10 ^ 9 <= max_val ->
  (forall x, x ∈ nums -> 0 <= x) -> zlen nums < 2 ^ 31 -> radix_loop fuel max_val (10 ^ j) nums = Fail Undefined.
Proof.
  induction fuel as [|fuel IH] in j, nums |- *; intros Hj Hf Hm Hx Hl; [lia|]. pose proof (pow10_le j 9 ltac:(lia)). pose proof (pow10_pos j ltac:(lia)).
  rewrite radix_loop_step by (done || lia). rewrite (proj2 (Z.ltb_ge _ _)) by lia. destruct (Z.eqb_spec j 9) as [->|Hne]; [done|].
  assert (distribute (digit_of (10 ^ j)) (seqZ 0 10) nums ≡ₚ nums) as Hp.
  { apply distribute_perm; [apply NoDup_seqZ|]. intros x Hi. apply elem_of_seqZ. destruct (digit_ok (10 ^ j) x ltac:(done) (Hx x Hi)). lia. }
  apply IH; [lia|lia|done|intros x; rewrite Hp; apply Hx|by rewrite (zlen_permutation _ _ Hp)].
Qed.

(** ** Moving the range *)

Lemma int_sum_ok d nums : (forall x, x ∈ nums -> - 2 ^ 31 <= x + d < 2 ^ 31) -> mapM (fun x => int_sum x d) nums = Ok ((fun x => x + d) <$> nums).
Proof.
  induction nums as [|x nums IH]; intros H; [done|]. cbn [mapM]. pose proof (H x ltac:(left)).
  assert (int_sum x d = Ok (x + d)) as -> by (unfold int_sum; by rewrite ints_ok by (repeat constructor; lia)). cbn [mbind outcome_bind]. rewrite IH by (intros y Hy; apply H; by right). done.
Qed.

Lemma int_sum_far d nums x : x ∈ nums -> 2 ^ 31 <= x + d -> mapM (fun x => int_sum x d) nums = Fail Undefined.
Proof.
  intros Hx Hd. induction nums as [|y nums IH]; [by apply not_elem_of_nil in Hx|]. cbn [mapM].
  assert (int_sum y d = if in_int (y + d) then Ok (y + d) else Fail Undefined) as -> by (unfold int_sum, ints; cbn [forallb]; by destruct (in_int _)).
  destruct (in_int (y + d)) eqn:Hy; [|done]. cbn [mbind outcome_bind]. apply in_int_spec in Hy. apply elem_of_cons in Hx as [->|Hx]; [lia|]. by rewrite IH.
Qed.

(** The values that [radixSort] can deal with. *)
Definition radix_range (nums : list Z) : Prop := - 2 ^ 31 < least nums /\ greatest nums + Z.max 0 (- least nums) < 10 ^ 9.

Lemma greatest_shift d nums : nums <> [] -> greatest ((fun x => x + d) <$> nums) = greatest nums + d.
Proof.
  intros Hne. destruct (greatest_spec nums Hne) as [Hi Hg]. destruct (greatest_spec ((fun x => x + d) <$> nums)) as [Hi' Hg']; [by destruct nums|].
  apply list_elem_of_fmap in Hi' as (x & E & Hx). pose proof (Hg x Hx). pose proof (Hg' (greatest nums + d)) as H'.
  rewrite E in H' |- *. assert (greatest nums + d <= x + d); [|lia]. apply H', list_elem_of_fmap. by exists (greatest nums).
Qed.

(** The loop as [radixSort] calls it, on numbers without sign. *)
Lemma radix_passes nums : nums <> [] -> (forall x, x ∈ nums -> 0 <= x) -> zlen nums < 2 ^ 31 ->
  (greatest nums < 10 ^ 9 -> exists v, radix_loop most_digits (greatest nums) 1 nums = Ok v /\ v ≡ₚ nums /\ StronglySorted Z.le v) /\
  (10 ^ 9 <= greatest nums -> radix_loop most_digits (greatest nums) 1 nums = Fail Undefined).
Proof.
  intros Hne Hx Hl. destruct (greatest_spec nums Hne) as [Hi Hg]. split.
  - intros Hm. apply (radix_loop_ok _ _ 0); [lia|done|split; [by apply Hx|done]|intros x H; split; [by apply Hx|by apply Hg]|done|].
    clear. induction nums as [|x nums IH]; constructor; [done|]. apply Forall_forall. intros y _. unfold below_exp. rewrite !Z.mod_1_r. done.
  - intros Hm. by apply (radix_loop_far _ _ 0).
Qed.

Lemma radixSort_eq nums : nums <> [] -> radixSort nums =
  (offset ← (if least nums <? 0 then _ ← ints [- least nums]; Ok (- least nums) else Ok 0);
   nums ← (if 0 <? offset then mapM (fun x => int_sum x offset) nums else Ok nums);
   nums ← radix_loop most_digits (greatest nums) 1 nums;
   (if 0 <? offset then mapM (fun x => int_sum x (- offset)) nums else Ok nums)).
Proof. by destruct nums. Qed.

Lemma radixSort_ok nums : int_list nums -> radix_range nums -> exists v, radixSort nums = Ok v /\ sorts nums v.
Proof.
  intros [Hi Hl] [Hmin Hmax]. destruct (decide (nums = [])) as [->|Hne]; [exists []; split; [done|apply sorts_nil]|].
  destruct (least_spec nums Hne) as [Hli Hlow]. destruct (greatest_spec nums Hne) as [Hgi Hhigh]. rewrite radixSort_eq by done. pose proof (Hi _ Hli).
  destruct (Z.ltb_spec (least nums) 0) as [Hneg|Hpos].
  - rewrite ints_ok by (repeat constructor; lia). cbn [mbind outcome_bind]. rewrite (proj2 (Z.ltb_lt 0 _)) by lia. set (d := - least nums) in *.
    assert (forall x, x ∈ nums -> 0 <= x + d <= greatest nums + d) as Hr by (intros x Hx; pose proof (Hlow x Hx); pose proof (Hhigh x Hx); lia).
    rewrite int_sum_ok by (intros x Hx; specialize (Hr x Hx); lia). cbn [mbind outcome_bind]. set (nums' := (fun x => x + d) <$> nums).
    assert (forall x, x ∈ nums' -> exists y, x = y + d /\ y ∈ nums) as Hin by (intros x Hx; by apply list_elem_of_fmap in Hx).
    destruct (radix_passes nums') as [Hok _]; [subst nums'; by destruct nums|intros x Hx; apply Hin in Hx as (y & -> & Hy); by apply Hr|by (unfold nums'; rewrite zlen_fmap)|].
    destruct Hok as (v & -> & Hp & Hs); [subst nums'; rewrite greatest_shift by done; lia|]. cbn [mbind outcome_bind].
    rewrite int_sum_ok by (intros x Hx; rewrite Hp in Hx; apply Hin in Hx as (y & -> & Hy); specialize (Hi y Hy); lia).
    eexists. split; [done|]. apply strongly_sorts.
    + rewrite Hp. subst nums'. rewrite <- list_fmap_compose. rewrite (list_fmap_ext _ id); [by rewrite list_fmap_id|]. intros i x _. cbn. lia.
    + clear Hp. induction Hs as [|x v Hs IH Hx]; cbn [fmap list_fmap]; [constructor|]. constructor; [done|]. rewrite Forall_forall in Hx |- *.
      intros z (y & -> & Hy)%list_elem_of_fmap. specialize (Hx y Hy). lia.
  - cbn [mbind outcome_bind]. cbn [Z.ltb Z.compare]. cbn [mbind outcome_bind]. destruct (radix_passes nums Hne) as [Hok _]; [intros x Hx; pose proof (Hlow x Hx); lia|done|].
    destruct Hok as (v & -> & Hp & Hs); [lia|]. exists v. split; [done|]. by apply strongly_sorts.
Qed.

Lemma radixSort_far nums : int_list nums -> nums <> [] -> ~ radix_range nums -> radixSort nums = Fail Undefined.
Proof.
  intros [Hi Hl] Hne Hr. destruct (least_spec nums Hne) as [Hli Hlow]. destruct (greatest_spec nums Hne) as [Hgi Hhigh]. rewrite radixSort_eq by done. pose proof (Hi _ Hli).
  unfold radix_range in Hr. destruct (Z.ltb_spec (least nums) 0) as [Hneg|Hpos].
  - unfold ints at 1. cbn [forallb]. destruct (in_int (- least nums)) eqn:Hm; [|done]. apply in_int_spec in Hm. cbn [andb defined_ mbind outcome_bind].
    rewrite (proj2 (Z.ltb_lt 0 _)) by lia. set (d := - least nums) in *.
    destruct (Z.lt_ge_cases (greatest nums + d) (2 ^ 31)) as [Hlt|Hge]; [|by rewrite (int_sum_far d nums (greatest nums))].
    assert (forall x, x ∈ nums -> 0 <= x + d <= greatest nums + d) as Hb by (intros x Hx; pose proof (Hlow x Hx); pose proof (Hhigh x Hx); lia).
    rewrite int_sum_ok by (intros x Hx; specialize (Hb x Hx); lia). cbn [mbind outcome_bind].
    destruct (radix_passes ((fun x => x + d) <$> nums)) as [_ Hfar]; [by destruct nums|intros x (y & -> & Hy)%list_elem_of_fmap; by apply Hb|by rewrite zlen_fmap|].
    rewrite Hfar; [done|]. rewrite greatest_shift by done. lia.
  - cbn [mbind outcome_bind]. cbn [Z.ltb Z.compare]. cbn [mbind outcome_bind]. destruct (radix_passes nums Hne) as [_ Hfar]; [intros x Hx; pose proof (Hlow x Hx); lia|done|].
    rewrite Hfar; [done|lia].
Qed.

(** ** Properties *)

(** C11: on an array of fewer than [2^31] [int]s, [countingSort] returns the
    sorted array exactly if the greatest element is less than [2^31 - 1]
    above the least one, and [radixSort] exactly if the least element is
    above [INT_MIN] and all elements, moved up so that none is negative, are
    below [10^9]; otherwise an [int] overflows. *)
Theorem counting_sorts_bounds nums : int_list nums ->
  (if bool_decide (greatest nums - least nums < 2 ^ 31 - 1) then exists v, countingSort nums = Ok v /\ sorts nums v else countingSort nums = Fail Undefined) /\
  (if bool_decide (- 2 ^ 31 < least nums /\ greatest nums + Z.max 0 (- least nums) < 10 ^ 9)
   then exists v, radixSort nums = Ok v /\ sorts nums v else radixSort nums = Fail Undefined).
Proof.
  intros Hn. split; case_bool_decide as Hr.
  - by apply countingSort_ok.
  - apply countingSort_far; [|lia]. intros ->. cbn in Hr. lia.
  - by apply radixSort_ok.
  - apply radixSort_far; [done| |done]. intros ->. cbn in Hr. lia.
Qed.

Lemma counting_sorts_bounds_witness :
  (exists v, countingSort [5; -3; 5; 0] = Ok v /\ sorts [5; -3; 5; 0] v) /\ radixSort [2 ^ 30; 7] = Fail Undefined.
Proof.
  assert (int_list [5; -3; 5; 0] /\ int_list [2 ^ 30; 7]) as [H1 H2].
  { split; (split; [|vm_compute; reflexivity]); intros x Hx; rewrite !elem_of_cons in Hx; [destruct Hx as [->|[->|[->|[->|[]%not_elem_of_nil]]]]|destruct Hx as [->|[->|[]%not_elem_of_nil]]]; lia. }
  split; [exact (proj1 (counting_sorts_bounds [5; -3; 5; 0] H1))|exact (proj2 (counting_sorts_bounds [2 ^ 30; 7] H2))].
Defined.
