(* ===== verification/ShellSort.v ===== *)
(** * ShellSort: insertion with gaps, and search by halves

    Models [shellSort] of [datastruct/shell_sort.h] and [binarySearch] of
    [binary_search.h].  Gaps and indices are [int]s.  The gaps are those of
    Knuth, 1, 4, 13, ..., so the last pass is an insertion sort. *)
From S2P Require Import Prelude Vector Sorts.
From Stdlib Require Import Permutation.

(** ** shell_sort.h *)

Fixpoint gap_loop (fuel : nat) (h n : Z) : outcome Z :=
  match fuel with
  | O => Fail Undefined
  | S fuel => if h <? Z.quot n 3 then _ ← ints [3 * h; 3 * h + 1]; gap_loop fuel (3 * h + 1) n else Ok h
  end.

(** The inner loop: [arr[j] = arr[j - h]] while the key is smaller. *)
Fixpoint shift_down (fuel : nat) (h key j : Z) (arr : list Z) : outcome (Z * list Z) :=
  match fuel with
  | O => Fail Undefined
  | S fuel =>
      if h <=? j then
        x ← vget arr (j - h);
        if key <? x then arr ← vset arr j x; shift_down fuel h key (j - h) arr else Ok (j, arr)
      else Ok (j, arr)
  end.

Fixpoint gap_pass (fuel : nat) (h i n : Z) (arr : list Z) : outcome (list Z) :=
  match fuel with
  | O => Fail Undefined
  | S fuel =>
      if i <? n then
        key ← vget arr i;
        '(j, arr) ← shift_down (S (length arr)) h key i arr;
        arr ← vset arr j key;
        gap_pass fuel h (i + 1) n arr
      else Ok arr
  end.

Fixpoint shell_loop (fuel : nat) (h n : Z) (arr : list Z) : outcome (list Z) :=
  match fuel with
  | O => Fail Undefined
  | S fuel => if 1 <=? h then arr ← gap_pass (S (length arr)) h h n arr; shell_loop fuel (Z.quot h 3) n arr else Ok arr
  end.

Definition shellSort (arr : list Z) : outcome (list Z) :=
  let n := i32 (zlen arr) in
  h ← gap_loop (S (length arr)) 1 n;
  shell_loop (S (S (length arr))) h n arr.

(** ** binary_search.h *)

Fixpoint halves (fuel : nat) (left right : Z) (nums : list Z) (target : Z) : outcome Z :=
  match fuel with
  | O => Fail Undefined
  | S fuel =>
      if left <=? right then
        _ ← ints [right + left];
        let mid := Z.quot (right + left) 2 in
        x ← vget nums mid;
        if x =? target then Ok mid
        else if x <? target then halves fuel (mid + 1) right nums target
        else halves fuel left (mid - 1) nums target
      else Ok (-1)
  end.

Definition binarySearch (nums : list Z) (target : Z) : outcome Z :=
  halves (S (length nums)) 0 (i32 (zlen nums - 1)) nums target.

Example shell_few : shellSort [5; 2; 9; 1; 5; 6; 0; 3; 8; 4; 7; 2; 2; 1] = Ok [0; 1; 1; 2; 2; 2; 3; 4; 5; 5; 6; 7; 8; 9].
Proof. vm_compute. reflexivity. Qed.
Example search_few : map (binarySearch [1; 3; 5; 7]) [7; 4; 1] = [Ok 3; Ok (-1); Ok 0].
Proof. reflexivity. Qed.

(** ** The gaps *)

Inductive knuth : Z -> Prop :=
| knuth_one : knuth 1
| knuth_next h : knuth h -> knuth (3 * h + 1).

Lemma knuth_pos h : knuth h -> 1 <= h.
Proof. induction 1; lia. Qed.

Lemma gap_loop_ok fuel h n : knuth h -> h <= Z.max 1 n -> n < 2 ^ 31 -> Z.max 0 (n - h) < Z.of_nat fuel ->
  exists h', gap_loop fuel h n = Ok h' /\ knuth h' /\ h' <= Z.max 1 n.
Proof.
  induction fuel as [|fuel IH] in h |- *; intros Hk Hn Hi Hf; pose proof (knuth_pos _ Hk); [lia|]. cbn [gap_loop].
  destruct (Z.ltb_spec h (Z.quot n 3)) as [Hlt|Hge]; [|by exists h].
  assert (3 * h + 3 <= n) by (Z.to_euclidean_division_equations; lia).
  rewrite ints_ok by (repeat constructor; lia). cbn [mbind outcome_bind]. apply IH; [by constructor|lia|done|lia].
Qed.

Lemma knuth_third h : knuth h -> 1 < h -> knuth (Z.quot h 3) /\ Z.quot h 3 < h.
Proof.
  inversion 1 as [|h' Hk]; subst; [lia|]. intros _. pose proof (knuth_pos _ Hk).
  replace (Z.quot (3 * h' + 1) 3) with h' by (Z.to_euclidean_division_equations; lia). split; [done|lia].
Qed.

(** ** A pass *)

(** Moving one element up with the key in hand is a swap with the key in
    place. *)
Lemma shift_swaps (arr : list Z) i j key : 0 <= i < zlen arr -> 0 <= j < zlen arr -> i <> j ->
  vupd (vupd arr j (vat arr i)) i key = swapped (vupd arr j key) j i.
Proof.
  intros Hi Hj Hij. apply vat_ext; [by rewrite zlen_swapped, !zlen_vupd|]. rewrite !zlen_vupd. intros k Hk.
  rewrite vat_swapped by (rewrite ?zlen_vupd; lia). rewrite !vat_vupd by (rewrite ?zlen_vupd; lia).
  rewrite (decide_True (P := j = j)), (decide_False (P := i = j)) by done. repeat case_decide; (done || lia).
Qed.

(** The elements with the key put back at [j]. *)
Lemma shift_down_ok fuel h key j arr : 1 <= h -> 0 <= j < zlen arr -> j < Z.of_nat fuel ->
  exists j' arr', shift_down fuel h key j arr = Ok (j', arr') /\ 0 <= j' < zlen arr' /\ vupd arr' j' key ≡ₚ vupd arr j key.
Proof.
  intros Hh. induction fuel as [|fuel IH] in j, arr |- *; intros Hj Hf; [lia|]. cbn [shift_down].
  destruct (Z.leb_spec h j) as [Hle|Hgt]; [|by exists j, arr]. rewrite vget_ok by lia. cbn [mbind outcome_bind].
  destruct (Z.ltb_spec key (vat arr (j - h))) as [Hlt|Hge]; [|by exists j, arr]. rewrite vset_ok by lia. cbn [mbind outcome_bind].
  destruct (IH (j - h) (vupd arr j (vat arr (j - h)))) as (j' & arr' & -> & Hj' & Hp); [rewrite zlen_vupd; lia|lia|].
  exists j', arr'. split; [done|]. split; [done|]. rewrite Hp, shift_swaps by lia. apply swapped_permutation; rewrite zlen_vupd; lia.
Qed.

(** With gap 1 it is the inner loop of [insertSort]. *)
Lemma shift_down_one fuel key j arr : 0 <= j < zlen arr ->
  (p ← shift_down fuel 1 key j arr; vset p.2 p.1 key) = insert_down fuel j (vupd arr j key).
Proof.
  induction fuel as [|fuel IH] in j, arr |- *; intros Hj; [done|]. cbn [shift_down insert_down].
  replace (1 <=? j) with (0 <? j) by lia. destruct (Z.ltb_spec 0 j) as [Hpos|Hz]; [|cbn; by apply vset_ok].
  rewrite !vget_ok by (rewrite ?zlen_vupd; lia). cbn [mbind outcome_bind]. rewrite vat_vupd_eq, vat_vupd_ne by lia.
  destruct (key <? vat arr (j - 1)); [|cbn; by apply vset_ok]. rewrite vset_ok by lia. cbn [mbind outcome_bind]. rewrite vswap_ok by (rewrite zlen_vupd; lia).
  cbn [mbind outcome_bind]. rewrite IH by (rewrite zlen_vupd; lia). by rewrite shift_swaps by lia.
Qed.

Lemma gap_pass_ok fuel h i arr : 1 <= h <= i -> Z.max 0 (zlen arr - i) < Z.of_nat fuel ->
  exists arr', gap_pass fuel h i (zlen arr) arr = Ok arr' /\ arr' ≡ₚ arr.
Proof.
  induction fuel as [|fuel IH] in i, arr |- *; intros Hi Hf; [lia|]. cbn [gap_pass].
  destruct (Z.ltb_spec i (zlen arr)) as [Hlt|Hge]; [|by exists arr]. rewrite vget_ok by lia. cbn [mbind outcome_bind].
  destruct (shift_down_ok (S (length arr)) h (vat arr i) i arr) as (j & arr1 & -> & Hj & Hp); [lia|lia|unfold zlen in *; lia|]. cbn [mbind outcome_bind].
  rewrite vset_ok by done. cbn [mbind outcome_bind]. rewrite vupd_same in Hp by lia. pose proof (zlen_permutation _ _ Hp) as Hl.
  rewrite <- Hl. destruct (IH (i + 1) (vupd arr1 j (vat arr i))) as (arr' & E & Hp'); [lia|lia|]. exists arr'. split; [done|by rewrite Hp'].
Qed.

Lemma gap_pass_one fuel i arr : 1 <= i -> gap_pass fuel 1 i (zlen arr) arr = insert_loop fuel i arr.
Proof.
  induction fuel as [|fuel IH] in i, arr |- *; intros Hi; [done|]. cbn [gap_pass insert_loop].
  destruct (Z.ltb_spec i (zlen arr)) as [Hlt|Hge]; [|done]. rewrite vget_ok by lia. cbn [mbind outcome_bind].
  pose proof (shift_down_one (S (length arr)) (vat arr i) i arr ltac:(lia)) as E. rewrite vupd_same in E by lia. rewrite <- E.
  destruct (shift_down_ok (S (length arr)) 1 (vat arr i) i arr) as (j & arr1 & -> & Hj & Hp); [lia|lia|unfold zlen in *; lia|].
  cbn [mbind outcome_bind fst snd]. rewrite vset_ok by done. cbn [mbind outcome_bind]. rewrite vupd_same in Hp by lia.
  rewrite <- (zlen_permutation _ _ Hp). apply IH. lia.
Qed.

Lemma shell_loop_ok fuel h arr : knuth h -> h < Z.of_nat fuel -> exists v, shell_loop fuel h (zlen arr) arr = Ok v /\ sorts arr v.
Proof.
  induction fuel as [|fuel IH] in h, arr |- *; intros Hk Hf; pose proof (knuth_pos _ Hk); [lia|]. cbn [shell_loop].
  rewrite (proj2 (Z.leb_le _ _)) by done. destruct (decide (h = 1)) as [->|Hne].
  - rewrite gap_pass_one by lia. pose proof (zlen_nonneg arr). destruct arr as [|x arr].
    { exists []. destruct fuel; [lia|]. split; [done|apply sorts_nil]. }
    destruct (insert_loop_ok (S (length (x :: arr))) 1 (x :: arr)) as (v & -> & Hs); [rewrite zlen_cons in *; pose proof (zlen_nonneg arr); lia|unfold zlen; lia|intros i j ??; assert (i = j) as -> by lia; lia|].
    cbn [mbind outcome_bind]. exists v. split; [|done]. destruct fuel; [lia|done].
  - destruct (gap_pass_ok (S (length arr)) h h arr) as (arr1 & -> & Hp); [lia|unfold zlen in *; lia|]. cbn [mbind outcome_bind].
    destruct (knuth_third h Hk ltac:(lia)) as [Hk' Hlt]. rewrite <- (zlen_permutation _ _ Hp).
    destruct (IH (Z.quot h 3) arr1 Hk') as (v & E & Hpv & Hs); [lia|]. exists v. split; [done|]. split; [by rewrite Hpv|done].
Qed.

Lemma shellSort_ok arr : zlen arr < 2 ^ 31 -> exists v, shellSort arr = Ok v /\ sorts arr v.
Proof.
  intros Hl. pose proof (zlen_nonneg arr). unfold shellSort. rewrite wraps_small by lia.
  destruct (gap_loop_ok (S (length arr)) 1 (zlen arr)) as (h & -> & Hk & Hh); [constructor|lia|done|unfold zlen; lia|].
  cbn [mbind outcome_bind]. apply shell_loop_ok; [done|unfold zlen in *; lia].
Qed.

(** ** The search *)

(** What is left of the range, and what is known of the rest. *)
Lemma search_halves_ok fuel left right nums target : sorted_on 0 (zlen nums - 1) nums -> zlen nums <= 2 ^ 30 ->
  0 <= left -> right < zlen nums -> left <= right + 1 -> right - left + 1 < Z.of_nat fuel ->
  (forall i, 0 <= i < left -> vat nums i < target) -> (forall i, right < i < zlen nums -> target < vat nums i) ->
  exists r, halves fuel left right nums target = Ok r /\
    ((0 <= r < zlen nums /\ vat nums r = target) \/ (r = -1 /\ forall i, 0 <= i < zlen nums -> vat nums i <> target)).
Proof.
  intros Hs Hn. induction fuel as [|fuel IH] in left, right |- *; intros Hl Hr Hlr Hf Hlo Hhi; [lia|]. cbn [halves].
  destruct (Z.leb_spec left right) as [Hle|Hgt].
  2: { exists (-1). split; [done|]. right. split; [done|]. intros i Hi E. destruct (Z.lt_ge_cases i left); [specialize (Hlo i); lia|specialize (Hhi i); lia]. }
  rewrite ints_ok by (repeat constructor; lia). cbn [mbind outcome_bind]. set (mid := Z.quot (right + left) 2).
  assert (left <= mid <= right) as Hm by (unfold mid; Z.to_euclidean_division_equations; lia). rewrite vget_ok by lia. cbn [mbind outcome_bind].
  destruct (Z.eqb_spec (vat nums mid) target) as [Heq|Hne]; [exists mid; split; [done|left; split; [lia|done]]|].
  destruct (Z.ltb_spec (vat nums mid) target) as [Hlt|Hge].
  - apply IH; [lia|done|lia|lia| |done]. intros i Hi. pose proof (Hs i mid ltac:(lia) ltac:(lia)). lia.
  - apply IH; [done|lia|lia|lia|done|]. intros i Hi. pose proof (Hs mid i ltac:(lia) ltac:(lia)). lia.
Qed.

Lemma halves_overflow fuel left nums target : 2 ^ 30 < zlen nums -> (forall i, 0 <= i < zlen nums -> vat nums i < target) ->
  0 <= left < zlen nums -> zlen nums - left < Z.of_nat fuel -> halves fuel left (zlen nums - 1) nums target = Fail Undefined.
Proof.
  intros Hn Ht. induction fuel as [|fuel IH] in left |- *; intros Hl Hf; [lia|]. cbn [halves]. rewrite (proj2 (Z.leb_le _ _)) by lia.
  unfold ints. cbn [forallb]. destruct (in_int (zlen nums - 1 + left)) eqn:Hi; [|done]. apply in_int_spec in Hi. cbn [andb defined_ mbind outcome_bind].
  set (mid := Z.quot (zlen nums - 1 + left) 2). assert (left <= mid < zlen nums - 1) as Hm by (unfold mid; Z.to_euclidean_division_equations; lia).
  rewrite vget_ok by lia. cbn [mbind outcome_bind]. specialize (Ht mid ltac:(lia)) as Hx.
  rewrite (proj2 (Z.eqb_neq _ _)), (proj2 (Z.ltb_lt _ _)) by lia. apply IH; lia.
Qed.

(** ** Properties *)

(** [shellSort] returns a sorted rearrangement of every array of fewer
    than [2^31] elements.  On it, up to [2^30] elements, [binarySearch] ends
    with the index of an element equal to the target, or with -1 if there is
    none; on a larger one, the sum of the bounds overflows at the latest when
    the target is above all elements. *)
Theorem shell_sort_then_search nums target : zlen nums < 2 ^ 31 ->
  exists v, shellSort nums = Ok v /\ sorts nums v /\
    (zlen nums <= 2 ^ 30 -> exists r, binarySearch v target = Ok r /\
       (if bool_decide (target ∈ nums) then 0 <= r < zlen v /\ vat v r = target else r = -1)) /\
    (2 ^ 30 < zlen nums -> (forall x, x ∈ nums -> x < target) -> binarySearch v target = Fail Undefined).
Proof.
  intros Hl. destruct (shellSort_ok nums Hl) as (v & E & Hp & Hs). exists v. split; [done|]. split; [by split|].
  pose proof (zlen_permutation _ _ Hp) as Hz. pose proof (zlen_nonneg v). unfold binarySearch. rewrite wraps_small by lia. split.
  - intros Hn. destruct (search_halves_ok (S (length v)) 0 (zlen v - 1) v target) as (r & -> & Hr); [done|lia|lia|lia|lia|unfold zlen; lia|lia|lia|].
    exists r. split; [done|]. destruct Hr as [[Hr Hx]|[-> Hx]].
    + rewrite bool_decide_true; [done|]. rewrite <- Hp, <- Hx. by eapply list_elem_of_lookup_2, vat_list.
    + rewrite bool_decide_false; [done|]. rewrite <- Hp. intros [i Hi]%list_elem_of_lookup. pose proof (lookup_lt_Some _ _ _ Hi).
      apply (Hx (Z.of_nat i)); [unfold zlen; lia|]. unfold vat. rewrite Nat2Z.id. by apply list_lookup_total_correct.
  - intros Hn Ht. apply halves_overflow; [lia| |lia|unfold zlen; lia]. intros i Hi. apply Ht. rewrite <- Hp. by eapply list_elem_of_lookup_2, vat_list.
Qed.

Lemma shell_sort_then_search_witness :
  exists v r, shellSort [5; 2; 9; 1; 5] = Ok v /\ sorts [5; 2; 9; 1; 5] v /\ binarySearch v 9 = Ok r /\ vat v r = 9.
Proof.
  destruct (shell_sort_then_search [5; 2; 9; 1; 5] 9) as (v & E & Hs & H & _); [vm_compute; reflexivity|].
  destruct H as (r & Er & Hr); [vm_compute; discriminate|]. exists v, r. rewrite bool_decide_true in Hr by (vm_compute; repeat constructor). exact (conj E (conj Hs (conj Er (proj2 Hr)))).
Defined.
