(* ===== verification/WaterPour.v ===== *)
(** * WaterPour: measuring with two vessels

    Models [puzzle/waterpour.cc]: the breadth-first search for a shortest way
    to have [target] units in the big vessel and none in the small one.
    [steps] is the queue and the record of parents at once, [seen] the states
    taken out of the queue.  The arguments of [main] are numbers; the text
    they are read from is not modelled, nor is [exist], which nothing calls.

    The loop carries fuel for the steps that can be queued: six for each state
    with one vessel full or empty. *)
From S2P Require Import Prelude Vector.
From Stdlib Require Import Permutation.

Record State := mkState { big : Z; small : Z }.
#[export] Instance State_eq_dec : EqDecision State.
Proof. solve_decision. Defined.
#[export] Instance State_countable : Countable State.
Proof. apply (inj_countable' (fun s => (big s, small s)) (fun p => mkState p.1 p.2)). by intros []. Defined.
#[export] Instance State_inhabited : Inhabited State := populate (mkState 0 0).

Record Step := mkStep { st : State; parent : Z }.
#[export] Instance Step_inhabited : Inhabited Step := populate (mkStep (mkState 0 0) (-1)).

Section pouring.
(** The volumes. *)
Variables kBig kSmall : Z.

(** The tests and [push_back] that end the six cases of the loop. *)
Definition offer (curr : Z) (seen : gset State) (next : State) (steps : list Step) : outcome (list Step) :=
  s ← vget steps curr;
  _ ← assert_ (bool_decide (st s <> next));
  Ok (if bool_decide (next ∈ seen) then steps else steps ++ [mkStep next curr]).

Definition big_to_small (curr : Z) (seen : gset State) (s : State) (steps : list Step) : outcome (list Step) :=
  let smallSpace := kSmall - small s in
  _ ← ints [smallSpace];
  next ← (if smallSpace <? big s
          then _ ← ints [big s - smallSpace; small s + smallSpace]; Ok (mkState (big s - smallSpace) (small s + smallSpace))
          else _ ← ints [small s + big s]; Ok (mkState 0 (small s + big s)));
  _ ← ints [big s + small s; big next + small next];
  _ ← assert_ (big s + small s =? big next + small next);
  offer curr seen next steps.

Definition small_to_big (curr : Z) (seen : gset State) (s : State) (steps : list Step) : outcome (list Step) :=
  let bigSpace := kBig - big s in
  _ ← ints [bigSpace];
  next ← (if bigSpace <? small s
          then _ ← ints [small s - bigSpace]; Ok (mkState kBig (small s - bigSpace))
          else _ ← ints [small s + big s]; Ok (mkState (small s + big s) 0));
  _ ← ints [big s + small s; big next + small next];
  _ ← assert_ (big s + small s =? big next + small next);
  offer curr seen next steps.

(** The six ways on from state [s]. *)
Definition explore (curr : Z) (seen : gset State) (s : State) (steps : list Step) : outcome (list Step) :=
  steps ← (if 0 <? big s then offer curr seen (mkState 0 (small s)) steps else Ok steps);
  steps ← (if 0 <? small s then offer curr seen (mkState (big s) 0) steps else Ok steps);
  steps ← (if big s <? kBig then offer curr seen (mkState kBig (small s)) steps else Ok steps);
  steps ← (if small s <? kSmall then offer curr seen (mkState (big s) kSmall) steps else Ok steps);
  steps ← (if (0 <? big s) && (small s <? kSmall) then big_to_small curr seen s steps else Ok steps);
  (if (big s <? kBig) && (0 <? small s) then small_to_big curr seen s steps else Ok steps).

(** The loop of [main]. *)
Fixpoint search (fuel : nat) (kFinal : State) (curr : Z) (steps : list Step) (seen : gset State) : outcome (Z * list Step * gset State) :=
  match fuel with
  | O => Fail Undefined
  | S fuel =>
      s ← vget steps curr;
      if bool_decide (st s = kFinal) then Ok (curr, steps, seen)
      else
        _ ← assert_ (curr <? zlen steps);
        _ ← assert_ (negb (parent s =? curr));
        '(steps, seen) ← (if bool_decide (st s ∈ seen) then Ok (steps, seen)
                          else steps ← explore curr ({[st s]} ∪ seen) (st s) steps; Ok (steps, {[st s]} ∪ seen));
        _ ← ints [curr + 1];
        if zlen steps <=? curr + 1 then Ok (curr + 1, steps, seen) else search fuel kFinal (curr + 1) steps seen
  end.

(** The states that are printed. *)
Fixpoint print (fuel : nat) (steps : list Step) (curr : Z) : outcome (list State) :=
  if curr <? 0 then Ok []
  else
    match fuel with
    | O => Fail Undefined
    | S fuel => s ← vget steps curr; path ← print fuel steps (parent s); Ok (st s :: path)
    end.

Inductive result := Found (steps seen : Z) (path : list State) | NotFound (steps seen : Z).

Definition most_steps : Z := 12 * (kBig + kSmall) + 25.

Definition waterpour (target : Z) : outcome result :=
  let kFinal := mkState target 0 in
  '(curr, steps, seen) ← search (Z.to_nat (most_steps + 1)) kFinal 0 [mkStep (mkState 0 0) (-1)] ∅;
  s ← vget steps curr;
  if bool_decide (st s = kFinal)
  then path ← print (S (length steps)) steps curr; Ok (Found (zlen steps) (Z.of_nat (size seen)) path)
  else Ok (NotFound (zlen steps) (Z.of_nat (size seen))).

(** ** Specification: what can be done with the vessels *)

Inductive pour : State -> State -> Prop :=
| empty_big b s : 0 < b -> pour (mkState b s) (mkState 0 s)
| empty_small b s : 0 < s -> pour (mkState b s) (mkState b 0)
| fill_big b s : b < kBig -> pour (mkState b s) (mkState kBig s)
| fill_small b s : s < kSmall -> pour (mkState b s) (mkState b kSmall)
| pour_big b s t : 0 < b -> s < kSmall -> t = Z.min b (kSmall - s) -> pour (mkState b s) (mkState (b - t) (s + t))
| pour_small b s t : b < kBig -> 0 < s -> t = Z.min s (kBig - b) -> pour (mkState b s) (mkState (b + t) (s - t)).

(** A list of states, last one first, that begins with empty vessels. *)
Inductive trail : list State -> Prop :=
| trail_start : trail [mkState 0 0]
| trail_step s s' path : trail (s :: path) -> pour s s' -> trail (s' :: s :: path).

(** ** The six ways on *)

Definition moves (s : State) : list State :=
  (if 0 <? big s then [mkState 0 (small s)] else []) ++
  (if 0 <? small s then [mkState (big s) 0] else []) ++
  (if big s <? kBig then [mkState kBig (small s)] else []) ++
  (if small s <? kSmall then [mkState (big s) kSmall] else []) ++
  (if (0 <? big s) && (small s <? kSmall) then [let t := Z.min (big s) (kSmall - small s) in mkState (big s - t) (small s + t)] else []) ++
  (if (big s <? kBig) && (0 <? small s) then [let t := Z.min (small s) (kBig - big s) in mkState (big s + t) (small s - t)] else []).

Lemma elem_of_if {A} (b : bool) (x y : A) : x ∈ (if b then [y] else []) <-> b = true /\ x = y.
Proof. destruct b; [rewrite list_elem_of_singleton; tauto|]. split; [by intros ?%not_elem_of_nil|by intros [? _]]. Qed.

Lemma moves_pour s s' : s' ∈ moves s <-> pour s s'.
Proof.
  destruct s as [b a]. unfold moves. cbn [big small]. rewrite !elem_of_app, !elem_of_if. rewrite !andb_true_iff, !Z.ltb_lt. split.
  - intros [[? ->]|[[? ->]|[[? ->]|[[? ->]|[[[? ?] ->]|[[? ?] ->]]]]]];
      [by apply empty_big|by apply empty_small|by apply fill_big|by apply fill_small|by apply pour_big|by apply pour_small].
  - inversion 1; subst; tauto.
Qed.

Lemma moves_length s : (length (moves s) <= 6)%nat.
Proof. unfold moves. rewrite !length_app. repeat case_match; cbn; lia. Qed.

(** ** The states with one vessel full or empty *)

Definition edge (s : State) : Prop :=
  0 <= big s <= kBig /\ 0 <= small s <= kSmall /\ (big s = 0 \/ big s = kBig \/ small s = 0 \/ small s = kSmall).

Lemma pour_edge s s' : edge s -> pour s s' -> edge s'.
Proof. intros E. inversion 1; subst; unfold edge in *; cbn [big small] in *; lia. Qed.

Lemma pour_ne s s' : edge s -> pour s s' -> s <> s'.
Proof. intros E. inversion 1; subst; unfold edge in *; cbn [big small] in *; intros [=]; lia. Qed.

Definition edges : list State :=
  ((fun i => mkState 0 i) <$> seqZ 0 (kSmall + 1)) ++ ((fun i => mkState kBig i) <$> seqZ 0 (kSmall + 1)) ++
  ((fun i => mkState i 0) <$> seqZ 0 (kBig + 1)) ++ ((fun i => mkState i kSmall) <$> seqZ 0 (kBig + 1)).

Lemma elem_of_edges s : edge s -> s ∈ edges.
Proof.
  destruct s as [b a]. unfold edge, edges. cbn [big small]. rewrite !elem_of_app, !list_elem_of_fmap. setoid_rewrite elem_of_seqZ.
  intros (? & ? & [->|[->|[->| ->]]]); [left|right; left|do 2 right; left|do 3 right]; eexists; split; [done|lia|done|lia|done|lia|done|lia].
Qed.

Hypothesis big_nonneg : 0 <= kBig.
Hypothesis small_nonneg : 0 <= kSmall.
Hypothesis volumes : kBig + kSmall <= 10 ^ 8.

Lemma list_to_set_size_le (l : list State) : (size (list_to_set l : gset State) <= length l)%nat.
Proof.
  induction l as [|x l IH]; cbn [list_to_set length]; [by rewrite size_empty|].
  rewrite size_union_alt, size_singleton. 
  pose proof (subseteq_size (list_to_set l ∖ {[x]}) (list_to_set l : gset State) ltac:(by intros y [Hy _]%elem_of_difference)). lia.
Qed.

Lemma edges_size (X : gset State) : (forall s, s ∈ X -> edge s) -> 6 * Z.of_nat (size X) + 1 <= most_steps.
Proof.
  intros HX. assert (X ⊆ list_to_set edges) as Hs%subseteq_size by (intros s Hs; by apply elem_of_list_to_set, elem_of_edges, HX).
  pose proof (list_to_set_size_le edges). unfold edges in *. rewrite !length_app, !length_fmap, !length_seqZ in *. unfold most_steps. lia.
Qed.

Definition queue (c : Z) (seen : gset State) (l : list State) : list Step := (fun x => mkStep x c) <$> filter (.∉ seen) l.

Lemma queue_app c seen l l' : queue c seen (l ++ l') = queue c seen l ++ queue c seen l'.
Proof. unfold queue. by rewrite filter_app, fmap_app. Qed.

Lemma vget_app (steps l : list Step) c x : vget steps c = Ok x -> vget (steps ++ l) c = Ok x.
Proof.
  unfold vget. intros E. apply bind_ok in E as ([] & Hr & [= <-]). apply defined_ok, in_range_spec in Hr.
  rewrite (proj2 (in_range_spec _ c)) by (rewrite zlen_app; pose proof (zlen_nonneg l); lia). cbn. by rewrite vat_app, decide_True by lia.
Qed.

(** One of the six cases: its test, and what it does if that holds. *)
Lemma case_ok c seen s steps (b : bool) next (m : outcome (list Step)) :
  vget steps c = Ok s -> (b = true -> m = offer c seen next steps) -> (b = true -> st s <> next) ->
  (if b then m else Ok steps) = Ok (steps ++ queue c seen (if b then [next] else [])).
Proof.
  intros E Hm Hne. destruct b; [|cbn; by rewrite app_nil_r]. rewrite Hm by done. unfold offer, queue. rewrite E. cbn [mbind outcome_bind].
  rewrite (bool_decide_true (st s <> next)) by (by apply Hne). cbn [assert_ mbind outcome_bind]. destruct (decide (next ∈ seen)) as [Hi|Hi].
  - rewrite bool_decide_true, filter_cons_False by tauto. cbn. by rewrite app_nil_r.
  - rewrite bool_decide_false, filter_cons_True by tauto. done.
Qed.

Lemma ints_vessels l : Forall (fun z => - 10 ^ 9 <= z <= 10 ^ 9) l -> ints l = Ok tt.
Proof. intros H. apply ints_ok. eapply Forall_impl; [exact H|]. cbv beta. lia. Qed.

Ltac vessels := repeat (rewrite ints_vessels by (repeat (constructor; [cbn [big small]; lia|]); constructor)).

Lemma big_to_small_ok c seen s steps : edge s -> 0 < big s -> small s < kSmall ->
  big_to_small c seen s steps = offer c seen (let t := Z.min (big s) (kSmall - small s) in mkState (big s - t) (small s + t)) steps.
Proof.
  intros (Hb & Hs & _) ? ?. unfold big_to_small. vessels. cbn [mbind outcome_bind].
  destruct (Z.ltb_spec (kSmall - small s) (big s)); vessels; cbn [mbind outcome_bind]; vessels; cbn [mbind outcome_bind big small];
    (rewrite (proj2 (Z.eqb_eq _ _)) by lia); cbn [assert_ mbind outcome_bind]; do 2 f_equal; lia.
Qed.

Lemma small_to_big_ok c seen s steps : edge s -> big s < kBig -> 0 < small s ->
  small_to_big c seen s steps = offer c seen (let t := Z.min (small s) (kBig - big s) in mkState (big s + t) (small s - t)) steps.
Proof.
  intros (Hb & Hs & _) ? ?. unfold small_to_big. vessels. cbn [mbind outcome_bind].
  destruct (Z.ltb_spec (kBig - big s) (small s)); vessels; cbn [mbind outcome_bind]; vessels; cbn [mbind outcome_bind big small];
    (rewrite (proj2 (Z.eqb_eq _ _)) by lia); cbn [assert_ mbind outcome_bind]; do 2 f_equal; lia.
Qed.

Ltac next_case H := erewrite case_ok; [cbn [mbind outcome_bind]|repeat apply vget_app; eassumption| |intros ?; apply H; rewrite !elem_of_app, !elem_of_if; tauto].

Lemma explore_ok c seen s steps : vget steps c = Ok s -> edge (st s) ->
  explore c seen (st s) steps = Ok (steps ++ queue c seen (moves (st s))).
Proof.
  intros E He. assert (forall n, n ∈ moves (st s) -> st s <> n) as Hne by (intros n Hn; apply pour_ne; [done|by apply moves_pour]).
  unfold moves in Hne. unfold explore, moves. rewrite !queue_app, !app_assoc.
  next_case Hne; [|done]. next_case Hne; [|done]. next_case Hne; [|done]. next_case Hne; [|done]. next_case Hne.
  - next_case Hne; [done|]. intros [??]%andb_true_iff. apply small_to_big_ok; [done|lia|lia].
  - intros [??]%andb_true_iff. apply big_to_small_ok; [done|lia|lia].
Qed.

(** ** The search *)

(** A queued step with the number of moves that led to it. *)
Record entry := Entry { e_st : State; e_parent : Z; e_depth : Z }.
Definition steps_of (q : list entry) : list Step := (fun e => mkStep (e_st e) (e_parent e)) <$> q.
Definition extend (c : nat) (e : entry) (l : list State) : list entry := (fun s => Entry s (Z.of_nat c) (e_depth e + 1)) <$> l.

Variable kFinal : State.
Abbreviation start := (mkState 0 0).

(** What holds when [c] steps are taken out of queue [q]. *)
Record searched (c : nat) (q : list entry) (seen : gset State) : Prop := {
  s_count : (c <= length q)%nat;
  s_start : q !! 0%nat = Some (Entry start (-1) 0);
  s_edge : forall e, e ∈ q -> edge (e_st e);
  s_parent : forall i e, q !! S i = Some e -> exists j f, e_parent e = Z.of_nat j /\ (j <= i)%nat /\ q !! j = Some f /\ e_depth e = e_depth f + 1 /\ pour (e_st f) (e_st e);
  s_sorted : forall i j e f, (i <= j)%nat -> q !! i = Some e -> q !! j = Some f -> e_depth e <= e_depth f;
  s_near : forall e f, q !! c = Some e -> f ∈ q -> e_depth f <= e_depth e + 1;
  s_seen : forall s, s ∈ seen <-> exists i e, (i < c)%nat /\ q !! i = Some e /\ e_st e = s;
  s_final : kFinal ∉ seen;
  s_next : forall i e s, (i < c)%nat -> q !! i = Some e -> pour (e_st e) s -> exists f, f ∈ q /\ e_st f = s /\ e_depth f <= e_depth e + 1;
  s_size : (length q <= 6 * size seen + 1)%nat;
}.

Lemma searched_start : searched 0 [Entry start (-1) 0] ∅.
Proof.
  split; [cbn; lia|done|..].
  - intros e ->%list_elem_of_singleton. unfold edge. cbn. lia.
  - done.
  - intros [|i] [|j] e f _; [|done|done|done]. intros [= <-] [= <-]. cbn. lia.
  - intros e f [= <-] ->%list_elem_of_singleton. cbn. lia.
  - intros s. split; [by intros ?%not_elem_of_empty|]. intros (i & e & Hi & _). lia.
  - apply not_elem_of_empty.
  - intros i e s Hi. lia.
  - cbn. lia.
Qed.

Section step.
Context (c : nat) (q : list entry) (seen : gset State) (e : entry).
Hypothesis Q : searched c q seen.
Hypothesis Hc : q !! c = Some e.
Hypothesis Hne : e_st e <> kFinal.

Lemma next_near (q' : list entry) f : (forall i, (i < length q)%nat -> q' !! i = q !! i) ->
  (forall f, f ∈ q' -> e_depth f <= e_depth e + 1) ->
  (forall i j e f, (i <= j)%nat -> q' !! i = Some e -> q' !! j = Some f -> e_depth e <= e_depth f) ->
  forall f', q' !! S c = Some f' -> f ∈ q' -> e_depth f <= e_depth f' + 1.
Proof.
  intros Heq Hnear Hs f' E Hf. pose proof (lookup_lt_Some _ _ _ Hc) as Hl. specialize (Hnear f Hf).
  pose proof (Hs c (S c) e f' ltac:(lia)) as H. rewrite (Heq c Hl) in H. specialize (H Hc E). lia.
Qed.

(** A step whose state was seen before. *)
Lemma skip_searched : e_st e ∈ seen -> searched (S c) q seen.
Proof.
  intros Hseen. split; try apply Q.
  - apply lookup_lt_Some in Hc. lia.
  - intros e' f E Hf. eapply (next_near q); [done| |apply Q|exact E|exact Hf]. intros g Hg. by apply (s_near _ _ _ Q).
  - intros s. rewrite (s_seen _ _ _ Q). split.
    + intros (i & f & Hi & Hf). exists i, f. split; [lia|done].
    + intros (i & f & Hi & Hf & Es). destruct (decide (i = c)) as [->|?]; [|exists i, f; split; [lia|done]].
      apply (s_seen _ _ _ Q). by replace s with (e_st e) by congruence.
  - intros i f s Hi Hf Hp. destruct (decide (i = c)) as [->|?]; [|by apply (s_next _ _ _ Q i f s ltac:(lia))].
    assert (f = e) as -> by congruence. apply (s_seen _ _ _ Q) in Hseen as (j & g & Hj & Hg & Es).
    destruct (s_next _ _ _ Q j g s Hj Hg) as (h & Hh & Eh & Hd); [by rewrite Es|]. exists h. split; [done|]. split; [done|].
    pose proof (s_sorted _ _ _ Q j c g e ltac:(lia) Hg Hc). lia.
Qed.

Definition news : list State := filter (.∉ ({[e_st e]} ∪ seen)) (moves (e_st e)).

Lemma lookup_extend i f : (q ++ extend c e news) !! i = Some f ->
  ((i < length q)%nat /\ q !! i = Some f) \/
  ((length q <= i)%nat /\ e_parent f = Z.of_nat c /\ e_depth f = e_depth e + 1 /\ pour (e_st e) (e_st f)).
Proof.
  intros E. apply lookup_app_Some in E as [E|[Hi E]]; [left; split; [by apply lookup_lt_Some in E|done]|right; split; [done|]].
  unfold extend in E. rewrite list_lookup_fmap in E. apply fmap_Some in E as (s & E & ->). apply list_elem_of_lookup_2, list_elem_of_filter in E as [_ E%moves_pour]. done.
Qed.

Lemma elem_of_extend f : f ∈ q ++ extend c e news -> f ∈ q \/ e_depth f = e_depth e + 1 /\ pour (e_st e) (e_st f).
Proof. intros [i [[_ H]|(_ & _ & H)]%lookup_extend]%list_elem_of_lookup; [left; by eapply list_elem_of_lookup_2|by right]. Qed.

Lemma extend_near f : f ∈ q ++ extend c e news -> e_depth f <= e_depth e + 1.
Proof. intros [H|[H _]]%elem_of_extend; [by apply (s_near _ _ _ Q)|lia]. Qed.

Lemma extend_sorted i j e' f : (i <= j)%nat -> (q ++ extend c e news) !! i = Some e' -> (q ++ extend c e news) !! j = Some f -> e_depth e' <= e_depth f.
Proof.
  intros Hij Hi Hj. pose proof (extend_near e' ltac:(by eapply list_elem_of_lookup_2)).
  apply lookup_extend in Hj as [[? Hj]|(? & _ & -> & _)]; [|done]. apply lookup_extend in Hi as [[? Hi]|[? _]]; [|lia].
  by apply (s_sorted _ _ _ Q i j).
Qed.

(** A step whose state is new. *)
Lemma grow_searched : e_st e ∉ seen -> searched (S c) (q ++ extend c e news) ({[e_st e]} ∪ seen).
Proof.
  intros Hseen. pose proof (lookup_lt_Some _ _ _ Hc) as Hl.
  assert (forall i f, q !! i = Some f -> (q ++ extend c e news) !! i = Some f) as Hkeep by (intros i f Hf; by apply lookup_app_l_Some).
  assert (forall i f, (i < length q)%nat -> (q ++ extend c e news) !! i = Some f -> q !! i = Some f) as Hback
    by (intros i f Hi Hf; by rewrite lookup_app_l in Hf).
  split.
  - rewrite length_app. lia.
  - apply Hkeep, (s_start _ _ _ Q).
  - intros f [Hf|[_ Hf]]%elem_of_extend; [by apply (s_edge _ _ _ Q)|]. eapply pour_edge; [|exact Hf]. apply (s_edge _ _ _ Q). by eapply list_elem_of_lookup_2.
  - intros i f [[_ Hf]|(Hi & Ep & Ed & Hp)]%lookup_extend.
    + destruct (s_parent _ _ _ Q i f Hf) as (j & g & ? & ? & Hg & ?). exists j, g. rewrite (Hkeep _ _ Hg). done.
    + exists c, e. rewrite (Hkeep _ _ Hc). split_and!; [done|lia|done|done|done].
  - apply extend_sorted.
  - intros f' f E Hf. eapply (next_near (q ++ extend c e news)); [|apply extend_near|apply extend_sorted|exact E|exact Hf].
    intros i Hi. by rewrite lookup_app_l.
  - intros s. rewrite elem_of_union, elem_of_singleton, (s_seen _ _ _ Q). split.
    + intros [->|(i & f & Hi & Hf & Es)]; [exists c, e; rewrite (Hkeep _ _ Hc); split; [lia|done]|].
      exists i, f. rewrite (Hkeep _ _ Hf). split; [lia|done].
    + intros (i & f & Hi & Hf & Es). apply Hback in Hf; [|lia]. destruct (decide (i = c)) as [->|?]; [left; congruence|].
      right. exists i, f. split; [lia|done].
  - rewrite elem_of_union, elem_of_singleton. intros [Heq|Hin]; [by symmetry in Heq|by apply (s_final _ _ _ Q)].
  - intros i f s Hi Hf Hp. apply Hback in Hf; [|lia]. destruct (decide (i = c)) as [->|?].
    + assert (f = e) as -> by congruence. destruct (decide (s ∈ {[e_st e]} ∪ seen)) as [[->%elem_of_singleton|Hs]%elem_of_union|Hs].
      * exists e. split; [apply elem_of_app; left; by eapply list_elem_of_lookup_2|]. split; [done|lia].
      * apply (s_seen _ _ _ Q) in Hs as (j & g & Hj & Hg & Es). exists g. split; [apply elem_of_app; left; by eapply list_elem_of_lookup_2|].
        split; [done|]. pose proof (s_sorted _ _ _ Q j c g e ltac:(lia) Hg Hc). lia.
      * exists (Entry s (Z.of_nat c) (e_depth e + 1)). split; [|cbn; split; [done|lia]]. apply elem_of_app. right. unfold extend. apply list_elem_of_fmap.
        exists s. split; [done|]. apply list_elem_of_filter. split; [done|by apply moves_pour].
    + destruct (s_next _ _ _ Q i f s ltac:(lia) Hf Hp) as (g & Hg & ? & ?). exists g. split; [apply elem_of_app; by left|done].
  - rewrite length_app, size_union, size_singleton by set_solver. unfold extend. rewrite length_fmap.
    assert (length news <= 6)%nat by (etrans; [apply length_filter|apply moves_length]). pose proof (s_size _ _ _ Q). lia.
Qed.
End step.

Lemma zlen_steps q : zlen (steps_of q) = zlen q.
Proof. apply zlen_fmap. Qed.

Lemma vget_steps q c e : q !! c = Some e -> vget (steps_of q) (Z.of_nat c) = Ok (mkStep (e_st e) (e_parent e)).
Proof.
  intros E. pose proof (lookup_lt_Some _ _ _ E). rewrite vget_ok by (rewrite zlen_steps; unfold zlen; lia). unfold vat, steps_of.
  rewrite Nat2Z.id. f_equal. apply list_lookup_total_correct. by rewrite list_lookup_fmap, E.
Qed.

Lemma steps_extend c q seen e : steps_of q ++ queue (Z.of_nat c) ({[e_st e]} ∪ seen) (moves (e_st e)) = steps_of (q ++ extend c e (news seen e)).
Proof. unfold steps_of, extend, queue, news. by rewrite fmap_app, <- !list_fmap_compose. Qed.

Lemma searched_bound c q seen : searched c q seen -> Z.of_nat (length q) <= most_steps.
Proof.
  intros Q. pose proof (s_size _ _ _ Q). enough (6 * Z.of_nat (size seen) + 1 <= most_steps) by lia.
  apply edges_size. intros s (i & e & _ & He & <-)%(s_seen _ _ _ Q). apply (s_edge _ _ _ Q). by eapply list_elem_of_lookup_2.
Qed.

Lemma bfs_ok fuel c q seen : searched c q seen -> (c < length q)%nat -> most_steps + 1 <= Z.of_nat (fuel + c) ->
  exists c' q' seen', search fuel kFinal (Z.of_nat c) (steps_of q) seen = Ok (Z.of_nat c', steps_of q', seen') /\
    searched c' q' seen' /\ (c' = length q' \/ exists e, q' !! c' = Some e /\ e_st e = kFinal).
Proof.
  induction fuel as [|fuel IH] in c, q, seen |- *; intros Q Hc Hf; pose proof (searched_bound _ _ _ Q) as Hb; [lia|].
  destruct (lookup_lt_is_Some_2 _ _ Hc) as [e He]. cbn [search]. rewrite (vget_steps _ _ _ He). cbn [mbind outcome_bind st parent].
  destruct (decide (e_st e = kFinal)) as [Hk|Hk].
  { rewrite bool_decide_true by done. exists c, q, seen. split; [done|]. split; [done|]. right. by exists e. }
  rewrite bool_decide_false by done. rewrite zlen_steps, (proj2 (Z.ltb_lt _ _)) by (unfold zlen; lia). cbn [assert_ mbind outcome_bind].
  assert (e_parent e <> Z.of_nat c) as Hp.
  { destruct c as [|c]; [|destruct (s_parent _ _ _ Q c e He) as (j & _ & -> & Hj & _); lia].
    rewrite (s_start _ _ _ Q) in He. injection He as <-. done. }
  rewrite (proj2 (Z.eqb_neq _ _) Hp). cbn [negb assert_ mbind outcome_bind].
  assert (exists q' seen', searched (S c) q' seen' /\ (length q <= length q')%nat /\
    (if bool_decide (e_st e ∈ seen) then Ok (steps_of q, seen)
     else steps ← explore (Z.of_nat c) ({[e_st e]} ∪ seen) (e_st e) (steps_of q); Ok (steps, {[e_st e]} ∪ seen)) = Ok (steps_of q', seen'))
    as (q' & seen' & Q' & Hl & ->).
  { destruct (decide (e_st e ∈ seen)) as [Hs|Hs].
    - exists q, seen. split; [by eapply skip_searched|]. by rewrite bool_decide_true by done.
    - exists (q ++ extend c e (news seen e)), ({[e_st e]} ∪ seen). split; [by apply grow_searched|]. split; [rewrite length_app; lia|].
      rewrite bool_decide_false by done. pose proof (explore_ok (Z.of_nat c) ({[e_st e]} ∪ seen) _ _ (vget_steps _ _ _ He)) as E. cbn [st] in E.
      rewrite E by (apply (s_edge _ _ _ Q); by eapply list_elem_of_lookup_2). cbn [mbind outcome_bind]. by rewrite steps_extend. }
  cbn [mbind outcome_bind]. pose proof (searched_bound _ _ _ Q') as Hb'. unfold most_steps in *.
  rewrite ints_ok by (repeat constructor; lia). cbn [mbind outcome_bind]. replace (Z.of_nat c + 1) with (Z.of_nat (S c)) by lia.
  rewrite zlen_steps. unfold zlen. destruct (Z.leb_spec (Z.of_nat (length q')) (Z.of_nat (S c))) as [Hend|Hgo].
  - exists (S c), q', seen'. split; [done|]. split; [done|]. left. pose proof (s_count _ _ _ Q'). lia.
  - apply (IH (S c) q' seen' Q'); lia.
Qed.

(** When the queue is empty, all that can be reached was seen. *)
Lemma all_seen q seen s : searched (length q) q seen -> rtc pour start s -> s ∈ seen.
Proof.
  intros Q. revert s. apply rtc_ind_r; [|intros s s' Hr Hp IH].
  - apply (s_seen _ _ _ Q). pose proof (s_start _ _ _ Q) as E. exists 0%nat, (Entry start (-1) 0). split; [by apply lookup_lt_Some in E|done].
  - apply (s_seen _ _ _ Q) in IH as (i & e & Hi & He & Es). destruct (s_next _ _ _ Q i e s' Hi He) as (f & Hf & Ef & _); [by rewrite Es|].
    apply list_elem_of_lookup in Hf as [j Hj]. apply (s_seen _ _ _ Q). exists j, f. split; [by eapply lookup_lt_Some|done].
Qed.

(** No shorter way leads to the state found. *)
Lemma none_shorter c q seen e k s : searched c q seen -> q !! c = Some e -> nsteps pour k start s -> Z.of_nat k < e_depth e ->
  exists i f, (i < c)%nat /\ q !! i = Some f /\ e_st f = s /\ e_depth f <= Z.of_nat k.
Proof.
  intros Q He. induction k as [|k IH] in s |- *; intros Hn Hk.
  - inversion Hn; subst. destruct c as [|c]; [rewrite (s_start _ _ _ Q) in He; injection He as <-; cbn in Hk; lia|].
    exists 0%nat, (Entry start (-1) 0). split; [lia|]. split; [apply Q|]. split; [done|cbn; lia].
  - apply nsteps_inv_r in Hn as (s0 & Hn & Hp). destruct (IH s0 Hn ltac:(lia)) as (i & f & Hi & Hf & <- & Hd).
    destruct (s_next _ _ _ Q i f s Hi Hf Hp) as (g & Hg & Es & Hd'). apply list_elem_of_lookup in Hg as [j Hj]. exists j, g.
    split; [|split; [done|split; [done|lia]]]. destruct (decide (j < c)%nat) as [?|Hge]; [done|].
    pose proof (s_sorted _ _ _ Q c j e g ltac:(lia) He Hj). lia.
Qed.

Lemma print_path_ok c q seen : searched c q seen -> forall fuel i e, q !! i = Some e -> (i < fuel)%nat ->
  exists path, print fuel (steps_of q) (Z.of_nat i) = Ok (e_st e :: path) /\ trail (e_st e :: path) /\ zlen path = e_depth e.
Proof.
  intros Q. induction fuel as [|fuel IH]; intros i e He Hi; [lia|]. cbn [print]. rewrite (proj2 (Z.ltb_ge _ _)) by lia.
  rewrite (vget_steps _ _ _ He). cbn [mbind outcome_bind st parent]. destruct i as [|i].
  - rewrite (s_start _ _ _ Q) in He. injection He as <-. exists []. destruct fuel; cbn; (split; [done|split; [constructor|done]]).
  - destruct (s_parent _ _ _ Q i e He) as (j & f & -> & Hj & Hf & Hd & Hp). destruct (IH j f Hf ltac:(lia)) as (path & -> & Ht & Hl).
    exists (e_st f :: path). split; [done|]. split; [by apply trail_step|]. rewrite zlen_cons. lia.
Qed.
End pouring.

(** ** Examples *)

Example four_of_five_and_three : waterpour 5 3 4 = Ok (Found 17 14 ((fun p => mkState p.1 p.2) <$> [(4, 0); (4, 3); (5, 2); (0, 2); (2, 0); (2, 3); (5, 0); (0, 0)])).
Proof. vm_compute. reflexivity. Qed.
Example five_of_six_and_four : waterpour 6 4 5 = Fail Undefined.
Proof. vm_compute. reflexivity. Qed.

(** ** Properties *)

(** C14: for any volumes whose sum is at most a hundred million the search
    ends, and no assertion fails.  If the target can be measured, the states
    printed are a way to do so, from the last to the empty vessels, and no way
    is shorter; if not, the loop ends when [steps] is used up, and the program
    goes on to read past its end: it never prints "Not Found". *)
Theorem waterpour_shortest kBig kSmall target : 0 <= kBig -> 0 <= kSmall -> kBig + kSmall <= 10 ^ 8 ->
  (exists n m path, waterpour kBig kSmall target = Ok (Found n m (mkState target 0 :: path)) /\
     trail kBig kSmall (mkState target 0 :: path) /\
     forall k, nsteps (pour kBig kSmall) k (mkState 0 0) (mkState target 0) -> zlen path <= Z.of_nat k) \/
  ((exists steps seen, search kBig kSmall (Z.to_nat (most_steps kBig kSmall + 1)) (mkState target 0) 0 [mkStep (mkState 0 0) (-1)] ∅ = Ok (zlen steps, steps, seen)) /\
   waterpour kBig kSmall target = Fail Undefined /\ ~ rtc (pour kBig kSmall) (mkState 0 0) (mkState target 0)).
Proof.
  intros Hb Hs Hv. set (kFinal := mkState target 0). unfold waterpour. fold kFinal.
  destruct (bfs_ok kBig kSmall Hb Hs Hv kFinal (Z.to_nat (most_steps kBig kSmall + 1)) 0 [Entry (mkState 0 0) (-1) 0] ∅) as (c & q & seen & E & Q & Hend);
    [by apply searched_start|cbn; lia|lia|]. change (search _ _ _ _ 0 _ _) with (search kBig kSmall (Z.to_nat (most_steps kBig kSmall + 1)) kFinal (Z.of_nat 0) (steps_of [Entry (mkState 0 0) (-1) 0]) ∅).
  rewrite E. cbn [mbind outcome_bind]. destruct Hend as [->|(e & He & Ek)].
  - right. assert (vget (steps_of q) (Z.of_nat (length q)) = Fail Undefined) as ->.
    { unfold vget. destruct (in_range _ _) eqn:Hr; [|done]. apply in_range_spec in Hr. rewrite zlen_steps in Hr. unfold zlen in Hr. lia. }
    split; [exists (steps_of q), seen; by rewrite zlen_steps|]. split; [done|]. intros Hr. apply (s_final _ _ _ _ _ _ Q). by apply (all_seen kBig kSmall kFinal q).
  - left. rewrite (vget_steps _ _ _ He). cbn [mbind outcome_bind st]. rewrite bool_decide_true by done.
    pose proof (lookup_lt_Some _ _ _ He). destruct (print_path_ok kBig kSmall kFinal c q seen Q (S (length (steps_of q))) c e He) as (path & -> & Ht & Hl);
      [unfold steps_of; rewrite length_fmap; lia|]. cbn [mbind outcome_bind]. rewrite Ek in Ht |- *. do 3 eexists. split; [done|]. split; [done|].
    intros k Hk. destruct (Z.le_gt_cases (zlen path) (Z.of_nat k)) as [?|Hlt]; [done|].
    destruct (none_shorter _ _ _ _ _ _ _ _ _ Q He Hk) as (i & f & Hi & Hf & Es & _); [lia|]. destruct (s_final _ _ _ _ _ _ Q).
    apply (s_seen _ _ _ _ _ _ Q). by exists i, f.
Qed.

Lemma waterpour_shortest_witness :
  (exists n m path, waterpour 5 3 4 = Ok (Found n m (mkState 4 0 :: path)) /\
     trail 5 3 (mkState 4 0 :: path) /\ forall k, nsteps (pour 5 3) k (mkState 0 0) (mkState 4 0) -> zlen path <= Z.of_nat k) /\
  ~ rtc (pour 6 4) (mkState 0 0) (mkState 5 0).
Proof.
  split.
  - destruct (waterpour_shortest 5 3 4) as [H|(_ & H & _)]; [lia|lia|lia|exact H|]. vm_compute in H. discriminate H.
  - destruct (waterpour_shortest 6 4 5) as [(n & m & path & H & _)|(_ & _ & H)]; [lia|lia|lia| |exact H]. vm_compute in H. discriminate H.
Defined.
