(* ===== verification/LinkedLists.v ===== *)
(** * LinkedLists: lists of linked nodes

    Models [SingleLinkedList] of [datastruct/list.cpp] and
    [DoubleLinkedList] of [datastruct/double_list.cpp], node by node: a heap
    holds the nodes, a pointer is an address or null, and reading through a
    pointer to nothing is undefined.  [delete] takes the node out of the heap,
    and its address can come back.  [out_of_range] exceptions are replies,
    since the caller can go on.

    What both lists do to the heap, to put a node behind another and to take
    it out, is proved once ([linked_insert], [linked_remove]) for any layout
    of the nodes.  The specification of both is a list with indices. *)
From S2P Require Import Prelude.

Abbreviation addr := positive.
Abbreviation ptr := (option addr).

(** ** The heap *)

Section heap.
Context {N : Type}.

Definition deref (h : gmap addr N) (p : ptr) : outcome N := a ← from_some Undefined p; from_some Undefined (h !! a).
Definition store (f : N -> N) (p : ptr) (h : gmap addr N) : outcome (gmap addr N) :=
  a ← from_some Undefined p; n ← from_some Undefined (h !! a); Ok (<[a := f n]> h).
Definition new_node (n : N) (h : gmap addr N) : ptr * gmap addr N := let a := fresh (dom h) in (Some a, <[a := n]> h).
Definition free (p : ptr) (h : gmap addr N) : outcome (gmap addr N) :=
  a ← from_some Undefined p; _ ← from_some Undefined (h !! a); Ok (delete a h).

(** [p = p->next], [n] times. *)
Fixpoint walk (next : N -> ptr) (n : nat) (h : gmap addr N) (p : ptr) : outcome ptr :=
  match n with O => Ok p | S n => x ← deref h p; walk next n h (next x) end.
End heap.

Inductive reply (T : Type) := Done | Value (v : T) | Is (b : bool) | Count (n : Z) | Threw.
Arguments Done {T}. Arguments Value {T}. Arguments Is {T}. Arguments Count {T}. Arguments Threw {T}.

Section lists.
Context {T : Type} `{!Inhabited T}.

(** ** list.cpp *)

Record Node := mkNode { val : T; next : ptr }.
Definition set_next (p : ptr) (n : Node) : Node := mkNode (val n) p.
Definition set_val (v : T) (n : Node) : Node := mkNode v (next n).

Record SingleLinkedList := mkSingle { head : ptr; tail : ptr; size_ : Z; nodes : gmap addr Node }.

Definition new_SingleLinkedList : SingleLinkedList := let '(h, m) := new_node (mkNode inhabitant None) ∅ in mkSingle h h 0 m.

Definition isElementIndex (index size : Z) : bool := (0 <=? index) && (index <? size).
Definition isPositionIndex (index size : Z) : bool := (0 <=? index) && (index <=? size).

Definition addFirst (e : T) (s : SingleLinkedList) : outcome (SingleLinkedList * reply T) :=
  let '(newNode, h) := new_node (mkNode e None) (nodes s) in
  n ← deref h (head s);
  h ← store (set_next (next n)) newNode h;
  h ← store (set_next newNode) (head s) h;
  _ ← ints [size_ s + 1];
  Ok (mkSingle (head s) (if size_ s =? 0 then newNode else tail s) (size_ s + 1) h, Done).

Definition addLast (e : T) (s : SingleLinkedList) : outcome (SingleLinkedList * reply T) :=
  let '(newNode, h) := new_node (mkNode e None) (nodes s) in
  h ← store (set_next newNode) (tail s) h;
  _ ← ints [size_ s + 1];
  Ok (mkSingle (head s) newNode (size_ s + 1) h, Done).

Definition add (index : Z) (e : T) (s : SingleLinkedList) : outcome (SingleLinkedList * reply T) :=
  if negb (isPositionIndex index (size_ s)) then Ok (s, Threw)
  else if index =? size_ s then addLast e s
  else
    prev ← walk next (Z.to_nat index) (nodes s) (head s);
    let '(newNode, h) := new_node (mkNode e None) (nodes s) in
    n ← deref h prev;
    h ← store (set_next (next n)) newNode h;
    h ← store (set_next newNode) prev h;
    _ ← ints [size_ s + 1];
    Ok (mkSingle (head s) (tail s) (size_ s + 1) h, Done).

Definition removeFirst (s : SingleLinkedList) : outcome (SingleLinkedList * reply T) :=
  if size_ s =? 0 then Ok (s, Threw)
  else
    n ← deref (nodes s) (head s);
    let first := next n in
    f ← deref (nodes s) first;
    h ← store (set_next (next f)) (head s) (nodes s);
    let tail' := if size_ s =? 1 then head s else tail s in
    f ← deref h first;
    h ← free first h;
    Ok (mkSingle (head s) tail' (size_ s - 1) h, Value (val f)).

Fixpoint before_tail (fuel : nat) (h : gmap addr Node) (tail prev : ptr) : outcome ptr :=
  match fuel with
  | O => Fail Undefined
  | S fuel => n ← deref h prev; if decide (next n = tail) then Ok prev else before_tail fuel h tail (next n)
  end.

Definition removeLast (s : SingleLinkedList) : outcome (SingleLinkedList * reply T) :=
  if size_ s =? 0 then Ok (s, Threw)
  else
    prev ← before_tail (S (size (nodes s))) (nodes s) (tail s) (head s);
    t ← deref (nodes s) (tail s);
    h ← free (tail s) (nodes s);
    h ← store (set_next None) prev h;
    Ok (mkSingle (head s) prev (size_ s - 1) h, Value (val t)).

Definition remove (index : Z) (s : SingleLinkedList) : outcome (SingleLinkedList * reply T) :=
  if negb (isElementIndex index (size_ s)) then Ok (s, Threw)
  else
    prev ← walk next (Z.to_nat index) (nodes s) (head s);
    n ← deref (nodes s) prev;
    let nodeToRemove := next n in
    x ← deref (nodes s) nodeToRemove;
    h ← store (set_next (next x)) prev (nodes s);
    let tail' := if index =? size_ s - 1 then prev else tail s in
    x ← deref h nodeToRemove;
    h ← free nodeToRemove h;
    Ok (mkSingle (head s) tail' (size_ s - 1) h, Value (val x)).

Definition getNode (index : Z) (s : SingleLinkedList) : outcome ptr :=
  n ← deref (nodes s) (head s); walk next (Z.to_nat index) (nodes s) (next n).

Definition getFirst (s : SingleLinkedList) : outcome (reply T) :=
  if size_ s =? 0 then Ok Threw else n ← deref (nodes s) (head s); f ← deref (nodes s) (next n); Ok (Value (val f)).
Definition getLast (s : SingleLinkedList) : outcome (reply T) :=
  if size_ s =? 0 then Ok Threw else t ← deref (nodes s) (tail s); Ok (Value (val t)).
Definition get (index : Z) (s : SingleLinkedList) : outcome (reply T) :=
  if negb (isElementIndex index (size_ s)) then Ok Threw
  else p ← getNode index s; n ← deref (nodes s) p; Ok (Value (val n)).
Definition set (index : Z) (e : T) (s : SingleLinkedList) : outcome (SingleLinkedList * reply T) :=
  if negb (isElementIndex index (size_ s)) then Ok (s, Threw)
  else
    p ← getNode index s;
    n ← deref (nodes s) p;
    h ← store (set_val e) p (nodes s);
    Ok (mkSingle (head s) (tail s) (size_ s) h, Value (val n)).

(** The destructor, from [current]: what is left in the heap. *)
Fixpoint destroy (fuel : nat) (current : ptr) (h : gmap addr Node) : outcome (gmap addr Node) :=
  match current with
  | None => Ok h
  | Some _ =>
      match fuel with
      | O => Fail Undefined
      | S fuel => n ← deref h current; h ← free current h; destroy fuel (next n) h
      end
  end.
Definition delete_single (s : SingleLinkedList) : outcome (gmap addr Node) := destroy (size (nodes s)) (head s) (nodes s).

(** ** double_list.cpp *)

Record DNode := mkDNode { dval : T; dnext : ptr; dprev : ptr }.
Definition set_dnext (p : ptr) (n : DNode) : DNode := mkDNode (dval n) p (dprev n).
Definition set_dprev (p : ptr) (n : DNode) : DNode := mkDNode (dval n) (dnext n) p.
Definition set_dval (v : T) (n : DNode) : DNode := mkDNode v (dnext n) (dprev n).

Record DoubleLinkedList := mkDouble { dhead : ptr; dtail : ptr; dsize : Z; dnodes : gmap addr DNode }.

Definition new_DoubleLinkedList : outcome DoubleLinkedList :=
  let '(h, m) := new_node (mkDNode inhabitant None None) ∅ in
  let '(t, m) := new_node (mkDNode inhabitant None None) m in
  m ← store (set_dnext t) h m;
  m ← store (set_dprev h) t m;
  Ok (mkDouble h t 0 m).

Definition d_addLast (e : T) (s : DoubleLinkedList) : outcome (DoubleLinkedList * reply T) :=
  let '(x, h) := new_node (mkDNode e None None) (dnodes s) in
  t ← deref h (dtail s);
  let temp := dprev t in
  h ← store (set_dnext x) temp h;
  h ← store (set_dprev temp) x h;
  h ← store (set_dnext (dtail s)) x h;
  h ← store (set_dprev x) (dtail s) h;
  _ ← ints [dsize s + 1];
  Ok (mkDouble (dhead s) (dtail s) (dsize s + 1) h, Done).

Definition d_addFirst (e : T) (s : DoubleLinkedList) : outcome (DoubleLinkedList * reply T) :=
  let '(x, h) := new_node (mkDNode e None None) (dnodes s) in
  n ← deref h (dhead s);
  let temp := dnext n in
  h ← store (set_dprev x) temp h;
  h ← store (set_dnext temp) x h;
  h ← store (set_dnext x) (dhead s) h;
  h ← store (set_dprev (dhead s)) x h;
  _ ← ints [dsize s + 1];
  Ok (mkDouble (dhead s) (dtail s) (dsize s + 1) h, Done).

(** [getNode] after its check, which its callers have made already. *)
Definition d_getNode (index : Z) (s : DoubleLinkedList) : outcome ptr :=
  n ← deref (dnodes s) (dhead s); walk dnext (Z.to_nat index) (dnodes s) (dnext n).

Definition d_add (index : Z) (e : T) (s : DoubleLinkedList) : outcome (DoubleLinkedList * reply T) :=
  if negb (isPositionIndex index (dsize s)) then Ok (s, Threw)
  else if index =? dsize s then d_addLast e s
  else
    p ← d_getNode index s;
    n ← deref (dnodes s) p;
    let temp := dprev n in
    let '(x, h) := new_node (mkDNode e None None) (dnodes s) in
    h ← store (set_dprev x) p h;
    h ← store (set_dnext x) temp h;
    h ← store (set_dprev temp) x h;
    h ← store (set_dnext p) x h;
    _ ← ints [dsize s + 1];
    Ok (mkDouble (dhead s) (dtail s) (dsize s + 1) h, Done).

Definition d_removeFirst (s : DoubleLinkedList) : outcome (DoubleLinkedList * reply T) :=
  if dsize s <? 1 then Ok (s, Threw)
  else
    n ← deref (dnodes s) (dhead s);
    let x := dnext n in
    nx ← deref (dnodes s) x;
    let temp := dnext nx in
    h ← store (set_dnext temp) (dhead s) (dnodes s);
    h ← store (set_dprev (dhead s)) temp h;
    nx ← deref h x;
    h ← free x h;
    Ok (mkDouble (dhead s) (dtail s) (dsize s - 1) h, Value (dval nx)).

Definition d_removeLast (s : DoubleLinkedList) : outcome (DoubleLinkedList * reply T) :=
  if dsize s <? 1 then Ok (s, Threw)
  else
    t ← deref (dnodes s) (dtail s);
    let x := dprev t in
    nx ← deref (dnodes s) x;
    let temp := dprev nx in
    h ← store (set_dprev temp) (dtail s) (dnodes s);
    h ← store (set_dnext (dtail s)) temp h;
    nx ← deref h x;
    h ← store (set_dprev None) x h;
    h ← store (set_dnext None) x h;
    h ← free x h;
    Ok (mkDouble (dhead s) (dtail s) (dsize s - 1) h, Value (dval nx)).

Definition d_remove (index : Z) (s : DoubleLinkedList) : outcome (DoubleLinkedList * reply T) :=
  if negb (isElementIndex index (dsize s)) then Ok (s, Threw)
  else
    x ← d_getNode index s;
    nx ← deref (dnodes s) x;
    let prev := dprev nx in
    let next := dnext nx in
    h ← store (set_dnext next) prev (dnodes s);
    h ← store (set_dprev prev) next h;
    nx ← deref h x;
    h ← store (set_dprev None) x h;
    h ← store (set_dnext None) x h;
    h ← free x h;
    Ok (mkDouble (dhead s) (dtail s) (dsize s - 1) h, Value (dval nx)).

Definition d_get (index : Z) (s : DoubleLinkedList) : outcome (reply T) :=
  if negb (isElementIndex index (dsize s)) then Ok Threw
  else p ← d_getNode index s; n ← deref (dnodes s) p; Ok (Value (dval n)).
Definition d_getFirst (s : DoubleLinkedList) : outcome (reply T) :=
  if dsize s <? 1 then Ok Threw else n ← deref (dnodes s) (dhead s); f ← deref (dnodes s) (dnext n); Ok (Value (dval f)).
Definition d_getLast (s : DoubleLinkedList) : outcome (reply T) :=
  if dsize s <? 1 then Ok Threw else t ← deref (dnodes s) (dtail s); l ← deref (dnodes s) (dprev t); Ok (Value (dval l)).
Definition d_set (index : Z) (e : T) (s : DoubleLinkedList) : outcome (DoubleLinkedList * reply T) :=
  if negb (isElementIndex index (dsize s)) then Ok (s, Threw)
  else
    p ← d_getNode index s;
    n ← deref (dnodes s) p;
    h ← store (set_dval e) p (dnodes s);
    Ok (mkDouble (dhead s) (dtail s) (dsize s) h, Value (dval n)).

Fixpoint remove_all (fuel : nat) (s : DoubleLinkedList) : outcome DoubleLinkedList :=
  if 0 <? dsize s then
    match fuel with O => Fail Undefined | S fuel => '(s, _) ← d_removeFirst s; remove_all fuel s end
  else Ok s.
Definition delete_double (s : DoubleLinkedList) : outcome (gmap addr DNode) :=
  s ← remove_all (size (dnodes s)) s; h ← free (dhead s) (dnodes s); free (dtail s) h.

(** ** The interface *)

Inductive call := AddFirst (e : T) | AddLast (e : T) | Add (i : Z) (e : T) | RemoveFirst | RemoveLast | Remove (i : Z)
  | GetFirst | GetLast | Get (i : Z) | Put (i : Z) (e : T) | Size | IsEmpty.

Definition observe {S} (s : S) (m : outcome (reply T)) : outcome (S * reply T) := r ← m; Ok (s, r).

Definition single_call (s : SingleLinkedList) (c : call) : outcome (SingleLinkedList * reply T) :=
  match c with
  | AddFirst e => addFirst e s | AddLast e => addLast e s | Add i e => add i e s
  | RemoveFirst => removeFirst s | RemoveLast => removeLast s | Remove i => remove i s
  | GetFirst => observe s (getFirst s) | GetLast => observe s (getLast s) | Get i => observe s (get i s)
  | Put i e => set i e s
  | Size => Ok (s, Count (size_ s)) | IsEmpty => Ok (s, Is (size_ s =? 0))
  end.

Definition double_call (s : DoubleLinkedList) (c : call) : outcome (DoubleLinkedList * reply T) :=
  match c with
  | AddFirst e => d_addFirst e s | AddLast e => d_addLast e s | Add i e => d_add i e s
  | RemoveFirst => d_removeFirst s | RemoveLast => d_removeLast s | Remove i => d_remove i s
  | GetFirst => observe s (d_getFirst s) | GetLast => observe s (d_getLast s) | Get i => observe s (d_get i s)
  | Put i e => d_set i e s
  | Size => Ok (s, Count (dsize s)) | IsEmpty => Ok (s, Is (dsize s =? 0))
  end.

Fixpoint run_calls {S} (step : S -> call -> outcome (S * reply T)) (s : S) (cs : list call) : outcome (S * list (reply T)) :=
  match cs with
  | [] => Ok (s, [])
  | c :: cs => '(s, r) ← step s c; '(s, rs) ← run_calls step s cs; Ok (s, r :: rs)
  end.

(** From the constructor to the destructor: what was answered, and what is
    left in the heap. *)
Definition single_life (cs : list call) : outcome (list (reply T) * gmap addr Node) :=
  '(s, rs) ← run_calls single_call new_SingleLinkedList cs; h ← delete_single s; Ok (rs, h).
Definition double_life (cs : list call) : outcome (list (reply T) * gmap addr DNode) :=
  s ← new_DoubleLinkedList; '(s, rs) ← run_calls double_call s cs; h ← delete_double s; Ok (rs, h).

(** ** Specification: a list with indices *)

Definition insert_at {A} (i : nat) (x : A) (l : list A) : list A := take i l ++ x :: drop i l.

Definition value_of (o : option T) : reply T := match o with Some v => Value v | None => Threw end.

Definition list_call (l : list T) (c : call) : list T * reply T :=
  let at_ (i : Z) : option T := if 0 <=? i then l !! Z.to_nat i else None in
  match c with
  | AddFirst e => (e :: l, Done)
  | AddLast e => (l ++ [e], Done)
  | Add i e => if isPositionIndex i (zlen l) then (insert_at (Z.to_nat i) e l, Done) else (l, Threw)
  | RemoveFirst => (drop 1 l, value_of (l !! 0%nat))
  | RemoveLast => (removelast l, value_of (last l))
  | Remove i => (if 0 <=? i then delete (Z.to_nat i) l else l, value_of (at_ i))
  | GetFirst => (l, value_of (l !! 0%nat))
  | GetLast => (l, value_of (last l))
  | Get i => (l, value_of (at_ i))
  | Put i e => (if 0 <=? i then <[Z.to_nat i := e]> l else l, value_of (at_ i))
  | Size => (l, Count (zlen l))
  | IsEmpty => (l, Is (bool_decide (l = [])))
  end.

Fixpoint list_calls (l : list T) (cs : list call) : list (reply T) :=
  match cs with [] => [] | c :: cs => let '(l, r) := list_call l c in r :: list_calls l cs end.
End lists.
Arguments call : clear implicits.

Definition some_calls : list (call Z) :=
  [AddFirst 1; AddFirst 2; AddLast 3; AddLast 4; Add 2 5; Add 9 9; RemoveFirst; RemoveLast; Remove 1; Remove (-1); GetFirst; GetLast; Get 1; Put 0 7; Get 0; Size;
   Add 2 8; RemoveLast; RemoveLast; RemoveLast; RemoveLast; GetLast; IsEmpty; AddLast 6].
Example lists_agree :
  let rs := list_calls [] some_calls in single_life some_calls = Ok (rs, ∅) /\ double_life some_calls = Ok (rs, ∅).
Proof. split; vm_compute; reflexivity. Qed.

(** ** Lemmas: [insert_at] and [delete] *)

Section positions.
Context {A : Type}.
Implicit Types (l : list A) (x : A).

Lemma lookup_insert_at_lt k i x l : (k <= length l)%nat -> (i < k)%nat -> insert_at k x l !! i = l !! i.
Proof. intros. unfold insert_at. rewrite lookup_app_l by (rewrite length_take; lia). by rewrite lookup_take_lt by lia. Qed.
Lemma lookup_insert_at_eq k x l : (k <= length l)%nat -> insert_at k x l !! k = Some x.
Proof. intros. unfold insert_at. apply list_lookup_middle. rewrite length_take. lia. Qed.
Lemma lookup_insert_at_gt k i x l : (k <= length l)%nat -> (k <= i)%nat -> insert_at k x l !! S i = l !! i.
Proof.
  intros. unfold insert_at. rewrite lookup_app_r by (rewrite length_take; lia). rewrite length_take.
  replace (S i - k `min` length l)%nat with (S (i - k))%nat by lia. change ((x :: drop k l) !! S (i - k)) with (drop k l !! (i - k)%nat). rewrite lookup_drop. f_equal. lia.
Qed.
Lemma length_insert_at k x l : (k <= length l)%nat -> length (insert_at k x l) = S (length l).
Proof. intros. unfold insert_at. rewrite length_app, length_take. cbn [length]. rewrite length_drop. lia. Qed.
Lemma insert_at_cons k x y l : insert_at (S k) x (y :: l) = y :: insert_at k x l.
Proof. done. Qed.
Lemma insert_at_app k x l l' : (k <= length l)%nat -> insert_at k x (l ++ l') = insert_at k x l ++ l'.
Proof. intros. unfold insert_at. rewrite take_app_le, drop_app_le by lia. by rewrite <- app_assoc. Qed.
Lemma insert_at_end x l : insert_at (length l) x l = l ++ [x].
Proof. unfold insert_at. by rewrite take_ge, drop_ge by lia. Qed.
Lemma elem_of_insert_at k x y l : y ∈ insert_at k x l <-> y = x \/ y ∈ l.
Proof. unfold insert_at. rewrite <- (take_drop k l) at 3. rewrite !elem_of_app, elem_of_cons. tauto. Qed.
Lemma NoDup_insert_at k x l : NoDup l -> x ∉ l -> NoDup (insert_at k x l).
Proof.
  intros Hl Hx. unfold insert_at. rewrite <- Permutation_middle, take_drop. by constructor.
Qed.
Lemma delete_app k l l' : (k < length l)%nat -> delete k (l ++ l') = delete k l ++ l'.
Proof. intros. rewrite !delete_take_drop, take_app_le, drop_app_le by lia. by rewrite app_assoc. Qed.
End positions.

(** ** Linked nodes

    [cell v next prev] is the layout of a node; [links h as_ vs] says that
    the heap holds nothing but the nodes at [as_], in this order, with the
    values [vs]. *)
Section chain.
Context {T N : Type} (cell : T -> ptr -> ptr -> N).

Definition before (l : list addr) (i : nat) : ptr := match i with O => None | S j => l !! j end.

Record links (h : gmap addr N) (l : list addr) (vs : list T) : Prop := {
  l_nodup : NoDup l;
  l_length : length vs = length l;
  l_none : forall b, b ∉ l -> h !! b = None;
  l_cell : forall i a v, l !! i = Some a -> vs !! i = Some v -> h !! a = Some (cell v (l !! S i) (before l i));
}.

Lemma links_value h l vs i a : links h l vs -> l !! i = Some a -> exists v, vs !! i = Some v.
Proof. intros L Hi. apply lookup_lt_is_Some_2. rewrite (l_length _ _ _ L). by apply lookup_lt_Some in Hi. Qed.

Lemma links_deref h l vs i v : links h l vs -> vs !! i = Some v -> deref h (l !! i) = Ok (cell v (l !! S i) (before l i)).
Proof.
  intros L Hv. assert (i < length l)%nat as Hi by (rewrite <- (l_length _ _ _ L); by apply lookup_lt_Some in Hv).
  destruct (lookup_lt_is_Some_2 l i Hi) as [a Ha]. unfold deref. rewrite Ha. cbn. by rewrite (l_cell _ _ _ L i a v).
Qed.

Lemma links_walk h l vs next n i : (forall v p q, next (cell v p q) = p) -> links h l vs -> (i + n < length l)%nat ->
  walk next n h (l !! i) = Ok (l !! (i + n)%nat).
Proof.
  intros Hnext L. induction n as [|n IH] in i |- *; intros Hi; cbn [walk]; [by rewrite Nat.add_0_r|].
  destruct (lookup_lt_is_Some_2 vs i) as [v Hv]; [rewrite (l_length _ _ _ L); lia|].
  rewrite (links_deref _ _ _ _ _ L Hv). cbn [mbind outcome_bind]. rewrite Hnext, IH by lia. do 2 f_equal. lia.
Qed.

Lemma links_fresh h l vs : links h l vs -> fresh (dom h) ∉ l.
Proof.
  intros L [i Hi]%list_elem_of_lookup. destruct (links_value _ _ _ _ _ L Hi) as [v Hv].
  apply (is_fresh (dom h)). apply elem_of_dom. rewrite (l_cell _ _ _ L _ _ _ Hi Hv). eauto.
Qed.

(** Equal nodes are at equal places. *)
Lemma links_place h l vs i j a : links h l vs -> l !! i = Some a -> l !! j = Some a -> i = j.
Proof. intros L. by apply NoDup_lookup, (l_nodup _ _ _ L). Qed.

(** Node [a] is put behind the one at place [k]. *)
Lemma linked_insert h l vs k p v a e h' : links h l vs -> l !! k = Some p -> vs !! k = Some v -> a ∉ l ->
  h' !! a = Some (cell e (l !! S k) (Some p)) ->
  h' !! p = Some (cell v (Some a) (before l k)) ->
  (forall q w, l !! S k = Some q -> vs !! S k = Some w -> h' !! q = Some (cell w (l !! S (S k)) (Some a))) ->
  (forall b, b <> a -> b <> p -> l !! S k <> Some b -> h' !! b = h !! b) ->
  links h' (insert_at (S k) a l) (insert_at (S k) e vs).
Proof.
  intros L Hp Hv Ha Ea Ep Eq Hsame. pose proof (lookup_lt_Some _ _ _ Hp) as Hk. pose proof (l_length _ _ _ L) as Hl. split.
  - apply NoDup_insert_at; [apply L|done].
  - rewrite !length_insert_at by lia. lia.
  - intros b Hb. rewrite elem_of_insert_at in Hb. rewrite Hsame; [apply (l_none _ _ _ L); tauto|tauto|..].
    + intros ->. apply Hb. right. by eapply list_elem_of_lookup_2.
    + intros Hq. apply Hb. right. by eapply list_elem_of_lookup_2.
  - intros i b w. destruct (Nat.lt_total i (S k)) as [Hi|[->|Hi]].
    + rewrite !lookup_insert_at_lt by lia. intros Hb Hw. assert (before (insert_at (S k) a l) i = before l i) as ->.
      { destruct i as [|i]; [done|]. cbn. apply lookup_insert_at_lt; lia. }
      destruct (decide (i = k)) as [->|Hne].
      * rewrite lookup_insert_at_eq by lia. by simplify_eq.
      * rewrite lookup_insert_at_lt by lia. rewrite Hsame; [by apply (l_cell _ _ _ L)|..].
        -- intros ->. apply Ha. by eapply list_elem_of_lookup_2.
        -- intros ->. by rewrite (links_place _ _ _ _ _ _ L Hb Hp) in Hne.
        -- intros Hq. pose proof (links_place _ _ _ _ _ _ L Hb Hq). lia.
    + rewrite !lookup_insert_at_eq by lia. intros [= <-] [= <-]. rewrite lookup_insert_at_gt by lia. cbn [before].
      by rewrite lookup_insert_at_lt, Hp by lia.
    + destruct i as [|i]; [lia|]. rewrite !lookup_insert_at_gt by lia. intros Hb Hw. cbn [before]. destruct (decide (i = S k)) as [->|Hne].
      * rewrite lookup_insert_at_eq by lia. by apply Eq.
      * destruct i as [|i]; [lia|]. rewrite lookup_insert_at_gt by lia. rewrite Hsame; [by apply (l_cell _ _ _ L)|..].
        -- intros ->. apply Ha. by eapply list_elem_of_lookup_2.
        -- intros ->. pose proof (links_place _ _ _ _ _ _ L Hb Hp). lia.
        -- intros Hq. pose proof (links_place _ _ _ _ _ _ L Hb Hq). lia.
Qed.

(** The node behind the one at place [k] is taken out. *)
Lemma linked_remove h l vs k p v x h' : links h l vs -> l !! k = Some p -> vs !! k = Some v -> l !! S k = Some x ->
  h' !! x = None ->
  h' !! p = Some (cell v (l !! S (S k)) (before l k)) ->
  (forall q w, l !! S (S k) = Some q -> vs !! S (S k) = Some w -> h' !! q = Some (cell w (l !! S (S (S k))) (Some p))) ->
  (forall b, b <> x -> b <> p -> l !! S (S k) <> Some b -> h' !! b = h !! b) ->
  links h' (delete (S k) l) (delete (S k) vs).
Proof.
  intros L Hp Hv Hx Ex Ep Eq Hsame. pose proof (lookup_lt_Some _ _ _ Hx) as Hk. pose proof (l_length _ _ _ L) as Hl.
  assert (Permutation l (x :: delete (S k) l)) as Hperm by (by apply delete_Permutation).
  split.
  - pose proof (l_nodup _ _ _ L) as Hnd. rewrite Hperm in Hnd. by apply NoDup_cons in Hnd as [_ ?].
  - rewrite !length_delete by (apply lookup_lt_is_Some_2; lia). lia.
  - intros b Hb. destruct (decide (b = x)) as [->|Hbx]; [done|].
    assert (b ∉ l) as Hbl by (rewrite Hperm; intros [?|?]%elem_of_cons; done).
    rewrite Hsame; [by apply (l_none _ _ _ L)|done|intros ->|intros Hq]; apply Hbl; by eapply list_elem_of_lookup_2.
  - intros i b w. destruct (decide (i < S k)%nat) as [Hi|Hi].
    + rewrite !list_lookup_delete_lt by lia. intros Hb Hw. assert (before (delete (S k) l) i = before l i) as ->.
      { destruct i as [|i]; [done|]. cbn. apply list_lookup_delete_lt. lia. }
      destruct (decide (i = k)) as [->|Hne].
      * rewrite list_lookup_delete_ge by lia. by simplify_eq.
      * rewrite list_lookup_delete_lt by lia. rewrite Hsame; [by apply (l_cell _ _ _ L)|..].
        -- intros ->. pose proof (links_place _ _ _ _ _ _ L Hb Hx). lia.
        -- intros ->. by rewrite (links_place _ _ _ _ _ _ L Hb Hp) in Hne.
        -- intros Hq. pose proof (links_place _ _ _ _ _ _ L Hb Hq). lia.
    + destruct i as [|i]; [lia|]. rewrite !list_lookup_delete_ge by lia. intros Hb Hw. cbn [before]. destruct (decide (i = k)) as [->|Hne].
      * rewrite list_lookup_delete_lt, Hp by lia. by apply Eq.
      * rewrite list_lookup_delete_ge by lia. rewrite Hsame; [by apply (l_cell _ _ _ L)|..].
        -- intros ->. pose proof (links_place _ _ _ _ _ _ L Hb Hx). lia.
        -- intros ->. pose proof (links_place _ _ _ _ _ _ L Hb Hp). lia.
        -- intros Hq. pose proof (links_place _ _ _ _ _ _ L Hb Hq). lia.
Qed.

Lemma linked_set h l vs k p v e h' : links h l vs -> l !! k = Some p -> vs !! k = Some v ->
  h' = <[p := cell e (l !! S k) (before l k)]> h -> links h' l (<[k := e]> vs).
Proof.
  intros L Hp Hv ->. split; [apply L|rewrite length_insert; apply L|..].
  - intros b Hb. rewrite lookup_insert_ne; [by apply (l_none _ _ _ L)|]. intros ->. apply Hb. by eapply list_elem_of_lookup_2.
  - intros i b w Hb Hw. destruct (decide (i = k)) as [->|Hne].
    + rewrite list_lookup_insert_eq in Hw by (by apply lookup_lt_Some in Hv). simplify_eq. by rewrite lookup_insert_eq.
    + rewrite list_lookup_insert_ne in Hw by done. rewrite lookup_insert_ne; [by apply (l_cell _ _ _ L)|].
      intros ->. by rewrite (links_place _ _ _ _ _ _ L Hb Hp) in Hne.
Qed.
End chain.

Lemma links_dom {T N} (cell : T -> ptr -> ptr -> N) h l vs : links cell h l vs -> dom h = list_to_set l.
Proof.
  intros L. apply set_eq. intros b. rewrite elem_of_list_to_set, elem_of_dom. split.
  - intros [n Hn]. destruct (decide (b ∈ l)) as [?|Hb]; [done|]. by rewrite (l_none _ _ _ _ L b Hb) in Hn.
  - intros [i Hi]%list_elem_of_lookup. destruct (links_value _ _ _ _ _ _ L Hi) as [v Hv]. rewrite (l_cell _ _ _ _ L _ _ _ Hi Hv). eauto.
Qed.

Lemma links_size {T N} (cell : T -> ptr -> ptr -> N) h l vs : links cell h l vs -> size h = length l.
Proof. intros L. rewrite <- size_dom, (links_dom _ _ _ _ L). apply size_list_to_set, L. Qed.

Lemma links_nil {T N} (cell : T -> ptr -> ptr -> N) h vs : links cell h [] vs -> h = ∅.
Proof. intros L. apply map_empty. intros b. apply (l_none _ _ _ _ L). apply not_elem_of_nil. Qed.

(** ** The single list *)

Section single.
Context {T : Type} `{!Inhabited T}.

Definition scell (v : T) (n _ : ptr) : Node := mkNode v n.
Abbreviation slinks := (links scell).

Lemma link_after h l vs k p e : slinks h l vs -> l !! k = Some p ->
  exists a n h0 h1 h2, new_node (mkNode e None) h = (Some a, h0) /\ deref h0 (Some p) = Ok n /\
    store (set_next (next n)) (Some a) h0 = Ok h1 /\ store (set_next (Some a)) (Some p) h1 = Ok h2 /\
    slinks h2 (insert_at (S k) a l) (insert_at (S k) e vs).
Proof.
  intros L Hp. destruct (links_value _ _ _ _ _ _ L Hp) as [v Hv]. pose proof (l_cell _ _ _ _ L _ _ _ Hp Hv) as Hc. pose proof (links_fresh _ _ _ _ L) as Ha.
  unfold new_node. set (a := fresh (dom h)) in *. assert (a <> p) as Hap by (intros ->; apply Ha; by eapply list_elem_of_lookup_2).
  do 5 eexists. split; [done|]. unfold deref, store. cbn [from_some mbind outcome_bind]. rewrite lookup_insert_ne, Hc by done. split; [done|].
  rewrite lookup_insert_eq. split; [done|]. rewrite insert_insert_eq, lookup_insert_ne, Hc by done. split; [done|].
  eapply linked_insert; [exact L|exact Hp|exact Hv|exact Ha|..].
  - rewrite lookup_insert_ne by done. by rewrite lookup_insert_eq.
  - by rewrite lookup_insert_eq.
  - intros q w Hq Hw. rewrite !lookup_insert_ne; [by rewrite (l_cell _ _ _ _ L _ _ _ Hq Hw)|..].
    + intros <-. apply Ha. by eapply list_elem_of_lookup_2.
    + intros <-. pose proof (links_place _ _ _ _ _ _ _ L Hq Hp). lia.
  - intros b Hb Hbp _. by rewrite !lookup_insert_ne by done.
Qed.

Lemma link_last h l vs k p e : slinks h l vs -> l !! k = Some p -> length l = S k ->
  exists a h0 h1, new_node (mkNode e None) h = (Some a, h0) /\ store (set_next (Some a)) (Some p) h0 = Ok h1 /\
    slinks h1 (insert_at (S k) a l) (insert_at (S k) e vs).
Proof.
  intros L Hp Hl. destruct (link_after h l vs k p e L Hp) as (a & n & h0 & h1 & h2 & E0 & En & E1 & E2 & L2). exists a, h0, h2. split; [done|].
  split; [|done]. destruct (links_value _ _ _ _ _ _ L Hp) as [v Hv]. pose proof (l_cell _ _ _ _ L _ _ _ Hp Hv) as Hc.
  rewrite lookup_ge_None_2 in Hc by lia. injection E0 as <- <-. assert (fresh (dom h) <> p) as Hap.
  { intros <-. apply (links_fresh _ _ _ _ L). by eapply list_elem_of_lookup_2. }
  rewrite <- E2. f_equal. unfold deref in En. cbn [from_some mbind outcome_bind] in En. rewrite lookup_insert_ne, Hc in En by done. injection En as <-.
  unfold store in E1. cbn [from_some mbind outcome_bind] in E1. rewrite lookup_insert_eq in E1. injection E1 as <-. by rewrite insert_insert_eq.
Qed.

Lemma unlink_after h l vs k p x v w : slinks h l vs -> l !! k = Some p -> l !! S k = Some x -> vs !! k = Some v -> vs !! S k = Some w ->
  exists h1 h2, deref h (Some p) = Ok (mkNode v (Some x)) /\ deref h (Some x) = Ok (mkNode w (l !! S (S k))) /\
    store (set_next (l !! S (S k))) (Some p) h = Ok h1 /\ deref h1 (Some x) = Ok (mkNode w (l !! S (S k))) /\ free (Some x) h1 = Ok h2 /\
    slinks h2 (delete (S k) l) (delete (S k) vs).
Proof.
  intros L Hp Hx Hv Hw. pose proof (l_cell _ _ _ _ L _ _ _ Hp Hv) as Hcp. pose proof (l_cell _ _ _ _ L _ _ _ Hx Hw) as Hcx.
  assert (p <> x) as Hpx by (intros <-; pose proof (links_place _ _ _ _ _ _ _ L Hp Hx); lia).
  do 2 eexists. unfold deref, store, free. cbn [from_some mbind outcome_bind]. rewrite Hcp, Hcx, Hx. split; [done|]. split; [done|]. split; [done|].
  rewrite lookup_insert_ne, Hcx by done. split; [done|]. split; [done|]. eapply linked_remove; [exact L|exact Hp|exact Hv|exact Hx|..].
  - by rewrite lookup_delete_eq.
  - rewrite lookup_delete_ne by done. by rewrite lookup_insert_eq.
  - intros q u Hq Hu. rewrite lookup_delete_ne, lookup_insert_ne; [by rewrite (l_cell _ _ _ _ L _ _ _ Hq Hu)|..].
    + intros <-. pose proof (links_place _ _ _ _ _ _ _ L Hq Hp). lia.
    + intros <-. pose proof (links_place _ _ _ _ _ _ _ L Hq Hx). lia.
  - intros b Hb Hbp _. by rewrite lookup_delete_ne, lookup_insert_ne by done.
Qed.

Lemma unlink_last h l vs k p x v w : slinks h l vs -> l !! k = Some p -> l !! S k = Some x -> vs !! k = Some v -> vs !! S k = Some w -> length l = S (S k) ->
  exists h1 h2, deref h (Some x) = Ok (mkNode w None) /\ free (Some x) h = Ok h1 /\ store (set_next None) (Some p) h1 = Ok h2 /\
    slinks h2 (delete (S k) l) (delete (S k) vs).
Proof.
  intros L Hp Hx Hv Hw Hl. destruct (unlink_after h l vs k p x v w L Hp Hx Hv Hw) as (h1 & h2 & _ & Edx & E1 & _ & E2 & L2).
  rewrite lookup_ge_None_2 in * by lia. assert (p <> x) as Hpx by (intros <-; pose proof (links_place _ _ _ _ _ _ _ L Hp Hx); lia).
  pose proof (l_cell _ _ _ _ L _ _ _ Hp Hv) as Hcp. pose proof (l_cell _ _ _ _ L _ _ _ Hx Hw) as Hcx.
  exists (delete x h), h2. split; [done|]. unfold free, store in *. cbn [from_some mbind outcome_bind] in *. rewrite Hcx. split; [done|]. split; [|done].
  rewrite Hcp in E1. injection E1 as <-. rewrite lookup_insert_ne, Hcx in E2 by done. injection E2 as <-. rewrite lookup_delete_ne, Hcp by done. cbn.
  by rewrite delete_insert_ne by done.
Qed.

Lemma before_tail_ok fuel h l vs i k : slinks h l vs -> (i <= k)%nat -> (S k < length l)%nat -> (k - i < fuel)%nat ->
  before_tail fuel h (l !! S k) (l !! i) = Ok (l !! k).
Proof.
  intros L. induction fuel as [|fuel IH] in i |- *; intros Hi Hk Hf; [lia|]. cbn [before_tail].
  destruct (lookup_lt_is_Some_2 vs i) as [v Hv]; [rewrite (l_length _ _ _ _ L); lia|]. rewrite (links_deref _ _ _ _ _ _ L Hv). cbn [mbind outcome_bind next scell].
  destruct (decide (l !! S i = l !! S k)) as [E|Hne].
  - destruct (lookup_lt_is_Some_2 l (S k) Hk) as [a Ha]. rewrite Ha in E. pose proof (links_place _ _ _ _ _ _ _ L E Ha). by replace k with i by lia.
  - destruct (decide (i = k)) as [->|Hik]; [done|]. apply IH; lia.
Qed.

Lemma destroy_ok fuel h l vs : slinks h l vs -> (length l <= fuel)%nat -> destroy fuel (l !! 0%nat) h = Ok ∅.
Proof.
  induction fuel as [|fuel IH] in h, l, vs |- *; intros L Hf.
  - destruct l; [|cbn in Hf; lia]. cbn. by rewrite (links_nil _ _ _ L).
  - destruct l as [|a l]; [cbn; by rewrite (links_nil _ _ _ L)|]. destruct vs as [|v vs]; [by pose proof (l_length _ _ _ _ L)|].
    cbn [lookup list_lookup destroy]. pose proof (l_cell _ _ _ _ L 0%nat a v eq_refl eq_refl) as Hc. unfold deref, free. cbn [from_some mbind outcome_bind]. rewrite Hc.
    cbn [mbind outcome_bind next scell]. change ((a :: l) !! 1%nat) with (l !! 0%nat). apply (IH _ _ vs); [|cbn in Hf; lia].
    pose proof (l_nodup _ _ _ _ L) as Hnd'. apply NoDup_cons in Hnd' as [Ha Hnd]. split; [done|pose proof (l_length _ _ _ _ L) as Hl; cbn in Hl; lia|..].
    + intros b Hb. destruct (decide (b = a)) as [->|Hba]; [apply lookup_delete_eq|]. rewrite lookup_delete_ne by done.
      apply (l_none _ _ _ _ L). rewrite elem_of_cons. tauto.
    + intros i b w Hb Hw. rewrite lookup_delete_ne; [|intros <-; apply Ha; by eapply list_elem_of_lookup_2]. by rewrite (l_cell _ _ _ _ L (S i) b w Hb Hw).
Qed.

(** The list [s] stands for [xs]; its nodes are at [l], the first of them the
    one that [head] points to, which has no element. *)
Record single_at (s : SingleLinkedList) (xs : list T) (l : list addr) (v0 : T) : Prop := {
  sa_links : slinks (nodes s) l (v0 :: xs);
  sa_head : head s = l !! 0%nat;
  sa_tail : tail s = l !! length xs;
  sa_size : size_ s = zlen xs;
}.
Definition single_ok s xs : Prop := exists l v0, single_at s xs l v0.

Lemma single_length s xs l v0 : single_at s xs l v0 -> length l = S (length xs).
Proof. intros A. by rewrite <- (l_length _ _ _ _ (sa_links _ _ _ _ A)). Qed.

Lemma single_addr s xs l v0 k : single_at s xs l v0 -> (k <= length xs)%nat -> exists p, l !! k = Some p.
Proof. intros A Hk. apply lookup_lt_is_Some_2. rewrite (single_length _ _ _ _ A). lia. Qed.

Lemma single_inserted s xs l v0 k a e h : single_at s xs l v0 -> (k <= length xs)%nat ->
  slinks h (insert_at (S k) a l) (insert_at (S k) e (v0 :: xs)) ->
  single_ok (mkSingle (head s) (if decide (k = length xs) then Some a else tail s) (size_ s + 1) h) (insert_at k e xs).
Proof.
  intros A Hk L. pose proof (single_length _ _ _ _ A) as Hl. exists (insert_at (S k) a l), v0. split; cbn [nodes head tail size_].
  - exact L.
  - rewrite (sa_head _ _ _ _ A). by rewrite lookup_insert_at_lt by lia.
  - rewrite length_insert_at by done. case_decide as Hkl.
    + subst k. by rewrite lookup_insert_at_eq by lia.
    + rewrite lookup_insert_at_gt by lia. apply A.
  - rewrite (sa_size _ _ _ _ A). unfold zlen. rewrite length_insert_at by done. lia.
Qed.

Lemma single_removed s xs l v0 k h : single_at s xs l v0 -> (k < length xs)%nat ->
  slinks h (delete (S k) l) (delete (S k) (v0 :: xs)) ->
  single_ok (mkSingle (head s) (if decide (S k = length xs) then l !! k else tail s) (size_ s - 1) h) (delete k xs).
Proof.
  intros A Hk L. pose proof (single_length _ _ _ _ A) as Hl. assert (length (delete k xs) = pred (length xs)) as Hld.
  { rewrite length_delete by (by apply lookup_lt_is_Some_2). lia. }
  exists (delete (S k) l), v0. split; cbn [nodes head tail size_].
  - exact L.
  - rewrite (sa_head _ _ _ _ A). by rewrite list_lookup_delete_lt by lia.
  - rewrite Hld. case_decide as Hkl.
    + rewrite list_lookup_delete_lt by lia. f_equal. lia.
    + rewrite list_lookup_delete_ge by lia. rewrite (sa_tail _ _ _ _ A). f_equal. lia.
  - rewrite (sa_size _ _ _ _ A). unfold zlen. rewrite Hld. lia.
Qed.

Lemma new_single_ok : single_ok new_SingleLinkedList [].
Proof.
  unfold new_SingleLinkedList, new_node. set (a := fresh (dom ∅)). exists [a], inhabitant. split; [|done|done|done].
  cbn [nodes]. split; [apply NoDup_singleton|done|..].
  - intros b Hb. rewrite lookup_insert_ne; [apply lookup_empty|]. intros ->. apply Hb. left.
  - intros [|[|i]] b v; [|done|done]. intros [= <-] [= <-]. by rewrite lookup_insert_eq.
Qed.

Lemma addFirst_ok s xs e : single_ok s xs -> zlen xs + 1 < 2 ^ 31 -> exists s', addFirst e s = Ok (s', Done) /\ single_ok s' (insert_at 0 e xs).
Proof.
  intros (l & v0 & A) Hn. destruct (single_addr _ _ _ _ 0 A ltac:(lia)) as [p Hp].
  destruct (link_after _ _ _ _ _ e (sa_links _ _ _ _ A) Hp) as (a & n & h0 & h1 & h2 & E0 & En & E1 & E2 & L). unfold addFirst. rewrite E0, (sa_head _ _ _ _ A), Hp, En.
  cbn [mbind outcome_bind]. rewrite E1. cbn [mbind outcome_bind]. rewrite E2. cbn [mbind outcome_bind]. pose proof (zlen_nonneg xs).
  rewrite (sa_size _ _ _ _ A). rewrite ints_ok by (repeat constructor; lia). cbn [mbind outcome_bind]. eexists. split; [done|].
  pose proof (single_inserted s xs l v0 0 a e h2 A ltac:(lia) L) as H'. rewrite (sa_head _ _ _ _ A), Hp, (sa_size _ _ _ _ A) in H'.
  replace (zlen xs =? 0) with (bool_decide (0%nat = length xs)); [by case_bool_decide; case_decide|].
  unfold zlen. case_bool_decide; symmetry; [apply Z.eqb_eq|apply Z.eqb_neq]; lia.
Qed.

Lemma addLast_ok s xs e : single_ok s xs -> zlen xs + 1 < 2 ^ 31 -> exists s', addLast e s = Ok (s', Done) /\ single_ok s' (insert_at (length xs) e xs).
Proof.
  intros (l & v0 & A) Hn. destruct (single_addr _ _ _ _ (length xs) A ltac:(lia)) as [p Hp].
  destruct (link_last _ _ _ _ _ e (sa_links _ _ _ _ A) Hp (single_length _ _ _ _ A)) as (a & h0 & h1 & E0 & E1 & L).
  unfold addLast. rewrite E0, (sa_tail _ _ _ _ A), Hp, E1. cbn [mbind outcome_bind]. pose proof (zlen_nonneg xs).
  rewrite (sa_size _ _ _ _ A). rewrite ints_ok by (repeat constructor; lia). cbn [mbind outcome_bind]. eexists. split; [done|].
  pose proof (single_inserted s xs l v0 (length xs) a e h1 A ltac:(lia) L) as H'. rewrite (sa_size _ _ _ _ A), decide_True in H' by done. exact H'.
Qed.

Lemma position_spec i n : isPositionIndex i n = true <-> 0 <= i <= n.
Proof. unfold isPositionIndex. rewrite andb_true_iff, !Z.leb_le. done. Qed.
Lemma element_spec i n : isElementIndex i n = true <-> 0 <= i < n.
Proof. unfold isElementIndex. rewrite andb_true_iff, Z.leb_le, Z.ltb_lt. done. Qed.

Lemma single_walk s xs l v0 k : single_at s xs l v0 -> (k <= length xs)%nat -> walk next k (nodes s) (head s) = Ok (l !! k).
Proof.
  intros A Hk. rewrite (sa_head _ _ _ _ A). apply (links_walk scell _ _ (v0 :: xs)); [done|apply A|]. rewrite (single_length _ _ _ _ A). lia.
Qed.

Lemma add_ok_single s xs i e : single_ok s xs -> zlen xs + 1 < 2 ^ 31 -> 0 <= i <= zlen xs ->
  exists s', add i e s = Ok (s', Done) /\ single_ok s' (insert_at (Z.to_nat i) e xs).
Proof.
  intros Hs Hn Hi. pose proof Hs as (l & v0 & A). unfold add. rewrite (sa_size _ _ _ _ A), (proj2 (position_spec i _)) by done. cbn [negb].
  destruct (Z.eqb_spec i (zlen xs)) as [->|Hne].
  { unfold zlen. rewrite Nat2Z.id. by apply addLast_ok. }
  assert (Z.to_nat i < length xs)%nat as Hk by (unfold zlen in *; lia). rewrite (single_walk _ _ _ _ _ A) by lia. cbn [mbind outcome_bind].
  destruct (single_addr _ _ _ _ (Z.to_nat i) A ltac:(lia)) as [p Hp].
  destruct (link_after _ _ _ _ _ e (sa_links _ _ _ _ A) Hp) as (a & n & h0 & h1 & h2 & E0 & En & E1 & E2 & L). rewrite E0, Hp, En.
  cbn [mbind outcome_bind]. rewrite E1. cbn [mbind outcome_bind]. rewrite E2. cbn [mbind outcome_bind].
  rewrite ints_ok by (repeat constructor; lia). cbn [mbind outcome_bind]. eexists. split; [done|].
  pose proof (single_inserted s xs l v0 (Z.to_nat i) a e h2 A ltac:(lia) L) as H'. rewrite (sa_size _ _ _ _ A), decide_False in H' by lia. exact H'.
Qed.

Lemma removeFirst_ok s xs x : single_ok s xs -> xs !! 0%nat = Some x -> exists s', removeFirst s = Ok (s', Value x) /\ single_ok s' (delete 0%nat xs).
Proof.
  intros (l & v0 & A) Hx. pose proof (lookup_lt_Some _ _ _ Hx) as Hl.
  destruct (single_addr _ _ _ _ 0 A ltac:(lia)) as [p Hp]. destruct (single_addr _ _ _ _ 1 A ltac:(lia)) as [q Hq].
  destruct (unlink_after _ _ _ _ _ _ v0 x (sa_links _ _ _ _ A) Hp Hq eq_refl Hx) as (h1 & h2 & E0 & E1 & E2 & E3 & E4 & L).
  unfold removeFirst. rewrite (sa_size _ _ _ _ A), (proj2 (Z.eqb_neq _ _)) by (unfold zlen; lia). rewrite (sa_head _ _ _ _ A), Hp, E0. cbn [mbind outcome_bind next].
  rewrite E1. cbn [mbind outcome_bind next]. rewrite E2. cbn [mbind outcome_bind]. rewrite E3. cbn [mbind outcome_bind]. rewrite E4. cbn [mbind outcome_bind val].
  eexists. split; [done|]. pose proof (single_removed s xs l v0 0 h2 A Hl L) as H'. rewrite (sa_size _ _ _ _ A), (sa_head _ _ _ _ A), Hp in H'.
  replace (zlen xs =? 1) with (bool_decide (1%nat = length xs)); [by case_bool_decide; case_decide|].
  unfold zlen. case_bool_decide; symmetry; [apply Z.eqb_eq|apply Z.eqb_neq]; lia.
Qed.

Lemma removeLast_ok s xs k x : single_ok s xs -> xs !! k = Some x -> length xs = S k -> exists s', removeLast s = Ok (s', Value x) /\ single_ok s' (delete k xs).
Proof.
  intros (l & v0 & A) Hx Hl. pose proof (single_length _ _ _ _ A) as Hll.
  destruct (single_addr _ _ _ _ k A ltac:(lia)) as [p Hp]. destruct (single_addr _ _ _ _ (S k) A ltac:(lia)) as [q Hq].
  destruct (links_value _ _ _ _ _ _ (sa_links _ _ _ _ A) Hp) as [v Hv].
  destruct (unlink_last _ _ _ _ _ _ v x (sa_links _ _ _ _ A) Hp Hq Hv Hx) as (h1 & h2 & E0 & E1 & E2 & L); [lia|].
  unfold removeLast. rewrite (sa_size _ _ _ _ A), (proj2 (Z.eqb_neq _ _)) by (unfold zlen; lia). rewrite (sa_head _ _ _ _ A), (sa_tail _ _ _ _ A), Hl.
  rewrite (before_tail_ok _ _ l (v0 :: xs) 0 k); [|apply A|lia|lia|rewrite (links_size _ _ _ _ (sa_links _ _ _ _ A)); lia]. cbn [mbind outcome_bind].
  rewrite Hq, E0. cbn [mbind outcome_bind]. rewrite E1. cbn [mbind outcome_bind]. rewrite Hp, E2. cbn [mbind outcome_bind val].
  eexists. split; [done|]. pose proof (single_removed s xs l v0 k h2 A ltac:(lia) L) as H'. rewrite (sa_size _ _ _ _ A), (sa_head _ _ _ _ A), decide_True, Hp in H' by done. exact H'.
Qed.

Lemma remove_ok_single s xs i x : single_ok s xs -> 0 <= i -> xs !! Z.to_nat i = Some x -> exists s', remove i s = Ok (s', Value x) /\ single_ok s' (delete (Z.to_nat i) xs).
Proof.
  intros (l & v0 & A) Hi Hx. pose proof (lookup_lt_Some _ _ _ Hx) as Hl.
  destruct (single_addr _ _ _ _ (Z.to_nat i) A ltac:(lia)) as [p Hp]. destruct (single_addr _ _ _ _ (S (Z.to_nat i)) A ltac:(lia)) as [q Hq].
  destruct (links_value _ _ _ _ _ _ (sa_links _ _ _ _ A) Hp) as [v Hv].
  destruct (unlink_after _ _ _ _ _ _ v x (sa_links _ _ _ _ A) Hp Hq Hv Hx) as (h1 & h2 & E0 & E1 & E2 & E3 & E4 & L).
  unfold remove. rewrite (sa_size _ _ _ _ A), (proj2 (element_spec i _)) by (unfold zlen; lia). cbn [negb].
  rewrite (single_walk _ _ _ _ _ A), Hp by lia. cbn [mbind outcome_bind]. rewrite E0. cbn [mbind outcome_bind next].
  rewrite E1. cbn [mbind outcome_bind next]. rewrite E2. cbn [mbind outcome_bind]. rewrite E3. cbn [mbind outcome_bind]. rewrite E4. cbn [mbind outcome_bind val].
  eexists. split; [done|]. pose proof (single_removed s xs l v0 (Z.to_nat i) h2 A Hl L) as H'. rewrite (sa_size _ _ _ _ A), Hp in H'.
  replace (i =? zlen xs - 1) with (bool_decide (S (Z.to_nat i) = length xs)); [by case_bool_decide; case_decide|].
  unfold zlen. case_bool_decide; symmetry; [apply Z.eqb_eq|apply Z.eqb_neq]; lia.
Qed.

Lemma getNode_ok s xs l v0 i : single_at s xs l v0 -> 0 <= i < zlen xs -> getNode i s = Ok (l !! S (Z.to_nat i)).
Proof.
  intros A Hi. unfold getNode. rewrite (sa_head _ _ _ _ A), (links_deref scell _ l (v0 :: xs) 0 v0) by (done || apply A). cbn [mbind outcome_bind next scell].
  apply (links_walk scell _ _ (v0 :: xs)); [done|apply A|]. rewrite (single_length _ _ _ _ A). unfold zlen in Hi. lia.
Qed.

Lemma single_deref s xs l v0 k x : single_at s xs l v0 -> xs !! k = Some x -> deref (nodes s) (l !! S k) = Ok (mkNode x (l !! S (S k))).
Proof. intros A Hx. by apply (links_deref scell _ l (v0 :: xs) (S k) x (sa_links _ _ _ _ A)). Qed.
End single.

(** ** The specification by cases

    [list_call] with every change as an insertion or deletion at an index. *)
Section steps.
Context {T : Type} `{!Inhabited T}.
Implicit Types xs : list T.

Inductive list_step xs : call T -> list T -> reply T -> Prop :=
| step_add_first e : list_step xs (AddFirst e) (insert_at 0 e xs) Done
| step_add_last e : list_step xs (AddLast e) (insert_at (length xs) e xs) Done
| step_add i e : 0 <= i <= zlen xs -> list_step xs (Add i e) (insert_at (Z.to_nat i) e xs) Done
| step_add_out i e : ~ 0 <= i <= zlen xs -> list_step xs (Add i e) xs Threw
| step_remove_first x : xs !! 0%nat = Some x -> list_step xs RemoveFirst (delete 0%nat xs) (Value x)
| step_remove_last k x : xs !! k = Some x -> length xs = S k -> list_step xs RemoveLast (delete k xs) (Value x)
| step_remove i x : 0 <= i -> xs !! Z.to_nat i = Some x -> list_step xs (Remove i) (delete (Z.to_nat i) xs) (Value x)
| step_remove_out i : ~ 0 <= i < zlen xs -> list_step xs (Remove i) xs Threw
| step_get_first x : xs !! 0%nat = Some x -> list_step xs GetFirst xs (Value x)
| step_get_last k x : xs !! k = Some x -> length xs = S k -> list_step xs GetLast xs (Value x)
| step_none c : xs = [] -> c ∈ [RemoveFirst; RemoveLast; GetFirst; GetLast] -> list_step xs c xs Threw
| step_get i x : 0 <= i -> xs !! Z.to_nat i = Some x -> list_step xs (Get i) xs (Value x)
| step_get_out i : ~ 0 <= i < zlen xs -> list_step xs (Get i) xs Threw
| step_put i x e : 0 <= i -> xs !! Z.to_nat i = Some x -> list_step xs (Put i e) (<[Z.to_nat i := e]> xs) (Value x)
| step_put_out i e : ~ 0 <= i < zlen xs -> list_step xs (Put i e) xs Threw
| step_size : list_step xs Size xs (Count (zlen xs))
| step_empty : list_step xs IsEmpty xs (Is (zlen xs =? 0)).

Lemma index_cases xs i : (0 <= i /\ exists x, xs !! Z.to_nat i = Some x) \/
  (~ 0 <= i < zlen xs /\ (if 0 <=? i then xs !! Z.to_nat i else None) = None /\ (0 <= i -> (length xs <= Z.to_nat i)%nat)).
Proof.
  destruct (Z.leb_spec 0 i) as [Hi|Hi]; [|right; split; [lia|split; [done|lia]]].
  destruct (xs !! Z.to_nat i) as [x|] eqn:E; [left; split; [done|by exists x]|right].
  apply lookup_ge_None in E. unfold zlen. split; [lia|split; [done|lia]].
Qed.

Lemma end_cases xs : xs = [] \/ exists k x, xs !! k = Some x /\ length xs = S k /\ last xs = Some x /\ removelast xs = delete k xs.
Proof.
  destruct xs as [|y xs _] using rev_ind; [by left|right]. exists (length xs), y. rewrite length_app. cbn [length]. split; [by apply list_lookup_middle|].
  split; [lia|]. split; [apply last_snoc|]. rewrite removelast_last, delete_take_drop, take_app_length, drop_ge by (rewrite length_app; cbn; lia). by rewrite app_nil_r.
Qed.

Lemma list_call_step xs c : list_step xs c (list_call xs c).1 (list_call xs c).2.
Proof.
  destruct c as [e|e|i e| | |i| | |i|i e| |]; cbn [list_call fst snd].
  - apply (step_add_first xs).
  - rewrite <- insert_at_end. constructor.
  - destruct (isPositionIndex i (zlen xs)) eqn:E; cbn [fst snd].
    + apply step_add. by apply position_spec.
    + apply step_add_out. rewrite <- position_spec. by rewrite E.
  - destruct xs as [|x xs]; [apply step_none; [done|by left]|]. by apply (step_remove_first (x :: xs)).
  - destruct (end_cases xs) as [->|(k & x & Hx & Hl & -> & ->)]; [apply step_none; [done|by right; left]|by apply step_remove_last].
  - destruct (index_cases xs i) as [[Hi [x Hx]]|(Hi & -> & Hd)]; [rewrite (proj2 (Z.leb_le _ _)), Hx by done; by apply step_remove|].
    destruct (Z.leb_spec 0 i); [rewrite delete_take_drop, take_ge, drop_ge, app_nil_r by lia|]; by apply step_remove_out.
  - destruct xs as [|x xs]; [apply step_none; [done|by do 2 right; left]|]. by apply step_get_first.
  - destruct (end_cases xs) as [->|(k & x & Hx & Hl & -> & _)]; [apply step_none; [done|by do 3 right; left]|by eapply step_get_last].
  - destruct (index_cases xs i) as [[Hi [x Hx]]|(Hi & -> & _)]; [rewrite (proj2 (Z.leb_le _ _)), Hx by done; by apply step_get|by apply step_get_out].
  - destruct (index_cases xs i) as [[Hi [x Hx]]|(Hi & -> & Hd)]; [rewrite (proj2 (Z.leb_le _ _)), Hx by done; by apply step_put|].
    destruct (Z.leb_spec 0 i); [rewrite list_insert_ge by lia|]; by apply step_put_out.
  - constructor.
  - replace (bool_decide (xs = [])) with (zlen xs =? 0); [constructor|]. destruct xs; [done|]. rewrite zlen_cons. pose proof (zlen_nonneg xs). cbn [bool_decide]. 
    rewrite bool_decide_false by done. apply Z.eqb_neq. lia.
Qed.

Lemma list_step_length xs c xs' r : list_step xs c xs' r -> zlen xs' <= zlen xs + 1.
Proof.
  unfold zlen. inversion 1; subst; rewrite ?length_insert; rewrite ?length_insert_at by (unfold zlen in *; lia); try lia;
    rewrite length_delete by (by apply lookup_lt_is_Some_2; eapply lookup_lt_Some); lia.
Qed.

(** A list that does every step answers every sequence of calls. *)
Lemma run_calls_list {S} (ok : S -> list T -> Prop) (step : S -> call T -> outcome (S * reply T)) :
  (forall s xs c xs' r, ok s xs -> zlen xs + 1 < 2 ^ 31 -> list_step xs c xs' r -> exists s', step s c = Ok (s', r) /\ ok s' xs') ->
  forall cs s xs, ok s xs -> zlen xs + zlen cs < 2 ^ 31 -> exists s' xs', run_calls step s cs = Ok (s', list_calls xs cs) /\ ok s' xs'.
Proof.
  intros Hstep. induction cs as [|c cs IH]; intros s xs Hs Hn; [by exists s, xs|]. rewrite zlen_cons in Hn. pose proof (zlen_nonneg cs).
  pose proof (list_call_step xs c) as Hc. cbn [run_calls list_calls]. destruct (list_call xs c) as [xs' r]. cbn [fst snd] in Hc.
  destruct (Hstep s xs c xs' r Hs ltac:(lia) Hc) as (s' & -> & Hs'). cbn [mbind outcome_bind]. pose proof (list_step_length _ _ _ _ Hc).
  destruct (IH s' xs' Hs' ltac:(lia)) as (s2 & xs2 & -> & H2). by exists s2, xs2.
Qed.

Lemma single_step_ok s xs c xs' r : single_ok s xs -> zlen xs + 1 < 2 ^ 31 -> list_step xs c xs' r ->
  exists s', single_call s c = Ok (s', r) /\ single_ok s' xs'.
Proof.
  intros Hs Hn Hc. pose proof Hs as (l & v0 & A). pose proof (sa_size _ _ _ _ A) as Hz.
  assert (forall i, ~ 0 <= i < zlen xs -> isElementIndex i (size_ s) = false) as Hout
    by (intros i Hi; apply not_true_iff_false; by rewrite element_spec, Hz).
  assert (forall i x, 0 <= i -> xs !! Z.to_nat i = Some x -> 0 <= i < zlen xs) as Hin
    by (intros i x Hi Hx; apply lookup_lt_Some in Hx; unfold zlen; lia).
  destruct Hc; cbn [single_call].
  - by apply addFirst_ok.
  - by apply addLast_ok.
  - by apply add_ok_single.
  - exists s. unfold add. rewrite Hz. destruct (isPositionIndex i (zlen xs)) eqn:E; [by apply position_spec in E|done].
  - by apply removeFirst_ok.
  - by apply removeLast_ok.
  - by apply remove_ok_single.
  - exists s. unfold remove. by rewrite Hout.
  - exists s. split; [|done]. unfold observe, getFirst. rewrite Hz, (proj2 (Z.eqb_neq _ _)) by (apply lookup_lt_Some in H; unfold zlen; lia).
    rewrite (sa_head _ _ _ _ A), (links_deref scell _ l (v0 :: xs) 0 v0) by (done || apply A). cbn [mbind outcome_bind next scell].
    by rewrite (single_deref _ _ _ _ _ _ A H).
  - exists s. split; [|done]. unfold observe, getLast. rewrite Hz, (proj2 (Z.eqb_neq _ _)) by (unfold zlen; lia). rewrite (sa_tail _ _ _ _ A), H0.
    by rewrite (single_deref _ _ _ _ _ _ A H).
  - subst xs. exists s. split; [|done]. rewrite !elem_of_cons in H0. unfold removeFirst, removeLast, observe, getFirst, getLast.
    destruct H0 as [->|[->|[->|[->|[]%not_elem_of_nil]]]]; cbn [single_call]; unfold removeFirst, removeLast, observe, getFirst, getLast; by rewrite Hz.
  - exists s. split; [|done]. unfold observe, get. rewrite Hz, (proj2 (element_spec _ _)) by eauto. cbn [negb]. rewrite (getNode_ok _ _ _ _ _ A) by eauto.
    cbn [mbind outcome_bind]. by rewrite (single_deref _ _ _ _ _ _ A H0).
  - exists s. split; [|done]. unfold observe, get. by rewrite Hout.
  - unfold set. rewrite Hz, (proj2 (element_spec _ _)) by eauto. cbn [negb]. rewrite (getNode_ok _ _ _ _ _ A) by eauto.
    cbn [mbind outcome_bind]. rewrite (single_deref _ _ _ _ _ _ A H0). cbn [mbind outcome_bind].
    destruct (single_addr _ _ _ _ (S (Z.to_nat i)) A) as [p Hp]; [apply lookup_lt_Some in H0; lia|]. rewrite Hp. unfold store. cbn [from_some mbind outcome_bind].
    rewrite (l_cell _ _ _ _ (sa_links _ _ _ _ A) _ _ x Hp H0). cbn [from_some mbind outcome_bind]. eexists. split; [done|]. exists l, v0. split; cbn [nodes head tail size_].
    + by apply (linked_set scell (nodes s) l (v0 :: xs) (S (Z.to_nat i)) p x e _ (sa_links _ _ _ _ A) Hp H0).
    + apply A.
    + rewrite length_insert. apply A.
    + unfold zlen. rewrite length_insert. done.
  - exists s. unfold set. by rewrite Hout.
  - exists s. by rewrite Hz.
  - exists s. by rewrite Hz.
Qed.

Lemma single_life_ok (cs : list (call T)) : zlen cs < 2 ^ 31 -> single_life cs = Ok (list_calls [] cs, ∅).
Proof.
  intros Hn. unfold single_life. destruct (run_calls_list single_ok single_call single_step_ok cs new_SingleLinkedList [] new_single_ok Hn) as (s & xs & -> & l & v0 & A).
  cbn [mbind outcome_bind]. unfold delete_single. rewrite (sa_head _ _ _ _ A), (destroy_ok _ _ l (v0 :: xs)); [done|apply A|].
  by rewrite (links_size _ _ _ _ (sa_links _ _ _ _ A)).
Qed.
End steps.

(** ** The double list *)

Ltac look := repeat first
  [rewrite lookup_insert_eq | rewrite lookup_insert_ne by (assumption || (apply not_eq_sym; assumption))
  |rewrite lookup_delete_eq | rewrite lookup_delete_ne by (assumption || (apply not_eq_sym; assumption))].

Section pointers.
Context {N : Type}.
Implicit Types h : gmap addr N.

Lemma new_node_eq n h : new_node n h = (Some (fresh (dom h)), <[fresh (dom h) := n]> h).
Proof. done. Qed.
Lemma deref_ok h a n : h !! a = Some n -> deref h (Some a) = Ok n.
Proof. intros E. unfold deref. cbn. by rewrite E. Qed.
Lemma store_ok f a h n : h !! a = Some n -> store f (Some a) h = Ok (<[a := f n]> h).
Proof. intros E. unfold store. cbn. by rewrite E. Qed.
Lemma free_ok a h n : h !! a = Some n -> free (Some a) h = Ok (delete a h).
Proof. intros E. unfold free. cbn. by rewrite E. Qed.
End pointers.

(** Follows one pointer whose node is known. *)
Ltac follow := (erewrite deref_ok || erewrite store_ok || erewrite free_ok); [|look; (eassumption || reflexivity)];
  cbn [mbind outcome_bind dnext dprev dval set_dnext set_dprev set_dval].

Section double.
Context {T : Type} `{!Inhabited T}.

Definition dcell (v : T) (n p : ptr) : DNode := mkDNode v n p.
Abbreviation dlinks := (links dcell).

Record double_at (s : DoubleLinkedList) (xs : list T) (l : list addr) (v0 v1 : T) : Prop := {
  da_links : dlinks (dnodes s) l (v0 :: xs ++ [v1]);
  da_head : dhead s = l !! 0%nat;
  da_tail : dtail s = l !! S (length xs);
  da_size : dsize s = zlen xs;
}.
Definition double_ok s xs : Prop := exists l v0 v1, double_at s xs l v0 v1.

(** Two neighbours, the [k]th node and the next. *)
Record pair_at (h : gmap addr DNode) (l : list addr) (vs : list T) (k : nat) (p q : addr) (v w : T) : Prop := {
  pa_first : l !! k = Some p;
  pa_second : l !! S k = Some q;
  pa_v : vs !! k = Some v;
  pa_w : vs !! S k = Some w;
  pa_p : h !! p = Some (mkDNode v (Some q) (before l k));
  pa_q : h !! q = Some (mkDNode w (l !! S (S k)) (Some p));
  pa_ne : p <> q;
}.

Lemma pair_exists h l vs k : dlinks h l vs -> (S k < length l)%nat -> exists p q v w, pair_at h l vs k p q v w.
Proof.
  intros L Hk. destruct (lookup_lt_is_Some_2 l k ltac:(lia)) as [p Hp]. destruct (lookup_lt_is_Some_2 l (S k) Hk) as [q Hq].
  destruct (links_value _ _ _ _ _ _ L Hp) as [v Hv]. destruct (links_value _ _ _ _ _ _ L Hq) as [w Hw]. exists p, q, v, w.
  pose proof (l_cell _ _ _ _ L _ _ _ Hp Hv) as Ep. pose proof (l_cell _ _ _ _ L _ _ _ Hq Hw) as Eq. rewrite Hq in Ep. cbn [before] in Eq. rewrite Hp in Eq.
  split; try done. intros ->. pose proof (links_place _ _ _ _ _ _ _ L Hp Hq). lia.
Qed.

Lemma double_length s xs l v0 v1 : double_at s xs l v0 v1 -> length l = S (S (length xs)).
Proof. intros A. rewrite <- (l_length _ _ _ _ (da_links _ _ _ _ _ A)). cbn. rewrite length_app. cbn. lia. Qed.

(** A new node between two neighbours. *)
Lemma double_inserted s xs l v0 v1 k p q v w a e h hd tl n : double_at s xs l v0 v1 -> hd = l !! 0%nat -> tl = l !! S (length xs) -> n = zlen xs + 1 -> pair_at (dnodes s) l (v0 :: xs ++ [v1]) k p q v w -> a ∉ l ->
  h !! a = Some (mkDNode e (Some q) (Some p)) -> h !! p = Some (mkDNode v (Some a) (before l k)) -> h !! q = Some (mkDNode w (l !! S (S k)) (Some a)) ->
  (forall b, b <> a -> b <> p -> b <> q -> h !! b = dnodes s !! b) ->
  double_ok (mkDouble hd tl n h) (insert_at k e xs).
Proof.
  intros A -> -> -> P Ha Ea Ep Eq Hsame. pose proof (double_length _ _ _ _ _ A) as Hl.
  assert (S k < length l)%nat as Hk by (by eapply lookup_lt_Some, pa_second).
  exists (insert_at (S k) a l), v0, v1. split; cbn [dnodes dhead dtail dsize].
  - rewrite <- insert_at_app, <- insert_at_cons by lia.
    apply (linked_insert dcell (dnodes s) l (v0 :: xs ++ [v1]) k p v a e h (da_links _ _ _ _ _ A) (pa_first _ _ _ _ _ _ _ _ P) (pa_v _ _ _ _ _ _ _ _ P) Ha).
    + by rewrite Ea, (pa_second _ _ _ _ _ _ _ _ P).
    + done.
    + intros q' w' Hq' Hw'. rewrite (pa_second _ _ _ _ _ _ _ _ P) in Hq'. rewrite (pa_w _ _ _ _ _ _ _ _ P) in Hw'. by simplify_eq.
    + intros b Hba Hbp Hbq. apply Hsame; [done|done|]. intros ->. apply Hbq, (pa_second _ _ _ _ _ _ _ _ P).
  - by rewrite lookup_insert_at_lt by lia.
  - by rewrite length_insert_at, lookup_insert_at_gt by lia.
  - unfold zlen. rewrite length_insert_at by lia. lia.
Qed.

(** The [k]th element is taken out from between its neighbours. *)
Lemma double_removed s xs l v0 v1 k p x q v w u h hd tl n : double_at s xs l v0 v1 -> hd = l !! 0%nat -> tl = l !! S (length xs) -> n = zlen xs - 1 ->
  pair_at (dnodes s) l (v0 :: xs ++ [v1]) k p x v w -> pair_at (dnodes s) l (v0 :: xs ++ [v1]) (S k) x q w u ->
  h !! x = None -> h !! p = Some (mkDNode v (Some q) (before l k)) -> h !! q = Some (mkDNode u (l !! S (S (S k))) (Some p)) ->
  (forall b, b <> x -> b <> p -> b <> q -> h !! b = dnodes s !! b) ->
  double_ok (mkDouble hd tl n h) (delete k xs) /\ xs !! k = Some w.
Proof.
  intros A -> -> -> P Q Ex Ep Eq Hsame. pose proof (double_length _ _ _ _ _ A) as Hl. destruct P as [Pp Px Pv Pw _ _ _]. destruct Q as [_ Qq _ Qu _ _ _].
  assert (S (S k) < length l)%nat as Hk by (by eapply lookup_lt_Some).
  assert (xs !! k = Some w) as Hw by (change ((xs ++ [v1]) !! k = Some w) in Pw; by rewrite lookup_app_l in Pw by lia). split; [|done].
  assert (length (delete k xs) = pred (length xs)) as Hld by (rewrite length_delete by (apply lookup_lt_is_Some_2; lia); lia).
  exists (delete (S k) l), v0, v1. split; cbn [dnodes dhead dtail dsize].
  - change (v0 :: delete k xs ++ [v1]) with ((v0 :: delete k xs) ++ [v1]). assert (delete (S k) (v0 :: xs ++ [v1]) = (v0 :: delete k xs) ++ [v1]) as <-.
    { cbn [delete list_delete app]. f_equal. apply delete_app. lia. }
    apply (linked_remove dcell (dnodes s) l (v0 :: xs ++ [v1]) k p v x h (da_links _ _ _ _ _ A) Pp Pv Px Ex).
    + by rewrite Qq.
    + intros q' u' Hq' Hu'. rewrite Qq in Hq'. rewrite Qu in Hu'. by simplify_eq.
    + intros b Hbx Hbp Hbq. apply Hsame; [done|done|]. intros ->. by apply Hbq.
  - by rewrite list_lookup_delete_lt by lia.
  - rewrite Hld, list_lookup_delete_ge by lia. f_equal. lia.
  - unfold zlen. rewrite Hld. lia.
Qed.

(** The node [d_getNode] finds. *)
Lemma double_walk s xs l v0 v1 i : double_at s xs l v0 v1 -> 0 <= i < zlen xs -> d_getNode i s = Ok (l !! S (Z.to_nat i)).
Proof.
  intros A Hi. unfold d_getNode. rewrite (da_head _ _ _ _ _ A), (links_deref dcell _ l (v0 :: xs ++ [v1]) 0 v0) by (done || apply A). cbn [mbind outcome_bind dnext dcell].
  apply (links_walk dcell _ _ (v0 :: xs ++ [v1])); [done|apply A|]. rewrite (double_length _ _ _ _ _ A). unfold zlen in Hi. lia.
Qed.

Lemma double_fresh s xs l v0 v1 k p q v w : double_at s xs l v0 v1 -> pair_at (dnodes s) l (v0 :: xs ++ [v1]) k p q v w ->
  let a := fresh (dom (dnodes s)) in (a ∉ l) /\ a <> p /\ a <> q.
Proof.
  intros A P a. pose proof (links_fresh _ _ _ _ (da_links _ _ _ _ _ A)) as Ha. fold a in Ha. split; [done|].
  split; intros E; apply Ha; rewrite E; eapply list_elem_of_lookup_2; apply P.
Qed.

Lemma d_addFirst_ok s xs e : double_ok s xs -> zlen xs + 1 < 2 ^ 31 -> exists s', d_addFirst e s = Ok (s', Done) /\ double_ok s' (insert_at 0 e xs).
Proof.
  intros (l & v0 & v1 & A) Hn. destruct (pair_exists _ _ _ 0 (da_links _ _ _ _ _ A)) as (p & q & v & w & P); [rewrite (double_length _ _ _ _ _ A); lia|].
  destruct (double_fresh _ _ _ _ _ _ _ _ _ _ A P) as (Ha & Hap & Haq). pose proof P as [Pp Pq _ _ Hp Hq Hpq]. pose proof (zlen_nonneg xs).
  unfold d_addFirst. rewrite new_node_eq. set (a := fresh (dom (dnodes s))) in *. rewrite (da_head _ _ _ _ _ A), Pp. do 5 follow. rewrite (da_size _ _ _ _ _ A).
  rewrite ints_ok by (repeat constructor; lia). cbn [mbind outcome_bind]. eexists. split; [done|].
  apply (double_inserted s xs l v0 v1 0 p q v w a e); [done|done|apply A|done|done|done|by look|by look|by look|]. intros b Hba Hbp Hbq. by look.
Qed.

Lemma d_addLast_ok s xs e : double_ok s xs -> zlen xs + 1 < 2 ^ 31 -> exists s', d_addLast e s = Ok (s', Done) /\ double_ok s' (insert_at (length xs) e xs).
Proof.
  intros (l & v0 & v1 & A) Hn. destruct (pair_exists _ _ _ (length xs) (da_links _ _ _ _ _ A)) as (p & q & v & w & P); [rewrite (double_length _ _ _ _ _ A); lia|].
  destruct (double_fresh _ _ _ _ _ _ _ _ _ _ A P) as (Ha & Hap & Haq). pose proof P as [Pp Pq _ _ Hp Hq Hpq]. pose proof (zlen_nonneg xs).
  unfold d_addLast. rewrite new_node_eq. set (a := fresh (dom (dnodes s))) in *. rewrite (da_tail _ _ _ _ _ A), Pq. do 5 follow. rewrite (da_size _ _ _ _ _ A).
  rewrite ints_ok by (repeat constructor; lia). cbn [mbind outcome_bind]. eexists. split; [done|].
  apply (double_inserted s xs l v0 v1 (length xs) p q v w a e); [done|apply A|done|done|done|done|by look|by look|by look|]. intros b Hba Hbp Hbq. by look.
Qed.

Lemma d_add_ok s xs i e : double_ok s xs -> zlen xs + 1 < 2 ^ 31 -> 0 <= i <= zlen xs ->
  exists s', d_add i e s = Ok (s', Done) /\ double_ok s' (insert_at (Z.to_nat i) e xs).
Proof.
  intros Hs Hn Hi. pose proof Hs as (l & v0 & v1 & A). unfold d_add. rewrite (da_size _ _ _ _ _ A), (proj2 (position_spec i _)) by done. cbn [negb].
  destruct (Z.eqb_spec i (zlen xs)) as [->|Hne].
  { unfold zlen. rewrite Nat2Z.id. by apply d_addLast_ok. }
  destruct (pair_exists _ _ _ (Z.to_nat i) (da_links _ _ _ _ _ A)) as (p & q & v & w & P); [rewrite (double_length _ _ _ _ _ A); unfold zlen in *; lia|].
  destruct (double_fresh _ _ _ _ _ _ _ _ _ _ A P) as (Ha & Hap & Haq). pose proof P as [Pp Pq _ _ Hp Hq Hpq].
  rewrite (double_walk _ _ _ _ _ _ A) by lia. cbn [mbind outcome_bind]. rewrite Pq. follow. rewrite new_node_eq. set (a := fresh (dom (dnodes s))) in *. do 4 follow.
  rewrite ints_ok by (repeat constructor; lia). cbn [mbind outcome_bind]. eexists. split; [done|].
  apply (double_inserted s xs l v0 v1 (Z.to_nat i) p q v w a e); [done|apply A|apply A|done|done|done|by look|by look|by look|]. intros b Hba Hbp Hbq. by look.
Qed.

(** An element with its two neighbours. *)
Lemma double_three s xs l v0 v1 k : double_at s xs l v0 v1 -> (k < length xs)%nat -> exists p x q v w u,
  pair_at (dnodes s) l (v0 :: xs ++ [v1]) k p x v w /\ pair_at (dnodes s) l (v0 :: xs ++ [v1]) (S k) x q w u /\ p <> q.
Proof.
  intros A Hk. pose proof (double_length _ _ _ _ _ A) as Hl.
  destruct (pair_exists _ _ _ k (da_links _ _ _ _ _ A)) as (p & x & v & w & P); [lia|].
  destruct (pair_exists _ _ _ (S k) (da_links _ _ _ _ _ A)) as (x' & q & w' & u & Q); [lia|].
  assert (x' = x) as -> by (pose proof (pa_second _ _ _ _ _ _ _ _ P); pose proof (pa_first _ _ _ _ _ _ _ _ Q); congruence).
  assert (w' = w) as -> by (pose proof (pa_w _ _ _ _ _ _ _ _ P); pose proof (pa_v _ _ _ _ _ _ _ _ Q); congruence).
  exists p, x, q, v, w, u. split; [done|]. split; [done|]. intros <-.
  pose proof (links_place _ _ _ _ _ _ _ (da_links _ _ _ _ _ A) (pa_first _ _ _ _ _ _ _ _ P) (pa_second _ _ _ _ _ _ _ _ Q)). lia.
Qed.

Lemma d_removeFirst_ok s xs x : double_ok s xs -> xs !! 0%nat = Some x -> exists s', d_removeFirst s = Ok (s', Value x) /\ double_ok s' (delete 0%nat xs).
Proof.
  intros (l & v0 & v1 & A) Hx. pose proof (lookup_lt_Some _ _ _ Hx) as Hl. destruct (double_three _ _ _ _ _ 0 A Hl) as (p & y & q & v & w & u & P & Q & Hpq).
  pose proof P as [Pp Py _ _ Hp _ Hpy]. pose proof Q as [_ Pq _ _ Hy Hq Hyq]. unfold d_removeFirst.
  rewrite (da_size _ _ _ _ _ A), (proj2 (Z.ltb_ge _ _)) by (unfold zlen; lia). rewrite (da_head _ _ _ _ _ A), Pp. do 6 follow.
  assert (double_ok (mkDouble (Some p) (dtail s) (zlen xs - 1) (delete y (<[q := mkDNode u (l !! 3%nat) (Some p)]> (<[p := mkDNode v (Some q) (before l 0)]> (dnodes s))))) (delete 0%nat xs) /\ xs !! 0%nat = Some w) as [H' Hw].
  { apply (double_removed s xs l v0 v1 0 p y q v w u); [done|done|apply A|done|done|done|by look|by look|by look|]. intros b Hby Hbp Hbq. by look. }
  assert (w = x) as -> by congruence. eexists. split; [done|exact H'].
Qed.

Lemma d_removeLast_ok s xs k x : double_ok s xs -> xs !! k = Some x -> length xs = S k -> exists s', d_removeLast s = Ok (s', Value x) /\ double_ok s' (delete k xs).
Proof.
  intros (l & v0 & v1 & A) Hx Hl. destruct (double_three _ _ _ _ _ k A ltac:(lia)) as (p & y & q & v & w & u & P & Q & Hpq).
  pose proof P as [Pp Py _ _ Hp _ Hpy]. pose proof Q as [_ Pq _ _ Hy Hq Hyq]. cbn [before] in Hy. rewrite Pp in Hy. unfold d_removeLast.
  rewrite (da_size _ _ _ _ _ A), (proj2 (Z.ltb_ge _ _)) by (unfold zlen; lia). rewrite (da_tail _ _ _ _ _ A), Hl, Pq. do 8 follow.
  match goal with |- exists s', Ok (mkDouble ?hd ?tl ?n ?h, _) = _ /\ _ => assert (double_ok (mkDouble hd tl n h) (delete k xs) /\ xs !! k = Some w) as [H' Hw] end.
  { apply (double_removed s xs l v0 v1 k p y q v w u); [done|apply A|by rewrite Hl|done|done|done|by look|by look|by look|]. intros b Hby Hbp Hbq. by look. }
  assert (w = x) as -> by congruence. eexists. split; [done|exact H'].
Qed.

Lemma d_remove_ok s xs i x : double_ok s xs -> 0 <= i -> xs !! Z.to_nat i = Some x -> exists s', d_remove i s = Ok (s', Value x) /\ double_ok s' (delete (Z.to_nat i) xs).
Proof.
  intros (l & v0 & v1 & A) Hi Hx. pose proof (lookup_lt_Some _ _ _ Hx) as Hl. destruct (double_three _ _ _ _ _ (Z.to_nat i) A Hl) as (p & y & q & v & w & u & P & Q & Hpq).
  pose proof P as [Pp Py _ _ Hp _ Hpy]. pose proof Q as [_ Pq _ _ Hy Hq Hyq]. cbn [before] in Hy. rewrite Pp in Hy. unfold d_remove.
  rewrite (da_size _ _ _ _ _ A), (proj2 (element_spec i _)) by (unfold zlen; lia). cbn [negb]. rewrite (double_walk _ _ _ _ _ _ A), Py by (unfold zlen; lia).
  cbn [mbind outcome_bind]. do 7 follow.
  match goal with |- exists s', Ok (mkDouble ?hd ?tl ?n ?h, _) = _ /\ _ => assert (double_ok (mkDouble hd tl n h) (delete (Z.to_nat i) xs) /\ xs !! Z.to_nat i = Some w) as [H' Hw] end.
  { apply (double_removed s xs l v0 v1 (Z.to_nat i) p y q v w u); [done|apply A|apply A|done|done|done|by look|by look|by look|]. intros b Hby Hbp Hbq. by look. }
  assert (w = x) as -> by congruence. eexists. split; [done|exact H'].
Qed.

Lemma double_deref s xs l v0 v1 k x : double_at s xs l v0 v1 -> xs !! k = Some x -> exists a, l !! S k = Some a /\ dnodes s !! a = Some (mkDNode x (l !! S (S k)) (l !! k)).
Proof.
  intros A Hx. pose proof (lookup_lt_Some _ _ _ Hx) as Hk. destruct (lookup_lt_is_Some_2 l (S k)) as [a Ha]; [rewrite (double_length _ _ _ _ _ A); lia|]. exists a. split; [done|].
  apply (l_cell _ _ _ _ (da_links _ _ _ _ _ A) (S k) a x Ha). change ((xs ++ [v1]) !! k = Some x). by apply lookup_app_l_Some.
Qed.

Lemma double_ends s xs l v0 v1 : double_at s xs l v0 v1 ->
  deref (dnodes s) (dhead s) = Ok (mkDNode v0 (l !! 1%nat) None) /\ deref (dnodes s) (dtail s) = Ok (mkDNode v1 None (l !! length xs)).
Proof.
  intros A. pose proof (da_links _ _ _ _ _ A) as L. rewrite (da_head _ _ _ _ _ A), (da_tail _ _ _ _ _ A). split.
  - by rewrite (links_deref dcell _ l (v0 :: xs ++ [v1]) 0 v0 L).
  - rewrite (links_deref dcell _ l (v0 :: xs ++ [v1]) (S (length xs)) v1 L); [|change ((xs ++ [v1]) !! length xs = Some v1); by apply list_lookup_middle].
    unfold dcell. cbn [before]. rewrite lookup_ge_None_2; [done|]. rewrite (double_length _ _ _ _ _ A). lia.
Qed.

Lemma double_step_ok s xs c xs' r : double_ok s xs -> zlen xs + 1 < 2 ^ 31 -> list_step xs c xs' r ->
  exists s', double_call s c = Ok (s', r) /\ double_ok s' xs'.
Proof.
  intros Hs Hn Hc. pose proof Hs as (l & v0 & v1 & A). pose proof (da_size _ _ _ _ _ A) as Hz. destruct (double_ends _ _ _ _ _ A) as [Eh Et].
  assert (forall i, ~ 0 <= i < zlen xs -> isElementIndex i (dsize s) = false) as Hout
    by (intros i Hi; apply not_true_iff_false; by rewrite element_spec, Hz).
  assert (forall i x, 0 <= i -> xs !! Z.to_nat i = Some x -> 0 <= i < zlen xs) as Hin
    by (intros i x Hi Hx; apply lookup_lt_Some in Hx; unfold zlen; lia).
  assert (forall k x, xs !! k = Some x -> dsize s <? 1 = false) as Hne
    by (intros k x Hx; apply lookup_lt_Some in Hx; rewrite Hz; apply Z.ltb_ge; unfold zlen; lia).
  destruct Hc; cbn [double_call].
  - by apply d_addFirst_ok.
  - by apply d_addLast_ok.
  - by apply d_add_ok.
  - exists s. unfold d_add. rewrite Hz. destruct (isPositionIndex i (zlen xs)) eqn:E; [by apply position_spec in E|done].
  - by apply d_removeFirst_ok.
  - by apply d_removeLast_ok.
  - by apply d_remove_ok.
  - exists s. unfold d_remove. by rewrite Hout.
  - exists s. split; [|done]. unfold observe, d_getFirst. rewrite (Hne _ _ H), Eh. cbn [mbind outcome_bind dnext].
    destruct (double_deref _ _ _ _ _ _ _ A H) as (a & -> & Ea). by follow.
  - exists s. split; [|done]. unfold observe, d_getLast. rewrite (Hne _ _ H), Et, H0. cbn [mbind outcome_bind dprev].
    destruct (double_deref _ _ _ _ _ _ _ A H) as (a & -> & Ea). by follow.
  - subst xs. exists s. split; [|done]. rewrite !elem_of_cons in H0.
    destruct H0 as [->|[->|[->|[->|[]%not_elem_of_nil]]]]; cbn [double_call]; unfold d_removeFirst, d_removeLast, observe, d_getFirst, d_getLast; by rewrite Hz.
  - exists s. split; [|done]. unfold observe, d_get. rewrite Hz, (proj2 (element_spec _ _)) by eauto. cbn [negb]. rewrite (double_walk _ _ _ _ _ _ A) by eauto.
    cbn [mbind outcome_bind]. destruct (double_deref _ _ _ _ _ _ _ A H0) as (a & -> & Ea). by follow.
  - exists s. split; [|done]. unfold observe, d_get. by rewrite Hout.
  - unfold d_set. rewrite Hz, (proj2 (element_spec _ _)) by eauto. cbn [negb]. rewrite (double_walk _ _ _ _ _ _ A) by eauto.
    cbn [mbind outcome_bind]. destruct (double_deref _ _ _ _ _ _ _ A H0) as (a & Ha & Ea). rewrite Ha. do 2 follow. eexists. split; [done|].
    pose proof (lookup_lt_Some _ _ _ H0) as Hk. exists l, v0, v1. split; cbn [dnodes dhead dtail dsize].
    + rewrite <- insert_app_l by done. apply (linked_set dcell (dnodes s) l (v0 :: xs ++ [v1]) (S (Z.to_nat i)) a x e _ (da_links _ _ _ _ _ A) Ha); [|done].
      change ((xs ++ [v1]) !! Z.to_nat i = Some x). by apply lookup_app_l_Some.
    + apply A.
    + rewrite length_insert. apply A.
    + unfold zlen. by rewrite length_insert.
  - exists s. unfold d_set. by rewrite Hout.
  - exists s. by rewrite Hz.
  - exists s. by rewrite Hz.
Qed.

Lemma new_double_ok : exists s, new_DoubleLinkedList = Ok s /\ double_ok s [].
Proof.
  unfold new_DoubleLinkedList. rewrite new_node_eq. set (a := fresh (dom (∅ : gmap addr DNode))). rewrite new_node_eq. set (m := <[a := _]> _). set (b := fresh (dom m)).
  assert (b <> a) as Hba. { intros E. apply (is_fresh (dom m)). fold b. rewrite E. apply elem_of_dom. unfold m. rewrite lookup_insert_eq. eauto. }
  unfold m. do 2 follow. eexists. split; [done|]. exists [a; b], inhabitant, inhabitant. split; [|done|done|done]. cbn [dnodes]. split.
  - apply NoDup_cons. split; [|apply NoDup_singleton]. intros E%list_elem_of_singleton. by symmetry in E.
  - done.
  - intros d Hd. rewrite !elem_of_cons in Hd. assert (a <> d /\ b <> d) as [??] by (split; intros ->; tauto). look. apply lookup_empty.
  - intros [|[|[|i]]] d v; [| |done|done]; intros [= <-] [= <-]; by look.
Qed.

Lemma remove_all_ok fuel s xs : double_ok s xs -> (length xs <= fuel)%nat -> exists s', remove_all fuel s = Ok s' /\ double_ok s' [].
Proof.
  induction fuel as [|fuel IH] in s, xs |- *; intros Hs Hf; pose proof Hs as (l & v0 & v1 & A); cbn [remove_all]; rewrite (da_size _ _ _ _ _ A).
  - destruct xs; [by exists s|cbn in Hf; lia].
  - destruct xs as [|x xs]; [by exists s|]. rewrite (proj2 (Z.ltb_lt _ _)) by (rewrite zlen_cons; pose proof (zlen_nonneg xs); lia).
    destruct (d_removeFirst_ok s (x :: xs) x Hs eq_refl) as (s' & -> & Hs'). cbn [mbind outcome_bind]. apply (IH s' xs); [done|cbn in Hf; lia].
Qed.

Lemma delete_double_ok s xs : double_ok s xs -> delete_double s = Ok ∅.
Proof.
  intros Hs. pose proof Hs as (l & v0 & v1 & A). unfold delete_double.
  destruct (remove_all_ok (size (dnodes s)) s xs Hs) as (s' & -> & l' & v0' & v1' & A'); [rewrite (links_size _ _ _ _ (da_links _ _ _ _ _ A)), (double_length _ _ _ _ _ A); lia|].
  cbn [mbind outcome_bind]. pose proof (double_length _ _ _ _ _ A') as Hl. destruct l' as [|a [|b [|]]]; try done. pose proof (da_links _ _ _ _ _ A') as L.
  rewrite (da_head _ _ _ _ _ A'), (da_tail _ _ _ _ _ A'). cbn [lookup list_lookup length].
  pose proof (l_cell _ _ _ _ L 0%nat a v0' eq_refl eq_refl) as Ea. pose proof (l_cell _ _ _ _ L 1%nat b v1' eq_refl eq_refl) as Eb.
  assert (a <> b) as Hab by (pose proof (l_nodup _ _ _ _ L) as Hnd; apply NoDup_cons in Hnd as [Ha _]; intros ->; apply Ha; left).
  do 2 follow. f_equal. apply map_empty. intros d. destruct (decide (d = a)) as [->|Hda]; [by look|]. destruct (decide (d = b)) as [->|Hdb]; [by look|]. look.
  apply (l_none _ _ _ _ L). rewrite !elem_of_cons. intros [?|[?|[]%not_elem_of_nil]]; done.
Qed.

Lemma double_life_ok (cs : list (call T)) : zlen cs < 2 ^ 31 -> double_life cs = Ok (list_calls [] cs, ∅).
Proof.
  intros Hn. unfold double_life. destruct new_double_ok as (s0 & -> & Hs0). cbn [mbind outcome_bind].
  destruct (run_calls_list double_ok double_call double_step_ok cs s0 [] Hs0 Hn) as (s & xs & -> & Hs). cbn [mbind outcome_bind].
  by rewrite (delete_double_ok s xs Hs).
Qed.
End double.

(** ** Properties *)

(** C33: from constructor to destructor, both linked lists answer any fewer
    than [2^31] calls like a list with indices: values, sizes, and an
    exception exactly for an index out of range or an empty list, which
    changes nothing.  No pointer to nothing is followed, no node is freed
    twice, and none is left when the list is destroyed. *)
Theorem linked_lists_are_lists {T : Type} `{!Inhabited T} (cs : list (call T)) : zlen cs < 2 ^ 31 ->
  single_life cs = Ok (list_calls [] cs, ∅) /\ double_life cs = Ok (list_calls [] cs, ∅).
Proof. intros Hn. split; [by apply single_life_ok|by apply double_life_ok]. Qed.

Lemma linked_lists_are_lists_witness :
  single_life [AddLast 5; AddFirst 4; Add 1 9; RemoveLast; Get 7; Remove 0; GetFirst] = Ok ([Done; Done; Done; Value 5; Threw; Value 4; Value 9], ∅).
Proof. exact (proj1 (linked_lists_are_lists [AddLast 5; AddFirst 4; Add 1 9; RemoveLast; Get 7; Remove 0; GetFirst] ltac:(vm_compute; reflexivity))). Defined.
