(* ===== verification/HashMaps.v ===== *)
(** * HashMaps: maps and sets on hashing

    Models [MyHashMap] of [datastruct/list_hash.cpp], [ArrayHashMap] of
    [array_hash.cpp], [LinkedHashMap] of [list_hashmap.h], [LinkedHashSet] of
    [list_hashset.h] and [LinkedHashSetDirect] of [list_hashset_direct.h].
    [std::unordered_map] and [std::unordered_set] are finite maps and sets.
    A [std::list] is a list of nodes with addresses, and an iterator is an
    address: the order of the nodes changes, their addresses do not.  The
    chains of [MyHashMap] have one owner each and are lists.

    The specification of those that keep an order is a list of pairs in the
    order in which the keys came. *)
From S2P Require Import Prelude Vector.
From Stdlib Require Import Permutation.

(** ** list_hash.cpp *)

Definition CAPACITY : Z := 10000.
Definition MyHashMap : Type := list (list (Z * Z)).
Definition new_MyHashMap : MyHashMap := replicate (Z.to_nat CAPACITY) [].

(** [%] of [int]s keeps the sign. *)
Definition hash (key : Z) : Z := Z.rem key CAPACITY.

(** The first loop of [put]: the chain with the new value, if the key is
    there. *)
Fixpoint put_value (key value : Z) (chain : list (Z * Z)) : option (list (Z * Z)) :=
  match chain with
  | [] => None
  | (k, v) :: chain => if k =? key then Some ((k, value) :: chain) else c ← put_value key value chain; Some ((k, v) :: c)
  end.

Definition put (key value : Z) (table : MyHashMap) : outcome MyHashMap :=
  chain ← vget table (hash key);
  vset table (hash key) (match put_value key value chain with Some c => c | None => (key, value) :: chain end).

Fixpoint get_value (key : Z) (chain : list (Z * Z)) : option Z :=
  match chain with [] => None | (k, v) :: chain => if k =? key then Some v else get_value key chain end.

Definition get (key : Z) (table : MyHashMap) : outcome Z :=
  chain ← vget table (hash key); Ok (match get_value key chain with Some v => v | None => -1 end).

Fixpoint unlink (key : Z) (chain : list (Z * Z)) : list (Z * Z) :=
  match chain with [] => [] | (k, v) :: chain => if k =? key then chain else (k, v) :: unlink key chain end.

Definition remove (key : Z) (table : MyHashMap) : outcome MyHashMap :=
  chain ← vget table (hash key); vset table (hash key) (unlink key chain).

Inductive int_call := PutInt (key value : Z) | GetInt (key : Z) | RemoveInt (key : Z).

Fixpoint run_ints (table : MyHashMap) (cs : list int_call) : outcome (list Z) :=
  match cs with
  | [] => Ok []
  | PutInt k v :: cs => table ← put k v table; run_ints table cs
  | GetInt k :: cs => v ← get k table; vs ← run_ints table cs; Ok (v :: vs)
  | RemoveInt k :: cs => table ← remove k table; run_ints table cs
  end.

(** What the calls to [get] return. *)
Fixpoint map_ints (m : gmap Z Z) (cs : list int_call) : list Z :=
  match cs with
  | [] => []
  | PutInt k v :: cs => map_ints (<[k := v]> m) cs
  | GetInt k :: cs => default (-1) (m !! k) :: map_ints m cs
  | RemoveInt k :: cs => map_ints (delete k m) cs
  end.

Definition key_of (c : int_call) : Z := match c with PutInt k _ => k | GetInt k => k | RemoveInt k => k end.

(** ** Ordered maps *)

Abbreviation addr := positive.
(** The abstract object. *)
Abbreviation ordered K V := (list (K * V)).

Section maps.
Context {K V : Type} `{Countable K} `{!Inhabited V}.

Inductive call := Put (k : K) (v : V) | Get (k : K) | Remove (k : K) | Contains (k : K) | Size.
Inductive reply := Done | Value (v : option V) | Is (b : bool) | Count (n : Z) | Threw.

(** The operations of the abstract object. *)
Definition o_get (k : K) (o : ordered K V) : option V := snd <$> head (filter (fun p => p.1 = k) o).
Definition o_put (k : K) (v : V) (o : ordered K V) : ordered K V :=
  if decide (k ∈ o.*1) then (fun p => if decide (p.1 = k) then (k, v) else p) <$> o else o ++ [(k, v)].
Definition o_remove (k : K) (o : ordered K V) : ordered K V := filter (fun p => p.1 <> k) o.

Definition o_call (o : ordered K V) (c : call) : ordered K V * reply :=
  match c with
  | Put k v => (o_put k v o, Done)
  | Get k => (o, Value (o_get k o))
  | Remove k => (o_remove k o, Done)
  | Contains k => (o, Is (bool_decide (k ∈ o.*1)))
  | Size => (o, Count (zlen o))
  end.
Fixpoint o_calls (o : ordered K V) (cs : list call) : ordered K V * list reply :=
  match cs with [] => (o, []) | c :: cs => let '(o, r) := o_call o c in let '(o, rs) := o_calls o cs in (o, r :: rs) end.

(** ** array_hash.cpp *)

Record ArrayHashMap := mkArrayMap { keys : list K; values : list V; indexMap : gmap K Z; size : Z }.
Definition new_ArrayHashMap : ArrayHashMap := mkArrayMap [] [] ∅ 0.

Definition array_put (key : K) (value : V) (m : ArrayHashMap) : outcome ArrayHashMap :=
  match indexMap m !! key with
  | Some idx => vs ← vset (values m) idx value; Ok (mkArrayMap (keys m) vs (indexMap m) (size m))
  | None => _ ← ints [size m + 1]; Ok (mkArrayMap (keys m ++ [key]) (values m ++ [value]) (<[key := size m]> (indexMap m)) (size m + 1))
  end.

(** [None] for the exception. *)
Definition array_get (key : K) (m : ArrayHashMap) : outcome (option V) :=
  match indexMap m !! key with None => Ok None | Some idx => v ← vget (values m) idx; Ok (Some v) end.

Definition containsKey (key : K) (m : ArrayHashMap) : bool := bool_decide (is_Some (indexMap m !! key)).

Definition swapAndPopLast `{!Inhabited K} (idx : Z) (m : ArrayHashMap) : outcome ArrayHashMap :=
  if i32 (zlen (keys m)) <=? idx then Ok m
  else
    lastKey ← vget (keys m) (zlen (keys m) - 1);
    lastVal ← vget (values m) (zlen (values m) - 1);
    ks ← vset (keys m) idx lastKey;
    vs ← vset (values m) idx lastVal;
    Ok (mkArrayMap (take (length ks - 1) ks) (take (length vs - 1) vs) (delete lastKey (<[lastKey := idx]> (indexMap m))) (size m)).

Definition array_remove `{!Inhabited K} (key : K) (m : ArrayHashMap) : outcome ArrayHashMap :=
  match indexMap m !! key with
  | None => Ok m
  | Some idx => m ← swapAndPopLast idx m; _ ← ints [size m - 1]; Ok (mkArrayMap (keys m) (values m) (indexMap m) (size m - 1))
  end.

(** [randomKey] when [rand()] gives [r]; [None] for the exception. *)
Definition randomKey `{!Inhabited K} (r : Z) (m : ArrayHashMap) : outcome (option K) :=
  if size m =? 0 then Ok None else k ← vget (keys m) (Z.rem r (size m)); Ok (Some k).

Definition array_call `{!Inhabited K} (m : ArrayHashMap) (c : call) : outcome (ArrayHashMap * reply) :=
  match c with
  | Put k v => m ← array_put k v m; Ok (m, Done)
  | Get k => v ← array_get k m; Ok (m, Value v)
  | Remove k => m ← array_remove k m; Ok (m, Done)
  | Contains k => Ok (m, Is (containsKey k m))
  | Size => Ok (m, Count (size m))
  end.

(** ** list_hashmap.h *)

Record LinkedHashMap := mkLinked { order_list_ : list (addr * (K * V)); map_ : gmap K addr }.
Definition new_LinkedHashMap : LinkedHashMap := mkLinked [] ∅.

(** [it->second = value]. *)
Definition assign (it : addr) (value : V) (l : list (addr * (K * V))) : outcome (list (addr * (K * V))) :=
  _ ← defined_ (bool_decide (it ∈ l.*1)); Ok ((fun n => if decide (n.1 = it) then (n.1, (n.2.1, value)) else n) <$> l).
(** [order_list_.erase(it)]. *)
Definition erase (it : addr) (l : list (addr * (K * V))) : outcome (list (addr * (K * V))) :=
  _ ← defined_ (bool_decide (it ∈ l.*1)); Ok (filter (fun n => n.1 <> it) l).
(** [*it]. *)
Definition node_at (it : addr) (l : list (addr * (K * V))) : outcome (K * V) :=
  from_some Undefined (snd <$> head (filter (fun n => n.1 = it) l)).

Definition linked_put (key : K) (value : V) (m : LinkedHashMap) : outcome LinkedHashMap :=
  match map_ m !! key with
  | Some it => l ← assign it value (order_list_ m); Ok (mkLinked l (map_ m))
  | None =>
      let it := fresh (list_to_set (C := gset addr) (order_list_ m).*1) in
      Ok (mkLinked (order_list_ m ++ [(it, (key, value))]) (<[key := it]> (map_ m)))
  end.

Definition linked_get (key : K) (m : LinkedHashMap) : outcome (option V) :=
  match map_ m !! key with None => Ok None | Some it => p ← node_at it (order_list_ m); Ok (Some p.2) end.

Definition linked_remove (key : K) (m : LinkedHashMap) : outcome LinkedHashMap :=
  match map_ m !! key with None => Ok m | Some it => l ← erase it (order_list_ m); Ok (mkLinked l (delete key (map_ m))) end.

Definition linked_contains (key : K) (m : LinkedHashMap) : bool := bool_decide (is_Some (map_ m !! key)).
Definition linked_size (m : LinkedHashMap) : Z := Z.of_nat (base.size (map_ m)).
Definition linked_empty (m : LinkedHashMap) : bool := bool_decide (map_ m = ∅).
Definition linked_clear (m : LinkedHashMap) : LinkedHashMap := mkLinked [] ∅.
Definition linked_keys (m : LinkedHashMap) : list K := (fun n => n.2.1) <$> order_list_ m.
Definition linked_values (m : LinkedHashMap) : list V := (fun n => n.2.2) <$> order_list_ m.

Definition linked_call (m : LinkedHashMap) (c : call) : outcome (LinkedHashMap * reply) :=
  match c with
  | Put k v => m ← linked_put k v m; Ok (m, Done)
  | Get k => v ← linked_get k m; Ok (m, Value v)
  | Remove k => m ← linked_remove k m; Ok (m, Done)
  | Contains k => Ok (m, Is (linked_contains k m))
  | Size => Ok (m, Count (linked_size m))
  end.

Fixpoint run_calls {S} (step : S -> call -> outcome (S * reply)) (s : S) (cs : list call) : outcome (S * list reply) :=
  match cs with
  | [] => Ok (s, [])
  | c :: cs => '(s, r) ← step s c; '(s, rs) ← run_calls step s cs; Ok (s, r :: rs)
  end.
End maps.
Arguments call : clear implicits.
Arguments ArrayHashMap K V {_ _}.
Arguments LinkedHashMap K V {_ _}.

(** ** list_hashset.h, list_hashset_direct.h *)

Section sets.
Context {T : Type} `{Countable T}.

Inductive set_call := Add (x : T) | Drop (x : T) | Has (x : T) | HowMany | IsEmpty | Clear | ToVector.
Inductive set_reply := Did | Bool (b : bool) | Number (n : Z) | Elements (l : list T).

(** [LinkedHashSet] is a [LinkedHashMap] to [bool]. *)
Definition DUMMY_VALUE : bool := true.
Definition map_set_call (m : LinkedHashMap T bool) (c : set_call) : outcome (LinkedHashMap T bool * set_reply) :=
  match c with
  | Add x => m ← linked_put x DUMMY_VALUE m; Ok (m, Did)
  | Drop x => m ← linked_remove x m; Ok (m, Did)
  | Has x => Ok (m, Bool (linked_contains x m))
  | HowMany => Ok (m, Number (linked_size m))
  | IsEmpty => Ok (m, Bool (linked_empty m))
  | Clear => Ok (linked_clear m, Did)
  | ToVector => Ok (m, Elements (linked_keys m))
  end.

Record LinkedHashSetDirect := mkDirect { d_order : list T; d_set : gset T }.
Definition direct_call (s : LinkedHashSetDirect) (c : set_call) : LinkedHashSetDirect * set_reply :=
  match c with
  | Add x => (if bool_decide (x ∈ d_set s) then s else mkDirect (d_order s ++ [x]) ({[x]} ∪ d_set s), Did)
  | Drop x => (if bool_decide (x ∈ d_set s) then mkDirect (filter (fun y => y <> x) (d_order s)) (d_set s ∖ {[x]}) else s, Did)
  | Has x => (s, Bool (bool_decide (x ∈ d_set s)))
  | HowMany => (s, Number (Z.of_nat (base.size (d_set s))))
  | IsEmpty => (s, Bool (bool_decide (d_set s = ∅)))
  | Clear => (mkDirect [] ∅, Did)
  | ToVector => (s, Elements (d_order s))
  end.

Fixpoint run_map_set (m : LinkedHashMap T bool) (cs : list set_call) : outcome (list set_reply) :=
  match cs with [] => Ok [] | c :: cs => '(m, r) ← map_set_call m c; rs ← run_map_set m cs; Ok (r :: rs) end.
Fixpoint run_direct (s : LinkedHashSetDirect) (cs : list set_call) : list set_reply :=
  match cs with [] => [] | c :: cs => let '(s, r) := direct_call s c in r :: run_direct s cs end.
End sets.
Arguments set_call : clear implicits.

Example ints_few : run_ints new_MyHashMap [PutInt 1 1; PutInt 10001 2; PutInt 1 3; GetInt 1; RemoveInt 1; GetInt 1; GetInt 10001] = Ok [3; -1; 2].
Proof. vm_compute. reflexivity. Qed.
Example ints_negative : run_ints new_MyHashMap [GetInt (-5)] = Fail Undefined.
Proof. vm_compute. reflexivity. Qed.
(** [remove] forgets the wrong key. *)
Example apple_and_cherry :
  snd <$> run_calls array_call new_ArrayHashMap [Put 1 10; Put 2 20; Put 3 30; Remove 1; Get 1; Get 3; Size] =
    Ok [Done; Done; Done; Done; Value (Some 30); Value None; Count 2].
Proof. reflexivity. Qed.
Example linked_few :
  snd <$> run_calls linked_call new_LinkedHashMap [Put 1 10; Put 2 20; Put 3 30; Remove 1; Get 1; Get 3; Size] =
    Ok [Done; Done; Done; Done; Value None; Value (Some 30); Count 2].
Proof. reflexivity. Qed.

(** ** The chains *)

(** The table stands for [m]. *)
Record stands (table : MyHashMap) (m : gmap Z Z) : Prop := {
  st_length : zlen table = CAPACITY;
  st_get : forall k, 0 <= hash k -> get_value k (vat table (hash k)) = m !! k;
  st_nodup : forall i, 0 <= i < CAPACITY -> NoDup (vat table i).*1;
}.

Lemma key_hash_range k : 0 <= hash k -> 0 <= hash k < CAPACITY.
Proof. unfold hash, CAPACITY. intros Hk. split; [done|]. Z.to_euclidean_division_equations. lia. Qed.

Lemma new_stands : stands new_MyHashMap ∅.
Proof.
  assert (forall i, 0 <= i < CAPACITY -> vat new_MyHashMap i = []) as Hv by (intros i Hi; apply lookup_total_replicate_2; unfold CAPACITY in *; lia).
  split; [reflexivity| |]; intros i Hi; [rewrite Hv by (by apply key_hash_range); by rewrite lookup_empty|rewrite Hv by done; constructor].
Qed.

Lemma put_value_spec k v chain : match put_value k v chain with
  | Some c => k ∈ chain.*1 /\ c.*1 = chain.*1 /\ forall j, get_value j c = if decide (j = k) then Some v else get_value j chain
  | None => k ∉ chain.*1
  end.
Proof.
  induction chain as [|[x w] chain IH]; [apply not_elem_of_nil|]. cbn [put_value fmap list_fmap fst]. destruct (Z.eqb_spec x k) as [->|Hne].
  - split; [left|]. split; [done|]. intros j. cbn [get_value]. destruct (Z.eqb_spec k j) as [->|]; [by rewrite decide_True|by rewrite decide_False].
  - destruct (put_value k v chain) as [c|]; cbn [mbind option_bind].
    + destruct IH as (Hk & Hc & Hg). split; [by right|]. split; [cbn; by rewrite Hc|]. intros j. cbn [get_value].
      destruct (Z.eqb_spec x j) as [->|]; [by rewrite decide_False|apply Hg].
    + rewrite elem_of_cons. intros [?|?]; [by subst|done].
Qed.

Lemma get_value_none k chain : k ∉ chain.*1 -> get_value k chain = None.
Proof.
  induction chain as [|[x w] chain IH]; [done|]. cbn [get_value fmap list_fmap fst]. intros [Hx Hk]%not_elem_of_cons.
  destruct (Z.eqb_spec x k); [by subst|by apply IH].
Qed.

Lemma unlink_spec k chain : NoDup chain.*1 -> NoDup (unlink k chain).*1 /\ (forall j, j ∈ (unlink k chain).*1 -> j ∈ chain.*1) /\
  forall j, get_value j (unlink k chain) = if decide (j = k) then None else get_value j chain.
Proof.
  induction chain as [|[x w] chain IH]; intros Hd; [split; [constructor|]; split; [done|]; intros j; by case_decide|].
  cbn [fmap list_fmap fst] in Hd. apply NoDup_cons in Hd as [Hx Hd]. cbn [unlink]. destruct (Z.eqb_spec x k) as [->|Hne].
  - split; [done|]. split; [by right|]. intros j. cbn [get_value]. case_decide as Hj; [subst j; by apply get_value_none|]. by rewrite (proj2 (Z.eqb_neq k j)).
  - destruct (IH Hd) as (Hn & Hi & Hg). cbn [fmap list_fmap fst]. split; [constructor; [intros ?%Hi; done|done]|].
    split; [intros j [->|?%Hi]%elem_of_cons; [left|by right]|]. intros j. cbn [get_value]. destruct (Z.eqb_spec x j) as [->|]; [by rewrite decide_False|apply Hg].
Qed.

(** Changing the chain of [k] changes what is stored for [k]. *)
Lemma stands_update table m k chain o : stands table m -> 0 <= hash k -> NoDup chain.*1 ->
  (forall j, get_value j chain = if decide (j = k) then o else get_value j (vat table (hash k))) ->
  stands (vupd table (hash k) chain) (partial_alter (fun _ => o) k m).
Proof.
  intros S Hk Hd Hg. pose proof (key_hash_range k Hk). pose proof (st_length _ _ S) as Hl. split.
  - by rewrite zlen_vupd.
  - intros j Hj. rewrite vat_vupd by lia. destruct (decide (j = k)) as [->|Hne].
    + rewrite decide_True, Hg, decide_True by done. by rewrite lookup_partial_alter_eq.
    + rewrite lookup_partial_alter_ne by done. rewrite <- (st_get _ _ S j Hj). case_decide as E; [|done]. by rewrite Hg, decide_False, E by done.
  - intros i Hi. rewrite vat_vupd by lia. case_decide; [done|by apply S].
Qed.

Lemma vget_negative {A} `{!Inhabited A} (v : list A) i : i < 0 -> vget v i = Fail Undefined.
Proof. intros Hi. unfold vget, in_range. by rewrite (proj2 (Z.leb_gt _ _)). Qed.

Lemma run_ints_ok cs table m : stands table m ->
  run_ints table cs = if forallb (fun c => 0 <=? hash (key_of c)) cs then Ok (map_ints m cs) else Fail Undefined.
Proof.
  induction cs as [|c cs IH] in table, m |- *; intros S; [done|]. cbn [forallb]. destruct (Z.leb_spec 0 (hash (key_of c))) as [Hk|Hk]; cbn [andb].
  2: { destruct c; cbn [run_ints key_of] in *; unfold put, get, remove; by rewrite vget_negative. }
  pose proof (key_hash_range _ Hk) as Hr. pose proof (st_length _ _ S) as Hl. destruct c as [k v|k|k]; cbn [run_ints map_ints key_of] in *; unfold put, get, remove; rewrite vget_ok by lia; cbn [mbind outcome_bind].
  - rewrite vset_ok by lia. cbn [mbind outcome_bind]. apply IH. unfold insert, map_insert. pose proof (put_value_spec k v (vat table (hash k))) as Hp.
    pose proof (st_nodup _ _ S _ Hr) as Hd. destruct (put_value k v _) as [c|].
    + destruct Hp as (_ & Hc & Hg). apply stands_update; [done|done|by rewrite Hc|done].
    + apply stands_update; [done|done|by constructor|]. intros j. cbn [get_value]. destruct (Z.eqb_spec k j) as [->|]; [by rewrite decide_True|by rewrite decide_False].
  - rewrite (IH table m S). destruct (forallb _ cs); [|done]. cbn [mbind outcome_bind]. rewrite (st_get _ _ S k Hk). by destruct (m !! k).
  - rewrite vset_ok by lia. cbn [mbind outcome_bind]. apply IH. destruct (unlink_spec k (vat table (hash k)) (st_nodup _ _ S _ Hr)) as (Hn & _ & Hg).
    unfold delete, map_delete. by apply stands_update.
Qed.

(** ** Lists without repetition *)

(** Elements that are told apart by [f] are found by it. *)
Lemma filter_unique {A B} `{EqDecision B} (f : A -> B) l x : NoDup (f <$> l) -> x ∈ l -> filter (fun y => f y = f x) l = [x].
Proof.
  induction l as [|y l IH]; [by intros _ ?%not_elem_of_nil|]. cbn [fmap list_fmap]. intros [Hy Hd]%NoDup_cons [->|Hx]%elem_of_cons.
  - rewrite filter_cons_True by done. rewrite filter_none; [done|]. intros z Hz E. apply Hy. rewrite <- E. by apply list_elem_of_fmap_2.
  - rewrite filter_cons_False; [by apply IH|]. intros E. apply Hy. rewrite E. by apply list_elem_of_fmap_2.
Qed.

Lemma NoDup_inj {A B} (f : A -> B) l x y : NoDup (f <$> l) -> x ∈ l -> y ∈ l -> f x = f y -> x = y.
Proof.
  intros Hd [i Hi]%list_elem_of_lookup [j Hj]%list_elem_of_lookup E. assert (i = j) as ->; [|congruence].
  apply (NoDup_lookup (f <$> l) i j (f x)); [done|by rewrite list_lookup_fmap, Hi|by rewrite list_lookup_fmap, Hj, E].
Qed.

Lemma fmap_filter_ext {A B} (f : A -> B) (P : B -> Prop) (Q : A -> Prop) `{!forall x, Decision (P x)} `{!forall x, Decision (Q x)} (l : list A) :
  (forall x, x ∈ l -> P (f x) <-> Q x) -> filter P (f <$> l) = f <$> filter Q l.
Proof.
  induction l as [|x l IH]; intros HPQ; [done|]. cbn [fmap list_fmap]. pose proof (HPQ x ltac:(left)). rewrite !filter_cons.
  assert (filter P (f <$> l) = f <$> filter Q l) as E by (apply IH; intros y Hy; apply HPQ; by right).
  repeat case_decide; try tauto; cbn [fmap list_fmap]; by rewrite <- E.
Qed.

Lemma NoDup_fmap_filter {A B} (f : A -> B) (P : A -> Prop) `{!forall x, Decision (P x)} (l : list A) : NoDup (f <$> l) -> NoDup (f <$> filter P l).
Proof. intros Hd. eapply sublist_NoDup; [exact Hd|]. apply fmap_sublist. apply sublist_filter. Qed.

Section ordered.
Context {K V : Type} `{Countable K} `{!Inhabited K} `{!Inhabited V}.
Implicit Types (o : ordered K V) (k : K).

Lemma o_get_some o k v : NoDup o.*1 -> (k, v) ∈ o -> o_get k o = Some v.
Proof. intros Hd Hi. unfold o_get. by rewrite (filter_unique fst o (k, v) Hd Hi). Qed.
Lemma o_get_none o k : k ∉ o.*1 -> o_get k o = None.
Proof. intros Hk. unfold o_get. rewrite filter_none; [done|]. intros p Hp <-. apply Hk. by apply list_elem_of_fmap_2. Qed.

Lemma o_put_old o k v : k ∈ o.*1 -> o_put k v o = (fun p => if decide (p.1 = k) then (k, v) else p) <$> o.
Proof. intros Hk. unfold o_put. by rewrite decide_True. Qed.
Lemma o_put_new o k v : k ∉ o.*1 -> o_put k v o = o ++ [(k, v)].
Proof. intros Hk. unfold o_put. by rewrite decide_False. Qed.

Lemma o_put_keys o k v : (o_put k v o).*1 = if decide (k ∈ o.*1) then o.*1 else o.*1 ++ [k].
Proof.
  case_decide as Hk; [rewrite o_put_old by done|rewrite o_put_new by done; by rewrite fmap_app].
  rewrite <- list_fmap_compose. apply list_fmap_ext. intros i p _. cbn. by case_decide.
Qed.

Lemma o_put_nodup o k v : NoDup o.*1 -> NoDup (o_put k v o).*1.
Proof.
  intros Hd. rewrite o_put_keys. case_decide; [done|]. apply NoDup_app. split; [done|]. split; [by intros x ? ->%list_elem_of_singleton|apply NoDup_singleton].
Qed.

Lemma o_call_length o (c : call K V) : zlen (o_call o c).1 <= zlen o + 1.
Proof.
  pose proof (zlen_nonneg o). destruct c; cbn; try lia.
  - unfold o_put. case_decide; [rewrite zlen_fmap; lia|]. rewrite zlen_app. unfold zlen. cbn. lia.
  - unfold o_remove. pose proof (zlen_filter_le (fun p => p.1 <> k) o). lia.
Qed.

(** A map that does every call like the ordered map does every sequence of
    them; [good] says which calls. *)
Fixpoint all_good (good : ordered K V -> call K V -> Prop) o cs : Prop :=
  match cs with [] => True | c :: cs => good o c /\ all_good good (o_call o c).1 cs end.

Lemma ordered_run_ok {S} (ok : S -> ordered K V -> Prop) (step : S -> call K V -> outcome (S * reply)) good :
  (forall s o c, ok s o -> zlen o + 1 < 2 ^ 31 -> good o c -> exists s', step s c = Ok (s', (o_call o c).2) /\ ok s' (o_call o c).1) ->
  forall cs s o, ok s o -> zlen o + zlen cs < 2 ^ 31 -> all_good good o cs ->
  exists s', run_calls step s cs = Ok (s', (o_calls o cs).2) /\ ok s' (o_calls o cs).1.
Proof.
  intros Hstep. induction cs as [|c cs IH]; intros s o Hs Hn Hg; [by exists s|]. rewrite zlen_cons in Hn. pose proof (zlen_nonneg cs). destruct Hg as [Hc Hg].
  cbn [run_calls o_calls]. destruct (Hstep s o c Hs ltac:(lia) Hc) as (s' & -> & Hs'). pose proof (o_call_length o c). destruct (o_call o c) as [o' r]. cbn [fst snd mbind outcome_bind] in *.
  destruct (IH s' o' Hs' ltac:(lia) Hg) as (s2 & -> & H2). cbn [mbind outcome_bind]. destruct (o_calls o' cs) as [o2 rs]. by exists s2.
Qed.

(** ** The map with keys in an array *)

Record array_ok (m : ArrayHashMap K V) o : Prop := {
  ar_keys : keys m = o.*1;
  ar_values : values m = o.*2;
  ar_size : size m = zlen o;
  ar_nodup : NoDup o.*1;
  ar_index : forall k i, indexMap m !! k = Some i <-> 0 <= i /\ o.*1 !! Z.to_nat i = Some k;
}.

Lemma array_new_ok : array_ok new_ArrayHashMap [].
Proof. split; try done; [constructor|]. intros k i. cbn. rewrite lookup_empty. split; [done|intros [_ ?]; done]. Qed.

Lemma array_index m o k : array_ok m o ->
  (indexMap m !! k = None /\ k ∉ o.*1) \/ (exists i v, indexMap m !! k = Some i /\ 0 <= i < zlen o /\ o !! Z.to_nat i = Some (k, v)).
Proof.
  intros A. destruct (indexMap m !! k) as [i|] eqn:E.
  - right. apply (ar_index _ _ A) in E as [Hi Hk]. rewrite list_lookup_fmap in Hk. apply fmap_Some in Hk as ([k' v] & Ho & ->). exists i, v.
    split; [done|]. split; [|done]. apply lookup_lt_Some in Ho. unfold zlen. lia.
  - left. split; [done|]. intros [j Hj]%list_elem_of_lookup. assert (indexMap m !! k = Some (Z.of_nat j)) as E'; [|congruence].
    apply (ar_index _ _ A). rewrite Nat2Z.id. split; [lia|done].
Qed.

Lemma array_put_ok m o k v : array_ok m o -> zlen o + 1 < 2 ^ 31 -> exists m', array_put k v m = Ok m' /\ array_ok m' (o_put k v o).
Proof.
  intros A Hn. pose proof (zlen_nonneg o). unfold array_put. destruct (array_index m o k A) as [[-> Hk]|(i & w & -> & Hi & Ho)].
  - rewrite (ar_size _ _ A), ints_ok by (repeat constructor; lia). cbn [mbind outcome_bind]. eexists. split; [done|]. rewrite o_put_new by done.
    split; cbn [keys values size indexMap]; [rewrite fmap_app; by rewrite (ar_keys _ _ A)|rewrite fmap_app; by rewrite (ar_values _ _ A)|rewrite zlen_app; done|..].
    + rewrite <- o_put_new by done. apply o_put_nodup, A.
    + intros j i. rewrite fmap_app. cbn [fmap list_fmap fst]. destruct (decide (j = k)) as [->|Hne].
      * rewrite lookup_insert_eq. split.
        -- intros [= <-]. split; [done|]. apply list_lookup_middle. rewrite length_fmap. unfold zlen. lia.
        -- intros [Hi Hj]. apply lookup_app_Some in Hj as [Hj|[Hl Hj]]; [destruct Hk; by eapply list_elem_of_lookup_2|].
           apply list_lookup_singleton_Some in Hj as [Hj _]. rewrite length_fmap in *. f_equal. unfold zlen. lia.
      * rewrite lookup_insert_ne by done. rewrite (ar_index _ _ A). split; intros [Hi Hj]; (split; [done|]).
        -- by apply lookup_app_l_Some.
        -- apply lookup_app_Some in Hj as [Hj|[_ Hj]]; [done|]. apply list_lookup_singleton_Some in Hj as [_ ?]. congruence.
  - assert (k ∈ o.*1) as Hk by (apply list_elem_of_fmap; exists (k, w); split; [done|by eapply list_elem_of_lookup_2]).
    rewrite vset_ok by (rewrite (ar_values _ _ A), zlen_fmap; lia). cbn [mbind outcome_bind]. eexists. split; [done|].
    split; cbn [keys values size indexMap].
    + rewrite o_put_keys, decide_True by done. apply A.
    + rewrite o_put_old, (ar_values _ _ A) by done. apply list_eq. intros j. unfold vupd. rewrite !list_lookup_fmap.
      destruct (decide (j = Z.to_nat i)) as [->|Hne].
      * rewrite list_lookup_insert_eq by (rewrite length_fmap; unfold zlen in Hi; lia). rewrite Ho. cbn. by rewrite decide_True.
      * rewrite list_lookup_insert_ne by done. rewrite list_lookup_fmap. destruct (o !! j) as [[k' v']|] eqn:Hj; [|done]. cbn. rewrite decide_False; [done|].
        intros ->. apply Hne. apply (NoDup_lookup o.*1 j (Z.to_nat i) k (ar_nodup _ _ A)); by rewrite list_lookup_fmap, ?Hj, ?Ho.
    + rewrite o_put_old by done. rewrite zlen_fmap. apply A.
    + apply o_put_nodup, A.
    + intros j i'. rewrite o_put_keys, decide_True by done. apply A.
Qed.

Lemma array_get_ok m o k : array_ok m o -> array_get k m = Ok (o_get k o).
Proof.
  intros A. unfold array_get. destruct (array_index m o k A) as [[-> Hk]|(i & v & -> & Hi & Ho)]; [by rewrite o_get_none|].
  rewrite vget_ok by (rewrite (ar_values _ _ A), zlen_fmap; lia). cbn [mbind outcome_bind].
  rewrite (o_get_some o k v (ar_nodup _ _ A)) by (by eapply list_elem_of_lookup_2). do 2 f_equal. unfold vat. apply list_lookup_total_correct.
  by rewrite (ar_values _ _ A), list_lookup_fmap, Ho.
Qed.

Lemma o_remove_last o k v : NoDup (o ++ [(k, v)]).*1 -> o_remove k (o ++ [(k, v)]) = o.
Proof.
  rewrite fmap_app. intros (_ & Hk & _)%NoDup_app. unfold o_remove. rewrite filter_app, filter_all.
  - rewrite filter_cons_False by (cbn; tauto). apply app_nil_r.
  - intros p Hp E. apply (Hk k); [rewrite <- E; by apply list_elem_of_fmap_2|left].
Qed.

Lemma o_remove_absent o k : k ∉ o.*1 -> o_remove k o = o.
Proof. intros Hk. apply filter_all. intros p Hp <-. apply Hk. by apply list_elem_of_fmap_2. Qed.

(** What the arrays are after the last element took the place of another. *)
Lemma swap_pop m o k v i : array_ok m (o ++ [(k, v)]) -> zlen o < 2 ^ 31 - 1 -> 0 <= i <= zlen o ->
  swapAndPopLast i m = Ok (mkArrayMap (take (length o) (vupd (o.*1 ++ [k]) i k)) (take (length o) (vupd (o.*2 ++ [v]) i v)) (delete k (indexMap m)) (size m)).
Proof.
  intros A Hn Hi. unfold swapAndPopLast. rewrite (ar_keys _ _ A), (ar_values _ _ A), !fmap_app. cbn [fmap list_fmap fst snd].
  assert (forall (A : Type) (l : list A) x, zlen (l ++ [x]) = zlen l + 1) as Hz by (intros; unfold zlen; rewrite length_app; cbn; lia).
  rewrite !Hz, !zlen_fmap. rewrite wraps_small by lia. rewrite (proj2 (Z.leb_gt _ _)) by lia. replace (zlen o + 1 - 1) with (zlen o) by lia.
  rewrite (vget_ok (o.*1 ++ [k])) by (rewrite Hz, zlen_fmap; lia). cbn [mbind outcome_bind]. rewrite (vget_ok (o.*2 ++ [v])) by (rewrite Hz, zlen_fmap; lia). cbn [mbind outcome_bind].
  assert (vat (o.*1 ++ [k]) (zlen o) = k) as -> by (rewrite vat_app by lia; rewrite zlen_fmap, decide_False, Z.sub_diag by lia; done).
  assert (vat (o.*2 ++ [v]) (zlen o) = v) as -> by (rewrite vat_app by lia; rewrite zlen_fmap, decide_False, Z.sub_diag by lia; done).
  rewrite (vset_ok (o.*1 ++ [k])) by (rewrite Hz, zlen_fmap; lia). cbn [mbind outcome_bind]. rewrite (vset_ok (o.*2 ++ [v])) by (rewrite Hz, zlen_fmap; lia). cbn [mbind outcome_bind].
  unfold vupd. rewrite !length_insert, !length_app, !length_fmap. cbn [length]. replace (length o + 1 - 1)%nat with (length o) by lia. by rewrite delete_insert_eq.
Qed.

Lemma array_pop_ok m o k v : array_ok m (o ++ [(k, v)]) -> zlen o < 2 ^ 31 - 1 -> exists m', array_remove k m = Ok m' /\ array_ok m' o.
Proof.
  intros A Hn. pose proof (zlen_nonneg o). pose proof (ar_nodup _ _ A) as Hd. pose proof Hd as Hd'. rewrite fmap_app in Hd'. apply NoDup_app in Hd' as (Hdo & Hko & _).
  assert (indexMap m !! k = Some (zlen o)) as E.
  { apply (ar_index _ _ A). split; [done|]. rewrite fmap_app. apply list_lookup_middle. rewrite length_fmap. unfold zlen. lia. }
  unfold array_remove. rewrite E, (swap_pop m o k v) by (done || lia). cbn [mbind outcome_bind size keys values indexMap]. rewrite (ar_size _ _ A).
  assert (zlen (o ++ [(k, v)]) = zlen o + 1) as -> by (unfold zlen; rewrite length_app; cbn; lia). rewrite ints_ok by (repeat constructor; lia). cbn [mbind outcome_bind].
  eexists. split; [done|]. unfold vupd. replace (Z.to_nat (zlen o)) with (length o) by (unfold zlen; lia).
  split; cbn [keys values size indexMap]; [..|lia|done|].
  - rewrite take_insert_ge, take_app_le by (rewrite ?length_fmap; lia). apply take_ge. by rewrite length_fmap.
  - rewrite take_insert_ge, take_app_le by (rewrite ?length_fmap; lia). apply take_ge. by rewrite length_fmap.
  - intros j i. destruct (decide (j = k)) as [->|Hne].
    + rewrite lookup_delete_eq. split; [done|]. intros [_ Hj]. destruct (Hko k); [by eapply list_elem_of_lookup_2|left].
    + rewrite lookup_delete_ne, (ar_index _ _ A), fmap_app by done. split; intros [Hi Hj]; (split; [done|]); [|by apply lookup_app_l_Some].
      apply lookup_app_Some in Hj as [Hj|[_ Hj]]; [done|]. apply list_lookup_singleton_Some in Hj as [_ ?]. cbn in *. congruence.
Qed.

(** The calls that remove nothing but the newest key. *)
Definition removes_newest o (c : call K V) : Prop := match c with Remove k => k ∉ o.*1 \/ last o.*1 = Some k | _ => True end.

Lemma array_step_ok m o (c : call K V) : array_ok m o -> zlen o + 1 < 2 ^ 31 -> removes_newest o c ->
  exists m', array_call m c = Ok (m', (o_call o c).2) /\ array_ok m' (o_call o c).1.
Proof.
  intros A Hn Hg. destruct c as [k v|k|k|k|]; cbn [array_call o_call fst snd].
  - destruct (array_put_ok m o k v A Hn) as (m' & -> & A'). by exists m'.
  - rewrite (array_get_ok m o k A). by exists m.
  - destruct Hg as [Hk|Hk].
    + exists m. rewrite o_remove_absent by done. split; [|done]. unfold array_remove. by destruct (array_index m o k A) as [[-> _]|(i & v & _ & _ & Ho)];
        [|destruct Hk; apply list_elem_of_fmap; exists (k, v); split; [done|by eapply list_elem_of_lookup_2]].
    + destruct o as [|[k' v] o _] using rev_ind; [done|]. rewrite fmap_app in Hk. cbn in Hk. rewrite last_snoc in Hk. injection Hk as ->.
      rewrite o_remove_last by apply A. assert (zlen o < 2 ^ 31 - 1) as Hz by (rewrite zlen_app in Hn; change (zlen [(k, v)]) with 1 in Hn; lia).
      destruct (array_pop_ok m o k v A Hz) as (m' & -> & A'). by exists m'.
  - exists m. split; [|done]. do 3 f_equal. unfold containsKey. destruct (array_index m o k A) as [[-> Hk]|(i & v & -> & _ & Ho)].
    + rewrite !bool_decide_false; [done|done|by intros [? ?]].
    + rewrite !bool_decide_true; [done| |eauto]. apply list_elem_of_fmap. exists (k, v). split; [done|by eapply list_elem_of_lookup_2].
  - exists m. by rewrite (ar_size _ _ A).
Qed.

(** Removing any other key gives it the newest value and loses the newest
    key. *)
Lemma array_remove_wrong m o1 o2 k v k' v' : array_ok m (o1 ++ (k, v) :: o2 ++ [(k', v')]) -> zlen (o1 ++ (k, v) :: o2 ++ [(k', v')]) < 2 ^ 31 ->
  exists m', array_remove k m = Ok m' /\ array_get k m' = Ok (Some v') /\ array_get k' m' = Ok None.
Proof.
  intros A Hn. set (o := o1 ++ (k, v) :: o2). assert (o1 ++ (k, v) :: o2 ++ [(k', v')] = o ++ [(k', v')]) as E by (unfold o; by rewrite <- app_assoc).
  rewrite E in A, Hn. rewrite zlen_app in Hn. change (zlen [(k', v')]) with 1 in Hn. pose proof (zlen_nonneg o).
  assert (zlen o1 < zlen o) as Hz by (unfold o; rewrite zlen_app, zlen_cons; pose proof (zlen_nonneg o2); lia). pose proof (zlen_nonneg o1).
  assert (o.*1 !! length o1 = Some k) as Hk by (unfold o; rewrite fmap_app; apply list_lookup_middle; by rewrite length_fmap).
  assert (indexMap m !! k = Some (zlen o1)) as Hi.
  { apply (ar_index _ _ A). split; [done|]. unfold zlen. rewrite Nat2Z.id, fmap_app. by apply lookup_app_l_Some. }
  assert (k' <> k) as Hkk.
  { intros ->. pose proof (ar_nodup _ _ A) as Hd. rewrite fmap_app in Hd. apply NoDup_app in Hd as (_ & Hd & _). apply (Hd k); [by eapply list_elem_of_lookup_2|left]. }
  unfold array_remove. rewrite Hi, (swap_pop m o k' v') by (done || lia). cbn [mbind outcome_bind size keys values indexMap].
  rewrite (ar_size _ _ A), zlen_app. change (zlen [(k', v')]) with 1. rewrite ints_ok by (repeat constructor; lia). cbn [mbind outcome_bind]. eexists. split; [done|].
  unfold array_get. cbn [indexMap values]. rewrite lookup_delete_eq, lookup_delete_ne, Hi by done. split; [|done]. unfold vupd, zlen in *. rewrite Nat2Z.id.
  assert (take (length o) (<[length o1 := v']> (o.*2 ++ [v'])) !! length o1 = Some v') as Hv.
  { rewrite lookup_take_lt by lia. apply list_lookup_insert_eq. rewrite length_app, length_fmap. cbn. lia. }
  rewrite vget_ok; [|apply lookup_lt_Some in Hv; unfold zlen; lia]. cbn [mbind outcome_bind]. do 2 f_equal. unfold vat. rewrite Nat2Z.id. by apply list_lookup_total_correct.
Qed.

(** ** The map with a list of nodes *)

Record linked_ok (m : LinkedHashMap K V) o : Prop := {
  lk_order : (order_list_ m).*2 = o;
  lk_addrs : NoDup (order_list_ m).*1;
  lk_nodup : NoDup o.*1;
  lk_map : forall k a, map_ m !! k = Some a <-> exists v, (a, (k, v)) ∈ order_list_ m;
}.

Lemma linked_new_ok : linked_ok new_LinkedHashMap [].
Proof. split; [done|constructor|constructor|]. intros k a. cbn. rewrite lookup_empty. split; [done|by intros [v ?%not_elem_of_nil]]. Qed.

Lemma linked_find m o k : linked_ok m o ->
  (map_ m !! k = None /\ k ∉ o.*1) \/
  (exists a v, map_ m !! k = Some a /\ (a, (k, v)) ∈ order_list_ m /\ (k, v) ∈ o /\ forall n, n ∈ order_list_ m -> n.1 = a <-> n.2.1 = k).
Proof.
  intros L. destruct (map_ m !! k) as [a|] eqn:E.
  - right. apply (lk_map _ _ L) in E as E'. destruct E' as [v Hv]. exists a, v. split; [done|]. split; [done|]. split.
    + rewrite <- (lk_order _ _ L). by apply (list_elem_of_fmap_2 snd) in Hv.
    + intros n Hn. pose proof (lk_nodup _ _ L) as Hd. rewrite <- (lk_order _ _ L), <- list_fmap_compose in Hd. split.
      * intros En. by rewrite (NoDup_inj fst _ n (a, (k, v)) (lk_addrs _ _ L) Hn Hv En).
      * intros En. by rewrite (NoDup_inj (fst ∘ snd) _ n (a, (k, v)) Hd Hn Hv En).
  - left. split; [done|]. rewrite <- (lk_order _ _ L), <- list_fmap_compose. intros ([a [k' v]] & -> & Hn)%list_elem_of_fmap. cbn in E.
    assert (map_ m !! k' = Some a) as E' by (apply (lk_map _ _ L); by exists v). congruence.
Qed.

Lemma linked_put_ok m o k v : linked_ok m o -> exists m', linked_put k v m = Ok m' /\ linked_ok m' (o_put k v o).
Proof.
  intros L. unfold linked_put. destruct (linked_find m o k L) as [[-> Hk]|(a & w & -> & Ha & Ho & Heq)].
  - eexists. split; [done|]. rewrite o_put_new by done. set (a := fresh _).
    assert (a ∉ (order_list_ m).*1) as Hf by (intros Hi; apply (is_fresh (list_to_set (C := gset addr) (order_list_ m).*1)); by apply elem_of_list_to_set).
    split; cbn [order_list_ map_].
    + rewrite fmap_app. by rewrite (lk_order _ _ L).
    + rewrite fmap_app. apply NoDup_app. split; [apply L|]. split; [by intros x Hx ->%list_elem_of_singleton|apply NoDup_singleton].
    + rewrite <- o_put_new by done. apply o_put_nodup, L.
    + intros j b. setoid_rewrite elem_of_app. setoid_rewrite list_elem_of_singleton. destruct (decide (j = k)) as [->|Hne].
      * rewrite lookup_insert_eq. split; [intros [= <-]; exists v; by right|]. intros (w & [Hw|[= -> _]]); [|done]. destruct Hk.
        rewrite <- (lk_order _ _ L), <- list_fmap_compose. by apply (list_elem_of_fmap_2 (fst ∘ snd)) in Hw.
      * rewrite lookup_insert_ne, (lk_map _ _ L) by done. split; intros [w Hw]; exists w; [by left|]. destruct Hw as [?|[= _ ? _]]; [done|congruence].
  - assert (k ∈ o.*1) as Hk by (by apply (list_elem_of_fmap_2 fst) in Ho). unfold assign. rewrite bool_decide_true by (by apply (list_elem_of_fmap_2 fst) in Ha).
    cbn [defined_ mbind outcome_bind]. eexists. split; [done|]. set (f := fun n : addr * (K * V) => _). assert (forall n, (f n).1 = n.1 /\ (f n).2.1 = n.2.1) as Hf by (intros n; unfold f; by case_decide).
    assert ((f <$> order_list_ m).*1 = (order_list_ m).*1) as E1 by (rewrite <- list_fmap_compose; apply list_fmap_ext; intros i n _; apply Hf).
    split; cbn [order_list_ map_].
    + rewrite o_put_old by done. rewrite <- (lk_order _ _ L), <- !list_fmap_compose. apply list_fmap_ext. intros i n Hn%list_elem_of_lookup_2. cbn. unfold f.
      specialize (Heq n Hn). destruct (decide (n.1 = a)) as [E|E]; cbn; [rewrite decide_True by tauto; f_equal; tauto|by rewrite decide_False by tauto].
    + rewrite E1. apply L.
    + apply o_put_nodup, L.
    + intros j b. rewrite (lk_map _ _ L). split.
      * intros [u Hu]. exists (f (b, (j, u))).2.2. apply list_elem_of_fmap. exists (b, (j, u)). split; [|done]. unfold f. by case_decide.
      * intros [u Hu]. apply list_elem_of_fmap in Hu as ([b' [j' u']] & E & Hu). exists u'. destruct (Hf (b', (j', u'))) as [F1 F2]. rewrite <- E in F1, F2. cbn in F1, F2. by subst.
Qed.

Lemma linked_get_ok m o k : linked_ok m o -> linked_get k m = Ok (o_get k o).
Proof.
  intros L. unfold linked_get. destruct (linked_find m o k L) as [[-> Hk]|(a & w & -> & Ha & Ho & _)]; [by rewrite o_get_none|].
  unfold node_at. rewrite (filter_unique fst _ (a, (k, w)) (lk_addrs _ _ L) Ha). cbn. by rewrite (o_get_some o k w (lk_nodup _ _ L) Ho).
Qed.

Lemma linked_remove_ok m o k : linked_ok m o -> exists m', linked_remove k m = Ok m' /\ linked_ok m' (o_remove k o).
Proof.
  intros L. unfold linked_remove. destruct (linked_find m o k L) as [[-> Hk]|(a & w & -> & Ha & Ho & Heq)]; [exists m; by rewrite o_remove_absent|].
  unfold erase. rewrite bool_decide_true by (by apply (list_elem_of_fmap_2 fst) in Ha). cbn [defined_ mbind outcome_bind]. eexists. split; [done|].
  split; cbn [order_list_ map_].
  - unfold o_remove. rewrite <- (lk_order _ _ L). symmetry. apply fmap_filter_ext. intros n Hn. specialize (Heq n Hn). tauto.
  - apply NoDup_fmap_filter, L.
  - unfold o_remove. apply NoDup_fmap_filter, L.
  - intros j b. setoid_rewrite list_elem_of_filter. destruct (decide (j = k)) as [->|Hne].
    + rewrite lookup_delete_eq. split; [done|]. intros (u & Hb & Hu). destruct Hb. by apply (Heq _ Hu).
    + rewrite lookup_delete_ne, (lk_map _ _ L) by done. split; intros [u Hu]; exists u; [|tauto]. split; [|done]. cbn. intros ->. apply Hne. by apply (Heq _ Hu).
Qed.

Lemma linked_contains_ok m o k : linked_ok m o -> linked_contains k m = bool_decide (k ∈ o.*1).
Proof.
  intros L. unfold linked_contains. destruct (linked_find m o k L) as [[-> Hk]|(a & w & -> & _ & Ho & _)].
  - rewrite !bool_decide_false; [done|done|by intros [? ?]].
  - rewrite !bool_decide_true; [done| |eauto]. by apply (list_elem_of_fmap_2 fst) in Ho.
Qed.

Lemma linked_dom m o : linked_ok m o -> dom (map_ m) = list_to_set o.*1.
Proof.
  intros L. apply set_eq. intros k. rewrite elem_of_list_to_set, elem_of_dom. destruct (linked_find m o k L) as [[-> Hk]|(a & w & -> & _ & Ho & _)].
  - split; [by intros [? ?]|done].
  - split; [intros _; by apply (list_elem_of_fmap_2 fst) in Ho|eauto].
Qed.

Lemma linked_size_ok m o : linked_ok m o -> linked_size m = zlen o.
Proof.
  intros L. unfold linked_size, zlen. rewrite <- size_dom, (linked_dom m o L), size_list_to_set by apply L. by rewrite length_fmap.
Qed.

Lemma linked_step_ok m o (c : call K V) : linked_ok m o -> exists m', linked_call m c = Ok (m', (o_call o c).2) /\ linked_ok m' (o_call o c).1.
Proof.
  intros L. destruct c as [k v|k|k|k|]; cbn [linked_call o_call fst snd].
  - destruct (linked_put_ok m o k v L) as (m' & -> & L'). by exists m'.
  - rewrite (linked_get_ok m o k L). by exists m.
  - destruct (linked_remove_ok m o k L) as (m' & -> & L'). by exists m'.
  - exists m. by rewrite (linked_contains_ok m o k L).
  - exists m. by rewrite (linked_size_ok m o L).
Qed.
End ordered.

(** ** Sets that keep the order *)

Section ordered_sets.
Context {T : Type} `{Countable T} `{!Inhabited T}.
Implicit Types (o : list T).

Definition s_call o (c : set_call T) : list T * set_reply :=
  match c with
  | Add x => (if decide (x ∈ o) then o else o ++ [x], Did)
  | Drop x => (filter (fun y => y <> x) o, Did)
  | Has x => (o, Bool (bool_decide (x ∈ o)))
  | HowMany => (o, Number (zlen o))
  | IsEmpty => (o, Bool (bool_decide (o = [])))
  | Clear => ([], Did)
  | ToVector => (o, Elements o)
  end.
Fixpoint s_calls o cs : list set_reply := match cs with [] => [] | c :: cs => let '(o, r) := s_call o c in r :: s_calls o cs end.

Lemma map_set_step (m : LinkedHashMap T bool) kvs c : linked_ok m kvs ->
  exists m' kvs', map_set_call m c = Ok (m', (s_call kvs.*1 c).2) /\ linked_ok m' kvs' /\ kvs'.*1 = (s_call kvs.*1 c).1.
Proof.
  intros L. destruct c as [x|x|x| | | |]; cbn [map_set_call s_call fst snd].
  - destruct (linked_put_ok m kvs x DUMMY_VALUE L) as (m' & -> & L'). exists m', (o_put x DUMMY_VALUE kvs). by rewrite o_put_keys.
  - destruct (linked_remove_ok m kvs x L) as (m' & -> & L'). exists m', (o_remove x kvs). split; [done|]. split; [done|]. symmetry. by apply fmap_filter_ext.
  - exists m, kvs. by rewrite (linked_contains_ok m kvs x L).
  - exists m, kvs. rewrite (linked_size_ok m kvs L). by rewrite zlen_fmap.
  - exists m, kvs. split; [|done]. do 3 f_equal. unfold linked_empty. apply bool_decide_ext. rewrite <- dom_empty_iff_L, (linked_dom m kvs L).
    destruct kvs as [|p kvs]; [done|]. split; [|done]. cbn. set_solver.
  - exists new_LinkedHashMap, []. split; [done|]. split; [apply linked_new_ok|done].
  - exists m, kvs. split; [|done]. do 3 f_equal. unfold linked_keys. rewrite <- (lk_order _ _ L), <- list_fmap_compose. done.
Qed.

Record direct_ok (s : LinkedHashSetDirect) o : Prop := { dr_order : d_order s = o; dr_nodup : NoDup o; dr_set : d_set s = list_to_set o }.

Lemma direct_step s o c : direct_ok s o -> (direct_call s c).2 = (s_call o c).2 /\ direct_ok (direct_call s c).1 (s_call o c).1.
Proof.
  intros [Eo Hd Es]. destruct s as [l X]. cbn [d_order d_set] in *. subst l X.
  assert (forall x, bool_decide (x ∈ (list_to_set o : gset T)) = bool_decide (x ∈ o)) as Hin by (intros x; apply bool_decide_ext, elem_of_list_to_set).
  assert (direct_ok (mkDirect o (list_to_set o)) o) as D by done.
  destruct c as [x|x|x| | | |]; cbn [direct_call s_call fst snd d_order d_set]; rewrite ?Hin; (split; [try done|try done]).
  - case_bool_decide as Hx; [by rewrite decide_True|]. rewrite decide_False by done. split; cbn [d_order d_set]; [done| |].
    + apply NoDup_app. split; [done|]. split; [by intros y Hy ->%list_elem_of_singleton|apply NoDup_singleton].
    + rewrite list_to_set_app_L. cbn. set_solver.
  - case_bool_decide as Hx.
    + split; cbn [d_order d_set]; [done|by apply NoDup_filter|]. apply set_eq. intros y. rewrite elem_of_difference, elem_of_singleton, !elem_of_list_to_set, list_elem_of_filter. tauto.
    + rewrite filter_all by (intros y Hy ->; done). done.
  - by rewrite size_list_to_set.
  - f_equal. apply bool_decide_ext. destruct o as [|y o]; [done|]. split; [|done]. cbn. set_solver.
  - split; [done|constructor|done].
Qed.

Lemma map_set_run (cs : list (set_call T)) m kvs : linked_ok m kvs -> run_map_set m cs = Ok (s_calls kvs.*1 cs).
Proof.
  induction cs as [|c cs IH] in m, kvs |- *; intros L; [done|]. cbn [run_map_set s_calls].
  destruct (map_set_step m kvs c L) as (m' & kvs' & -> & L' & E). cbn [mbind outcome_bind]. rewrite (IH m' kvs' L'), E. by destruct (s_call kvs.*1 c).
Qed.

Lemma direct_run (cs : list (set_call T)) s o : direct_ok s o -> run_direct s cs = s_calls o cs.
Proof.
  induction cs as [|c cs IH] in s, o |- *; intros D; [done|]. cbn [run_direct s_calls]. destruct (direct_step s o c D) as [E D'].
  destruct (direct_call s c) as [s' r], (s_call o c) as [o' r']. cbn [fst snd] in *. by rewrite E, (IH s' o' D').
Qed.
End ordered_sets.

Lemma run_calls_app {K V S} (step : S -> call K V -> outcome (S * reply)) s cs cs' :
  run_calls step s (cs ++ cs') = ('(s, rs) ← run_calls step s cs; '(s, rs') ← run_calls step s cs'; Ok (s, rs ++ rs')).
Proof.
  induction cs as [|c cs IH] in s |- *; cbn [app run_calls mbind outcome_bind]; [by destruct (run_calls step s cs') as [[]|]|].
  destruct (step s c) as [[s1 r]|]; [|done]. cbn [mbind outcome_bind]. rewrite IH. destruct (run_calls step s1 cs) as [[s2 rs]|]; [|done]. cbn [mbind outcome_bind].
  by destruct (run_calls step s2 cs') as [[]|].
Qed.

(** ** Properties *)

(** C36: [MyHashMap] answers every sequence of calls like a map with -1 for a
    key that is not there, if no key has a negative remainder; with one that
    has, the first call on it reads outside the table. *)
Theorem int_map_is_map cs :
  run_ints new_MyHashMap cs = if forallb (fun c => 0 <=? hash (key_of c)) cs then Ok (map_ints ∅ cs) else Fail Undefined.
Proof. apply run_ints_ok, new_stands. Qed.

(** C37: [LinkedHashMap] answers fewer than [2^31] calls like a map that keeps
    the order in which its keys came, no iterator dangles, and its lists of
    keys and values are in that order.  [ArrayHashMap] answers like it as
    long as every key removed is absent or the newest.  Removing any other
    key fails: the key then has the value of the newest key, and the newest
    key is lost. *)
Theorem hash_maps_keep_order {K V : Type} `{Countable K} `{!Inhabited K} `{!Inhabited V} (cs : list (call K V)) : zlen cs < 2 ^ 31 - 1 ->
  (exists m, run_calls linked_call new_LinkedHashMap cs = Ok (m, (o_calls [] cs).2) /\ linked_keys m = (o_calls [] cs).1.*1 /\ linked_values m = (o_calls [] cs).1.*2) /\
  (all_good removes_newest [] cs ->
    (exists m, run_calls array_call new_ArrayHashMap cs = Ok (m, (o_calls [] cs).2)) /\
    forall o1 k v o2 k' v', (o_calls [] cs).1 = o1 ++ (k, v) :: o2 ++ [(k', v')] ->
      exists m, run_calls array_call new_ArrayHashMap (cs ++ [Remove k; Get k; Get k']) = Ok (m, (o_calls [] cs).2 ++ [Done; Value (Some v'); Value None])).
Proof.
  intros Hn. split; [|intros Hg].
  - destruct (ordered_run_ok linked_ok linked_call (fun _ _ => True) (fun s o c L _ _ => linked_step_ok s o c L) cs new_LinkedHashMap [] linked_new_ok) as (m & E & L);
      [change (zlen (@nil (K * V))) with 0; lia|generalize (@nil (K * V)) as o; induction cs as [|c cs IH]; intros o; cbn; [done|split; [done|apply IH; rewrite zlen_cons in Hn; lia]]|].
    exists m. split; [done|]. unfold linked_keys, linked_values. rewrite <- (lk_order _ _ L), <- !list_fmap_compose. done.
  - destruct (ordered_run_ok array_ok array_call removes_newest array_step_ok cs new_ArrayHashMap [] array_new_ok) as (m & E & A); [change (zlen (@nil (K * V))) with 0; lia|done|].
    split; [by exists m|]. intros o1 k v o2 k' v' Eo. rewrite Eo in A. assert (zlen (o_calls [] cs).1 <= zlen (@nil (K * V)) + zlen cs) as Hz.
    { clear. generalize (@nil (K * V)) as o. induction cs as [|c cs IH]; intros o; cbn [o_calls]; [change (zlen (@nil (call K V))) with 0; cbn [fst]; lia|]. rewrite zlen_cons.
      pose proof (o_call_length o c). destruct (o_call o c) as [o' r]. specialize (IH o'). destruct (o_calls o' cs). cbn [fst] in *. lia. }
    rewrite Eo in Hz. change (zlen (@nil (K * V))) with 0 in Hz.
    destruct (array_remove_wrong m o1 o2 k v k' v' A ltac:(lia)) as (m' & E1 & E2 & E3). exists m'. rewrite run_calls_app, E. cbn [mbind outcome_bind run_calls array_call].
    rewrite E1. cbn [mbind outcome_bind]. rewrite E2. cbn [mbind outcome_bind]. by rewrite E3.
Qed.

Lemma hash_maps_keep_order_witness :
  (exists m, run_calls linked_call new_LinkedHashMap [Put 1 10; Put 2 20; Remove 1; Put 1 30] = Ok (m, [Done; Done; Done; Done]) /\ linked_keys m = [2; 1] /\ linked_values m = [20; 30]) /\
  exists m, run_calls array_call new_ArrayHashMap [Put 1 10; Put 2 20; Put 3 30; Remove 1; Get 1; Get 3] = Ok (m, [Done; Done; Done; Done; Value (Some 30); Value None]).
Proof.
  split.
  - exact (proj1 (hash_maps_keep_order [Put 1 10; Put 2 20; Remove 1; Put 1 30] ltac:(vm_compute; reflexivity))).
  - destruct (hash_maps_keep_order [Put 1 10; Put 2 20; Put 3 30]) as [_ Hg]; [vm_compute; reflexivity|].
    exact (proj2 (Hg (conj I (conj I (conj I I)))) [] 1 10 [(2, 20)] 3 30 eq_refl).
Defined.

(** Both linked hash sets answer like a set that keeps the order in which
    its elements came, so each like the other. *)
Theorem linked_sets_agree {T : Type} `{Countable T} `{!Inhabited T} (cs : list (set_call T)) :
  run_map_set new_LinkedHashMap cs = Ok (s_calls [] cs) /\ run_direct (mkDirect [] ∅) cs = s_calls [] cs.
Proof.
  split; [by apply (map_set_run cs new_LinkedHashMap []), linked_new_ok|]. apply direct_run. by split; [|constructor|].
Qed.
